(* ===== verification/_CoqProject ===== *)
-Q . S2P
Prelude.v
Text.v
PyFloat.v
PyVal.v
PyDate.v
Entities.v
ContextEntities.v
Store.v
Json.v
Logic.v
Normalize.v
Matching.v
Conflicts.v
Projection.v
Reproject.v
Resolution.v
Reconcile.v
EventResolution.v
Ingestion.v
ClaimWrites.v
Merge.v
Outbox.v
Steps.v
Core.v
Idempotency.v
Slug.v
Publication.v
Keyset.v
PublicationSpec.v
Editorial.v
EditorialFacts.v
PublicRead.v
Maintenance.v
PyRe.v
Deidentification.v
Tenancy.v
TenantIsolation.v
Metering.v
TenantBatch.v
Paging.v
Cms.v
CmsFacts.v
Wp.v
Causality.v
CausalityFacts.v
Argus.v
ArgusFacts.v
HermesContent.v
HermesUrl.v
Hermes.v
HermesFacts.v
HermesRuns.v
HermesFetch.v
Provenance.v
Extraction.v
Chronos.v
ChronosFacts.v
Orion.v
OrionFacts.v
Echo.v
EchoFacts.v
