(* ===== verification/Prelude.v ===== *)
(** * Verification of the atlas aviation-safety platform

    The program (src/src/atlas) collects claims about aviation accidents from many
    sources, detects when they disagree, lets curators settle the disagreement, and
    publishes one projected record per accident with a full audit trail.  Around this
    core stand the editorial publication of pages, private spaces for tenants, a CMS,
    causality analysis, and engines that fetch sources, raise signals, extract timelines
    and entities, and look for precedents.  This development is a shallow embedding of the
    domain services, the application's use cases and the repositories below them; file
    names are relative to src/src/atlas.

    ** The language and the tables
    - Prelude (this file): generic list, option, dictionary and sorting lemmas, the hint
      database [atlas], tactics.
    - Text, PyFloat, PyVal, PyDate, PyRe: the Python the code computes with: strings and
      their methods, IEEE doubles with [float()], [round] and [repr], JSON-like values
      with Python equality, datetimes, and [re] with its declarative meaning.
    - Entities, ContextEntities: domain/entities.py, enums.py, exceptions.py, and the
      entities of the contexts around the core, as records and inductives.
    - Store: infrastructure/db/unit_of_work.py and the repositories of the core.  A
      [World] is the session's view of the tables, the durable tables, the changes other
      transactions will commit, the clock and the supply of identifiers; [M] is the monad
      of the application's coroutines.  One definition per SQL statement, with the unique
      constraints it can violate.  Before each statement one pending change of another
      transaction is applied (READ COMMITTED), so concurrency is explicit.
    - Json: canonical JSON of reproject_event.py and the outbox.
    - Logic: what a coroutine keeps ([Inv]), what it publishes ([NoCommit], [CommitLast]),
      and equations of runs without interference ([quiet]).  Wp: weakest preconditions of
      such runs.  Keyset, Paging: walks through an ordered table, batch by batch.

    ** The claims core
    - Normalize, Matching (domain/services/ingestion.py, event_matching.py): canonical
      values of incoming claims; scores and decisions over known events.
    - Conflicts, Projection (conflict_detector.py, winner_policy.py, completeness.py,
      projection_builder.py).
    - Reproject, Maintenance (use_cases/reproject_event.py, rebuild_all_projections.py,
      verify_projection_consistency.py): the read model and its history.
    - Resolution, Reconcile (resolve_conflict.py, reopen_conflict.py,
      ingestion/_conflict_reconciler.py): the life of a conflict.
    - EventResolution, Ingestion, ClaimWrites, Idempotency (application/ingestion/,
      ingest_source_data.py): from a submission to claims on an event.
    - Merge (merge_duplicate_events.py, review_duplicate.py), Outbox
      (infrastructure/event_bus/outbox_worker.py, repositories/outbox.py).
    - Provenance (use_cases/_provenance.py): the claim behind each projected value.
    - Steps, Core: every use case of the core as a sequence of legal steps of the tables,
      and what holds of any sequence of them under rule-abiding interference.

    ** The contexts around it
    - Slug, Publication, PublicationSpec, Editorial, EditorialFacts, PublicRead
      (domain/publication/, use_cases/editorial.py, reindex_public_events.py,
      public_events.py): an abstract machine of pages, the requests that implement it, and
      what the public reads.
    - Deidentification, Tenancy, TenantIsolation, TenantBatch, Metering
      (services/deidentification.py, use_cases/tenancy.py, tenant_ingestion.py,
      metering.py, repositories/tenancy.py, metering.py).
    - Cms, CmsFacts (use_cases/cms.py); Causality, CausalityFacts (use_cases/causality.py).
    - Argus, ArgusFacts: signals (run_argus_signal_detection.py, review_argus_signal.py).
    - HermesContent, HermesUrl, Hermes, HermesFacts, HermesRuns, HermesFetch: fetching
      (domain/services/hermes_*.py, run_hermes_fetch_job.py, repositories/hermes.py).
    - Extraction, Chronos, ChronosFacts, Orion, OrionFacts: timelines and entities from the
      projections (extract_chronos_timeline_from_event.py,
      extract_orion_entities_from_event.py and the services and repositories they use).
    - Echo, EchoFacts: precedents of a hazard report (domain/services/echo_matcher.py,
      domain/crossref/).

    A property is a theorem whose comment starts with its number.  A file of facts requires
    the file of the definitions it is about.

    ** What the theorems show
    - The core, run alone: detection is sound and complete (C1); the builder implements a
      declarative account of every field (C2); the rebuild, a reprojection and its
      repetition (C3-C5); resolving, reopening, reconciling and merging (C6-C8, C11); event
      resolution, claim writes, durability and replay of an ingestion (C18-C21).  Each says
      what the tables hold afterwards, and what is committed.
    - Pure services: normalised values and decisions (C13-C15), the scrub (C27), the
      agreement of provenance and projection (C37).
    - Under interference: integrity and append-only evidence of the core (C9, C10), ends of
      outbox attempts (C12), termination of the merge-pointer loop (C17) and of the rebuild
      (C3), the invariant of the publication overlay (C22), noninterference of tenants
      (C24), causality tables (C30), the Hermes queue and its fence (C33, C34).
    - The contexts: what the public is answered (C16), reindexing (C23), batches and rollups
      (C25, C26), the CMS (C28, C29), Argus (C31, C32), an attempt of Hermes and the hosts it
      reaches (C35, C36), Chronos (C38), Orion (C39, C40).
    Some of these state what the code does where a comment or a document says otherwise; the
    comment of the theorem then says so, and the manifest records the finding.

    ** Conventions, bounds and fuel
    A UUID is an [N]; [uuid4] returns identifiers never used before.  A datetime is a number
    of microseconds.  Python exceptions are values of [exn] in the result type [Res]; text
    in messages is kept where it is stored or answered.  Retry loops recurse on the number
    of attempts the code allows.  Loops without such a bound take fuel, and a theorem says
    how much is enough: [pointer_fuel] for merge pointers (C17), more batches than events
    for the rebuild (C3), the number of batches for a reindex (C23), more steps than rows
    for a walk through pages (C29); redirects are limited by the code to six requests.
    SELECTs without ORDER BY, and ties of an ORDER BY, come in the order of the table's map.

    ** What is taken as given
    Text is Latin-1, except that Hermes decodes UTF-8 to code points; [lower()] of
    PostgreSQL is the one of Python on that range, and text is ordered by its bytes.
    [session.get] is a read and [session.add] an insert at once, without the identity map;
    an insert fails on the unique index, the foreign key, the check or the column width the
    schema declares and the code can meet.  Widths are those of the migrations; the limit of
    an index row is not modelled, nor is row-level security, which repeats the tenant filter
    of the statements.  Code that is not in the repository is an argument: SHA-256
    ([Hashlib]), pydantic's validation of a stored result, the text of an exception, name
    resolution and the exchange with a server, the row PostgreSQL picks for a LIMIT 1 without
    ORDER BY ([LimitOne]), the work behind an outbox event.  Nothing is assumed of them where
    a theorem does not say so.  The facts on Orion start from tables in which every entity is
    active and no identifier has ended: nothing in the program ends either.

    ** Not modelled
    HTTP, CLI, configuration, logging and metrics: glue around the use cases, whose
    arguments are arbitrary here.  Search, map and natural-language queries: the ranking
    is PostgreSQL's.  Queries that assemble responses and the aggregates of the audit: they
    change no state.  The importer of the NTSB files: file input.  The use cases of Echo
    that queue and run a cross-reference: they span two sessions, and a [World] has one. *)
From Stdlib Require Export ZArith Lia.
From stdpp Require Export base gmap sets strings sorting numbers list.
Export list.

#[export] Set Default Proof Using "Type".

Declare Scope atlas_scope.
Delimit Scope atlas_scope with atlas.
Open Scope Z_scope.

(** ** Proof automation shared by the whole development *)

Create HintDb atlas discriminated.
Create Rewrite HintDb atlas.

(** Destructs the scrutinee of some [match]/[if] of the goal or of [H]. *)
Ltac case_match_eq :=
  match goal with
  | |- context [ match ?x with _ => _ end ] => destruct x eqn:?
  end.

Ltac case_match_in H :=
  match type of H with
  | context [ match ?x with _ => _ end ] => destruct x eqn:?
  end.

(** Symbolic execution of a hypothesis [H : computation = result]. *)
Ltac crush_in H := repeat (case_match_in H; simplify_eq/=); simplify_eq/=.

(** Introduces an element of [l ++ [c]]: an element [x] of [l], or [c] itself. *)
Ltac intro_snoc x H := intros x [H| ->%list_elem_of_singleton]%elem_of_app.

(** ** Python's [sorted]: a stable sort by a boolean comparison

    [py_sorted leb] is stable: among elements that compare equal both ways the
    one that came first stays first, as for Python's [sorted]. *)
Section sorted.
Context {A : Type} (leb : A → A → bool).

Fixpoint py_insert (x : A) (l : list A) : list A :=
  match l with
  | [] => [x]
  | y :: l' => if leb x y then x :: y :: l' else y :: py_insert x l'
  end.

Definition py_sorted (l : list A) : list A := foldr py_insert [] l.

Lemma py_insert_perm x l : py_insert x l ≡ₚ x :: l.
Proof.
  induction l as [|y l IH]; simpl; [done|].
  case_match; [done|]. rewrite IH. by constructor.
Qed.

Lemma py_sorted_perm l : py_sorted l ≡ₚ l.
Proof.
  induction l as [|x l IH]; simpl; [done|].
  by rewrite py_insert_perm, IH.
Qed.

Lemma elem_of_py_sorted x l : x ∈ py_sorted l ↔ x ∈ l.
Proof. by rewrite py_sorted_perm. Qed.

Lemma length_py_sorted l : length (py_sorted l) = length l.
Proof. by rewrite py_sorted_perm. Qed.

Lemma py_sorted_nil l : py_sorted l = [] ↔ l = [].
Proof.
  rewrite <- !length_zero_iff_nil, length_py_sorted. done.
Qed.

Context (Htot : ∀ x y, leb x y = true ∨ leb y x = true)
        (Htrans : ∀ x y z, leb x y = true → leb y z = true → leb x z = true).

Lemma py_insert_sorted x l :
  StronglySorted (λ a b, leb a b = true) l →
  StronglySorted (λ a b, leb a b = true) (py_insert x l).
Proof using Htot Htrans.
  induction 1 as [|y l Hl IH Hy]; simpl; [repeat constructor|].
  destruct (leb x y) eqn:E.
  - constructor; [by constructor|]. constructor; [done|].
    rewrite Forall_forall in Hy |- *. eauto.
  - constructor; [done|]. rewrite py_insert_perm. constructor; [|done].
    destruct (Htot x y); congruence.
Qed.

Lemma py_sorted_sorted l : StronglySorted (λ a b, leb a b = true) (py_sorted l).
Proof using Htot Htrans. induction l; simpl; [constructor|]. by apply py_insert_sorted. Qed.

(** The head of the sorted list is below every element. *)
Lemma py_sorted_head l x l' :
  py_sorted l = x :: l' → x ∈ l ∧ ∀ y, y ∈ l → leb x y = true.
Proof using Htot Htrans.
  intros E. split; [apply (elem_of_py_sorted x l); rewrite E; by left|].
  intros y Hy. apply (elem_of_py_sorted y l) in Hy. rewrite E in Hy.
  pose proof (py_sorted_sorted l) as S. rewrite E in S.
  inversion S as [|?? _ F]; subst.
  apply elem_of_cons in Hy as [->|Hy]; [destruct (Htot x x); done|].
  rewrite Forall_forall in F. auto.
Qed.
End sorted.

(** Two sorts of a permuted list agree as soon as the order is antisymmetric
    on the elements. *)
Lemma py_sorted_perm_eq {A} (leb : A → A → bool) l1 l2 :
  (∀ x y, leb x y = true ∨ leb y x = true) →
  (∀ x y z, leb x y = true → leb y z = true → leb x z = true) →
  (∀ x y, x ∈ l1 → y ∈ l1 → leb x y = true → leb y x = true → x = y) →
  l1 ≡ₚ l2 → py_sorted leb l1 = py_sorted leb l2.
Proof.
  intros Htot Htrans Hanti Hp.
  apply (StronglySorted_unique_strong (λ a b, leb a b = true)).
  - intros x y Hx Hy. rewrite elem_of_py_sorted in Hx, Hy. rewrite <- Hp in Hy. eauto.
  - by apply py_sorted_sorted.
  - by apply py_sorted_sorted.
  - by rewrite !py_sorted_perm.
Qed.

(** ** Python dictionaries with insertion order

    A [dict] that the code iterates is a list of key/value pairs in insertion
    order; assigning an existing key keeps its position. *)
Section odict.
Context {K V : Type} `{EqDecision K}.

Fixpoint dict_get (k : K) (d : list (K * V)) : option V :=
  match d with
  | [] => None
  | (k', v) :: d' => if decide (k = k') then Some v else dict_get k d'
  end.

Fixpoint dict_set (k : K) (v : V) (d : list (K * V)) : list (K * V) :=
  match d with
  | [] => [(k, v)]
  | (k', v') :: d' => if decide (k = k') then (k', v) :: d' else (k', v') :: dict_set k v d'
  end.

Lemma dict_get_set k v d k' :
  dict_get k' (dict_set k v d) = if decide (k' = k) then Some v else dict_get k' d.
Proof.
  induction d as [|[k1 v1] d IH]; simpl; [done|].
  repeat (case_decide; simplify_eq/=); try done.
Qed.

Lemma dict_get_elem k v d : dict_get k d = Some v → (k, v) ∈ d.
Proof.
  induction d as [|[k1 v1] d IH]; simpl; [done|].
  case_decide; intros ?; simplify_eq; [left|right; auto].
Qed.

Lemma dict_get_None k d : dict_get k d = None ↔ k ∉ d.*1.
Proof.
  induction d as [|[k1 v1] d IH]; simpl.
  - split; [intros _; apply not_elem_of_nil|done].
  - case_decide; rewrite not_elem_of_cons; naive_solver.
Qed.

Lemma dict_get_NoDup k v d : NoDup d.*1 → (k, v) ∈ d → dict_get k d = Some v.
Proof.
  induction d as [|[k1 v1] d IH]; simpl; [intros _ []%elem_of_nil|].
  inversion 1 as [|?? Hn Hd]; subst. rewrite elem_of_cons. intros [?|Hin]; simplify_eq.
  - by rewrite decide_True.
  - rewrite decide_False; [auto|]. intros ->. apply Hn.
    apply list_elem_of_fmap. by exists (k1, v).
Qed.

Lemma dict_set_keys_NoDup k v d : NoDup d.*1 → NoDup (dict_set k v d).*1.
Proof.
  induction d as [|[k1 v1] d IH]; simpl; intros Hd.
  - apply NoDup_singleton.
  - inversion Hd as [|?? Hn Hd']; subst. case_decide; simpl; [by constructor|].
    constructor; [|auto]. intros Hin. apply Hn.
    apply list_elem_of_fmap in Hin as [[k2 v2] [-> Hin]]. simpl in *.
    destruct (decide (k2 = k)) as [->|Hne]; [done|].
    apply list_elem_of_fmap. clear -Hin Hne H. induction d as [|[k3 v3] d IH]; simpl in *.
    + apply list_elem_of_singleton in Hin. congruence.
    + case_decide; simplify_eq.
      * apply elem_of_cons in Hin as [?|?]; simplify_eq. exists (k2, v2). split; [done|by right].
      * apply elem_of_cons in Hin as [?|Hin]; simplify_eq.
        -- exists (k3, v3). split; [done|by left].
        -- destruct (IH Hin) as (x & ? & ?). exists x. split; [done|by right].
Qed.
End odict.

(** ** [defaultdict(list)] grouping: one key per group, groups in order of first
    occurrence, each group in input order. *)
Section group_by.
Context {K A : Type} `{EqDecision K}.

Definition dict_append (k : K) (x : A) (d : list (K * list A)) : list (K * list A) :=
  dict_set k (default [] (dict_get k d) ++ [x]) d.

Definition group_by (f : A → K) (l : list A) : list (K * list A) :=
  foldl (λ d x, dict_append (f x) x d) [] l.

Lemma group_by_snoc f l x :
  group_by f (l ++ [x]) = dict_append (f x) x (group_by f l).
Proof. unfold group_by. by rewrite foldl_app. Qed.

Lemma group_by_get f l k :
  default [] (dict_get k (group_by f l)) = filter (λ x, f x = k) l.
Proof.
  induction l as [|x l IH] using rev_ind; [done|].
  rewrite group_by_snoc, filter_app. unfold dict_append. rewrite dict_get_set.
  rewrite filter_cons, filter_nil.
  destruct (decide (k = f x)) as [->|Hne]; simpl.
  - rewrite decide_True by done. by rewrite IH.
  - rewrite decide_False by congruence. by rewrite app_nil_r.
Qed.

Lemma group_by_NoDup f l : NoDup (group_by f l).*1.
Proof.
  induction l as [|x l IH] using rev_ind; [constructor|].
  rewrite group_by_snoc. by apply dict_set_keys_NoDup.
Qed.

Lemma group_by_get_nonempty f l k : dict_get k (group_by f l) ≠ Some [].
Proof.
  induction l as [|x l IH] using rev_ind; [done|].
  rewrite group_by_snoc. unfold dict_append. rewrite dict_get_set.
  case_decide; [|done]. by destruct (default [] _).
Qed.

(** The groups are exactly the non-empty preimages of the keys. *)
Lemma elem_of_group_by f l k xs :
  (k, xs) ∈ group_by f l ↔ xs = filter (λ x, f x = k) l ∧ xs ≠ [].
Proof.
  rewrite <- group_by_get. split.
  - intros Hin. rewrite (dict_get_NoDup _ _ _ (group_by_NoDup f l) Hin). split; [done|].
    intros ->. eapply group_by_get_nonempty. by apply dict_get_NoDup; [apply group_by_NoDup|].
  - intros [-> Hne]. destruct (dict_get k (group_by f l)) eqn:E; [|done].
    by apply dict_get_elem.
Qed.
End group_by.

(** Filtering keeps keys unique. *)
Lemma NoDup_fst_filter {K V} (P : K * V → Prop) `{∀ x, Decision (P x)} (d : list (K * V)) :
  NoDup d.*1 → NoDup (filter P d).*1.
Proof.
  induction d as [|kv d IH]; simpl; intros Hd; [constructor|].
  inversion Hd as [|?? Hn Hd']; subst. rewrite filter_cons. case_decide; [|auto].
  simpl. constructor; [|auto]. intros Hin. apply Hn.
  apply list_elem_of_fmap in Hin as (y & -> & Hy). apply list_elem_of_filter in Hy as [_ Hy].
  apply list_elem_of_fmap. eauto.
Qed.

(** Filters that agree on the elements of the list agree. *)
Lemma list_filter_all {A} (P : A → Prop) `{∀ x, Decision (P x)} (l : list A) :
  Forall P l → filter P l = l.
Proof. induction 1; [done|]. rewrite filter_cons, decide_True by done. congruence. Qed.

Lemma list_filter_none {A} (P : A → Prop) `{∀ x, Decision (P x)} (l : list A) :
  Forall (λ x, ¬ P x) l → filter P l = [].
Proof. induction 1; [done|]. by rewrite filter_cons, decide_False by done. Qed.

Lemma list_filter_iff' {A} (P Q : A → Prop) `{∀ x, Decision (P x), ∀ x, Decision (Q x)} (l : list A) :
  (∀ x, x ∈ l → P x ↔ Q x) → filter P l = filter Q l.
Proof.
  induction l as [|x l IH]; [done|]. intros HPQ. rewrite !filter_cons.
  rewrite IH by (intros y Hy; apply HPQ; by right).
  pose proof (HPQ x ltac:(by left)). repeat case_decide; tauto.
Qed.

(** A key that is unique in a list identifies its element. *)
Lemma NoDup_fmap_inj_elem {A B} (f : A → B) (l : list A) x y :
  NoDup (f <$> l) → x ∈ l → y ∈ l → f x = f y → x = y.
Proof.
  induction l as [|z l IH]; [intros _ []%elem_of_nil|].
  rewrite fmap_cons, NoDup_cons, !elem_of_cons. intros [Hn Hd] Hx Hy E.
  assert (Hin : ∀ a, a ∈ l → f a ∈ f <$> l) by (intros a Ha; apply list_elem_of_fmap; eauto).
  destruct Hx as [->|Hx], Hy as [->|Hy]; auto; exfalso; apply Hn;
    [rewrite E|rewrite <- E]; auto.
Qed.

(** ** [list(dict.fromkeys(l))]: remove duplicates, keep the first occurrence *)
Section fromkeys.
Context {A : Type} `{EqDecision A}.

Fixpoint dict_fromkeys_go (seen : list A) (l : list A) : list A :=
  match l with
  | [] => []
  | x :: l' =>
      if decide (x ∈ seen) then dict_fromkeys_go seen l'
      else x :: dict_fromkeys_go (x :: seen) l'
  end.

Definition dict_fromkeys (l : list A) : list A := dict_fromkeys_go [] l.

Lemma elem_of_fromkeys_go seen l x :
  x ∈ dict_fromkeys_go seen l ↔ x ∈ l ∧ x ∉ seen.
Proof.
  revert seen. induction l as [|y l IH]; intros seen; simpl.
  - rewrite elem_of_nil. naive_solver.
  - case_decide; rewrite ?elem_of_cons, IH, ?not_elem_of_cons;
      destruct (decide (x = y)); naive_solver.
Qed.

Lemma elem_of_fromkeys l x : x ∈ dict_fromkeys l ↔ x ∈ l.
Proof.
  unfold dict_fromkeys. rewrite elem_of_fromkeys_go. pose proof (not_elem_of_nil x). tauto.
Qed.

Lemma NoDup_fromkeys_go seen l : NoDup (dict_fromkeys_go seen l).
Proof.
  revert seen. induction l as [|y l IH]; intros seen; simpl; [constructor|].
  case_decide; [done|]. constructor; [|done].
  rewrite elem_of_fromkeys_go, not_elem_of_cons. tauto.
Qed.

Lemma NoDup_fromkeys l : NoDup (dict_fromkeys l).
Proof. apply NoDup_fromkeys_go. Qed.

Lemma fromkeys_go_NoDup seen l :
  NoDup l → (∀ x, x ∈ l → x ∉ seen) → dict_fromkeys_go seen l = l.
Proof.
  revert seen. induction l as [|y l IH]; intros seen Hn Hs; simpl; [done|].
  apply NoDup_cons in Hn as [Hy Hn]. rewrite decide_False by (apply Hs; by left).
  f_equal. apply IH; [done|]. intros x Hx [->|Hin]%elem_of_cons; [done|].
  apply (Hs x); [by right|done].
Qed.

Lemma fromkeys_NoDup l : NoDup l → dict_fromkeys l = l.
Proof. intros H. apply fromkeys_go_NoDup; [done|]. intros x _ []%elem_of_nil. Qed.
End fromkeys.

(** ** Order on Python strings (by code point) *)
Lemma string_leb_total (s t : string) : String.leb s t = true ∨ String.leb t s = true.
Proof. apply String.leb_total. Qed.

Lemma string_leb_trans (s t u : string) :
  String.leb s t = true → String.leb t u = true → String.leb s u = true.
Proof.
  intros H1 H2. apply Is_true_true. apply Is_true_true in H1, H2.
  change (String.le s u). change (String.le s t) in H1. change (String.le t u) in H2.
  by trans t.
Qed.

Lemma string_leb_antisym (s t : string) :
  String.leb s t = true → String.leb t s = true → s = t.
Proof. intros H1 H2. by apply String.leb_antisym. Qed.

Lemma string_ltb_spec (x y : string) : String.ltb x y = true ↔ String.leb x y = true ∧ x ≠ y.
Proof.
  unfold String.ltb, String.leb. pose proof (String.compare_eq_iff x y) as Heq.
  assert ((x ?= x)%string = Eq) as Hxx.
  { pose proof (String.compare_antisym x x). by destruct (x ?= x)%string. }
  destruct (x ?= y)%string eqn:E; split; try done; try (by intros []).
  - intros [_ Hne]. by destruct Hne; apply Heq.
  - intros _. split; [done|]. intros ->. congruence.
Qed.
Lemma string_ltb_trans (x y z : string) :
  String.ltb x y = true → String.leb y z = true → String.ltb x z = true.
Proof.
  rewrite !string_ltb_spec. intros [H1 Hne] H2. split; [by eapply string_leb_trans|].
  intros ->. by apply Hne, string_leb_antisym.
Qed.
(** [sorted] of a list of strings. *)
Definition sort_strings : list string → list string := py_sorted String.leb.

Lemma sort_strings_perm_eq l1 l2 : l1 ≡ₚ l2 → sort_strings l1 = sort_strings l2.
Proof.
  apply py_sorted_perm_eq; eauto using string_leb_total, string_leb_trans, string_leb_antisym.
Qed.

Lemma elem_of_sort_strings x l : x ∈ sort_strings l ↔ x ∈ l.
Proof. apply elem_of_py_sorted. Qed.

#[export] Hint Resolve string_leb_total string_leb_trans string_leb_antisym : atlas.

(** ** Applying a partial function to every element *)
Section traverse.
Context {A B : Type} (f : A → option B).

Fixpoint traverse (l : list A) : option (list B) :=
  match l with
  | [] => Some []
  | x :: l' => match f x, traverse l' with Some a, Some b => Some (a :: b) | _, _ => None end
  end.

Lemma traverse_total l : Forall (λ x, ∃ y, f x = Some y) l → ∃ ys, traverse l = Some ys.
Proof.
  induction 1 as [|x l [y Hy] _ [ys IH]]; [by exists []|].
  exists (y :: ys). simpl. by rewrite Hy, IH.
Qed.
End traverse.
