(* ===== verification/Text.v ===== *)
(** Python [str] values and the string methods the code calls on them.

    A [str] is modelled as a [string] of code points below 256 (Latin-1): on
    that range [lower], [strip], [split] and the [\s] class of [re] are the
    ones of Python, including the separators 0x1c-0x1f, 0x85 and 0xa0. *)
From Stdlib Require Import Ascii.
From S2P Require Import Prelude.
Open Scope string_scope.
Open Scope list_scope.
Open Scope Z_scope.

Definition code (c : ascii) : N := N_of_ascii c.

(** [str.isspace] on one character; also the class [\s] of [re]. *)
Definition is_space (c : ascii) : bool :=
  let n := code c in
  ((9 <=? n) && (n <=? 13))%N || ((28 <=? n) && (n <=? 32))%N || (n =? 133)%N || (n =? 160)%N.

Definition is_digit (c : ascii) : bool := ((48 <=? code c) && (code c <=? 57))%N.
Definition is_ascii_upper (c : ascii) : bool := ((65 <=? code c) && (code c <=? 90))%N.
Definition is_ascii_lower (c : ascii) : bool := ((97 <=? code c) && (code c <=? 122))%N.
Definition is_ascii (c : ascii) : bool := (code c <? 128)%N.

Definition lower_char (c : ascii) : ascii :=
  let n := code c in
  if ((65 <=? n) && (n <=? 90))%N || (((192 <=? n) && (n <=? 222))%N && negb (n =? 215)%N)
  then ascii_of_N (n + 32) else c.

(** Upper case of one character.  The capitals of 0xb5 and 0xff are outside the
    range of the model: they are left as they are. *)
Definition upper_char (c : ascii) : list ascii :=
  let n := code c in
  if (n =? 223)%N then [ascii_of_N 83; ascii_of_N 83]
  else if ((97 <=? n) && (n <=? 122))%N
          || (((224 <=? n) && (n <=? 254))%N && negb (n =? 247)%N)
  then [ascii_of_N (n - 32)] else [c].

Definition chars : string → list ascii := String.list_ascii_of_string.
Definition of_chars : list ascii → string := String.string_of_list_ascii.

Lemma of_chars_chars s : of_chars (chars s) = s.
Proof. apply String.string_of_list_ascii_of_string. Qed.
Lemma chars_of_chars l : chars (of_chars l) = l.
Proof. apply String.list_ascii_of_string_of_list_ascii. Qed.
#[export] Hint Rewrite of_chars_chars chars_of_chars : atlas.

Lemma of_chars_inj l1 l2 : of_chars l1 = of_chars l2 → l1 = l2.
Proof. intros H. rewrite <- (chars_of_chars l1), <- (chars_of_chars l2). by rewrite H. Qed.

(** ** Methods, on character lists *)
Fixpoint drop_while (p : ascii → bool) (l : list ascii) : list ascii :=
  match l with
  | [] => []
  | c :: l' => if p c then drop_while p l' else l
  end.

Definition rdrop_while (p : ascii → bool) (l : list ascii) : list ascii :=
  rev (drop_while p (rev l)).

Definition strip_while (p : ascii → bool) (l : list ascii) : list ascii :=
  rdrop_while p (drop_while p l).

(** [s.split()]: the maximal runs of non-space characters. *)
Fixpoint split_ws (cur : list ascii) (l : list ascii) : list (list ascii) :=
  match l with
  | [] => match cur with [] => [] | _ => [cur] end
  | c :: l' =>
      if is_space c
      then match cur with [] => split_ws [] l' | _ => cur :: split_ws [] l' end
      else split_ws (cur ++ [c]) l'
  end.

(** [sep.join(ws)] *)
Fixpoint join (sep : list ascii) (ws : list (list ascii)) : list ascii :=
  match ws with
  | [] => []
  | [w] => w
  | w :: ws' => w ++ sep ++ join sep ws'
  end.

(** [re.sub(r"\s+", r, l)]: every maximal run of spaces becomes [r]. *)
Fixpoint sub_runs (p : ascii → bool) (r : list ascii) (in_run : bool) (l : list ascii)
    : list ascii :=
  match l with
  | [] => []
  | c :: l' =>
      if p c then (if in_run then [] else r) ++ sub_runs p r true l'
      else c :: sub_runs p r false l'
  end.

Definition space : list ascii := [ascii_of_N 32].

(** ** Methods, on strings *)
Definition str_lower (s : string) : string := of_chars (map lower_char (chars s)).
Definition str_upper (s : string) : string := of_chars (flat_map upper_char (chars s)).
Definition str_strip (s : string) : string := of_chars (strip_while is_space (chars s)).
Definition str_split (s : string) : list string := map of_chars (split_ws [] (chars s)).
(** [" ".join(ws)] *)
Definition join_space (ws : list string) : string := of_chars (join space (map chars ws)).
Definition str_startswith (p s : string) : bool := String.prefix p s.
Definition str_take (n : nat) (s : string) : string := of_chars (take n (chars s)).
Definition str_empty (s : string) : bool := match s with EmptyString => true | _ => false end.
Definition re_sub_spaces (r : string) (s : string) : string :=
  of_chars (sub_runs is_space (chars r) false (chars s)).

(** [s.replace(c, r)] for a one-character [c]. *)
Definition str_replace (c : ascii) (r s : string) : string :=
  of_chars (flat_map (λ x, if Ascii.eqb x c then chars r else [x]) (chars s)).
(** [re.sub(r"[...]", "", s)] for a class of characters. *)
Definition re_remove (p : ascii → bool) (s : string) : string :=
  of_chars (List.filter (λ c, negb (p c)) (chars s)).

(** ** Facts about splitting *)
Definition word (w : list ascii) : Prop := w ≠ [] ∧ Forall (λ c, is_space c = false) w.

Lemma split_ws_words cur l :
  Forall (λ c, is_space c = false) cur → Forall word (split_ws cur l).
Proof.
  revert cur. induction l as [|c l IH]; intros cur Hc; simpl.
  - destruct cur; [by apply Forall_nil|]. apply Forall_singleton. by split.
  - destruct (is_space c) eqn:E; [destruct cur|].
    + by apply IH.
    + apply Forall_cons. split; [by split|]. by apply IH, Forall_nil.
    + apply IH, Forall_app. split; [done|]. by apply Forall_singleton.
Qed.

Lemma split_ws_word cur w :
  Forall (λ c, is_space c = false) w → split_ws cur w = split_ws (cur ++ w) [].
Proof.
  revert cur. induction w as [|c w IH]; intros cur Hw; [by rewrite app_nil_r|].
  inversion Hw; subst. simpl. rewrite H1. rewrite IH by done. by rewrite <- app_assoc.
Qed.

Lemma split_ws_app_space cur w l :
  Forall (λ c, is_space c = false) w → cur ++ w ≠ [] →
  split_ws cur (w ++ space ++ l) = (cur ++ w) :: split_ws [] l.
Proof.
  revert cur. induction w as [|c w IH]; intros cur Hw Hne; simpl.
  - rewrite app_nil_r in *. by destruct cur.
  - inversion Hw; subst. rewrite H1. rewrite IH; [by rewrite <- app_assoc|done|].
    rewrite <- app_assoc. done.
Qed.

(** Splitting inverts joining. *)
Lemma split_join ws : Forall word ws → split_ws [] (join space ws) = ws.
Proof.
  induction 1 as [|w ws [Hne Hw] Hws IH]; [done|]. destruct ws as [|w' ws].
  - simpl. rewrite split_ws_word by done. by destruct w.
  - change (join space (w :: w' :: ws)) with (w ++ space ++ join space (w' :: ws)).
    rewrite split_ws_app_space; [|done|by destruct w]. rewrite IH. done.
Qed.

Lemma drop_while_space_split cur l :
  cur = [] → split_ws cur (drop_while is_space l) = split_ws cur l.
Proof.
  intros ->. induction l as [|c l IH]; simpl; [done|].
  destruct (is_space c) eqn:E; [done|]. simpl. by rewrite E.
Qed.

Lemma split_ws_spaces cur l :
  Forall (λ c, is_space c = true) l → split_ws cur l = split_ws cur [].
Proof.
  revert cur. induction l as [|c l IH]; intros cur H; [done|].
  inversion H; subst. simpl. rewrite H2. destruct cur; [by rewrite IH|]. by rewrite IH.
Qed.

Lemma split_ws_trailing cur l sp :
  Forall (λ c, is_space c = true) sp → split_ws cur (l ++ sp) = split_ws cur l.
Proof.
  revert cur. induction l as [|c l IH]; intros cur H; [by apply split_ws_spaces|].
  simpl. destruct (is_space c); [destruct cur|]; by rewrite ?IH.
Qed.

Lemma drop_while_decompose p l :
  ∃ pre, l = pre ++ drop_while p l ∧ Forall (λ c, p c = true) pre.
Proof.
  induction l as [|c l (pre & E & H)]; [by exists []|]. simpl.
  destruct (p c) eqn:Ec; [|by exists []].
  exists (c :: pre). split; [simpl; congruence|by constructor].
Qed.

Lemma drop_while_head p l : match drop_while p l with [] => True | c :: _ => p c = false end.
Proof. induction l as [|c l IH]; simpl; [done|]. by destruct (p c) eqn:E. Qed.

Lemma rdrop_while_decompose p l :
  ∃ post, l = rdrop_while p l ++ post ∧ Forall (λ c, p c = true) post.
Proof.
  destruct (drop_while_decompose p (rev l)) as (pre & E & H).
  exists (rev pre). split; [|by apply Forall_rev].
  unfold rdrop_while. rewrite <- rev_app_distr, <- E, rev_involutive. done.
Qed.

(** [s.strip().split() = s.split()] *)
Lemma split_strip l : split_ws [] (strip_while is_space l) = split_ws [] l.
Proof.
  unfold strip_while. rewrite <- (drop_while_space_split [] l) by done.
  destruct (rdrop_while_decompose is_space (drop_while is_space l)) as (post & E & H).
  rewrite E at 2. by rewrite split_ws_trailing.
Qed.

(** ** Collapsing white space: [" ".join(s.strip().lower().split())] *)
Definition collapse_lower (s : string) : string :=
  join_space (str_split (str_lower (str_strip s))).

Lemma lower_char_idem c : lower_char (lower_char c) = lower_char c.
Proof. destruct c as [[] [] [] [] [] [] [] []]; reflexivity. Qed.

Lemma is_space_lower c : is_space (lower_char c) = is_space c.
Proof. destruct c as [[] [] [] [] [] [] [] []]; reflexivity. Qed.

Lemma split_map_lower cur l :
  split_ws (map lower_char cur) (map lower_char l) = map (map lower_char) (split_ws cur l).
Proof.
  revert cur. induction l as [|c l IH]; intros cur; simpl; [by destruct cur|].
  rewrite is_space_lower. destruct (is_space c).
  - specialize (IH []). simpl in IH. destruct cur; simpl; by rewrite IH.
  - rewrite <- IH, map_app. done.
Qed.

(** The result depends only on the lower-cased words of the input. *)
Lemma collapse_lower_words s :
  collapse_lower s = of_chars (join space (map (map lower_char) (split_ws [] (chars s)))).
Proof.
  unfold collapse_lower, join_space, str_split, str_lower, str_strip.
  rewrite !chars_of_chars. rewrite map_map.
  rewrite (map_ext (λ x, chars (of_chars x)) (λ x, x)) by apply chars_of_chars.
  rewrite map_id. rewrite (split_map_lower []). by rewrite split_strip.
Qed.

Lemma collapse_lower_split s :
  split_ws [] (chars (collapse_lower s)) = map (map lower_char) (split_ws [] (chars s)).
Proof.
  rewrite collapse_lower_words, chars_of_chars. apply split_join.
  assert (Forall word (split_ws [] (chars s))) as H by by apply split_ws_words.
  induction H as [|w ws [Hne Hw] _ IH]; simpl; constructor; [|done]. split.
  - by destruct w.
  - apply Forall_map. eapply Forall_impl; [exact Hw|]. intros c. simpl. by rewrite is_space_lower.
Qed.

Lemma collapse_lower_idem s : collapse_lower (collapse_lower s) = collapse_lower s.
Proof.
  rewrite (collapse_lower_words (collapse_lower s)), collapse_lower_split.
  rewrite collapse_lower_words. f_equal. f_equal. rewrite map_map.
  apply map_ext. intros w. rewrite map_map. apply map_ext. apply lower_char_idem.
Qed.

(** Stripping what has nothing to strip. *)
Lemma drop_while_none p l : Forall (λ c, p c = false) l → drop_while p l = l.
Proof. destruct 1 as [|c l Hc _]; [done|]. simpl. by rewrite Hc. Qed.

Lemma strip_while_none p l : Forall (λ c, p c = false) l → strip_while p l = l.
Proof.
  intros H. unfold strip_while, rdrop_while. rewrite (drop_while_none p l) by done.
  rewrite drop_while_none; [apply rev_involutive|by apply Forall_rev].
Qed.
