(* ===== verification/PyFloat.v ===== *)
(** Python's [float]: IEEE 754 binary64 on the Standard Library's [spec_float]
    (precision 53, emax 1024).  Literals and [float(str)] round the exact
    decimal to nearest-even; [round(x, n)] rounds the exact binary value to the
    nearest decimal, ties to even, and converts back; [repr] prints the
    shortest decimal that reads back as the same float. *)
From Stdlib Require Import Ascii SpecFloat.
From S2P Require Import Prelude Text.
Open Scope Z_scope.

Abbreviation float := spec_float.
Definition prec : Z := 53.
Definition emax : Z := 1024.

Definition f_zero : float := S754_zero false.
Definition f_add : float → float → float := SFadd prec emax.
Definition f_mul : float → float → float := SFmul prec emax.
Definition f_sub : float → float → float := SFsub prec emax.
Definition f_div : float → float → float := SFdiv prec emax.
Definition f_abs : float → float := SFabs.
Definition f_of_int (z : Z) : float := binary_normalize prec emax z 0 false.

(** [n / d] on Python ints, correctly rounded ([d] positive). *)
Definition f_div_int (n : Z) (d : positive) : float :=
  match n with
  | Z0 => f_zero
  | Zpos p => SFdiv prec emax (S754_finite false p 0) (S754_finite false d 0)
  | Zneg p => SFdiv prec emax (S754_finite true p 0) (S754_finite false d 0)
  end.

(** [m * 10 ^ e] rounded to nearest.  The two guards only short-cut values that
    overflow (above 1e310) or underflow (below 1e-330). *)
Definition f_of_decimal (neg : bool) (m : N) (e : Z) : float :=
  match m with
  | N0 => S754_zero neg
  | Npos p =>
      let digits := Z.log2 (Zpos p) / 3 + 1 in
      if 310 <? e + (Z.log2 (Zpos p) / 4) then S754_infinity neg
      else if e + digits <? -330 then S754_zero neg
      else if 0 <=? e then binary_normalize prec emax (cond_Zopp neg (Zpos p * 10 ^ e)) 0 neg
      else SFdiv prec emax (S754_finite neg p 0) (S754_finite false (Z.to_pos (10 ^ (- e))) 0)
  end.

Definition f_eqb (x y : float) : bool := SFeqb x y.
Definition f_ltb (x y : float) : bool := SFltb x y.
Definition f_leb (x y : float) : bool := SFleb x y.
(** Python's [x > y] and [x >= y]. *)
Definition f_gtb (x y : float) : bool := SFltb y x.
Definition f_geb (x y : float) : bool := SFleb y x.

(** [sum(l)] of floats since Python 3.12: Neumaier's compensated summation. *)
Fixpoint f_sum_from (total correction : float) (l : list float) : float :=
  match l with
  | [] =>
      match correction with
      | S754_finite _ _ _ => f_add total correction
      | _ => total
      end
  | x :: l' =>
      let t := f_add total x in
      f_sum_from t
        (f_add correction (if SFleb (f_abs x) (f_abs total) then f_add (f_sub total t) x else f_add (f_sub x t) total)) l'
  end.
Definition f_sum (l : list float) : float :=
  match l with [] => f_zero | x :: l' => f_sum_from (f_add f_zero x) f_zero l' end.

(** ** Exact value: [(-1)^s * m * 2^e] as a canonical dyadic rational *)
Fixpoint strip2 (m : positive) (e : Z) : positive * Z :=
  match m with
  | xO m' => strip2 m' (e + 1)
  | _ => (m, e)
  end.

(** Nearest integer to [n / d], ties to even. *)
Definition div_half_even (n d : Z) : Z :=
  let q := n / d in
  let r := 2 * (n mod d) in
  if r <? d then q else if d <? r then q + 1 else if Z.even q then q else q + 1.

(** Exact [|x| * 10^k] as a fraction. *)
Definition scaled (m : positive) (e k : Z) : Z * Z :=
  let n := Zpos m * 2 ^ (Z.max e 0) * 10 ^ (Z.max k 0) in
  let d := 2 ^ (Z.max (- e) 0) * 10 ^ (Z.max (- k) 0) in
  (n, d).

(** [round(x, k)] for [k >= 0]. *)
Definition f_round (x : float) (k : Z) : float :=
  match x with
  | S754_finite s m e =>
      let '(n, d) := scaled m e k in
      f_of_decimal s (Z.to_N (div_half_even n d)) (- k)
  | _ => x
  end.

(** ** Decimal digits *)
Definition digit_char (d : Z) : ascii := ascii_of_N (Z.to_N (48 + d)).

Fixpoint dec_digits_go (fuel : nat) (n : Z) (acc : list ascii) : list ascii :=
  match fuel with
  | O => acc
  | S f => if n <? 10 then digit_char n :: acc
           else dec_digits_go f (n / 10) (digit_char (n mod 10) :: acc)
  end.

(** Decimal digits of [n >= 0]; [log2 n + 1] bits bound the number of digits. *)
Definition dec_digits (n : Z) : list ascii := dec_digits_go (S (Z.to_nat (Z.log2 n))) n [].

(** [str(n)] for an int. *)
Definition int_str (n : Z) : string :=
  of_chars (if n <? 0 then ascii_of_N 45 :: dec_digits (- n) else dec_digits n).

(** ** [repr] of a float *)
(** Decimal exponent [k] with [10^(k-1) <= x < 10^k], searched upwards from a
    lower bound; the binary exponent fixes it up to two steps. *)
Fixpoint find_decpt (fuel : nat) (m : positive) (e k : Z) : Z :=
  match fuel with
  | O => k
  | S f => let '(n, d) := scaled m e (- k) in
           if n <? d then k else find_decpt f m e (k + 1)
  end.

Definition decpt (m : positive) (e : Z) : Z :=
  find_decpt 8 m e ((Z.log2 (Zpos m) + e) * 1233 / 4096 - 2).

(** The [p]-digit decimals around [x], nearest first, that read back as [x]. *)
Definition try_digits (m : positive) (e k p : Z) : option Z :=
  let '(n, d) := scaled m e (p - k) in
  let q := n / d in
  let cands := if 2 * (n mod d) <=? d then [q; q + 1] else [q + 1; q] in
  List.find (λ c, SFeqb (f_of_decimal false (Z.to_N c) (k - p)) (S754_finite false m e)) cands.

Fixpoint shortest (fuel : nat) (m : positive) (e k p : Z) : Z * Z :=
  match fuel with
  | O => (Zpos m, p)
  | S f => match try_digits m e k p with
           | Some c => (c, p)
           | None => shortest f m e k (p + 1)
           end
  end.

Fixpoint rstrip0 (l : list ascii) : list ascii :=
  match l with
  | c :: l' => if Ascii.eqb c (digit_char 0) then rstrip0 l' else l
  | [] => []
  end.

Definition zeros (n : Z) : list ascii := replicate (Z.to_nat n) (digit_char 0).
Definition dot : ascii := ascii_of_N 46.

(** Layout of the digits [ds] with the decimal point after position [k]:
    fixed notation for [-4 < k <= 16], else [d.ddde±XX]. *)
Definition layout (ds : list ascii) (k : Z) : list ascii :=
  let n := Z.of_nat (length ds) in
  if (-4 <? k) && (k <=? 16) then
    if k <=? 0 then digit_char 0 :: dot :: zeros (- k) ++ ds
    else if n <=? k then ds ++ zeros (k - n) ++ [dot; digit_char 0]
    else take (Z.to_nat k) ds ++ dot :: drop (Z.to_nat k) ds
  else
    let x := k - 1 in
    let xs := dec_digits (Z.abs x) in
    let mant := match ds with [] => [] | [c] => [c] | c :: cs => c :: dot :: cs end in
    mant ++ [ascii_of_N 101; ascii_of_N (if x <? 0 then 45 else 43)]
      ++ (if Z.abs x <? 10 then digit_char 0 :: xs else xs).

Definition sign_chars (s : bool) : list ascii := if s then [ascii_of_N 45] else [].

Definition float_repr (x : float) : string :=
  match x with
  | S754_zero s => of_chars (sign_chars s ++ chars "0.0")
  | S754_infinity s => of_chars (sign_chars s ++ chars "inf")
  | S754_nan => "nan"%string
  | S754_finite s m e =>
      let k := decpt m e in
      let '(c, p) := shortest 17 m e k 1 in
      let all := dec_digits c in
      (* [c = 10^p] shifts the decimal point by one *)
      let k' := k + Z.of_nat (length all) - p in
      of_chars (sign_chars s ++ layout (rev (rstrip0 (rev all))) k')
  end.

(** ** Parsing: [int(s)] and [float(s)] *)
Definition digit_val (c : ascii) : N := code c - 48.

(** Digits with single underscores between digits; the value and the count. *)
Fixpoint read_digits (l : list ascii) (prev_digit : bool) (v : N) (n : nat)
    : N * nat * bool * list ascii :=
  match l with
  | c :: l' =>
      if is_digit c then read_digits l' true (10 * v + digit_val c) (S n)
      else if (code c =? 95)%N && prev_digit then
        match l' with
        | c' :: _ => if is_digit c' then read_digits l' false v n else (v, n, prev_digit, l)
        | [] => (v, n, prev_digit, l)
        end
      else (v, n, prev_digit, l)
  | [] => (v, n, prev_digit, [])
  end.

Definition read_sign (l : list ascii) : bool * list ascii :=
  match l with
  | c :: l' => if (code c =? 45)%N then (true, l') else if (code c =? 43)%N then (false, l')
               else (false, l)
  | [] => (false, l)
  end.

(** [int(s)]: [None] stands for [ValueError]; more than 4300 digits is one
    ([sys.get_int_max_str_digits]). *)
Definition py_int (s : string) : option Z :=
  let '(neg, l) := read_sign (chars (str_strip s)) in
  let '(v, n, _, rest) := read_digits l false 0 0 in
  match n, rest with
  | O, _ => None
  | _, _ :: _ => None
  | _, [] => if bool_decide (4300 < n)%nat then None
             else Some (if neg then - Z.of_N v else Z.of_N v)
  end.

Definition read_exponent (l : list ascii) : option Z :=
  match l with
  | [] => Some 0
  | c :: l' =>
      if (code c =? 101)%N || (code c =? 69)%N then
        let '(neg, l2) := read_sign l' in
        let '(v, n, _, rest) := read_digits l2 false 0 0 in
        match n, rest with
        | S _, [] => Some (if neg then - Z.of_N v else Z.of_N v)
        | _, _ => None
        end
      else None
  end.

Definition lower_chars (l : list ascii) : string := of_chars (map lower_char l).

(** [float(s)]: [None] stands for [ValueError]. *)
Definition py_float (s : string) : option float :=
  let '(neg, l) := read_sign (chars (str_strip s)) in
  let w := lower_chars l in
  if bool_decide (w = "inf"%string ∨ w = "infinity"%string) then Some (S754_infinity neg)
  else if bool_decide (w = "nan"%string) then Some S754_nan
  else
    let '(v, n, _, rest) := read_digits l false 0 0 in
    let '(v', n', rest') :=
      match rest with
      | c :: r => if (code c =? 46)%N then
                    let '(v2, n2, _, r2) := read_digits r false v 0 in (v2, n2, r2)
                  else (v, O, rest)
      | [] => (v, O, rest)
      end in
    match (n + n')%nat, read_exponent rest' with
    | O, _ => None
    | _, None => None
    | _, Some e => Some (f_of_decimal neg v' (e - Z.of_nat n'))
    end.

(** ** Ordering facts used by clients: comparison of non-NaN floats *)
Definition is_nan (x : float) : bool := match x with S754_nan => true | _ => false end.

(** [int(x)] of a finite float: truncation. *)
Definition f_trunc (x : float) : Z :=
  match x with
  | S754_finite s m e => cond_Zopp s (Z.shiftl (Zpos m) e)
  | _ => 0
  end.

(** A comparison of two floats is a comparison of triples, lexicographically;
    a NaN compares with nothing. *)
Definition rank (x : float) : Z * Z * Z :=
  match x with
  | S754_infinity s => ((if s then -2 else 2), 0, 0)
  | S754_finite s m e => if s then (-1, - e, Zneg m) else (1, e, Zpos m)
  | _ => (0, 0, 0)
  end.

Definition rank_lt (a b : Z * Z * Z) : Prop :=
  a.1.1 < b.1.1 ∨ (a.1.1 = b.1.1 ∧ (a.1.2 < b.1.2 ∨ (a.1.2 = b.1.2 ∧ a.2 < b.2))).

Lemma rank_compare x y :
  is_nan x = false → is_nan y = false →
  ∃ c, SFcompare x y = Some c
  ∧ match c with
    | Lt => rank_lt (rank x) (rank y)
    | Eq => rank x = rank y
    | Gt => rank_lt (rank y) (rank x)
    end.
Proof.
  intros Hx Hy. unfold rank_lt.
  destruct x as [s|s| |s m e], y as [s'|s'| |s' m' e']; try done;
    try (destruct s); try (destruct s'); eexists; (split; [reflexivity|]); simpl;
    try (done || lia).
  - destruct (Z.compare_spec e e') as [->|?|?]; [|simpl; lia..].
    change (Pos.compare_cont Eq m m') with (Pos.compare m m').
    destruct (Pos.compare_spec m m') as [->|?|?]; simpl; [done|lia..].
  - destruct (Z.compare_spec e e') as [->|?|?]; [|simpl; lia..].
    change (Pos.compare_cont Eq m m') with (Pos.compare m m').
    destruct (Pos.compare_spec m m') as [->|?|?]; simpl; [done|lia..].
Qed.

Lemma SFcompare_nan x y : is_nan x = true ∨ is_nan y = true → SFcompare x y = None.
Proof. by destruct x as [s|s| |s m e], y as [s'|s'| |s' m' e']; try destruct s; try destruct s'; intros [?|?]. Qed.

Lemma f_ltb_rank x y :
  f_ltb x y = true ↔ is_nan x = false ∧ is_nan y = false ∧ rank_lt (rank x) (rank y).
Proof.
  unfold f_ltb, SFltb. destruct (is_nan x) eqn:Hx.
  { rewrite SFcompare_nan by auto. naive_solver. }
  destruct (is_nan y) eqn:Hy.
  { rewrite SFcompare_nan by auto. naive_solver. }
  destruct (rank_compare x y Hx Hy) as (c & -> & H). unfold rank_lt in *.
  destruct c; [rewrite H|..]; split; try done; intros (_ & _ & ?); lia.
Qed.

Lemma f_eqb_rank x y :
  f_eqb x y = true ↔ is_nan x = false ∧ is_nan y = false ∧ rank x = rank y.
Proof.
  unfold f_eqb, SFeqb. destruct (is_nan x) eqn:Hx.
  { rewrite SFcompare_nan by auto. naive_solver. }
  destruct (is_nan y) eqn:Hy.
  { rewrite SFcompare_nan by auto. naive_solver. }
  destruct (rank_compare x y Hx Hy) as (c & -> & H). unfold rank_lt in *.
  destruct c; split; try done; intros (_ & _ & E); rewrite E in H; lia.
Qed.

Lemma f_leb_split x y : f_leb x y = f_ltb x y || f_eqb x y.
Proof. unfold f_leb, f_ltb, f_eqb, SFleb, SFltb, SFeqb. by destruct (SFcompare x y) as [[]|]. Qed.

Lemma f_leb_rank x y :
  f_leb x y = true ↔ is_nan x = false ∧ is_nan y = false ∧ ¬ rank_lt (rank y) (rank x).
Proof.
  rewrite f_leb_split, orb_true_iff, f_ltb_rank, f_eqb_rank. unfold rank_lt.
  destruct (rank x) as [[a b] c], (rank y) as [[a' b'] c']. simpl. split.
  - intros [(? & ? & ?)|(? & ? & [= -> -> ->])]; split_and!; try done; lia.
  - intros (? & ? & H). destruct (decide ((a, b, c) = (a', b', c'))) as [|Hne]; [by right|left].
    split_and!; try done. assert (¬ (a = a' ∧ b = b' ∧ c = c')) by naive_solver. lia.
Qed.

Lemma f_ltb_trans x y z : f_ltb x y = true → f_ltb y z = true → f_ltb x z = true.
Proof. rewrite !f_ltb_rank. unfold rank_lt. intros (? & ? & ?) (? & ? & ?). split_and!; try done. lia. Qed.

Lemma f_leb_trans x y z : f_leb x y = true → f_leb y z = true → f_leb x z = true.
Proof. rewrite !f_leb_rank. unfold rank_lt. intros (? & ? & ?) (? & ? & ?). split_and!; try done. lia. Qed.

Lemma f_ltb_not_leb x y : f_ltb x y = true → f_leb y x = false.
Proof.
  rewrite f_ltb_rank. intros (? & ? & H). apply not_true_iff_false. rewrite f_leb_rank. naive_solver.
Qed.

(** A float that is not a NaN is below, above or equal. *)
Lemma f_trichotomy x y :
  is_nan x = false → is_nan y = false → f_ltb x y = true ∨ f_eqb x y = true ∨ f_ltb y x = true.
Proof.
  intros Hx Hy. rewrite !f_ltb_rank, f_eqb_rank. destruct (rank_compare x y Hx Hy) as ([] & _ & H); auto.
Qed.

(** Small consequences, stated once. *)
Lemma f_leb_not_nan_l x y : f_leb x y = true → is_nan x = false.
Proof. rewrite f_leb_rank. by intros (? & _). Qed.
Lemma f_leb_not_nan_r x y : f_leb x y = true → is_nan y = false.
Proof. rewrite f_leb_rank. by intros (_ & ? & _). Qed.
Lemma f_ltb_asym x y : f_ltb x y = true → f_ltb y x = false.
Proof.
  intros H. apply not_true_iff_false. rewrite !f_ltb_rank in *. unfold rank_lt in *. lia.
Qed.
Lemma f_eqb_refl x : is_nan x = false → f_eqb x x = true.
Proof. rewrite f_eqb_rank. auto. Qed.
Lemma f_eqb_sym x y : f_eqb x y = f_eqb y x.
Proof. apply eq_true_iff_eq. rewrite !f_eqb_rank. split; intros (? & ? & ?); auto. Qed.
Lemma f_eqb_trans x y z : f_eqb x y = true → f_eqb y z = true → f_eqb x z = true.
Proof. rewrite !f_eqb_rank. intros (? & ? & ?) (? & ? & ?). split_and!; [done..|congruence]. Qed.
Lemma f_ltb_eqb_r x y z : f_ltb x y = true → f_eqb z y = true → f_ltb x z = true.
Proof. rewrite !f_ltb_rank, f_eqb_rank. intros (? & ? & ?) (? & ? & ->). auto. Qed.
Lemma f_leb_eqb_r x y z : f_leb x y = true → f_eqb z y = true → f_leb x z = true.
Proof. rewrite !f_leb_rank, f_eqb_rank. intros (? & ? & ?) (? & ? & ->). auto. Qed.
Lemma f_leb_not_lt x y z :
  f_leb x y = true → is_nan z = false → f_ltb z y = false → f_leb x z = true.
Proof.
  intros H Hz Hlt. apply not_true_iff_false in Hlt. rewrite f_ltb_rank in Hlt.
  rewrite !f_leb_rank in *. unfold rank_lt in *. destruct H as (? & ? & ?).
  split_and!; [done..|]. intros ?. apply Hlt. split_and!; [done..|]. lia.
Qed.
