(* ===== verification/PyVal.v ===== *)
(** Python values carried by claims and projections (JSON values, tuples and the
    [DISPUTED] sentinel) and their equality.

    Models [constants.replace_disputed] and the Standard-Library behaviour the
    code relies on: [==] across int/float/bool and dict equality up to order. *)
From Stdlib Require Import Ascii SpecFloat.
From S2P Require Import Prelude Text PyFloat.
Open Scope string_scope.
Open Scope list_scope.
Open Scope Z_scope.

Inductive pyval :=
  | PNone
  | PBool (b : bool)
  | PInt (z : Z)
  | PFloat (f : float)
  | PStr (s : string)
  | PList (l : list pyval)
  | PTuple (l : list pyval)
  | PDict (d : list (string * pyval))   (* keys unique, in insertion order *)
  | PDisputed.                          (* the [DISPUTED] singleton *)

Section pyval_rect.
Variable P : pyval → Prop.
Hypothesis Hnone : P PNone.
Hypothesis Hbool : ∀ b, P (PBool b).
Hypothesis Hint : ∀ z, P (PInt z).
Hypothesis Hfloat : ∀ f, P (PFloat f).
Hypothesis Hstr : ∀ s, P (PStr s).
Hypothesis Hlist : ∀ l, Forall P l → P (PList l).
Hypothesis Htuple : ∀ l, Forall P l → P (PTuple l).
Hypothesis Hdict : ∀ d, Forall (λ kv, P kv.2) d → P (PDict d).
Hypothesis Hdisp : P PDisputed.

(** Induction over the nested lists. *)
Fixpoint pyval_ind' (v : pyval) : P v :=
  match v with
  | PNone => Hnone
  | PBool b => Hbool b
  | PInt z => Hint z
  | PFloat f => Hfloat f
  | PStr s => Hstr s
  | PList l => Hlist l ((fix go l : Forall P l := match l with
      | [] => Forall_nil_2 P | x :: l' => Forall_cons_2 P x l' (pyval_ind' x) (go l') end) l)
  | PTuple l => Htuple l ((fix go l : Forall P l := match l with
      | [] => Forall_nil_2 P | x :: l' => Forall_cons_2 P x l' (pyval_ind' x) (go l') end) l)
  | PDict d => Hdict d ((fix go d : Forall (λ kv, P kv.2) d := match d with
      | [] => Forall_nil_2 _
      | kv :: d' => Forall_cons_2 _ kv d' (pyval_ind' kv.2) (go d') end) d)
  | PDisputed => Hdisp
  end.
End pyval_rect.

(** [bool(v)] *)
Definition py_truthy (v : pyval) : bool :=
  match v with
  | PNone => false
  | PBool b => b
  | PInt z => negb (z =? 0)
  | PFloat f => negb (f_eqb f f_zero)
  | PStr s => negb (str_empty s)
  | PList [] | PTuple [] | PDict [] => false
  | _ => true
  end.

(** ** [repr] and [str] *)
Definition hex2 (n : N) : list ascii :=
  let h k := ascii_of_N (if (k <? 10)%N then 48 + k else 87 + k) in [h (n / 16)%N; h (n mod 16)%N].

Definition repr_char (quote c : ascii) : list ascii :=
  let n := code c in
  if Ascii.eqb c quote || (n =? 92)%N then [ascii_of_N 92; c]
  else if (n =? 9)%N then chars "\t" else if (n =? 10)%N then chars "\n"
  else if (n =? 13)%N then chars "\r"
  else if (n <? 32)%N || ((127 <=? n) && (n <=? 160))%N || (n =? 173)%N
  then chars "\x" ++ hex2 n
  else [c].

(** Single quotes, unless the text has one and no double quote. *)
Definition str_repr (s : string) : list ascii :=
  let l := chars s in
  let has n := existsb (λ c, (code c =? n)%N) l in
  let q := ascii_of_N (if has 39%N && negb (has 34%N) then 34 else 39) in
  [q] ++ flat_map (repr_char q) l ++ [q].

Fixpoint py_repr (v : pyval) : list ascii :=
  match v with
  | PNone => chars "None"
  | PBool b => chars (if b then "True" else "False")
  | PInt z => chars (int_str z)
  | PFloat f => chars (float_repr f)
  | PStr s => str_repr s
  | PList l => chars "[" ++ join (chars ", ") (map py_repr l) ++ chars "]"
  | PTuple [x] => chars "(" ++ py_repr x ++ chars ",)"
  | PTuple l => chars "(" ++ join (chars ", ") (map py_repr l) ++ chars ")"
  | PDict d => chars "{" ++ join (chars ", ") (map (λ kv, str_repr kv.1 ++ chars ": " ++ py_repr kv.2) d)
               ++ chars "}"
  | PDisputed => chars "DISPUTED"
  end.

(** [str(v)] *)
Definition py_str (v : pyval) : string :=
  match v with
  | PStr s => s
  | PDisputed => "__DISPUTED__"
  | _ => of_chars (py_repr v)
  end.

Definition DISPUTED_MARKER : string := "__DISPUTED__".

(** constants.replace_disputed *)
Fixpoint replace_disputed (v : pyval) : pyval :=
  match v with
  | PDisputed => PStr DISPUTED_MARKER
  | PDict d => PDict (map (λ kv, (kv.1, replace_disputed kv.2)) d)
  | PList l => PList (map replace_disputed l)
  | _ => v
  end.

(** ** Equality

    [canon] maps a value to a canonical form such that two values are [==] in
    Python exactly when both canonical forms exist and coincide.  A value that
    contains a NaN has none: it equals nothing, itself (reloaded) included. *)
Inductive ckey :=
  | CNone
  | CNum (neg : bool) (m : N) (e : Z)
  | CInf (neg : bool)
  | CStr (s : string)
  | CSeq (tuple : bool) (l : list ckey)
  | CDict (d : list (string * ckey))
  | CDisputed.

Lemma ckey_eq_dec (x y : ckey) : Decision (x = y).
Proof.
  revert x y. fix go 1. intros x y.
  assert (gol : ∀ l1 l2 : list ckey, Decision (l1 = l2)).
  { fix gol 1. intros [|a l1] [|b l2]; [by left|by right|by right|].
    refine (cast_if_and (go a b) (gol l1 l2)); abstract congruence. }
  assert (god : ∀ l1 l2 : list (string * ckey), Decision (l1 = l2)).
  { fix god 1. intros [|[k1 a] l1] [|[k2 b] l2]; [by left|by right|by right|].
    refine (cast_if_and3 (decide (k1 = k2)) (go a b) (god l1 l2)); abstract congruence. }
  refine (match x, y with
    | CNone, CNone => left eq_refl
    | CNum n m e, CNum n' m' e' => cast_if_and3 (decide (n = n')) (decide (m = m')) (decide (e = e'))
    | CInf n, CInf n' => cast_if (decide (n = n'))
    | CStr s, CStr s' => cast_if (decide (s = s'))
    | CSeq t l, CSeq t' l' => cast_if_and (decide (t = t')) (gol l l')
    | CDict d, CDict d' => cast_if (god d d')
    | CDisputed, CDisputed => left eq_refl
    | _, _ => right _
    end); abstract congruence.
Defined.
#[export] Instance ckey_eq_decision : EqDecision ckey := ckey_eq_dec.

Definition canon_pos (neg : bool) (m : positive) (e : Z) : ckey :=
  let '(m', e') := strip2 m e in CNum neg (Npos m') e'.

Definition canon_int (z : Z) : ckey :=
  match z with
  | Z0 => CNum false 0 0
  | Zpos p => canon_pos false p 0
  | Zneg p => canon_pos true p 0
  end.

Definition canon_float (f : float) : option ckey :=
  match f with
  | S754_zero _ => Some (CNum false 0 0)
  | S754_infinity s => Some (CInf s)
  | S754_nan => None
  | S754_finite s m e => Some (canon_pos s m e)
  end.

(** Sort dictionary items by key ([sorted(d.items())]: keys are unique). *)
Definition sort_items {A} : list (string * A) → list (string * A) :=
  py_sorted (λ x y, String.leb x.1 y.1).

Fixpoint canon (v : pyval) : option ckey :=
  let fix canon_list (l : list pyval) : option (list ckey) :=
    match l with
    | [] => Some []
    | x :: l' => match canon x, canon_list l' with
                 | Some a, Some b => Some (a :: b) | _, _ => None end
    end in
  let fix canon_items (d : list (string * pyval)) : option (list (string * ckey)) :=
    match d with
    | [] => Some []
    | (k, x) :: d' => match canon x, canon_items d' with
                      | Some a, Some b => Some ((k, a) :: b) | _, _ => None end
    end in
  match v with
  | PNone => Some CNone
  | PBool b => Some (canon_int (if b then 1 else 0))
  | PInt z => Some (canon_int z)
  | PFloat f => canon_float f
  | PStr s => Some (CStr s)
  | PList l => CSeq false <$> canon_list l
  | PTuple l => CSeq true <$> canon_list l
  | PDict d => (λ d', CDict (sort_items d')) <$> canon_items d
  | PDisputed => Some CDisputed
  end.

(** Python [x == y] *)
Definition py_eq (x y : pyval) : bool :=
  match canon x, canon y with
  | Some a, Some b => bool_decide (a = b)
  | _, _ => false
  end.

Lemma py_eq_sym x y : py_eq x y = py_eq y x.
Proof.
  unfold py_eq. destruct (canon x), (canon y); try done.
  apply bool_decide_ext. by split.
Qed.

Lemma py_eq_trans x y z : py_eq x y = true → py_eq y z = true → py_eq x z = true.
Proof.
  unfold py_eq. destruct (canon x), (canon y), (canon z); try done.
  rewrite !bool_decide_eq_true. congruence.
Qed.

(** ** Sets of values: [{f(x) for x in l}], as the list of distinct members *)
Definition set_insert (s : list pyval) (x : pyval) : list pyval :=
  if existsb (py_eq x) s then s else s ++ [x].

Definition py_set (l : list pyval) : list pyval := foldl set_insert [] l.

Lemma set_fold_ge s l : (length s ≤ length (foldl set_insert s l))%nat.
Proof.
  revert s. induction l as [|x l IH]; intros s; simpl; [done|].
  etrans; [|apply IH]. unfold set_insert. case_match; [done|]. rewrite length_app. simpl. lia.
Qed.

(** More than one distinct member iff some later member differs from the first. *)
Lemma py_set_many x l :
  (1 < length (py_set (x :: l)))%nat ↔ ∃ y, y ∈ l ∧ py_eq y x = false.
Proof.
  unfold py_set. simpl. unfold set_insert at 2. simpl.
  induction l as [|y l IH]; simpl.
  - split; [lia|]. intros (y & []%elem_of_nil & _).
  - unfold set_insert at 2. simpl. destruct (py_eq y x) eqn:E; simpl.
    + rewrite IH. split; [intros (z & Hz & Ez); exists z; by split; [right|]|].
      intros (z & [->|Hz]%elem_of_cons & Ez); [congruence|eauto].
    + split; [intros _; exists y; split; [by left|done]|]. intros _.
      pose proof (set_fold_ge [x; y] l). simpl in *. lia.
Qed.

(** [len({...}) > 1] does not depend on the order of the members. *)
Lemma py_set_many_perm l1 l2 :
  l1 ≡ₚ l2 → (1 < length (py_set l1))%nat → (1 < length (py_set l2))%nat.
Proof.
  intros Hp. destruct l1 as [|x1 l1]; [simpl; lia|].
  destruct l2 as [|x2 l2]; [by apply Permutation_nil_r in Hp|].
  rewrite !py_set_many. intros (y & Hy & E).
  destruct (decide ((1 < length (py_set (x2 :: l2)))%nat)) as [H|H];
    [by apply py_set_many in H|exfalso].
  assert (Hall : ∀ z, z ∈ l2 → py_eq z x2 = true).
  { intros z Hz. destruct (py_eq z x2) eqn:Ez; [done|].
    exfalso. apply H, py_set_many. eauto. }
  assert (Hlen : l2 ≠ []).
  { intros ->. apply Permutation_singleton_r in Hp as [= -> ->]. by apply elem_of_nil in Hy. }
  assert (Hin : ∀ z, z ∈ x1 :: l1 → z = x2 ∨ py_eq z x2 = true).
  { intros z Hz. rewrite Hp in Hz. apply elem_of_cons in Hz as [->|Hz]; auto. }
  assert (Hx2 : py_eq x2 x2 = true).
  { destruct l2 as [|z l2]; [done|]. pose proof (Hall z ltac:(by left)) as Hz.
    rewrite py_eq_sym in Hz. eapply py_eq_trans; [exact Hz|]. by rewrite py_eq_sym. }
  assert (Hy2 : py_eq y x2 = true) by (destruct (Hin y ltac:(by right)) as [->|]; done).
  assert (H12 : py_eq x1 x2 = true) by (destruct (Hin x1 ltac:(by left)) as [->|]; done).
  rewrite py_eq_sym in H12. pose proof (py_eq_trans _ _ _ Hy2 H12). congruence.
Qed.
