(* ===== verification/PyDate.v ===== *)
(** Python's [datetime] in UTC: microseconds since 1970-01-01, their calendar date,
    and [isoformat].  Models the language; the calendar is the proleptic Gregorian
    one of [datetime.date]. *)
From Stdlib Require Import Ascii.
From S2P Require Import Prelude Text PyFloat.
Open Scope string_scope.
Open Scope list_scope.
Open Scope Z_scope.

Record date := mkDate { d_year : Z; d_month : Z; d_day : Z }.

#[export] Instance date_eq_dec : EqDecision date.
Proof. solve_decision. Defined.

Definition is_leap (y : Z) : bool :=
  ((y mod 4 =? 0) && negb (y mod 100 =? 0)) || (y mod 400 =? 0).

Definition days_in_month (y m : Z) : Z :=
  if m =? 2 then (if is_leap y then 29 else 28)
  else if (m =? 4) || (m =? 6) || (m =? 9) || (m =? 11) then 30 else 31.

(** [datetime.date(y, m, d)]: [None] is its ValueError. *)
Definition valid_date (y m d : Z) : bool :=
  (1 <=? y) && (y <=? 9999) && (1 <=? m) && (m <=? 12) && (1 <=? d) && (d <=? days_in_month y m).
Definition make_date (y m d : Z) : option date :=
  if valid_date y m d then Some (mkDate y m d) else None.

(** Days since 1970-01-01, counting years from March. *)
Definition days_of_date (x : date) : Z :=
  let y := if d_month x <=? 2 then d_year x - 1 else d_year x in
  let era := y / 400 in
  let yoe := y - era * 400 in
  let doy := (153 * (if d_month x >? 2 then d_month x - 3 else d_month x + 9) + 2) / 5 + d_day x - 1 in
  era * 146097 + (yoe * 365 + yoe / 4 - yoe / 100 + doy) - 719468.

Definition date_of_days (days : Z) : date :=
  let z := days + 719468 in
  let era := z / 146097 in
  let doe := z - era * 146097 in
  let yoe := (doe - doe / 1460 + doe / 36524 - doe / 146096) / 365 in
  let doy := doe - (365 * yoe + yoe / 4 - yoe / 100) in
  let mp := (5 * doy + 2) / 153 in
  let d := doy - (153 * mp + 2) / 5 + 1 in
  let m := if mp <? 10 then mp + 3 else mp - 9 in
  mkDate (yoe + era * 400 + (if m <=? 2 then 1 else 0)) m d.

(** [str] of a non-negative number, padded with zeros on the left. *)
Definition padded (width n : Z) : list ascii :=
  let ds := dec_digits n in zeros (width - Z.of_nat (length ds)) ++ ds.

(** [date.isoformat()] *)
Definition date_iso (x : date) : string :=
  of_chars (padded 4 (d_year x) ++ chars "-" ++ padded 2 (d_month x) ++ chars "-"
            ++ padded 2 (d_day x)).

Definition second_us : Z := 1000000.
Definition day_us : Z := 86400 * second_us.

(** [datetime.isoformat()] of an instant in UTC *)
Definition datetime_iso (t : Z) : string :=
  let us := t mod day_us in
  let s := us / second_us in
  let frac := us mod second_us in
  of_chars (chars (date_iso (date_of_days (t / day_us))) ++ chars "T" ++ padded 2 (s / 3600)
            ++ chars ":" ++ padded 2 (s / 60 mod 60) ++ chars ":" ++ padded 2 (s mod 60)
            ++ (if frac =? 0 then [] else chars "." ++ padded 6 frac) ++ chars "+00:00").

(** ** Parsing ISO 8601, as CPython 3.11 and 3.12 do

    The parsers read a C string, and accept a few texts the standard does not:
    what follows a complete compact date in a text of ten bytes, a separator or
    garbage before a time zone, a colon before the fraction. *)
Fixpoint read_int (n : nat) (v : Z) (l : list ascii) : option (Z * list ascii) :=
  match n with
  | O => Some (v, l)
  | S n' => match l with
            | c :: l' => if is_digit c then read_int n' (10 * v + Z.of_N (digit_val c)) l' else None
            | [] => None
            end
  end.

Definition is_char (n : N) (c : ascii) : bool := (code c =? n)%N.
Definition head_is (n : N) (l : list ascii) : bool :=
  match l with c :: _ => is_char n c | [] => false end.

(** Monday is 0. *)
Definition weekday (x : date) : Z := (days_of_date x + 3) mod 7.

(** Day [wd] (Monday is 1) of ISO week [wk] of year [y]. *)
Definition iso_week_date (y wk wd : Z) : option (Z * Z * Z) :=
  let first := weekday (mkDate y 1 1) in
  let long := (first =? 3) || ((first =? 2) && is_leap y) in
  if (1 <=? y) && (y <=? 9999) && (1 <=? wk) && ((wk <=? 52) || ((wk =? 53) && long))
     && (1 <=? wd) && (wd <=? 7)
  then let jan4 := mkDate y 1 4 in
       let d := date_of_days (days_of_date jan4 - weekday jan4 + (wk - 1) * 7 + wd - 1) in
       Some (d_year d, d_month d, d_day d)
  else None.

(** parse_isoformat_date: year, month and day of the first [len] bytes.  A week
    without a day is its Monday. *)
Definition parse_ymd (len : nat) (l : list ascii) : option (Z * Z * Z) :=
  '(y, l1) ← read_int 4 0 l;
  let sep := head_is 45 l1 in
  let l2 := if sep then tail l1 else l1 in
  if head_is 87 l2 then
    '(wk, l3) ← read_int 2 0 (tail l2);
    if bool_decide (4 + (if sep then 1 else 0) + 3 < len)%nat then
      (if sep && negb (head_is 45 l3) then None else
       '(wd, _) ← read_int 1 0 (if sep then tail l3 else l3);
       iso_week_date y wk wd)
    else iso_week_date y wk 1
  else
    '(m, l3) ← read_int 2 0 l2;
    if sep && negb (head_is 45 l3) then None else
    '(d, _) ← read_int 2 0 (if sep then tail l3 else l3);
    Some (y, m, d).

(** Bytes of the UTF-8 encoding. *)
Definition utf8_len (l : list ascii) : nat :=
  foldr (λ c n, (if is_ascii c then 1 else 2) + n)%nat 0%nat l.

(** [date.fromisoformat(s)]: [None] is its ValueError. *)
Definition date_fromisoformat (s : string) : option date :=
  let l := chars s in
  let len := utf8_len l in
  if bool_decide (len ∈ [7; 8; 10]%nat)
  then '(y, m, d) ← parse_ymd len l; make_date y m d else None.

Fixpoint digits_end (pos : nat) (l : list ascii) : nat :=
  match l with
  | c :: l' => if is_digit c then digits_end (S pos) l' else pos
  | [] => pos
  end.

(** _find_isoformat_datetime_separator *)
Definition find_separator (l : list ascii) : option nat :=
  let len := length l in
  if bool_decide (len < 7)%nat then None else
  if bool_decide (len = 7)%nat then Some 7%nat else
  if head_is 45 (drop 4 l) then
    if head_is 87 (drop 5 l) then
      if head_is 45 (drop 8 l) then
        if bool_decide (len = 9)%nat then None
        else if match drop 10 l with c :: _ => is_digit c | [] => false end
        then Some 8%nat else Some 10%nat
      else Some 8%nat
    else Some 10%nat
  else if head_is 87 (drop 4 l) then
    let pos := digits_end 7 (drop 7 l) in
    Some (if bool_decide (pos < 9)%nat then pos else if Nat.even pos then 7%nat else 8%nat)
  else Some 8%nat.

Fixpoint skip_digits (l : list ascii) : list ascii :=
  match l with
  | c :: l' => if is_digit c then skip_digits l' else l
  | [] => []
  end.

(** The fraction [l]: microseconds, and whether something follows it. *)
Definition parse_fraction (l : list ascii) (more : bool) : option (Z * bool) :=
  let k := Nat.min 6 (length l) in
  '(v, rest) ← read_int k 0 l;
  Some (v * 10 ^ (6 - Z.of_nat k),
        match skip_digits rest with [] => more | _ :: _ => true end).

(** parse_hh_mm_ss_ff of the bytes [l]; [more] tells whether the text goes on
    after them.  The fields read so far are [acc], most recent first; the flag of
    the result tells that something was left over. *)
Fixpoint parse_hms (i : nat) (has_sep : bool) (acc : list Z) (l : list ascii) (more : bool)
    : option (list Z * Z * bool) :=
  match i with
  | O => '(us, left_over) ← parse_fraction l more; Some (acc, us, left_over)
  | S i' =>
      '(v, l1) ← read_int 2 0 l;
      let acc' := v :: acc in
      let colon := head_is 58 l1 in
      let has_sep' := if bool_decide (acc = []) then colon else has_sep in
      match l1 with
      | [] => Some (acc', 0, more)
      | [_] => Some (acc', 0, true)
      | c :: l2 =>
          if has_sep' && colon then parse_hms i' has_sep' acc' l2 more
          else if is_char 46 c || is_char 44 c then
            '(us, left_over) ← parse_fraction l2 more; Some (acc', us, left_over)
          else if negb has_sep' then parse_hms i' has_sep' acc' l1 more
          else None
      end
  end.

Definition hms_field (k : nat) (acc : list Z) : Z := default 0 (rev acc !! k).

Fixpoint split_zone (pre : list ascii) (l : list ascii) : list ascii * list ascii :=
  match l with
  | c :: l' => if is_char 43 c || is_char 45 c || is_char 90 c then (rev pre, l)
               else split_zone (c :: pre) l'
  | [] => (rev pre, [])
  end.

Record clock := mkClock {
  ck_hour : Z; ck_minute : Z; ck_second : Z; ck_us : Z;
  ck_offset : option Z   (* of the time zone, in microseconds *)
}.

(** parse_isoformat_time *)
Definition parse_time (l : list ascii) : option clock :=
  let '(t, zone) := split_zone [] l in
  '(acc, us, left_over) ← parse_hms 3 true [] t (negb (bool_decide (zone = [])));
  let clock off := mkClock (hms_field 0 acc) (hms_field 1 acc) (hms_field 2 acc) us off in
  match zone with
  | [] => if (left_over : bool) then None else Some (clock None)
  | z :: zs =>
      if is_char 90 z then (if bool_decide (zs = []) then Some (clock (Some 0)) else None) else
      '(zacc, zus, zleft) ← parse_hms 3 true [] zs false;
      if (zleft : bool) then None else
      let sign := if is_char 45 z then -1 else 1 in
      let secs := hms_field 0 zacc * 3600 + hms_field 1 zacc * 60 + hms_field 2 zacc in
      Some (clock (Some (if secs =? 0 then 0 else sign * (secs * second_us + zus))))
  end.

Definition valid_clock (t : clock) : bool :=
  (ck_hour t <? 24) && (ck_minute t <? 60) && (ck_second t <? 60)
  && match ck_offset t with Some o => Z.abs o <? day_us | None => true end.

Definition midnight : clock := mkClock 0 0 0 0 None.

(** [datetime.fromisoformat(s)]: [None] is its ValueError. *)
Definition datetime_fromisoformat (s : string) : option (date * clock) :=
  let l := chars s in
  k ← find_separator l;
  '(y, m, d) ← parse_ymd k l;
  t ← match drop k l with
      | [] => Some midnight
      | _ :: l' => parse_time l'
      end;
  x ← make_date y m d;
  if valid_clock t then Some (x, t) else None.

Example epoch_iso : datetime_iso 0 = "1970-01-01T00:00:00+00:00".
Proof. reflexivity. Qed.
Example instant_iso : datetime_iso 1709210096000042 = "2024-02-29T12:34:56.000042+00:00".
Proof. reflexivity. Qed.

(** ** The text of a date reads back *)
Definition digits2 (n : Z) : list ascii := [digit_char (n / 10); digit_char (n mod 10)].
Definition digits4 (n : Z) : list ascii :=
  [digit_char (n / 1000); digit_char (n / 100 mod 10); digit_char (n / 10 mod 10);
   digit_char (n mod 10)].

Definition upto (n : nat) : list Z := Z.of_nat <$> seq 0 n.

Lemma elem_of_upto n z : 0 ≤ z < Z.of_nat n → z ∈ upto n.
Proof.
  intros H. unfold upto. apply list_elem_of_fmap. exists (Z.to_nat z).
  split; [lia|]. apply elem_of_seq. lia.
Qed.

(** A decidable statement about small numbers, by evaluation. *)
Lemma forall_upto (P : Z → bool) n :
  forallb P (upto n) = true → ∀ z, 0 ≤ z < Z.of_nat n → P z = true.
Proof.
  intros H z Hz. rewrite forallb_forall in H. apply H.
  apply list_elem_of_In. by apply elem_of_upto.
Qed.

Lemma padded_2 n : 0 ≤ n < 100 → padded 2 n = digits2 n.
Proof.
  intros H. apply (bool_decide_eq_true_1 (padded 2 n = digits2 n)).
  revert n H. apply (forall_upto (λ n, bool_decide (padded 2 n = digits2 n)) 100).
  vm_compute. reflexivity.
Qed.

Lemma padded_4 n : 0 ≤ n < 10000 → padded 4 n = digits4 n.
Proof.
  intros H. apply (bool_decide_eq_true_1 (padded 4 n = digits4 n)).
  revert n H. apply (forall_upto (λ n, bool_decide (padded 4 n = digits4 n)) (Z.to_nat 10000)).
  vm_compute. reflexivity.
Qed.

Lemma is_digit_digit n : 0 ≤ n < 10 → is_digit (digit_char n) = true.
Proof.
  intros H. revert n H. apply (forall_upto (λ n, is_digit (digit_char n)) 10).
  vm_compute. reflexivity.
Qed.

Lemma digit_val_digit n : 0 ≤ n < 10 → Z.of_N (digit_val (digit_char n)) = n.
Proof.
  intros H. apply Z.eqb_eq.
  apply (forall_upto (λ n, Z.of_N (digit_val (digit_char n)) =? n) 10);
    [vm_compute; reflexivity|lia].
Qed.

(** A digit is not a character of any other class. *)
Lemma digit_other (p : ascii → bool) n :
  forallb (λ n, negb (p (digit_char n))) (upto 10) = true → 0 ≤ n < 10 → p (digit_char n) = false.
Proof. intros H Hn. apply negb_true_iff. exact (forall_upto _ 10 H n Hn). Qed.

Lemma read_int_digit k v n l :
  0 ≤ n < 10 → read_int (S k) v (digit_char n :: l) = read_int k (10 * v + n) l.
Proof. intros H. simpl. by rewrite is_digit_digit, digit_val_digit. Qed.

Lemma read_int_2 n v l : 0 ≤ n < 100 → read_int 2 v (digits2 n ++ l) = Some (100 * v + n, l).
Proof.
  intros H. unfold digits2. cbn [app].
  rewrite !read_int_digit by (pose proof (Z.mod_pos_bound n 10); Z.div_mod_to_equations; lia).
  simpl. f_equal. f_equal. Z.div_mod_to_equations. lia.
Qed.

Lemma read_int_4 n l : 0 ≤ n < 10000 → read_int 4 0 (digits4 n ++ l) = Some (n, l).
Proof.
  intros H. unfold digits4. cbn [app].
  rewrite !read_int_digit by (Z.div_mod_to_equations; lia).
  simpl. f_equal. f_equal. Z.div_mod_to_equations. lia.
Qed.

Lemma make_date_Some y m d x :
  make_date y m d = Some x →
  x = mkDate y m d ∧ 1 ≤ y ≤ 9999 ∧ 1 ≤ m ≤ 12 ∧ 1 ≤ d ≤ 31 ∧ d ≤ days_in_month y m.
Proof.
  unfold make_date, valid_date. intros H.
  destruct (_ && _) eqn:E; [|done]. injection H as <-.
  rewrite !andb_true_iff, !Z.leb_le in E.
  assert (days_in_month y m ≤ 31) by (unfold days_in_month; repeat case_match; lia).
  split_and!; try done; lia.
Qed.

(** The ten characters of a date. *)
Lemma date_iso_chars y m d :
  0 ≤ y < 10000 → 0 ≤ m < 100 → 0 ≤ d < 100 →
  chars (date_iso (mkDate y m d))
  = digits4 y ++ chars "-" ++ digits2 m ++ chars "-" ++ digits2 d.
Proof.
  intros Hy Hm Hd. unfold date_iso. rewrite chars_of_chars. simpl d_year. simpl d_month.
  simpl d_day. by rewrite padded_4, !padded_2.
Qed.

Lemma utf8_len_ascii l : Forall (λ c, is_ascii c = true) l → utf8_len l = length l.
Proof.
  induction 1 as [|c l Hc _ IH]; [done|]. unfold utf8_len in *. cbn [foldr]. rewrite Hc, IH. done.
Qed.

Lemma digit_ascii n : 0 ≤ n < 10 → is_ascii (digit_char n) = true.
Proof.
  intros H. revert n H. apply (forall_upto (λ n, is_ascii (digit_char n)) 10).
  vm_compute. reflexivity.
Qed.

Lemma date_fromisoformat_iso x :
  make_date (d_year x) (d_month x) (d_day x) = Some x → date_fromisoformat (date_iso x) = Some x.
Proof.
  intros H. destruct x as [y m d]. simpl in H.
  pose proof (make_date_Some _ _ _ _ H) as (_ & Hy & Hm & Hd & _).
  unfold date_fromisoformat. rewrite date_iso_chars by lia.
  rewrite utf8_len_ascii; [rewrite bool_decide_true by (vm_compute; set_solver)|].
  - unfold parse_ymd. rewrite read_int_4 by lia. cbn -[digits2 read_int].
    assert (Hw : head_is 87 (digits2 m ++ "-"%char :: digits2 d) = false).
    { unfold digits2. cbn [app head_is]. apply digit_other; [reflexivity|Z.div_mod_to_equations; lia]. }
    change (is_char 45 "-") with true. cbn -[digits2 read_int head_is]. rewrite Hw.
    rewrite read_int_2 by lia. cbn -[digits2 read_int]. change (is_char 45 "-") with true. cbn -[digits2 read_int].
    rewrite <- (app_nil_r (digits2 d)), read_int_2 by lia. exact H.
  - repeat (apply Forall_cons_2 || apply Forall_nil_2); try (apply digit_ascii; Z.div_mod_to_equations; lia);
      reflexivity.
Qed.

Lemma date_iso_inj x x' :
  make_date (d_year x) (d_month x) (d_day x) = Some x →
  make_date (d_year x') (d_month x') (d_day x') = Some x' → date_iso x = date_iso x' → x = x'.
Proof.
  intros H H' E. apply date_fromisoformat_iso in H, H'. congruence.
Qed.
