(* ===== verification/Entities.v ===== *)
(** Domain enums, exceptions and entities of the claims/conflicts core
    (src/src/atlas/domain/enums.py, exceptions.py, entities.py). *)
From S2P Require Import Prelude Text PyFloat PyVal PyDate.
Open Scope string_scope.
Open Scope list_scope.
Open Scope Z_scope.

(** A [UUID] is its 128-bit integer; [str(uuid)] is fixed-width lower-case hex,
    so comparing the strings compares the integers. *)
Abbreviation UUID := N.
(** A timezone-aware [datetime]: microseconds since the epoch. *)
Abbreviation datetime := Z.

(** ** Enums *)
Inductive ClaimType := RAW | CONFIRMED | MANUAL_OVERRIDE | SUPERSEDED.
Inductive ConflictStatus := OPEN | RESOLVED.
Inductive SourceKind := EXTERNAL | INTERNAL.
Inductive ModifierType := USER | INGESTION | SYSTEM.
Inductive ConflictModifierReason :=
  | INITIAL | NEW_EVIDENCE | EVIDENCE_UPDATED | USER_RESOLVED | USER_REOPENED
  | SYSTEM_AUTO_CLOSED.
Inductive DuplicateReviewStatus :=
  | DR_PENDING | DR_REJECTED | DR_MERGED | DR_AUTO_MERGED | DR_CONFIRMED_DUPLICATE.

(** The lifecycle of a public page (domain/publication/entities.py). *)
Inductive PublicationStatus := DRAFT | IN_REVIEW | APPROVED | PUBLISHED | ARCHIVED | RETRACTED.

#[export] Instance PublicationStatus_eq_dec : EqDecision PublicationStatus.
Proof. solve_decision. Defined.
#[export] Instance ClaimType_eq_dec : EqDecision ClaimType.
Proof. solve_decision. Defined.
#[export] Instance ConflictStatus_eq_dec : EqDecision ConflictStatus.
Proof. solve_decision. Defined.
#[export] Instance ModifierType_eq_dec : EqDecision ModifierType.
Proof. solve_decision. Defined.
#[export] Instance ConflictModifierReason_eq_dec : EqDecision ConflictModifierReason.
Proof. solve_decision. Defined.
#[export] Instance DuplicateReviewStatus_eq_dec : EqDecision DuplicateReviewStatus.
Proof. solve_decision. Defined.

(** [ClaimType.active_values()]: every type but SUPERSEDED. *)
Definition all_claim_types : list ClaimType := [RAW; CONFIRMED; MANUAL_OVERRIDE; SUPERSEDED].
Definition active_values : list ClaimType := filter (λ t, t ≠ SUPERSEDED) all_claim_types.

Inductive RequiredField :=
  | EVENT_DATE | LOCATION | AIRCRAFT_TYPE | FATALITIES_TOTAL | INJURIES_TOTAL | OPERATOR
  | REGISTRATION | FLIGHT_PHASE | NARRATIVE.

Definition all_required_fields : list RequiredField :=
  [EVENT_DATE; LOCATION; AIRCRAFT_TYPE; FATALITIES_TOTAL; INJURIES_TOTAL; OPERATOR;
   REGISTRATION; FLIGHT_PHASE; NARRATIVE].

Definition required_field_value (f : RequiredField) : string :=
  match f with
  | EVENT_DATE => "event_date" | LOCATION => "location" | AIRCRAFT_TYPE => "aircraft_type"
  | FATALITIES_TOTAL => "fatalities_total" | INJURIES_TOTAL => "injuries_total"
  | OPERATOR => "operator" | REGISTRATION => "registration" | FLIGHT_PHASE => "flight_phase"
  | NARRATIVE => "narrative"
  end.

(** ** Exceptions raised by the modelled code (domain/exceptions.py) *)
Inductive exn :=
  | ValueError (msg : string)
  | RuntimeError (msg : string)
  | DomainValidationError (msg : string)
  | OverflowError (msg : string)
  | AttributeError (msg : string)
  | NormalizationError (msg : string)
  | InvariantViolationError (msg : string)
  | PayloadTooLargeError (msg : string)
  | TooManyClaimsError (msg : string)
  | DuplicateClaimFieldError (msg : string)
  | SourceNotFoundError (source_id : UUID)
  | IngestionInProgressError
  | IdempotencyKeyPayloadMismatchError
  | PersistenceCorruptionError (msg : string)
  | SourceRecordEventMismatchError (canonical explicit : UUID)
  | IngestionRunSourceMismatchError (run_id expected actual : UUID)
  | ConflictNotFoundError (conflict_id : UUID)
  | ConflictAlreadyResolvedError (conflict_id : UUID)
  | ConflictModifiedError (conflict_id : UUID) (current_version : Z)
      (modifier_reason : option ConflictModifierReason)
  | ConflictReconciliationError (conflict_id : UUID) (operation : string) (retries : Z)
  | ClaimNotInConflictError (claim_id conflict_id : UUID)
  | ClaimNotFoundError (claim_id : UUID)
  | ClaimNotEligibleError (claim_id : UUID) (claim_type : ClaimType)
  | EventNotFoundError (event_id : UUID)
  | EventAlreadyMergedError (event_id : UUID) (merged_into : option UUID)
  | CannotMergeIntoSelfError (event_id : UUID)
  | IntegrityError (constraint : string)   (* unique index violated in the database *)
  | MultipleResultsFound                   (* scalar_one_or_none() on several rows *)
  | NoResultFound                          (* scalar_one() without a row *)
  | ReviewNotFoundError (review_id : UUID)
  | ReviewAlreadyResolvedError (review_id : UUID) (status : DuplicateReviewStatus)
  | DataError (column : string)            (* value outside the width of its column *)
  (* domain/publication *)
  | InvalidSlugError (msg : string)
  | PublicEventPageNotFoundError (msg : string)
  | PublicEventPageNotPublishedError (msg : string)
  | PublicEventPageRetractedError (slug : string) (retraction_note : option string)
  | SlugAlreadyTakenError (slug : string)
  | PublicEventPageAlreadyExistsError (event_id : UUID)
  | InvalidPublicationTransitionError (from_status to_status : PublicationStatus)
  | PublicEventPageModifiedError (expected_version actual_version : Z)
  | EditorialFieldLockedError (field_name : string)
  (* domain/tenancy *)
  | HTTPException (status_code : Z) (code : string)
  | TenantNotFoundError (msg : string)
  | CrossTenantAccessError (caller_tenant_id target_tenant_id : UUID)
  | TenantSourceAlreadyExistsError (tenant_id : UUID) (name : string)
  | TenantSourceNotFoundError (source_id tenant_id : UUID)
  | TenantIngestionRunNotFoundError (run_id tenant_id : UUID)
  | TenantIngestionRunClosedError (msg : string)
  | TenantClaimBatchTooLargeError (size : Z)
  | DeidentificationRequiredError (msg : string)
  | TenantClaimUnknownEventError (unknown_ids : list UUID)
  (* domain/cms *)
  | GlossaryTermNotFoundError (id : UUID)
  | GlossaryTermNotPublishedError (term : string)
  | GlossaryTermRetractedError (term : string) (retraction_note : option string)
  | MethodologyPageNotFoundError (id : UUID)
  | MethodologyPageNotPublishedError (slug : string)
  | MethodologyPageRetractedError (slug : string) (retraction_note : option string)
  | ChangelogEntryNotFoundError (id : UUID)
  | ChangelogEntryNotPublishedError (slug : string)
  | ChangelogEntryRetractedError (slug : string) (retraction_note : option string)
  | CmsContentModifiedError (kind : string) (entity_id : UUID) (expected_version actual_version : Z)
  (* domain/causality *)
  | HfacsCategoryNotFoundError (id : UUID)
  | HfacsSubcategoryNotFoundError (id : UUID)
  | HfacsAttributionNotFoundError (id : UUID)
  | HfacsAttributionConflictError (msg : string)
  | SheloFactorNotFoundError (id : UUID)
  | SheloFactorConflictError (id : UUID) (expected_version : Z)
  | SheloFactorInteractionConflictError (source target : UUID)
  | SheloFactorInteractionSameNodeError
  (* Argus and Hermes *)
  | ArgusSignalNotFoundError (signal_id : UUID)
  | ArgusSignalModifiedError (signal_id : UUID) (current_version : Z)
  | ConcurrentUpsertError (msg : string).

(** Outcome of a Python call: a value or a raised exception. *)
Inductive Res (A : Type) := Ok (a : A) | Raise (e : exn).
Arguments Ok {_} _.
Arguments Raise {_} _.

#[export] Instance Res_ret : MRet Res := λ A a, Ok a.
#[export] Instance Res_bind : MBind Res := λ A B f r,
  match r with Ok a => f a | Raise e => Raise e end.

Fixpoint map_res {A B} (f : A → Res B) (l : list A) : Res (list B) :=
  match l with
  | [] => Ok []
  | x :: l' => y ← f x; ys ← map_res f l'; mret (y :: ys)
  end.

Lemma map_res_Forall2 {A B} (f : A → Res B) l ys :
  map_res f l = Ok ys ↔ Forall2 (λ x y, f x = Ok y) l ys.
Proof.
  revert ys. induction l as [|x l IH]; intros ys; simpl.
  - split; [intros [= <-]; constructor|by inversion 1].
  - unfold mbind, Res_bind. split.
    + destruct (f x) as [y|e] eqn:E; [|done]. destruct (map_res f l) as [zs|e]; [|done].
      intros [= <-]. constructor; [done|]. by apply IH.
    + inversion 1 as [|? y ? zs Hy Hzs]; subst. rewrite Hy. apply IH in Hzs. by rewrite Hzs.
Qed.

Definition is_ok {A} (r : Res A) : Prop := match r with Ok _ => True | Raise _ => False end.

(** ** Entities *)
Record Source := mkSource {
  src_id : UUID;
  src_name : string;
  src_kind : SourceKind;
  src_reliability_tier : Z;
  src_field_mapping : list (string * string);
}.

Record RawSnapshot := mkSnapshot {
  rs_id : UUID;
  rs_source_id : UUID;
  rs_ingestion_run_id : UUID;
  rs_payload_hash : string;
  rs_payload_json : list (string * pyval);
  rs_captured_at : datetime;
  rs_created_at : datetime;
  rs_source_record_id : option string;
  rs_raw_payload_hash : option string;
  rs_submission_hash : option string;
  rs_submission_fingerprint : option (list (string * pyval));
  rs_ingestion_result : option (list (string * pyval));
}.

Record IngestionRun := mkRun {
  ir_id : UUID;
  ir_source_id : UUID;
  ir_status : string;
  ir_started_at : datetime;
  ir_finished_at : option datetime;
}.

Record AccidentEvent := mkEvent {
  ev_id : UUID;
  ev_created_at : datetime;
  ev_merged_into : option UUID;
}.

Definition is_merged (e : AccidentEvent) : bool := bool_decide (ev_merged_into e ≠ None).

Record Claim := mkClaim {
  c_id : UUID;
  c_event_id : UUID;
  c_source_id : UUID;
  c_raw_snapshot_id : option UUID;
  c_field_name : string;
  c_field_value : pyval;
  c_claim_type : ClaimType;
  c_created_at : datetime;
  c_created_by : option UUID;
  c_superseded_by : option UUID;
}.

(** Claim.can_win *)
Definition can_win (c : Claim) : bool :=
  bool_decide (c_claim_type c ∈ [MANUAL_OVERRIDE; CONFIRMED; RAW]).

(** Claim.is_active *)
Definition is_active (c : Claim) : bool := bool_decide (c_claim_type c ∈ active_values).

Definition with_claim_type (t : ClaimType) (by_ : option UUID) (c : Claim) : Claim :=
  mkClaim (c_id c) (c_event_id c) (c_source_id c) (c_raw_snapshot_id c) (c_field_name c)
    (c_field_value c) t (c_created_at c) (c_created_by c) by_.

(** Claim.supersede *)
Definition supersede (by_claim_id : UUID) (c : Claim) : Claim :=
  with_claim_type SUPERSEDED (Some by_claim_id) c.

Record ClaimHistory := mkClaimHistory {
  ch_id : UUID;
  ch_claim_id : UUID;
  ch_event_id : UUID;
  ch_from_value : option pyval;
  ch_to_value : option pyval;
  ch_from_claim_type : option ClaimType;
  ch_to_claim_type : ClaimType;
  ch_action : string;
  ch_reason : string;
  ch_modifier_type : ModifierType;
  ch_modifier_id : option UUID;
  ch_created_at : datetime;
}.

Record ClaimConflict := mkConflict {
  cf_id : UUID;
  cf_event_id : UUID;
  cf_field_name : string;
  cf_status : ConflictStatus;
  cf_version : Z;
  cf_last_modified_reason : ConflictModifierReason;
  cf_last_modified_note : option string;
  cf_winning_claim_id : option UUID;
  cf_resolved_at : option datetime;
  cf_resolved_by : option UUID;
  cf_created_at : datetime;
  cf_updated_at : datetime;
  cf_claim_ids : list UUID;
}.

(** ClaimConflict.check_resolved_fields (the pydantic validator) *)
Definition check_resolved_fields (c : ClaimConflict) : bool :=
  negb (bool_decide (cf_status c = RESOLVED ∧ cf_winning_claim_id c = None
                     ∧ cf_last_modified_reason c ≠ SYSTEM_AUTO_CLOSED)).

(** [s[:255]] of a reason, [None] for the empty string. *)
Definition note_of (reason : string) : option string :=
  if str_empty reason then None else Some (str_take 255 reason).

(** ClaimConflict.resolve; [t_resolved] and [t_updated] are its two clock reads. *)
Definition cf_resolve (winning_claim_id resolved_by : UUID) (reason : string)
    (t_resolved t_updated : datetime) (c : ClaimConflict) : Res ClaimConflict :=
  if bool_decide (cf_status c ≠ OPEN) then Raise (ConflictAlreadyResolvedError (cf_id c))
  else if negb (bool_decide (cf_claim_ids c = []))
          && negb (bool_decide (winning_claim_id ∈ cf_claim_ids c))
  then Raise (ClaimNotInConflictError winning_claim_id (cf_id c))
  else Ok (mkConflict (cf_id c) (cf_event_id c) (cf_field_name c) RESOLVED (cf_version c + 1)
             USER_RESOLVED (note_of reason) (Some winning_claim_id) (Some t_resolved)
             (Some resolved_by) (cf_created_at c) t_updated (cf_claim_ids c)).

(** ClaimConflict.reopen_for_new_evidence *)
Definition cf_reopen_for_new_evidence (reason : string) (t : datetime) (c : ClaimConflict)
    : ClaimConflict :=
  mkConflict (cf_id c) (cf_event_id c) (cf_field_name c) OPEN (cf_version c + 1)
    NEW_EVIDENCE (note_of reason) None None None (cf_created_at c) t (cf_claim_ids c).

(** ClaimConflict.reopen_by_user *)
Definition cf_reopen_by_user (reason : string) (t : datetime) (c : ClaimConflict)
    : Res ClaimConflict :=
  if bool_decide (cf_status c ≠ RESOLVED)
  then Raise (ValueError "Only resolved conflicts can be reopened")
  else Ok (mkConflict (cf_id c) (cf_event_id c) (cf_field_name c) OPEN (cf_version c + 1)
             USER_REOPENED (note_of reason) None None None (cf_created_at c) t (cf_claim_ids c)).

(** ClaimConflict.add_claim_id *)
Definition cf_add_claim_id (claim_id : UUID) (c : ClaimConflict) : ClaimConflict :=
  if bool_decide (claim_id ∈ cf_claim_ids c) then c
  else mkConflict (cf_id c) (cf_event_id c) (cf_field_name c) (cf_status c) (cf_version c)
         (cf_last_modified_reason c) (cf_last_modified_note c) (cf_winning_claim_id c)
         (cf_resolved_at c) (cf_resolved_by c) (cf_created_at c) (cf_updated_at c)
         (cf_claim_ids c ++ [claim_id]).

(** ClaimConflict.add_evidence *)
Definition cf_add_evidence (reason : ConflictModifierReason) (t : datetime) (c : ClaimConflict)
    : ClaimConflict :=
  mkConflict (cf_id c) (cf_event_id c) (cf_field_name c) (cf_status c) (cf_version c + 1)
    reason (cf_last_modified_note c) (cf_winning_claim_id c) (cf_resolved_at c)
    (cf_resolved_by c) (cf_created_at c) t (cf_claim_ids c).

Definition cf_with_claim_ids (ids : list UUID) (c : ClaimConflict) : ClaimConflict :=
  mkConflict (cf_id c) (cf_event_id c) (cf_field_name c) (cf_status c) (cf_version c)
    (cf_last_modified_reason c) (cf_last_modified_note c) (cf_winning_claim_id c)
    (cf_resolved_at c) (cf_resolved_by c) (cf_created_at c) (cf_updated_at c) ids.

Record ConflictActivityLogEntry := mkActivity {
  al_id : UUID;
  al_conflict_id : UUID;
  al_event_id : UUID;
  al_sequence : Z;
  al_from_status : option ConflictStatus;
  al_to_status : ConflictStatus;
  al_modifier_type : ModifierType;
  al_modifier_id : option UUID;
  al_reason : string;
  al_version_at_moment : Z;
  al_claims_snapshot : option (list (string * pyval));
  al_created_at : datetime;
}.

(** [fields] is a Python dict; the builder fills it in sorted key order. *)
Record ProjectedAccidentRecord := mkProjection {
  pj_event_id : UUID;
  pj_version : Z;
  pj_fields : list (string * pyval);
  pj_completeness : float;
  pj_unresolved : list string;
  pj_updated_at : datetime;
}.

Record AccidentProjectionHistory := mkProjectionHistory {
  ph_id : UUID;
  ph_event_id : UUID;
  ph_version : Z;
  ph_caused_by_conflict_id : option UUID;
  ph_caused_by_ingestion_run_id : option UUID;
  ph_caused_by_outbox_event_id : option UUID;
  ph_fields : list (string * pyval);
  ph_unresolved : list string;
  ph_completeness : float;
  ph_hash : string;
  ph_changed_fields : list string;
  ph_created_at : datetime;
}.

Record PendingDuplicateReview := mkReview {
  dr_id : UUID;
  dr_event_id_a : UUID;
  dr_event_id_b : UUID;
  dr_status : DuplicateReviewStatus;
  dr_match_score : float;
  dr_matched_fields : list string;
  dr_created_at : datetime;
  dr_resolved_at : option datetime;
  dr_resolved_by : option UUID;
  dr_resolution_note : option string;
}.

Record EventIdentityIndex := mkIdentity {
  ii_event_id : UUID;
  ii_event_date_norm : option string;
  ii_registration_norm : option string;
  ii_operator_norm : option string;
  ii_location_norm : option string;
  ii_aircraft_type_norm : option string;
  ii_source_record_ids : list string;
  ii_registration_norms : list string;
  ii_updated_at : datetime;
}.

Inductive OutboxStatus := OB_PENDING | OB_PROCESSING | OB_PROCESSED | OB_FAILED | OB_DEAD_LETTER.
#[export] Instance OutboxStatus_eq_dec : EqDecision OutboxStatus.
Proof. solve_decision. Defined.

Record OutboxEvent := mkOutbox {
  ob_id : UUID;
  ob_event_type : string;
  ob_aggregate_id : UUID;
  ob_payload : list (string * pyval);
  ob_status : OutboxStatus;
  ob_attempt_count : Z;
  ob_locked_at : option datetime;
  ob_locked_by : option string;
  ob_last_error : option string;
  ob_next_attempt_at : option datetime;
  ob_created_at : datetime;
  ob_processed_at : option datetime;
}.

(** ** Publication overlay (domain/publication, domain/search, domain/maps) *)
Record PublicEventPage := mkPage {
  pg_id : UUID;
  pg_event_id : UUID;
  pg_slug : string;
  pg_title : string;
  pg_short_summary : option string;
  pg_narrative_markdown : option string;
  pg_status : PublicationStatus;
  pg_version : Z;
  pg_first_published_at : option datetime;
  pg_last_published_at : option datetime;
  pg_retracted_at : option datetime;
  pg_retraction_note : option string;
  pg_created_at : datetime;
  pg_updated_at : datetime;
}.

Record PublicEventPageRevision := mkRevision {
  rv_id : UUID;
  rv_page_id : UUID;
  rv_version_at_moment : Z;
  rv_from_status : option PublicationStatus;
  rv_to_status : PublicationStatus;
  rv_title : string;
  rv_short_summary : option string;
  rv_narrative_markdown : option string;
  rv_editor_user_id : UUID;
  rv_transition_reason : option string;
  rv_correction_note : option string;
  rv_created_at : datetime;
}.

Record SearchIndexEntry := mkSearchEntry {
  se_page_id : UUID;
  se_slug : string;
  se_title : string;
  se_short_summary : option string;
  se_operator : option string;
  se_aircraft_type : option string;
  se_country : option string;
  se_event_date : option date;
  se_fatalities_total : option Z;
  se_confidence_band : string;
  se_last_published_at : datetime;
}.

Record MapIndexEntry := mkMapEntry {
  me_page_id : UUID;
  me_slug : string;
  me_title : string;
  me_latitude : float;
  me_longitude : float;
  me_operator : option string;
  me_aircraft_type : option string;
  me_country : option string;
  me_event_date : option date;
  me_fatalities_total : option Z;
  me_confidence_band : string;
  me_last_published_at : datetime;
}.

(** The tables of the overlay. *)
Record PublicTables := mkPublicTables {
  pt_pages : gmap UUID PublicEventPage;
  pt_revisions : list PublicEventPageRevision;
  pt_search : gmap UUID SearchIndexEntry;
  pt_maps : gmap UUID MapIndexEntry;
}.

(** ** Tenancy and metering (domain/tenancy, domain/metering) *)
Inductive TenantRole := OWNER | MEMBER | READ_ONLY.
Definition tenant_role_value (r : TenantRole) : string :=
  match r with OWNER => "OWNER" | MEMBER => "MEMBER" | READ_ONLY => "READ_ONLY" end.

Record Tenant := mkTenant {
  tn_id : UUID;
  tn_slug : string;
  tn_display_name : string;
  tn_is_active : bool;
  tn_created_at : datetime;
}.

Record TenantSource := mkTenantSource {
  ts_id : UUID;
  ts_tenant_id : UUID;
  ts_name : string;
  ts_kind : string;
  ts_reliability_tier : Z;
  ts_created_at : datetime;
}.

Inductive TenantIngestionRunStatus := RUN_RUNNING | RUN_SUCCEEDED | RUN_FAILED.
#[export] Instance TenantIngestionRunStatus_eq_dec : EqDecision TenantIngestionRunStatus.
Proof. solve_decision. Defined.
Definition run_status_value (s : TenantIngestionRunStatus) : string :=
  match s with RUN_RUNNING => "running" | RUN_SUCCEEDED => "succeeded" | RUN_FAILED => "failed" end.

Record TenantIngestionRun := mkTenantRun {
  tr_id : UUID;
  tr_tenant_id : UUID;
  tr_tenant_source_id : UUID;
  tr_status : string;
  tr_started_at : datetime;
  tr_finished_at : option datetime;
}.

(** TenantClaimKind and TenantSafetyReportKind have the same members. *)
Inductive TenantEvidenceKind := FOQA | ASAP | OTHER.
#[export] Instance TenantEvidenceKind_eq_dec : EqDecision TenantEvidenceKind.
Proof. solve_decision. Defined.

Record TenantClaim := mkTenantClaim {
  tc_id : UUID;
  tc_tenant_id : UUID;
  tc_event_id : UUID;
  tc_tenant_source_id : UUID;
  tc_tenant_ingestion_run_id : option UUID;
  tc_field_name : string;
  tc_field_value : pyval;
  tc_claim_kind : TenantEvidenceKind;
  tc_confidence : option float;
  tc_created_at : datetime;
}.

Record TenantEventOverlay := mkOverlay {
  ov_id : UUID;
  ov_tenant_id : UUID;
  ov_event_id : UUID;
  ov_notes_markdown : option string;
  ov_overlay_fields : list (string * pyval);
  ov_created_at : datetime;
  ov_updated_at : datetime;
}.

Record TenantSafetyReport := mkSafetyReport {
  sr_id : UUID;
  sr_tenant_id : UUID;
  sr_report_kind : TenantEvidenceKind;
  sr_narrative_markdown : string;
  sr_deidentified_attested : bool;
  sr_external_report_ref : option string;
  sr_submitter_user_id : UUID;
  sr_created_at : datetime;
}.

Inductive TenantEventAssociationKind := RELATED | CONTRIBUTED_TO | PRECEDED.

Record TenantEventAssociation := mkAssociation {
  as_id : UUID;
  as_tenant_id : UUID;
  as_event_id : UUID;
  as_claim_id : option UUID;
  as_safety_report_id : option UUID;
  as_association_kind : TenantEventAssociationKind;
  as_note : option string;
  as_created_by_user_id : UUID;
  as_created_at : datetime;
}.

Inductive MetricKind :=
  | TENANT_CLAIM_INGESTED | TENANT_REPORT_FILED | TENANT_INGESTION_RUN_COMPLETED
  | NL_QUERY_EXECUTED | HFACS_ATTRIBUTION_CREATED | ECHO_CROSSREF_RUN.
#[export] Instance MetricKind_eq_dec : EqDecision MetricKind.
Proof. solve_decision. Defined.
Definition metric_kind_value (m : MetricKind) : string :=
  match m with
  | TENANT_CLAIM_INGESTED => "TENANT_CLAIM_INGESTED"
  | TENANT_REPORT_FILED => "TENANT_REPORT_FILED"
  | TENANT_INGESTION_RUN_COMPLETED => "TENANT_INGESTION_RUN_COMPLETED"
  | NL_QUERY_EXECUTED => "NL_QUERY_EXECUTED"
  | HFACS_ATTRIBUTION_CREATED => "HFACS_ATTRIBUTION_CREATED"
  | ECHO_CROSSREF_RUN => "ECHO_CROSSREF_RUN"
  end.

Record UsageEvent := mkUsageEvent {
  ue_id : UUID;
  ue_metric_kind : MetricKind;
  ue_tenant_id : option UUID;
  ue_user_id : option UUID;
  ue_resource_id : option UUID;
  ue_recorded_at : datetime;
}.

Record UsageDailyRollup := mkRollup {
  ur_id : UUID;
  ur_tenant_id : UUID;
  ur_metric_kind : MetricKind;
  ur_day : Z;                          (* days since 1970-01-01 *)
  ur_count : Z;
  ur_computed_at : datetime;
}.

(** The tables of the tenants. *)
Record TenantTables := mkTenantTables {
  tt_tenants : gmap UUID Tenant;
  tt_sources : gmap UUID TenantSource;
  tt_runs : gmap UUID TenantIngestionRun;
  tt_claims : gmap UUID TenantClaim;
  tt_overlays : gmap UUID TenantEventOverlay;
  tt_reports : gmap UUID TenantSafetyReport;
  tt_associations : gmap UUID TenantEventAssociation;
  tt_usage : gmap UUID UsageEvent;
  tt_rollups : gmap UUID UsageDailyRollup;
}.
Definition no_tenants : TenantTables := mkTenantTables ∅ ∅ ∅ ∅ ∅ ∅ ∅ ∅ ∅.

(** ** Basic facts *)
Lemma can_win_active c : can_win c = is_active c.
Proof. unfold can_win, is_active. destruct (c_claim_type c); reflexivity. Qed.

Lemma is_active_spec c : is_active c = true ↔ c_claim_type c ≠ SUPERSEDED.
Proof.
  unfold is_active. rewrite bool_decide_eq_true. unfold active_values.
  destruct (c_claim_type c); vm_compute; naive_solver set_solver.
Qed.

Lemma is_active_false c : is_active c = false ↔ c_claim_type c = SUPERSEDED.
Proof.
  rewrite <- not_true_iff_false, is_active_spec. destruct (c_claim_type c); naive_solver.
Qed.
#[export] Hint Rewrite can_win_active : atlas.
