(* ===== verification/ContextEntities.v ===== *)
(** Entities and tables of the contexts around the claims core: the CMS
    (domain/cms/entities.py), causality (domain/causality/entities.py), and the Argus,
    Hermes, Chronos and Orion engines (domain/entities.py, domain/enums.py). *)
From S2P Require Import Prelude Text PyFloat PyVal Entities.
Open Scope string_scope.
Open Scope list_scope.
Open Scope Z_scope.

(** ** CMS: glossary, methodology, changelog *)

(** The workflow state, the same fields with the same meaning on every kind of content. *)
Record WorkflowState := mkWorkflow {
  wf_status : PublicationStatus;
  wf_version : Z;
  wf_first_published_at : option datetime;
  wf_last_published_at : option datetime;
  wf_retraction_note : option string;
  wf_created_at : datetime;
  wf_updated_at : datetime;
}.

Record GlossaryTerm := mkGlossaryTerm {
  gt_id : UUID;
  gt_term : string;
  gt_display_term : string;
  gt_body_markdown : string;
  gt_workflow : WorkflowState;
}.

Record MethodologyPage := mkMethodologyPage {
  mp_id : UUID;
  mp_slug : string;
  mp_title : string;
  mp_section : string;
  mp_section_order : Z;
  mp_body_markdown : string;
  mp_workflow : WorkflowState;
}.

Record ChangelogEntry := mkChangelogEntry {
  ce_id : UUID;
  ce_slug : string;
  ce_title : string;
  ce_effective_date : Z;               (* days since 1970-01-01 *)
  ce_body_markdown : string;
  ce_workflow : WorkflowState;
}.

(** The three revision classes have one shape; [cr_owner_id] is term_id, page_id or entry_id. *)
Record CmsRevision := mkCmsRevision {
  cr_id : UUID;
  cr_owner_id : UUID;
  cr_from_status : option PublicationStatus;
  cr_to_status : PublicationStatus;
  cr_version_at_revision : Z;
  cr_editor_user_id : UUID;
  cr_transition_reason : option string;
  cr_correction_note : option string;
  cr_created_at : datetime;
}.

Record CmsTables := mkCmsTables {
  cms_glossary : gmap UUID GlossaryTerm;
  cms_glossary_revisions : list CmsRevision;
  cms_methodology : gmap UUID MethodologyPage;
  cms_methodology_revisions : list CmsRevision;
  cms_changelog : gmap UUID ChangelogEntry;
  cms_changelog_revisions : list CmsRevision;
}.
Definition no_content : CmsTables := mkCmsTables ∅ [] ∅ [] ∅ [].

(** ** Causality *)
Inductive HfacsTier := ORGANIZATIONAL | SUPERVISION | PRECONDITIONS | UNSAFE_ACTS.

Record HfacsCategory := mkHfacsCategory {
  hc_id : UUID;
  hc_tier_code : string;
  hc_code : string;
  hc_tier : HfacsTier;
  hc_name : string;
  hc_description : string;
  hc_is_custom : bool;
  hc_created_at : datetime;
}.

Record HfacsSubcategory := mkHfacsSubcategory {
  hs_id : UUID;
  hs_category_id : UUID;
  hs_code : string;
  hs_name : string;
  hs_description : option string;
  hs_is_custom : bool;
  hs_created_at : datetime;
}.

Record EventHfacsAttribution := mkAttribution {
  ha_id : UUID;
  ha_event_id : UUID;
  ha_category_id : UUID;
  ha_subcategory_id : option UUID;
  ha_confidence : float;
  ha_note : option string;
  ha_editor_user_id : UUID;
  ha_version : Z;
  ha_created_at : datetime;
  ha_updated_at : datetime;
}.

Inductive SheloClass := SC_SOFTWARE | SC_HARDWARE | SC_ENVIRONMENT | SC_LIVEWARE | SC_OTHER.
Definition shelo_class_value (c : SheloClass) : string :=
  match c with
  | SC_SOFTWARE => "SOFTWARE" | SC_HARDWARE => "HARDWARE" | SC_ENVIRONMENT => "ENVIRONMENT"
  | SC_LIVEWARE => "LIVEWARE" | SC_OTHER => "OTHER"
  end.
Inductive SheloInteractionKind := PRECONDITION | AGGRAVATED | MITIGATED | MASKED.
#[export] Instance SheloInteractionKind_eq_dec : EqDecision SheloInteractionKind.
Proof. solve_decision. Defined.

Record SheloFactor := mkFactor {
  sf_id : UUID;
  sf_event_id : UUID;
  sf_factor_class : SheloClass;
  sf_label : string;
  sf_description : option string;
  sf_editor_user_id : UUID;
  sf_version : Z;
  sf_created_at : datetime;
  sf_updated_at : datetime;
}.

Record SheloFactorInteraction := mkInteraction {
  si_id : UUID;
  si_event_id : UUID;
  si_source_factor_id : UUID;
  si_target_factor_id : UUID;
  si_interaction_kind : SheloInteractionKind;
  si_note : option string;
  si_editor_user_id : UUID;
  si_created_at : datetime;
}.

Record CausalityTables := mkCausalityTables {
  ca_categories : gmap UUID HfacsCategory;
  ca_subcategories : gmap UUID HfacsSubcategory;
  ca_attributions : gmap UUID EventHfacsAttribution;
  ca_factors : gmap UUID SheloFactor;
  ca_interactions : gmap UUID SheloFactorInteraction;
}.
Definition no_causality : CausalityTables := mkCausalityTables ∅ ∅ ∅ ∅ ∅.

(** ** Argus signals *)
Inductive ArgusSignalType :=
  | NEW_SOURCE_CHANGE | TIMELINE_SEQUENCE_CONFLICT | HIGH_CONFLICT_ACCIDENT_RECORD
  | REPEATED_AIRCRAFT_INVOLVEMENT | REPEATED_OPERATOR_INVOLVEMENT | SOURCE_FETCH_FAILURE_SPIKE
  | ECHO_STRONG_PRECEDENT_MATCH.
#[export] Instance ArgusSignalType_eq_dec : EqDecision ArgusSignalType.
Proof. solve_decision. Defined.
Definition signal_type_value (t : ArgusSignalType) : string :=
  match t with
  | NEW_SOURCE_CHANGE => "NEW_SOURCE_CHANGE"
  | TIMELINE_SEQUENCE_CONFLICT => "TIMELINE_SEQUENCE_CONFLICT"
  | HIGH_CONFLICT_ACCIDENT_RECORD => "HIGH_CONFLICT_ACCIDENT_RECORD"
  | REPEATED_AIRCRAFT_INVOLVEMENT => "REPEATED_AIRCRAFT_INVOLVEMENT"
  | REPEATED_OPERATOR_INVOLVEMENT => "REPEATED_OPERATOR_INVOLVEMENT"
  | SOURCE_FETCH_FAILURE_SPIKE => "SOURCE_FETCH_FAILURE_SPIKE"
  | ECHO_STRONG_PRECEDENT_MATCH => "ECHO_STRONG_PRECEDENT_MATCH"
  end.

Inductive ArgusSeverity := LOW | MEDIUM | HIGH | CRITICAL.
#[export] Instance ArgusSeverity_eq_dec : EqDecision ArgusSeverity.
Proof. solve_decision. Defined.

Inductive ArgusSignalStatus :=
  | SIGNAL_OPEN | SIGNAL_CONFIRMED | SIGNAL_DISMISSED | SIGNAL_NEEDS_MORE_REVIEW
  | SIGNAL_AUTO_RESOLVED.
#[export] Instance ArgusSignalStatus_eq_dec : EqDecision ArgusSignalStatus.
Proof. solve_decision. Defined.

Inductive ArgusEvidenceType :=
  | ATLAS_CLAIM | ATLAS_CONFLICT | ATLAS_ACCIDENT_EVENT | ORION_ENTITY | ORION_RELATIONSHIP
  | CHRONOS_TIMELINE_EVENT | CHRONOS_SEQUENCE_REVIEW | HERMES_SOURCE_CHANGE | HERMES_FETCH_JOB
  | HERMES_FETCHED_DOCUMENT | ECHO_CROSSREF_RESULT.
#[export] Instance ArgusEvidenceType_eq_dec : EqDecision ArgusEvidenceType.
Proof. solve_decision. Defined.

Inductive ArgusReviewDecision := REVIEW_CONFIRMED | REVIEW_DISMISSED | REVIEW_NEEDS_MORE.

Record ArgusSignal := mkSignal {
  sg_id : UUID;
  sg_signal_type : ArgusSignalType;
  sg_status : ArgusSignalStatus;
  sg_severity : ArgusSeverity;
  sg_confidence : float;
  sg_title : string;
  sg_description : option string;
  sg_accident_event_id : option UUID;
  sg_source_engine : string;
  sg_dedupe_key : string;
  sg_version : Z;
  sg_first_detected_at : datetime;
  sg_last_detected_at : datetime;
  sg_created_at : datetime;
  sg_updated_at : datetime;
}.

Record ArgusSignalEvidence := mkEvidence {
  se_id : UUID;
  se_signal_id : UUID;
  se_evidence_type : ArgusEvidenceType;
  se_evidence_id : UUID;
  se_engine : string;
  se_summary : option string;
  se_created_at : datetime;
}.

Record ArgusSignalReview := mkSignalReview {
  sv_id : UUID;
  sv_signal_id : UUID;
  sv_decision : ArgusReviewDecision;
  sv_reviewer_id : option UUID;
  sv_note : option string;
  sv_created_at : datetime;
}.

Record ArgusTables := mkArgusTables {
  ag_signals : gmap UUID ArgusSignal;
  ag_evidence : gmap UUID ArgusSignalEvidence;
  ag_reviews : list ArgusSignalReview;
}.
Definition no_signals : ArgusTables := mkArgusTables ∅ ∅ [].

(** ** Hermes fetching *)
Inductive HermesSourceType := OFFICIAL_AGENCY | NEWS | DATABASE | ARCHIVE | SOURCE_OTHER.
Inductive HermesTargetStatus := TARGET_ACTIVE | TARGET_PAUSED | TARGET_DISABLED.
#[export] Instance HermesTargetStatus_eq_dec : EqDecision HermesTargetStatus.
Proof. solve_decision. Defined.
Inductive HermesFetchJobStatus := JOB_QUEUED | JOB_RUNNING | JOB_SUCCEEDED | JOB_FAILED | JOB_CANCELLED.
#[export] Instance HermesFetchJobStatus_eq_dec : EqDecision HermesFetchJobStatus.
Proof. solve_decision. Defined.
Inductive HermesDocumentContentType :=
  | CT_HTML | CT_PDF | CT_TEXT | CT_JSON | CT_XML | CT_BINARY | CT_UNKNOWN.
#[export] Instance HermesDocumentContentType_eq_dec : EqDecision HermesDocumentContentType.
Proof. solve_decision. Defined.
Inductive HermesChangeType := FIRST_SEEN | CONTENT_CHANGED | CONTENT_UNCHANGED | FETCH_FAILED.
#[export] Instance HermesChangeType_eq_dec : EqDecision HermesChangeType.
Proof. solve_decision. Defined.
Definition change_type_value (c : HermesChangeType) : string :=
  match c with
  | FIRST_SEEN => "FIRST_SEEN" | CONTENT_CHANGED => "CONTENT_CHANGED"
  | CONTENT_UNCHANGED => "CONTENT_UNCHANGED" | FETCH_FAILED => "FETCH_FAILED"
  end.

Record HermesSource := mkHermesSource {
  hso_id : UUID;
  hso_name : string;
  hso_source_type : HermesSourceType;
  hso_base_url : option string;
  hso_reliability_tier : option string;
  hso_is_active : bool;
  hso_created_at : datetime;
  hso_updated_at : datetime;
}.

Record HermesCrawlTarget := mkTarget {
  ht_id : UUID;
  ht_source_id : UUID;
  ht_url : string;
  ht_normalized_url : string;
  ht_status : HermesTargetStatus;
  ht_label : option string;
  ht_last_fetch_job_id : option UUID;
  ht_last_fetched_document_id : option UUID;
  ht_last_content_sha256 : option string;
  ht_last_http_status : option Z;
  ht_last_fetched_at : option datetime;
  ht_created_at : datetime;
  ht_updated_at : datetime;
}.

Record HermesFetchJob := mkJob {
  hj_id : UUID;
  hj_target_id : UUID;
  hj_status : HermesFetchJobStatus;
  hj_priority : Z;
  hj_attempt_count : Z;
  hj_max_attempts : Z;
  hj_scheduled_at : option datetime;
  hj_started_at : option datetime;
  hj_finished_at : option datetime;
  hj_error_message : option string;
  hj_locked_by : option string;
  hj_locked_at : option datetime;
  hj_lease_expires_at : option datetime;
  hj_created_at : datetime;
  hj_updated_at : datetime;
}.

Record HermesFetchedDocument := mkDocument {
  hd_id : UUID;
  hd_target_id : UUID;
  hd_fetch_job_id : UUID;
  hd_url : string;
  hd_final_url : option string;
  hd_http_status : option Z;
  hd_content_type : HermesDocumentContentType;
  hd_content_sha256 : string;
  hd_content_length : Z;
  hd_title : option (list N);           (* text of code points *)
  hd_raw_text_preview : option (list N);
  hd_fetched_at : datetime;
  hd_created_at : datetime;
}.

Record HermesSourceChange := mkChange {
  hg_id : UUID;
  hg_target_id : UUID;
  hg_fetch_job_id : option UUID;
  hg_previous_document_id : option UUID;
  hg_new_document_id : option UUID;
  hg_change_type : HermesChangeType;
  hg_previous_sha256 : option string;
  hg_new_sha256 : option string;
  hg_detected_at : datetime;
  hg_created_at : datetime;
}.

Record HermesTables := mkHermesTables {
  hm_sources : gmap UUID HermesSource;
  hm_targets : gmap UUID HermesCrawlTarget;
  hm_jobs : gmap UUID HermesFetchJob;
  hm_documents : gmap UUID HermesFetchedDocument;
  hm_changes : gmap UUID HermesSourceChange;
}.
Definition no_hermes : HermesTables := mkHermesTables ∅ ∅ ∅ ∅ ∅.

(** ** Chronos: timelines *)
Inductive ChronosTimelineEventType :=
  | SCHEDULED_DEPARTURE | ACTUAL_DEPARTURE | TAKEOFF | LAST_CONTACT | EMERGENCY_DECLARED | IMPACT | LANDING_EVENT
  | RESCUE_STARTED | INVESTIGATION_OPENED | REPORT_PUBLISHED.
#[export] Instance ChronosTimelineEventType_eq_dec : EqDecision ChronosTimelineEventType.
Proof. solve_decision. Defined.
Inductive ChronosTimestampPrecision := EXACT | MINUTE | HOUR | DAY | APPROXIMATE | RELATIVE | PRECISION_UNKNOWN.
#[export] Instance ChronosTimestampPrecision_eq_dec : EqDecision ChronosTimestampPrecision.
Proof. solve_decision. Defined.
Inductive ChronosSequenceReviewStatus := SEQ_PENDING | SEQ_CONFIRMED | SEQ_REJECTED | SEQ_AUTO_CONFIRMED.
#[export] Instance ChronosSequenceReviewStatus_eq_dec : EqDecision ChronosSequenceReviewStatus.
Proof. solve_decision. Defined.

Record ChronosTimelineEvent := mkTimelineEvent {
  ct_id : UUID;
  ct_accident_event_id : UUID;
  ct_event_type : ChronosTimelineEventType;
  ct_occurred_at : option datetime;
  ct_timestamp_precision : ChronosTimestampPrecision;
  ct_sequence_index : option Z;
  ct_raw_value : option string;
  ct_confidence : float;
  ct_source_claim_id : option UUID;
  ct_raw_snapshot_id : option UUID;
  ct_created_at : datetime;
  ct_updated_at : datetime;
}.
Record ChronosEventLink := mkEventLink {
  cl_id : UUID;
  cl_accident_event_id : UUID;
  cl_predecessor_event_id : UUID;
  cl_successor_event_id : UUID;
  cl_relationship_type : string;
  cl_confidence : float;
  cl_source_claim_id : option UUID;
  cl_raw_snapshot_id : option UUID;
  cl_created_at : datetime;
}.
Record ChronosSequenceReview := mkSequenceReview {
  cq_id : UUID;
  cq_accident_event_id : UUID;
  cq_timeline_event_id_a : UUID;
  cq_timeline_event_id_b : UUID;
  cq_reason : string;
  cq_status : ChronosSequenceReviewStatus;
  cq_created_at : datetime;
  cq_resolved_at : option datetime;
  cq_resolved_by : option UUID;
  cq_resolution_note : option string;
}.
Record ChronosTables := mkChronosTables {
  ch_events : gmap UUID ChronosTimelineEvent;
  ch_links : gmap UUID ChronosEventLink;
  ch_reviews : gmap UUID ChronosSequenceReview;
}.
Definition no_timelines : ChronosTables := mkChronosTables ∅ ∅ ∅.

(** ** Orion: entities *)
Inductive OrionEntityType :=
  | ORION_AIRCRAFT | ORION_OPERATOR | ORION_AIRPORT | ORION_AIRCRAFT_TYPE | ORION_MANUFACTURER
  | ORION_INVESTIGATION_AGENCY | ORION_COUNTRY.
#[export] Instance OrionEntityType_eq_dec : EqDecision OrionEntityType.
Proof. solve_decision. Defined.
Inductive OrionRelationshipType :=
  | INVOLVED_AIRCRAFT | OPERATED_BY | OF_AIRCRAFT_TYPE | MANUFACTURED_BY | OCCURRED_AT | LOCATED_IN | INVESTIGATED_BY.
#[export] Instance OrionRelationshipType_eq_dec : EqDecision OrionRelationshipType.
Proof. solve_decision. Defined.
Inductive OrionEntityStatus := ENTITY_ACTIVE | ENTITY_MERGED | ENTITY_DEPRECATED.
#[export] Instance OrionEntityStatus_eq_dec : EqDecision OrionEntityStatus.
Proof. solve_decision. Defined.

Record OrionEntity := mkOrionEntity {
  oe_id : UUID;
  oe_entity_type : OrionEntityType;
  oe_canonical_name : string;
  oe_status : OrionEntityStatus;
  oe_confidence : float;
  oe_merged_into_entity_id : option UUID;
  oe_created_at : datetime;
  oe_updated_at : datetime;
}.
Record OrionEntityIdentifier := mkOrionIdentifier {
  oi_id : UUID;
  oi_entity_id : UUID;
  oi_entity_type : OrionEntityType;
  oi_identifier_type : string;
  oi_identifier_value : string;
  oi_normalized_value : string;
  oi_source_claim_id : option UUID;
  oi_raw_snapshot_id : option UUID;
  oi_confidence : float;
  oi_valid_from : option datetime;
  oi_valid_to : option datetime;
  oi_created_at : datetime;
}.
Record OrionRelationship := mkOrionRelationship {
  or_id : UUID;
  or_subject_entity_id : option UUID;
  or_relationship_type : OrionRelationshipType;
  or_object_entity_id : UUID;
  or_accident_event_id : UUID;
  or_source_claim_id : option UUID;
  or_raw_snapshot_id : option UUID;
  or_confidence : float;
  or_valid_from : option datetime;
  or_valid_to : option datetime;
  or_created_at : datetime;
}.
Record OrionEntityClaimLink := mkOrionClaimLink {
  ol_id : UUID;
  ol_entity_id : UUID;
  ol_claim_id : UUID;
  ol_raw_snapshot_id : option UUID;
  ol_source_id : UUID;
  ol_accident_event_id : UUID;
  ol_confidence : float;
  ol_created_at : datetime;
}.
Record OrionTables := mkOrionTables {
  on_entities : gmap UUID OrionEntity;
  on_identifiers : gmap UUID OrionEntityIdentifier;
  on_relationships : gmap UUID OrionRelationship;
  on_claim_links : gmap UUID OrionEntityClaimLink;
}.
Definition no_entities : OrionTables := mkOrionTables ∅ ∅ ∅ ∅.
