(* ===== verification/Store.v ===== *)
(** The unit of work: database state, transactions, concurrent writers, and the
    repositories of the claims/conflicts core.

    Models src/src/atlas/infrastructure/db/unit_of_work.py and the SQL of
    repositories/{events,sources,claims,conflicts,projections,reviews,identity,
    outbox,snapshots,ingestion}.py, statement by statement.

    - [w_db] is what the session of the running transaction sees, [w_committed]
      what is durable.  [commit] publishes the session, [rollback] and leaving
      the unit of work discard it.
    - [w_env] lists what other transactions commit while this one runs: before
      each statement one pending change is applied to both views (READ
      COMMITTED).  An empty list is a run without interference.
    - [w_now] is the clock (every read advances it by one microsecond) and
      [w_uuid] the supply of [uuid4]: identifiers never used before.
    - SELECTs without ORDER BY return rows in the order of the table's map. *)
From S2P Require Import Prelude Text PyFloat PyVal PyDate Entities ContextEntities.
Open Scope string_scope.
Open Scope list_scope.
Open Scope Z_scope.

(** ** Tables *)
Record DB := mkDB {
  db_sources : gmap UUID Source;
  db_events : gmap UUID AccidentEvent;
  db_claims : gmap UUID Claim;
  db_claim_history : list ClaimHistory;
  db_conflicts : gmap UUID ClaimConflict;   (* [cf_claim_ids] lives in the link table *)
  db_conflict_claims : list (UUID * UUID);   (* (conflict_id, claim_id) *)
  db_activity : list ConflictActivityLogEntry;
  db_projections : gmap UUID ProjectedAccidentRecord;
  db_projection_history : list AccidentProjectionHistory;
  db_outbox : gmap UUID OutboxEvent;
  db_reviews : gmap UUID PendingDuplicateReview;
  db_identity : gmap UUID EventIdentityIndex;
  db_snapshots : gmap UUID RawSnapshot;
  db_runs : gmap UUID IngestionRun;
  db_publication : PublicTables;
  db_tenancy : TenantTables;
  db_cms : CmsTables;
  db_causality : CausalityTables;
  db_argus : ArgusTables;
  db_hermes : HermesTables;
  db_chronos : ChronosTables;
  db_orion : OrionTables;
}.

Definition upd_sources f db := mkDB (f (db_sources db)) (db_events db) (db_claims db)
  (db_claim_history db) (db_conflicts db) (db_conflict_claims db) (db_activity db) (db_projections
  db) (db_projection_history db) (db_outbox db) (db_reviews db) (db_identity db) (db_snapshots db)
  (db_runs db) (db_publication db) (db_tenancy db) (db_cms db) (db_causality db) (db_argus db)
  (db_hermes db) (db_chronos db) (db_orion db).
Definition upd_events f db := mkDB (db_sources db) (f (db_events db)) (db_claims db)
  (db_claim_history db) (db_conflicts db) (db_conflict_claims db) (db_activity db) (db_projections
  db) (db_projection_history db) (db_outbox db) (db_reviews db) (db_identity db) (db_snapshots db)
  (db_runs db) (db_publication db) (db_tenancy db) (db_cms db) (db_causality db) (db_argus db)
  (db_hermes db) (db_chronos db) (db_orion db).
Definition upd_claims f db := mkDB (db_sources db) (db_events db) (f (db_claims db))
  (db_claim_history db) (db_conflicts db) (db_conflict_claims db) (db_activity db) (db_projections
  db) (db_projection_history db) (db_outbox db) (db_reviews db) (db_identity db) (db_snapshots db)
  (db_runs db) (db_publication db) (db_tenancy db) (db_cms db) (db_causality db) (db_argus db)
  (db_hermes db) (db_chronos db) (db_orion db).
Definition upd_claim_history f db := mkDB (db_sources db) (db_events db) (db_claims db) (f
  (db_claim_history db)) (db_conflicts db) (db_conflict_claims db) (db_activity db)
  (db_projections db) (db_projection_history db) (db_outbox db) (db_reviews db) (db_identity db)
  (db_snapshots db) (db_runs db) (db_publication db) (db_tenancy db) (db_cms db) (db_causality db)
  (db_argus db) (db_hermes db) (db_chronos db) (db_orion db).
Definition upd_conflicts f db := mkDB (db_sources db) (db_events db) (db_claims db)
  (db_claim_history db) (f (db_conflicts db)) (db_conflict_claims db) (db_activity db)
  (db_projections db) (db_projection_history db) (db_outbox db) (db_reviews db) (db_identity db)
  (db_snapshots db) (db_runs db) (db_publication db) (db_tenancy db) (db_cms db) (db_causality db)
  (db_argus db) (db_hermes db) (db_chronos db) (db_orion db).
Definition upd_conflict_claims f db := mkDB (db_sources db) (db_events db) (db_claims db)
  (db_claim_history db) (db_conflicts db) (f (db_conflict_claims db)) (db_activity db)
  (db_projections db) (db_projection_history db) (db_outbox db) (db_reviews db) (db_identity db)
  (db_snapshots db) (db_runs db) (db_publication db) (db_tenancy db) (db_cms db) (db_causality db)
  (db_argus db) (db_hermes db) (db_chronos db) (db_orion db).
Definition upd_activity f db := mkDB (db_sources db) (db_events db) (db_claims db)
  (db_claim_history db) (db_conflicts db) (db_conflict_claims db) (f (db_activity db))
  (db_projections db) (db_projection_history db) (db_outbox db) (db_reviews db) (db_identity db)
  (db_snapshots db) (db_runs db) (db_publication db) (db_tenancy db) (db_cms db) (db_causality db)
  (db_argus db) (db_hermes db) (db_chronos db) (db_orion db).
Definition upd_projections f db := mkDB (db_sources db) (db_events db) (db_claims db)
  (db_claim_history db) (db_conflicts db) (db_conflict_claims db) (db_activity db) (f
  (db_projections db)) (db_projection_history db) (db_outbox db) (db_reviews db) (db_identity db)
  (db_snapshots db) (db_runs db) (db_publication db) (db_tenancy db) (db_cms db) (db_causality db)
  (db_argus db) (db_hermes db) (db_chronos db) (db_orion db).
Definition upd_projection_history f db := mkDB (db_sources db) (db_events db) (db_claims db)
  (db_claim_history db) (db_conflicts db) (db_conflict_claims db) (db_activity db) (db_projections
  db) (f (db_projection_history db)) (db_outbox db) (db_reviews db) (db_identity db) (db_snapshots
  db) (db_runs db) (db_publication db) (db_tenancy db) (db_cms db) (db_causality db) (db_argus db)
  (db_hermes db) (db_chronos db) (db_orion db).
Definition upd_outbox f db := mkDB (db_sources db) (db_events db) (db_claims db) (db_claim_history
  db) (db_conflicts db) (db_conflict_claims db) (db_activity db) (db_projections db)
  (db_projection_history db) (f (db_outbox db)) (db_reviews db) (db_identity db) (db_snapshots db)
  (db_runs db) (db_publication db) (db_tenancy db) (db_cms db) (db_causality db) (db_argus db)
  (db_hermes db) (db_chronos db) (db_orion db).
Definition upd_reviews f db := mkDB (db_sources db) (db_events db) (db_claims db)
  (db_claim_history db) (db_conflicts db) (db_conflict_claims db) (db_activity db) (db_projections
  db) (db_projection_history db) (db_outbox db) (f (db_reviews db)) (db_identity db) (db_snapshots
  db) (db_runs db) (db_publication db) (db_tenancy db) (db_cms db) (db_causality db) (db_argus db)
  (db_hermes db) (db_chronos db) (db_orion db).
Definition upd_identity f db := mkDB (db_sources db) (db_events db) (db_claims db)
  (db_claim_history db) (db_conflicts db) (db_conflict_claims db) (db_activity db) (db_projections
  db) (db_projection_history db) (db_outbox db) (db_reviews db) (f (db_identity db)) (db_snapshots
  db) (db_runs db) (db_publication db) (db_tenancy db) (db_cms db) (db_causality db) (db_argus db)
  (db_hermes db) (db_chronos db) (db_orion db).
Definition upd_snapshots f db := mkDB (db_sources db) (db_events db) (db_claims db)
  (db_claim_history db) (db_conflicts db) (db_conflict_claims db) (db_activity db) (db_projections
  db) (db_projection_history db) (db_outbox db) (db_reviews db) (db_identity db) (f (db_snapshots
  db)) (db_runs db) (db_publication db) (db_tenancy db) (db_cms db) (db_causality db) (db_argus
  db) (db_hermes db) (db_chronos db) (db_orion db).
Definition upd_runs f db := mkDB (db_sources db) (db_events db) (db_claims db) (db_claim_history
  db) (db_conflicts db) (db_conflict_claims db) (db_activity db) (db_projections db)
  (db_projection_history db) (db_outbox db) (db_reviews db) (db_identity db) (db_snapshots db) (f
  (db_runs db)) (db_publication db) (db_tenancy db) (db_cms db) (db_causality db) (db_argus db)
  (db_hermes db) (db_chronos db) (db_orion db).
Definition upd_publication f db := mkDB (db_sources db) (db_events db) (db_claims db)
  (db_claim_history db) (db_conflicts db) (db_conflict_claims db) (db_activity db) (db_projections
  db) (db_projection_history db) (db_outbox db) (db_reviews db) (db_identity db) (db_snapshots db)
  (db_runs db) (f (db_publication db)) (db_tenancy db) (db_cms db) (db_causality db) (db_argus db)
  (db_hermes db) (db_chronos db) (db_orion db).
Definition upd_tenancy f db := mkDB (db_sources db) (db_events db) (db_claims db)
  (db_claim_history db) (db_conflicts db) (db_conflict_claims db) (db_activity db) (db_projections
  db) (db_projection_history db) (db_outbox db) (db_reviews db) (db_identity db) (db_snapshots db)
  (db_runs db) (db_publication db) (f (db_tenancy db)) (db_cms db) (db_causality db) (db_argus db)
  (db_hermes db) (db_chronos db) (db_orion db).
Definition upd_cms f db := mkDB (db_sources db) (db_events db) (db_claims db) (db_claim_history
  db) (db_conflicts db) (db_conflict_claims db) (db_activity db) (db_projections db)
  (db_projection_history db) (db_outbox db) (db_reviews db) (db_identity db) (db_snapshots db)
  (db_runs db) (db_publication db) (db_tenancy db) (f (db_cms db)) (db_causality db) (db_argus db)
  (db_hermes db) (db_chronos db) (db_orion db).
Definition upd_causality f db := mkDB (db_sources db) (db_events db) (db_claims db)
  (db_claim_history db) (db_conflicts db) (db_conflict_claims db) (db_activity db) (db_projections
  db) (db_projection_history db) (db_outbox db) (db_reviews db) (db_identity db) (db_snapshots db)
  (db_runs db) (db_publication db) (db_tenancy db) (db_cms db) (f (db_causality db)) (db_argus db)
  (db_hermes db) (db_chronos db) (db_orion db).
Definition upd_argus f db := mkDB (db_sources db) (db_events db) (db_claims db) (db_claim_history
  db) (db_conflicts db) (db_conflict_claims db) (db_activity db) (db_projections db)
  (db_projection_history db) (db_outbox db) (db_reviews db) (db_identity db) (db_snapshots db)
  (db_runs db) (db_publication db) (db_tenancy db) (db_cms db) (db_causality db) (f (db_argus db))
  (db_hermes db) (db_chronos db) (db_orion db).
Definition upd_hermes f db := mkDB (db_sources db) (db_events db) (db_claims db) (db_claim_history
  db) (db_conflicts db) (db_conflict_claims db) (db_activity db) (db_projections db)
  (db_projection_history db) (db_outbox db) (db_reviews db) (db_identity db) (db_snapshots db)
  (db_runs db) (db_publication db) (db_tenancy db) (db_cms db) (db_causality db) (db_argus db) (f
  (db_hermes db)) (db_chronos db) (db_orion db).
Definition upd_chronos f db := mkDB (db_sources db) (db_events db) (db_claims db)
  (db_claim_history db) (db_conflicts db) (db_conflict_claims db) (db_activity db) (db_projections
  db) (db_projection_history db) (db_outbox db) (db_reviews db) (db_identity db) (db_snapshots db)
  (db_runs db) (db_publication db) (db_tenancy db) (db_cms db) (db_causality db) (db_argus db)
  (db_hermes db) (f (db_chronos db)) (db_orion db).
Definition upd_orion f db := mkDB (db_sources db) (db_events db) (db_claims db) (db_claim_history
  db) (db_conflicts db) (db_conflict_claims db) (db_activity db) (db_projections db)
  (db_projection_history db) (db_outbox db) (db_reviews db) (db_identity db) (db_snapshots db)
  (db_runs db) (db_publication db) (db_tenancy db) (db_cms db) (db_causality db) (db_argus db)
  (db_hermes db) (db_chronos db) (f (db_orion db)).

Definition rows {A} (m : gmap UUID A) : list A := (map_to_list m).*2.

(** A foreign key: the row a nullable column names exists. *)
Definition known {A} (o : option UUID) (m : gmap UUID A) : bool :=
  from_option (λ i, bool_decide (is_Some (m !! i))) true o.

Lemma elem_of_rows {A} (m : gmap UUID A) x : x ∈ rows m ↔ ∃ k, m !! k = Some x.
Proof.
  unfold rows. rewrite list_elem_of_fmap. split.
  - intros ([k y] & -> & H). exists k. by apply elem_of_map_to_list.
  - intros [k H]. exists (k, x). split; [done|]. by apply elem_of_map_to_list.
Qed.

Lemma filter_values {A} (P : A → Prop) `{∀ x, Decision (P x)} (l : list (UUID * A)) :
  filter P l.*2 = (filter (λ kv, P kv.2) l).*2.
Proof.
  induction l as [|[k x] l IH]; [done|]. cbn [fmap list_fmap]. rewrite !filter_cons. simpl.
  case_decide; simpl; by rewrite IH.
Qed.

(** At most one row has a unique key. *)
Lemma unique_row {A} (P : A → Prop) `{∀ x, Decision (P x)} (m : gmap UUID A) :
  (∀ k k' x x', m !! k = Some x → m !! k' = Some x' → P x → P x' → k = k') →
  filter P (rows m) = [] ∨ ∃ k x, filter P (rows m) = [x] ∧ m !! k = Some x ∧ P x.
Proof.
  intros H1. unfold rows. rewrite filter_values.
  assert (∀ kv, kv ∈ filter (λ kv, P kv.2) (map_to_list m) → m !! kv.1 = Some kv.2 ∧ P kv.2) as Hin.
  { intros [k x] [Hf Hx]%list_elem_of_filter. by apply elem_of_map_to_list in Hx. }
  assert (NoDup (filter (λ kv, P kv.2) (map_to_list m)).*1) as Hn by apply NoDup_fst_filter, NoDup_fst_map_to_list.
  destruct (filter _ _) as [|[k x] [|[k' x'] l]]; [by left|right|exfalso].
  - exists k, x. destruct (Hin (k, x)) as [? ?]; [by left|]. by split_and!.
  - destruct (Hin (k, x)) as [Hx Px]; [by left|]. destruct (Hin (k', x')) as [Hx' Px']; [right; by left|].
    apply NoDup_cons in Hn as [Hn _]. apply Hn. rewrite (H1 k k' x x' Hx Hx' Px Px'). by left.
Qed.

(** ** The world and the unit-of-work monad *)
Record World := mkWorld {
  w_db : DB;
  w_committed : DB;
  w_env : list (DB → DB);
  w_now : datetime;
  w_uuid : N;
}.

Definition set_db (db : DB) (w : World) : World :=
  mkWorld db (w_committed w) (w_env w) (w_now w) (w_uuid w).

Definition env_step (w : World) : World :=
  match w_env w with
  | [] => w
  | f :: fs => mkWorld (f (w_db w)) (f (w_committed w)) fs (w_now w) (w_uuid w)
  end.

(** A coroutine of the application: runs in a world, returns or raises. *)
Definition M (A : Type) : Type := World → Res A * World.

#[export] Instance M_ret : MRet M := λ A a w, (Ok a, w).
#[export] Instance M_bind : MBind M := λ A B f m w,
  match m w with
  | (Ok a, w') => f a w'
  | (Raise e, w') => (Raise e, w')
  end.

Definition raise {A} (e : exn) : M A := λ w, (Raise e, w).
Definition lift_res {A} (r : Res A) : M A := λ w, (r, w).
Definition utc_now : M datetime :=
  λ w, (Ok (w_now w), mkWorld (w_db w) (w_committed w) (w_env w) (w_now w + 1) (w_uuid w)).
Definition uuid4 : M UUID :=
  λ w, (Ok (w_uuid w), mkWorld (w_db w) (w_committed w) (w_env w) (w_now w) (w_uuid w + 1)%N).

(** One SQL statement; [Raise] leaves the tables as they are. *)
Definition stmt {A} (f : DB → Res A * DB) : M A := λ w,
  let w' := env_step w in
  match f (w_db w') with
  | (Ok a, db') => (Ok a, set_db db' w')
  | (Raise e, _) => (Raise e, w')
  end.

Definition query {A} (f : DB → A) : M A := stmt (λ db, (Ok (f db), db)).
Definition exec (f : DB → DB) : M unit := stmt (λ db, (Ok tt, f db)).

Definition commit : M unit := λ w,
  (Ok tt, mkWorld (w_db w) (w_db w) (w_env w) (w_now w) (w_uuid w)).
Definition rollback_world (w : World) : World :=
  mkWorld (w_committed w) (w_committed w) (w_env w) (w_now w) (w_uuid w).
Definition rollback : M unit := λ w, (Ok tt, rollback_world w).

(** [async with create_uow() as uow: ...]: leaving the block, by return or by
    exception, discards what was not committed. *)
Definition with_uow {A} (m : M A) : M A := λ w,
  let '(r, w') := m w in (r, rollback_world w').

(** [try: m except Exception as e: h(e)] *)
Definition catch {A} (m : M A) (h : exn → M A) : M A := λ w,
  match m w with
  | (Raise e, w') => h e w'
  | ok => ok
  end.

Fixpoint for_each {A} (l : list A) (f : A → M unit) : M unit :=
  match l with
  | [] => mret ()
  | x :: l' => f x;; for_each l' f
  end.

Fixpoint map_m {A B} (f : A → M B) (l : list A) : M (list B) :=
  match l with
  | [] => mret []
  | x :: l' => y ← f x; ys ← map_m f l'; mret (y :: ys)
  end.

Definition when (b : bool) (m : M unit) : M unit := if b then m else mret ().

(** ** SQL building blocks *)
(** [UPDATE t SET f WHERE p] *)
Definition update_where {A} (p : UUID → A → bool) (f : A → A) (m : gmap UUID A) : gmap UUID A :=
  map_imap (λ k x, Some (if p k x then f x else x)) m.

Lemma lookup_update_where {A} p (f : A → A) m k :
  update_where p f m !! k = (λ x, if p k x then f x else x) <$> m !! k.
Proof. unfold update_where. rewrite map_lookup_imap. by destruct (m !! k). Qed.
#[export] Hint Rewrite @lookup_update_where : atlas.

Lemma update_where_ext {A} (p q : UUID → A → bool) (f : A → A) m :
  (∀ k x, m !! k = Some x → p k x = q k x) → update_where p f m = update_where q f m.
Proof.
  intros Hpq. apply map_eq. intros k. rewrite !lookup_update_where.
  destruct (m !! k) as [x|] eqn:E; [|done]. simpl. by rewrite (Hpq k x E).
Qed.

Lemma update_where_none {A} (p : UUID → A → bool) (f : A → A) m :
  (∀ k x, m !! k = Some x → p k x = false) → update_where p f m = m.
Proof.
  intros Hp. apply map_eq. intros k. rewrite lookup_update_where.
  destruct (m !! k) as [x|] eqn:E; [|done]. simpl. by rewrite (Hp k x E).
Qed.

(** [scalar_one_or_none()] *)
Definition scalar_one_or_none {A} (l : list A) : Res (option A) :=
  match l with
  | [] => Ok None
  | [x] => Ok (Some x)
  | _ => Raise MultipleResultsFound
  end.

Definition scalar_query {A} (f : DB → list A) : M (option A) :=
  stmt (λ db, (scalar_one_or_none (f db), db)).

(** [COALESCE(a, b)] *)
Definition coalesce {A} (a b : option A) : option A := match a with Some _ => a | None => b end.

(** ** Repositories *)
Module SourceRepo.
Definition get (id : UUID) : M (option Source) := query (λ db, db_sources db !! id).
Definition get_by_ids (ids : list UUID) : M (list Source) :=
  query (λ db, omap (λ id, db_sources db !! id) (dict_fromkeys ids)).
End SourceRepo.

Module EventRepo.
Definition get (id : UUID) : M (option AccidentEvent) := query (λ db, db_events db !! id).
(** SELECT ... FOR UPDATE with populate_existing: the current row. *)
Definition lock_for_update (id : UUID) : M (option AccidentEvent) := get id.
(** Transaction-scoped advisory lock: no table is read or written. *)
Definition lock_for_reprojection (event_id : UUID) : M unit := exec (λ db, db).

Definition add (e : AccidentEvent) : M unit :=
  stmt (λ db, match db_events db !! ev_id e with
              | Some _ => (Raise (IntegrityError "accident_events_pkey"), db)
              | None => (Ok tt, upd_events <[ev_id e := e]> db)
              end).

Definition set_merged (target : UUID) (e : AccidentEvent) : AccidentEvent :=
  mkEvent (ev_id e) (ev_created_at e) (Some target).

(** UPDATE accident_events SET merged_into_event_id = :target
    WHERE id = :source AND merged_into_event_id IS NULL RETURNING id *)
Definition try_atomic_merge (source target : UUID) : M bool :=
  stmt (λ db,
    match db_events db !! source with
    | Some e => if is_merged e then (Ok false, db)
                else (Ok true, upd_events <[source := set_merged target e]> db)
    | None => (Ok false, db)
    end).
End EventRepo.

Module ClaimRepo.
Definition get (id : UUID) : M (option Claim) := query (λ db, db_claims db !! id).
Definition lock_for_update (id : UUID) : M (option Claim) := get id.
Definition get_many (ids : list UUID) : M (list Claim) :=
  if bool_decide (ids = []) then mret [] else
  query (λ db, omap (λ id, db_claims db !! id) (dict_fromkeys ids)).
(** INSERT; the primary key rejects an id in use. *)
Definition add (c : Claim) : M unit :=
  stmt (λ db, match db_claims db !! c_id c with
              | Some _ => (Raise (IntegrityError "claims_pkey"), db)
              | None => (Ok tt, upd_claims <[c_id c := c]> db)
              end).

Definition active_by_event (event_id : UUID) (db : DB) : list Claim :=
  filter (λ c, c_event_id c = event_id ∧ is_active c = true) (rows (db_claims db)).
Definition find_active_by_event (event_id : UUID) : M (list Claim) :=
  query (active_by_event event_id).
Definition active_by_event_field (event_id : UUID) (field_name : string) (db : DB)
    : list Claim :=
  filter (λ c, c_event_id c = event_id ∧ c_field_name c = field_name ∧ is_active c = true)
    (rows (db_claims db)).
Definition find_active_by_event_field (event_id : UUID) (field_name : string)
    : M (list Claim) := query (active_by_event_field event_id field_name).

(** Active claims of a source whose snapshot carries this source record. *)
Definition of_source_record (source_id : UUID) (source_record_id : string) (db : DB)
    (c : Claim) : bool :=
  match c_raw_snapshot_id c ≫= λ id, db_snapshots db !! id with
  | Some s => bool_decide (rs_source_id s = source_id
                           ∧ rs_source_record_id s = Some source_record_id)
  | None => false
  end.
Definition active_by_source_record (source_id : UUID) (source_record_id : string) (db : DB)
    : list Claim :=
  filter (λ c, c_source_id c = source_id ∧ is_active c = true
               ∧ of_source_record source_id source_record_id db c = true) (rows (db_claims db)).
Definition find_active_by_source_record (source_id : UUID) (source_record_id : string)
    : M (list Claim) := query (active_by_source_record source_id source_record_id).

(** ORDER BY (claim_type = 'SUPERSEDED'), created_at DESC, id ASC *)
Definition active_first (x y : Claim) : bool :=
  if Bool.eqb (is_active x) (is_active y) then
    (c_created_at y <? c_created_at x)
    || ((c_created_at y =? c_created_at x) && (c_id x <=? c_id y)%N)
  else is_active x.
Definition find_event_id_by_raw_snapshot_id (raw_snapshot_id : UUID) : M (option UUID) :=
  query (λ db, c_event_id <$> head (py_sorted active_first
    (filter (λ c, c_raw_snapshot_id c = Some raw_snapshot_id) (rows (db_claims db))))).

Definition supersede_rows (ids : list UUID) (by_ : UUID) : gmap UUID Claim → gmap UUID Claim :=
  update_where (λ k c, bool_decide (k ∈ ids) && is_active c) (supersede by_).

(** Returns the claims as they were when selected FOR UPDATE. *)
Definition bulk_supersede (claim_ids : list UUID) (by_claim_id : UUID) : M (list Claim) :=
  if bool_decide (claim_ids = []) then mret [] else
  stmt (λ db,
    let ids := dict_fromkeys claim_ids in
    let claims := filter (λ c, is_active c = true) (omap (λ id, db_claims db !! id) ids) in
    (Ok claims, upd_claims (supersede_rows ids by_claim_id) db)).

Definition find_superseded_by (by_claim_id : UUID) : M (list Claim) :=
  query (λ db, filter (λ c, c_superseded_by c = Some by_claim_id) (rows (db_claims db))).

(** The claim type recorded by the newest history row that moved the claim to
    SUPERSEDED; RAW when there is none, or when it recorded SUPERSEDED. *)
Definition restore_type (h : list ClaimHistory) (id : UUID) : ClaimType :=
  match py_sorted (λ x y, ch_created_at y <=? ch_created_at x)
          (filter (λ x, ch_claim_id x = id ∧ ch_to_claim_type x = SUPERSEDED) h) with
  | [] => RAW
  | x :: _ => let t := default RAW (ch_from_claim_type x) in
              if bool_decide (t = SUPERSEDED) then RAW else t
  end.

Definition bulk_unsupersede (claim_ids : list UUID) : M (list Claim) :=
  if bool_decide (claim_ids = []) then mret [] else
  stmt (λ db,
    let ids := dict_fromkeys claim_ids in
    let restored c := with_claim_type (restore_type (db_claim_history db) (c_id c)) None c in
    (Ok (restored <$> omap (λ id, db_claims db !! id) ids),
     upd_claims (update_where (λ k _, bool_decide (k ∈ ids)) restored) db)).
End ClaimRepo.

Module ClaimHistoryRepo.
Definition add (h : ClaimHistory) : M unit := exec (upd_claim_history (λ l, l ++ [h])).
End ClaimHistoryRepo.

Module ConflictRepo.
Definition claim_ids_of (db : DB) (conflict_id : UUID) : list UUID :=
  (filter (λ p, p.1 = conflict_id) (db_conflict_claims db)).*2.

(** Row to entity: the link rows fill [claim_ids]. *)
Definition load (db : DB) (c : ClaimConflict) : ClaimConflict :=
  cf_with_claim_ids (claim_ids_of db (cf_id c)) c.

Definition get (id : UUID) : M (option ClaimConflict) :=
  query (λ db, load db <$> db_conflicts db !! id).

Definition is_open_for (event_id : UUID) (field_name : string) (c : ClaimConflict) : Prop :=
  cf_event_id c = event_id ∧ cf_field_name c = field_name ∧ cf_status c = OPEN.
#[export] Instance is_open_for_dec e f c : Decision (is_open_for e f c).
Proof. unfold is_open_for. apply _. Defined.

Definition open_rows (event_id : UUID) (field_name : string) (db : DB) : list ClaimConflict :=
  filter (is_open_for event_id field_name) (rows (db_conflicts db)).

(** INSERT ... ON CONFLICT (event_id, field_name) WHERE status = 'OPEN' DO NOTHING *)
Definition try_add_open (c : ClaimConflict) : M bool :=
  stmt (λ db,
    if bool_decide (cf_status c = OPEN
                    ∧ open_rows (cf_event_id c) (cf_field_name c) db ≠ [])
    then (Ok false, db)
    else match db_conflicts db !! cf_id c with
         | Some _ => (Raise (IntegrityError "claim_conflicts_pkey"), db)
         | None => (Ok true, upd_conflicts <[cf_id c := cf_with_claim_ids [] c]> db)
         end).

(** ORDER BY created_at DESC, id DESC *)
Definition newest_first (x y : ClaimConflict) : bool :=
  (cf_created_at y <? cf_created_at x)
  || ((cf_created_at y =? cf_created_at x) && (cf_id y <=? cf_id x)%N).
Definition find_by_event (event_id : UUID) : M (list ClaimConflict) :=
  query (λ db, load db <$> py_sorted newest_first
                 (filter (λ c, cf_event_id c = event_id) (rows (db_conflicts db)))).

Definition find_open_by_event_field (event_id : UUID) (field_name : string)
    : M (option ClaimConflict) :=
  scalar_query (λ db, load db <$> open_rows event_id field_name db).

Definition get_claim_ids_for_conflict (conflict_id : UUID) : M (list UUID) :=
  query (λ db, claim_ids_of db conflict_id).

(** ON CONFLICT (conflict_id, claim_id) DO NOTHING *)
Definition add_claim_to_conflict (conflict_id claim_id : UUID) : M unit :=
  exec (upd_conflict_claims (λ l,
    if bool_decide ((conflict_id, claim_id) ∈ l) then l else l ++ [(conflict_id, claim_id)])).

Definition with_version (v : Z) (c : ClaimConflict) : ClaimConflict :=
  mkConflict (cf_id c) (cf_event_id c) (cf_field_name c) (cf_status c) v
    (cf_last_modified_reason c) (cf_last_modified_note c) (cf_winning_claim_id c)
    (cf_resolved_at c) (cf_resolved_by c) (cf_created_at c) (cf_updated_at c) (cf_claim_ids c).

(** Would the row violate [uq_open_conflict_event_field]? *)
Definition open_clash (m : gmap UUID ClaimConflict) (id : UUID) (c : ClaimConflict) : bool :=
  bool_decide (cf_status c = OPEN)
  && existsb (λ kv, negb (bool_decide (kv.1 = id))
                    && bool_decide (is_open_for (cf_event_id c) (cf_field_name c) kv.2))
       (map_to_list m).

(** UPDATE ... SET updates, version = version + 1
    WHERE id = :id AND version = :expected RETURNING * *)
Definition update_with_version_check (conflict_id : UUID) (expected_version : Z)
    (updates : ClaimConflict → ClaimConflict) : M (option ClaimConflict) :=
  stmt (λ db,
    match db_conflicts db !! conflict_id with
    | Some c =>
        if cf_version c =? expected_version then
          let c' := with_version (cf_version c + 1) (updates c) in
          if open_clash (db_conflicts db) conflict_id c'
          then (Raise (IntegrityError "uq_open_conflict_event_field"), db)
          else (Ok (Some (load db c')), upd_conflicts <[conflict_id := c']> db)
        else (Ok None, db)
    | None => (Ok None, db)
    end).

Definition close_as_merged (note : string) (t : datetime) (c : ClaimConflict) : ClaimConflict :=
  mkConflict (cf_id c) (cf_event_id c) (cf_field_name c) RESOLVED (cf_version c + 1)
    SYSTEM_AUTO_CLOSED (Some (str_take 255 note)) None (Some t) (cf_resolved_by c)
    (cf_created_at c) t (cf_claim_ids c).

Definition close_event_conflicts_as_merged (event_id : UUID) (note : string)
    : M (list ClaimConflict) :=
  t ← utc_now;
  stmt (λ db,
    let hit := λ c, bool_decide (cf_event_id c = event_id ∧ cf_status c = OPEN) in
    (Ok (load db <$> (close_as_merged note t <$>
           filter (λ c, hit c = true) (rows (db_conflicts db)))),
     upd_conflicts (update_where (λ _ c, hit c) (close_as_merged note t)) db)).

(** winning claim id -> RESOLVED conflict; a later row overwrites an earlier one *)
Definition find_resolved_by_winning_claims (claim_ids : list UUID)
    : M (list (UUID * ClaimConflict)) :=
  query (λ db, foldl (λ d c,
      match cf_winning_claim_id c with
      | Some w => if bool_decide (w ∈ claim_ids ∧ cf_status c = RESOLVED)
                  then dict_set w (load db c) d else d
      | None => d
      end) [] (rows (db_conflicts db))).
End ConflictRepo.

Module ActivityRepo.
Definition sequences (l : list ConflictActivityLogEntry) (conflict_id : UUID) : list Z :=
  al_sequence <$> filter (λ e, al_conflict_id e = conflict_id) l.

(** COALESCE(MAX(sequence), 0) + 1, under the conflict row lock *)
Definition next_sequence (conflict_id : UUID) : M Z :=
  query (λ db, foldr Z.max 0 (sequences (db_activity db) conflict_id) + 1).

Definition add (e : ConflictActivityLogEntry) : M unit :=
  stmt (λ db,
    if bool_decide (al_sequence e ∈ sequences (db_activity db) (al_conflict_id e))
    then (Raise (IntegrityError "uq_conflict_activity_sequence"), db)
    else (Ok tt, upd_activity (λ l, l ++ [e]) db)).

(** ORDER BY sequence DESC LIMIT 1 *)
Definition latest_for_conflict (conflict_id : UUID) : M (option ConflictActivityLogEntry) :=
  query (λ db, head (py_sorted (λ x y, al_sequence y <=? al_sequence x)
                       (filter (λ e, al_conflict_id e = conflict_id) (db_activity db)))).
End ActivityRepo.

Module ProjectionRepo.
Definition get (event_id : UUID) : M (option ProjectedAccidentRecord) :=
  query (λ db, db_projections db !! event_id).

(** [_domain_data]: the stored JSONB holds the marker string, never the sentinel. *)
Definition to_row (p : ProjectedAccidentRecord) : ProjectedAccidentRecord :=
  mkProjection (pj_event_id p) (pj_version p)
    (map (λ kv, (kv.1, replace_disputed kv.2)) (pj_fields p))
    (pj_completeness p) (pj_unresolved p) (pj_updated_at p).

Definition upsert (p : ProjectedAccidentRecord) : M unit :=
  exec (upd_projections <[pj_event_id p := to_row p]>).
Definition delete (event_id : UUID) : M unit := exec (upd_projections (base.delete event_id)).
End ProjectionRepo.

Module ProjectionHistoryRepo.
(** Unique indexes [uq_projection_history_version] and
    [uq_projection_history_outbox_event]. *)
Definition clash (h h' : AccidentProjectionHistory) : bool :=
  bool_decide (ph_event_id h = ph_event_id h' ∧ ph_version h = ph_version h')
  || bool_decide (is_Some (ph_caused_by_outbox_event_id h)
                  ∧ ph_caused_by_outbox_event_id h = ph_caused_by_outbox_event_id h').

Definition to_row (h : AccidentProjectionHistory) : AccidentProjectionHistory :=
  mkProjectionHistory (ph_id h) (ph_event_id h) (ph_version h) (ph_caused_by_conflict_id h)
    (ph_caused_by_ingestion_run_id h) (ph_caused_by_outbox_event_id h)
    (map (λ kv, (kv.1, replace_disputed kv.2)) (ph_fields h)) (ph_unresolved h)
    (ph_completeness h) (ph_hash h) (ph_changed_fields h) (ph_created_at h).

Definition add (h : AccidentProjectionHistory) : M unit :=
  stmt (λ db,
    if existsb (clash h) (db_projection_history db)
    then (Raise (IntegrityError "uq_projection_history"), db)
    else (Ok tt, upd_projection_history (λ l, l ++ [to_row h]) db)).

Definition find_by_outbox_event (outbox_event_id : UUID)
    : M (option AccidentProjectionHistory) :=
  scalar_query (λ db,
    filter (λ h, ph_caused_by_outbox_event_id h = Some outbox_event_id)
      (db_projection_history db)).
End ProjectionHistoryRepo.

Module OutboxRepo.
Definition add (e : OutboxEvent) : M unit :=
  stmt (λ db, match db_outbox db !! ob_id e with
              | Some _ => (Raise (IntegrityError "outbox_events_pkey"), db)
              | None => (Ok tt, upd_outbox <[ob_id e := e]> db)
              end).
End OutboxRepo.

Module ReviewRepo.
Definition get (id : UUID) : M (option PendingDuplicateReview) :=
  query (λ db, db_reviews db !! id).

Definition is_pair (a b : UUID) (r : PendingDuplicateReview) : Prop :=
  (dr_event_id_a r = a ∧ dr_event_id_b r = b) ∨ (dr_event_id_a r = b ∧ dr_event_id_b r = a).
#[export] Instance is_pair_dec a b r : Decision (is_pair a b r).
Proof. unfold is_pair. apply _. Defined.

(** ORDER BY (status = 'PENDING') DESC, created_at DESC, id DESC *)
Definition pending_first (x y : PendingDuplicateReview) : bool :=
  let px := bool_decide (dr_status x = DR_PENDING) in
  let py := bool_decide (dr_status y = DR_PENDING) in
  if Bool.eqb px py then
    (dr_created_at y <? dr_created_at x)
    || ((dr_created_at y =? dr_created_at x) && (dr_id y <=? dr_id x)%N)
  else px.

Definition find_existing_pair (a b : UUID) : M (option PendingDuplicateReview) :=
  query (λ db, head (py_sorted pending_first (filter (is_pair a b) (rows (db_reviews db))))).

(** ORDER BY created_at DESC, id DESC among the PENDING rows of the pair *)
Definition pending_pair (a b : UUID) (db : DB) : option PendingDuplicateReview :=
  head (py_sorted pending_first
    (filter (λ r, is_pair a b r ∧ dr_status r = DR_PENDING) (rows (db_reviews db)))).

(** INSERT ... ON CONFLICT (the unordered pair) WHERE status = 'PENDING' DO NOTHING
    RETURNING *, then find_pending_pair when nothing was inserted. *)
Definition add (r : PendingDuplicateReview) : M (option PendingDuplicateReview) :=
  inserted ← stmt (λ db,
    match (if bool_decide (dr_status r = DR_PENDING)
           then pending_pair (dr_event_id_a r) (dr_event_id_b r) db else None) with
    | Some _ => (Ok false, db)
    | None =>
        match db_reviews db !! dr_id r with
        | Some _ => (Raise (IntegrityError "pending_duplicate_reviews_pkey"), db)
        | None => (Ok true, upd_reviews <[dr_id r := r]> db)
        end
    end);
  if (inserted : bool) then mret (Some r)
  else query (pending_pair (dr_event_id_a r) (dr_event_id_b r)).

Definition set_status (status : DuplicateReviewStatus) (resolved_by : option UUID)
    (note : option string) (t : datetime) (r : PendingDuplicateReview)
    : PendingDuplicateReview :=
  mkReview (dr_id r) (dr_event_id_a r) (dr_event_id_b r) status (dr_match_score r)
    (dr_matched_fields r) (dr_created_at r)
    (if bool_decide (status ≠ DR_PENDING) then Some t else None) resolved_by note.

Definition update_status (id : UUID) (status : DuplicateReviewStatus)
    (resolved_by : option UUID) (resolution_note : option string)
    : M (option PendingDuplicateReview) :=
  t ← utc_now;
  stmt (λ db,
    match db_reviews db !! id with
    | Some r => let r' := set_status status resolved_by resolution_note t r in
                (Ok (Some r'), upd_reviews <[id := r']> db)
    | None => (Ok None, db)
    end).
End ReviewRepo.

Module IdentityRepo.
Definition MAX_REGISTRATION_ALIASES : nat := 5.

(** [_capped_jsonb_union_sql]: the newest distinct values (by last position),
    at most five, oldest of them first. *)
Definition capped_union (l : list string) : list string :=
  rev (take MAX_REGISTRATION_ALIASES (dict_fromkeys (rev l))).

(** jsonb_agg(DISTINCT elem) *)
Definition distinct_agg (l : list string) : list string := sort_strings (dict_fromkeys l).

Definition opt_list (o : option string) : list string :=
  match o with Some x => [x] | None => [] end.

(** INSERT ... ON CONFLICT (event_id) DO UPDATE, incoming scalars win. *)
Definition upsert (e : EventIdentityIndex) : M unit :=
  exec (upd_identity (λ m,
    match m !! ii_event_id e with
    | None => <[ii_event_id e := e]> m
    | Some old => <[ii_event_id e := mkIdentity (ii_event_id e)
        (coalesce (ii_event_date_norm e) (ii_event_date_norm old))
        (coalesce (ii_registration_norm e) (ii_registration_norm old))
        (coalesce (ii_operator_norm e) (ii_operator_norm old))
        (coalesce (ii_location_norm e) (ii_location_norm old))
        (coalesce (ii_aircraft_type_norm e) (ii_aircraft_type_norm old))
        (distinct_agg (ii_source_record_ids old ++ ii_source_record_ids e))
        (capped_union (ii_registration_norms old ++ ii_registration_norms e))
        (ii_updated_at e)]> m
    end)).

(** Same, but the scalars already stored win and the incoming primary
    registration becomes an alias. *)
Definition absorb (old e : EventIdentityIndex) (t : datetime) : EventIdentityIndex :=
  mkIdentity (ii_event_id old)
    (coalesce (ii_event_date_norm old) (ii_event_date_norm e))
    (coalesce (ii_registration_norm old) (ii_registration_norm e))
    (coalesce (ii_operator_norm old) (ii_operator_norm e))
    (coalesce (ii_location_norm old) (ii_location_norm e))
    (coalesce (ii_aircraft_type_norm old) (ii_aircraft_type_norm e))
    (distinct_agg (ii_source_record_ids old ++ ii_source_record_ids e))
    (capped_union (ii_registration_norms old ++ ii_registration_norms e
                     ++ opt_list (ii_registration_norm e)))
    t.

Definition enrich_identity_index_from_alias (e : EventIdentityIndex) : M unit :=
  exec (upd_identity (λ m,
    match m !! ii_event_id e with
    | None => <[ii_event_id e := e]> m
    | Some old => <[ii_event_id e := absorb old e (ii_updated_at e)]> m
    end)).

(** The row the merge would insert for the target: EXCLUDED. *)
Definition excluded (target : UUID) (src : EventIdentityIndex) (t : datetime)
    : EventIdentityIndex :=
  mkIdentity target (ii_event_date_norm src) (ii_registration_norm src)
    (ii_operator_norm src) (ii_location_norm src) (ii_aircraft_type_norm src)
    (ii_source_record_ids src)
    (capped_union (ii_registration_norms src ++ opt_list (ii_registration_norm src))) t.

Definition merge_rows (source target : UUID) (t : datetime)
    (m : gmap UUID EventIdentityIndex) : gmap UUID EventIdentityIndex :=
  match m !! source with
  | None => m
  | Some src =>
      let e := excluded target src t in
      match m !! target with
      | None => <[target := e]> m
      | Some old => <[target := absorb old e t]> m
      end
  end.

(** The texts of the day before and the day after, or the error of the arithmetic on
    dates at the ends of the calendar; [None] when the text is no date. *)
Definition day_window (event_date_norm : string) : Res (option (string * string)) :=
  match date_fromisoformat event_date_norm with
  | None => Ok None
  | Some centre =>
      let shift k := date_of_days (days_of_date centre + k) in
      let legal d := bool_decide (is_Some (make_date (d_year d) (d_month d) (d_day d))) in
      if legal (shift (-1)) && legal (shift 1)
      then Ok (Some (date_iso (shift (-1)), date_iso (shift 1)))
      else Raise (OverflowError "date value out of range")
  end.

Definition within (window : string * string) (o : option string) : bool :=
  match o with
  | Some d => String.leb window.1 d && String.leb d window.2
  | None => false
  end.

Definition merged_row (db : DB) (i : EventIdentityIndex) : bool :=
  match db_events db !! ii_event_id i with Some e => is_merged e | None => false end.

(** ORDER BY (merged_into_event_id IS NOT NULL) ASC, updated_at DESC *)
Definition canonical_first (db : DB) (x y : EventIdentityIndex) : bool :=
  if Bool.eqb (merged_row db x) (merged_row db y) then ii_updated_at y <=? ii_updated_at x
  else negb (merged_row db x).

(** Rows joined with their event. *)
Definition joined_rows (db : DB) : list EventIdentityIndex :=
  filter (λ i, is_Some (db_events db !! ii_event_id i)) (rows (db_identity db)).

Definition find_candidates (event_date_norm : string) (limit : nat)
    : M (list EventIdentityIndex) :=
  window ← lift_res (day_window event_date_norm);
  match window with
  | None => mret []
  | Some win => query (λ db, take limit (py_sorted (canonical_first db)
      (filter (λ i, within win (ii_event_date_norm i) = true) (joined_rows db))))
  end.

(** Transaction-scoped advisory lock: no table is read or written. *)
Definition lock_for_identity_resolution (event_date_norm : string)
    (registration_norm : option string) : M unit := exec (λ db, db).

(** ... then event_id ASC *)
Definition canonical_first_id (db : DB) (x y : EventIdentityIndex) : bool :=
  if Bool.eqb (merged_row db x) (merged_row db y)
  then (ii_updated_at y <? ii_updated_at x)
       || ((ii_updated_at y =? ii_updated_at x) && (ii_event_id x <=? ii_event_id y)%N)
  else negb (merged_row db x).

(** _normalise_registration_lookup *)
Definition normalise_registration_lookup (value : string) : string :=
  re_remove (λ c, (code c =? 45)%N || (code c =? 47)%N || is_space c)
    (str_strip (str_lower value)).

Definition in_window (window : option (string * string)) (o : option string) : bool :=
  match window with Some win => within win o | None => true end.

Definition find_by_registration (registration_norm : string) (event_date_norm : string)
    : M (list EventIdentityIndex) :=
  let reg := normalise_registration_lookup registration_norm in
  window ← (if str_empty event_date_norm then mret None
            else lift_res (day_window event_date_norm));
  query (λ db, take 20 (py_sorted (canonical_first_id db)
    (filter (λ i, (ii_registration_norm i = Some reg ∨ reg ∈ ii_registration_norms i)
                  ∧ in_window window (ii_event_date_norm i) = true) (joined_rows db)))).

Definition merge_identity_index (source target : UUID) : M unit :=
  t ← utc_now; exec (upd_identity (merge_rows source target t)).
End IdentityRepo.

Module SnapshotRepo.
Definition same_key (s s' : RawSnapshot) : Prop :=
  rs_source_id s = rs_source_id s' ∧ rs_ingestion_run_id s = rs_ingestion_run_id s'.
#[export] Instance same_key_dec s s' : Decision (same_key s s').
Proof. unfold same_key. apply _. Defined.

(** INSERT ... ON CONFLICT ON CONSTRAINT uq_raw_snapshot_ingestion_key DO NOTHING *)
Definition try_add_unique (s : RawSnapshot) : M bool :=
  stmt (λ db,
    if existsb (λ s', bool_decide (same_key s s')) (rows (db_snapshots db)) then (Ok false, db)
    else match db_snapshots db !! rs_id s with
         | Some _ => (Raise (IntegrityError "raw_snapshots_pkey"), db)
         | None => (Ok true, upd_snapshots <[rs_id s := s]> db)
         end).

(** ORDER BY created_at DESC LIMIT 1 *)
Definition newest (x y : RawSnapshot) : bool := rs_created_at y <=? rs_created_at x.
Definition find_by_source_run (source_id ingestion_run_id : UUID) : M (option RawSnapshot) :=
  query (λ db, head (py_sorted newest
    (filter (λ s, rs_source_id s = source_id ∧ rs_ingestion_run_id s = ingestion_run_id)
       (rows (db_snapshots db))))).

Definition with_result (r : list (string * pyval)) (s : RawSnapshot) : RawSnapshot :=
  mkSnapshot (rs_id s) (rs_source_id s) (rs_ingestion_run_id s) (rs_payload_hash s)
    (rs_payload_json s) (rs_captured_at s) (rs_created_at s) (rs_source_record_id s)
    (rs_raw_payload_hash s) (rs_submission_hash s) (rs_submission_fingerprint s) (Some r).

Definition update_ingestion_result (snapshot_id : UUID) (result_json : list (string * pyval))
    : M unit :=
  stmt (λ db,
    match db_snapshots db !! snapshot_id with
    | Some s => (Ok tt, upd_snapshots <[snapshot_id := with_result result_json s]> db)
    | None => (Raise (RuntimeError "Failed to persist ingestion result"), db)
    end).

(** The claims of the source record with their snapshots, newest snapshot first,
    then newest claim first. *)
Definition record_claims (source_id : UUID) (source_record_id : string) (db : DB)
    : list (Claim * RawSnapshot) :=
  omap (λ c, s ← (c_raw_snapshot_id c ≫= λ id, db_snapshots db !! id);
             if bool_decide (rs_source_id s = source_id
                             ∧ rs_source_record_id s = Some source_record_id)
             then Some (c, s) else None) (rows (db_claims db)).
Definition newest_owner (x y : Claim * RawSnapshot) : bool :=
  (rs_created_at y.2 <? rs_created_at x.2)
  || ((rs_created_at y.2 =? rs_created_at x.2) && (c_created_at y.1 <=? c_created_at x.1)).
Definition find_latest_event_id_by_source_record_id (source_id : UUID)
    (source_record_id : string) : M (option UUID) :=
  query (λ db, (λ p, c_event_id p.1) <$>
    head (py_sorted newest_owner (record_claims source_id source_record_id db))).

(** Transaction-scoped advisory lock: no table is read or written. *)
Definition lock_for_source_record_correction (source_id : UUID) (source_record_id : string)
    : M unit := exec (λ db, db).
End SnapshotRepo.

Module RunRepo.
Definition get (id : UUID) : M (option IngestionRun) := query (λ db, db_runs db !! id).

(** INSERT ... ON CONFLICT (id) DO NOTHING, then re-read and check the owner. *)
Definition ensure_started (id source_id : UUID) : M unit :=
  t ← utc_now;
  exec (upd_runs (λ m, match m !! id with
                       | Some _ => m
                       | None => <[id := mkRun id source_id "running" t None]> m
                       end));;
  existing ← get id;
  match existing with
  | None => raise (RuntimeError "ensure_started: row missing after upsert")
  | Some r => if (ir_source_id r =? source_id)%N then mret tt
              else raise (IngestionRunSourceMismatchError id source_id (ir_source_id r))
  end.

Definition with_status (status : string) (finished_at : option datetime) (r : IngestionRun)
    : IngestionRun :=
  mkRun (ir_id r) (ir_source_id r) status (ir_started_at r) finished_at.

(** update_status with a time *)
Definition update_status (id : UUID) (status : string) (finished_at : datetime) : M unit :=
  stmt (λ db,
    match db_runs db !! id with
    | Some r => (Ok tt, upd_runs <[id := with_status status (Some finished_at) r]> db)
    | None => (Raise (RuntimeError "Failed to update ingestion run"), db)
    end).
End RunRepo.

(** ** Concrete worlds for the examples *)
Definition empty_db : DB :=
  mkDB ∅ ∅ ∅ [] ∅ [] [] ∅ [] ∅ ∅ ∅ ∅ ∅ (mkPublicTables ∅ [] ∅ ∅) no_tenants
    no_content no_causality no_signals no_hermes no_timelines no_entities.

(** Nothing pending, nobody else running; fresh identifiers start at 1000. *)
Definition world_of (db : DB) : World := mkWorld db db [] 1000000 1000.
