(* ===== verification/Json.v ===== *)
(** Canonical JSON text of a value, as the projection hashes and the outbox use
    it: [json.dumps(v, sort_keys=True, separators=(",", ":"), allow_nan=False)]
    with the default [ensure_ascii], and [str(uuid)]. *)
From Stdlib Require Import Ascii SpecFloat.
From S2P Require Import Prelude Text PyFloat PyVal Entities.
Open Scope string_scope.
Open Scope list_scope.
Open Scope Z_scope.

Definition hex_digit (n : N) : ascii := ascii_of_N (if (n <? 10)%N then 48 + n else 87 + n).

Fixpoint hex_digits (len : nat) (n : N) : list ascii :=
  match len with
  | O => []
  | S k => hex_digits k (n / 16)%N ++ [hex_digit (n mod 16)%N]
  end.

(** [str(uuid)]: 8-4-4-4-12 lower-case hex digits. *)
Definition uuid_str (id : UUID) : string :=
  let h := hex_digits 32 id in
  of_chars (take 8 h ++ chars "-" ++ take 4 (drop 8 h) ++ chars "-" ++ take 4 (drop 12 h)
            ++ chars "-" ++ take 4 (drop 16 h) ++ chars "-" ++ drop 20 h).

(** [UUID(s)] on the texts [str(uuid)] produces: hyphens dropped, 32 hex digits. *)
Definition hex_val (c : ascii) : option N :=
  let n := code c in
  if is_digit c then Some (n - 48)%N
  else if ((97 <=? n) && (n <=? 102))%N then Some (n - 87)%N
  else if ((65 <=? n) && (n <=? 70))%N then Some (n - 55)%N
  else None.

Fixpoint read_hex (l : list ascii) (v : N) : option N :=
  match l with
  | [] => Some v
  | c :: l' => d ← hex_val c; read_hex l' (16 * v + d)%N
  end.

Definition uuid_of_str (s : string) : option UUID :=
  let h := filter (λ c, c ≠ "-"%char) (chars s) in
  if bool_decide (length h = 32%nat) then read_hex h 0 else None.

(** *** Reading back a printed identifier *)
Lemma hex_digit_val n : (n < 16)%N → hex_val (hex_digit n) = Some n ∧ hex_digit n ≠ "-"%char.
Proof.
  intros Hn. assert (Hin : n ∈ N.of_nat <$> seq 0 16).
  { apply list_elem_of_fmap. exists (N.to_nat n). rewrite elem_of_seq. lia. }
  assert (Hall : Forall (λ n, hex_val (hex_digit n) = Some n ∧ hex_digit n ≠ "-"%char)
    (N.of_nat <$> seq 0 16)) by (repeat constructor; vm_compute; done).
  rewrite Forall_forall in Hall. by apply Hall.
Qed.

Lemma length_hex_digits len n : length (hex_digits len n) = len.
Proof. revert n. induction len; intros n; simpl; [done|]. rewrite length_app, IHlen. simpl. lia. Qed.

Lemma hex_digits_no_hyphen len n : Forall (λ c, c ≠ "-"%char) (hex_digits len n).
Proof.
  revert n. induction len as [|k IH]; intros n; simpl; [constructor|].
  apply Forall_app. split; [apply IH|]. repeat constructor. apply hex_digit_val.
  apply N.mod_lt. done.
Qed.

Lemma read_hex_app l1 l2 v : read_hex (l1 ++ l2) v = read_hex l1 v ≫= read_hex l2.
Proof.
  revert v. induction l1 as [|c l1 IH]; intros v; [done|]. simpl.
  destruct (hex_val c); simpl; [apply IH|done].
Qed.

Lemma read_hex_digits len n v :
  (n < 16 ^ N.of_nat len)%N → read_hex (hex_digits len n) v = Some (v * 16 ^ N.of_nat len + n)%N.
Proof.
  revert n. induction len as [|k IH]; intros n Hn.
  - simpl in *. f_equal. lia.
  - replace (N.of_nat (S k)) with (N.succ (N.of_nat k)) in * by lia.
    rewrite N.pow_succ_r' in *. simpl. rewrite read_hex_app, IH by (apply N.Div0.div_lt_upper_bound; lia).
    simpl. rewrite (proj1 (hex_digit_val _ (N.mod_lt n 16 ltac:(done)))). simpl. f_equal.
    pose proof (N.div_mod n 16 ltac:(done)). lia.
Qed.

Definition uuid_bound : N := 2 ^ 128.

Lemma uuid_str_read u : (u < uuid_bound)%N → uuid_of_str (uuid_str u) = Some u.
Proof.
  intros Hu. unfold uuid_of_str, uuid_str. rewrite chars_of_chars.
  pose proof (hex_digits_no_hyphen 32 u) as Hh. pose proof (length_hex_digits 32 u) as Hl.
  pose proof (read_hex_digits 32 u 0) as Hr. revert Hh Hl Hr.
  generalize (hex_digits 32 u) as h. intros h Hh Hl Hr.
  assert (Hf : ∀ l : list ascii, Forall (λ c, c ≠ "-"%char) l → filter (λ c, c ≠ "-"%char) l = l).
  { induction 1 as [|c l Hc _ IH]; [done|]. rewrite filter_cons, decide_True by done. by rewrite IH. }
  assert (Hd : filter (λ c, c ≠ "-"%char) (chars "-") = []) by reflexivity.
  rewrite !filter_app, Hd, !Hf by (try apply Forall_take; try apply Forall_drop; exact Hh).
  rewrite !app_nil_l.
  assert (take 8 h ++ take 4 (drop 8 h) ++ take 4 (drop 12 h) ++ take 4 (drop 16 h) ++ drop 20 h = h)
    as ->.
  { do 32 (destruct h as [|? h]; [done|]). by destruct h. }
  rewrite bool_decide_true by done. apply Hr. exact Hu.
Qed.

Lemma uuid_str_inj u v :
  (u < uuid_bound)%N → (v < uuid_bound)%N → uuid_str u = uuid_str v → u = v.
Proof.
  intros Hu Hv E. apply uuid_str_read in Hu, Hv. rewrite E in Hu. congruence.
Qed.

Definition backslash : ascii := ascii_of_N 92.
Definition dquote : ascii := ascii_of_N 34.

Definition escape_char (c : ascii) : list ascii :=
  let n := code c in
  if (n =? 34)%N then [backslash; dquote]
  else if (n =? 92)%N then [backslash; backslash]
  else if (n =? 10)%N then backslash :: chars "n"
  else if (n =? 13)%N then backslash :: chars "r"
  else if (n =? 9)%N then backslash :: chars "t"
  else if (n =? 12)%N then backslash :: chars "f"
  else if (n =? 8)%N then backslash :: chars "b"
  else if ((32 <=? n) && (n <=? 126))%N then [c]
  else backslash :: chars "u" ++ hex_digits 4 n.

Definition json_str (s : string) : list ascii :=
  [dquote] ++ flat_map escape_char (chars s) ++ [dquote].

(** [None] is the TypeError or ValueError of [json.dumps]: a sentinel that
    [replace_disputed] does not reach, an infinity or a NaN. *)
Fixpoint json (v : pyval) : option (list ascii) :=
  match v with
  | PNone => Some (chars "null")
  | PBool b => Some (chars (if b then "true" else "false"))
  | PInt z => Some (chars (int_str z))
  | PFloat (S754_infinity _) | PFloat S754_nan | PDisputed => None
  | PFloat f => Some (chars (float_repr f))
  | PStr s => Some (json_str s)
  | PList l | PTuple l =>
      (λ ts, chars "[" ++ join (chars ",") ts ++ chars "]") <$> traverse json l
  | PDict d =>
      (λ ms, chars "{" ++ join (chars ",") (map (λ kv, json_str kv.1 ++ chars ":" ++ kv.2)
                                              (sort_items ms)) ++ chars "}")
      <$> traverse (λ kv, (λ t, (kv.1, t)) <$> json kv.2) d
  end.

Definition json_dumps (v : pyval) : option string := of_chars <$> json v.

Example json_dumps_1 :
  json_dumps (PDict [("b", PList [PInt (-3); PNone; PBool true]);
                     ("a", PStr "x/y"); ("c", PFloat (f_of_decimal false 15 (-1)))])
  = Some (of_chars (chars "{" ++ json_str "a" ++ chars ":" ++ json_str "x/y" ++ chars ","
          ++ json_str "b" ++ chars ":[-3,null,true]," ++ json_str "c" ++ chars ":1.5}")).
Proof. vm_compute. reflexivity. Qed.

Example uuid_str_1 :
  uuid_str 81985529216486895 = "00000000-0000-0000-0123-456789abcdef".
Proof. vm_compute. reflexivity. Qed.

(** ** Replacing the sentinel *)

Lemma map_ext_Forall {A B} (f g : A → B) l : Forall (λ x, f x = g x) l → map f l = map g l.
Proof. induction 1; simpl; congruence. Qed.

(** Replacing twice is replacing once: a value read back from storage has the
    canonical text of the value that was stored. *)
Lemma replace_disputed_idem v : replace_disputed (replace_disputed v) = replace_disputed v.
Proof.
  induction v as [| | | | |l IH|l IH|d IH|] using pyval_ind'; try reflexivity.
  - simpl. rewrite map_map. f_equal. apply map_ext_Forall. exact IH.
  - simpl. rewrite map_map. f_equal. apply map_ext_Forall.
    eapply Forall_impl; [exact IH|]. intros [k x] H. simpl in *. congruence.
Qed.

Lemma replace_disputed_fields d :
  map (λ kv : string * pyval, (kv.1, replace_disputed kv.2))
      (map (λ kv : string * pyval, (kv.1, replace_disputed kv.2)) d)
  = map (λ kv : string * pyval, (kv.1, replace_disputed kv.2)) d.
Proof.
  rewrite map_map. apply map_ext. intros [k v]. simpl. by rewrite replace_disputed_idem.
Qed.

(** When [json] has a text for a value: no NaN or infinity, and no sentinel. *)
Fixpoint json_ok (v : pyval) : bool :=
  match v with
  | PFloat (S754_infinity _) | PFloat S754_nan | PDisputed => false
  | PList l | PTuple l => forallb json_ok l
  | PDict d => forallb (λ kv, json_ok kv.2) d
  | _ => true
  end.

Lemma json_total v : json_ok v = true → ∃ t, json v = Some t.
Proof.
  induction v as [| | |f|s|l IH|l IH|d IH|] using pyval_ind'; simpl; intros H; eauto; try done.
  - destruct f; try done; eauto.
  - destruct (traverse_total json l) as [ts ->]; [|simpl; eauto].
    rewrite forallb_forall in H. apply Forall_forall. intros x Hx. rewrite Forall_forall in IH.
    apply IH; [done|]. apply H. by apply list_elem_of_In.
  - destruct (traverse_total json l) as [ts ->]; [|simpl; eauto].
    rewrite forallb_forall in H. apply Forall_forall. intros x Hx. rewrite Forall_forall in IH.
    apply IH; [done|]. apply H. by apply list_elem_of_In.
  - destruct (traverse_total (λ kv : string * pyval, (λ t, (kv.1, t)) <$> json kv.2) d)
      as [ts ->]; [|simpl; eauto].
    rewrite forallb_forall in H. apply Forall_forall. intros kv Hx. rewrite Forall_forall in IH.
    destruct (IH kv Hx) as [t ->]; [|simpl; eauto]. apply H. by apply list_elem_of_In.
Qed.
