(* ===== verification/Logic.v ===== *)
(** A small program logic for the unit-of-work monad: invariants kept by every
    statement, under any interference that keeps them too, and the transaction
    discipline "nothing is published before the final commit". *)
From S2P Require Import Prelude Text PyFloat PyVal Entities Store.
Open Scope string_scope.
Open Scope list_scope.
Open Scope Z_scope.

(** ** Invariants of the database

    [winv I w]: the session and the durable state satisfy [I], and every change
    other transactions have pending keeps it.  With [I := R db0] for a transitive
    [R] the same lemmas give two-state properties. *)
Definition winv (I : DB → Prop) (w : World) : Prop :=
  I (w_db w) ∧ I (w_committed w) ∧ Forall (λ f, ∀ db, I db → I (f db)) (w_env w).

(** [m] ends in a world that satisfies the invariant, whatever it returns. *)
Definition Inv (I : DB → Prop) {A} (m : M A) : Prop := ∀ w, winv I w → winv I (m w).2.

Section invariants.
Context (I : DB → Prop).

Lemma winv_env_step w : winv I w → winv I (env_step w).
Proof.
  intros (Hd & Hc & He). unfold env_step. destruct (w_env w) as [|f fs] eqn:E.
  - unfold winv. by rewrite E.
  - apply Forall_cons in He as [Hf He]. repeat split; simpl; auto.
Qed.

Lemma winv_rollback w : winv I w → winv I (rollback_world w).
Proof. intros (Hd & Hc & He). by split_and!. Qed.

Lemma Inv_ret {A} (a : A) : Inv I (mret a).
Proof. by intros w H. Qed.
Lemma Inv_raise {A} e : Inv I (raise (A := A) e).
Proof. by intros w H. Qed.
Lemma Inv_lift {A} (r : Res A) : Inv I (lift_res r).
Proof. by intros w H. Qed.
Lemma Inv_now : Inv I utc_now.
Proof. by intros w H. Qed.
Lemma Inv_uuid : Inv I uuid4.
Proof. by intros w H. Qed.

Lemma Inv_bind {A B} (m : M A) (f : A → M B) :
  Inv I m → (∀ a, Inv I (f a)) → Inv I (x ← m; f x).
Proof.
  intros Hm Hf w Hw. unfold mbind, M_bind. specialize (Hm w Hw).
  destruct (m w) as [[a|e] w']; [by apply Hf|done].
Qed.

Lemma Inv_stmt {A} (f : DB → Res A * DB) :
  (∀ db a db', I db → f db = (Ok a, db') → I db') → Inv I (stmt f).
Proof.
  intros Hf w Hw. apply winv_env_step in Hw. unfold stmt.
  destruct (f (w_db (env_step w))) as [[a|e] db'] eqn:E; [|done].
  destruct Hw as (Hd & Hc & He). split; [|done]. exact (Hf _ _ _ Hd E).
Qed.

Lemma Inv_query {A} (f : DB → A) : Inv I (query f).
Proof. apply Inv_stmt. by intros db a db' H [= _ <-]. Qed.

Lemma Inv_scalar_query {A} (f : DB → list A) : Inv I (scalar_query f).
Proof. apply Inv_stmt. by intros db a db' H [= _ <-]. Qed.

Lemma Inv_exec f : (∀ db, I db → I (f db)) → Inv I (exec f).
Proof. intros Hf. apply Inv_stmt. intros db a db' H [= _ <-]. auto. Qed.

Lemma Inv_commit : Inv I commit.
Proof. intros w (Hd & Hc & He). by split_and!. Qed.
Lemma Inv_rollback : Inv I rollback.
Proof. intros w. apply winv_rollback. Qed.

Lemma Inv_with_uow {A} (m : M A) : Inv I m → Inv I (with_uow m).
Proof.
  intros Hm w Hw. specialize (Hm w Hw). unfold with_uow.
  destruct (m w) as [r w']. by apply winv_rollback.
Qed.

Lemma Inv_catch {A} (m : M A) h : Inv I m → (∀ e, Inv I (h e)) → Inv I (catch m h).
Proof.
  intros Hm Hh w Hw. specialize (Hm w Hw). unfold catch.
  destruct (m w) as [[a|e] w']; [done|]. by apply Hh.
Qed.

Lemma Inv_for_each {A} (l : list A) (f : A → M unit) :
  (∀ x, x ∈ l → Inv I (f x)) → Inv I (for_each l f).
Proof.
  induction l as [|x l IH]; simpl; intros Hf; [apply Inv_ret|].
  apply Inv_bind; [apply Hf; by left|]. intros _. apply IH. intros y Hy. apply Hf. by right.
Qed.

Lemma Inv_map_m {A B} (l : list A) (f : A → M B) :
  (∀ x, x ∈ l → Inv I (f x)) → Inv I (map_m f l).
Proof.
  induction l as [|x l IH]; simpl; intros Hf; [apply Inv_ret|].
  apply Inv_bind; [apply Hf; by left|]. intros y.
  apply Inv_bind; [apply IH; intros z Hz; apply Hf; by right|]. intros ys. apply Inv_ret.
Qed.

Lemma Inv_when b m : (b = true → Inv I m) → Inv I (when b m).
Proof. destruct b; simpl; [auto|]. intros _. apply Inv_ret. Qed.
End invariants.

(** One step of a proof that a program keeps an invariant; statements that the
    lemmas in scope do not cover remain as goals. *)
Ltac inv_step :=
  lazymatch goal with
  | |- ∀ _, _ => intro
  | |- Inv _ (mret _) => apply Inv_ret
  | |- Inv _ (raise _) => apply Inv_raise
  | |- Inv _ (lift_res _) => apply Inv_lift
  | |- Inv _ utc_now => apply Inv_now
  | |- Inv _ uuid4 => apply Inv_uuid
  | |- Inv _ (query _) => apply Inv_query
  | |- Inv _ (scalar_query _) => apply Inv_scalar_query
  | |- Inv _ commit => apply Inv_commit
  | |- Inv _ rollback => apply Inv_rollback
  | |- Inv _ (with_uow _) => apply Inv_with_uow
  | |- Inv _ (catch _ _) => apply Inv_catch
  | |- Inv _ (mbind _ _) => apply Inv_bind
  | |- Inv _ (for_each _ _) => apply Inv_for_each; intros ? ?
  | |- Inv _ (map_m _ _) => apply Inv_map_m; intros ? ?
  | |- Inv _ (when _ _) => apply Inv_when; intros ?
  | |- Inv _ (match ?x with _ => _ end) => destruct x eqn:?
  end.

(** ** Transactions *)

(** Nobody else writes. *)
Definition quiet (w : World) : Prop := w_env w = [].

(** Between [w] and [w'] only other transactions changed the durable state, and
    the clock and the identifier supply only advanced. *)
Definition interfered (w w' : World) : Prop :=
  (∃ fs, w_env w = fs ++ w_env w'
         ∧ w_committed w' = foldl (λ db f, f db) (w_committed w) fs)
  ∧ w_now w ≤ w_now w' ∧ (w_uuid w ≤ w_uuid w')%N.

#[export] Instance interfered_preorder : PreOrder interfered.
Proof.
  split.
  - intros w. split; [by exists []|]. split; reflexivity.
  - intros w1 w2 w3 ((fs & E1 & C1) & N1 & U1) ((gs & E2 & C2) & N2 & U2).
    split; [|split; etrans; eassumption]. exists (fs ++ gs).
    rewrite foldl_app. split; [|congruence]. by rewrite <- app_assoc, <- E2.
Qed.

(** What a run sees of a world: all but the durable state. *)
Definition same_session (w1 w2 : World) : Prop :=
  w_db w1 = w_db w2 ∧ w_env w1 = w_env w2 ∧ w_now w1 = w_now w2 ∧ w_uuid w1 = w_uuid w2.

(** [m] does not depend on the durable state. *)
Definition blind {A} (m : M A) : Prop := ∀ w1 w2, same_session w1 w2 →
  (m w1).1 = (m w2).1 ∧ same_session (m w1).2 (m w2).2.

(** [m] publishes nothing; without [rb] it does not roll back either. *)
Definition Unpublished (rb : bool) {A} (m : M A) : Prop :=
  (∀ w, interfered w (m w).2) ∧ (rb = false → blind m).
Abbreviation NoCommit := (Unpublished true).

(** [m] publishes nothing when it raises. *)
Definition CommitLast {A} (m : M A) : Prop :=
  ∀ w e w', m w = (Raise e, w') → interfered w w'.

Lemma interfered_same w w' :
  w_env w' = w_env w → w_committed w' = w_committed w →
  w_now w ≤ w_now w' → (w_uuid w ≤ w_uuid w')%N → interfered w w'.
Proof. intros E C N U. split; [exists []; by rewrite E, C|done]. Qed.

Ltac solve_same := apply interfered_same; simpl; first [done|lia].

Section unpublished.
Context (rb : bool).

Lemma NoCommit_ret {A} (a : A) : Unpublished rb (mret a).
Proof. split; [intros w; solve_same|]. by intros _ w1 w2. Qed.
Lemma NoCommit_raise {A} e : Unpublished rb (raise (A := A) e).
Proof. split; [intros w; solve_same|]. by intros _ w1 w2. Qed.
Lemma NoCommit_lift {A} (r : Res A) : Unpublished rb (lift_res r).
Proof. split; [intros w; solve_same|]. by intros _ w1 w2. Qed.
Lemma NoCommit_now : Unpublished rb utc_now.
Proof.
  split; [intros w; solve_same|]. intros _ w1 w2 (Hd & He & Hn & Hu). unfold utc_now. simpl.
  rewrite Hn. split; [done|]. split_and!; simpl; congruence.
Qed.
Lemma NoCommit_uuid : Unpublished rb uuid4.
Proof.
  split; [intros w; solve_same|]. intros _ w1 w2 (Hd & He & Hn & Hu). unfold uuid4. simpl.
  rewrite Hu. split; [done|]. split_and!; simpl; congruence.
Qed.

Lemma NoCommit_bind {A B} (m : M A) (f : A → M B) :
  Unpublished rb m → (∀ a, Unpublished rb (f a)) → Unpublished rb (x ← m; f x).
Proof.
  intros [Hm Bm] Hf. split.
  - intros w. unfold mbind, M_bind. specialize (Hm w).
    destruct (m w) as [[a|e] w']; [|done]. etrans; [exact Hm|apply Hf].
  - intros Hrb w1 w2 Hw. unfold mbind, M_bind. destruct (Bm Hrb w1 w2 Hw) as [E Hs].
    destruct (m w1) as [r1 v1], (m w2) as [r2 v2]. simpl in E, Hs. subst r2.
    destruct r1 as [a|e]; [|done]. by apply Hf.
Qed.

Lemma env_step_interfered w : interfered w (env_step w).
Proof.
  unfold env_step. destruct (w_env w) as [|g gs] eqn:E; [done|].
  split; [exists [g]; by rewrite E|simpl; lia].
Qed.

Lemma env_step_session w1 w2 : same_session w1 w2 → same_session (env_step w1) (env_step w2).
Proof.
  intros (Hd & He & Hn & Hu). unfold env_step. rewrite He.
  destruct (w_env w2) eqn:E2; split_and!; simpl; congruence.
Qed.

Lemma NoCommit_stmt {A} (f : DB → Res A * DB) : Unpublished rb (stmt f).
Proof.
  split.
  - intros w. pose proof (env_step_interfered w) as H.
    unfold stmt. destruct (f _) as [[a|e] db']; [|done]. etrans; [exact H|solve_same].
  - intros _ w1 w2 Hw. apply env_step_session in Hw as (Hd & He & Hn & Hu). unfold stmt.
    rewrite Hd. destruct (f _) as [[a|e] db']; by split_and!.
Qed.

Lemma NoCommit_for_each {A} (l : list A) (f : A → M unit) :
  (∀ x, Unpublished rb (f x)) → Unpublished rb (for_each l f).
Proof.
  intros Hf. induction l as [|x l IH]; simpl; [apply NoCommit_ret|].
  by apply NoCommit_bind.
Qed.

Lemma NoCommit_map_m {A B} (l : list A) (f : A → M B) :
  (∀ x, Unpublished rb (f x)) → Unpublished rb (map_m f l).
Proof.
  intros Hf. induction l as [|x l IH]; simpl; [apply NoCommit_ret|].
  apply NoCommit_bind; [done|]. intros y. apply NoCommit_bind; [done|]. intros. apply NoCommit_ret.
Qed.

Lemma NoCommit_when b m : Unpublished rb m → Unpublished rb (when b m).
Proof. destruct b; [done|]. intros _. apply NoCommit_ret. Qed.

(** A run that publishes nothing leaves the durable state, and nobody interfering. *)
Lemma NoCommit_quiet {A} (m : M A) w r w' :
  Unpublished rb m → quiet w → m w = (r, w') →
  quiet w' ∧ w_committed w' = w_committed w ∧ w_now w ≤ w_now w' ∧ (w_uuid w ≤ w_uuid w')%N.
Proof.
  intros [H _] Hq E. specialize (H w). rewrite E in H. destruct H as ((fs & Ef & Ec) & Hn & Hu).
  unfold quiet in *. simpl in *. rewrite Hq in Ef. symmetry in Ef. apply app_eq_nil in Ef as [-> ->].
  done.
Qed.
End unpublished.

Lemma NoCommit_last {A} (m : M A) : NoCommit m → CommitLast m.
Proof. intros [H _] w e w' E. specialize (H w). by rewrite E in H. Qed.

Lemma NoCommit_rollback : NoCommit rollback.
Proof. split; [intros w; solve_same|done]. Qed.

(** What a run without rollback does to an invariant of the session alone. *)
Lemma blind_inv {A} (I : DB → Prop) (m : M A) w :
  Unpublished false m → Inv I m → quiet w → I (w_db w) → I (w_db (m w).2).
Proof.
  intros [_ Hb] Hi Hq Hw.
  destruct (Hb eq_refl w (mkWorld (w_db w) (w_db w) (w_env w) (w_now w) (w_uuid w)))
    as (_ & -> & _); [by split_and!|].
  apply Hi. split_and!; [done|done|]. simpl. rewrite Hq. constructor.
Qed.

Lemma CommitLast_bind {A B} (m : M A) (f : A → M B) :
  NoCommit m → (∀ a, CommitLast (f a)) → CommitLast (x ← m; f x).
Proof.
  intros [Hm _] Hf w e w'. unfold mbind, M_bind. specialize (Hm w).
  destruct (m w) as [[a|e'] w1]; [|by intros [= _ <-]].
  intros E. etrans; [exact Hm|]. by eapply Hf.
Qed.

Lemma CommitLast_map {A B} (m : M A) (g : A → B) :
  CommitLast m → CommitLast (x ← m; mret (g x)).
Proof.
  intros Hm w e w'. unfold mbind, M_bind. destruct (m w) as [[a|e'] w1] eqn:E; [done|].
  intros [= -> <-]. by eapply Hm.
Qed.

(** [commit] followed by pure code never raises. *)
Lemma CommitLast_commit {A} (a : A) : CommitLast (commit;; mret a).
Proof. by intros w e w' [=]. Qed.
Lemma CommitLast_commit_only : CommitLast commit.
Proof. by intros w e w' [=]. Qed.

Lemma CommitLast_with_uow {A} (m : M A) : CommitLast m → CommitLast (with_uow m).
Proof.
  intros Hm w e w'. unfold with_uow. destruct (m w) as [r w1] eqn:E.
  intros [= -> <-]. apply Hm in E. etrans; [exact E|solve_same].
Qed.

Ltac nocommit_step :=
  lazymatch goal with
  | |- ∀ _, _ => intro
  | |- Unpublished _ (mret _) => apply NoCommit_ret
  | |- Unpublished _ (raise _) => apply NoCommit_raise
  | |- Unpublished _ (lift_res _) => apply NoCommit_lift
  | |- Unpublished _ utc_now => apply NoCommit_now
  | |- Unpublished _ uuid4 => apply NoCommit_uuid
  | |- Unpublished _ rollback => apply NoCommit_rollback
  | |- Unpublished _ (stmt _) => apply NoCommit_stmt
  | |- Unpublished _ (query _) => apply NoCommit_stmt
  | |- Unpublished _ (scalar_query _) => apply NoCommit_stmt
  | |- Unpublished _ (exec _) => apply NoCommit_stmt
  | |- Unpublished _ (mbind _ _) => apply NoCommit_bind
  | |- Unpublished _ (for_each _ _) => apply NoCommit_for_each
  | |- Unpublished _ (map_m _ _) => apply NoCommit_map_m
  | |- Unpublished _ (when _ _) => apply NoCommit_when
  | |- Unpublished _ (match ?x with _ => _ end) => destruct x
  | |- CommitLast (commit;; mret _) => apply CommitLast_commit
  | |- CommitLast commit => apply CommitLast_commit_only
  | |- CommitLast (with_uow _) => apply CommitLast_with_uow
  | |- CommitLast (mbind _ _) => apply CommitLast_bind
  | |- CommitLast (match ?x with _ => _ end) => destruct x
  | |- CommitLast _ => apply NoCommit_last
  end.

(** ** Runs without interference *)

(** A session of its own on the committed state, nobody interfering. *)
Definition alone (w : World) : World :=
  mkWorld (w_committed w) (w_committed w) [] (w_now w) (w_uuid w).

Lemma env_step_quiet w : quiet w → env_step w = w.
Proof. unfold quiet, env_step. by intros ->. Qed.

(** [m] run from [w] returns [a] and leaves [w']. *)
Definition runs {A} (m : M A) (w : World) (a : A) (w' : World) : Prop := m w = (Ok a, w').

Lemma runs_bind {A B} (m : M A) (f : A → M B) w a w1 r :
  m w = (Ok a, w1) → f a w1 = r → (x ← m; f x) w = r.
Proof. intros E1 E2. unfold mbind, M_bind. by rewrite E1. Qed.

(** The continuation of a bind that did not raise. *)
Lemma bind_Ok_inv {A B} (m : M A) (f : A → M B) w b w' :
  (x ← m; f x) w = (Ok b, w') → ∃ a w1, m w = (Ok a, w1) ∧ f a w1 = (Ok b, w').
Proof.
  unfold mbind, M_bind. destruct (m w) as [[a|e] w1] eqn:E; [|done]. eauto.
Qed.

(** Statements of a quiet run, as equations. *)
Lemma stmt_quiet {A} (f : DB → Res A * DB) w : quiet w →
  stmt f w = match f (w_db w) with
             | (Ok a, db') => (Ok a, set_db db' w)
             | (Raise e, _) => (Raise e, w)
             end.
Proof. intros H. unfold stmt. by rewrite env_step_quiet. Qed.

Lemma set_db_same w : set_db (w_db w) w = w.
Proof. by destruct w. Qed.

Lemma query_quiet {A} (f : DB → A) w : quiet w → query f w = (Ok (f (w_db w)), w).
Proof. intros H. unfold query. by rewrite stmt_quiet, set_db_same. Qed.

Lemma exec_quiet f w : quiet w → exec f w = (Ok tt, set_db (f (w_db w)) w).
Proof. intros H. unfold exec. by rewrite stmt_quiet. Qed.

Lemma quiet_set_db db w : quiet w → quiet (set_db db w).
Proof. done. Qed.
#[export] Hint Resolve quiet_set_db : atlas.

Lemma for_each_ext {A} (l : list A) (f g : A → M unit) :
  (∀ x, x ∈ l → f x = g x) → for_each l f = for_each l g.
Proof.
  induction l as [|x l IH]; simpl; intros E; [done|].
  rewrite E by (by left). rewrite IH; [done|]. intros y Hy. apply E. by right.
Qed.

(** A loop of reads. *)
Lemma map_m_same {A B} (f : A → M B) (g : A → B) l w :
  (∀ x, x ∈ l → f x w = (Ok (g x), w)) → map_m f l w = (Ok (g <$> l), w).
Proof.
  induction l as [|x l IH]; intros Hf; [done|]. simpl.
  eapply runs_bind; [apply Hf; by left|]. eapply runs_bind; [|done].
  apply IH. intros y Hy. apply Hf. by right.
Qed.

(** A loop that appends one claim-history row per element. *)
Lemma for_each_history {A} (mk : A → UUID → datetime → ClaimHistory) (f : A → M unit) l w :
  (∀ x, f x = (id ← uuid4; t ← utc_now; ClaimHistoryRepo.add (mk x id t))) → quiet w →
  ∃ rows w', for_each l f w = (Ok tt, w') ∧ quiet w' ∧ w_committed w' = w_committed w
    ∧ w_db w' = upd_claim_history (λ h, h ++ rows) (w_db w)
    ∧ Forall2 (λ x r, ∃ id t, w_now w ≤ t < w_now w' ∧ r = mk x id t) l rows
    ∧ w_now w ≤ w_now w'.
Proof.
  intros Hf. revert w. induction l as [|x l IH]; intros w Hq.
  - exists [], w. split_and!; try done; try lia. destruct w as [[] ????]. unfold upd_claim_history.
    simpl. by rewrite app_nil_r.
  - destruct w as [db com env now uid]. unfold quiet in Hq. simpl in Hq. subst env.
    destruct (IH (mkWorld (upd_claim_history (λ h, h ++ [mk x uid now]) db) com [] (now + 1)
      (uid + 1)%N) eq_refl) as (rows & w' & E & Hq' & Hc & Hd & HF & Hle).
    exists (mk x uid now :: rows), w'. simpl in Hle. split_and!; [|done|done| | |simpl; lia].
    + simpl. eapply runs_bind; [rewrite Hf; reflexivity|]. exact E.
    + rewrite Hd. simpl. unfold upd_claim_history. simpl. by rewrite <- app_assoc.
    + constructor; [exists uid, now; split; [simpl; lia|done]|].
      eapply Forall2_impl; [exact HF|]. simpl. intros y r (i & t & Ht & ->).
      exists i, t. split; [lia|done].
Qed.
