(* ===== verification/Normalize.v ===== *)
(** Normalisation of incoming claims: field names, canonical values, and the
    registry of normalisers (domain/services/ingestion.py).

    A claim as received is a JSON object, so no Python [date] or [datetime] object
    reaches [coerce_date]: only its text branches are modelled. *)
From Stdlib Require Import Ascii SpecFloat.
From S2P Require Import Prelude Text PyFloat PyVal PyDate Entities.
Open Scope string_scope.
Open Scope list_scope.
Open Scope Z_scope.

(** A claim as received: a dict. *)
Abbreviation raw_claim := (list (string * pyval)).

Definition repr (v : pyval) : string := of_chars (py_repr v).

(** ** The date regular expressions *)
(** [\d{lo,hi}], greedy: the number read and the rest. *)
Fixpoint re_digits (lo hi : nat) (v : Z) (l : list ascii) : option (Z * list ascii) :=
  match hi with
  | O => Some (v, l)
  | S hi' =>
      match l with
      | c :: l' => if is_digit c then re_digits (pred lo) hi' (10 * v + Z.of_N (digit_val c)) l'
                   else if bool_decide (lo = 0)%nat then Some (v, l) else None
      | [] => if bool_decide (lo = 0)%nat then Some (v, l) else None
      end
  end.

Definition re_char (allowed : list N) (l : list ascii) : option (list ascii) :=
  match l with
  | c :: l' => if bool_decide (code c ∈ allowed) then Some l' else None
  | [] => None
  end.

(** [^(\d{a,b})[seps](\d{c,d})[seps](\d{e,f})$] on a stripped text *)
Definition re_date (a b c d e f : nat) (seps : list N) (s : string) : option (Z * Z * Z) :=
  '(x, l1) ← re_digits a b 0 (chars s);
  l2 ← re_char seps l1;
  '(y, l3) ← re_digits c d 0 l2;
  l4 ← re_char seps l3;
  '(z, l5) ← re_digits e f 0 l4;
  match l5 with [] => Some (x, y, z) | _ => None end.

Definition slash : N := 47.
Definition period : N := 46.
Definition hyphen : N := 45.

(** _ISO_DATE_RE, _YMD_DATE_RE, _AMBIGUOUS_DMY_OR_MDY_RE *)
Definition iso_date_re (s : string) : bool :=
  bool_decide (is_Some (re_date 4 4 2 2 2 2 [hyphen] s)).
Definition ymd_date_re : string → option (Z * Z * Z) := re_date 4 4 1 2 1 2 [slash; period].
Definition ambiguous_re (s : string) : bool :=
  bool_decide (is_Some (re_date 1 2 1 2 4 4 [slash; period; hyphen] s)).

(** ** Coercions: None is [PNone] *)
Definition cannot_convert_date (text : string) : exn :=
  NormalizationError ("Cannot convert " +:+ repr (PStr text) +:+ " to ISO date").

(** _validate_iso_date *)
Definition validate_iso_date (text : string) : Res string :=
  match date_fromisoformat text with
  | Some d => Ok (date_iso d)
  | None => Raise (cannot_convert_date text)
  end.

Definition coerce_date_text (text : string) : Res string :=
  if iso_date_re text then validate_iso_date text else
  match datetime_fromisoformat (str_replace "Z" "+00:00" text) with
  | Some (d, _) => Ok (date_iso d)
  | None =>
      match ymd_date_re text with
      | Some (y, m, d) =>
          match make_date y m d with
          | Some x => Ok (date_iso x)
          | None => Raise (cannot_convert_date text)
          end
      | None =>
          if ambiguous_re text
          then Raise (NormalizationError ("Ambiguous date " +:+ repr (PStr text)
                 +:+ ": register a source-specific normaliser that converts MM/DD/YYYY or DD/MM/YYYY to ISO YYYY-MM-DD before generic coercion."))
          else Raise (cannot_convert_date text)
      end
  end.

Definition coerce_date (value : pyval) : Res pyval :=
  match value with
  | PNone => Ok PNone
  | _ =>
      let text := str_strip (py_str value) in
      if str_empty text then Ok PNone else s ← coerce_date_text text; mret (PStr s)
  end.

(** [int(x)] *)
Definition int_of_float (x : float) : Res Z :=
  match x with
  | S754_nan => Raise (ValueError "cannot convert float NaN to integer")
  | S754_infinity _ => Raise (OverflowError "cannot convert float infinity to integer")
  | _ => Ok (f_trunc x)
  end.

Definition has_dot (s : string) : bool := existsb (λ c, is_char period c) (chars s).

(** The check of a text with a decimal point; [int(as_float)] is outside the [try]. *)
Definition check_integral (value : pyval) (text : string) : Res unit :=
  match py_float text with
  | None => Raise (NormalizationError ("Cannot convert " +:+ repr value +:+ " to int"))
  | Some as_float =>
      n ← int_of_float as_float;
      if py_eq (PFloat as_float) (PInt n) then mret tt
      else Raise (NormalizationError ("Expected integer, got fractional value " +:+ repr value
             +:+ ". Round before ingestion if this is intentional."))
  end.

Definition coerce_non_negative_int (value : pyval) : Res pyval :=
  match value with
  | PNone => Ok PNone
  | _ =>
      let text := str_strip (py_str value) in
      (if has_dot text then check_integral value text else Ok tt);;
      match py_float text with
      | None => Raise (NormalizationError ("Cannot convert " +:+ repr value +:+ " to int"))
      | Some x =>
          match int_of_float x with
          | Ok n =>
              if n <? 0
              then Raise (NormalizationError ("Expected non-negative integer, got " +:+ repr value))
              else Ok (PInt n)
          | Raise (ValueError _) =>
              Raise (NormalizationError ("Cannot convert " +:+ repr value +:+ " to int"))
          | Raise e => Raise e
          end
      end
  end.

(** [" ".join(str(value).strip().split())], [None] when blank *)
Definition collapse (value : pyval) : option string :=
  match value with
  | PNone => None
  | _ => let s := join_space (str_split (str_strip (py_str value))) in
         if str_empty s then None else Some s
  end.
Definition str_or_none (s : option string) : pyval :=
  match s with Some s => PStr s | None => PNone end.

Definition coerce_string (value : pyval) : Res pyval := Ok (str_or_none (collapse value)).
Definition coerce_registration (value : pyval) : Res pyval :=
  Ok (str_or_none (str_upper <$> collapse value)).
Definition coerce_flight_phase (value : pyval) : Res pyval :=
  Ok (str_or_none (str_lower <$> collapse value)).

(** ** Field names *)
Definition underscore : ascii := ascii_of_N 95.
Definition is_alnum (c : ascii) : bool := is_digit c || is_ascii_upper c || is_ascii_lower c.

(** [re.sub(r"([a-z0-9])([A-Z])", r"\1_\2", text)]: a match consumes both characters. *)
Fixpoint sub_camel (l : list ascii) : list ascii :=
  match l with
  | a :: l1 =>
      match l1 with
      | b :: l2 => if (is_ascii_lower a || is_digit a) && is_ascii_upper b
                   then a :: underscore :: b :: sub_camel l2
                   else a :: sub_camel l1
      | [] => [a]
      end
  | [] => []
  end.

Definition normalise_field_key (value : string) : string :=
  let text := sub_camel (chars (str_strip value)) in
  let text := sub_runs (λ c, negb (is_alnum c)) [underscore] false text in
  of_chars (strip_while (λ c, Ascii.eqb c underscore) (map lower_char text)).

Definition allowed : list string := map required_field_value all_required_fields.

(** _canonical_field_value *)
Definition canonical_field_value (value : string) : Res string :=
  let key := normalise_field_key value in
  if bool_decide (key ∈ allowed) then Ok key
  else Raise (ValueError ("Unknown canonical field mapping target " +:+ repr (PStr value)
         +:+ "; expected one of "
         +:+ repr (PList (map PStr (py_sorted String.leb allowed))))).

(** A SourceFieldMapper: its [_aliases]. *)
Abbreviation field_mapper := (list (string * string)).

(** SourceFieldMapper.__init__ *)
Fixpoint build_aliases (aliases : list (string * string)) (acc : field_mapper) : Res field_mapper :=
  match aliases with
  | [] => Ok acc
  | (raw, canonical) :: rest =>
      c ← canonical_field_value canonical;
      build_aliases rest (dict_set (normalise_field_key raw) c acc)
  end.
Definition SourceFieldMapper (aliases : list (string * string)) : Res field_mapper :=
  build_aliases aliases [].

Definition map_field_name (m : field_mapper) (raw_field_name : string) : string :=
  let key := normalise_field_key raw_field_name in
  default key (dict_get key m).

Definition generic_aliases : list (string * RequiredField) :=
  [("accident_date", EVENT_DATE); ("incident_date", EVENT_DATE); ("eventdate", EVENT_DATE);
   ("tail_number", REGISTRATION); ("tail_num", REGISTRATION); ("tailnumber", REGISTRATION);
   ("aircraft_registration", REGISTRATION); ("aircraftregistration", REGISTRATION);
   ("registration_number", REGISTRATION); ("registrationnumber", REGISTRATION);
   ("reg", REGISTRATION); ("airline_name", OPERATOR); ("operator_name", OPERATOR);
   ("operatorname", OPERATOR); ("aircraft_model", AIRCRAFT_TYPE);
   ("aircraftmodel", AIRCRAFT_TYPE); ("aircraft_make_model", AIRCRAFT_TYPE);
   ("fatalities", FATALITIES_TOTAL); ("injuries", INJURIES_TOTAL)].

Definition res_or {A} (d : A) (r : Res A) : A := match r with Ok a => a | Raise _ => d end.

(** GenericExternalFieldMapper: its aliases are legal ([generic_mapper_ok]). *)
Definition GenericExternalFieldMapper : field_mapper :=
  res_or [] (SourceFieldMapper (map (λ kv, (kv.1, required_field_value kv.2)) generic_aliases)).

(** ** Normalisers *)
Definition field_coercer (field_name : string) : option (pyval → Res pyval) :=
  dict_get field_name
    (map (λ kv, (required_field_value kv.1, kv.2))
      [(EVENT_DATE, coerce_date); (FATALITIES_TOTAL, coerce_non_negative_int);
       (INJURIES_TOTAL, coerce_non_negative_int); (LOCATION, coerce_string);
       (AIRCRAFT_TYPE, coerce_string); (OPERATOR, coerce_string);
       (REGISTRATION, coerce_registration); (FLIGHT_PHASE, coerce_flight_phase);
       (NARRATIVE, coerce_string)]).

Definition identity_critical_fields : list string :=
  map required_field_value [EVENT_DATE; REGISTRATION].

(** _is_present_blank *)
Definition is_present_blank (value : pyval) : bool :=
  match value with PNone => false | _ => str_empty (str_strip (py_str value)) end.

(** [claim.get("field_name", "")] as a string, [claim.get("field_value")] *)
Definition raw_field_name (claim : raw_claim) : string :=
  py_str (default (PStr "") (dict_get "field_name" claim)).
Definition raw_field_value (claim : raw_claim) : pyval :=
  default PNone (dict_get "field_value" claim).
Definition with_name (field_name : string) (claim : raw_claim) : raw_claim :=
  dict_set "field_name" (PStr field_name) claim.
Definition with_value (value : pyval) (claim : raw_claim) : raw_claim :=
  dict_set "field_value" value claim.

(** The canonical name of a claim's field: a source mapper first, the generic
    aliases for what it leaves as it is. *)
Definition canonical_name (default_mapper : field_mapper) (mapper : option field_mapper)
    (raw : string) : string :=
  match mapper with
  | Some m =>
      let field_name := map_field_name m raw in
      if String.eqb field_name (normalise_field_key raw)
      then map_field_name default_mapper raw else field_name
  | None => map_field_name default_mapper raw
  end.

(** One turn of the loop of ExternalSourceNormalizer.normalize *)
Definition normalize_claim (default_mapper : field_mapper) (mapper : option field_mapper)
    (claim : raw_claim) : Res raw_claim :=
  let field_name := canonical_name default_mapper mapper (raw_field_name claim) in
  let named := with_name field_name claim in
  match field_coercer field_name with
  | None => Ok named
  | Some coercer =>
      if String.eqb field_name (required_field_value EVENT_DATE)
         && is_present_blank (raw_field_value claim)
      then Raise (NormalizationError "event_date was present but blank; omit the field when unknown or provide an ISO YYYY-MM-DD value")
      else
      match coercer (raw_field_value claim) with
      | Ok v => Ok (with_value v named)
      | Raise (NormalizationError msg) =>
          if bool_decide (field_name ∈ identity_critical_fields)
          then Raise (NormalizationError msg)
          else Ok (with_value (raw_field_value claim) named)
      | Raise e => Raise e
      end
  end.

(** A normaliser object: one of the two classes of the module, or an instance of
    another subclass registered at runtime. *)
Inductive Normalizer :=
  | SourceNormalizer
  | ExternalSourceNormalizer (default_field_mapper : field_mapper)
  | OtherNormalizer (normalize : option field_mapper → list raw_claim → Res (list raw_claim)).

Definition run_normalizer (n : Normalizer) (mapper : option field_mapper) (claims : list raw_claim)
    : Res (list raw_claim) :=
  match n with
  | SourceNormalizer => Ok claims
  | ExternalSourceNormalizer d => map_res (normalize_claim d mapper) claims
  | OtherNormalizer f => f mapper claims
  end.

(** ** SourceNormalizerRegistry *)
Module SourceNormalizerRegistry.
Record t := mk {
  registry : list (SourceKind * Normalizer);
  source_mappers : gmap UUID field_mapper;
}.

#[export] Instance SourceKind_eq_dec : EqDecision SourceKind.
Proof. solve_decision. Defined.

Definition init : t :=
  mk [(EXTERNAL, ExternalSourceNormalizer GenericExternalFieldMapper);
      (INTERNAL, SourceNormalizer)] ∅.

Definition source_kind_of (s : string) : option SourceKind :=
  if String.eqb s "EXTERNAL" then Some EXTERNAL
  else if String.eqb s "INTERNAL" then Some INTERNAL else None.

(** _coerce_kind of a string ([None] is the string "None") *)
Definition coerce_kind (s : string) : option SourceKind :=
  match source_kind_of s with
  | Some k => Some k
  | None => source_kind_of (str_upper s)
  end.

Definition get (source_kind : string) (r : t) : Normalizer :=
  match coerce_kind source_kind with
  | Some k => default SourceNormalizer (dict_get k (registry r))
  | None => SourceNormalizer
  end.

Definition register (source_kind : string) (n : Normalizer) (r : t) : Res t :=
  match coerce_kind source_kind with
  | Some k => Ok (mk (dict_set k n (registry r)) (source_mappers r))
  | None => Raise (ValueError ("Unknown source kind: " +:+ repr (PStr source_kind)))
  end.

Definition register_source_mapper (source_id : UUID) (m : field_mapper) (r : t) : t :=
  mk (registry r) (<[source_id := m]> (source_mappers r)).

Definition get_source_mapper (source_id : option UUID) (r : t) : option field_mapper :=
  id ← source_id; source_mappers r !! id.

(** Durable configuration of the source wins over the registered mappers. *)
Definition normalize (r : t) (source_kind : string) (claims : list raw_claim)
    (source_id : option UUID) (source_field_mapping : list (string * string))
    : Res (list raw_claim) :=
  mapper ← match source_field_mapping with
           | [] => Ok (get_source_mapper source_id r)
           | _ => m ← SourceFieldMapper source_field_mapping; mret (Some m)
           end;
  run_normalizer (get source_kind r) mapper claims.
End SourceNormalizerRegistry.

(** ** Dates *)
Definition legal (d : date) : Prop := make_date (d_year d) (d_month d) (d_day d) = Some d.

Lemma make_date_legal y m d x : make_date y m d = Some x → legal x.
Proof. intros H. destruct (make_date_Some _ _ _ _ H) as [-> _]. exact H. Qed.

Lemma date_fromisoformat_legal s x : date_fromisoformat s = Some x → legal x.
Proof.
  unfold date_fromisoformat. case_match; [|done]. destruct (parse_ymd _ _) as [[[y m] d]|]; [|done].
  apply make_date_legal.
Qed.

Lemma datetime_fromisoformat_legal s x t : datetime_fromisoformat s = Some (x, t) → legal x.
Proof.
  unfold datetime_fromisoformat. intros H.
  destruct (find_separator _) as [k|]; simpl in H; [|done].
  destruct (parse_ymd _ _) as [[[y m] d]|]; simpl in H; [|done].
  destruct (match drop k (chars s) with [] => _ | _ :: _ => _ end); simpl in H; [|done].
  destruct (make_date y m d) as [x'|] eqn:E; simpl in H; [|done].
  destruct (valid_clock _); [|done]. injection H as <- <-. by eapply make_date_legal.
Qed.

Lemma coerce_date_text_legal t s : coerce_date_text t = Ok s → ∃ d, legal d ∧ s = date_iso d.
Proof.
  unfold coerce_date_text, validate_iso_date. intros H.
  destruct (iso_date_re t).
  - destruct (date_fromisoformat t) as [d|] eqn:E; [|done]. injection H as <-.
    eauto using date_fromisoformat_legal.
  - destruct (datetime_fromisoformat _) as [[d c]|] eqn:E.
    { injection H as <-. eauto using datetime_fromisoformat_legal. }
    destruct (ymd_date_re t) as [[[y m] d]|].
    + destruct (make_date y m d) as [x|] eqn:E2; [|done]. injection H as <-.
      eauto using make_date_legal.
    + by destruct (ambiguous_re t).
Qed.

Lemma re_digits_digit lo hi v n l :
  0 ≤ n < 10 → re_digits (S lo) (S hi) v (digit_char n :: l) = re_digits lo hi (10 * v + n) l.
Proof. intros H. simpl. by rewrite is_digit_digit, digit_val_digit. Qed.

Lemma re_digits_done v l : re_digits 0 0 v l = Some (v, l).
Proof. done. Qed.

Lemma re_char_hyphen l : re_char [hyphen] (ascii_of_N 45 :: l) = Some l.
Proof. done. Qed.

Lemma legal_chars d : legal d → ∃ y m k, d = mkDate y m k ∧ 1 ≤ y ≤ 9999 ∧ 1 ≤ m ≤ 12 ∧ 1 ≤ k ≤ 31
  ∧ chars (date_iso d) = digits4 y ++ chars "-" ++ digits2 m ++ chars "-" ++ digits2 k.
Proof.
  destruct d as [y m k]. intros H. apply make_date_Some in H as (_ & Hy & Hm & Hk & _). simpl in *.
  exists y, m, k. split_and!; try lia; [done|]. apply date_iso_chars; lia.
Qed.

Lemma iso_date_re_iso d : legal d → iso_date_re (date_iso d) = true.
Proof.
  intros (y & m & k & _ & Hy & Hm & Hk & E)%legal_chars.
  unfold iso_date_re, re_date. apply bool_decide_eq_true_2. rewrite E.
  unfold digits4, digits2. cbn -[re_digits re_char digit_char].
  rewrite !re_digits_digit by (Z.div_mod_to_equations; lia). rewrite re_digits_done. cbn -[re_digits re_char digit_char].
  rewrite re_char_hyphen. cbn -[re_digits re_char digit_char].
  rewrite !re_digits_digit by (Z.div_mod_to_equations; lia). rewrite re_digits_done. cbn -[re_digits re_char digit_char].
  rewrite re_char_hyphen. cbn -[re_digits re_char digit_char].
  rewrite !re_digits_digit by (Z.div_mod_to_equations; lia). rewrite re_digits_done. by eexists.
Qed.

Lemma date_iso_strip d : legal d → str_strip (date_iso d) = date_iso d.
Proof.
  intros (y & m & k & _ & Hy & Hm & Hk & E)%legal_chars.
  unfold str_strip. rewrite strip_while_none; [apply of_chars_chars|]. rewrite E.
  repeat (apply Forall_cons_2 || apply Forall_nil_2);
    try (apply digit_other; [reflexivity|Z.div_mod_to_equations; lia]); reflexivity.
Qed.

Lemma coerce_date_iso d : legal d → coerce_date (PStr (date_iso d)) = Ok (PStr (date_iso d)).
Proof.
  intros H. unfold coerce_date. cbn [py_str]. rewrite date_iso_strip by done.
  assert (str_empty (date_iso d) = false) as ->.
  { destruct (legal_chars d H) as (y & m & k & _ & _ & _ & _ & E). by destruct (date_iso d). }
  unfold coerce_date_text, validate_iso_date. rewrite iso_date_re_iso by done.
  by rewrite date_fromisoformat_iso.
Qed.

(** dates are stored in one spelling. Whatever text [coerce_date] accepts, the
    value it returns is None or the ISO text of a date that exists in the calendar;
    that text reads back as the date, and coercing it again changes nothing. *)
Theorem coerce_date_canonical v r : coerce_date v = Ok r →
  r = PNone
  ∨ ∃ d, legal d ∧ r = PStr (date_iso d) ∧ date_fromisoformat (date_iso d) = Some d
         ∧ coerce_date r = Ok r.
Proof.
  unfold coerce_date at 1. intros H.
  assert (Hr : r = PNone ∨ ∃ t s, coerce_date_text t = Ok s ∧ r = PStr s).
  { destruct v; [left; congruence|..]; (destruct (str_empty _); [left; congruence|right]);
      match type of H with context [coerce_date_text ?t] => destruct (coerce_date_text t) eqn:E end;
      try done; injection H as <-; eauto. }
  destruct Hr as [->|(t & s & E & ->)]; [by left|right].
  apply coerce_date_text_legal in E as (d & Hd & ->). exists d.
  split_and!; [done|done|by apply date_fromisoformat_iso|by apply coerce_date_iso].
Qed.

Lemma coerce_date_canonical_witness :
  coerce_date (PStr " 2024/2/29 ") = Ok (PStr "2024-02-29")
  ∧ (PStr "2024-02-29" = PNone
     ∨ ∃ d, legal d ∧ PStr "2024-02-29" = PStr (date_iso d)
            ∧ date_fromisoformat (date_iso d) = Some d
            ∧ coerce_date (PStr "2024-02-29") = Ok (PStr "2024-02-29")).
Proof.
  split; [vm_compute; reflexivity|].
  apply (coerce_date_canonical (PStr " 2024/2/29 ")). vm_compute. reflexivity.
Defined.

(** ** Field keys *)
Definition is_underscore (c : ascii) : bool := Ascii.eqb c underscore.
Definition starts_clean (l : list ascii) : bool :=
  match l with c :: _ => negb (is_underscore c) | [] => true end.
Fixpoint no_double (l : list ascii) : bool :=
  match l with
  | a :: l' => negb (is_underscore a && negb (starts_clean l')) && no_double l'
  | [] => true
  end.

(** Lower-case letters and digits, in words separated by single underscores. *)
Definition snake_char (c : ascii) : bool := is_digit c || is_ascii_lower c || is_underscore c.
Definition snake (l : list ascii) : bool :=
  forallb snake_char l && no_double l && starts_clean l && starts_clean (rev l).

(** A property of all the characters, by evaluation. *)
Lemma forall_ascii (P : ascii → bool) :
  forallb P (map (λ n, ascii_of_nat n) (seq 0 256)) = true → ∀ c, P c = true.
Proof.
  intros H c. rewrite forallb_forall in H. apply H. apply in_map_iff.
  exists (nat_of_ascii c). split; [apply ascii_nat_embedding|]. apply in_seq.
  pose proof (nat_ascii_bounded c). lia.
Qed.

(** Proves [Q x = true], or [P x = true → Q x = true], by trying all characters. *)
Ltac by_ascii x :=
  revert x; match goal with
  | |- ∀ a, @?P a = true → @?Q a = true =>
      let HX := fresh in
      assert (HX : ∀ a, negb (P a) || Q a = true)
        by (apply forall_ascii; vm_compute; reflexivity);
      intros a Ha; specialize (HX a); cbv beta in HX; rewrite Ha in HX; exact HX
  | |- ∀ a, @?P a = true => apply forall_ascii; vm_compute; reflexivity
  end.

Lemma sub_runs_clean in_run l :
  let out := sub_runs (λ c, negb (is_alnum c)) [underscore] in_run l in
  forallb (λ c, is_alnum c || is_underscore c) out = true
  ∧ no_double out = true ∧ (in_run = true → starts_clean out = true).
Proof.
  revert in_run. induction l as [|c l IH]; intros in_run; simpl; [by split_and!|].
  destruct (is_alnum c) eqn:Ec; simpl.
  - destruct (IH false) as (H1 & H2 & _).
    assert (is_underscore c = false) as Hu.
    { apply negb_true_iff. revert Ec. by_ascii c. }
    rewrite Ec, Hu. simpl. by split_and!.
  - destruct (IH true) as (H1 & H2 & H3). destruct in_run; simpl; [by split_and!|].
    rewrite H1, H2, H3 by done. done.
Qed.

Lemma starts_clean_lower l : starts_clean (map lower_char l) = starts_clean l.
Proof.
  destruct l as [|c l]; [done|]. simpl. f_equal. apply eq_true_iff_eq. split; by_ascii c.
Qed.

Lemma no_double_lower l : no_double (map lower_char l) = no_double l.
Proof.
  induction l as [|c l IH]; [done|]. simpl. rewrite IH, starts_clean_lower. do 3 f_equal.
  apply eq_true_iff_eq. split; by_ascii c.
Qed.

Lemma lower_snake l :
  forallb (λ c, is_alnum c || is_underscore c) l = true →
  forallb snake_char (map lower_char l) = true.
Proof.
  induction l as [|c l IH]; [done|]. simpl. rewrite !andb_true_iff. intros [Hc Hl].
  split; [|auto]. clear -Hc. revert Hc. by_ascii c.
Qed.

(** What stripping leaves is a contiguous part that starts and ends cleanly. *)
Lemma no_double_app a b : no_double (a ++ b) = true → no_double a = true ∧ no_double b = true.
Proof.
  induction a as [|c a IH]; simpl; [done|]. rewrite !andb_true_iff. intros [Hc H].
  destruct (IH H) as [Ha Hb]. split_and!; try done. destruct a as [|d a]; [|done].
  by destruct (is_underscore c).
Qed.

Lemma strip_parts p l :
  ∃ pre post, l = pre ++ strip_while p l ++ post
  ∧ match strip_while p l with c :: _ => p c = false | [] => True end
  ∧ match rev (strip_while p l) with c :: _ => p c = false | [] => True end.
Proof.
  destruct (drop_while_decompose p l) as (pre & E & _).
  destruct (rdrop_while_decompose p (drop_while p l)) as (post & E' & Hpost).
  exists pre, post. unfold strip_while. split_and!.
  - by rewrite <- E'.
  - pose proof (drop_while_head p l) as H.
    destruct (rdrop_while p (drop_while p l)) as [|c r]; [done|]. by rewrite E' in H.
  - unfold rdrop_while at 1. rewrite rev_involutive. apply drop_while_head.
Qed.

Lemma snake_key s : snake (chars (normalise_field_key s)) = true.
Proof.
  unfold normalise_field_key. rewrite chars_of_chars.
  destruct (sub_runs_clean false (sub_camel (chars (str_strip s)))) as (H1 & H2 & _).
  set (l := sub_runs _ _ _ _) in *. clearbody l.
  apply lower_snake in H1. rewrite <- no_double_lower in H2.
  destruct (strip_parts (λ c, Ascii.eqb c underscore) (map lower_char l))
    as (pre & post & E & Hh & Ht).
  rewrite E in H1, H2. set (out := strip_while _ _) in *. clearbody out.
  rewrite !forallb_app, !andb_true_iff in H1.
  apply no_double_app in H2 as [_ H2]. apply no_double_app in H2 as [H2 _].
  unfold snake. rewrite (proj1 (proj2 H1)), H2.
  unfold starts_clean, is_underscore.
  destruct out; [done|]. rewrite Hh. simpl in *. destruct (rev out ++ [a]); [done|]. by rewrite Ht.
Qed.

Lemma sub_camel_id n l : (length l < n)%nat → forallb snake_char l = true → sub_camel l = l.
Proof.
  revert l. induction n as [|n IH]; intros l Hn H; [lia|].
  destruct l as [|a [|b l]]; [done|done|]. simpl in H. rewrite !andb_true_iff in H.
  destruct H as (Ha & Hb & H). simpl in Hn.
  assert (is_ascii_upper b = false) as Hu.
  { apply negb_true_iff. clear -Hb. revert Hb. by_ascii b. }
  change (sub_camel (a :: b :: l)) with
    (if (is_ascii_lower a || is_digit a) && is_ascii_upper b
     then a :: underscore :: b :: sub_camel l else a :: sub_camel (b :: l)).
  rewrite Hu, andb_false_r. f_equal. apply IH; [simpl; lia|]. simpl. by rewrite Hb.
Qed.

Lemma sub_runs_id in_run l :
  forallb snake_char l = true → no_double l = true → (in_run = true → starts_clean l = true) →
  sub_runs (λ c, negb (is_alnum c)) [underscore] in_run l = l.
Proof.
  revert in_run. induction l as [|c l IH]; intros in_run; simpl; [done|].
  rewrite !andb_true_iff. intros [Hc Hl] [Hd Hn] Hr.
  destruct (is_underscore c) eqn:Eu.
  - apply Ascii.eqb_eq in Eu as ->. destruct in_run; [by specialize (Hr eq_refl)|].
    simpl. f_equal. apply IH; [done|done|]. intros _. simpl in Hd.
    by destruct (starts_clean l).
  - assert (is_alnum c = true) as ->.
    { unfold snake_char in Hc. rewrite Eu, orb_false_r in Hc.
      clear -Hc. revert Hc. by_ascii c. }
    simpl. f_equal. by apply IH.
Qed.

Lemma strip_while_id p l :
  match l with c :: _ => p c = false | [] => True end →
  match rev l with c :: _ => p c = false | [] => True end → strip_while p l = l.
Proof.
  intros Hh Ht. unfold strip_while, rdrop_while.
  assert (∀ k, match k with c :: _ => p c = false | [] => True end → drop_while p k = k) as D.
  { intros [|c k] Hk; [done|]. simpl. by rewrite Hk. }
  rewrite (D l Hh), (D (rev l) Ht). apply rev_involutive.
Qed.

Lemma key_of_snake k : snake (chars k) = true → normalise_field_key k = k.
Proof.
  unfold snake. rewrite !andb_true_iff. intros [[[H1 H2] H3] H4].
  unfold normalise_field_key, str_strip. rewrite chars_of_chars.
  assert (Hall : ∀ c, c ∈ chars k → snake_char c = true).
  { intros c Hc. rewrite forallb_forall in H1. apply H1. by apply list_elem_of_In. }
  rewrite (strip_while_none is_space); [|apply Forall_forall; intros c Hc; apply Hall in Hc;
    apply negb_true_iff; revert Hc; by_ascii c].
  rewrite (sub_camel_id (S (length (chars k)))) by (done || lia).
  rewrite sub_runs_id by done.
  assert (map lower_char (chars k) = chars k) as ->.
  { rewrite <- (map_id (chars k)) at 2. apply map_ext_in. intros c Hc.
    apply list_elem_of_In in Hc. apply Hall in Hc. apply Ascii.eqb_eq. revert Hc. by_ascii c. }
  rewrite strip_while_id; [apply of_chars_chars|..].
  - destruct (chars k); [done|]. by apply negb_true_iff.
  - destruct (rev (chars k)); [done|]. by apply negb_true_iff.
Qed.

(** field keys have one spelling. Every key is snake case, every snake-case key is
    left as it is, so normalising twice is normalising once; and the canonical field
    names are themselves keys. *)
Theorem field_key_canonical s :
  snake (chars (normalise_field_key s)) = true
  ∧ (∀ k, snake (chars k) = true → normalise_field_key k = k)
  ∧ normalise_field_key (normalise_field_key s) = normalise_field_key s
  ∧ (∀ f, normalise_field_key (required_field_value f) = required_field_value f).
Proof.
  split_and!; [apply snake_key|apply key_of_snake|apply key_of_snake, snake_key|].
  intros f. apply key_of_snake. by destruct f.
Qed.

Example field_key_spellings :
  map normalise_field_key ["Tail Number"; "tailNumber"; " tail-number "; "tail__number"]
  = ["tail_number"; "tail_number"; "tail_number"; "tail_number"].
Proof. vm_compute. reflexivity. Qed.

(** ** Text values *)
Definition sentence (ws : list (list ascii)) : string := of_chars (join space ws).

Lemma str_empty_chars s : str_empty s = true ↔ chars s = [].
Proof. by destruct s. Qed.

Lemma sentence_nonempty ws : Forall word ws → ws ≠ [] → str_empty (sentence ws) = false.
Proof.
  intros Hw Hne. apply not_true_iff_false. rewrite str_empty_chars. unfold sentence.
  rewrite chars_of_chars. destruct Hw as [|w ws [Hn _] _]; [done|].
  destruct ws; [done|]. simpl. by destruct w.
Qed.

Lemma collapse_sentence v s :
  collapse v = Some s → ∃ ws, Forall word ws ∧ ws ≠ [] ∧ s = sentence ws.
Proof.
  intros H.
  assert (∃ t, str_empty (join_space (str_split t)) = false ∧ s = join_space (str_split t))
    as (t & He & ->).
  { unfold collapse in H.
    destruct v; [done|..]; (destruct (str_empty _) eqn:E in H; [done|]); injection H as <-; eauto. }
  exists (split_ws [] (chars t)). split; [by apply split_ws_words|].
  unfold join_space, str_split in *. rewrite map_map in *.
  rewrite (map_ext (λ x, chars (of_chars x)) (λ x, x)) in * by apply chars_of_chars.
  rewrite map_id in *. split; [|done]. intros E. by rewrite E in He.
Qed.

Lemma collapse_of_sentence ws :
  Forall word ws → ws ≠ [] → collapse (PStr (sentence ws)) = Some (sentence ws).
Proof.
  intros Hw Hne. unfold collapse. cbn [py_str].
  assert (join_space (str_split (str_strip (sentence ws))) = sentence ws) as ->;
    [|by rewrite sentence_nonempty].
  unfold join_space, str_split, str_strip. rewrite chars_of_chars, split_strip.
  unfold sentence. rewrite chars_of_chars, split_join by done. rewrite map_map.
  rewrite (map_ext (λ x, chars (of_chars x)) (λ x, x)) by apply chars_of_chars. by rewrite map_id.
Qed.

(** Upper- and lower-casing act word by word. *)
Section recase.
Context (g : ascii → list ascii).
Hypothesis g_space : ∀ c, is_space c = false → word (g c).
Hypothesis g_sep : flat_map g space = space.
Hypothesis g_idem : ∀ c, flat_map g (g c) = g c.

Lemma recase_sentence ws :
  Forall word ws → ws ≠ [] →
  ∃ ws', Forall word ws' ∧ ws' ≠ [] ∧ flat_map g (join space ws) = join space ws'.
Proof using g_space g_sep.
  intros Hw Hne. exists (map (flat_map g) ws). split_and!.
  - induction Hw as [|w ws [Hn Hs] _ IH]; simpl; constructor; [|destruct ws; [constructor|by apply IH]].
    split.
    + inversion Hs as [|c l Hc]; subst; [done|]. simpl. destruct (g_space c Hc) as [Hg _].
      by destruct (g c).
    + clear Hn Hne. induction Hs as [|c l Hc _ IHl]; simpl; [constructor|].
      apply Forall_app. split; [apply (g_space c Hc)|exact IHl].
  - by destruct ws.
  - clear Hne Hw. induction ws as [|w ws IH]; [done|]. destruct ws as [|w' ws].
    + simpl. done.
    + change (join space (w :: w' :: ws)) with (w ++ space ++ join space (w' :: ws)).
      rewrite !flat_map_app, IH, g_sep. done.
Qed.

Lemma recase_idem l : flat_map g (flat_map g l) = flat_map g l.
Proof using g_idem.
  induction l as [|c l IH]; [done|]. simpl. by rewrite flat_map_app, g_idem, IH.
Qed.

Lemma recase_canonical v s :
  collapse v = Some s →
  collapse (PStr (of_chars (flat_map g (chars s)))) = Some (of_chars (flat_map g (chars s)))
  ∧ of_chars (flat_map g (chars (of_chars (flat_map g (chars s))))) = of_chars (flat_map g (chars s)).
Proof using g_space g_sep g_idem.
  intros (ws & Hw & Hne & ->)%collapse_sentence. unfold sentence. rewrite !chars_of_chars.
  split; [|by rewrite recase_idem].
  destruct (recase_sentence ws Hw Hne) as (ws' & Hw' & Hne' & ->). by apply collapse_of_sentence.
Qed.
End recase.

Lemma upper_space c : is_space c = false → word (upper_char c).
Proof.
  intros H.
  assert ((is_space c || (negb (bool_decide (upper_char c = []))
            && forallb (λ c, negb (is_space c)) (upper_char c))) = true) as HX.
  { clear H. by_ascii c. }
  rewrite H in HX. cbn in HX. apply andb_true_iff in HX as [H1 H2].
  apply negb_true_iff, bool_decide_eq_false_1 in H1. split; [done|].
  rewrite forallb_forall in H2. apply Forall_forall. intros x Hx.
  apply negb_true_iff, H2. by apply list_elem_of_In.
Qed.

Lemma upper_idem c : flat_map upper_char (upper_char c) = upper_char c.
Proof.
  apply (bool_decide_eq_true_1 (flat_map upper_char (upper_char c) = upper_char c)). by_ascii c.
Qed.

Lemma str_lower_flat s : str_lower s = of_chars (flat_map (λ c, [lower_char c]) (chars s)).
Proof.
  reflexivity.
Qed.

Lemma lower_space c : is_space c = false → word [lower_char c].
Proof. intros H. split; [done|]. apply Forall_singleton. by rewrite is_space_lower. Qed.

Lemma coerce_string_idem v r : coerce_string v = Ok r → coerce_string r = Ok r.
Proof.
  unfold coerce_string. intros [= <-]. f_equal.
  destruct (collapse v) as [s|] eqn:E; [|done]. cbn [str_or_none].
  apply collapse_sentence in E as (ws & Hw & Hne & ->). by rewrite collapse_of_sentence.
Qed.

Lemma coerce_registration_idem v r : coerce_registration v = Ok r → coerce_registration r = Ok r.
Proof.
  unfold coerce_registration. intros [= <-]. f_equal.
  destruct (collapse v) as [s|] eqn:E; [|done]. cbn [str_or_none fmap option_fmap option_map].
  destruct (recase_canonical upper_char upper_space eq_refl upper_idem v s E) as [H1 H2].
  unfold str_upper at 1 2. rewrite H1. cbn. f_equal. exact H2.
Qed.

Lemma coerce_flight_phase_idem v r : coerce_flight_phase v = Ok r → coerce_flight_phase r = Ok r.
Proof.
  unfold coerce_flight_phase. intros [= <-]. f_equal.
  destruct (collapse v) as [s|] eqn:E; [|done]. cbn [str_or_none fmap option_fmap option_map].
  destruct (recase_canonical (λ c, [lower_char c]) lower_space eq_refl
    (λ c, f_equal (λ x, [x]) (lower_char_idem c)) v s E) as [H1 H2].
  rewrite !str_lower_flat in *. rewrite H1. cbn. f_equal. rewrite str_lower_flat. exact H2.
Qed.

(** ** Counts *)
(** What a count coerces to, by the number its text denotes. *)
Definition count_outcome (value : pyval) (x : float) : Prop :=
  let text := str_strip (py_str value) in
  match x with
  | S754_infinity _ => ∃ msg, coerce_non_negative_int value = Raise (OverflowError msg)
  | S754_nan => ∃ e, coerce_non_negative_int value = Raise e
  | _ =>
      if has_dot text && negb (py_eq (PFloat x) (PInt (f_trunc x))) || (f_trunc x <? 0)
      then ∃ msg, coerce_non_negative_int value = Raise (NormalizationError msg)
      else coerce_non_negative_int value = Ok (PInt (f_trunc x))
  end.

Lemma none_or_not v : v = PNone ∨ v ≠ PNone.
Proof. destruct v; [by left|right; discriminate..]. Qed.

Lemma coerce_int_unfold value : value ≠ PNone →
  coerce_non_negative_int value =
  let text := str_strip (py_str value) in
  (if has_dot text then check_integral value text else Ok tt);;
  match py_float text with
  | None => Raise (NormalizationError ("Cannot convert " +:+ repr value +:+ " to int"))
  | Some x =>
      match int_of_float x with
      | Ok n =>
          if n <? 0
          then Raise (NormalizationError ("Expected non-negative integer, got " +:+ repr value))
          else Ok (PInt n)
      | Raise (ValueError _) =>
          Raise (NormalizationError ("Cannot convert " +:+ repr value +:+ " to int"))
      | Raise e => Raise e
      end
  end.
Proof. by destruct value. Qed.

Lemma count_outcome_ok value x :
  value ≠ PNone → py_float (str_strip (py_str value)) = Some x → count_outcome value x.
Proof.
  intros Hv Hf. unfold count_outcome. rewrite coerce_int_unfold by done. cbv zeta.
  unfold check_integral. rewrite Hf.
  destruct (has_dot _), x as [s|s| |s m e]; cbn [int_of_float andb orb negb];
    unfold mbind, Res_bind, mret, Res_ret; try (eexists; reflexivity);
    repeat case_match; simplify_eq/=; try done; eexists; reflexivity.
Qed.

Lemma count_not_number value :
  value ≠ PNone → py_float (str_strip (py_str value)) = None →
  ∃ msg, coerce_non_negative_int value = Raise (NormalizationError msg).
Proof.
  intros Hv Hf. rewrite coerce_int_unfold by done. cbv zeta. unfold check_integral. rewrite Hf.
  destruct (has_dot _); eexists; reflexivity.
Qed.

(** C13: counts. A count is read as the double its text denotes. The result is its
    integer part when that is not negative; a text with a decimal point must denote an
    integer, a text without one (such as 17e-1) is truncated; a text that is no number
    is a NormalizationError, and an infinite one escapes as an OverflowError that no
    caller expects. *)
Theorem coerce_int_outcome value :
  coerce_non_negative_int PNone = Ok PNone
  ∧ (value ≠ PNone → match py_float (str_strip (py_str value)) with
     | Some x => count_outcome value x
     | None => ∃ msg, coerce_non_negative_int value = Raise (NormalizationError msg)
     end)
  ∧ (∀ r, coerce_non_negative_int value = Ok r → r = PNone ∨ ∃ n, r = PInt n ∧ 0 ≤ n)
  ∧ coerce_non_negative_int (PStr "17e-1") = Ok (PInt 1)
  ∧ is_ok (coerce_non_negative_int (PStr "1.7")) = False.
Proof.
  assert (Hout : value ≠ PNone → match py_float (str_strip (py_str value)) with
     | Some x => count_outcome value x
     | None => ∃ msg, coerce_non_negative_int value = Raise (NormalizationError msg)
     end).
  { intros Hv. destruct (py_float (str_strip (py_str value))) as [x|] eqn:Hf;
      [by apply count_outcome_ok|by apply count_not_number]. }
  split_and!; [done|exact Hout| |vm_compute; reflexivity|vm_compute; reflexivity].
  intros r Hr. destruct (none_or_not value) as [->|Hne]; [left; by injection Hr|right].
  specialize (Hout Hne). destruct (py_float _) as [x|]; [|destruct Hout; congruence].
  unfold count_outcome in Hout.
  destruct x; try (destruct Hout; congruence);
    (destruct (_ || _) eqn:Ec in Hout; [destruct Hout; congruence|]);
    rewrite Hout in Hr; injection Hr as <-; apply orb_false_iff in Ec as [_ Ec];
    apply Z.ltb_ge in Ec; eauto.
Qed.

(** ** The external normaliser *)
Lemma generic_mapper_ok :
  SourceFieldMapper (map (λ kv, (kv.1, required_field_value kv.2)) generic_aliases)
  = Ok GenericExternalFieldMapper.
Proof. vm_compute. reflexivity. Qed.

Definition count_fields : list string :=
  map required_field_value [FATALITIES_TOTAL; INJURIES_TOTAL].

(** The value a known field ends up with. *)
Definition settled (field : string) (coercer : pyval → Res pyval) (raw v : pyval) : Prop :=
  if bool_decide (field = required_field_value EVENT_DATE) then
    (raw = PNone ∧ v = PNone) ∨ ∃ d, legal d ∧ v = PStr (date_iso d)
  else if bool_decide (field ∈ count_fields) then
    v = PNone ∨ (∃ n, v = PInt n ∧ 0 ≤ n)
    ∨ (v = raw ∧ ∃ msg, coercer raw = Raise (NormalizationError msg))
  else coercer raw = Ok v ∧ coercer v = Ok v.

Definition normalized_as (default_mapper : field_mapper) (mapper : option field_mapper)
    (claim claim' : raw_claim) : Prop :=
  let field := canonical_name default_mapper mapper (raw_field_name claim) in
  dict_get "field_name" claim' = Some (PStr field)
  ∧ (∀ k, k ≠ "field_name" → k ≠ "field_value" → dict_get k claim' = dict_get k claim)
  ∧ match field_coercer field with
    | None => dict_get "field_value" claim' = dict_get "field_value" claim
    | Some coercer => ∃ v, dict_get "field_value" claim' = Some v
                           ∧ settled field coercer (raw_field_value claim) v
    end.

Lemma field_coercer_cases field coercer :
  field_coercer field = Some coercer →
  ∃ f, field = required_field_value f
       ∧ coercer = match f with
                   | EVENT_DATE => coerce_date
                   | FATALITIES_TOTAL | INJURIES_TOTAL => coerce_non_negative_int
                   | REGISTRATION => coerce_registration
                   | FLIGHT_PHASE => coerce_flight_phase
                   | _ => coerce_string
                   end.
Proof.
  intros H. apply dict_get_elem in H. cbn [map fst snd] in H.
  repeat (apply elem_of_cons in H as [H|H]; [injection H as -> ->|]);
    [exists EVENT_DATE|exists FATALITIES_TOTAL|exists INJURIES_TOTAL|exists LOCATION
    |exists AIRCRAFT_TYPE|exists OPERATOR|exists REGISTRATION|exists FLIGHT_PHASE
    |exists NARRATIVE|by apply elem_of_nil in H]; split; reflexivity.
Qed.

Lemma coerce_date_blank v r :
  coerce_date v = Ok r → is_present_blank v = false →
  (v = PNone ∧ r = PNone) ∨ ∃ d, legal d ∧ r = PStr (date_iso d).
Proof.
  intros H Hb. destruct (none_or_not v) as [->|Hne]; [left; by injection H|right].
  assert (coerce_date v = s ← coerce_date_text (str_strip (py_str v)); mret (PStr s)) as E.
  { unfold coerce_date. destruct v; [done|..]; unfold is_present_blank in Hb; by rewrite Hb. }
  rewrite E in H. destruct (coerce_date_text _) as [s|] eqn:Es; [|done]. injection H as <-.
  apply coerce_date_text_legal in Es as (d & Hd & ->). eauto.
Qed.

Lemma coerce_int_ok v r : coerce_non_negative_int v = Ok r → r = PNone ∨ ∃ n, r = PInt n ∧ 0 ≤ n.
Proof.
  intros Hr. destruct (none_or_not v) as [->|Hne]; [left; by injection Hr|right].
  destruct (py_float (str_strip (py_str v))) as [x|] eqn:Hf.
  - pose proof (count_outcome_ok v x Hne Hf) as Hout. unfold count_outcome in Hout.
    destruct x; try (destruct Hout; congruence);
      (destruct (_ || _) eqn:Ec in Hout; [destruct Hout; congruence|]);
      rewrite Hout in Hr; injection Hr as <-; apply orb_false_iff in Ec as [_ Ec];
      apply Z.ltb_ge in Ec; eauto.
  - destruct (count_not_number v Hne Hf) as [msg E]. congruence.
Qed.

Lemma settled_ok field coercer raw v :
  field_coercer field = Some coercer →
  (field = required_field_value EVENT_DATE → is_present_blank raw = false) →
  coercer raw = Ok v → settled field coercer raw v.
Proof.
  intros (f & -> & ->)%field_coercer_cases Hb E. unfold settled.
  destruct f; cbv [required_field_value] in *;
    first [rewrite bool_decide_true by reflexivity | rewrite bool_decide_false by discriminate];
    first [ by apply coerce_date_blank; [|apply Hb]
          | rewrite bool_decide_true by (vm_compute; set_solver);
            destruct (coerce_int_ok _ _ E); auto
          | rewrite bool_decide_false by (vm_compute; set_solver); split; [exact E|];
            eauto using coerce_string_idem, coerce_registration_idem, coerce_flight_phase_idem ].
Qed.

Lemma normalize_claim_as d m c c' : normalize_claim d m c = Ok c' → normalized_as d m c c'.
Proof.
  unfold normalize_claim, normalized_as. set (field := canonical_name d m (raw_field_name c)).
  assert (Hset : ∀ v, dict_get "field_name" (with_value v (with_name field c)) = Some (PStr field)
    ∧ (∀ k, k ≠ "field_name" → k ≠ "field_value" →
         dict_get k (with_value v (with_name field c)) = dict_get k c)
    ∧ dict_get "field_value" (with_value v (with_name field c)) = Some v).
  { intros v. unfold with_value, with_name. rewrite !dict_get_set.
    split_and!; [done| |done]. intros k H1 H2. rewrite !dict_get_set.
    by rewrite decide_False, decide_False. }
  destruct (field_coercer field) as [coercer|] eqn:Ef.
  - destruct (String.eqb field _ && _) eqn:Eb; [done|].
    assert (Hblank : field = required_field_value EVENT_DATE →
                     is_present_blank (raw_field_value c) = false).
    { intros Hf. rewrite Hf, String.eqb_refl in Eb. exact Eb. }
    destruct (coercer (raw_field_value c)) as [v|e] eqn:Ev.
    + intros [= <-]. destruct (Hset v) as (H1 & H2 & H3). split_and!; [done..|].
      exists v. split; [done|]. by apply settled_ok.
    + destruct e; try done. destruct (bool_decide _) eqn:Ecrit; [done|]. intros [= <-].
      destruct (Hset (raw_field_value c)) as (H1 & H2 & H3). split_and!; [done..|].
      exists (raw_field_value c). split; [done|]. clear -Ef Ev Ecrit.
      destruct (field_coercer_cases field coercer Ef) as (f & Hf & Hc).
      unfold settled. rewrite Hf in *.
      destruct f; try (by vm_compute in Ecrit); subst coercer; try (by injection Ev);
        rewrite bool_decide_false by discriminate;
        rewrite bool_decide_true by (vm_compute; set_solver); eauto.
  - intros [= <-]. unfold with_name. rewrite !dict_get_set. split_and!; [done| |].
    + intros k H1 _. rewrite dict_get_set. by rewrite decide_False.
    + rewrite decide_False by done. done.
Qed.


Definition sample_claims : list raw_claim :=
  [[("field_name", PStr "Accident Date"); ("field_value", PStr "2024/03/09")];
   [("field_name", PStr "tailNumber"); ("field_value", PStr " n123 ab ")];
   [("field_name", PStr "fatalities"); ("field_value", PStr "unknown")];
   [("field_name", PStr "Weather"); ("field_value", PStr " VMC ")]].

Definition sample_normalised : list raw_claim :=
  [[("field_name", PStr "event_date"); ("field_value", PStr "2024-03-09")];
   [("field_name", PStr "registration"); ("field_value", PStr "N123 AB")];
   [("field_name", PStr "fatalities_total"); ("field_value", PStr "unknown")];
   [("field_name", PStr "weather"); ("field_value", PStr " VMC ")]].

