(* ===== verification/Matching.v ===== *)
(** Matching incoming claims against known events
    (domain/services/event_matching.py, EventIdentityIndex.fields of entities.py).

    The candidates are rows of the identity index, as in the only caller,
    _event_resolution.py. *)
From Stdlib Require Import Ascii SpecFloat.
From S2P Require Import Prelude Text PyFloat PyVal PyDate Entities Store Normalize.
Open Scope string_scope.
Open Scope list_scope.
Open Scope Z_scope.

(** A two- or four-decimal literal. *)
Definition lit (m : N) (e : Z) : float := f_of_decimal false m e.

Definition HIGH_CONFIDENCE : float := lit 75 (-2).
Definition UNCERTAIN_LOW : float := lit 40 (-2).

Definition WEIGHTS : list (string * float) :=
  [("registration", lit 45 (-2)); ("event_date", lit 30 (-2)); ("operator", lit 10 (-2));
   ("location", lit 8 (-2)); ("aircraft_type", lit 7 (-2))].
Definition f_one : float := lit 1 0.
Definition f_half : float := lit 5 (-1).

(** ** Normalisation helpers *)
Definition norm (value : pyval) : string :=
  match value with
  | PNone => ""
  | _ => re_sub_spaces " " (str_strip (str_lower (py_str value)))
  end.

(** [^\d{4}[-/]\d{2}[-/]\d{2}$], with the parts joined by hyphens *)
Definition year_first (s : string) : option string :=
  if bool_decide (is_Some (re_date 4 4 2 2 2 2 [hyphen; slash] s))
  then Some (str_replace "/" "-" s) else None.

Definition norm_date (value : pyval) : string :=
  match value with
  | PNone => ""
  | _ =>
      let s := norm value in
      match year_first s with
      | Some candidate =>
          match date_fromisoformat candidate with Some _ => candidate | None => "" end
      | None => match date_fromisoformat s with Some d => date_iso d | None => "" end
      end
  end.

(** [re.sub(r"[-/\s]", "", s)] *)
Definition compact (s : string) : string :=
  re_remove (λ c, is_char hyphen c || is_char slash c || is_space c) s.

Definition date_score (a b : string) : float :=
  if str_empty a || str_empty b then f_zero
  else if String.eqb a b then f_one
  else match date_fromisoformat a, date_fromisoformat b with
       | Some da, Some db =>
           if Z.abs (days_of_date da - days_of_date db) =? 1 then f_half else f_zero
       | _, _ => f_zero
       end.

(** Jaccard overlap of the words. *)
Definition token_overlap (a b : string) : float :=
  if str_empty a || str_empty b then f_zero else
  let ta := dict_fromkeys (str_split a) in
  let tb := dict_fromkeys (str_split b) in
  if bool_decide (ta = []) || bool_decide (tb = []) then f_zero
  else let both := filter (λ t, t ∈ tb) ta in
       f_div_int (Z.of_nat (length both))
         (Pos.of_nat (length ta + length (filter (λ t, t ∉ ta) tb))).

Definition field_score (field_name : string) (incoming_val candidate_val : pyval) : float :=
  let iv := norm incoming_val in
  let cv := norm candidate_val in
  if str_empty iv || str_empty cv then f_zero
  else if String.eqb field_name "event_date" then
    date_score (norm_date (PStr iv)) (norm_date (PStr cv))
  else if String.eqb field_name "registration" then
    if String.eqb (compact iv) (compact cv) then f_one else f_zero
  else token_overlap iv cv.

(** ** The dictionary a candidate is scored by: EventIdentityIndex.fields *)
Definition scalar_fields (c : EventIdentityIndex) : list (string * pyval) :=
  omap (λ kv : string * option string,
          s ← kv.2; if str_empty s then None else Some (kv.1, PStr s))
    [("event_date", ii_event_date_norm c); ("registration", ii_registration_norm c);
     ("operator", ii_operator_norm c); ("location", ii_location_norm c);
     ("aircraft_type", ii_aircraft_type_norm c)].

(** Its "registration_norms": the aliases other than the primary registration. *)
Definition historical (c : EventIdentityIndex) : list string :=
  filter (λ r, Some r ≠ ii_registration_norm c) (ii_registration_norms c).

(** ** Scoring *)
Record MatchResult := mkMatch {
  mr_score : float;
  mr_matched_fields : list string;
  mr_candidate : option UUID;
  mr_ambiguous_tie : bool;
  mr_tied : list UUID;
}.

(** The loop over the weights: the total and the fields that matched. *)
Definition weigh (incoming_fields candidate_fields : list (string * pyval))
    : float * list string :=
  foldl (λ '(total, matched) '(fname, weight),
    let fs := field_score fname (default PNone (dict_get fname incoming_fields))
                (default PNone (dict_get fname candidate_fields)) in
    (f_add total (f_mul weight fs),
     if f_gtb fs f_zero then matched ++ [fname] else matched))
    (f_zero, []) WEIGHTS.

Definition alias_weight : float := f_mul f_half (lit 45 (-2)).

Definition score_match (incoming_fields : list (string * pyval)) (c : EventIdentityIndex)
    : float * list string :=
  let '(total, matched) := weigh incoming_fields (scalar_fields c) in
  let inc_reg := default PNone (dict_get "registration" incoming_fields) in
  let iv_norm := compact (norm inc_reg) in
  let '(total, matched) :=
    if negb (bool_decide ("registration" ∈ matched))
       && negb (bool_decide (historical c = []))
       && py_truthy inc_reg && negb (str_empty iv_norm)
       && bool_decide (iv_norm ∈ historical c)
    then (f_round (f_add total alias_weight) 4, matched ++ ["registration_alias"])
    else (total, matched) in
  (f_round total 4, matched).

Inductive MatchAction := ATTACH | REVIEW | NEW.
#[export] Instance MatchAction_eq_dec : EqDecision MatchAction.
Proof. solve_decision. Defined.

Record MatchDecision := mkDecision {
  md_action : MatchAction;
  md_score : float;
  md_matched_fields : list string;
  md_candidate : option UUID;
  md_tied : list UUID;
}.

(** ** EventMatcher *)
Module EventMatcher.
Section matcher.
Context (high uncertain : float) (incoming_fields : list (string * pyval)).

Definition no_match : MatchResult := mkMatch f_zero [] None false [].

Definition scored (c : EventIdentityIndex) : MatchResult :=
  let '(score, matched) := score_match incoming_fields c in
  mkMatch score matched (Some (ii_event_id c)) false [].

(** One turn of the loop: the best result so far and the ids that share its score. *)
Definition consider (acc : MatchResult * list UUID) (c : EventIdentityIndex)
    : MatchResult * list UUID :=
  let '(best, tied) := acc in
  let m := scored c in
  if f_gtb (mr_score m) (mr_score best) then (m, [ii_event_id c])
  else if f_eqb (mr_score m) (mr_score best) && f_gtb (mr_score m) f_zero then
    let tied := match tied, mr_candidate best with [], Some id => [id] | _, _ => tied end in
    (best, tied ++ [ii_event_id c])
  else (best, tied).

Definition best_match (candidates : list EventIdentityIndex) : MatchResult :=
  let '(best, tied) := foldl consider (no_match, []) candidates in
  if (1 <? Z.of_nat (length tied)) && f_geb (mr_score best) uncertain
  then mkMatch (mr_score best) (mr_matched_fields best) (mr_candidate best) true
         (dict_fromkeys tied)
  else best.

Definition decide (candidates : list EventIdentityIndex) : MatchDecision :=
  let m := best_match candidates in
  if f_geb (mr_score m) high && negb (mr_ambiguous_tie m)
  then mkDecision ATTACH (mr_score m) (mr_matched_fields m) (mr_candidate m) (mr_tied m)
  else if f_geb (mr_score m) uncertain
  then mkDecision REVIEW (mr_score m) (mr_matched_fields m) (mr_candidate m) (mr_tied m)
  else mkDecision NEW (mr_score m) (mr_matched_fields m) None [].
End matcher.
End EventMatcher.

(** ** The outcome of a decision *)
Section decisions.
Context (incoming : list (string * pyval)).
Let score (c : EventIdentityIndex) : float := (score_match incoming c).1.
Let matched (c : EventIdentityIndex) : list string := (score_match incoming c).2.

(** The candidates that share the score [s], in order. *)
Definition ties (s : float) (l : list EventIdentityIndex) : list EventIdentityIndex :=
  filter (λ c, f_eqb (score c) s = true) l.

(** No candidate of [l] scores more than [c]; none of [l1] scores as much. *)
Definition first_top (l1 : list EventIdentityIndex) (c : EventIdentityIndex)
    (l : list EventIdentityIndex) : Prop :=
  (∀ c', c' ∈ l → f_gtb (score c') (score c) = false)
  ∧ (∀ c', c' ∈ l1 → f_eqb (score c') (score c) = false).

Definition loop_inv (l : list EventIdentityIndex) (acc : MatchResult * list UUID) : Prop :=
  let '(best, tied) := acc in
  is_nan (mr_score best) = false
  ∧ (∀ c, c ∈ l → f_gtb (score c) (mr_score best) = false)
  ∧ ((best = EventMatcher.no_match ∧ tied = [])
     ∨ (f_gtb (mr_score best) f_zero = true
        ∧ ∃ l1 c l2, l = l1 ++ c :: l2 ∧ best = EventMatcher.scored incoming c
          ∧ tied = ii_event_id <$> ties (score c) l ∧ first_top l1 c l)).

Lemma scored_score c : mr_score (EventMatcher.scored incoming c) = score c.
Proof. unfold EventMatcher.scored, score. by destruct (score_match incoming c). Qed.

Lemma f_gtb_eqb x y z : f_gtb x z = true → f_eqb y x = true → f_gtb y z = true.
Proof. apply f_ltb_eqb_r. Qed.

Lemma f_gtb_not_nan x y : f_gtb x y = true → is_nan x = false.
Proof. unfold f_gtb. rewrite f_ltb_rank. by intros (_ & ? & _). Qed.

Lemma f_gtb_asym x y : f_gtb x y = true → f_gtb y x = false.
Proof. apply f_ltb_asym. Qed.

Lemma consider_inv l acc c :
  loop_inv l acc → loop_inv (l ++ [c]) (EventMatcher.consider incoming acc c).
Proof.
  destruct acc as [best tied]. intros (Hn & Hmax & Hcase). cbn [EventMatcher.consider].
  rewrite scored_score.
  destruct (f_gtb (score c) (mr_score best)) eqn:Hgt.
  - assert (Hold : ∀ c', c' ∈ l → f_gtb (score c') (score c) = false
                                  ∧ f_eqb (score c') (score c) = false).
    { intros c' Hc'. pose proof (Hmax c' Hc') as Hle.
      split; apply not_true_iff_false; intros H; apply not_true_iff_false in Hle; apply Hle.
      - unfold f_gtb in *. by eapply f_ltb_trans.
      - by eapply f_gtb_eqb. }
    pose proof (f_gtb_not_nan _ _ Hgt) as Hnc.
    split_and!; [by rewrite scored_score| |].
    + intro_snoc c' Hc'; rewrite scored_score; [by apply Hold|].
      apply not_true_iff_false. intros H. by rewrite (f_gtb_asym _ _ H) in H.
    + right. rewrite scored_score. split.
      { destruct Hcase as [[-> _]|[H _]]; [exact Hgt|].
        unfold f_gtb in *. by eapply f_ltb_trans. }
      exists l, c, []. split_and!; [done|done| |].
      * unfold ties. rewrite filter_app, filter_cons, decide_True by by apply f_eqb_refl.
        assert (filter (λ c', f_eqb (score c') (score c) = true) l = []) as ->; [|done].
        apply elem_of_nil_inv. intros c' [He Hc']%list_elem_of_filter.
        destruct (Hold c' Hc') as [_ Hf]. congruence.
      * split; [|intros c' Hc'; by apply Hold]. intro_snoc c' Hc'; [by apply Hold|].
        apply not_true_iff_false. intros H. by rewrite (f_gtb_asym _ _ H) in H.
  - assert (Hmax' : ∀ c', c' ∈ l ++ [c] → f_gtb (score c') (mr_score best) = false)
      by (intro_snoc c' Hc'; auto).
    destruct (f_eqb (score c) (mr_score best)) eqn:Heq; cbn [andb].
    + destruct (f_gtb (score c) f_zero) eqn:Hpos.
      * destruct Hcase as [[-> _]|(Hp & l1 & b & l2 & -> & -> & -> & Htop & Hfirst)].
        { cbn [EventMatcher.no_match mr_score] in Hgt. congruence. }
        rewrite scored_score in *.
        split_and!; [by rewrite scored_score|by rewrite scored_score|right].
        split; [by rewrite scored_score|].
        exists l1, b, (l2 ++ [c]). split_and!; [by rewrite <- app_assoc|done| |].
        -- assert (ii_event_id <$> ties (score b) (l1 ++ b :: l2) ≠ []) as Hne.
           { unfold ties. rewrite filter_app, filter_cons, decide_True by by apply f_eqb_refl.
             rewrite fmap_app. by destruct (_ <$> filter _ l1). }
           assert (∀ (t : list UUID) (o : option UUID), t ≠ [] →
             match t, o with [], Some id => [id] | _, _ => t end = t) as Hm by by intros [].
           rewrite Hm by done. unfold ties. rewrite (filter_app _ (l1 ++ b :: l2)), fmap_app.
           f_equal. by rewrite filter_cons, decide_True.
        -- split; [|done]. done.
      * destruct Hcase as [[-> ->]|(Hp & _)].
        { split_and!; [done|done|by left]. }
        exfalso. rewrite (f_gtb_eqb (mr_score best) (score c) f_zero) in Hpos; done.
    + destruct Hcase as [[-> ->]|(Hp & l1 & b & l2 & -> & -> & -> & Htop & Hfirst)].
      { split_and!; [done|done|by left]. }
      rewrite scored_score in *. split_and!; [by rewrite scored_score|by rewrite scored_score|right].
      split; [by rewrite scored_score|].
      exists l1, b, (l2 ++ [c]). split_and!; [by rewrite <- app_assoc|done| |by split].
      unfold ties. rewrite (filter_app _ (l1 ++ b :: l2)), (filter_cons _ c), decide_False by congruence.
      by rewrite app_nil_r.
Qed.

Lemma loop_inv_all l :
  loop_inv l (foldl (EventMatcher.consider incoming) (EventMatcher.no_match, []) l).
Proof.
  induction l as [|c l IH] using rev_ind.
  - split_and!; [done|intros c []%elem_of_nil|by left].
  - rewrite foldl_app. simpl. by apply consider_inv.
Qed.
Lemma length_ties_one l1 c l2 :
  is_nan (score c) = false → (length (ties (score c) (l1 ++ c :: l2)) ≤ 1)%nat →
  ∀ c', c' ∈ l1 ++ l2 → f_eqb (score c') (score c) = false.
Proof.
  intros Hn. unfold ties. rewrite filter_app, filter_cons, decide_True by by apply f_eqb_refl.
  rewrite length_app. simpl. intros Hlen c' Hc'. apply not_true_iff_false. intros He.
  apply elem_of_app in Hc' as [Hc'|Hc'].
  - assert (c' ∈ filter (λ c', f_eqb (score c') (score c) = true) l1) as Hin
      by by apply list_elem_of_filter.
    destruct (filter _ l1); [by apply elem_of_nil in Hin|]. simpl in Hlen. lia.
  - assert (c' ∈ filter (λ c', f_eqb (score c') (score c) = true) l2) as Hin
      by by apply list_elem_of_filter.
    destruct (filter _ l2); [by apply elem_of_nil in Hin|]. simpl in Hlen. lia.
Qed.

Definition attaches (l1 : list EventIdentityIndex) (c : EventIdentityIndex)
    (l2 : list EventIdentityIndex) : Prop :=
  f_geb (score c) HIGH_CONFIDENCE = true
  ∧ ∀ c', c' ∈ l1 ++ l2 → f_geb (score c') (score c) = false.

Definition reviews (l1 : list EventIdentityIndex) (c : EventIdentityIndex)
    (l2 : list EventIdentityIndex) : Prop :=
  first_top l1 c (l1 ++ c :: l2) ∧ f_geb (score c) UNCERTAIN_LOW = true
  ∧ (f_geb (score c) HIGH_CONFIDENCE = true →
     (1 < length (ties (score c) (l1 ++ c :: l2)))%nat).

Definition decided (cands : list EventIdentityIndex) (d : MatchDecision) : Prop :=
  match md_action d with
  | ATTACH => ∃ l1 c l2, cands = l1 ++ c :: l2 ∧ attaches l1 c l2
      ∧ d = mkDecision ATTACH (score c) (matched c) (Some (ii_event_id c)) []
  | REVIEW => ∃ l1 c l2, cands = l1 ++ c :: l2 ∧ reviews l1 c l2
      ∧ d = mkDecision REVIEW (score c) (matched c) (Some (ii_event_id c))
              (if bool_decide (1 < length (ties (score c) cands))%nat
               then dict_fromkeys (ii_event_id <$> ties (score c) cands) else [])
  | NEW => (∀ c, c ∈ cands → f_geb (score c) UNCERTAIN_LOW = false)
      ∧ md_candidate d = None ∧ md_tied d = []
  end.

Lemma geb_high_low x : f_geb x HIGH_CONFIDENCE = true → f_geb x UNCERTAIN_LOW = true.
Proof. unfold f_geb. intros H. eapply f_leb_trans; [|exact H]. vm_compute. reflexivity. Qed.

Lemma not_geb_top x top u :
  f_gtb x top = false → f_geb top u = false → is_nan top = false → f_geb x u = false.
Proof.
  intros Hx Ht Hn. apply not_true_iff_false. intros Hu.
  apply not_true_iff_false in Ht. apply Ht. by eapply f_leb_not_lt.
Qed.

Lemma decide_decided cands :
  decided cands (EventMatcher.decide HIGH_CONFIDENCE UNCERTAIN_LOW incoming cands).
Proof.
  unfold EventMatcher.decide, EventMatcher.best_match. pose proof (loop_inv_all cands) as Hinv.
  destruct (foldl _ _ cands) as [best tied]. destruct Hinv as (Hn & Hmax & Hcase).
  destruct Hcase as [[-> ->]|(Hpos & l1 & c & l2 & -> & -> & -> & Htop)].
  { cbn. split_and!; [|done|done]. intros c Hc.
    eapply not_geb_top; [by apply Hmax|vm_compute; reflexivity|done]. }
  rewrite scored_score in *. rewrite length_fmap.
  assert (mr_matched_fields (EventMatcher.scored incoming c) = matched c
          ∧ mr_candidate (EventMatcher.scored incoming c) = Some (ii_event_id c)
          ∧ mr_ambiguous_tie (EventMatcher.scored incoming c) = false
          ∧ mr_tied (EventMatcher.scored incoming c) = []) as (E1 & E2 & E3 & E4).
  { unfold EventMatcher.scored, matched. by destruct (score_match incoming c). }
  rewrite E1, E2. set (k := length (ties (score c) (l1 ++ c :: l2))) in *.
  destruct (f_geb (score c) UNCERTAIN_LOW) eqn:Hlow.
  - rewrite andb_true_r.
    destruct (decide (1 < k)%nat) as [Hk|Hk].
    + assert ((1 <? Z.of_nat k) = true) as -> by (apply Z.ltb_lt; lia).
      cbn [mr_score mr_ambiguous_tie mr_matched_fields mr_candidate mr_tied andb negb].
      rewrite andb_false_r, Hlow. unfold decided. cbn [md_action]. exists l1, c, l2. fold k.
      rewrite bool_decide_true by done. done.
    + assert ((1 <? Z.of_nat k) = false) as -> by (apply Z.ltb_ge; lia).
      rewrite E1, E2, E3, E4, scored_score, andb_true_r.
      destruct (f_geb (score c) HIGH_CONFIDENCE) eqn:Hhigh.
      * unfold decided. cbn [md_action]. exists l1, c, l2. split_and!; [done| |done]. split; [done|].
        intros c' Hc'. unfold f_geb. rewrite f_leb_split. apply orb_false_iff. split.
        -- apply Htop. rewrite elem_of_app, elem_of_cons. apply elem_of_app in Hc'. tauto.
        -- rewrite f_eqb_sym. apply (length_ties_one l1 c l2 Hn); [fold k; lia|exact Hc'].
      * rewrite Hlow. unfold decided. cbn [md_action]. exists l1, c, l2. fold k. rewrite bool_decide_false by done.
        split_and!; [done| |done]. split; [exact Htop|]. split; [done|]. congruence.
  - rewrite andb_false_r, scored_score. cbn zeta.
    destruct (f_geb (score c) HIGH_CONFIDENCE) eqn:Hhigh.
    { apply geb_high_low in Hhigh. congruence. }
    rewrite Hlow. unfold decided. cbn [andb md_action md_candidate md_tied]. split_and!; [|done|done].
    intros c' Hc'. eapply not_geb_top; [by apply Hmax|done|done].
Qed.
Lemma geb_not_nan x y : f_geb x y = true → is_nan x = false.
Proof. apply f_leb_not_nan_r. Qed.

Lemma ties_eqb x y l : f_eqb x y = true → ties x l = ties y l.
Proof.
  intros E. unfold ties. apply list_filter_iff'. intros c _.
  split; intros H; eapply f_eqb_trans; [exact H|exact E|exact H|by rewrite f_eqb_sym].
Qed.

Lemma attaches_ties l1 c l2 : attaches l1 c l2 → ties (score c) (l1 ++ c :: l2) = [c].
Proof.
  intros [Hh Ho]. pose proof (geb_not_nan _ _ Hh) as Hn.
  assert (Hno : ∀ l, (∀ c', c' ∈ l → f_geb (score c') (score c) = false) →
                     filter (λ c', f_eqb (score c') (score c) = true) l = []).
  { intros l Hl. apply elem_of_nil_inv. intros c' [He Hc']%list_elem_of_filter.
    specialize (Hl c' Hc'). unfold f_geb in Hl. rewrite f_leb_split in Hl.
    apply orb_false_iff in Hl as [_ Hl]. rewrite f_eqb_sym in Hl. congruence. }
  unfold ties. rewrite filter_app, filter_cons, decide_True by by apply f_eqb_refl.
  rewrite !Hno; [done|..]; intros c' Hc'; apply Ho, elem_of_app; auto.
Qed.

(** Two first tops of the same candidates score the same. *)
Lemma tops_eqb l1 c l2 l1' c' l2' :
  (∀ x, x ∈ l1 ++ c :: l2 ↔ x ∈ l1' ++ c' :: l2') →
  f_geb (score c) UNCERTAIN_LOW = true → f_geb (score c') UNCERTAIN_LOW = true →
  first_top l1 c (l1 ++ c :: l2) → first_top l1' c' (l1' ++ c' :: l2') →
  f_eqb (score c) (score c') = true.
Proof.
  intros Hiff Hc Hc' [Ht _] [Ht' _].
  destruct (f_trichotomy (score c) (score c') (geb_not_nan _ _ Hc) (geb_not_nan _ _ Hc'))
    as [H|[H|H]]; [exfalso|exact H|exfalso].
  - unfold f_gtb in Ht. rewrite Ht in H; [discriminate|]. apply Hiff, elem_of_app. right. by left.
  - unfold f_gtb in Ht'. rewrite Ht' in H; [discriminate|]. apply Hiff, elem_of_app. right. by left.
Qed.

Lemma attaches_top l1 c l2 : attaches l1 c l2 → first_top l1 c (l1 ++ c :: l2).
Proof.
  intros [Hh Ho]. pose proof (geb_not_nan _ _ Hh) as Hn.
  assert (Hle : ∀ c', f_geb (score c') (score c) = false →
            f_gtb (score c') (score c) = false ∧ f_eqb (score c') (score c) = false).
  { intros c' H. unfold f_geb in H. rewrite f_leb_split in H. apply orb_false_iff in H as [H1 H2].
    split; [exact H1|]. by rewrite f_eqb_sym. }
  split; [|intros c' Hc'; apply Hle, Ho, elem_of_app; by left].
  intros c' Hc'. rewrite elem_of_app, elem_of_cons in Hc'.
  destruct Hc' as [Hc'|[->|Hc']]; [apply Hle, Ho, elem_of_app; by left| |apply Hle, Ho, elem_of_app; by right].
  apply not_true_iff_false. intros H. by rewrite (f_gtb_asym _ _ H) in H.
Qed.

(** The three outcomes exclude each other. *)
Lemma decided_attach l1 c l2 d :
  decided (l1 ++ c :: l2) d → attaches l1 c l2 → md_action d = ATTACH.
Proof.
  intros Hd Ha. unfold decided in Hd. destruct (md_action d) eqn:Ed; [done|exfalso..].
  - destruct Hd as (k1 & b & k2 & E & (Ht & Hl & Hh) & _).
    assert (Heq : f_eqb (score b) (score c) = true).
    { eapply (tops_eqb k1 b k2 l1 c l2); [by rewrite E|done|by apply geb_high_low, Ha|done|].
      by apply attaches_top. }
    rewrite (ties_eqb _ _ _ Heq), <- E, (attaches_ties l1 c l2 Ha) in Hh. cbn in Hh.
    specialize (Hh (f_leb_eqb_r _ _ _ (proj1 Ha) Heq)). lia.
  - destruct Hd as [Hd _]. specialize (Hd c ltac:(apply elem_of_app; right; by left)).
    destruct Ha as [Ha _]. apply geb_high_low in Ha. congruence.
Qed.
End decisions.

(** C15: the decision rule of the matcher. Incoming claims attach to an event exactly
    when it scores at least HIGH_CONFIDENCE and strictly more than every other
    candidate, so a tie never attaches; they found a new event exactly when no candidate
    reaches UNCERTAIN_LOW; in every other case the best candidate, or all those that
    share the best score, goes to review. *)
Theorem decide_spec incoming cands :
  let d := EventMatcher.decide HIGH_CONFIDENCE UNCERTAIN_LOW incoming cands in
  decided incoming cands d
  ∧ (md_action d = ATTACH ↔ ∃ l1 c l2, cands = l1 ++ c :: l2 ∧ attaches incoming l1 c l2)
  ∧ (md_action d = NEW ↔
     ∀ c, c ∈ cands → f_geb (score_match incoming c).1 UNCERTAIN_LOW = false).
Proof.
  cbv zeta. pose proof (decide_decided incoming cands) as Hd.
  set (d := EventMatcher.decide _ _ _ _) in *. clearbody d.
  split_and!; [exact Hd|split|split].
  - intros E. unfold decided in Hd. rewrite E in Hd. naive_solver.
  - intros (l1 & c & l2 & -> & Ha). by eapply decided_attach.
  - intros E. unfold decided in Hd. rewrite E in Hd. naive_solver.
  - intros Hall. unfold decided in Hd. destruct (md_action d); [exfalso..|done].
    + destruct Hd as (l1 & c & l2 & -> & [Ha _] & _).
      specialize (Hall c ltac:(apply elem_of_app; right; by left)).
      apply geb_high_low in Ha. congruence.
    + destruct Hd as (l1 & c & l2 & -> & (_ & Hl & _) & _).
      specialize (Hall c ltac:(apply elem_of_app; right; by left)). congruence.
Qed.

(** The events a decision proposes for review (_event_resolution.py). *)
Definition candidate_event_ids (d : MatchDecision) : list UUID :=
  match md_tied d with
  | [] => option_list (md_candidate d)
  | ids => ids
  end.

Lemma fromkeys_perm {A} `{EqDecision A} (l l' : list A) :
  l ≡ₚ l' → dict_fromkeys l ≡ₚ dict_fromkeys l'.
Proof.
  intros Hp. apply NoDup_Permutation; [apply NoDup_fromkeys..|].
  intros x. by rewrite !elem_of_fromkeys, Hp.
Qed.

Lemma ties_perm incoming s l l' : l ≡ₚ l' → ties incoming s l ≡ₚ ties incoming s l'.
Proof. intros Hp. unfold ties. by rewrite Hp. Qed.

Lemma ties_self incoming l1 c l2 :
  is_nan (score_match incoming c).1 = false →
  c ∈ ties incoming (score_match incoming c).1 (l1 ++ c :: l2).
Proof.
  intros Hn. apply list_elem_of_filter. split; [by apply f_eqb_refl|].
  apply elem_of_app. right. by left.
Qed.

(** What a review proposes: the distinct ids of the candidates with the best score. *)
Lemma review_ids incoming cands d :
  decided incoming cands d → md_action d = REVIEW →
  ∃ l1 c l2, cands = l1 ++ c :: l2 ∧ reviews incoming l1 c l2
  ∧ candidate_event_ids d
    = dict_fromkeys (ii_event_id <$> ties incoming (score_match incoming c).1 cands).
Proof.
  intros Hd Ed. unfold decided in Hd. rewrite Ed in Hd.
  destruct Hd as (l1 & c & l2 & -> & Hr & ->). exists l1, c, l2. split_and!; [done|done|].
  unfold candidate_event_ids. cbn [md_tied md_candidate].
  pose proof (geb_not_nan _ _ (proj1 (proj2 Hr))) as Hn.
  pose proof (ties_self incoming l1 c l2 Hn) as Hin.
  set (t := ties incoming (score_match incoming c).1 (l1 ++ c :: l2)) in *. clearbody t.
  destruct (decide (1 < length t)%nat) as [Hl|Hl].
  - rewrite bool_decide_true by done. destruct t as [|x t]; [by apply elem_of_nil in Hin|].
    by destruct (dict_fromkeys (ii_event_id <$> x :: t)) eqn:E.
  - rewrite bool_decide_false by done.
    destruct t as [|x [|y t]]; [by apply elem_of_nil in Hin| |simpl in Hl; lia].
    apply list_elem_of_singleton in Hin as ->. done.
Qed.

Lemma action_perm incoming cands cands' :
  cands ≡ₚ cands' →
  let decide := EventMatcher.decide HIGH_CONFIDENCE UNCERTAIN_LOW incoming in
  (md_action (decide cands) = ATTACH →
     md_action (decide cands') = ATTACH
     ∧ md_candidate (decide cands') = md_candidate (decide cands))
  ∧ (md_action (decide cands) = NEW → md_action (decide cands') = NEW).
Proof.
  intros Hp. cbv zeta. pose proof (decide_decided incoming cands) as Hd.
  pose proof (decide_decided incoming cands') as Hd'.
  set (d := EventMatcher.decide _ _ _ cands) in *. clearbody d.
  set (d' := EventMatcher.decide _ _ _ cands') in *. clearbody d'. split.
  - intros E. unfold decided in Hd. rewrite E in Hd. destruct Hd as (l1 & c & l2 & -> & Ha & ->).
    assert (∃ k1 k2, cands' = k1 ++ c :: k2 ∧ k1 ++ k2 ≡ₚ l1 ++ l2) as (k1 & k2 & -> & Hk).
    { assert (c ∈ cands') as Hin by (rewrite <- Hp, elem_of_app; right; by left).
      apply list_elem_of_split in Hin as (k1 & k2 & ->). exists k1, k2. split; [done|].
      apply (Permutation_cons_inv (a := c)). rewrite !Permutation_middle. by rewrite Hp. }
    assert (Ha' : attaches incoming k1 c k2).
    { destruct Ha as [H1 H2]. split; [done|]. intros c' Hc'. apply H2. by rewrite <- Hk. }
    assert (E' : md_action d' = ATTACH) by by eapply decided_attach.
    split; [done|]. unfold decided in Hd'. rewrite E' in Hd'.
    destruct Hd' as (m1 & b & m2 & Em & Hb & ->). cbn [md_candidate].
    pose proof (attaches_ties incoming m1 b m2 Hb) as Tb. rewrite <- Em in Tb.
    pose proof (attaches_ties incoming k1 c k2 Ha') as Tc.
    assert (Heq : f_eqb (score_match incoming c).1 (score_match incoming b).1 = true).
    { eapply (tops_eqb incoming k1 c k2 m1 b m2); [by rewrite Em|apply geb_high_low, Ha'
        |apply geb_high_low, Hb|by apply attaches_top|by apply attaches_top]. }
    rewrite (ties_eqb incoming _ _ _ Heq), Tb in Tc. by injection Tc as ->.
  - intros E. unfold decided in Hd, Hd'. rewrite E in Hd. destruct Hd as [Hd _].
    destruct (md_action d'); [exfalso..|done].
    + destruct Hd' as (l1 & c & l2 & -> & [Ha _] & _).
      specialize (Hd c ltac:(rewrite Hp; apply elem_of_app; right; by left)).
      apply geb_high_low in Ha. congruence.
    + destruct Hd' as (l1 & c & l2 & -> & (_ & Hl & _) & _).
      specialize (Hd c ltac:(rewrite Hp; apply elem_of_app; right; by left)). congruence.
Qed.

(** the decision does not depend on the order in which the candidates are read.
    Any two orders give the same action and propose the same events. *)
Theorem decide_order_independent incoming cands cands' :
  cands ≡ₚ cands' →
  let d := EventMatcher.decide HIGH_CONFIDENCE UNCERTAIN_LOW incoming cands in
  let d' := EventMatcher.decide HIGH_CONFIDENCE UNCERTAIN_LOW incoming cands' in
  md_action d = md_action d' ∧ (candidate_event_ids d ≡ₚ candidate_event_ids d').
Proof.
  intros Hp. cbv zeta.
  pose proof (action_perm incoming _ _ Hp) as [HA HN].
  pose proof (action_perm incoming _ _ (symmetry Hp)) as [HA' HN'].
  pose proof (decide_decided incoming cands) as Hd.
  pose proof (decide_decided incoming cands') as Hd'. cbv zeta in *.
  set (d := EventMatcher.decide _ _ _ cands) in *. clearbody d.
  set (d' := EventMatcher.decide _ _ _ cands') in *. clearbody d'.
  assert (E : md_action d = md_action d').
  { destruct (md_action d) eqn:E, (md_action d') eqn:E'; try done;
      try (by destruct (HA eq_refl)); try (by destruct (HA' eq_refl));
      try (by specialize (HN eq_refl)); by specialize (HN' eq_refl). }
  split; [exact E|]. destruct (md_action d) eqn:Ed; symmetry in E.
  - destruct (HA eq_refl) as [_ Hc]. clear HA HA' HN HN'. unfold decided in Hd, Hd'.
    rewrite Ed in Hd. rewrite E in Hd'. destruct Hd as (l1 & c & l2 & _ & _ & ->).
    destruct Hd' as (k1 & b & k2 & _ & _ & ->). cbn in *. by injection Hc as ->.
  - destruct (review_ids incoming cands d Hd Ed) as (l1 & c & l2 & Ec & Hr & ->).
    destruct (review_ids incoming cands' d' Hd' E) as (k1 & b & k2 & Eb & Hr' & ->).
    assert (Heq : f_eqb (score_match incoming c).1 (score_match incoming b).1 = true).
    { eapply (tops_eqb incoming l1 c l2 k1 b k2); [|apply Hr|apply Hr'|apply Hr|apply Hr'].
      intros x. by rewrite <- Ec, <- Eb, Hp. }
    rewrite (ties_eqb incoming _ _ _ Heq). apply fromkeys_perm. apply Permutation_map.
    by apply ties_perm.
  - unfold decided in Hd, Hd'. rewrite Ed in Hd. rewrite E in Hd'.
    destruct Hd as (_ & Hc & Ht), Hd' as (_ & Hc' & Ht'). unfold candidate_event_ids.
    by rewrite Hc, Ht, Hc', Ht'.
Qed.

Definition sample_identity (id : UUID) (reg : string) (aliases : list string) :=
  mkIdentity id (Some "2024-06-01") (Some reg) (Some "air one") (Some "oslo") (Some "b738")
    [] aliases 0.
Definition sample_incoming : list (string * pyval) :=
  [("event_date", PStr "2024-06-01"); ("registration", PStr "LN-OLD");
   ("operator", PStr "Air One"); ("location", PStr "Oslo"); ("aircraft_type", PStr "B738")].

Lemma decide_order_independent_witness :
  let decide := EventMatcher.decide HIGH_CONFIDENCE UNCERTAIN_LOW sample_incoming in
  let a := sample_identity 1 "lnold" [] in
  let b := sample_identity 2 "lnnew" ["lnold"; "lnnew"] in
  md_action (decide [a; b]) = ATTACH ∧ md_action (decide [a; b]) = md_action (decide [b; a])
  ∧ (candidate_event_ids (decide [a; b]) ≡ₚ candidate_event_ids (decide [b; a])).
Proof.
  intros decide a b. split; [vm_compute; reflexivity|].
  apply (decide_order_independent sample_incoming [a; b] [b; a]). constructor.
Defined.

(** A historical registration can attach. When date, operator, location and type
    all match, a candidate whose registration only matches a historical alias scores
    0.775 and is attached without review, although entities.py and event_matching.py
    say aliases stay in the review band. *)
Theorem alias_attaches :
  let b := sample_identity 2 "lnnew" ["lnold"; "lnnew"] in
  let d := EventMatcher.decide HIGH_CONFIDENCE UNCERTAIN_LOW sample_incoming [b] in
  md_action d = ATTACH ∧ md_candidate d = Some 2%N
  ∧ "registration_alias" ∈ md_matched_fields d ∧ "registration" ∉ md_matched_fields d
  ∧ f_eqb (md_score d) (lit 775 (-3)) = true.
Proof.
  cbv zeta. split_and!; try (vm_compute; reflexivity); vm_compute; set_solver.
Qed.
