(* ===== verification/Conflicts.v ===== *)
(** Conflict detection: value normalisation, the detector, and the choice of the
    authoritative resolved conflict
    (src/src/atlas/domain/services/conflict_detector.py, conflict_utils.py). *)
From S2P Require Import Prelude Text PyFloat PyVal Entities Store.
Open Scope string_scope.
Open Scope list_scope.
Open Scope Z_scope.

(** conflict_detector._coerce_numeric *)
Definition coerce_numeric (value : string) : pyval :=
  let stripped := str_strip value in
  let as_float := match py_float stripped with
                  | Some f => PFloat f
                  | None => PStr value
                  end in
  match py_int stripped with
  | Some as_int =>
      if bool_decide (int_str as_int = stripped)
         && (bool_decide (stripped = "0") || negb (str_startswith "0" stripped))
      then PInt as_int else as_float
  | None => as_float
  end.

(** conflict_detector.normalize_value *)
Fixpoint normalize_value (value : pyval) : pyval :=
  match value with
  | PNone => PNone
  | PBool b => PTuple [PStr "__bool__"; PBool b]
  | PStr s => coerce_numeric (collapse_lower s)
  | PInt _ | PFloat _ => value
  | PDict d => PDict (sort_items (map (λ kv, (kv.1, normalize_value kv.2)) d))
  | PList l => PList (map normalize_value l)
  | _ => value
  end.

(** conflict_detector._make_hashable *)
Fixpoint make_hashable (value : pyval) : pyval :=
  match value with
  | PDict d => PTuple (map (λ kv, PTuple [PStr kv.1; kv.2])
                         (sort_items (map (λ kv, (kv.1, make_hashable kv.2)) d)))
  | PList l => PTuple (map make_hashable l)
  | _ => value
  end.

(** The member a claim contributes to the set of distinct values. *)
Definition value_key (c : Claim) : pyval := make_hashable (normalize_value (c_field_value c)).

(** conflict_detector.unique_normalised_values *)
Definition unique_normalised_values (claims : list Claim) : list pyval :=
  py_set (map value_key claims).

Module ConflictDetector.
Definition key (c : Claim) : UUID * string := (c_event_id c, c_field_name c).

(** One iteration of the loop of [detect]: does this group conflict? *)
Definition conflicting (require_multiple_sources : bool) (field_claims : list Claim) : bool :=
  if bool_decide (length (unique_normalised_values field_claims) ≤ 1)%nat then false
  else if require_multiple_sources
          && bool_decide (length (dict_fromkeys (map c_source_id field_claims)) < 2)%nat
  then false
  else true.

Definition groups (claims : list Claim) : list ((UUID * string) * list Claim) :=
  group_by key (filter (λ c, is_active c = true) claims).

(** The (event, field) keys in conflict, each with the ids of its claims. *)
Definition potential (require_multiple_sources : bool) (claims : list Claim)
    : list ((UUID * string) * list UUID) :=
  map (λ g, (g.1, c_id <$> g.2))
    (filter (λ g, conflicting require_multiple_sources g.2 = true) (groups claims)).

Definition new_conflict (id : UUID) (t_created t_updated : datetime)
    (g : (UUID * string) * list UUID) : ClaimConflict :=
  mkConflict id g.1.1 g.1.2 OPEN 1 INITIAL None None None None t_created t_updated g.2.

(** ConflictDetector.detect *)
Definition detect (require_multiple_sources : bool) (claims : list Claim)
    : M (list ClaimConflict) :=
  map_m (λ g, id ← uuid4; t1 ← utc_now; t2 ← utc_now; mret (new_conflict id t1 t2 g))
    (potential require_multiple_sources claims).
End ConflictDetector.

(** conflict_utils.latest_resolved_conflicts_by_field *)
Definition version_after (c existing : ClaimConflict) : bool :=
  (cf_version existing <? cf_version c)
  || ((cf_version existing =? cf_version c) && (cf_updated_at existing <? cf_updated_at c)).

Definition latest_resolved_conflicts_by_field (conflicts : list ClaimConflict)
    : list (string * ClaimConflict) :=
  foldl (λ resolved c,
    if bool_decide (cf_status c ≠ RESOLVED) then resolved
    else match dict_get (cf_field_name c) resolved with
         | None => dict_set (cf_field_name c) c resolved
         | Some existing => if version_after c existing
                            then dict_set (cf_field_name c) c resolved else resolved
         end) [] conflicts.

(** ** Facts *)

(** String values are compared by their lower-cased words. *)
Lemma normalize_str_words s t :
  map (map lower_char) (split_ws [] (chars s)) = map (map lower_char) (split_ws [] (chars t)) →
  normalize_value (PStr s) = normalize_value (PStr t).
Proof. intros H. simpl. by rewrite (collapse_lower_words s), (collapse_lower_words t), H. Qed.

Lemma fromkeys_two {A} `{EqDecision A} (l : list A) :
  (2 ≤ length (dict_fromkeys l))%nat ↔ ∃ x y, x ∈ l ∧ y ∈ l ∧ x ≠ y.
Proof.
  pose proof (NoDup_fromkeys l) as Hnd.
  split.
  - intros H. destruct (dict_fromkeys l) as [|x [|y r]] eqn:E; simpl in H; try lia.
    exists x, y. rewrite <- !(elem_of_fromkeys l), E. split_and!.
    + by left.
    + right. by left.
    + inversion Hnd as [|?? Hn]; subst. intros ->. apply Hn. by left.
  - intros (x & y & Hx & Hy & Hne).
    rewrite <- (elem_of_fromkeys l) in Hx, Hy.
    destruct (dict_fromkeys l) as [|a [|b r]]; simpl; [|
      apply list_elem_of_singleton in Hx, Hy; congruence|lia].
    by apply elem_of_nil in Hx.
Qed.

(** Some later claim of the group carries another value than its first claim. *)
Definition values_differ (cs : list Claim) : Prop :=
  ∃ c0 cs' c, cs = c0 :: cs' ∧ c ∈ cs' ∧ py_eq (value_key c) (value_key c0) = false.

Lemma unique_values_many cs :
  (1 < length (unique_normalised_values cs))%nat ↔ values_differ cs.
Proof.
  unfold unique_normalised_values, values_differ. destruct cs as [|c0 cs].
  - simpl. split; [lia|]. intros (?&?&?&?&_). done.
  - rewrite map_cons, py_set_many. setoid_rewrite list_elem_of_In. setoid_rewrite in_map_iff.
    split.
    + intros (y & (c & <- & Hc) & E). by exists c0, cs, c.
    + intros (c0' & cs' & c & [= <- <-] & Hc & E). exists (value_key c). eauto.
Qed.

Lemma unique_values_perm cs1 cs2 :
  cs1 ≡ₚ cs2 →
  bool_decide (1 < length (unique_normalised_values cs1))%nat
  = bool_decide (1 < length (unique_normalised_values cs2))%nat.
Proof.
  intros Hp. apply bool_decide_ext. split; apply py_set_many_perm; by rewrite Hp.
Qed.

Definition sources_differ (cs : list Claim) : Prop :=
  ∃ c1 c2, c1 ∈ cs ∧ c2 ∈ cs ∧ c_source_id c1 ≠ c_source_id c2.

Lemma conflicting_spec req cs :
  ConflictDetector.conflicting req cs = true ↔
  values_differ cs ∧ (req = true → sources_differ cs).
Proof.
  unfold ConflictDetector.conflicting. rewrite <- unique_values_many.
  assert (Hs : sources_differ cs ↔ (2 ≤ length (dict_fromkeys (map c_source_id cs)))%nat).
  { rewrite fromkeys_two. unfold sources_differ. setoid_rewrite list_elem_of_In.
    setoid_rewrite in_map_iff. split.
    - intros (c1 & c2 & H1 & H2 & Hne). exists (c_source_id c1), (c_source_id c2). eauto 10.
    - intros (x & y & (c1 & <- & H1) & (c2 & <- & H2) & Hne). eauto. }
  rewrite Hs. case_bool_decide; [split; [done|]; intros [? _]; lia|].
  destruct req; simpl; [|split; [split; [lia|done]|done]].
  case_bool_decide; split; try done.
  - intros [_ Hr]. specialize (Hr eq_refl). lia.
  - intros _. split; [lia|]. intros _. lia.
Qed.

(** ** Properties *)

(** The active claims of an event for a field, in input order. *)
Definition pair_claims (claims : list Claim) (ev : UUID) (fld : string) : list Claim :=
  filter (λ c, c_event_id c = ev ∧ c_field_name c = fld ∧ c_claim_type c ≠ SUPERSEDED) claims.
(** They carry two distinct values, asserted by two sources where that is required. *)
Definition in_conflict (req : bool) (cs : list Claim) : Prop :=
  values_differ cs ∧ (req = true → sources_differ cs).

Lemma potential_spec req claims ev fld ids :
  ((ev, fld), ids) ∈ ConflictDetector.potential req claims ↔
  ids = c_id <$> pair_claims claims ev fld ∧ in_conflict req (pair_claims claims ev fld).
Proof.
  unfold ConflictDetector.potential, in_conflict.
  assert (Hf : filter (λ c, ConflictDetector.key c = (ev, fld))
                 (filter (λ c, is_active c = true) claims) = pair_claims claims ev fld).
  { rewrite list_filter_filter. apply list_filter_iff. intros c.
    rewrite is_active_spec. unfold ConflictDetector.key. rewrite pair_eq. tauto. }
  change (map ?f ?l) with (f <$> l). rewrite list_elem_of_fmap. rewrite <- conflicting_spec.
  rewrite <- Hf. split.
  - intros ([k cs] & E & Hin). simpl in E. injection E as <- ->.
    apply list_elem_of_filter in Hin as [Hc Hin].
    apply elem_of_group_by in Hin as [-> _]. done.
  - intros [-> Hc]. eexists ((ev, fld), _). split; [reflexivity|].
    apply list_elem_of_filter. split; [exact Hc|].
    apply elem_of_group_by. split; [done|]. intros E.
    by pose proof (eq_trans (f_equal (ConflictDetector.conflicting req) (eq_sym E)) Hc).
Qed.
Lemma NoDup_potential req claims : NoDup (ConflictDetector.potential req claims).*1.
Proof.
  unfold ConflictDetector.potential. change (map ?f ?l) with (f <$> l).
  rewrite <- list_fmap_compose. apply NoDup_fst_filter, group_by_NoDup.
Qed.

(** The tables and the transaction are as they were. *)
Definition nothing_written (w w' : World) : Prop :=
  w_db w' = w_db w ∧ w_committed w' = w_committed w ∧ w_env w' = w_env w.

(** The conflicts made of the groups, one for each and under identifiers of its own. *)
Lemma detect_runs req claims w : ∃ found w', ConflictDetector.detect req claims w = (Ok found, w')
  ∧ nothing_written w w' ∧ NoDup (cf_id <$> found)
  ∧ Forall2 (λ g c, (w_uuid w ≤ cf_id c)%N ∧ ∃ t1 t2, c = ConflictDetector.new_conflict (cf_id c) t1 t2 g)
      (ConflictDetector.potential req claims) found.
Proof.
  unfold ConflictDetector.detect. generalize (ConflictDetector.potential req claims).
  intros gs. revert w. induction gs as [|g gs IH]; intros w.
  { exists [], w. by repeat constructor. }
  destruct (IH (mkWorld (w_db w) (w_committed w) (w_env w) (w_now w + 1 + 1) (w_uuid w + 1)))
    as (found & w' & E & (Hd & Hc & He) & Hnd & HF). simpl in Hd, Hc, He, HF.
  eexists (ConflictDetector.new_conflict (w_uuid w) (w_now w) (w_now w + 1) g :: found), w'.
  split; [|split; [done|split]].
  - simpl. unfold mbind, M_bind, uuid4, utc_now in *. simpl in *. by rewrite E.
  - simpl. apply NoDup_cons. split; [|done].
    intros (c & Ec & [i Hi]%list_elem_of_lookup)%list_elem_of_fmap.
    destruct (Forall2_lookup_r _ _ _ _ _ HF Hi) as (g' & _ & Hle & _). simpl in *. lia.
  - constructor; [by split; [simpl; lia|eexists _, _]|]. eapply Forall2_impl; [exact HF|].
    intros g' c [Hle Hc']. split; [lia|done].
Qed.

Lemma new_conflict_fields c id t1 t2 g : c = ConflictDetector.new_conflict id t1 t2 g →
  cf_event_id c = g.1.1 ∧ cf_field_name c = g.1.2 ∧ cf_status c = OPEN ∧ cf_version c = 1
  ∧ cf_winning_claim_id c = None ∧ cf_claim_ids c = g.2.
Proof. by intros ->. Qed.

(** C1: [ConflictDetector.detect] always returns and writes nothing.  Of every (event,
    field) pair it reports at most one conflict, and it reports one exactly when the
    active claims for the pair carry at least two distinct normalised values, asserted
    (under the default policy) by at least two sources.  The conflict is new -- an
    identifier of its own, OPEN, version 1, without a resolution -- and lists every
    active claim of the pair, in input order, and no other claim. *)
Theorem detect_sound_complete (req : bool) (claims : list Claim) (w : World) :
  ∃ found w', ConflictDetector.detect req claims w = (Ok found, w') ∧ nothing_written w w'
  ∧ NoDup (cf_id <$> found) ∧ NoDup ((λ c, (cf_event_id c, cf_field_name c)) <$> found)
  ∧ (∀ c, c ∈ found → (w_uuid w ≤ cf_id c)%N ∧ cf_status c = OPEN ∧ cf_version c = 1
       ∧ cf_winning_claim_id c = None
       ∧ cf_claim_ids c = c_id <$> pair_claims claims (cf_event_id c) (cf_field_name c)
       ∧ in_conflict req (pair_claims claims (cf_event_id c) (cf_field_name c)))
  ∧ ∀ ev fld, in_conflict req (pair_claims claims ev fld) →
      ∃ c, c ∈ found ∧ cf_event_id c = ev ∧ cf_field_name c = fld.
Proof.
  destruct (detect_runs req claims w) as (found & w' & E & Hw & Hnd & HF).
  exists found, w'. split_and!; [done..| | |].
  - assert ((λ c, (cf_event_id c, cf_field_name c)) <$> found = (ConflictDetector.potential req claims).*1) as ->;
      [|apply NoDup_potential].
    clear -HF. induction HF as [|[[ev fld] ids] c gs cs (_ & t1 & t2 & Hc) _ IH]; [done|].
    cbn [fmap list_fmap]. apply new_conflict_fields in Hc as (-> & -> & _). by f_equal.
  - intros c [i Hi]%list_elem_of_lookup.
    destruct (Forall2_lookup_r _ _ _ _ _ HF Hi) as ([[ev fld] ids] & Hg & Hle & t1 & t2 & Hc).
    apply list_elem_of_lookup_2, potential_spec in Hg as [-> Hg].
    apply new_conflict_fields in Hc as (-> & -> & -> & -> & -> & ->). by split_and!.
  - intros ev fld Hc.
    assert (((ev, fld), c_id <$> pair_claims claims ev fld) ∈ ConflictDetector.potential req claims) as Hin
      by by apply potential_spec.
    apply list_elem_of_lookup in Hin as [i Hi].
    destruct (Forall2_lookup_l _ _ _ _ _ HF Hi) as (c & Hl & _ & t1 & t2 & Ec).
    apply list_elem_of_lookup_2 in Hl. apply new_conflict_fields in Ec as (? & ? & _). by exists c.
Qed.

(** Version order on conflicts, the one [latest_resolved_conflicts_by_field] maximises. *)
Lemma version_after_trans_false c1 c2 c3 :
  version_after c1 c2 = false → version_after c2 c3 = false → version_after c1 c3 = false.
Proof.
  unfold version_after. rewrite !orb_false_iff, !andb_false_iff, !Z.ltb_ge, !Z.eqb_neq. lia.
Qed.

Lemma version_after_asym c1 c2 : version_after c1 c2 = true → version_after c2 c1 = false.
Proof.
  unfold version_after.
  rewrite orb_true_iff, orb_false_iff, andb_true_iff, andb_false_iff, !Z.ltb_lt, !Z.ltb_ge,
    !Z.eqb_eq, !Z.eqb_neq. lia.
Qed.

(** What the map holds for a field: a RESOLVED conflict for it that no other one
    comes after, or nothing when there is none. *)
Definition latest_for (conflicts : list ClaimConflict) (f : string) (o : option ClaimConflict)
    : Prop :=
  match o with
  | None => ∀ c, c ∈ conflicts → cf_field_name c = f → cf_status c ≠ RESOLVED
  | Some c => c ∈ conflicts ∧ cf_field_name c = f ∧ cf_status c = RESOLVED ∧
      ∀ c', c' ∈ conflicts → cf_field_name c' = f → cf_status c' = RESOLVED →
            version_after c' c = false
  end.

Lemma version_after_irrefl c : version_after c c = false.
Proof. unfold version_after. by rewrite !Z.ltb_irrefl, andb_false_r. Qed.

Lemma latest_for_snoc l c f o :
  latest_for l f o →
  latest_for (l ++ [c]) f
    (if bool_decide (cf_status c ≠ RESOLVED) then o
     else if bool_decide (cf_field_name c = f)
          then match o with
               | None => Some c
               | Some e => if version_after c e then Some c else o
               end
          else o).
Proof.
  intros Ho.
  case_bool_decide as Hs.
  - destruct o as [e|]; simpl in *.
    + destruct Ho as (? & ? & ? & Hm). split_and!; [apply elem_of_app; auto|done|done|].
      intro_snoc x Hx; auto. intros _ Hc. by destruct (Hs Hc).
    + intro_snoc x Hx; auto.
  - case_bool_decide as Hf.
    + assert (Hc : c ∈ l ++ [c]) by (apply elem_of_app; right; by apply list_elem_of_singleton).
      destruct o as [e|]; simpl in Ho.
      * destruct Ho as (He & Hfe & Hse & Hm). destruct (version_after c e) eqn:Ev; simpl.
        -- split_and!; [done|done|done|]. intro_snoc x Hx; [|intros; apply version_after_irrefl].
           intros Hfx Hsx. eapply version_after_trans_false; [by apply Hm|].
           by apply version_after_asym.
        -- split_and!; [apply elem_of_app; auto|done|done|]. intro_snoc x Hx; auto.
      * simpl. split_and!; [done|done|done|].
        intro_snoc x Hx; [|intros; apply version_after_irrefl].
        intros Hfx Hsx. by destruct (Ho x Hx Hfx).
    + destruct o as [e|]; simpl in *.
      * destruct Ho as (? & ? & ? & Hm). split_and!; [apply elem_of_app; auto|done|done|].
        intro_snoc x Hx; [auto|]. by intros.
      * intro_snoc x Hx; [auto|]. by intros.
Qed.

Lemma latest_resolved_spec conflicts f :
  latest_for conflicts f (dict_get f (latest_resolved_conflicts_by_field conflicts)).
Proof.
  unfold latest_resolved_conflicts_by_field.
  induction conflicts as [|c l IH] using rev_ind; [intros c []%elem_of_nil|].
  rewrite foldl_app. simpl. apply (latest_for_snoc l c) in IH.
  match goal with |- context [foldl ?g [] l] => set (r := foldl g [] l) in * end.
  case_bool_decide; [done|].
  destruct (decide (cf_field_name c = f)) as [<-|Hf].
  - rewrite bool_decide_true in IH by done.
    destruct (dict_get (cf_field_name c) r) as [e|] eqn:Er; [destruct (version_after c e)|];
      rewrite ?dict_get_set, ?decide_True, ?Er by done; done.
  - rewrite bool_decide_false in IH by done.
    destruct (dict_get (cf_field_name c) r) as [e|]; [destruct (version_after c e)|];
      rewrite ?dict_get_set, ?decide_False by done; done.
Qed.
