(* ===== verification/Projection.v ===== *)
(** Projection of an event's claims: winner policy, completeness score and the
    projection builder
    (src/src/atlas/domain/services/{winner_policy,completeness,projection_builder}.py).

    The builder is proved to refine a declarative account of each field,
    [projects], and its output to be independent of the order of the claims. *)
From Stdlib Require Import SpecFloat.
From S2P Require Import Prelude Text PyFloat PyVal Entities Store Conflicts.
Open Scope string_scope.
Open Scope list_scope.
Open Scope Z_scope.

(** ** WinnerPolicy *)
Module WinnerPolicy.
Definition claim_type_rank (t : ClaimType) : Z :=
  match t with MANUAL_OVERRIDE => 3 | CONFIRMED => 2 | RAW => 1 | SUPERSEDED => 0 end.

(** (type rank, tier score, age score, id).  The age score of the code is
    [-created_at.timestamp()]; below 2^33 seconds (year 2242) the float is a
    strictly monotone image of the microseconds used here. *)
Definition sort_key (sources_by_id : gmap UUID Source) (c : Claim) : Z * Z * Z * N :=
  let tier := match sources_by_id !! c_source_id c with
              | Some s => src_reliability_tier s
              | None => 999
              end in
  (claim_type_rank (c_claim_type c), - tier, - c_created_at c, c_id c).

(** Python's [<=] on such tuples. *)
Definition key_leb (x y : Z * Z * Z * N) : bool :=
  let '(a, b, c, d) := x in
  let '(a', b', c', d') := y in
  (a <? a') || ((a =? a') && ((b <? b') || ((b =? b') && ((c <? c') || ((c =? c')
    && (d <=? d')%N))))).

Definition not_below (s : gmap UUID Source) (x y : Claim) : bool :=
  key_leb (sort_key s y) (sort_key s x).

(** [sorted(active, key=..., reverse=True)[0]] *)
Definition choose_winner (claims : list Claim) (s : gmap UUID Source) : option Claim :=
  head (py_sorted (not_below s) (filter (λ c, can_win c = true) claims)).

Lemma key_leb_total x y : key_leb x y = true ∨ key_leb y x = true.
Proof.
  destruct x as [[[a b] c] d], y as [[[a' b'] c'] d']. unfold key_leb.
  rewrite !orb_true_iff, !andb_true_iff, !orb_true_iff, !andb_true_iff, !orb_true_iff,
    !andb_true_iff, !Z.ltb_lt, !Z.eqb_eq, !N.leb_le. lia.
Qed.

Lemma key_leb_trans x y z : key_leb x y = true → key_leb y z = true → key_leb x z = true.
Proof.
  destruct x as [[[a b] c] d], y as [[[a' b'] c'] d'], z as [[[a'' b''] c''] d''].
  unfold key_leb.
  rewrite !orb_true_iff, !andb_true_iff, !orb_true_iff, !andb_true_iff, !orb_true_iff,
    !andb_true_iff, !Z.ltb_lt, !Z.eqb_eq, !N.leb_le. lia.
Qed.

Lemma key_leb_antisym x y : key_leb x y = true → key_leb y x = true → x = y.
Proof.
  destruct x as [[[a b] c] d], y as [[[a' b'] c'] d']. unfold key_leb.
  rewrite !orb_true_iff, !andb_true_iff, !orb_true_iff, !andb_true_iff, !orb_true_iff,
    !andb_true_iff, !Z.ltb_lt, !Z.eqb_eq, !N.leb_le.
  intros H1 H2. repeat f_equal; lia.
Qed.

Lemma not_below_total s x y : not_below s x y = true ∨ not_below s y x = true.
Proof. apply key_leb_total. Qed.
Lemma not_below_trans s x y z :
  not_below s x y = true → not_below s y z = true → not_below s x z = true.
Proof. unfold not_below. eauto using key_leb_trans. Qed.
Lemma not_below_same_id s x y : not_below s x y = true → not_below s y x = true → c_id x = c_id y.
Proof.
  unfold not_below. intros H1 H2. pose proof (key_leb_antisym _ _ H1 H2) as E.
  unfold sort_key in E. congruence.
Qed.

Lemma choose_winner_Some cs s w :
  choose_winner cs s = Some w →
  w ∈ cs ∧ can_win w = true ∧ ∀ c, c ∈ cs → can_win c = true → not_below s w c = true.
Proof.
  unfold choose_winner. intros E. apply head_Some in E as [l' E].
  apply py_sorted_head in E as [Hin Hmax]; [|apply not_below_total|apply not_below_trans].
  apply list_elem_of_filter in Hin as [??]. split_and!; [done|done|].
  intros c Hc Hw. apply Hmax, list_elem_of_filter. done.
Qed.

Lemma choose_winner_None cs s :
  choose_winner cs s = None ↔ ∀ c, c ∈ cs → can_win c = false.
Proof.
  unfold choose_winner. rewrite head_None, py_sorted_nil. split.
  - intros E c Hc. destruct (can_win c) eqn:Ew; [|done]. exfalso.
    apply (filter_nil_not_elem_of _ _ _ E Ew Hc).
  - intros H. destruct (filter _ cs) as [|c l] eqn:E; [done|].
    assert (Hc : c ∈ filter (λ c, can_win c = true) cs) by (rewrite E; by left).
    apply list_elem_of_filter in Hc as [Hw Hc]. rewrite H in Hw; done.
Qed.

Lemma choose_winner_perm cs cs' s :
  NoDup (c_id <$> cs) → cs ≡ₚ cs' → choose_winner cs s = choose_winner cs' s.
Proof.
  intros Hnd Hp. unfold choose_winner. f_equal.
  apply py_sorted_perm_eq; [apply not_below_total|apply not_below_trans| |by rewrite Hp].
  intros x y [_ Hx]%list_elem_of_filter [_ Hy]%list_elem_of_filter H1 H2.
  pose proof (not_below_same_id s x y H1 H2) as E.
  by apply (NoDup_fmap_inj_elem c_id cs).
Qed.
End WinnerPolicy.

(** ** CompletenessCalculator *)
Module Completeness.
Definition DEFAULT_REQUIRED_FIELDS : list string := required_field_value <$> all_required_fields.

(** Present, not None, not the sentinel and not its marker string. *)
Definition counts (fields : list (string * pyval)) (f : string) : bool :=
  match dict_get f fields with
  | None | Some PNone | Some PDisputed => false
  | Some v => negb (py_eq v (PStr DISPUTED_MARKER))
  end.

Definition present (required : list string) (fields : list (string * pyval)) : nat :=
  length (filter (λ f, counts fields f = true) required).

(** CompletenessCalculator.score *)
Definition score (required : list string) (fields : list (string * pyval)) : float :=
  match required with
  | [] => f_of_int 1
  | _ => f_div_int (Z.of_nat (present required fields)) (Pos.of_nat (length required))
  end.
End Completeness.

(** ** ProjectionBuilder *)
Module ProjectionBuilder.
(** Outcome of one iteration of the field loop: DISPUTED, a value, or no entry. *)
Inductive field_result := Disputed | Value (v : pyval) | Absent.

(** The winner of a tier whose claims agree. *)
Definition winner_value (cs : list Claim) (s : gmap UUID Source) : field_result :=
  match WinnerPolicy.choose_winner cs s with
  | Some w => Value (c_field_value w)
  | None => Absent
  end.

Definition tier_result (cs : list Claim) (s : gmap UUID Source) : field_result :=
  if bool_decide (1 < length (unique_normalised_values cs))%nat then Disputed
  else winner_value cs s.

Definition of_type (t : ClaimType) (cs : list Claim) : list Claim :=
  filter (λ c, c_claim_type c = t) cs.

(** The authority-tiered check: overrides, else confirmed claims, else raw. *)
Definition tiered_result (field_claims : list Claim) (s : gmap UUID Source) : field_result :=
  match of_type MANUAL_OVERRIDE field_claims with
  | _ :: _ => tier_result (of_type MANUAL_OVERRIDE field_claims) s
  | [] =>
      match of_type CONFIRMED field_claims with
      | _ :: _ => tier_result (of_type CONFIRMED field_claims) s
      | [] => tier_result (of_type RAW field_claims) s
      end
  end.

(** The body of the loop over [all_fields]. *)
Definition project_field (is_open : bool) (resolved : option ClaimConflict)
    (field_claims : list Claim) (s : gmap UUID Source) : field_result :=
  if is_open then Disputed else
  match resolved ≫= cf_winning_claim_id with
  | Some w =>
      match List.find (λ c, (c_id c =? w)%N) field_claims with
      | Some c => Value (c_field_value c)
      | None => tiered_result field_claims s
      end
  | None => tiered_result field_claims s
  end.

Definition claims_by_field (event_id : UUID) (claims : list Claim)
    : list (string * list Claim) :=
  group_by c_field_name (filter (λ c, c_event_id c = event_id ∧ is_active c = true) claims).

Definition open_conflict_fields (event_id : UUID) (conflicts : list ClaimConflict)
    : list string :=
  cf_field_name <$> filter (λ c, cf_event_id c = event_id ∧ cf_status c = OPEN) conflicts.

Definition all_fields (event_id : UUID) (claims : list Claim) (conflicts : list ClaimConflict)
    : list string :=
  sort_strings (dict_fromkeys
    ((claims_by_field event_id claims).*1 ++ open_conflict_fields event_id conflicts)).

Definition result_for (event_id : UUID) (claims : list Claim) (conflicts : list ClaimConflict)
    (s : gmap UUID Source) (f : string) : field_result :=
  project_field
    (bool_decide (f ∈ open_conflict_fields event_id conflicts))
    (dict_get f (latest_resolved_conflicts_by_field
                   (filter (λ c, cf_event_id c = event_id) conflicts)))
    (default [] (dict_get f (claims_by_field event_id claims))) s.

Definition is_disputed (r : field_result) : bool :=
  match r with Disputed => true | _ => false end.

Definition field_entry (f : string) (r : field_result) : option (string * pyval) :=
  match r with
  | Disputed => Some (f, PDisputed)
  | Value v => Some (f, v)
  | Absent => None
  end.

(** ProjectionBuilder.build; [now] is the default of [updated_at]. *)
Definition build (event_id : UUID) (claims : list Claim) (conflicts : list ClaimConflict)
    (s : gmap UUID Source) (version : Z) (now : datetime) : ProjectedAccidentRecord :=
  let result f := result_for event_id claims conflicts s f in
  let names := all_fields event_id claims conflicts in
  let fields := omap (λ f, field_entry f (result f)) names in
  let disputed := filter (λ f, is_disputed (result f) = true) names in
  mkProjection event_id version fields
    (Completeness.score Completeness.DEFAULT_REQUIRED_FIELDS fields) (sort_strings disputed) now.
End ProjectionBuilder.

(** ** Declarative specification of one projected field *)
Section spec.
Import ProjectionBuilder.
Context (event_id : UUID) (claims : list Claim) (conflicts : list ClaimConflict)
        (s : gmap UUID Source).

(** The active claims of the event for a field. *)
Definition live (f : string) : list Claim :=
  filter (λ c, c_field_name c = f)
    (filter (λ c, c_event_id c = event_id ∧ is_active c = true) claims).

Definition has_open (f : string) : Prop :=
  ∃ c, c ∈ conflicts ∧ cf_event_id c = event_id ∧ cf_field_name c = f ∧ cf_status c = OPEN.

(** [c] is the still-active winner of the field's latest resolved conflict. *)
Definition resolved_winner (f : string) (c : Claim) : Prop :=
  ∃ r, dict_get f (latest_resolved_conflicts_by_field
                     (filter (λ c, cf_event_id c = event_id) conflicts)) = Some r
       ∧ cf_winning_claim_id r = Some (c_id c) ∧ c ∈ live f.

(** The claims of the highest authority present. *)
Definition rank (c : Claim) : Z := WinnerPolicy.claim_type_rank (c_claim_type c).
Definition top_tier (cs : list Claim) : list Claim :=
  filter (λ c, Forall (λ c', rank c' ≤ rank c) cs) cs.

Inductive projects (f : string) : field_result → Prop :=
  | projects_open : has_open f → projects f Disputed
  | projects_resolved c :
      ¬ has_open f → resolved_winner f c → projects f (Value (c_field_value c))
  | projects_disagree :
      ¬ has_open f → (∀ c, ¬ resolved_winner f c) →
      values_differ (top_tier (live f)) → projects f Disputed
  | projects_best c :
      ¬ has_open f → (∀ c', ¬ resolved_winner f c') →
      ¬ values_differ (top_tier (live f)) → c ∈ top_tier (live f) →
      (∀ c', c' ∈ top_tier (live f) → WinnerPolicy.not_below s c c' = true) →
      projects f (Value (c_field_value c))
  | projects_absent : ¬ has_open f → live f = [] → projects f Absent.
End spec.

(** What a projected record says about a field. *)
Definition outcome (p : ProjectedAccidentRecord) (f : string) : ProjectionBuilder.field_result :=
  if bool_decide (f ∈ pj_unresolved p) then ProjectionBuilder.Disputed
  else match dict_get f (pj_fields p) with
       | Some v => ProjectionBuilder.Value v
       | None => ProjectionBuilder.Absent
       end.

(** ** Helper lemmas *)
Section builder_facts.
Import ProjectionBuilder.

Lemma is_disputed_spec r : is_disputed r = true ↔ r = Disputed.
Proof. by destruct r. Qed.

Lemma claims_by_field_get event_id claims f :
  default [] (dict_get f (claims_by_field event_id claims)) = live event_id claims f.
Proof. unfold claims_by_field, live. by rewrite group_by_get. Qed.

Lemma live_active event_id claims f c :
  c ∈ live event_id claims f →
  c ∈ claims ∧ c_event_id c = event_id ∧ is_active c = true ∧ c_field_name c = f.
Proof. unfold live. rewrite !list_elem_of_filter. tauto. Qed.

Lemma elem_of_open_fields event_id conflicts f :
  f ∈ open_conflict_fields event_id conflicts ↔ has_open event_id conflicts f.
Proof.
  unfold open_conflict_fields, has_open. rewrite list_elem_of_fmap.
  setoid_rewrite list_elem_of_filter. split.
  - intros (c & -> & (? & ?) & ?). eauto 10.
  - intros (c & ? & ? & <- & ?). eauto 10.
Qed.

Lemma elem_of_all_fields event_id claims conflicts f :
  f ∈ all_fields event_id claims conflicts ↔
  live event_id claims f ≠ [] ∨ has_open event_id conflicts f.
Proof.
  unfold all_fields. rewrite elem_of_sort_strings, elem_of_fromkeys, elem_of_app,
    elem_of_open_fields.
  rewrite <- claims_by_field_get. split; (intros [H|H]; [left|by right]).
  - destruct (dict_get f _) as [cs|] eqn:E; [|by apply dict_get_None in E].
    simpl. intros ->. by apply group_by_get_nonempty in E.
  - destruct (dict_get f _) as [cs|] eqn:E; [|done].
    apply dict_get_elem in E. apply list_elem_of_fmap. by exists (f, cs).
Qed.

Lemma NoDup_all_fields event_id claims conflicts : NoDup (all_fields event_id claims conflicts).
Proof. unfold all_fields, sort_strings. rewrite py_sorted_perm. apply NoDup_fromkeys. Qed.

(** A tier is the top one when it is inhabited and no claim ranks above it. *)
Lemma top_tier_of_type t m cs :
  m ∈ cs → c_claim_type m = t →
  (∀ c, c ∈ cs → rank c ≤ WinnerPolicy.claim_type_rank t) →
  top_tier cs = of_type t cs.
Proof.
  intros Hm Et Hmax. unfold top_tier, of_type. apply list_filter_iff'.
  intros c Hc. rewrite Forall_forall. split.
  - intros H. specialize (H m Hm). specialize (Hmax c Hc). unfold rank in *. rewrite Et in H.
    by destruct (c_claim_type c), t.
  - intros E c' Hc'. specialize (Hmax c' Hc'). unfold rank in *. by rewrite E.
Qed.

Lemma of_type_nil t cs : of_type t cs = [] → ∀ c, c ∈ cs → c_claim_type c ≠ t.
Proof. intros E c Hc Ht. by apply (filter_nil_not_elem_of _ _ _ E Ht). Qed.

Lemma of_type_cons t cs m l : of_type t cs = m :: l → m ∈ cs ∧ c_claim_type m = t.
Proof.
  intros E. assert (Hm : m ∈ of_type t cs) by (rewrite E; by left).
  by apply list_elem_of_filter in Hm as [??].
Qed.

(** The cascade of the code always works on the highest tier present. *)
Lemma tiered_top cs s :
  (∀ c, c ∈ cs → is_active c = true) →
  tiered_result cs s = if bool_decide (cs = []) then Absent else tier_result (top_tier cs) s.
Proof.
  intros Hact. unfold tiered_result.
  assert (Hns : ∀ c, c ∈ cs → c_claim_type c ≠ SUPERSEDED)
    by (intros c Hc; by apply is_active_spec, Hact).
  destruct (of_type MANUAL_OVERRIDE cs) as [|m l] eqn:Em; [
    destruct (of_type CONFIRMED cs) as [|m l] eqn:Ec|].
  - case_bool_decide as Hne; [by subst|].
    destruct cs as [|m cs']; [done|].
    assert (Hr : ∀ c, c ∈ m :: cs' → c_claim_type c = RAW).
    { intros c Hc. pose proof (of_type_nil _ _ Em c Hc). pose proof (of_type_nil _ _ Ec c Hc).
      pose proof (Hns c Hc). by destruct (c_claim_type c). }
    rewrite (top_tier_of_type RAW m); [done|by left|apply Hr; by left|].
    intros c Hc. unfold rank. by rewrite (Hr c Hc).
  - destruct (of_type_cons _ _ _ _ Ec) as [Hm Ht].
    rewrite bool_decide_false by (intros ->; by apply elem_of_nil in Hm).
    rewrite (top_tier_of_type CONFIRMED m) by (try done; intros c Hc;
      pose proof (of_type_nil _ _ Em c Hc); unfold rank; by destruct (c_claim_type c)).
    by rewrite Ec.
  - destruct (of_type_cons _ _ _ _ Em) as [Hm Ht].
    rewrite bool_decide_false by (intros ->; by apply elem_of_nil in Hm).
    rewrite (top_tier_of_type MANUAL_OVERRIDE m) by (try done; intros c Hc;
      unfold rank; by destruct (c_claim_type c)).
    by rewrite Em.
Qed.

Lemma top_tier_inhabited cs : cs ≠ [] → top_tier cs ≠ [].
Proof.
  intros Hne.
  assert (Hm : ∃ m, m ∈ cs ∧ ∀ c, c ∈ cs → rank c ≤ rank m).
  { induction cs as [|a cs IH]; [done|]. destruct cs as [|b cs].
    - exists a. split; [by left|]. intros c ->%list_elem_of_singleton. lia.
    - destruct IH as (m & Hm & Hmax); [done|].
      destruct (decide (rank m ≤ rank a)) as [Hle|Hgt].
      + exists a. split; [by left|]. intros c [->|Hc]%elem_of_cons; [lia|].
        specialize (Hmax c Hc). lia.
      + exists m. split; [by right|]. intros c [->|Hc]%elem_of_cons; [lia|auto]. }
  destruct Hm as (m & Hm & Hmax). intros E.
  apply (filter_nil_not_elem_of _ _ m E); [|done]. by apply Forall_forall.
Qed.
End builder_facts.

Section build_outcome.
Import ProjectionBuilder.
Context (event_id : UUID) (claims : list Claim) (conflicts : list ClaimConflict)
        (s : gmap UUID Source).

Lemma dict_get_entries (r : string → field_result) (names : list string) f :
  dict_get f (omap (λ f, field_entry f (r f)) names) =
  if bool_decide (f ∈ names) then snd <$> field_entry f (r f) else None.
Proof.
  induction names as [|n names IH]; [done|]. simpl.
  destruct (decide (f = n)) as [->|Hne].
  - rewrite bool_decide_true by by left.
    destruct (r n) eqn:Er; simpl; rewrite ?decide_True by done; try done.
    etrans; [exact IH|]. by case_bool_decide.
  - rewrite (bool_decide_ext (f ∈ n :: names) (f ∈ names))
      by (rewrite elem_of_cons; tauto).
    destruct (r n); simpl; rewrite ?decide_False by done; exact IH.
Qed.

Lemma result_for_absent f :
  f ∉ all_fields event_id claims conflicts → result_for event_id claims conflicts s f = Absent.
Proof.
  rewrite elem_of_all_fields. intros Hn.
  unfold result_for. rewrite claims_by_field_get, bool_decide_false
    by (rewrite elem_of_open_fields; tauto).
  destruct (live event_id claims f) eqn:E; [|exfalso; apply Hn; by left].
  unfold project_field. simpl. by destruct (dict_get f _ ≫= _).
Qed.

Lemma NoDup_entries (r : string → field_result) (names : list string) :
  NoDup names → NoDup (omap (λ f, field_entry f (r f)) names).*1.
Proof.
  assert (∀ (l : list string) (kv : string * pyval),
    kv ∈ omap (λ f, field_entry f (r f)) l → kv.1 ∈ l) as Hin.
  { intros l kv (f & Hf & E)%list_elem_of_omap. unfold field_entry in E. by destruct (r f); simplify_eq/=. }
  induction 1 as [|n names Hn _ IH]; [constructor|]. simpl.
  destruct (r n); simpl; [..|done]; (apply NoDup_cons; split; [|done]);
    intros (kv & -> & Hkv%Hin)%list_elem_of_fmap; done.
Qed.

Lemma dict_get_row f p :
  dict_get f (pj_fields (ProjectionRepo.to_row p)) = replace_disputed <$> dict_get f (pj_fields p).
Proof.
  unfold ProjectionRepo.to_row. simpl. induction (pj_fields p) as [|[k v] d IH]; [done|].
  simpl. by destruct (decide (f = k)).
Qed.

(** The record says about each field what the loop body computed for it. *)
Lemma build_outcome version now f :
  outcome (build event_id claims conflicts s version now) f
  = result_for event_id claims conflicts s f.
Proof.
  unfold outcome. simpl. rewrite dict_get_entries.
  rewrite (bool_decide_ext _ (f ∈ all_fields event_id claims conflicts
            ∧ is_disputed (result_for event_id claims conflicts s f) = true))
    by (rewrite elem_of_sort_strings, list_elem_of_filter; tauto).
  destruct (decide (f ∈ all_fields event_id claims conflicts)) as [Hin|Hn].
  - rewrite (bool_decide_true (f ∈ _)) by done.
    destruct (result_for event_id claims conflicts s f) eqn:E; simpl.
    + by rewrite bool_decide_true.
    + by rewrite bool_decide_false by (by intros [_ ?]).
    + by rewrite bool_decide_false by (by intros [_ ?]).
  - rewrite result_for_absent by done. rewrite !bool_decide_false by tauto. done.
Qed.

Lemma tier_result_projects f :
  ¬ has_open event_id conflicts f → (∀ c, ¬ resolved_winner event_id claims conflicts f c) →
  projects event_id claims conflicts s f (tiered_result (live event_id claims f) s).
Proof.
  intros Ho Hr. rewrite tiered_top by (intros c Hc; apply live_active in Hc; tauto).
  case_bool_decide as Hl; [by apply projects_absent|].
  unfold tier_result. case_bool_decide as Hv.
  - apply projects_disagree; [done|done|]. by apply unique_values_many.
  - rewrite unique_values_many in Hv. unfold winner_value.
    destruct (WinnerPolicy.choose_winner _ s) as [w|] eqn:Ew.
    + apply WinnerPolicy.choose_winner_Some in Ew as (Hw & _ & Hmax).
      apply projects_best; [done|done|done|done|]. intros c' Hc'. apply Hmax; [done|].
      rewrite can_win_active. apply list_elem_of_filter in Hc' as [_ Hc'].
      by apply live_active in Hc' as (_ & _ & ? & _).
    + exfalso. destruct (top_tier (live event_id claims f)) as [|c l] eqn:Et.
      { by apply top_tier_inhabited in Hl. }
      assert (Hc : c ∈ top_tier (live event_id claims f)) by (rewrite Et; by left).
      rewrite WinnerPolicy.choose_winner_None in Ew.
      rewrite Et in Hc. specialize (Ew c Hc). rewrite can_win_active in Ew.
      rewrite <- Et in Hc. apply list_elem_of_filter in Hc as [_ Hc].
      apply live_active in Hc as (_ & _ & Ha & _). congruence.
Qed.

Lemma result_for_projects f :
  projects event_id claims conflicts s f (result_for event_id claims conflicts s f).
Proof.
  unfold result_for. rewrite claims_by_field_get. unfold project_field.
  case_bool_decide as Ho; rewrite elem_of_open_fields in Ho; [by apply projects_open|].
  destruct (dict_get f _) as [r|] eqn:Er; simpl.
  - destruct (cf_winning_claim_id r) as [w|] eqn:Ew.
    + destruct (List.find _ _) as [c|] eqn:Ef.
      * apply find_some in Ef as [Hin Hid%N.eqb_eq]. apply projects_resolved; [done|].
        exists r. split_and!; [done|congruence|by apply list_elem_of_In].
      * apply tier_result_projects; [done|]. intros c (r' & Er' & Ew' & Hc).
        assert (r' = r) as -> by congruence. assert (w = c_id c) as -> by congruence.
        apply list_elem_of_In in Hc. apply (find_none _ _ Ef) in Hc.
        simpl in Hc. by rewrite N.eqb_refl in Hc.
    + apply tier_result_projects; [done|]. intros c (r' & Er' & Ew' & Hc). congruence.
  - apply tier_result_projects; [done|]. intros c (r' & Er' & _). congruence.
Qed.

(** Every projected value is the sentinel or the value of a live claim. *)
Lemma result_for_value f v :
  result_for event_id claims conflicts s f = Value v →
  ∃ c, c ∈ live event_id claims f ∧ v = c_field_value c.
Proof.
  intros E. pose proof (result_for_projects f) as Hp. rewrite E in Hp.
  inversion Hp as [|c _ (r & _ & _ & Hc)| |c _ _ _ Hc|]; subst; [by exists c|].
  exists c. split; [|done]. by apply list_elem_of_filter in Hc as [_ Hc].
Qed.

Lemma build_field_values version now kv :
  kv ∈ pj_fields (build event_id claims conflicts s version now) →
  kv.2 = PDisputed ∨ ∃ c, c ∈ claims ∧ c_event_id c = event_id ∧ is_active c = true
                          ∧ kv.2 = c_field_value c.
Proof.
  simpl. intros (f & Hf & E)%list_elem_of_omap. unfold field_entry in E.
  destruct (result_for event_id claims conflicts s f) as [|v|] eqn:Er; [| |done];
    injection E as <-; [by left|right].
  apply result_for_value in Er as (c & Hc & ->). exists c.
  by apply live_active in Hc as (? & ? & ? & _).
Qed.
End build_outcome.

(** ** Properties *)

(** C2: the projection builder implements the declarative account [projects] of
    every field: DISPUTED as soon as a conflict is open, else the value of the
    latest resolution's winner while it is still active, else DISPUTED when the
    claims of the highest authority present disagree, else the value of the best
    of them under the winner policy, and no entry when no active claim exists.
    The record holds one entry per projected field: the sentinel for a disputed
    field, which is listed as unresolved and stored as the marker string, and the
    value for any other. *)
Theorem build_refines_spec event_id claims conflicts s version now f :
  let p := ProjectionBuilder.build event_id claims conflicts s version now in
  projects event_id claims conflicts s f (outcome p f)
  ∧ pj_event_id p = event_id ∧ pj_version p = version ∧ NoDup (pj_fields p).*1
  ∧ dict_get f (pj_fields p) = match outcome p f with
                               | ProjectionBuilder.Disputed => Some PDisputed
                               | ProjectionBuilder.Value v => Some v
                               | ProjectionBuilder.Absent => None
                               end
  ∧ (f ∈ pj_unresolved p → dict_get f (pj_fields (ProjectionRepo.to_row p)) = Some (PStr "__DISPUTED__")).
Proof.
  intros p. assert (dict_get f (pj_fields p) = match outcome p f with
    | ProjectionBuilder.Disputed => Some PDisputed
    | ProjectionBuilder.Value v => Some v
    | ProjectionBuilder.Absent => None end) as Hget.
  { unfold p. rewrite build_outcome. simpl. rewrite dict_get_entries. case_bool_decide as Hin.
    - by destruct (ProjectionBuilder.result_for _ _ _ _ f).
    - by rewrite result_for_absent. }
  split; [unfold p; rewrite build_outcome; apply result_for_projects|].
  split_and!; [done|done| |done|].
  - apply NoDup_entries, NoDup_all_fields.
  - intros Hu. unfold outcome in Hget. rewrite bool_decide_true in Hget by done.
    by rewrite dict_get_row, Hget.
Qed.

Section order_independence.
Import ProjectionBuilder.
Context (event_id : UUID) (conflicts : list ClaimConflict) (s : gmap UUID Source).

Lemma live_perm claims claims' f :
  claims ≡ₚ claims' → live event_id claims f ≡ₚ live event_id claims' f.
Proof. intros Hp. unfold live. by rewrite Hp. Qed.

Lemma of_type_perm t cs cs' : cs ≡ₚ cs' → of_type t cs ≡ₚ of_type t cs'.
Proof. intros Hp. unfold of_type. by rewrite Hp. Qed.

Lemma NoDup_ids_filter (P : Claim → Prop) `{∀ c, Decision (P c)} (cs : list Claim) :
  NoDup (c_id <$> cs) → NoDup (c_id <$> filter P cs).
Proof.
  induction cs as [|c cs IH]; [done|]. rewrite fmap_cons, filter_cons, NoDup_cons.
  intros [Hn Hd]. case_decide; [|auto]. rewrite fmap_cons. constructor; [|auto].
  intros (y & E & [_ Hy]%list_elem_of_filter)%list_elem_of_fmap. apply Hn.
  apply list_elem_of_fmap. eauto.
Qed.

Lemma tier_result_perm cs cs' :
  NoDup (c_id <$> cs) → cs ≡ₚ cs' → tier_result cs s = tier_result cs' s.
Proof.
  intros Hnd Hp. unfold tier_result, winner_value.
  by rewrite (unique_values_perm cs cs'), (WinnerPolicy.choose_winner_perm cs cs').
Qed.

Lemma tiered_result_perm cs cs' :
  NoDup (c_id <$> cs) → cs ≡ₚ cs' → tiered_result cs s = tiered_result cs' s.
Proof.
  intros Hnd Hp. unfold tiered_result.
  assert (Ht : ∀ t, tier_result (of_type t cs) s = tier_result (of_type t cs') s).
  { intros t. apply tier_result_perm; [by apply NoDup_ids_filter|by apply of_type_perm]. }
  rewrite !Ht.
  pose proof (of_type_perm MANUAL_OVERRIDE _ _ Hp) as H1.
  pose proof (of_type_perm CONFIRMED _ _ Hp) as H2.
  destruct (of_type MANUAL_OVERRIDE cs), (of_type MANUAL_OVERRIDE cs');
    try done; [|by apply Permutation_nil_l in H1|by symmetry in H1; apply Permutation_nil_l in H1].
  destruct (of_type CONFIRMED cs), (of_type CONFIRMED cs');
    try done; [by apply Permutation_nil_l in H2|by symmetry in H2; apply Permutation_nil_l in H2].
Qed.

Lemma find_id_perm cs cs' w :
  NoDup (c_id <$> cs) → cs ≡ₚ cs' →
  List.find (λ c, (c_id c =? w)%N) cs = List.find (λ c, (c_id c =? w)%N) cs'.
Proof.
  intros Hnd Hp.
  destruct (List.find _ cs) as [c|] eqn:E; destruct (List.find _ cs') as [c'|] eqn:E'; [| | |done].
  - apply find_some in E as [H1 H2%N.eqb_eq], E' as [H1' H2'%N.eqb_eq].
    apply list_elem_of_In in H1, H1'. rewrite <- Hp in H1'. f_equal.
    apply (NoDup_fmap_inj_elem c_id cs); [done|done|done|congruence].
  - apply find_some in E as [H1 H2]. apply list_elem_of_In in H1. rewrite Hp in H1.
    apply list_elem_of_In in H1. by rewrite (find_none _ _ E' _ H1) in H2.
  - apply find_some in E' as [H1 H2]. apply list_elem_of_In in H1. rewrite <- Hp in H1.
    apply list_elem_of_In in H1. by rewrite (find_none _ _ E _ H1) in H2.
Qed.

Lemma result_for_perm claims claims' f :
  NoDup (c_id <$> claims) → claims ≡ₚ claims' →
  result_for event_id claims conflicts s f = result_for event_id claims' conflicts s f.
Proof.
  intros Hnd Hp. unfold result_for. rewrite !claims_by_field_get.
  assert (Hl := live_perm _ _ f Hp).
  assert (Hn : NoDup (c_id <$> live event_id claims f)) by (unfold live;
    by repeat apply NoDup_ids_filter).
  unfold project_field. case_bool_decide; [done|].
  destruct (dict_get f _ ≫= _) as [w|]; [|by apply tiered_result_perm].
  rewrite (find_id_perm _ _ w Hn Hl). destruct (List.find _ _); [done|].
  by apply tiered_result_perm.
Qed.

Lemma all_fields_perm claims claims' :
  claims ≡ₚ claims' →
  all_fields event_id claims conflicts = all_fields event_id claims' conflicts.
Proof.
  intros Hp. unfold all_fields. apply sort_strings_perm_eq.
  apply NoDup_Permutation; [apply NoDup_fromkeys|apply NoDup_fromkeys|]. intros f.
  rewrite <- (elem_of_sort_strings f (dict_fromkeys ((claims_by_field event_id claims).*1 ++ _))).
  rewrite <- (elem_of_sort_strings f (dict_fromkeys ((claims_by_field event_id claims').*1 ++ _))).
  fold (all_fields event_id claims conflicts).
  fold (all_fields event_id claims' conflicts). rewrite !elem_of_all_fields.
  pose proof (live_perm _ _ f Hp) as Hl.
  split; (intros [H|H]; [left|by right]); intros E; apply H; rewrite E in Hl;
    [by apply Permutation_nil_r in Hl|by symmetry in Hl; apply Permutation_nil_r in Hl].
Qed.
End order_independence.

(** the projection of an event is a function of the set of its claims: rows
    returned by the database in any order (no two with the same id) build the
    same record, field by field, disputes and completeness included. *)
Theorem build_order_independent event_id claims claims' conflicts s version now :
  NoDup (c_id <$> claims) → claims ≡ₚ claims' →
  ProjectionBuilder.build event_id claims conflicts s version now
  = ProjectionBuilder.build event_id claims' conflicts s version now.
Proof.
  intros Hnd Hp.
  assert (Hr := λ f, result_for_perm event_id conflicts s claims claims' f Hnd Hp).
  assert (Hn := all_fields_perm event_id conflicts claims claims' Hp).
  unfold ProjectionBuilder.build. rewrite <- Hn.
  assert (Ho : omap (λ f, ProjectionBuilder.field_entry f
                 (ProjectionBuilder.result_for event_id claims conflicts s f))
                 (ProjectionBuilder.all_fields event_id claims conflicts)
             = omap (λ f, ProjectionBuilder.field_entry f
                 (ProjectionBuilder.result_for event_id claims' conflicts s f))
                 (ProjectionBuilder.all_fields event_id claims conflicts)).
  { apply list_omap_ext, Forall2_same_length_lookup. split; [done|].
    intros i x y Hx Hy. assert (x = y) as -> by congruence. by rewrite Hr. }
  rewrite Ho. f_equal. f_equal. apply list_filter_iff. intros f. by rewrite Hr.
Qed.

(** ** Completeness of a projection *)
Section completeness.
Import Completeness.
Abbreviation R := DEFAULT_REQUIRED_FIELDS.

Lemma present_le fields : (present R fields ≤ 9)%nat.
Proof. unfold present. apply (length_filter (λ f, counts fields f = true) R). Qed.

Definition score_of (n : nat) : float := f_div_int (Z.of_nat n) 9.

Lemma score_present fields : score R fields = score_of (present R fields).
Proof. done. Qed.

Definition up_to_9 : list nat := seq 0 10.
Lemma in_up_to_9 n : (n ≤ 9)%nat → In n up_to_9.
Proof. intros H. apply in_seq. lia. Qed.

(** The ten possible scores, checked one by one. *)
Lemma score_of_checked n m : (n ≤ 9)%nat → (m ≤ 9)%nat →
  f_ltb (score_of n) (score_of m) = bool_decide (n < m)%nat
  ∧ f_leb f_zero (score_of n) = true ∧ f_leb (score_of n) (f_of_int 1) = true
  ∧ f_eqb (score_of n) (f_of_int 1) = bool_decide (n = 9)%nat.
Proof.
  intros Hn%in_up_to_9 Hm%in_up_to_9.
  assert (H : forallb (λ n, forallb (λ m,
    Bool.eqb (f_ltb (score_of n) (score_of m)) (bool_decide (n < m)%nat)
    && f_leb f_zero (score_of n) && f_leb (score_of n) (f_of_int 1)
    && Bool.eqb (f_eqb (score_of n) (f_of_int 1)) (bool_decide (n = 9)%nat))
    up_to_9) up_to_9 = true) by (vm_compute; reflexivity).
  rewrite forallb_forall in H. specialize (H n Hn). rewrite forallb_forall in H.
  specialize (H m Hm). rewrite !andb_true_iff, !Bool.eqb_true_iff in H. tauto.
Qed.

Lemma score_finite fields :
  match score R fields with S754_infinity _ | S754_nan => false | _ => true end = true.
Proof.
  rewrite score_present. pose proof (in_up_to_9 _ (present_le fields)) as Hin.
  generalize dependent (present R fields). intros n Hin. unfold up_to_9 in Hin. simpl in Hin.
  repeat (destruct Hin as [<-|Hin]; [vm_compute; reflexivity|]). done.
Qed.

Lemma present_all fields :
  present R fields = 9%nat ↔ Forall (λ f, counts fields f = true) R.
Proof.
  unfold present. rewrite Forall_forall. split.
  - intros E f Hf. destruct (counts fields f) eqn:Ec; [done|].
    pose proof (length_filter_lt (λ f, counts fields f = true) R f Hf ltac:(congruence)) as Hl.
    rewrite E in Hl. change (length R) with 9%nat in Hl. lia.
  - intros H. rewrite list_filter_all; [done|]. by apply Forall_forall.
Qed.

End completeness.

(** the completeness score of a built record orders records by how many of
    the nine required fields they hold with a settled, non-null value: it lies in
    [0, 1], is 1.0 only when every required field is settled, grows strictly with
    their number despite binary64 rounding, and a disputed field never counts. *)
Theorem completeness_of_build event_id claims conflicts s version now fields :
  let p := ProjectionBuilder.build event_id claims conflicts s version now in
  let R := Completeness.DEFAULT_REQUIRED_FIELDS in
  f_leb f_zero (pj_completeness p) = true ∧ f_leb (pj_completeness p) (f_of_int 1) = true
  ∧ (f_eqb (pj_completeness p) (f_of_int 1) = true ↔
      Forall (λ f, Completeness.counts (pj_fields p) f = true) R)
  ∧ (f_ltb (Completeness.score R fields) (pj_completeness p) = true ↔
      (Completeness.present R fields < Completeness.present R (pj_fields p))%nat)
  ∧ (∀ f, f ∈ pj_unresolved p → Completeness.counts (pj_fields p) f = false).
Proof.
  cbv zeta. set (p := ProjectionBuilder.build _ _ _ _ _ _).
  change (pj_completeness p)
    with (Completeness.score Completeness.DEFAULT_REQUIRED_FIELDS (pj_fields p)).
  rewrite !score_present.
  destruct (score_of_checked _ _ (present_le fields) (present_le (pj_fields p)))
    as (Hlt & _ & _ & _).
  destruct (score_of_checked _ _ (present_le (pj_fields p)) (present_le fields))
    as (_ & H0 & H1 & He).
  split; [done|]. split; [done|]. split; [by rewrite He, bool_decide_eq_true, present_all|].
  split; [by rewrite Hlt, bool_decide_eq_true|].
  intros f Hf. pose proof (build_outcome event_id claims conflicts s version now f) as Ho.
  fold p in Ho. unfold outcome in Ho. rewrite bool_decide_true in Ho by done.
  unfold Completeness.counts, p. simpl. rewrite dict_get_entries, <- Ho.
  by destruct (bool_decide (f ∈ _)).
Qed.

(** ** Examples and witnesses *)
Definition sample_source (id : UUID) (tier : Z) : Source := mkSource id "NTSB" EXTERNAL tier [].
Definition sample_claim (id source : UUID) (field : string) (v : pyval) (t : ClaimType) : Claim :=
  mkClaim id 1 source None field v t (Z.of_N id) None None.

(** Same name up to case and spaces, one claim of each type. *)
Definition sample_claims : list Claim :=
  [sample_claim 10 5 "operator" (PStr "Acme  Air") RAW;
   sample_claim 11 6 "operator" (PStr "ACME AIR") RAW;
   sample_claim 12 5 "fatalities_total" (PInt 3) CONFIRMED;
   sample_claim 13 6 "fatalities_total" (PInt 4) RAW;
   sample_claim 14 6 "location" (PStr "Oslo") RAW;
   sample_claim 15 5 "location" (PStr "Bergen") RAW].

Definition sample_sources : gmap UUID Source :=
  {[ 5%N := sample_source 5 2; 6%N := sample_source 6 1 ]}.

Example build_sample :
  let p := ProjectionBuilder.build 1 sample_claims [] sample_sources 1 0 in
  pj_fields p = [("fatalities_total", PInt 3); ("location", PDisputed);
                 ("operator", PStr "ACME AIR")]
  ∧ pj_unresolved p = ["location"].
Proof. vm_compute. split; reflexivity. Qed.

Lemma build_order_independent_witness :
  ProjectionBuilder.build 1 sample_claims [] sample_sources 1 0
  = ProjectionBuilder.build 1 (rev sample_claims) [] sample_sources 1 0.
Proof.
  apply build_order_independent; [|symmetry; apply Permutation_rev].
  apply NoDup_ListNoDup. vm_compute. repeat constructor; simpl; lia.
Defined.
