(* ===== verification/Reproject.v ===== *)
(** Reprojection of one event: content hash, no-op detection, version and history
    row, outbox idempotency, tombstone of a merged event
    (src/src/atlas/application/use_cases/reproject_event.py).

    [hashlib.sha256(...).hexdigest()] is the parameter [Hashlib]; every theorem
    holds for any such function, injective or not. *)
From S2P Require Import Prelude Text PyFloat PyVal Entities Store Json Logic Conflicts.
From S2P Require Import Projection.
Open Scope string_scope.
Open Scope list_scope.
Open Scope Z_scope.

Class Hashlib := sha256_hexdigest : string → string.

(** ** The use case *)
Module ReProjectEvent.
Section reproject_event.
Context `{Hashlib}.

(** _canonical_json_bytes *)
Definition canonical_json_bytes (value : pyval) (label : string) : Res string :=
  match json_dumps (replace_disputed value) with
  | Some s => Ok s
  | None => Raise (InvariantViolationError (label +:+ " must be JSON-serializable"))
  end.

Definition content_snapshot (p : ProjectedAccidentRecord) : list (string * pyval) :=
  [("fields", PDict (pj_fields p));
   ("unresolved_conflict_fields", PList (PStr <$> pj_unresolved p));
   ("completeness_score", PFloat (pj_completeness p))].

(** _projection_content_hash *)
Definition projection_content_hash (p : ProjectedAccidentRecord) : Res string :=
  match canonical_json_bytes (PDict (content_snapshot p)) "projection content" with
  | Ok s => Ok (sha256_hexdigest s)
  | Raise e => Raise e
  end.

Definition snapshot_hash (p : ProjectedAccidentRecord) : Res string :=
  match canonical_json_bytes (PDict (content_snapshot p ++ [("version", PInt (pj_version p))]))
          "projection history snapshot" with
  | Ok s => Ok (sha256_hexdigest s)
  | Raise e => Raise e
  end.

(** _changed_fields; a field a dict lacks reads as None *)
Definition changed_fields (current_proj : option ProjectedAccidentRecord)
    (p : ProjectedAccidentRecord) : list string :=
  match current_proj with
  | None => sort_strings (fst <$> pj_fields p)
  | Some cur =>
      let get f (q : ProjectedAccidentRecord) := default PNone (dict_get f (pj_fields q)) in
      filter (λ f, py_eq (get f cur) (get f p) = false)
        (sort_strings (dict_fromkeys ((fst <$> pj_fields cur) ++ (fst <$> pj_fields p))))
      ++ (if bool_decide (pj_unresolved cur = pj_unresolved p) then []
          else ["unresolved_conflict_fields"])
      ++ (if f_eqb (pj_completeness cur) (pj_completeness p) then []
          else ["completeness_score"])
  end.

(** What caused the reprojection; the three optional foreign keys. *)
Record Cause := mkCause {
  by_conflict : option UUID;
  by_ingestion_run : option UUID;
  by_outbox_event : option UUID;
}.

Definition next_version (current_proj : option ProjectedAccidentRecord) : Z :=
  match current_proj with Some p => pj_version p + 1 | None => 1 end.

Definition commit_if (b : bool) : M unit := when b commit.

(** The writing half of _persist_projection; the DTO is the dumped record,
    marker strings included. *)
Definition write_projection (projection : ProjectedAccidentRecord)
    (current_proj : option ProjectedAccidentRecord) (cause : Cause) (commit_ : bool)
    : M ProjectedAccidentRecord :=
  ProjectionRepo.upsert projection;;
  hash ← lift_res (snapshot_hash projection);
  id ← uuid4;
  created_at ← utc_now;
  ProjectionHistoryRepo.add
    (mkProjectionHistory id (pj_event_id projection) (pj_version projection)
       (by_conflict cause) (by_ingestion_run cause) (by_outbox_event cause)
       (pj_fields projection) (pj_unresolved projection) (pj_completeness projection)
       hash (changed_fields current_proj projection) created_at);;
  commit_if commit_;;
  mret (ProjectionRepo.to_row projection).

(** _persist_projection *)
Definition persist_projection (projection : ProjectedAccidentRecord)
    (current_proj : option ProjectedAccidentRecord) (cause : Cause)
    (commit_ force_history : bool) : M ProjectedAccidentRecord :=
  content_hash ← lift_res (projection_content_hash projection);
  match current_proj, force_history with
  | Some cur, false =>
      current_hash ← lift_res (projection_content_hash cur);
      if String.eqb content_hash current_hash
      then commit_if commit_;; mret (ProjectionRepo.to_row cur)
      else write_projection projection current_proj cause commit_
  | _, _ => write_projection projection current_proj cause commit_
  end.

(** _restore_projection_from_history *)
Definition restore_projection_from_history (event_id : UUID) (h : AccidentProjectionHistory)
    (commit_ : bool) : M ProjectedAccidentRecord :=
  if negb (ph_event_id h =? event_id)%N
  then raise (RuntimeError "Projection history event mismatch") else
  now ← utc_now;
  let projection := mkProjection event_id (ph_version h) (ph_fields h) (ph_completeness h)
                      (ph_unresolved h) now in
  ProjectionRepo.upsert projection;;
  commit_if commit_;;
  mret (ProjectionRepo.to_row projection).

(** The read model of a merged event. *)
Definition tombstone (event_id : UUID) (merged_into : option UUID) (version : Z)
    (now : datetime) : ProjectedAccidentRecord :=
  mkProjection event_id version
    [("is_merged", PBool true);
     ("merged_into_event_id", PStr (match merged_into with Some t => uuid_str t
                                                      | None => "None" end))]
    f_zero [] now.

Definition sources_by_id (sources : list Source) : gmap UUID Source :=
  list_to_map ((λ s, (src_id s, s)) <$> sources).

(** The rebuild at the end of [execute]. *)
Definition rebuild (event_id : UUID) (event : option AccidentEvent)
    (current_proj : option ProjectedAccidentRecord) (cause : Cause)
    (commit_ force_history : bool) : M ProjectedAccidentRecord :=
  claims ← ClaimRepo.find_active_by_event event_id;
  conflicts ← ConflictRepo.find_by_event event_id;
  if bool_decide (event = None) && bool_decide (claims = [])
  then raise (EventNotFoundError event_id) else
  let source_ids := dict_fromkeys (c_source_id <$> claims) in
  sources ← (if bool_decide (source_ids = []) then mret [] else SourceRepo.get_by_ids source_ids);
  now ← utc_now;
  persist_projection
    (ProjectionBuilder.build event_id claims conflicts (sources_by_id sources)
       (next_version current_proj) now)
    current_proj cause commit_ force_history.

Definition rebuild_tombstone (event_id : UUID) (event : AccidentEvent)
    (current_proj : option ProjectedAccidentRecord) (cause : Cause)
    (commit_ force_history : bool) : M ProjectedAccidentRecord :=
  now ← utc_now;
  persist_projection
    (tombstone event_id (ev_merged_into event) (next_version current_proj) now)
    current_proj cause commit_ force_history.

(** The outbox event was already accounted for: answer from the read model. *)
Definition answer_existing (event_id : UUID) (h : AccidentProjectionHistory)
    (current_proj : option ProjectedAccidentRecord) (commit_ : bool)
    : M ProjectedAccidentRecord :=
  match current_proj with
  | None => restore_projection_from_history event_id h commit_
  | Some p => mret (ProjectionRepo.to_row p)
  end.

Definition without_outbox (cause : Cause) : Cause :=
  mkCause (by_conflict cause) (by_ingestion_run cause) None.

Definition execute (event_id : UUID) (cause : Cause) (commit_ force_history : bool)
    : M ProjectedAccidentRecord :=
  EventRepo.lock_for_reprojection event_id;;
  event ← EventRepo.get event_id;
  current_proj ← ProjectionRepo.get event_id;
  existing ← match by_outbox_event cause with
             | Some o => ProjectionHistoryRepo.find_by_outbox_event o
             | None => mret None
             end;
  match event with
  | Some e =>
      if is_merged e then
        rebuild_tombstone event_id e current_proj
          (match existing with Some _ => without_outbox cause | None => cause end)
          commit_ force_history
      else match existing with
           | Some h => answer_existing event_id h current_proj commit_
           | None => rebuild event_id event current_proj cause commit_ force_history
           end
  | None =>
      match existing with
      | Some h => answer_existing event_id h current_proj commit_
      | None => rebuild event_id event current_proj cause commit_ force_history
      end
  end.
End reproject_event.
End ReProjectEvent.

(** ** Runs of the use case *)
Section runs.
Context `{Hashlib}.
Import ReProjectEvent.

(** The row written for a projection. *)
Definition history_of (p : ProjectedAccidentRecord) (cause : Cause) (h : AccidentProjectionHistory)
    : Prop :=
  ph_event_id h = pj_event_id p ∧ ph_version h = pj_version p
  ∧ ph_fields h = pj_fields p ∧ ph_unresolved h = pj_unresolved p
  ∧ ph_completeness h = pj_completeness p
  ∧ ph_caused_by_outbox_event_id h = by_outbox_event cause
  ∧ snapshot_hash p = Ok (ph_hash h)
  ∧ ph_caused_by_conflict_id h = by_conflict cause
  ∧ ph_caused_by_ingestion_run_id h = by_ingestion_run cause.

(** What is durable after a run that may commit at its end. *)
Definition published_if (b : bool) (w w' : World) : Prop :=
  w_committed w' = if b then w_db w' else w_committed w.

(** What [persist_projection] may have done to the tables when it returned. *)
Inductive persisted (p : ProjectedAccidentRecord) (cur : option ProjectedAccidentRecord)
    (cause : Cause) (force : bool) (db : DB) : ProjectedAccidentRecord → DB → Prop :=
  | persisted_unchanged c h :
      cur = Some c → force = false →
      projection_content_hash p = Ok h → projection_content_hash c = Ok h →
      persisted p cur cause force db (ProjectionRepo.to_row c) db
  | persisted_written h row :
      projection_content_hash p = Ok h →
      (∀ c, cur = Some c → force = false → ∃ h', projection_content_hash c = Ok h' ∧ h' ≠ h) →
      history_of p cause row →
      Forall (λ r, ProjectionHistoryRepo.clash row r = false) (db_projection_history db) →
      persisted p cur cause force db (ProjectionRepo.to_row p)
        (upd_projection_history (λ l, l ++ [ProjectionHistoryRepo.to_row row])
           (upd_projections <[pj_event_id p := ProjectionRepo.to_row p]> db)).

Lemma commit_if_quiet b w : quiet w →
  ∃ w', commit_if b w = (Ok tt, w') ∧ quiet w' ∧ w_db w' = w_db w ∧ published_if b w w'.
Proof. destruct b; simpl; eexists; (split; [reflexivity|done]). Qed.

Lemma existsb_false_Forall {A} (f : A → bool) l :
  existsb f l = false → Forall (λ x, f x = false) l.
Proof.
  induction l as [|x l IH]; simpl; [constructor|].
  intros [H1 H2]%orb_false_iff. constructor; auto.
Qed.

Lemma write_quiet p cur cause c w dto w' :
  quiet w → write_projection p cur cause c w = (Ok dto, w') →
  ∃ row, history_of p cause row
    ∧ Forall (λ r, ProjectionHistoryRepo.clash row r = false) (db_projection_history (w_db w))
    ∧ dto = ProjectionRepo.to_row p ∧ quiet w' ∧ published_if c w w'
    ∧ w_db w' = upd_projection_history (λ l, l ++ [ProjectionHistoryRepo.to_row row])
                  (upd_projections <[pj_event_id p := ProjectionRepo.to_row p]> (w_db w)).
Proof.
  destruct w as [db com env now uid]. intros Hq. unfold quiet in Hq. simpl in Hq. subst env.
  unfold write_projection, ProjectionRepo.upsert, ProjectionHistoryRepo.add, exec, stmt, mbind,
    M_bind, lift_res, uuid4, utc_now. simpl.
  destruct (snapshot_hash p) as [hash|e] eqn:Eh; simpl; [|done].
  destruct (existsb _ _) eqn:Ec; [done|].
  intros E. eexists. split; [|split; [exact (existsb_false_Forall _ _ Ec)|]].
  - by unfold history_of.
  - destruct c; simpl in E; injection E as <- <-; done.
Qed.

Lemma persist_quiet p cur cause c force w dto w' :
  quiet w → persist_projection p cur cause c force w = (Ok dto, w') →
  quiet w' ∧ persisted p cur cause force (w_db w) dto (w_db w') ∧ published_if c w w'.
Proof.
  intros Hq E. unfold persist_projection in E.
  apply bind_Ok_inv in E as (h & w1 & Eh & E). injection Eh as Eh <-.
  assert (Hw : write_projection p cur cause c w = (Ok dto, w') →
    (∀ c, cur = Some c → force = false → ∃ h', projection_content_hash c = Ok h' ∧ h' ≠ h) →
    quiet w' ∧ persisted p cur cause force (w_db w) dto (w_db w') ∧ published_if c w w').
  { intros Hrun Hne. destruct (write_quiet p cur cause c w dto w' Hq Hrun)
      as (row & Hrow & Hcl & -> & Hq2 & Hp2 & ->). split; [done|]. split; [|done]. by eapply persisted_written. }
  destruct cur as [cu|]; [|by apply Hw].
  destruct force; [by apply Hw|].
  apply bind_Ok_inv in E as (h' & w1 & Eh' & E). injection Eh' as Eh' <-.
  destruct (String.eqb_spec h h') as [->|Hne].
  - apply bind_Ok_inv in E as (u & w3 & Ec & E). injection E as <- <-.
    destruct (commit_if_quiet c w Hq) as (w4 & Ec' & Hq4 & Hd4 & Hp4).
    rewrite Ec' in Ec. injection Ec as <- <-. rewrite Hd4. split; [done|]. split; [|done].
    by eapply persisted_unchanged.
  - apply Hw; [exact E|]. intros c' [= <-] _. eauto.
Qed.
Lemma persist_noop p c h cause cm w :
  quiet w → projection_content_hash p = Ok h → projection_content_hash c = Ok h →
  ∃ w', persist_projection p (Some c) cause cm false w = (Ok (ProjectionRepo.to_row c), w')
        ∧ quiet w' ∧ w_db w' = w_db w.
Proof.
  intros Hq Hp Hc. destruct (commit_if_quiet cm w Hq) as (w' & E & Hq' & Hd & _).
  exists w'. split; [|done]. unfold persist_projection.
  eapply runs_bind; [unfold lift_res; by rewrite Hp|].
  eapply runs_bind; [unfold lift_res; by rewrite Hc|].
  rewrite String.eqb_refl. by eapply runs_bind.
Qed.

(** The content hash sees neither version nor clock, and cannot tell a record
    from the row it is stored as. *)
Lemma hash_ext p q :
  pj_fields p = pj_fields q → pj_unresolved p = pj_unresolved q →
  pj_completeness p = pj_completeness q → projection_content_hash p = projection_content_hash q.
Proof. unfold projection_content_hash, content_snapshot. by intros -> -> ->. Qed.

Lemma hash_to_row p :
  projection_content_hash (ProjectionRepo.to_row p) = projection_content_hash p.
Proof.
  unfold projection_content_hash, canonical_json_bytes.
  assert (E : replace_disputed (PDict (content_snapshot (ProjectionRepo.to_row p)))
              = replace_disputed (PDict (content_snapshot p))); [|by rewrite E].
  simpl. by rewrite replace_disputed_fields.
Qed.

Lemma to_row_idem p : ProjectionRepo.to_row (ProjectionRepo.to_row p) = ProjectionRepo.to_row p.
Proof.
  unfold ProjectionRepo.to_row. cbn [pj_fields pj_event_id pj_version pj_unresolved
    pj_completeness pj_updated_at]. by rewrite replace_disputed_fields.
Qed.

(** The record a reprojection computes from the tables. *)
Definition conflicts_of (db : DB) (event_id : UUID) : list ClaimConflict :=
  ConflictRepo.load db <$> py_sorted ConflictRepo.newest_first
    (filter (λ c, cf_event_id c = event_id) (rows (db_conflicts db))).

Definition sources_of (db : DB) (claims : list Claim) : gmap UUID Source :=
  sources_by_id (omap (λ id, db_sources db !! id) (dict_fromkeys (c_source_id <$> claims))).

Definition built (db : DB) (event_id : UUID) (version : Z) (now : datetime)
    : ProjectedAccidentRecord :=
  let claims := ClaimRepo.active_by_event event_id db in
  ProjectionBuilder.build event_id claims (conflicts_of db event_id) (sources_of db claims)
    version now.

Definition candidate (db : DB) (event_id : UUID) (version : Z) (now : datetime)
    : ProjectedAccidentRecord :=
  match db_events db !! event_id with
  | Some e => if is_merged e then tombstone event_id (ev_merged_into e) version now
              else built db event_id version now
  | None => built db event_id version now
  end.

Lemma hash_candidate db e v t v' t' :
  projection_content_hash (candidate db e v t) = projection_content_hash (candidate db e v' t').
Proof.
  unfold candidate. destruct (db_events db !! e) as [ev|]; [destruct (is_merged ev)|];
    by apply hash_ext.
Qed.

Lemma candidate_event db e v t : pj_event_id (candidate db e v t) = e.
Proof. unfold candidate. destruct (db_events db !! e) as [ev|]; [destruct (is_merged ev)|]; done. Qed.

Lemma candidate_version db e v t : pj_version (candidate db e v t) = v.
Proof. unfold candidate. destruct (db_events db !! e) as [ev|]; [destruct (is_merged ev)|]; done. Qed.

(** Storing a projection changes no input of the next one. *)
Lemma candidate_stored db f g e v t :
  candidate (upd_projection_history f (upd_projections g db)) e v t = candidate db e v t.
Proof. done. Qed.

Definition buildable (db : DB) (event_id : UUID) : Prop :=
  db_events db !! event_id ≠ None ∨ ClaimRepo.active_by_event event_id db ≠ [].

Definition outbox_rows (db : DB) (cause : Cause) : list AccidentProjectionHistory :=
  match by_outbox_event cause with
  | Some o => filter (λ h, ph_caused_by_outbox_event_id h = Some o) (db_projection_history db)
  | None => []
  end.

(** The path [execute] takes in a quiet world, as an equation. *)
Lemma rebuild_quiet e ev cur cause cm force w :
  quiet w → db_events (w_db w) !! e = ev → (∀ x, ev = Some x → is_merged x = false) →
  rebuild e ev cur cause cm force w =
  if bool_decide (ev = None) && bool_decide (ClaimRepo.active_by_event e (w_db w) = [])
  then (Raise (EventNotFoundError e), w)
  else persist_projection (candidate (w_db w) e (next_version cur) (w_now w)) cur cause cm force
         (mkWorld (w_db w) (w_committed w) (w_env w) (w_now w + 1) (w_uuid w)).
Proof.
  destruct w as [db com env now uid]. unfold quiet. simpl. intros -> Hev Hm.
  assert (Hc : candidate db e (next_version cur) now = built db e (next_version cur) now).
  { unfold candidate. rewrite Hev. destruct ev as [x|]; [by rewrite (Hm x)|done]. }
  unfold rebuild, ClaimRepo.find_active_by_event, ConflictRepo.find_by_event, query, stmt.
  rewrite Hc. unfold built, sources_of. unfold mbind, M_bind. simpl.
  destruct (_ && _); [reflexivity|].
  case_bool_decide as Hs; [rewrite Hs; reflexivity|].
  unfold SourceRepo.get_by_ids. rewrite (fromkeys_NoDup (dict_fromkeys _)) by
    apply NoDup_fromkeys. reflexivity.
Qed.

Lemma tombstone_quiet e x cur cause cm force w :
  db_events (w_db w) !! e = Some x → is_merged x = true →
  rebuild_tombstone e x cur cause cm force w =
  persist_projection (candidate (w_db w) e (next_version cur) (w_now w)) cur cause cm force
    (mkWorld (w_db w) (w_committed w) (w_env w) (w_now w + 1) (w_uuid w)).
Proof. intros Hx Hm. unfold candidate. by rewrite Hx, Hm. Qed.

Definition tick (w : World) : World :=
  mkWorld (w_db w) (w_committed w) (w_env w) (w_now w + 1) (w_uuid w).

Definition merged (db : DB) (e : UUID) : bool :=
  match db_events db !! e with Some x => is_merged x | None => false end.

(** The whole of [execute] in a quiet world. *)
Lemma execute_quiet e cause cm force w :
  quiet w →
  execute e cause cm force w =
  match scalar_one_or_none (outbox_rows (w_db w) cause) with
  | Raise x => (Raise x, w)
  | Ok existing =>
      let cur := db_projections (w_db w) !! e in
      match existing, merged (w_db w) e with
      | Some h, false => answer_existing e h cur cm w
      | _, _ =>
          if bool_decide (db_events (w_db w) !! e = None)
             && bool_decide (ClaimRepo.active_by_event e (w_db w) = [])
          then (Raise (EventNotFoundError e), w)
          else persist_projection (candidate (w_db w) e (next_version cur) (w_now w)) cur
                 (match existing with Some _ => without_outbox cause | None => cause end)
                 cm force (tick w)
      end
  end.
Proof.
  intros Hq.
  assert (Hex : ∀ f : option AccidentProjectionHistory → M ProjectedAccidentRecord,
    (existing ← match by_outbox_event cause with
                | Some o => ProjectionHistoryRepo.find_by_outbox_event o
                | None => mret None
                end; f existing) w
    = match scalar_one_or_none (outbox_rows (w_db w) cause) with
      | Raise x => (Raise x, w)
      | Ok existing => f existing w
      end).
  { intros f. unfold outbox_rows. destruct (by_outbox_event cause) as [o|]; [|done].
    unfold ProjectionHistoryRepo.find_by_outbox_event, scalar_query, stmt, mbind, M_bind.
    rewrite env_step_quiet by done.
    destruct (scalar_one_or_none _) as [a|x]; [|done]. by destruct w. }
  unfold execute.
  eapply runs_bind; [unfold EventRepo.lock_for_reprojection, exec, stmt;
                     rewrite env_step_quiet by done; reflexivity|].
  replace (set_db (w_db w) w) with w by (by destruct w).
  eapply runs_bind; [unfold EventRepo.get, query, stmt;
                     rewrite env_step_quiet by done; reflexivity|].
  replace (set_db (w_db w) w) with w by (by destruct w).
  eapply runs_bind; [unfold ProjectionRepo.get, query, stmt;
                     rewrite env_step_quiet by done; reflexivity|].
  replace (set_db (w_db w) w) with w by (by destruct w).
  rewrite Hex. destruct (scalar_one_or_none _) as [existing|x]; [|done].
  cbv zeta. unfold merged. destruct (db_events (w_db w) !! e) as [ev|] eqn:Eev.
  - destruct (is_merged ev) eqn:Em.
    + rewrite (tombstone_quiet e ev) by done. by destruct existing.
    + destruct existing; [done|]. rewrite (rebuild_quiet e (Some ev)) by (naive_solver || done).
      done.
  - destruct existing; [done|]. by rewrite (rebuild_quiet e None).
Qed.

(** The same as a relation on the tables. *)
Inductive reprojected (e : UUID) (cause : Cause) (force : bool) (db : DB)
    : ProjectedAccidentRecord → DB → Prop :=
  | rp_answered h p :
      outbox_rows db cause = [h] → merged db e = false → db_projections db !! e = Some p →
      reprojected e cause force db (ProjectionRepo.to_row p) db
  | rp_restored h now :
      outbox_rows db cause = [h] → merged db e = false → db_projections db !! e = None →
      ph_event_id h = e →
      let p := mkProjection e (ph_version h) (ph_fields h) (ph_completeness h)
                 (ph_unresolved h) now in
      reprojected e cause force db (ProjectionRepo.to_row p)
        (upd_projections <[e := ProjectionRepo.to_row p]> db)
  | rp_persisted cause' now dto db' :
      (outbox_rows db cause = [] ∧ cause' = cause
       ∨ merged db e = true ∧ (∃ h, outbox_rows db cause = [h])
         ∧ cause' = without_outbox cause) →
      buildable db e →
      persisted (candidate db e (next_version (db_projections db !! e)) now)
        (db_projections db !! e) cause' force db dto db' →
      reprojected e cause force db dto db'.

Lemma execute_reprojected e cause cm force w dto w' :
  quiet w → execute e cause cm force w = (Ok dto, w') →
  quiet w' ∧ reprojected e cause force (w_db w) dto (w_db w').
Proof.
  intros Hq. rewrite execute_quiet by done. cbv zeta.
  destruct (scalar_one_or_none _) as [existing|x] eqn:Es; [|done].
  assert (Hp : (outbox_rows (w_db w) cause = [] ∧ existing = None
                ∨ ∃ h, outbox_rows (w_db w) cause = [h] ∧ existing = Some h)).
  { destruct (outbox_rows _ _) as [|h [|]]; simplify_eq/=; eauto. }
  assert (Hrun : ∀ cause',
    (outbox_rows (w_db w) cause = [] ∧ cause' = cause
       ∨ merged (w_db w) e = true ∧ (∃ h, outbox_rows (w_db w) cause = [h])
         ∧ cause' = without_outbox cause) →
    (if bool_decide (db_events (w_db w) !! e = None)
        && bool_decide (ClaimRepo.active_by_event e (w_db w) = [])
     then (Raise (EventNotFoundError e), w)
     else persist_projection (candidate (w_db w) e
            (next_version (db_projections (w_db w) !! e)) (w_now w))
            (db_projections (w_db w) !! e) cause' cm force (tick w)) = (Ok dto, w') →
    quiet w' ∧ reprojected e cause force (w_db w) dto (w_db w')).
  { intros cause' Hc. destruct (_ && _) eqn:Eb; [done|]. intros E.
    apply persist_quiet in E as (Hq' & E & _); [|done]. split; [done|].
    eapply rp_persisted; [exact Hc| |exact E].
    apply andb_false_iff in Eb as [Eb|Eb]; apply bool_decide_eq_false in Eb; [by left|by right]. }
  destruct Hp as [[Ho ->]|(h & Ho & ->)].
  - destruct (merged _ _); apply Hrun; by left.
  - destruct (merged _ _) eqn:Em; [apply Hrun; right; eauto|].
    unfold answer_existing. destruct (db_projections _ !! e) as [p|] eqn:Ep.
    + intros [= <- <-]. split; [done|]. by eapply rp_answered.
    + unfold restore_projection_from_history.
      destruct (N.eqb_spec (ph_event_id h) e) as [He|]; [|done]. cbn [negb].
      intros E. destruct w as [db com env now uid]. unfold quiet in Hq. simpl in *. subst env.
      assert (Hg : quiet w' ∧ ∃ p, dto = ProjectionRepo.to_row p
        ∧ p = mkProjection e (ph_version h) (ph_fields h) (ph_completeness h)
                (ph_unresolved h) now
        ∧ w_db w' = upd_projections <[e := ProjectionRepo.to_row p]> db).
      { destruct cm; injection E as <- <-; split; try done; eexists; done. }
      destruct Hg as (Hq' & p & -> & -> & ->). split; [done|]. by eapply rp_restored.
Qed.
End runs.

(** ** Properties *)
Section properties.
Context `{Hashlib}.
Import ReProjectEvent.

Lemma persisted_row p cur cause force db dto db' :
  persisted p cur cause force db dto db' →
  cur = db_projections db !! pj_event_id p →
  ∃ row, db_projections db' !! pj_event_id p = Some row ∧ ProjectionRepo.to_row row = dto
         ∧ projection_content_hash row = projection_content_hash p
         ∧ is_ok (projection_content_hash p).
Proof.
  intros [c h -> Hf Hp Hc|h row Hp Hne Hrow Hcl] Hcur.
  - exists c. rewrite Hp, Hc. by split_and!.
  - exists (ProjectionRepo.to_row p). simpl. rewrite lookup_insert_eq, to_row_idem, hash_to_row, Hp.
    by split_and!.
Qed.

(** A second delivery finds at most one history row for the outbox event. *)
Lemma outbox_rows_written db p cause row g :
  history_of p cause row → outbox_rows db cause = [] →
  (length (outbox_rows (upd_projection_history (λ l, l ++ [ProjectionHistoryRepo.to_row row])
                          (upd_projections g db)) cause) ≤ 1)%nat.
Proof.
  intros (_ & _ & _ & _ & _ & Hob & _). unfold outbox_rows. simpl.
  destruct (by_outbox_event cause) as [o|]; [|simpl; lia].
  intros E. rewrite filter_app, E. simpl. rewrite filter_cons, filter_nil.
  simpl. rewrite Hob, decide_True by done. simpl; lia.
Qed.

Lemma outbox_rows_other db p cause row g :
  history_of p (without_outbox cause) row →
  outbox_rows (upd_projection_history (λ l, l ++ [ProjectionHistoryRepo.to_row row])
                 (upd_projections g db)) cause = outbox_rows db cause.
Proof.
  intros (_ & _ & _ & _ & _ & Hob & _). unfold outbox_rows. simpl.
  destruct (by_outbox_event cause) as [o|]; [|done].
  rewrite filter_app, filter_cons_False, filter_nil, app_nil_r; [done|].
  simpl. by rewrite Hob.
Qed.

(** A run from tables whose stored projection already has the current content. *)
Lemma execute_noop e cause cm w c :
  quiet w → (length (outbox_rows (w_db w) cause) ≤ 1)%nat →
  db_projections (w_db w) !! e = Some c →
  (merged (w_db w) e = true ∨ outbox_rows (w_db w) cause = [] →
   buildable (w_db w) e ∧
   projection_content_hash c = projection_content_hash (candidate (w_db w) e 0 0)
   ∧ is_ok (projection_content_hash c)) →
  ∃ w', execute e cause cm false w = (Ok (ProjectionRepo.to_row c), w') ∧ w_db w' = w_db w.
Proof.
  intros Hq Hlen Hc Hh.
  assert (Hrun : ∀ cause', merged (w_db w) e = true ∨ outbox_rows (w_db w) cause = [] →
    ∃ w', persist_projection (candidate (w_db w) e (next_version (Some c)) (w_now w)) (Some c)
            cause' cm false (tick w) = (Ok (ProjectionRepo.to_row c), w') ∧ w_db w' = w_db w).
  { intros cause' Hm. destruct (Hh Hm) as (_ & Hcc & Hok).
    destruct (projection_content_hash c) as [h|] eqn:Eh; [|done].
    destruct (persist_noop (candidate (w_db w) e (next_version (Some c)) (w_now w)) c h cause'
      cm (tick w)) as (w' & E & _ & Hd); [done|by rewrite (hash_candidate _ _ _ _ 0 0)|done|].
    by exists w'. }
  assert (Hg : merged (w_db w) e = true ∨ outbox_rows (w_db w) cause = [] →
    bool_decide (db_events (w_db w) !! e = None)
    && bool_decide (ClaimRepo.active_by_event e (w_db w) = []) = false).
  { intros Hm. destruct (Hh Hm) as (Hb & _). apply andb_false_iff.
    destruct Hb; [left|right]; by apply bool_decide_eq_false. }
  rewrite execute_quiet by done. cbv zeta. rewrite Hc.
  destruct (outbox_rows (w_db w) cause) as [|h [|]] eqn:Eo; simpl in *; [| |lia].
  - rewrite Hg by auto. destruct (merged _ _); apply Hrun; auto.
  - destruct (merged (w_db w) e) eqn:Em; [rewrite Hg by auto; apply Hrun; auto|]. by exists w.
Qed.
End properties.

(** Without [commit=True] a reprojection publishes nothing; with it, nothing
    unless it succeeds. *)
Section transactions.
Context `{Hashlib}.
Import ReProjectEvent.

Lemma execute_NoCommit e cause force : NoCommit (execute e cause false force).
Proof.
  unfold execute, rebuild_tombstone, answer_existing, rebuild, restore_projection_from_history,
    persist_projection, write_projection, commit_if, when, EventRepo.lock_for_reprojection,
    EventRepo.get, ProjectionRepo.get, ProjectionRepo.upsert, ProjectionHistoryRepo.add,
    ProjectionHistoryRepo.find_by_outbox_event, ClaimRepo.find_active_by_event,
    ConflictRepo.find_by_event, SourceRepo.get_by_ids.
  repeat nocommit_step.
Qed.

Lemma execute_CommitLast e cause cm force : CommitLast (execute e cause cm force).
Proof.
  destruct cm; [|apply NoCommit_last, execute_NoCommit].
  unfold execute, rebuild_tombstone, answer_existing, rebuild, restore_projection_from_history,
    persist_projection, write_projection, commit_if, when, EventRepo.lock_for_reprojection,
    EventRepo.get, ProjectionRepo.get, ProjectionRepo.upsert, ProjectionHistoryRepo.add,
    ProjectionHistoryRepo.find_by_outbox_event, ClaimRepo.find_active_by_event,
    ConflictRepo.find_by_event, SourceRepo.get_by_ids.
  repeat nocommit_step.
Qed.
End transactions.

(** A run not yet accounted for in the outbox, to the committed state. *)
Section unaccounted.
Context `{Hashlib}.

Lemma execute_persisted e cause cm force w dto w' :
  quiet w → outbox_rows (w_db w) cause = [] →
  ReProjectEvent.execute e cause cm force w = (Ok dto, w') →
  let cur := db_projections (w_db w) !! e in
  quiet w' ∧ persisted (candidate (w_db w) e (ReProjectEvent.next_version cur) (w_now w)) cur cause force
               (w_db w) dto (w_db w') ∧ published_if cm w w'.
Proof.
  intros Hq Ho. rewrite execute_quiet by done. rewrite Ho. simpl. destruct (_ && _); [by destruct (merged (w_db w) e)|].
  intros E. apply (persist_quiet _ _ cause cm force (tick w)); [done|]. by destruct (merged (w_db w) e).
Qed.

(** The stored row, and the rest of the tables. *)
Lemma reproject_rows e cause cm force w dto w' :
  quiet w → outbox_rows (w_db w) cause = [] →
  ReProjectEvent.execute e cause cm force w = (Ok dto, w') →
  (∃ row, db_projections (w_db w') !! e = Some row ∧ ProjectionRepo.to_row row = dto
    ∧ ReProjectEvent.projection_content_hash row
      = ReProjectEvent.projection_content_hash (candidate (w_db w) e 0 0))
  ∧ (∀ e', e' ≠ e → db_projections (w_db w') !! e' = db_projections (w_db w) !! e')
  ∧ w_db w' = upd_projection_history (λ _, db_projection_history (w_db w'))
      (upd_projections (λ _, db_projections (w_db w')) (w_db w))
  ∧ published_if cm w w'.
Proof.
  intros Hq Ho E. apply execute_persisted in E as (Hq' & Hp & Hpub); [|done..].
  rewrite (hash_candidate _ _ 0 0 (ReProjectEvent.next_version (db_projections (w_db w) !! e)) (w_now w)).
  remember (candidate (w_db w) e _ (w_now w)) as p eqn:Ep.
  assert (He : pj_event_id p = e) by (subst; apply candidate_event).
  split; [|split; [|split; [|done]]].
  - destruct (persisted_row _ _ _ _ _ _ _ Hp) as (row & H1 & H2 & H3 & _); [by rewrite He|].
    exists row. by rewrite He in H1.
  - intros e' Hne. destruct Hp; [done|]. simpl. rewrite He. by rewrite lookup_insert_ne.
  - destruct Hp; by destruct (w_db w).
Qed.

(** The stored row of [e] says what the tables now determine. *)
Definition current (db : DB) (e : UUID) : Prop :=
  ∃ row, db_projections db !! e = Some row
    ∧ ReProjectEvent.projection_content_hash row
      = ReProjectEvent.projection_content_hash (candidate db e 0 0).

(** The read model of [e], and of no other event, was brought up to date and answered. *)
Definition rebuilt (e : UUID) (db db' : DB) (dto : ProjectedAccidentRecord) : Prop :=
  current db' e ∧ (∃ row, db_projections db' !! e = Some row ∧ ProjectionRepo.to_row row = dto)
  ∧ ∀ e', e' ≠ e → db_projections db' !! e' = db_projections db !! e'.

Lemma execute_rebuilt e cause cm force w dto w' :
  quiet w → outbox_rows (w_db w) cause = [] →
  ReProjectEvent.execute e cause cm force w = (Ok dto, w') → rebuilt e (w_db w) (w_db w') dto.
Proof.
  intros Hq Ho E. apply reproject_rows in E as ((row & Hrow & Hdto & Hh) & He & Hd & _); [|done..].
  split; [|split; [by exists row|done]]. exists row. split; [done|]. by rewrite Hh, Hd.
Qed.

(** The canonical text of what a record says, and the test the reprojection makes: it
    compares the digests of the two texts. *)
Definition content_text (p : ProjectedAccidentRecord) : option string :=
  json_dumps (replace_disputed (PDict
    [("fields", PDict (pj_fields p)); ("unresolved_conflict_fields", PList (PStr <$> pj_unresolved p));
     ("completeness_score", PFloat (pj_completeness p))])).
Definition same_digest (stored : option ProjectedAccidentRecord) (p : ProjectedAccidentRecord) : Prop :=
  ∃ cur t t', stored = Some cur ∧ content_text cur = Some t ∧ content_text p = Some t'
    ∧ sha256_hexdigest t = sha256_hexdigest t'.
Definition snapshot_text (p : ProjectedAccidentRecord) : option string :=
  json_dumps (replace_disputed (PDict
    [("fields", PDict (pj_fields p)); ("unresolved_conflict_fields", PList (PStr <$> pj_unresolved p));
     ("completeness_score", PFloat (pj_completeness p)); ("version", PInt (pj_version p))])).

Lemma content_hash_text p h : ReProjectEvent.projection_content_hash p = Ok h ↔
  ∃ t, content_text p = Some t ∧ h = sha256_hexdigest t.
Proof.
  unfold ReProjectEvent.projection_content_hash, ReProjectEvent.canonical_json_bytes,
    ReProjectEvent.content_snapshot, content_text.
  destruct (json_dumps _) as [t|]; split; [|by intros (x & [= <-] & ->)|done|by intros (x & ? & _)].
  intros [= <-]. by exists t.
Qed.
Lemma snapshot_hash_text p h : ReProjectEvent.snapshot_hash p = Ok h ↔
  ∃ t, snapshot_text p = Some t ∧ h = sha256_hexdigest t.
Proof.
  unfold ReProjectEvent.snapshot_hash, ReProjectEvent.canonical_json_bytes,
    ReProjectEvent.content_snapshot, snapshot_text. cbn [app].
  destruct (json_dumps _) as [t|]; split; [|by intros (x & [= <-] & ->)|done|by intros (x & ? & _)].
  intros [= <-]. by exists t.
Qed.
End unaccounted.

(** The history row of a rewritten projection. *)
Definition recorded `{Hashlib} (p dto : ProjectedAccidentRecord) (cause : ReProjectEvent.Cause)
    (row : AccidentProjectionHistory) : Prop :=
  ph_event_id row = pj_event_id p ∧ ph_version row = pj_version p
  ∧ ph_fields row = pj_fields dto ∧ ph_unresolved row = pj_unresolved p ∧ ph_completeness row = pj_completeness p
  ∧ ph_caused_by_conflict_id row = ReProjectEvent.by_conflict cause
  ∧ ph_caused_by_ingestion_run_id row = ReProjectEvent.by_ingestion_run cause
  ∧ ph_caused_by_outbox_event_id row = ReProjectEvent.by_outbox_event cause
  ∧ ∃ t, snapshot_text p = Some t ∧ ph_hash row = sha256_hexdigest t.

(** C4: what a reprojection leaves behind, run alone and not yet accounted for in
    the outbox.  It computes the record [p] that the claims, conflicts and merge pointer
    of the event now determine, under the next version.  When a row is stored, no rewrite
    is forced and the digest of its content is the one of [p], nothing is written and the
    stored record is the answer.  In every other case [p] is stored as the row of the
    event and answered, and one history row records its version, its content with the
    digest, and the cause; no other row and no other table changes.  The result is
    committed exactly when asked for, and either way the stored row then has the content
    of [p]. *)
Theorem reproject_effect `{Hashlib} e cause cm force w dto w' :
  quiet w → outbox_rows (w_db w) cause = [] →
  ReProjectEvent.execute e cause cm force w = (Ok dto, w') →
  let db := w_db w in let db' := w_db w' in
  let stored := db_projections db !! e in
  let p := candidate db e (match stored with Some cur => pj_version cur + 1 | None => 1 end) (w_now w) in
  (force = false → same_digest stored p → db' = db ∧ ProjectionRepo.to_row <$> stored = Some dto)
  ∧ (force = true ∨ ¬ same_digest stored p →
       dto = ProjectionRepo.to_row p
       ∧ ∃ row, db' = upd_projection_history (λ l, l ++ [row]) (upd_projections <[e := dto]> db)
           ∧ recorded p dto cause row)
  ∧ (∃ row, db_projections db' !! e = Some row ∧ ProjectionRepo.to_row row = dto
       ∧ ReProjectEvent.projection_content_hash row = ReProjectEvent.projection_content_hash p)
  ∧ w_committed w' = if cm then db' else w_committed w.
Proof.
  intros Hq Ho E. cbv zeta. pose proof E as Erow. apply reproject_rows in Erow as (Hrow & _ & _ & Hpub); [|done..].
  apply execute_persisted in E as (_ & Hp & _); [|done..].
  fold (ReProjectEvent.next_version (db_projections (w_db w) !! e)).
  rewrite (hash_candidate _ _ 0 0 (ReProjectEvent.next_version (db_projections (w_db w) !! e)) (w_now w)) in Hrow.
  remember (candidate (w_db w) e _ (w_now w)) as p eqn:Ep.
  assert (He : pj_event_id p = e) by (subst; apply candidate_event).
  split; [|split; [|by split]].
  - intros -> (cur & t & t' & Es & Et & Et' & Eh). rewrite Es in Hp |- *.
    destruct Hp as [c h [= <-] _ _ _|h row Hh Hne _ _]; [done|]. exfalso.
    destruct (Hne cur eq_refl eq_refl) as (h' & Hh' & Hneq). apply Hneq.
    apply content_hash_text in Hh as (x & Ex & ->), Hh' as (x' & Ex' & ->). congruence.
  - intros Hw. destruct Hp as [c h Es Ef Hh Hh'|h row Hh _ (H1 & H2 & H3 & H4 & H5 & H6 & H7 & H8 & H9) _].
    { exfalso. destruct Hw as [?|Hw]; [congruence|]. apply Hw.
      apply content_hash_text in Hh as (x & Ex & ->), Hh' as (x' & Ex' & Eh). by exists c, x', x. }
    split; [done|]. exists (ProjectionHistoryRepo.to_row row). split; [by rewrite He|].
    apply snapshot_hash_text in H7. unfold recorded. simpl. rewrite H3. by split_and!.
Qed.

(** C5: reprojection is idempotent, the contract the outbox's at-least-once
    delivery relies on: delivering the same request a second time, alone, finds
    everything in place. It succeeds, answers the same record and writes nothing,
    whichever path the first delivery took (rebuild, no-op, tombstone of a merged
    event, answer or restoration from the outbox history). *)
Theorem reproject_idempotent `{Hashlib} e cause cm cm' w dto w1 :
  quiet w → ReProjectEvent.execute e cause cm false w = (Ok dto, w1) →
  ∃ w2, ReProjectEvent.execute e cause cm' false w1 = (Ok dto, w2) ∧ w_db w2 = w_db w1.
Proof.
  intros Hq E. apply execute_reprojected in E as [Hq1 E]; [|done].
  assert (Hgo : ∀ c, ProjectionRepo.to_row c = dto →
    (length (outbox_rows (w_db w1) cause) ≤ 1)%nat → db_projections (w_db w1) !! e = Some c →
    (merged (w_db w1) e = true ∨ outbox_rows (w_db w1) cause = [] →
     buildable (w_db w1) e ∧
     ReProjectEvent.projection_content_hash c
     = ReProjectEvent.projection_content_hash (candidate (w_db w1) e 0 0)
     ∧ is_ok (ReProjectEvent.projection_content_hash c)) →
    ∃ w2, ReProjectEvent.execute e cause cm' false w1 = (Ok dto, w2) ∧ w_db w2 = w_db w1).
  { intros c <- Hl Hc Hh. by apply execute_noop. }
  remember (w_db w1) as db1 eqn:E1.
  destruct E as [h p Ho Hm Hp|h now Ho Hm Hp He p|cause' now dto db' Hc Hb Hp].
  - apply (Hgo p); [done|by rewrite Ho|done|]. intros [?|?]; congruence.
  - apply (Hgo (ProjectionRepo.to_row p)); [apply to_row_idem| |simpl; apply lookup_insert_eq|].
    + change (length (outbox_rows (w_db w) cause) ≤ 1)%nat. by rewrite Ho.
    + intros [Hx|Hx]; [change (merged (w_db w) e = true) in Hx
                      |change (outbox_rows (w_db w) cause = []) in Hx]; congruence.
  - remember (candidate (w_db w) e _ now) as q eqn:Eq.
    assert (Heq : pj_event_id q = e) by (subst q; apply candidate_event).
    destruct (persisted_row _ _ _ _ _ _ _ Hp) as (row & H1 & H2 & H3 & H4); [by rewrite Heq|].
    apply (Hgo row); [done| |by rewrite Heq in H1|].
    + destruct Hp as [|h r _ _ Hr _].
      * destruct Hc as [[Ho _]|(_ & [h' Ho] & _)]; rewrite Ho; simpl; lia.
      * destruct Hc as [[Ho ->]|(_ & [h' Ho] & ->)]; [by eapply outbox_rows_written|].
        rewrite (outbox_rows_other _ q) by done. by rewrite Ho.
    + intros _. split; [by destruct Hp|]. rewrite H3. split; [|done]. subst q.
      destruct Hp; [|rewrite candidate_stored]; apply hash_candidate.
Qed.

(** ** Total correctness: when a reprojection cannot fail *)
Section total.
Context `{Hashlib}.
Import ReProjectEvent.

(** A value PostgreSQL can hold in a JSONB column. *)
Definition storable (v : pyval) : Prop := json_ok (replace_disputed v) = true.

Definition row_storable (p : ProjectedAccidentRecord) : Prop :=
  Forall (λ kv, storable kv.2) (pj_fields p) ∧ json_ok (PFloat (pj_completeness p)) = true.

(** No history row is ahead of, or without, the current row of its event. *)
Definition versions_ok (db : DB) : Prop :=
  ∀ r, r ∈ db_projection_history db →
  ∃ p, db_projections db !! ph_event_id r = Some p ∧ ph_version r ≤ pj_version p.

Lemma json_ok_strings (l : list string) : forallb json_ok (map replace_disputed (PStr <$> l)) = true.
Proof. induction l; [done|]. simpl. done. Qed.

Lemma json_ok_fields (l : list (string * pyval)) :
  Forall (λ kv, storable kv.2) l →
  forallb (λ kv : string * pyval, json_ok kv.2)
    (map (λ kv : string * pyval, (kv.1, replace_disputed kv.2)) l) = true.
Proof. induction 1 as [|kv l Hk _ IH]; [done|]. simpl. by rewrite Hk, IH. Qed.

Lemma canonical_total v label : storable v → is_ok (canonical_json_bytes v label).
Proof.
  intros [t Ht]%json_total. unfold canonical_json_bytes, json_dumps. by rewrite Ht.
Qed.

Lemma hash_total p :
  row_storable p → (∃ h, projection_content_hash p = Ok h) ∧ ∃ h, snapshot_hash p = Ok h.
Proof.
  intros [Hf Hc]. unfold projection_content_hash, snapshot_hash.
  assert (H1 : is_ok (canonical_json_bytes (PDict (content_snapshot p)) "projection content")).
  { apply canonical_total. unfold storable, content_snapshot. cbn -[json_ok].
    cbn [json_ok forallb snd]. rewrite json_ok_fields, json_ok_strings by done.
    cbn [json_ok] in Hc. by rewrite Hc. }
  assert (H2 : is_ok (canonical_json_bytes
    (PDict (content_snapshot p ++ [("version", PInt (pj_version p))]))
    "projection history snapshot")).
  { apply canonical_total. unfold storable, content_snapshot. cbn -[json_ok].
    cbn [json_ok forallb snd]. rewrite json_ok_fields, json_ok_strings by done.
    cbn [json_ok] in Hc. by rewrite Hc. }
  destruct (canonical_json_bytes _ _); [|done].
  destruct (canonical_json_bytes _ _); [|done]. eauto.
Qed.

Lemma candidate_storable db e v t :
  (∀ c, c ∈ ClaimRepo.active_by_event e db → storable (c_field_value c)) →
  row_storable (candidate db e v t).
Proof.
  intros Hc.
  assert (Hb : row_storable (built db e v t)).
  { split; [|apply (score_finite (pj_fields (built db e v t)))].
    apply Forall_forall. intros kv [->|(c & Hin & _ & _ & ->)]%build_field_values; [done|auto]. }
  unfold candidate. destruct (db_events db !! e) as [x|]; [|done].
  destruct (is_merged x); [|done]. split; [|done]. by repeat constructor.
Qed.

Lemma write_total p cur cause cm w :
  quiet w → row_storable p →
  (∀ r, r ∈ db_projection_history (w_db w) → ph_event_id r = pj_event_id p →
    ph_version r < pj_version p) →
  (∀ o, by_outbox_event cause = Some o → outbox_rows (w_db w) cause = []) →
  ∃ dto w', write_projection p cur cause cm w = (Ok dto, w').
Proof.
  destruct w as [db com env now uid]. unfold quiet. simpl. intros -> Hs Hv Ho.
  destruct (hash_total p Hs) as [_ [h Hh]].
  unfold write_projection, ProjectionRepo.upsert, ProjectionHistoryRepo.add, exec, stmt, mbind,
    M_bind, lift_res, uuid4, utc_now. simpl. rewrite Hh. simpl.
  destruct (existsb _ _) eqn:Ec; [|destruct cm; simpl; eauto].
  apply existsb_exists in Ec as (r & Hr%list_elem_of_In & Hc).
  unfold ProjectionHistoryRepo.clash in Hc. simpl in Hc.
  apply orb_true_iff in Hc as [[H1 H2]%bool_decide_eq_true|[[o Hs'] H1]%bool_decide_eq_true].
  - specialize (Hv r Hr (eq_sym H1)). lia.
  - specialize (Ho o Hs'). unfold outbox_rows in Ho. rewrite Hs' in Ho. simpl in Ho.
    exfalso. apply (filter_nil_not_elem_of _ _ r Ho); [congruence|done].
Qed.

Lemma persist_total p cur cause cm force w :
  quiet w → row_storable p → (∀ c, cur = Some c → row_storable c) →
  (∀ r, r ∈ db_projection_history (w_db w) → ph_event_id r = pj_event_id p →
    ph_version r < pj_version p) →
  (∀ o, by_outbox_event cause = Some o → outbox_rows (w_db w) cause = []) →
  ∃ dto w', persist_projection p cur cause cm force w = (Ok dto, w').
Proof.
  intros Hq Hp Hc Hv Ho. pose proof (write_total p cur cause cm w Hq Hp Hv Ho) as Hw.
  destruct (hash_total p Hp) as [[h Hh] _]. unfold persist_projection.
  destruct cur as [c|]; [destruct force|]; try (destruct Hw as (dto & w' & Hw);
    exists dto, w'; eapply runs_bind; [unfold lift_res; by rewrite Hh|exact Hw]).
  destruct (hash_total c (Hc c eq_refl)) as [[h' Hh'] _].
  destruct (String.eqb h h') eqn:Eh; [|destruct Hw as (dto & w' & Hw)].
  - destruct (commit_if_quiet cm w Hq) as (w' & Ew & _).
    exists (ProjectionRepo.to_row c), w'.
    eapply runs_bind; [unfold lift_res; by rewrite Hh|].
    eapply runs_bind; [unfold lift_res; by rewrite Hh'|]. rewrite Eh. by eapply runs_bind.
  - exists dto, w'. eapply runs_bind; [unfold lift_res; by rewrite Hh|].
    eapply runs_bind; [unfold lift_res; by rewrite Hh'|]. by rewrite Eh.
Qed.
End total.

Section totality.
Context `{Hashlib}.
Import ReProjectEvent.

Lemma versions_below db e r v t :
  versions_ok db → r ∈ db_projection_history db →
  ph_event_id r = pj_event_id (candidate db e v t) →
  ph_version r < next_version (db_projections db !! e).
Proof.
  intros Hv Hr. rewrite candidate_event. intros <-. destruct (Hv r Hr) as (p & -> & Hle).
  simpl. lia.
Qed.

Lemma persisted_versions db e cause force now dto db' :
  versions_ok db →
  persisted (candidate db e (next_version (db_projections db !! e)) now)
    (db_projections db !! e) cause force db dto db' →
  versions_ok db'.
Proof.
  intros Hv Hp. destruct Hp as [|h row _ _ (H1 & H2 & _) _]; [done|].
  rewrite candidate_event in *. rewrite candidate_version in H2.
  assert (Hrow : ∀ r, r ∈ db_projection_history db ++ [ProjectionHistoryRepo.to_row row] →
    ph_event_id r = e → ph_version r ≤ next_version (db_projections db !! e)).
  { intro_snoc r Hr; [|simpl; lia]. intros <-.
    destruct (Hv r Hr) as (p & -> & Hle). simpl. lia. }
  intros r Hr. simpl in Hr |- *. specialize (Hrow r Hr).
  destruct (decide (ph_event_id r = e)) as [He|Hne].
  - rewrite He, lookup_insert_eq. eexists; split; [done|]. simpl. rewrite candidate_version. by apply Hrow.
  - rewrite lookup_insert_ne by done. apply elem_of_app in Hr as [Hr|Hr]; [by apply Hv|].
    apply list_elem_of_singleton in Hr as ->. done.
Qed.

Lemma reprojected_versions db e cause force dto db' :
  versions_ok db → (∀ h, h ∈ outbox_rows db cause → ph_event_id h = e) →
  reprojected e cause force db dto db' → versions_ok db'.
Proof.
  intros Hv Ho [h p _ _ _|h now Hr _ Hp He p|cause' now d d' _ _ Hp]; [done| |].
  - exfalso. assert (Hin : h ∈ db_projection_history db).
    { unfold outbox_rows in Hr. destruct (by_outbox_event cause); [|done].
      assert (Hh : h ∈ [h]) by by left. rewrite <- Hr in Hh.
      by apply list_elem_of_filter in Hh as [_ ?]. }
    destruct (Hv h Hin) as (q & Hq & _). congruence.
  - by eapply persisted_versions.
Qed.
End totality.

(** a reprojection cannot fail, and never reuses a version number, as long as
    no history row is ahead of the current row of its event: if the event exists
    (or still has claims), its values are JSON, and a row the outbox event already
    caused is the event's only one, then the request returns a record, no unique
    index of the history table is hit, and the version discipline still holds. *)
Theorem reproject_total `{Hashlib} e cause cm force w :
  quiet w → versions_ok (w_db w) → buildable (w_db w) e →
  (∀ c, c ∈ ClaimRepo.active_by_event e (w_db w) → storable (c_field_value c)) →
  (∀ p, db_projections (w_db w) !! e = Some p → row_storable p) →
  (length (outbox_rows (w_db w) cause) ≤ 1)%nat →
  (∀ h, h ∈ outbox_rows (w_db w) cause → ph_event_id h = e) →
  ∃ dto w', ReProjectEvent.execute e cause cm force w = (Ok dto, w') ∧ versions_ok (w_db w').
Proof.
  intros Hq Hv Hb Hs Hc Hl Ho.
  assert (∃ dto w', ReProjectEvent.execute e cause cm force w = (Ok dto, w')) as (dto & w' & E).
  2: { exists dto, w'. split; [done|]. apply execute_reprojected in E as [_ E]; [|done].
       by eapply reprojected_versions. }
  assert (Hg : bool_decide (db_events (w_db w) !! e = None)
               && bool_decide (ClaimRepo.active_by_event e (w_db w) = []) = false).
  { apply andb_false_iff. destruct Hb; [left|right]; by apply bool_decide_eq_false. }
  assert (Hrun : ∀ cause',
    (∀ o, ReProjectEvent.by_outbox_event cause' = Some o → outbox_rows (w_db w) cause' = []) →
    ∃ dto w', ReProjectEvent.persist_projection
      (candidate (w_db w) e (ReProjectEvent.next_version (db_projections (w_db w) !! e)) (w_now w))
      (db_projections (w_db w) !! e) cause' cm force (tick w) = (Ok dto, w')).
  { intros cause' Hx. apply persist_total; [done|by apply candidate_storable|done| |done].
    intros r Hr Hre. rewrite candidate_version. by eapply versions_below. }
  rewrite execute_quiet by done. cbv zeta. rewrite Hg.
  destruct (outbox_rows (w_db w) cause) as [|h [|]] eqn:Eo; simpl in *; [| |lia].
  - destruct (merged (w_db w) e); by apply Hrun.
  - destruct (merged (w_db w) e); [by apply Hrun|]. unfold ReProjectEvent.answer_existing.
    destruct (db_projections (w_db w) !! e) as [p|] eqn:Ep; [by eexists _, _|].
    exfalso. assert (Hin : h ∈ db_projection_history (w_db w)).
    { unfold outbox_rows in Eo. destruct (ReProjectEvent.by_outbox_event cause); [|done].
      assert (Hh : h ∈ [h]) by by left. rewrite <- Eo in Hh.
      by apply list_elem_of_filter in Hh as [_ ?]. }
    destruct (Hv h Hin) as (q & Hq' & _). rewrite (Ho h) in Hq' by by left. congruence.
Qed.

(** the version discipline [versions_ok] is what the merge breaks. The merge deletes
    the absorbed event's current row, not its history, so the tombstone that a
    later explicit reprojection of that event writes starts again at version 1:
    if the event had ever been projected at version 1, every such request fails
    with a violation of the history's unique index, and nothing is stored. *)
Theorem tombstone_version_clash `{Hashlib} e cause cm force w ev r :
  quiet w → db_events (w_db w) !! e = Some ev → is_merged ev = true →
  db_projections (w_db w) !! e = None →
  r ∈ db_projection_history (w_db w) → ph_event_id r = e → ph_version r = 1 →
  (length (outbox_rows (w_db w) cause) ≤ 1)%nat →
  ∃ w', ReProjectEvent.execute e cause cm force w
          = (Raise (IntegrityError "uq_projection_history"), w')
        ∧ w_committed w' = w_committed w.
Proof.
  intros Hq Hev Hm Hp Hr He Hv Hl.
  assert (Hw : ∀ cause', ∃ w',
    ReProjectEvent.persist_projection (candidate (w_db w) e 1 (w_now w)) None cause' cm force
      (tick w) = (Raise (IntegrityError "uq_projection_history"), w')
    ∧ w_committed w' = w_committed w).
  { intros cause'. assert (Hst : row_storable (candidate (w_db w) e 1 (w_now w))).
    { unfold candidate. rewrite Hev, Hm. split; [|done]. by repeat constructor. }
    destruct (hash_total _ Hst) as [[h Hh] [h' Hh']].
    unfold ReProjectEvent.persist_projection.
    assert (Hx : ∃ w', ReProjectEvent.write_projection (candidate (w_db w) e 1 (w_now w)) None
      cause' cm (tick w) = (Raise (IntegrityError "uq_projection_history"), w')
      ∧ w_committed w' = w_committed w).
    { destruct w as [db com env now uid]. unfold quiet in Hq. simpl in *. subst env.
      unfold ReProjectEvent.write_projection, ProjectionRepo.upsert, ProjectionHistoryRepo.add,
        exec, stmt, mbind, M_bind, lift_res, uuid4, utc_now. simpl. rewrite Hh'. simpl.
      destruct (existsb _ _) eqn:Ec; [by eexists|]. exfalso.
      apply existsb_false_Forall in Ec. rewrite Forall_forall in Ec. specialize (Ec r Hr).
      unfold ProjectionHistoryRepo.clash in Ec. simpl in Ec.
      apply orb_false_iff in Ec as [Ec _]. apply bool_decide_eq_false in Ec. apply Ec.
      by rewrite candidate_event, candidate_version. }
    destruct Hx as (w' & Hx & Hc). exists w'. split; [|done].
    eapply runs_bind; [unfold lift_res; by rewrite Hh|exact Hx]. }
  rewrite execute_quiet by done. cbv zeta. unfold merged. rewrite Hev, Hm, Hp.
  destruct (outbox_rows (w_db w) cause) as [|x [|]]; simpl in *; [apply Hw|apply Hw|lia].
Qed.

(** ** Examples and witnesses *)
(** Any function of the text may stand for SHA-256 here. *)
Definition sample_hashlib : Hashlib := λ s, s.

Definition claims_table (cs : list Claim) : gmap UUID Claim := list_to_map ((λ c, (c_id c, c)) <$> cs).

(** Event 1 with the sample claims; event 2 merged into it, once projected. *)
Definition sample_db : DB :=
  upd_events (λ _, {[ 1%N := mkEvent 1 0 None; 2%N := mkEvent 2 0 (Some 1%N) ]})
  (upd_claims (λ _, claims_table sample_claims)
  (upd_projection_history (λ _,
     [mkProjectionHistory 70 2 1 None None None [] [] f_zero "h" [] 0]) empty_db)).

Definition sample_cause : ReProjectEvent.Cause := ReProjectEvent.mkCause None None (Some 50%N).

Definition sample_run := ReProjectEvent.execute (H := sample_hashlib) 1 sample_cause true false.

Lemma reproject_effect_witness :
  ∃ dto w', sample_run (world_of sample_db) = (Ok dto, w') ∧ w_committed w' = w_db w'
    ∧ ∃ row, w_db w' = upd_projection_history (λ l, l ++ [row]) (upd_projections <[1%N := dto]> sample_db)
        ∧ ph_version row = 1 ∧ ph_caused_by_outbox_event_id row = Some 50%N.
Proof.
  eexists _, _.
  destruct (reproject_effect (H := sample_hashlib) 1 sample_cause true false
    (world_of sample_db) _ _ eq_refl eq_refl ltac:(vm_compute; reflexivity)) as (_ & Hw & _ & Hc).
  split; [vm_compute; reflexivity|]. split; [exact Hc|].
  destruct Hw as (_ & row & Hd & _ & Hv & _ & _ & _ & _ & _ & Hob & _).
  { right. intros (cur & _ & _ & Es & _). vm_compute in Es. discriminate Es. }
  exists row. split; [exact Hd|]. split; [rewrite Hv; vm_compute; reflexivity|exact Hob].
Defined.

Lemma reproject_idempotent_witness :
  ∃ dto w1 w2, sample_run (world_of sample_db) = (Ok dto, w1)
    ∧ sample_run w1 = (Ok dto, w2) ∧ w_db w2 = w_db w1.
Proof.
  eexists _, _. 
  destruct (reproject_idempotent (H := sample_hashlib) 1 sample_cause true true
    (world_of sample_db) _ _ eq_refl ltac:(vm_compute; reflexivity)) as (w2 & E & Hd).
  exists w2. split; [vm_compute; reflexivity|]. split; [exact E|exact Hd].
Defined.

Definition sample_live_db : DB := upd_projection_history (λ _, []) sample_db.

Lemma reproject_total_witness :
  ∃ dto w', sample_run (world_of sample_live_db) = (Ok dto, w') ∧ versions_ok (w_db w').
Proof.
  apply (reproject_total (H := sample_hashlib) 1 sample_cause true false (world_of sample_live_db)).
  - reflexivity.
  - intros r []%elem_of_nil.
  - left. vm_compute. discriminate.
  - intros c [_ (k & Hc)%elem_of_rows]%list_elem_of_filter.
    apply elem_of_list_to_map_2, list_elem_of_In in Hc. vm_compute in Hc.
    repeat (destruct Hc as [[= _ <-]|Hc]; [reflexivity|]). destruct Hc.
  - intros p. vm_compute. discriminate.
  - vm_compute. lia.
  - intros h Hh. apply list_elem_of_In in Hh. destruct Hh.
Defined.

Lemma tombstone_version_clash_witness :
  ∃ w', ReProjectEvent.execute (H := sample_hashlib) 2 (ReProjectEvent.mkCause None None None)
          true false (world_of sample_db)
        = (Raise (IntegrityError "uq_projection_history"), w')
      ∧ w_committed w' = sample_db.
Proof.
  refine (tombstone_version_clash (H := sample_hashlib) 2 _ true false (world_of sample_db)
    (mkEvent 2 0 (Some 1%N))
    (mkProjectionHistory 70 2 1 None None None [] [] f_zero "h" [] 0) _ _ _ _ _ _ _ _);
    first [reflexivity|simpl; lia|left].
Defined.
