(* ===== verification/Resolution.v ===== *)
(** Curator decisions on a conflict: resolving it in favour of a linked claim or
    of a manual override, and reopening it
    (src/src/atlas/application/use_cases/{resolve_conflict,reopen_conflict,
    _conflict_modified}.py).

    The payload of [ConflictModifiedError] is reduced to the conflict's id,
    version and last reason; the reads that fill the rest are kept. *)
From S2P Require Import Prelude Text PyFloat PyVal Entities Store Json Logic Conflicts.
From S2P Require Import Projection Reproject.
Open Scope string_scope.
Open Scope list_scope.
Open Scope Z_scope.

(** ** Rows the use cases log *)

(** [ClaimHistory(id=uuid4(), ...)], its [created_at] from the clock. *)
Definition log_claim_history (claim_id event_id : UUID) (from_value to_value : option pyval)
    (from_type : option ClaimType) (to_type : ClaimType) (action reason : string)
    (modifier : ModifierType) (modifier_id : option UUID) : M unit :=
  id ← uuid4;
  created_at ← utc_now;
  ClaimHistoryRepo.add
    (mkClaimHistory id claim_id event_id from_value to_value from_type to_type action reason
       modifier modifier_id created_at).

(** [ConflictActivityLogEntry(id=uuid4(), sequence=await next_sequence(), ...)] *)
Definition log_conflict_activity (conflict_id event_id : UUID) (from_ : option ConflictStatus)
    (to_ : ConflictStatus) (modifier : ModifierType) (modifier_id : option UUID) (reason : string)
    (version : Z) (snapshot : option (list (string * pyval))) : M unit :=
  id ← uuid4;
  sequence ← ActivityRepo.next_sequence conflict_id;
  created_at ← utc_now;
  ActivityRepo.add
    (mkActivity id conflict_id event_id sequence from_ to_ modifier modifier_id reason version
       snapshot created_at).

(** [s or default] *)
Definition or_default (s default : string) : string := if str_empty s then default else s.

Definition some_nonnull (v : pyval) : option pyval := match v with PNone => None | _ => Some v end.

(** ** _conflict_modified.py *)
Module ConflictModified.
Definition from_known (conflict : ClaimConflict) : M exn :=
  _ ← ProjectionRepo.get (cf_event_id conflict);
  _ ← ActivityRepo.latest_for_conflict (cf_id conflict);
  mret (ConflictModifiedError (cf_id conflict) (cf_version conflict)
          (Some (cf_last_modified_reason conflict))).

Definition after_failed_update (conflict_id event_id : UUID) : M exn :=
  current ← ConflictRepo.get conflict_id;
  _ ← ProjectionRepo.get event_id;
  _ ← ActivityRepo.latest_for_conflict conflict_id;
  mret (ConflictModifiedError conflict_id
          (match current with Some c => cf_version c | None => -1 end)
          (cf_last_modified_reason <$> current)).
End ConflictModified.

(** ** resolve_conflict.py *)
Module ResolveConflict.
Section resolve_conflict.
Context `{Hashlib} (curator_override_source_id : UUID).

(** The new override claim, its history row and its link; the in-memory
    conflict learns of the link too. *)
Definition create_override (conflict : ClaimConflict) (value : pyval) (user : UUID)
    (reason : string) : M (UUID * ClaimConflict) :=
  override_source ← SourceRepo.get curator_override_source_id;
  match override_source with
  | None => raise (InvariantViolationError "Curator override source not found")
  | Some src =>
      claim_id ← uuid4;
      created_at ← utc_now;
      ClaimRepo.add (mkClaim claim_id (cf_event_id conflict) (src_id src) None
        (cf_field_name conflict) value MANUAL_OVERRIDE created_at (Some user) None);;
      log_claim_history claim_id (cf_event_id conflict) None (some_nonnull value) None
        MANUAL_OVERRIDE "created"
        (or_default reason "Manual override created during conflict resolution")
        USER (Some user);;
      ConflictRepo.add_claim_to_conflict (cf_id conflict) claim_id;;
      mret (claim_id, cf_add_claim_id claim_id conflict)
  end.

(** The claim must exist and still be able to win. *)
Definition check_winner (found : option Claim) (winner : UUID) : M unit :=
  match found with
  | None => raise (ClaimNotFoundError winner)
  | Some c => if can_win c then mret ()
              else raise (ClaimNotEligibleError winner (c_claim_type c))
  end.

Definition choose_existing (conflict : ClaimConflict) (claim_ids : list UUID)
    (winning_claim_id : option UUID) : M (UUID * ClaimConflict) :=
  match winning_claim_id with
  | None => raise (RuntimeError "winning_claim_id is None after input guard - this is a bug")
  | Some winner =>
      if negb (bool_decide (winner ∈ claim_ids))
      then raise (ClaimNotInConflictError winner (cf_id conflict)) else
      existing ← ClaimRepo.get winner;
      check_winner existing winner;;
      mret (winner, conflict)
  end.

(** Supersede every linked claim but the winner that can still win, and log it. *)
Definition supersede_losers (conflict_id winner user : UUID) (reason : string) : M unit :=
  all_claim_ids ← ConflictRepo.get_claim_ids_for_conflict conflict_id;
  let losing_ids := filter (λ id, id ≠ winner) (dict_fromkeys all_claim_ids) in
  if bool_decide (losing_ids = []) then mret () else
  candidates ← ClaimRepo.get_many losing_ids;
  let original_types := (λ c, (c_id c, c_claim_type c)) <$> candidates in
  let active_losing_ids := c_id <$> filter (λ c, can_win c = true) candidates in
  losing ← ClaimRepo.bulk_supersede active_losing_ids winner;
  for_each losing (λ c,
    log_claim_history (c_id c) (c_event_id c) (some_nonnull (c_field_value c)) None
      (Some (default (c_claim_type c) (dict_get (c_id c) original_types))) SUPERSEDED
      "superseded" (or_default reason "Superseded by conflict resolution") USER (Some user)).

(** The columns the UPDATE sets; the repository adds the version. *)
Definition resolved_columns (winner user : UUID) (note : option string) (now : datetime)
    (c : ClaimConflict) : ClaimConflict :=
  mkConflict (cf_id c) (cf_event_id c) (cf_field_name c) RESOLVED (cf_version c)
    USER_RESOLVED note (Some winner) (Some now) (Some user) (cf_created_at c) now
    (cf_claim_ids c).

(** From the in-memory [resolve] on. *)
Definition apply_resolution (conflict : ClaimConflict) (expected_version : Z) (manual : bool)
    (winner user : UUID) (reason : string) : M (ClaimConflict * ProjectedAccidentRecord) :=
  t_resolved ← utc_now;
  t_updated ← utc_now;
  resolved ← lift_res (cf_resolve winner user reason t_resolved t_updated conflict);
  when (negb manual) (locked ← ClaimRepo.lock_for_update winner; check_winner locked winner);;
  now ← utc_now;
  updated ← ConflictRepo.update_with_version_check (cf_id conflict) expected_version
              (resolved_columns winner user (cf_last_modified_note resolved) now);
  match updated with
  | None =>
      rollback;;
      err ← ConflictModified.after_failed_update (cf_id conflict) (cf_event_id conflict);
      rollback;;
      raise err
  | Some updated =>
      supersede_losers (cf_id conflict) winner user reason;;
      log_conflict_activity (cf_id conflict) (cf_event_id updated) (Some OPEN) RESOLVED USER
        (Some user) (or_default reason "Conflict resolved by user") (cf_version resolved)
        (Some [("winning_claim_id", PStr (uuid_str winner))]);;
      projection ← ReProjectEvent.execute (cf_event_id updated)
                     (ReProjectEvent.mkCause (Some (cf_id conflict)) None None) false false;
      commit;;
      mret (updated, projection)
  end.

(** The argument checks; the acting user. *)
Definition check_arguments (winning_claim_id : option UUID) (manual : bool)
    (current_user_id : option UUID) : M UUID :=
  if bool_decide (winning_claim_id ≠ None) && manual
  then raise (DomainValidationError
                "Provide either winning_claim_id or manual_override_value, not both")
  else if bool_decide (winning_claim_id = None) && negb manual
  then raise (DomainValidationError "Need a winner or an overridden value")
  else match current_user_id with
       | None => raise (DomainValidationError "current_user_id is required")
       | Some user => mret user
       end.

Definition execute (conflict_id : UUID) (expected_version : Z) (winning_claim_id : option UUID)
    (manual_override_value : pyval) (manual_override_provided : bool)
    (current_user_id : option UUID) (reason : string)
    : M (ClaimConflict * ProjectedAccidentRecord) :=
  let manual := manual_override_provided
                || match manual_override_value with PNone => false | _ => true end in
  user ← check_arguments winning_claim_id manual current_user_id;
  found ← ConflictRepo.get conflict_id;
  match found with
  | None => raise (ConflictNotFoundError conflict_id)
  | Some conflict =>
      if bool_decide (cf_status conflict ≠ OPEN)
      then raise (ConflictAlreadyResolvedError conflict_id) else
      if negb (cf_version conflict =? expected_version)
      then err ← ConflictModified.from_known conflict; raise err else
      claim_ids ← ConflictRepo.get_claim_ids_for_conflict conflict_id;
      '(winner, conflict) ←
        (if manual then create_override conflict manual_override_value user reason
         else choose_existing conflict claim_ids winning_claim_id);
      apply_resolution conflict expected_version manual winner user reason
  end.
End resolve_conflict.
End ResolveConflict.

(** ** reopen_conflict.py *)
Module ReopenConflict.
Section reopen_conflict.
Context `{Hashlib}.

(** Reactivate the claims of this conflict that its winner superseded. *)
Definition unsupersede_losers (conflict : ClaimConflict) : M (list Claim) :=
  match cf_winning_claim_id conflict with
  | None => mret []
  | Some winner =>
      linked ← ConflictRepo.get_claim_ids_for_conflict (cf_id conflict);
      let conflict_claim_ids := if bool_decide (linked = []) then cf_claim_ids conflict
                                else linked in
      superseded ← ClaimRepo.find_superseded_by winner;
      let ids := c_id <$> filter (λ c, c_id c ∈ conflict_claim_ids
                                       ∧ c_event_id c = cf_event_id conflict
                                       ∧ c_field_name c = cf_field_name conflict) superseded in
      if bool_decide (ids = []) then mret [] else ClaimRepo.bulk_unsupersede ids
  end.

Definition reopened_columns (note : option string) (now : datetime) (c : ClaimConflict)
    : ClaimConflict :=
  mkConflict (cf_id c) (cf_event_id c) (cf_field_name c) OPEN (cf_version c)
    USER_REOPENED note None None None (cf_created_at c) now (cf_claim_ids c).

Definition snapshot (previous_winner : option UUID) (reactivated : list Claim)
    : list (string * pyval) :=
  [("previous_winning_claim_id",
    match previous_winner with Some w => PStr (uuid_str w) | None => PNone end);
   ("reactivated_claim_ids", PList ((λ c, PStr (uuid_str (c_id c))) <$> reactivated))].

Definition execute (conflict_id : UUID) (expected_version : Z) (current_user_id : option UUID)
    (reason : string) : M (ClaimConflict * ProjectedAccidentRecord) :=
  match current_user_id with
  | None => raise (DomainValidationError "current_user_id is required")
  | Some user =>
  found ← ConflictRepo.get conflict_id;
  match found with
  | None => raise (ConflictNotFoundError conflict_id)
  | Some conflict =>
      if bool_decide (cf_status conflict ≠ RESOLVED)
      then raise (DomainValidationError "only resolved conflicts can be reopened") else
      if negb (cf_version conflict =? expected_version)
      then err ← ConflictModified.from_known conflict; raise err else
      unsuperseded ← unsupersede_losers conflict;
      t ← utc_now;
      reopened ← lift_res (cf_reopen_by_user (or_default reason "Manual reopen") t conflict);
      now ← utc_now;
      updated ← ConflictRepo.update_with_version_check conflict_id expected_version
                  (reopened_columns (cf_last_modified_note reopened) now);
      match updated with
      | None =>
          rollback;;
          err ← ConflictModified.after_failed_update conflict_id (cf_event_id conflict);
          raise err
      | Some updated =>
          for_each unsuperseded (λ c,
            log_claim_history (c_id c) (c_event_id c) None (some_nonnull (c_field_value c))
              (Some SUPERSEDED) (c_claim_type c) "reactivated"
              (or_default reason "Reactivated by manual conflict reopen") USER (Some user));;
          log_conflict_activity conflict_id (cf_event_id conflict) (Some RESOLVED) OPEN USER
            (Some user) (or_default reason "Conflict reopened by user") (cf_version reopened)
            (Some (snapshot (cf_winning_claim_id conflict) unsuperseded));;
          projection ← ReProjectEvent.execute (cf_event_id updated)
                         (ReProjectEvent.mkCause (Some conflict_id) None None) false false;
          commit;;
          mret (updated, projection)
      end
  end
  end.
End reopen_conflict.
End ReopenConflict.

(** ** Effect of the phases in a quiet world *)
Section phases.
Context `{Hashlib}.

(** Tables whose key is the row's id. *)
Definition claims_keyed (db : DB) : Prop := ∀ k c, db_claims db !! k = Some c → c_id c = k.
Definition conflicts_keyed (db : DB) : Prop :=
  ∀ k c, db_conflicts db !! k = Some c → cf_id c = k.

(** The linked claims a resolution for [winner] supersedes. *)
Definition loses (db : DB) (conflict_id winner : UUID) (k : UUID) (c : Claim) : bool :=
  bool_decide (k ∈ ConflictRepo.claim_ids_of db conflict_id ∧ k ≠ winner) && is_active c.

Definition superseded_row (winner user : UUID) (c : Claim) (r : ClaimHistory) : Prop :=
  ch_claim_id r = c_id c ∧ ch_event_id r = c_event_id c
  ∧ ch_from_claim_type r = Some (c_claim_type c) ∧ ch_to_claim_type r = SUPERSEDED
  ∧ ch_modifier_id r = Some user.

Lemma dict_get_types (cs : list Claim) c :
  NoDup (c_id <$> cs) → c ∈ cs →
  dict_get (c_id c) ((λ c, (c_id c, c_claim_type c)) <$> cs) = Some (c_claim_type c).
Proof.
  intros Hn Hc. apply dict_get_NoDup.
  - rewrite <- list_fmap_compose. exact Hn.
  - apply list_elem_of_fmap. by exists c.
Qed.

Lemma omap_keyed_ids db (ids : list UUID) :
  claims_keyed db → c_id <$> omap (λ id, db_claims db !! id) ids
                    = filter (λ id, is_Some (db_claims db !! id)) ids.
Proof.
  intros Hk. induction ids as [|k ids IH]; [done|].
  cbn [omap list_omap]. destruct (db_claims db !! k) as [c|] eqn:E.
  - rewrite filter_cons_True by (rewrite E; eauto).
    cbn [fmap list_fmap]. rewrite (Hk k c E). by f_equal.
  - by rewrite filter_cons_False by (rewrite E; by intros [? ?]).
Qed.

Lemma elem_of_omap_claims db (ids : list UUID) c :
  c ∈ omap (λ id, db_claims db !! id) ids ↔ ∃ id, id ∈ ids ∧ db_claims db !! id = Some c.
Proof. by rewrite list_elem_of_omap. Qed.

(** The losers, as [supersede_losers] computes them. *)
Definition losing_ids (db : DB) (id winner : UUID) : list UUID :=
  filter (λ x, x ≠ winner) (dict_fromkeys (ConflictRepo.claim_ids_of db id)).
Definition candidates (db : DB) (id winner : UUID) : list Claim :=
  omap (λ k, db_claims db !! k) (losing_ids db id winner).
Definition losing (db : DB) (id winner : UUID) : list Claim :=
  filter (λ c, can_win c = true) (candidates db id winner).

Lemma NoDup_losing_ids db id winner : NoDup (losing_ids db id winner).
Proof. apply NoDup_filter, NoDup_fromkeys. Qed.

Lemma NoDup_candidates db id winner :
  claims_keyed db → NoDup (c_id <$> candidates db id winner).
Proof.
  intros Hk. unfold candidates. rewrite omap_keyed_ids by done.
  apply NoDup_filter, NoDup_losing_ids.
Qed.

Lemma NoDup_losing db id winner : claims_keyed db → NoDup (c_id <$> losing db id winner).
Proof. intros Hk. by apply NoDup_ids_filter, NoDup_candidates. Qed.

Lemma elem_of_losing db id winner c :
  c ∈ losing db id winner ↔ ∃ k, db_claims db !! k = Some c ∧ loses db id winner k c = true.
Proof.
  unfold losing, candidates, losing_ids. rewrite list_elem_of_filter, elem_of_omap_claims.
  unfold loses. rewrite can_win_active. setoid_rewrite list_elem_of_filter.
  setoid_rewrite elem_of_fromkeys. setoid_rewrite andb_true_iff.
  setoid_rewrite bool_decide_eq_true. naive_solver.
Qed.

Lemma select_losing db id winner :
  claims_keyed db →
  filter (λ c, is_active c = true)
    (omap (λ k, db_claims db !! k) (c_id <$> losing db id winner)) = losing db id winner.
Proof.
  intros Hk. assert (Hl : ∀ c, c ∈ losing db id winner →
    db_claims db !! c_id c = Some c ∧ is_active c = true).
  { intros c (k & Hc & [_ Ha]%andb_true_iff)%elem_of_losing. by rewrite (Hk k c Hc). }
  induction (losing db id winner) as [|c l IH]; [done|].
  destruct (Hl c) as [Hc Ha]; [by left|]. cbn [fmap list_fmap omap list_omap].
  rewrite Hc, filter_cons, decide_True by done. f_equal. apply IH. intros c' Hc'.
  apply Hl. by right.
Qed.

Lemma supersede_losing_rows db id winner :
  claims_keyed db →
  ClaimRepo.supersede_rows (c_id <$> losing db id winner) winner (db_claims db)
  = update_where (loses db id winner) (supersede winner) (db_claims db).
Proof.
  intros Hk. apply update_where_ext. intros k c Hc. apply eq_true_iff_eq.
  rewrite andb_true_iff, bool_decide_eq_true. split.
  - intros [(c' & Ek & (k' & Hc' & Hl)%elem_of_losing)%list_elem_of_fmap Ha].
    assert (k = k') as <- by (rewrite Ek; by apply Hk). congruence.
  - intros Hl. split; [|by apply andb_true_iff in Hl as [_ ?]].
    apply list_elem_of_fmap. exists c. split; [symmetry; by apply Hk|].
    apply elem_of_losing. eauto.
Qed.

Definition superseded_db (db : DB) (id winner : UUID) : DB :=
  upd_claims (update_where (loses db id winner) (supersede winner)) db.

Lemma superseded_db_none db id winner :
  claims_keyed db → losing db id winner = [] → superseded_db db id winner = db.
Proof.
  intros Hk El. unfold superseded_db, upd_claims. rewrite <- supersede_losing_rows by done.
  unfold ClaimRepo.supersede_rows. rewrite El, update_where_none; [by destruct db|].
  intros k c Hc. by rewrite bool_decide_false by apply not_elem_of_nil.
Qed.

Lemma bulk_supersede_losing id winner w :
  quiet w → claims_keyed (w_db w) →
  ClaimRepo.bulk_supersede (c_id <$> losing (w_db w) id winner) winner w
  = (Ok (losing (w_db w) id winner), set_db (superseded_db (w_db w) id winner) w).
Proof.
  intros Hq Hk. unfold ClaimRepo.bulk_supersede. case_bool_decide as El.
  - apply fmap_nil_inv in El. rewrite superseded_db_none, set_db_same by done. by rewrite El.
  - rewrite stmt_quiet by done. cbv zeta.
    rewrite (fromkeys_NoDup (c_id <$> _)), select_losing by (by try apply NoDup_losing).
    unfold superseded_db, upd_claims. by rewrite supersede_losing_rows.
Qed.

Lemma supersede_losers_quiet id winner user reason w u w' :
  quiet w → claims_keyed (w_db w) →
  ResolveConflict.supersede_losers id winner user reason w = (Ok u, w') →
  ∃ rows,
    quiet w' ∧ w_committed w' = w_committed w
    ∧ w_db w' = upd_claim_history (λ h, h ++ rows) (superseded_db (w_db w) id winner)
    ∧ Forall2 (superseded_row winner user) (losing (w_db w) id winner) rows
    ∧ Forall (λ r, w_now w ≤ ch_created_at r < w_now w') rows ∧ w_now w ≤ w_now w'.
Proof.
  intros Hq Hk. unfold ResolveConflict.supersede_losers. intros E.
  apply bind_Ok_inv in E as (ids & w1 & E1 & E).
  unfold ConflictRepo.get_claim_ids_for_conflict in E1. rewrite query_quiet in E1 by done.
  injection E1 as <- <-. cbv zeta in E. fold (losing_ids (w_db w) id winner) in E.
  case_bool_decide as Hids.
  - assert (El : losing (w_db w) id winner = []) by (unfold losing, candidates; by rewrite Hids).
    injection E as <- <-. exists []. rewrite El, superseded_db_none by done.
    split_and!; try done; try constructor; try lia.
    destruct w as [[] ????]. unfold upd_claim_history. simpl. by rewrite app_nil_r.
  - apply bind_Ok_inv in E as (cs & w2 & E2 & E). unfold ClaimRepo.get_many in E2.
    rewrite bool_decide_false in E2 by done. rewrite query_quiet in E2 by done.
    injection E2 as <- <-. rewrite fromkeys_NoDup in E by apply NoDup_losing_ids.
    fold (candidates (w_db w) id winner) (losing (w_db w) id winner) in E.
    apply bind_Ok_inv in E as (l & w2 & E2 & E). rewrite bulk_supersede_losing in E2 by done.
    injection E2 as <- <-.
    pose (mk := λ c i t, mkClaimHistory i (c_id c) (c_event_id c) (some_nonnull (c_field_value c))
      None (Some (c_claim_type c)) SUPERSEDED "superseded"
      (or_default reason "Superseded by conflict resolution") USER (Some user) t).
    rewrite (for_each_ext _ _ (λ c, id ← uuid4; t ← utc_now; ClaimHistoryRepo.add (mk c id t))) in E.
    2: { intros c Hc. rewrite dict_get_types; [done|by apply NoDup_candidates|].
         by apply list_elem_of_filter in Hc as [_ ?]. }
    edestruct (for_each_history mk) as (rows & w2 & E2 & Hq2 & Hc2 & Hd2 & HF & Hle);
      [reflexivity| |rewrite E2 in E]; [done|].
    injection E as <- <-. exists rows. split_and!; try done.
    + eapply Forall2_impl; [exact HF|]. by intros c r (i & t & Ht & ->).
    + apply Forall_forall. intros r Hr. apply list_elem_of_lookup in Hr as [i Hi].
      destruct (Forall2_lookup_r _ _ _ _ _ HF Hi) as (c & _ & ? & t & Ht & ->). done.
Qed.

Lemma update_conflict_quiet id v f w r w' :
  quiet w → ConflictRepo.update_with_version_check id v f w = (Ok r, w') →
  match r with
  | Some upd => ∃ c, db_conflicts (w_db w) !! id = Some c ∧ cf_version c = v
      ∧ upd = ConflictRepo.load (w_db w) (ConflictRepo.with_version (v + 1) (f c))
      ∧ w' = set_db (upd_conflicts <[id := ConflictRepo.with_version (v + 1) (f c)]> (w_db w)) w
  | None => w' = w
  end.
Proof.
  intros Hq. unfold ConflictRepo.update_with_version_check. rewrite stmt_quiet by done.
  destruct (db_conflicts (w_db w) !! id) as [c|] eqn:Ec.
  - destruct (Z.eqb_spec (cf_version c) v) as [<-|].
    + destruct (ConflictRepo.open_clash _ _ _); [done|]. intros [= <- <-]. by exists c.
    + intros [= <- <-]. apply set_db_same.
  - intros [= <- <-]. apply set_db_same.
Qed.

(** The next entry of a conflict's activity log. *)
Definition next_entry (db : DB) (id : UUID) (from_ : option ConflictStatus)
    (to_ : ConflictStatus) (user : option UUID) (version : Z) (e : ConflictActivityLogEntry)
    : Prop :=
  al_conflict_id e = id ∧ al_from_status e = from_ ∧ al_to_status e = to_
  ∧ al_modifier_id e = user ∧ al_version_at_moment e = version
  ∧ (∀ s, s ∈ ActivityRepo.sequences (db_activity db) id → s < al_sequence e).

Lemma foldr_max_ge l s : s ∈ l → s ≤ foldr Z.max 0 l.
Proof.
  induction l as [|x l IH]; [by intros ?%elem_of_nil|].
  intros [->|Hs]%elem_of_cons; simpl; [lia|]. specialize (IH Hs). lia.
Qed.

Lemma log_activity_quiet id e from_ to_ mt user reason v snap w u w' :
  quiet w → log_conflict_activity id e from_ to_ mt user reason v snap w = (Ok u, w') →
  ∃ entry, next_entry (w_db w) id from_ to_ user v entry ∧ quiet w'
    ∧ w_db w' = upd_activity (λ l, l ++ [entry]) (w_db w)
    ∧ w_committed w' = w_committed w ∧ w_now w ≤ w_now w'.
Proof.
  destruct w as [db com env now uid]. intros Hq. unfold quiet in Hq. simpl in Hq. subst env.
  unfold log_conflict_activity, ActivityRepo.next_sequence, ActivityRepo.add, query, stmt, mbind,
    M_bind, uuid4, utc_now. simpl. case_bool_decide as Hs; [done|].
  intros [= <- <-]. eexists. split_and!; [|done|done|done|simpl; lia].
  unfold next_entry. simpl. split_and!; try done. intros s Hin%foldr_max_ge. lia.
Qed.

(** A reprojection inside a use case touches the read model only. *)
Definition set_read_model (db db' : DB) : DB :=
  upd_projection_history (λ _, db_projection_history db')
    (upd_projections (λ _, db_projections db') db).

Lemma execute_frame e cause force w dto w' :
  quiet w → ReProjectEvent.execute e cause false force w = (Ok dto, w') →
  quiet w' ∧ w_db w' = set_read_model (w_db w) (w_db w').
Proof.
  intros Hq E. apply execute_reprojected in E as [Hq' E]; [|done]. split; [done|].
  destruct E as [| |cause' now d d' _ _ [|]]; unfold set_read_model; by destruct (w_db w).
Qed.

Lemma execute_now e cause force w dto w' :
  ReProjectEvent.execute e cause false force w = (Ok dto, w') → w_now w ≤ w_now w'.
Proof. intros E. destruct (proj1 (execute_NoCommit e cause force) w) as (_ & Hn & _). by rewrite E in Hn. Qed.

(** What a successful resolution does to the tables. *)
Record resolution_effect (id winner user : UUID) (expected : Z) (now : datetime) (db db' : DB)
    : Prop :=
  mkResolutionEffect {
    re_conflict : ∃ c row, db_conflicts db !! id = Some c ∧ cf_version c = expected
      ∧ db_conflicts db' = <[id := row]> (db_conflicts db)
      ∧ cf_id row = cf_id c ∧ cf_event_id row = cf_event_id c
      ∧ cf_field_name row = cf_field_name c ∧ cf_created_at row = cf_created_at c
      ∧ cf_status row = RESOLVED ∧ cf_version row = expected + 1
      ∧ cf_winning_claim_id row = Some winner ∧ cf_resolved_by row = Some user;
    re_claims : db_claims db' = update_where (loses db id winner) (supersede winner) (db_claims db);
    re_links : db_conflict_claims db' = db_conflict_claims db;
    re_history : ∃ rows, db_claim_history db' = db_claim_history db ++ rows
      ∧ Forall2 (superseded_row winner user) (losing db id winner) rows
      ∧ Forall (λ r, now ≤ ch_created_at r) rows;
    re_activity : ∃ entry, db_activity db' = db_activity db ++ [entry]
      ∧ next_entry db id (Some OPEN) RESOLVED (Some user) (expected + 1) entry;
    re_others : db_events db' = db_events db ∧ db_sources db' = db_sources db
      ∧ db_outbox db' = db_outbox db ∧ db_reviews db' = db_reviews db
      ∧ db_identity db' = db_identity db;
  }.

(** The answer: the resolved row, and the read model rebuilt for its event. *)
Definition answered (id : UUID) (db db' : DB) (out : ClaimConflict * ProjectedAccidentRecord) : Prop :=
  ∃ row, db_conflicts db' !! id = Some row ∧ out.1 = ConflictRepo.load db' row
    ∧ rebuilt (cf_event_id row) db db' out.2.

Lemma apply_resolution_quiet conflict v manual winner user reason w out w' :
  quiet w → claims_keyed (w_db w) → cf_version conflict = v →
  ResolveConflict.apply_resolution conflict v manual winner user reason w = (Ok out, w') →
  resolution_effect (cf_id conflict) winner user v (w_now w) (w_db w) (w_db w')
  ∧ quiet w' ∧ w_committed w' = w_db w' ∧ w_now w ≤ w_now w'
  ∧ answered (cf_id conflict) (w_db w) (w_db w') out
  ∧ (manual = false → ∃ c, db_claims (w_db w) !! winner = Some c ∧ is_active c = true).
Proof.
  intros Hq Hk Hv E. unfold ResolveConflict.apply_resolution in E.
  apply bind_Ok_inv in E as (t1 & w1 & E1 & E). injection E1 as <- <-.
  apply bind_Ok_inv in E as (t2 & w1 & E1 & E). injection E1 as <- <-.
  set (wa := mkWorld _ _ _ _ _) in E. assert (Hqa : quiet wa) by done.
  apply bind_Ok_inv in E as (resolved & w1 & E1 & E). injection E1 as Er <-.
  apply bind_Ok_inv in E as (u & w1 & E1 & E).
  assert (H1 : w1 = wa ∧ (manual = false → ∃ c, db_claims (w_db w) !! winner = Some c
                                             ∧ is_active c = true)).
  { destruct manual; simpl in E1; [injection E1 as _ <-; by split|].
    apply bind_Ok_inv in E1 as (found & w2 & E2 & E1). unfold ClaimRepo.lock_for_update,
      ClaimRepo.get in E2. rewrite query_quiet in E2 by done. injection E2 as <- <-.
    unfold ResolveConflict.check_winner in E1. change (w_db wa) with (w_db w) in E1.
    destruct (db_claims (w_db w) !! winner) as [c|]; [|done].
    destruct (can_win c) eqn:Ec; [|done]. injection E1 as _ <-. rewrite can_win_active in Ec.
    eauto. }
  destruct H1 as [-> Hwin]. clear E1 u.
  apply bind_Ok_inv in E as (now & w1 & E1 & E). injection E1 as <- <-.
  set (wb := mkWorld _ _ _ _ _) in E. assert (Hqb : quiet wb) by done.
  apply bind_Ok_inv in E as (r & w1 & E1 & E). apply update_conflict_quiet in E1; [|done].
  destruct r as [upd|].
  2: { apply bind_Ok_inv in E as (? & ? & _ & E). apply bind_Ok_inv in E as (? & ? & _ & E).
       by apply bind_Ok_inv in E as (? & ? & _ & E). }
  destruct E1 as (c & Hc & Hcv & -> & ->). change (w_db wb) with (w_db w) in *.
  set (row := ConflictRepo.with_version _ _) in *.
  apply bind_Ok_inv in E as (u1 & w1 & E1 & E).
  apply supersede_losers_quiet in E1 as (rows & Hq1 & Hc1 & Hd1 & HF & Ht & Hle1); [|done|done].
  apply bind_Ok_inv in E as (u2 & w2 & E2 & E).
  apply log_activity_quiet in E2 as (entry & He & Hq2 & Hd2 & Hc2 & Hle2); [|done].
  apply bind_Ok_inv in E as (proj & w3 & E3 & E).
  pose proof (execute_now _ _ _ _ _ _ E3) as Hle3.
  pose proof (execute_rebuilt _ (ReProjectEvent.mkCause (Some (cf_id conflict)) None None) _ _ _ _ _ Hq2 eq_refl E3) as Hreb.
  apply execute_frame in E3 as [Hq3 Hd3]; [|done].
  apply bind_Ok_inv in E as (u3 & w4 & E4 & E). injection E4 as <- <-. injection E as <- <-.
  assert (Hrv : cf_version resolved = v + 1).
  { unfold cf_resolve in Er. repeat case_match; simplify_eq/=; done. }
  assert (Hdb : w_db w3 = set_read_model (upd_activity (λ l, l ++ [entry])
    (upd_claim_history (λ h, h ++ rows) (superseded_db (upd_conflicts <[cf_id conflict := row]>
      (w_db w)) (cf_id conflict) winner))) (w_db w3)) by (by rewrite Hd3, Hd2, Hd1).
  split; [|split_and!; [done|done|simpl in *; lia| |exact Hwin]].
  2: { exists row. cbn [w_db fst snd]. split; [rewrite Hdb; apply lookup_insert_eq|].
       split; [by rewrite Hdb|]. by rewrite Hd2, Hd1 in Hreb. }
  cbn [w_db]. rewrite Hdb. split; try done.
  - exists c, row. by split_and!.
  - exists rows. split_and!; [done|exact HF|]. eapply Forall_impl; [exact Ht|].
    simpl. intros r Hr. lia.
  - exists entry. split; [done|]. rewrite Hrv, Hd1 in He. exact He.
Qed.
End phases.

(** ** Effect of a reopening in a quiet world *)
Section reopening.
Context `{Hashlib}.

(** The claims that reopening [c] revives. *)
Definition revives (db : DB) (c : ClaimConflict) (k : UUID) (cl : Claim) : bool :=
  bool_decide (k ∈ ConflictRepo.claim_ids_of db (cf_id c) ∧ cf_winning_claim_id c ≠ None
    ∧ c_superseded_by cl = cf_winning_claim_id c
    ∧ c_event_id cl = cf_event_id c ∧ c_field_name cl = cf_field_name c).

Definition revive (h : list ClaimHistory) (cl : Claim) : Claim :=
  with_claim_type (ClaimRepo.restore_type h (c_id cl)) None cl.

Definition revived_db (db : DB) (c : ClaimConflict) : DB :=
  upd_claims (update_where (revives db c) (revive (db_claim_history db))) db.

Lemma revived_none db c :
  (∀ k cl, db_claims db !! k = Some cl → revives db c k cl = false) → revived_db db c = db.
Proof.
  intros Hn. unfold revived_db, upd_claims. rewrite update_where_none by done. by destruct db.
Qed.

Lemma unsupersede_quiet c w l w' :
  quiet w → claims_keyed (w_db w) →
  ReopenConflict.unsupersede_losers (ConflictRepo.load (w_db w) c) w = (Ok l, w') →
  w' = set_db (revived_db (w_db w) c) w.
Proof.
  intros Hq Hk. unfold ReopenConflict.unsupersede_losers. simpl.
  destruct (cf_winning_claim_id c) as [winner|] eqn:Ew.
  2: { intros [= <- <-]. rewrite revived_none, set_db_same; [done|]. intros k cl Hc.
       unfold revives. apply bool_decide_false. rewrite Ew. naive_solver. }
  intros E. apply bind_Ok_inv in E as (linked & w1 & E1 & E).
  unfold ConflictRepo.get_claim_ids_for_conflict in E1. rewrite query_quiet in E1 by done.
  injection E1 as <- <-.
  apply bind_Ok_inv in E as (sup & w1 & E1 & E). unfold ClaimRepo.find_superseded_by in E1.
  rewrite query_quiet in E1 by done. injection E1 as <- <-. cbv zeta in E.
  assert (El : (if bool_decide (ConflictRepo.claim_ids_of (w_db w) (cf_id c) = [])
                then ConflictRepo.claim_ids_of (w_db w) (cf_id c)
                else ConflictRepo.claim_ids_of (w_db w) (cf_id c))
               = ConflictRepo.claim_ids_of (w_db w) (cf_id c))
    by (match goal with |- (if ?b then _ else _) = _ => destruct b end; reflexivity).
  rewrite El in E. clear El.
  set (ids := c_id <$> _) in E.
  assert (Hids : ∀ k cl, db_claims (w_db w) !! k = Some cl →
    k ∈ ids ↔ revives (w_db w) c k cl = true).
  { intros k cl Hc. unfold revives. rewrite bool_decide_eq_true, Ew. unfold ids.
    rewrite list_elem_of_fmap. setoid_rewrite list_elem_of_filter.
    setoid_rewrite list_elem_of_filter. setoid_rewrite elem_of_rows. split.
    - intros (cl' & -> & (? & ? & ?) & Hs & k' & Hc'). 
      assert (Ek : c_id cl' = k') by by apply Hk. rewrite <- Ek in Hc'.
      assert (cl' = cl) as -> by congruence. split_and!; done.
    - intros (? & _ & ? & ? & ?). exists cl. rewrite (Hk k cl Hc). split_and!; eauto. }
  case_bool_decide as Hn.
  - injection E as <- <-. rewrite revived_none, set_db_same; [done|]. intros k cl Hc.
    apply not_true_is_false. intros Hr%(Hids k cl Hc). rewrite Hn in Hr. by apply elem_of_nil in Hr.
  - unfold ClaimRepo.bulk_unsupersede in E. rewrite bool_decide_false in E by done.
    rewrite stmt_quiet in E by done. cbv zeta in E. injection E as _ <-.
    unfold revived_db, upd_claims. do 2 f_equal.
    apply update_where_ext. intros k cl Hc. apply eq_true_iff_eq.
    rewrite bool_decide_eq_true, elem_of_fromkeys. by apply Hids.
Qed.

Record reopening_effect (id user : UUID) (expected : Z) (db db' : DB) : Prop :=
  mkReopeningEffect {
    oe_conflict : ∃ c row, db_conflicts db !! id = Some c ∧ cf_status c = RESOLVED
      ∧ cf_version c = expected ∧ db_conflicts db' = <[id := row]> (db_conflicts db)
      ∧ cf_event_id row = cf_event_id c ∧ cf_field_name row = cf_field_name c
      ∧ cf_status row = OPEN ∧ cf_version row = expected + 1 ∧ cf_winning_claim_id row = None
      ∧ db_claims db' = db_claims (revived_db db c);
    oe_links : db_conflict_claims db' = db_conflict_claims db;
    oe_activity : ∃ entry, db_activity db' = db_activity db ++ [entry]
      ∧ next_entry db id (Some RESOLVED) OPEN (Some user) (expected + 1) entry;
  }.

Lemma reopen_quiet id v user reason w out w' :
  quiet w → claims_keyed (w_db w) → conflicts_keyed (w_db w) →
  ReopenConflict.execute id v (Some user) reason w = (Ok out, w') →
  reopening_effect id user v (w_db w) (w_db w') ∧ quiet w' ∧ w_committed w' = w_db w'.
Proof.
  intros Hq Hk Hck E. unfold ReopenConflict.execute in E.
  apply bind_Ok_inv in E as (found & w1 & E1 & E). unfold ConflictRepo.get in E1.
  rewrite query_quiet in E1 by done. injection E1 as <- <-.
  destruct (db_conflicts (w_db w) !! id) as [c|] eqn:Hc; [|done]. cbn [fmap option_fmap option_map] in E.
  case_bool_decide as Hst; [done|]. change (cf_status c = RESOLVED) in Hst.
  destruct (Z.eqb_spec (cf_version c) v) as [Hv|Hv].
  2: { change (cf_version (ConflictRepo.load (w_db w) c)) with (cf_version c) in E.
       apply Z.eqb_neq in Hv. rewrite Hv in E. by apply bind_Ok_inv in E as (? & ? & _ & E). }
  change (cf_version (ConflictRepo.load (w_db w) c)) with (cf_version c) in E.
  rewrite Hv, Z.eqb_refl in E. cbn [negb] in E.
  apply bind_Ok_inv in E as (revived & w1 & E1 & E). apply unsupersede_quiet in E1; [|done|done].
  apply bind_Ok_inv in E as (t1 & w2 & E2 & E). injection E2 as <- <-. subst w1.
  set (wa := mkWorld _ _ _ _ _) in E. assert (Hqa : quiet wa) by done.
  apply bind_Ok_inv in E as (reopened & w1 & E1 & E). injection E1 as Er <-.
  apply bind_Ok_inv in E as (now & w1 & E1 & E). injection E1 as <- <-.
  set (wb := mkWorld _ _ _ _ _) in E. assert (Hqb : quiet wb) by done.
  apply bind_Ok_inv in E as (r & w1 & E1 & E). apply update_conflict_quiet in E1; [|done].
  destruct r as [upd|].
  2: { apply bind_Ok_inv in E as (? & ? & _ & E). by apply bind_Ok_inv in E as (? & ? & _ & E). }
  destruct E1 as (c' & Hc' & Hcv & -> & ->).
  assert (c' = c) as -> by (unfold wb in Hc'; simpl in Hc'; congruence).
  set (row := ConflictRepo.with_version _ _) in *.
  apply bind_Ok_inv in E as (u1 & w1 & E1 & E).
  edestruct (for_each_history (λ c i t, mkClaimHistory i (c_id c) (c_event_id c) None
    (some_nonnull (c_field_value c)) (Some SUPERSEDED) (c_claim_type c) "reactivated"
    (or_default reason "Reactivated by manual conflict reopen") USER (Some user) t))
    as (rows & w2 & E2 & Hq2 & Hc2 & Hd2 & _); [reflexivity| |rewrite E2 in E1]; [done|].
  injection E1 as <- <-.
  apply bind_Ok_inv in E as (u2 & w3 & E3 & E).
  apply log_activity_quiet in E3 as (entry & He & Hq3 & Hd3 & Hc3 & _); [|done].
  apply bind_Ok_inv in E as (proj & w4 & E4 & E). apply execute_frame in E4 as [Hq4 Hd4]; [|done].
  apply bind_Ok_inv in E as (u4 & w5 & E5 & E). injection E5 as <- <-. injection E as <- <-.
  assert (Hrv : cf_version reopened = v + 1).
  { unfold cf_reopen_by_user in Er. repeat case_match; simplify_eq/=; done. }
  assert (Hdb : w_db w4 = set_read_model (upd_activity (λ l, l ++ [entry])
    (upd_claim_history (λ h, h ++ rows) (upd_conflicts <[id := row]>
      (revived_db (w_db w) c)))) (w_db w4)) by (by rewrite Hd4, Hd3, Hd2).
  split; [|by split]. cbn [w_db]. rewrite Hdb. split; try done.
  - exists c, row. by split_and!.
  - exists entry. split; [done|]. rewrite Hrv, Hd2 in He. exact He.
Qed.
End reopening.

(** ** Restoring the type of a claim from its history *)
Section restore.
Lemma restore_type_last h rows id t :
  (∀ x y, x ∈ h → y ∈ rows → ch_created_at x < ch_created_at y) →
  (∃ r, r ∈ rows ∧ ch_claim_id r = id ∧ ch_to_claim_type r = SUPERSEDED) →
  (∀ r, r ∈ rows → ch_claim_id r = id → ch_to_claim_type r = SUPERSEDED →
    ch_from_claim_type r = Some t) →
  t ≠ SUPERSEDED → ClaimRepo.restore_type (h ++ rows) id = t.
Proof.
  intros Hlt (r & Hr & Hid & Hto) Hall Ht. unfold ClaimRepo.restore_type.
  destruct (py_sorted _ _) as [|x l] eqn:E.
  - apply py_sorted_nil in E. exfalso.
    apply (filter_nil_not_elem_of _ _ r E); [done|]. apply elem_of_app. by right.
  - apply py_sorted_head in E as [[[Hxid Hxto] Hx]%list_elem_of_filter Hmax].
    2: intros a b; rewrite !Z.leb_le; lia.
    2: intros a b d; rewrite !Z.leb_le; lia.
    specialize (Hmax r). rewrite list_elem_of_filter, elem_of_app in Hmax.
    specialize (Hmax ltac:(tauto)). apply Z.leb_le in Hmax.
    apply elem_of_app in Hx as [Hx|Hx]; [specialize (Hlt x r Hx Hr); lia|].
    rewrite (Hall x Hx Hxid Hxto). simpl. by rewrite bool_decide_false.
Qed.
End restore.

Section whole_run.
Context `{Hashlib}.

Lemma resolve_quiet curator id v winner user reason w out w' :
  quiet w → claims_keyed (w_db w) → conflicts_keyed (w_db w) →
  ResolveConflict.execute curator id v (Some winner) PNone false (Some user) reason w
    = (Ok out, w') →
  (∃ c, db_conflicts (w_db w) !! id = Some c ∧ cf_status c = OPEN)
  ∧ winner ∈ ConflictRepo.claim_ids_of (w_db w) id
  ∧ (∃ c, db_claims (w_db w) !! winner = Some c ∧ is_active c = true)
  ∧ resolution_effect id winner user v (w_now w) (w_db w) (w_db w')
  ∧ quiet w' ∧ w_committed w' = w_db w' ∧ w_now w ≤ w_now w'
  ∧ answered id (w_db w) (w_db w') out.
Proof.
  intros Hq Hk Hck E. unfold ResolveConflict.execute in E. cbn [orb] in E.
  apply bind_Ok_inv in E as (u & w1 & E1 & E). injection E1 as <- <-.
  apply bind_Ok_inv in E as (found & w1 & E1 & E). unfold ConflictRepo.get in E1.
  rewrite query_quiet in E1 by done. injection E1 as <- <-.
  destruct (db_conflicts (w_db w) !! id) as [c|] eqn:Hc; [|done].
  cbn [fmap option_fmap option_map] in E.
  case_bool_decide as Hst; [done|]. change (cf_status c = OPEN) in Hst.
  change (cf_version (ConflictRepo.load (w_db w) c)) with (cf_version c) in E.
  destruct (Z.eqb_spec (cf_version c) v) as [Hv|Hv]; cbn [negb] in E.
  2: by apply bind_Ok_inv in E as (? & ? & _ & E).
  apply bind_Ok_inv in E as (ids & w1 & E1 & E).
  unfold ConflictRepo.get_claim_ids_for_conflict in E1. rewrite query_quiet in E1 by done.
  injection E1 as <- <-.
  apply bind_Ok_inv in E as ([win conflict] & w1 & E1 & E).
  unfold ResolveConflict.choose_existing in E1.
  case_bool_decide as Hin; cbn [negb] in E1; [|done].
  apply bind_Ok_inv in E1 as (ex & w2 & E2 & E1). unfold ClaimRepo.get in E2.
  rewrite query_quiet in E2 by done. injection E2 as <- <-.
  apply bind_Ok_inv in E1 as (u & w2 & E2 & E1). injection E1 as <- <- <-.
  assert (w2 = w) as ->.
  { unfold ResolveConflict.check_winner in E2. destruct (db_claims (w_db w) !! winner); [|done].
    destruct (can_win _); [|done]. by injection E2 as _ <-. }
  apply apply_resolution_quiet in E as (He & Hq' & Hcm & Hle & Hans & Hwin); [|done|done|done].
  change (cf_id (ConflictRepo.load (w_db w) c)) with (cf_id c) in He, Hans.
  rewrite (Hck id c Hc) in He, Hans. split_and!; [by exists c|done|by apply Hwin|done..].
Qed.

(** Undoing, on one claim. *)
Lemma revive_supersede h rows db id winner user k cl :
  claims_keyed db → db_claims db !! k = Some cl →
  loses db id winner k cl = true → c_superseded_by cl = None →
  (∀ x y, x ∈ h → y ∈ rows → ch_created_at x < ch_created_at y) →
  Forall2 (superseded_row winner user) (losing db id winner) rows →
  revive (h ++ rows) (supersede winner cl) = cl.
Proof.
  intros Hk Hc Hl Hs Hlt HF.
  assert (Hcl : cl ∈ losing db id winner) by (apply elem_of_losing; eauto).
  assert (Ht : c_claim_type cl ≠ SUPERSEDED).
  { apply is_active_spec. by apply andb_true_iff in Hl as [_ ?]. }
  unfold revive. change (c_id (supersede winner cl)) with (c_id cl).
  rewrite (restore_type_last h rows (c_id cl) (c_claim_type cl)); [|done| | |done].
  - destruct cl. simpl in Hs. by subst.
  - apply list_elem_of_lookup in Hcl as [i Hi].
    destruct (Forall2_lookup_l _ _ _ _ _ HF Hi) as (r & Hr & H1 & _ & _ & H4 & _).
    exists r. split_and!; [by apply list_elem_of_lookup_2 in Hr|done..].
  - intros r [i Hi]%list_elem_of_lookup Hid _.
    destruct (Forall2_lookup_r _ _ _ _ _ HF Hi) as (cl' & Hcl' & H1 & _ & H3 & _).
    assert (cl' = cl) as <-; [|done].
    apply (NoDup_fmap_inj_elem c_id (losing db id winner)); [by apply NoDup_losing| |done|congruence].
    by apply list_elem_of_lookup_2 in Hcl'.
Qed.

Lemma revived_after_resolution id winner user v now db db' c row :
  claims_keyed db → resolution_effect id winner user v now db db' →
  db_conflicts db !! id = Some c → db_conflicts db' !! id = Some row → cf_id c = id →
  (∀ k cl, db_claims db !! k = Some cl → k ∈ ConflictRepo.claim_ids_of db id →
     c_event_id cl = cf_event_id c ∧ c_field_name cl = cf_field_name c
     ∧ c_superseded_by cl ≠ Some winner) →
  (∀ k cl, db_claims db !! k = Some cl → is_active cl = true → c_superseded_by cl = None) →
  (∀ r, r ∈ db_claim_history db → ch_created_at r < now) →
  db_claims (revived_db db' row) = db_claims db.
Proof.
  intros Hk [(c0 & row0 & H1 & _ & H2 & H3 & H4 & H5 & _ & _ & _ & H8 & _) Hcl Hln
    (rows & Hh & HF & Ht) _ _] Hc Hrow Hid Hlinked Hactive Hhist.
  assert (c0 = c) as -> by congruence.
  rewrite H2, lookup_insert_eq in Hrow. injection Hrow as ->.
  assert (Hids : ConflictRepo.claim_ids_of db' id = ConflictRepo.claim_ids_of db id)
    by (unfold ConflictRepo.claim_ids_of; by rewrite Hln).
  apply map_eq. intros k. unfold revived_db. simpl. rewrite Hcl, !lookup_update_where.
  destruct (db_claims db !! k) as [cl|] eqn:Ek; [|done]. simpl. f_equal.
  destruct (loses db id winner k cl) eqn:El.
  - assert (Hr : revives db' row k (supersede winner cl) = true).
    { apply andb_true_iff in El as [[Hin Hne]%bool_decide_eq_true _].
      unfold revives. apply bool_decide_eq_true. rewrite H3, Hid, Hids, H8.
      destruct (Hlinked k cl Ek Hin) as (? & ? & _).
      split_and!; [done|done|done|simpl; congruence|simpl; congruence]. }
    rewrite Hr, Hh. eapply revive_supersede; try done.
    + apply Hactive with k; [done|]. by apply andb_true_iff in El as [_ ?].
    + intros x y Hx Hy. rewrite Forall_forall in Ht. specialize (Ht y Hy).
      specialize (Hhist x Hx). lia.
  - assert (Hr : revives db' row k cl = false); [|by rewrite Hr].
    unfold revives. apply bool_decide_eq_false. rewrite H3, Hid, Hids, H8.
    intros (Hin & _ & Hs & _). by destruct (Hlinked k cl Ek Hin) as (_ & _ & ?).
Qed.
End whole_run.

(** ** Properties *)

(** C6: a curator's resolution in favour of a linked claim does what it promises,
    run alone. It succeeds only on an OPEN conflict at the version the curator saw
    and for a linked claim that can still win. The row becomes RESOLVED with that
    winner at the next version; exactly the other linked claims that could still
    win become SUPERSEDED by it, each with one history row recording its previous
    type, and already superseded evidence keeps its lineage; one activity entry
    with a fresh sequence number is appended; links, events, sources, outbox and
    reviews stay.  The read model is rebuilt: the stored record of the conflict's event
    says what the resolved tables determine, it is the one answered, and the records of
    the other events stay.  All of it is durable.  (ARCHITECTURE.md says that all other
    active claims of the field are superseded; the code supersedes those linked to the
    conflict, and an active claim of the field that is not linked stays active.) *)
Theorem resolve_effect `{Hashlib} curator id v winner user reason w out w' :
  quiet w → claims_keyed (w_db w) → conflicts_keyed (w_db w) →
  ResolveConflict.execute curator id v (Some winner) PNone false (Some user) reason w
    = (Ok out, w') →
  (∃ c, db_conflicts (w_db w) !! id = Some c ∧ cf_status c = OPEN)
  ∧ winner ∈ ConflictRepo.claim_ids_of (w_db w) id
  ∧ (∃ c, db_claims (w_db w) !! winner = Some c ∧ is_active c = true)
  ∧ resolution_effect id winner user v (w_now w) (w_db w) (w_db w')
  ∧ quiet w' ∧ w_committed w' = w_db w' ∧ w_now w ≤ w_now w'
  ∧ answered id (w_db w) (w_db w') out.
Proof. apply resolve_quiet. Qed.

(** C7: reopening undoes resolving. Reopening a conflict right after a curator
    resolved it, run alone, restores the claims table exactly: every claim the
    resolution superseded gets back the type its history row recorded (a CONFIRMED
    claim is not downgraded to RAW) and loses its supersession pointer; the
    conflict is OPEN again, two versions later, with the same links. It needs what
    detection guarantees: linked claims are on the conflict's event and field, no
    linked claim was superseded by this winner before, active claims carry no
    pointer, and the history is older than the clock. *)
Theorem reopen_undoes_resolve `{Hashlib} curator id v v' winner user user' reason reason'
    w out w1 out' w2 c :
  quiet w → claims_keyed (w_db w) → conflicts_keyed (w_db w) →
  db_conflicts (w_db w) !! id = Some c →
  (∀ k cl, db_claims (w_db w) !! k = Some cl → k ∈ ConflictRepo.claim_ids_of (w_db w) id →
     c_event_id cl = cf_event_id c ∧ c_field_name cl = cf_field_name c
     ∧ c_superseded_by cl ≠ Some winner) →
  (∀ k cl, db_claims (w_db w) !! k = Some cl → is_active cl = true → c_superseded_by cl = None) →
  (∀ r, r ∈ db_claim_history (w_db w) → ch_created_at r < w_now w) →
  ResolveConflict.execute curator id v (Some winner) PNone false (Some user) reason w
    = (Ok out, w1) →
  ReopenConflict.execute id v' (Some user') reason' w1 = (Ok out', w2) →
  db_claims (w_db w2) = db_claims (w_db w) ∧ v' = v + 1
  ∧ db_conflict_claims (w_db w2) = db_conflict_claims (w_db w)
  ∧ ∃ c', db_conflicts (w_db w2) !! id = Some c' ∧ cf_status c' = OPEN ∧ cf_version c' = v + 2
          ∧ cf_event_id c' = cf_event_id c ∧ cf_field_name c' = cf_field_name c.
Proof.
  intros Hq Hk Hck Hc Hlinked Hactive Hhist E1 E2.
  apply resolve_quiet in E1 as (_ & _ & _ & He & Hq1 & _); [|done..].
  pose proof He as [(c0 & row & H1 & Hv & H2 & H3 & H4 & H5 & _ & _ & H7 & H8 & _) Hcl Hln _ _ _].
  assert (c0 = c) as -> by congruence.
  assert (Hk1 : claims_keyed (w_db w1)).
  { intros k cl. rewrite Hcl, lookup_update_where. destruct (db_claims (w_db w) !! k) as [x|] eqn:Ex;
      [|done]. intros [= <-]. destruct (loses _ _ _ _ _); by apply Hk in Ex. }
  assert (Hck1 : conflicts_keyed (w_db w1)).
  { intros k x. rewrite H2, lookup_insert_Some. intros [[<- <-]|[_ Hx]]; [|by apply Hck].
    rewrite H3. by apply Hck. }
  apply reopen_quiet in E2 as ([(c1 & row2 & G1 & _ & G3 & G4 & G5 & G6 & G7 & G8 & _ & Gc) Gl _]
    & _ & _); [|done..].
  assert (c1 = row) as -> by (rewrite H2, lookup_insert_eq in G1; congruence).
  split; [|split; [congruence|split; [congruence|]]].
  - rewrite Gc. eapply revived_after_resolution; eauto.
  - exists row2. rewrite G4, lookup_insert_eq. split_and!; [done|done|lia|congruence|congruence].
Qed.

(** The exception a resolution request must end in, given the tables it reads. *)
Inductive rejection (db : DB) (id : UUID) (v : Z) (winner : UUID) : exn → Prop :=
  | rej_not_found :
      db_conflicts db !! id = None → rejection db id v winner (ConflictNotFoundError id)
  | rej_not_open c :
      db_conflicts db !! id = Some c → cf_status c = RESOLVED →
      rejection db id v winner (ConflictAlreadyResolvedError id)
  | rej_stale c :
      db_conflicts db !! id = Some c → cf_status c = OPEN → cf_version c ≠ v →
      rejection db id v winner
        (ConflictModifiedError id (cf_version c) (Some (cf_last_modified_reason c)))
  | rej_not_linked c :
      db_conflicts db !! id = Some c → cf_status c = OPEN → cf_version c = v →
      winner ∉ ConflictRepo.claim_ids_of db id →
      rejection db id v winner (ClaimNotInConflictError winner id)
  | rej_missing c :
      db_conflicts db !! id = Some c → cf_status c = OPEN → cf_version c = v →
      winner ∈ ConflictRepo.claim_ids_of db id → db_claims db !! winner = None →
      rejection db id v winner (ClaimNotFoundError winner)
  | rej_superseded c cl :
      db_conflicts db !! id = Some c → cf_status c = OPEN → cf_version c = v →
      winner ∈ ConflictRepo.claim_ids_of db id → db_claims db !! winner = Some cl →
      c_claim_type cl = SUPERSEDED →
      rejection db id v winner (ClaimNotEligibleError winner SUPERSEDED).

(** every way a resolution can be refused is refused with its own error and
    without a trace: conflict missing, already resolved, seen at a stale version
    (the error carries the version and reason to retry from), winner not linked,
    gone, or superseded. When one of them holds of the tables, that exception is
    raised, and neither the session nor the durable state changed. *)
Theorem resolve_rejects `{Hashlib} curator id v winner user reason w e :
  quiet w → conflicts_keyed (w_db w) → rejection (w_db w) id v winner e →
  ResolveConflict.execute curator id v (Some winner) PNone false (Some user) reason w = (Raise e, w).
Proof.
  intros Hq Hck R. unfold ResolveConflict.execute. cbn [orb].
  eapply runs_bind; [reflexivity|].
  eapply runs_bind; [unfold ConflictRepo.get; by rewrite query_quiet|].
  assert (Hchoose : ∀ c, db_conflicts (w_db w) !! id = Some c → cf_status c = OPEN →
    ResolveConflict.choose_existing (ConflictRepo.load (w_db w) c)
      (ConflictRepo.claim_ids_of (w_db w) id) (Some winner) w = (Raise e, w) →
    cf_version c = v →
    (if bool_decide (cf_status (ConflictRepo.load (w_db w) c) ≠ OPEN)
     then raise (ConflictAlreadyResolvedError id) else
     if negb (cf_version (ConflictRepo.load (w_db w) c) =? v)
     then err ← ConflictModified.from_known (ConflictRepo.load (w_db w) c); raise err else
     claim_ids ← ConflictRepo.get_claim_ids_for_conflict id;
     '(winner, conflict) ← ResolveConflict.choose_existing (ConflictRepo.load (w_db w) c)
       claim_ids (Some winner);
     ResolveConflict.apply_resolution conflict v false winner user reason) w = (Raise e, w)).
  { intros c Hc Ho Hx <-. rewrite bool_decide_false by (simpl; intros Hn; by apply Hn).
    change (cf_version (ConflictRepo.load (w_db w) c)) with (cf_version c).
    rewrite Z.eqb_refl. cbn [negb].
    eapply runs_bind; [unfold ConflictRepo.get_claim_ids_for_conflict; by rewrite query_quiet|].
    unfold mbind at 1, M_bind at 1. by rewrite Hx. }
  unfold ResolveConflict.choose_existing in Hchoose.
  destruct R as [Hc|c Hc Hs|c Hc Hs Hv|c Hc Hs Hv Hl|c Hc Hs Hv Hl Hw|c cl Hc Hs Hv Hl Hw Ht];
    rewrite Hc; cbn [fmap option_fmap option_map]; [done| | |apply Hchoose; try done..].
  - rewrite bool_decide_true by (simpl; by rewrite Hs). done.
  - rewrite bool_decide_false by (simpl; rewrite Hs; intros Hn; by apply Hn).
    change (cf_version (ConflictRepo.load (w_db w) c)) with (cf_version c).
    apply Z.eqb_neq in Hv. rewrite Hv. cbn [negb].
    eapply runs_bind; [unfold ConflictModified.from_known|].
    + eapply runs_bind; [unfold ProjectionRepo.get; by rewrite query_quiet|].
      eapply runs_bind; [unfold ActivityRepo.latest_for_conflict; by rewrite query_quiet|].
      reflexivity.
    + simpl. by rewrite (Hck id c Hc).
  - rewrite bool_decide_false by done. cbn [negb].
    change (cf_id (ConflictRepo.load (w_db w) c)) with (cf_id c). by rewrite (Hck id c Hc).
  - rewrite bool_decide_true by done. cbn [negb].
    eapply runs_bind; [unfold ClaimRepo.get; by rewrite query_quiet|]. by rewrite Hw.
  - rewrite bool_decide_true by done. cbn [negb].
    eapply runs_bind; [unfold ClaimRepo.get; by rewrite query_quiet|]. rewrite Hw.
    unfold ResolveConflict.check_winner, mbind, M_bind. rewrite can_win_active.
    assert (is_active cl = false) as -> by by apply is_active_false. by rewrite Ht.
Qed.

(** ** Examples and witnesses *)
Definition sample_conflict : ClaimConflict :=
  mkConflict 40 1 "location" OPEN 1 INITIAL None None None None 100 100 [].

(** The sample event, its location claims (one of them confirmed) in conflict 40. *)
Definition sample_conflict_db : DB :=
  upd_conflict_claims (λ _, [(40%N, 14%N); (40%N, 15%N)])
  (upd_conflicts (λ _, {[ 40%N := sample_conflict ]})
  (upd_claims (<[15%N := sample_claim 15 5 "location" (PStr "Bergen") CONFIRMED]>)
     sample_live_db)).

Definition sample_resolve :=
  ResolveConflict.execute (H := sample_hashlib) 5 40 1 (Some 14%N) PNone false (Some 9%N) "why".
Definition sample_reopen := ReopenConflict.execute (H := sample_hashlib) 40 2 (Some 8%N) "".
Definition sample_w0 : World := world_of sample_conflict_db.

Definition fst_ok {A} (r : Res A * World) : option A :=
  match r.1 with Ok a => Some a | Raise _ => None end.

Lemma sample_claims_keyed : claims_keyed sample_conflict_db.
Proof.
  intros k c Hc. change (db_claims sample_conflict_db) with
    (<[15%N := sample_claim 15 5 "location" (PStr "Bergen") CONFIRMED]> (claims_table sample_claims)) in Hc.
  apply lookup_insert_Some in Hc as [[<- <-]|[_ Hc]]; [done|].
  apply elem_of_list_to_map_2, list_elem_of_In in Hc. vm_compute in Hc.
  repeat (destruct Hc as [[= <- <-]|Hc]; [reflexivity|]). destruct Hc.
Defined.

Lemma sample_conflicts_keyed : conflicts_keyed sample_conflict_db.
Proof.
  intros k c Hc. change (db_conflicts sample_conflict_db)
    with ({[ 40%N := sample_conflict ]} : gmap UUID ClaimConflict) in Hc.
  by apply lookup_singleton_Some in Hc as [<- <-].
Defined.

Lemma resolve_effect_witness :
  ∃ out w', sample_resolve sample_w0 = (Ok out, w')
    ∧ resolution_effect 40 14 9 1 1000000 sample_conflict_db (w_db w')
    ∧ w_committed w' = w_db w' ∧ answered (H := sample_hashlib) 40 sample_conflict_db (w_db w') out.
Proof.
  eexists _, _. split; [vm_compute; reflexivity|].
  destruct (resolve_effect (H := sample_hashlib) 5 40 1 14 9 "why" sample_w0 _ _ eq_refl
    sample_claims_keyed sample_conflicts_keyed ltac:(vm_compute; reflexivity))
    as (_ & _ & _ & He & _ & Hc & _ & Ha).
  split; [exact He|split; [exact Hc|exact Ha]].
Defined.

Lemma sample_claim_cases k c :
  db_claims sample_conflict_db !! k = Some c →
  c_superseded_by c = None ∧ (k ∈ [14; 15]%N → c_event_id c = 1%N ∧ c_field_name c = "location").
Proof.
  intros Hc. change (db_claims sample_conflict_db) with
    (<[15%N := sample_claim 15 5 "location" (PStr "Bergen") CONFIRMED]> (claims_table sample_claims)) in Hc.
  apply lookup_insert_Some in Hc as [[<- <-]|[Hne Hc]]; [done|].
  apply elem_of_list_to_map_2, list_elem_of_In in Hc. vm_compute in Hc.
  repeat (destruct Hc as [[= <- <-]|Hc]; [split; [reflexivity|];
    rewrite !elem_of_cons; intros [?|[?|?%elem_of_nil]]; try done|]). destruct Hc.
Defined.

Lemma reopen_undoes_resolve_witness :
  ∃ out w1 out' w2, sample_resolve sample_w0 = (Ok out, w1) ∧ sample_reopen w1 = (Ok out', w2)
    ∧ db_claims (w_db w2) = db_claims sample_conflict_db.
Proof.
  do 4 eexists. split; [vm_compute; reflexivity|]. split; [vm_compute; reflexivity|].
  refine (proj1 (reopen_undoes_resolve (H := sample_hashlib) 5 40 1 2 14 9 8 "why" "" sample_w0
    _ _ _ _ sample_conflict eq_refl sample_claims_keyed sample_conflicts_keyed eq_refl _ _ _
    ltac:(vm_compute; reflexivity) ltac:(vm_compute; reflexivity))).
  - intros k c Hc Hin. destruct (sample_claim_cases k c Hc) as [Hs Hl]. rewrite Hs.
    change (ConflictRepo.claim_ids_of (w_db sample_w0) 40) with [14; 15]%N in Hin.
    destruct (Hl Hin) as [-> ->]. done.
  - intros k c Hc _. by destruct (sample_claim_cases k c Hc).
  - intros r Hr. by apply elem_of_nil in Hr.
Defined.

Lemma resolve_rejects_witness :
  ResolveConflict.execute (H := sample_hashlib) 5 40 3 (Some 14%N) PNone false (Some 9%N) "why"
    sample_w0
  = (Raise (ConflictModifiedError 40 1 (Some INITIAL)), sample_w0).
Proof.
  apply (resolve_rejects (H := sample_hashlib)); [reflexivity|exact sample_conflicts_keyed|].
  apply (rej_stale _ _ _ _ sample_conflict); [reflexivity|reflexivity|discriminate].
Defined.
