(* ===== verification/Reconcile.v ===== *)
(** Reconciliation of conflicts after claims were written: closing stale open
    conflicts, repairing resolved ones whose winner was superseded, opening new
    ones and merging evidence, each under a bounded optimistic retry
    (src/src/atlas/application/ingestion/_conflict_reconciler.py). *)
From S2P Require Import Prelude Text PyFloat PyVal Entities Store Json Logic Conflicts.
From S2P Require Import Projection Reproject Resolution.
Open Scope string_scope.
Open Scope list_scope.
Open Scope Z_scope.

Module ConflictReconciler.
Definition MAX_VERSION_RETRY : nat := 5.

(** Add the links the conflict lacks ([existing_ids] read after the fence). *)
Definition add_missing_links (conflict_id : UUID) (new_claim_ids : list UUID) : M unit :=
  existing_ids ← ConflictRepo.get_claim_ids_for_conflict conflict_id;
  for_each new_claim_ids (λ claim_id,
    when (negb (bool_decide (claim_id ∈ existing_ids)))
      (ConflictRepo.add_claim_to_conflict conflict_id claim_id)).

(** The columns each UPDATE sets. *)
Definition set_columns (c : ClaimConflict) (status : ConflictStatus)
    (reason : ConflictModifierReason) (note : option string) (winner : option UUID)
    (resolved_at : option datetime) (resolved_by : option UUID) (now : datetime)
    : ClaimConflict :=
  mkConflict (cf_id c) (cf_event_id c) (cf_field_name c) status (cf_version c) reason note
    winner resolved_at resolved_by (cf_created_at c) now (cf_claim_ids c).

Definition evidence_columns (now : datetime) (c : ClaimConflict) : ClaimConflict :=
  set_columns c (cf_status c) NEW_EVIDENCE (cf_last_modified_note c) (cf_winning_claim_id c)
    (cf_resolved_at c) (cf_resolved_by c) now.
Definition reopened_columns (now : datetime) (c : ClaimConflict) : ClaimConflict :=
  set_columns c OPEN NEW_EVIDENCE (Some "New evidence contradicts resolved value") None None
    None now.
Definition auto_closed_columns (winner : UUID) (now : datetime) (c : ClaimConflict)
    : ClaimConflict :=
  set_columns c RESOLVED SYSTEM_AUTO_CLOSED
    (Some "Active evidence now agrees after source-record supersession") (Some winner)
    (Some now) None now.
Definition new_winner_columns (winner : UUID) (now : datetime) (c : ClaimConflict)
    : ClaimConflict :=
  set_columns c (cf_status c) (cf_last_modified_reason c) (cf_last_modified_note c)
    (Some winner) (cf_resolved_at c) (cf_resolved_by c) now.

(** _merge_evidence_into_open *)
Fixpoint merge_evidence_loop (retries : nat) (conflict_id : UUID) (existing_open : ClaimConflict)
    (new_claim_ids : list UUID) (modifier_id : UUID) (log_reason : string)
    (modifier : ModifierType) : M unit :=
  match retries with
  | O => raise (ConflictReconciliationError conflict_id "merge_evidence_into_open"
                  (Z.of_nat MAX_VERSION_RETRY))
  | S retries' =>
      now ← utc_now;
      updated ← ConflictRepo.update_with_version_check conflict_id (cf_version existing_open)
                  (evidence_columns now);
      match updated with
      | Some u =>
          add_missing_links conflict_id new_claim_ids;;
          log_conflict_activity conflict_id (cf_event_id existing_open) (Some OPEN) OPEN modifier
            (Some modifier_id) log_reason (cf_version u) None
      | None =>
          reloaded ← ConflictRepo.get conflict_id;
          match reloaded with
          | None => mret ()
          | Some r =>
              if bool_decide (cf_status r ≠ OPEN) then mret ()
              else merge_evidence_loop retries' conflict_id r new_claim_ids modifier_id log_reason
                     modifier
          end
      end
  end.

Definition merge_evidence_into_open (existing_open : ClaimConflict) :=
  merge_evidence_loop MAX_VERSION_RETRY (cf_id existing_open) existing_open.

(** _reopen_resolved_for_evidence *)
Fixpoint reopen_loop (retries : nat) (conflict_id : UUID) (existing_resolved : ClaimConflict)
    (contradicting_claim_ids : list UUID) (modifier_id : UUID) (modifier : ModifierType)
    : M unit :=
  match retries with
  | O => raise (ConflictReconciliationError conflict_id "reopen_resolved_for_evidence"
                  (Z.of_nat MAX_VERSION_RETRY))
  | S retries' =>
      now ← utc_now;
      updated ← ConflictRepo.update_with_version_check conflict_id (cf_version existing_resolved)
                  (reopened_columns now);
      match updated with
      | Some u =>
          add_missing_links conflict_id contradicting_claim_ids;;
          log_conflict_activity conflict_id (cf_event_id existing_resolved) (Some RESOLVED) OPEN
            modifier (Some modifier_id) "Reopened due to contradictory new evidence"
            (cf_version u) None
      | None =>
          reloaded ← ConflictRepo.get conflict_id;
          match reloaded with
          | None => mret ()
          | Some r =>
              if bool_decide (cf_status r = OPEN)
              then merge_evidence_into_open r contradicting_claim_ids modifier_id
                     "Contradictory evidence merged into already-reopened conflict" modifier
              else reopen_loop retries' conflict_id r contradicting_claim_ids modifier_id modifier
          end
      end
  end.

Definition reopen_resolved_for_evidence (existing_resolved : ClaimConflict) :=
  reopen_loop MAX_VERSION_RETRY (cf_id existing_resolved) existing_resolved.

(** _auto_resolve_stale_open_conflict *)
Fixpoint auto_resolve_loop (retries : nat) (event_id : UUID) (field_name : string)
    (existing_open : ClaimConflict) (ingestion_run_id : UUID) : M unit :=
  match retries with
  | O => raise (ConflictReconciliationError (cf_id existing_open) "auto_resolve_stale_open"
                  (Z.of_nat MAX_VERSION_RETRY))
  | S retries' =>
      active ← ClaimRepo.find_active_by_event_field event_id field_name;
      match active with
      | [] => mret ()
      | winning_claim :: _ =>
          if bool_decide (1 < length (unique_normalised_values active))%nat then mret () else
          now ← utc_now;
          updated ← ConflictRepo.update_with_version_check (cf_id existing_open)
                      (cf_version existing_open) (auto_closed_columns (c_id winning_claim) now);
          match updated with
          | Some u =>
              add_missing_links (cf_id existing_open) [c_id winning_claim];;
              log_conflict_activity (cf_id existing_open) (cf_event_id existing_open) (Some OPEN)
                RESOLVED INGESTION (Some ingestion_run_id)
                "Auto-closed because source-record supersession removed the active disagreement"
                (cf_version u) None
          | None =>
              reloaded ← ConflictRepo.get (cf_id existing_open);
              match reloaded with
              | None => mret ()
              | Some r =>
                  if bool_decide (cf_status r ≠ OPEN) then mret ()
                  else auto_resolve_loop retries' event_id field_name r ingestion_run_id
              end
          end
      end
  end.

Definition auto_resolve_stale_open_conflict (event_id : UUID) (field_name : string)
    (ingestion_run_id : UUID) : M unit :=
  existing_open ← ConflictRepo.find_open_by_event_field event_id field_name;
  match existing_open with
  | None => mret ()
  | Some c => auto_resolve_loop MAX_VERSION_RETRY event_id field_name c ingestion_run_id
  end.

(** ConflictReconciler.auto_resolve_stale_open_conflicts; the set of fields is
    visited in the order of the list. *)
Definition auto_resolve_stale_open_conflicts (event_id : UUID) (affected_fields : list string)
    (ingestion_run_id : UUID) : M unit :=
  for_each affected_fields (λ f, auto_resolve_stale_open_conflict event_id f ingestion_run_id).

(** The retry loop of _reconcile_resolved_winner: when it runs out it ends
    without an error. *)
Fixpoint new_winner_loop (retries : nat) (resolved_conflict : ClaimConflict) (new_winner : UUID)
    (ingestion_run_id : UUID) (now : datetime) : M unit :=
  match retries with
  | O => mret ()
  | S retries' =>
      updated ← ConflictRepo.update_with_version_check (cf_id resolved_conflict)
                  (cf_version resolved_conflict) (new_winner_columns new_winner now);
      match updated with
      | Some u =>
          add_missing_links (cf_id resolved_conflict) [new_winner];;
          log_conflict_activity (cf_id resolved_conflict) (cf_event_id resolved_conflict)
            (Some RESOLVED) RESOLVED INGESTION (Some ingestion_run_id)
            "Winning claim superseded by source-record correction; winner updated to equivalent replacement"
            (cf_version u) None
      | None =>
          reloaded ← ConflictRepo.get (cf_id resolved_conflict);
          match reloaded with
          | None => mret ()
          | Some r =>
              if bool_decide (cf_status r ≠ RESOLVED) then mret ()
              else new_winner_loop retries' r new_winner ingestion_run_id now
          end
      end
  end.

(** _reconcile_resolved_winner *)
Definition reconcile_resolved_winner (resolved_conflict : ClaimConflict) (replacement : Claim)
    (ingestion_run_id : UUID) : M unit :=
  active ← ClaimRepo.find_active_by_event_field (cf_event_id resolved_conflict)
             (cf_field_name resolved_conflict);
  match active with
  | [] => mret ()
  | first :: _ =>
      if bool_decide (length (unique_normalised_values active) = 1)%nat then
        let new_winner :=
          if bool_decide (c_field_name replacement = cf_field_name resolved_conflict
                          ∧ c_id replacement ∈ c_id <$> active)
          then c_id replacement else c_id first in
        now ← utc_now;
        new_winner_loop MAX_VERSION_RETRY resolved_conflict new_winner ingestion_run_id now
      else reopen_resolved_for_evidence resolved_conflict (c_id <$> active) ingestion_run_id
             INGESTION
  end.

(** ConflictReconciler.reconcile_superseded_winners *)
Definition reconcile_superseded_winners (pairs : list (ClaimConflict * Claim))
    (ingestion_run_id : UUID) : M unit :=
  for_each pairs (λ p, reconcile_resolved_winner p.1 p.2 ingestion_run_id).

(** Case 3 of detect_and_apply_new_conflicts: a brand-new conflict. *)
Definition insert_new_conflict (event_id modifier_id : UUID) (modifier : ModifierType)
    (potential : ClaimConflict) : M unit :=
  inserted ← ConflictRepo.try_add_open potential;
  if negb inserted then
    reloaded_open ← ConflictRepo.find_open_by_event_field event_id (cf_field_name potential);
    match reloaded_open with
    | Some r => merge_evidence_into_open r (cf_claim_ids potential) modifier_id
                  "Merged into concurrent conflict" modifier
    | None => mret ()
    end
  else
    for_each (cf_claim_ids potential) (ConflictRepo.add_claim_to_conflict (cf_id potential));;
    log_conflict_activity (cf_id potential) (cf_event_id potential) None OPEN modifier
      (Some modifier_id) "Initial conflict detected" (cf_version potential) None.

(** Does the evidence contradict the value a resolved conflict settled on? *)
Definition contradicts (winner : Claim) (field_claims : list Claim) : bool :=
  existsb (λ c, negb (py_eq (normalize_value (c_field_value c))
                        (normalize_value (c_field_value winner)))) field_claims.

(** The body of the loop over the detected conflicts. *)
Definition apply_potential (event_id modifier_id : UUID) (modifier : ModifierType)
    (active_claims : list Claim) (open_by_field resolved_by_field : list (string * ClaimConflict))
    (potential : ClaimConflict) : M unit :=
  let field_name := cf_field_name potential in
  match dict_get field_name open_by_field with
  | Some existing_open =>
      merge_evidence_into_open existing_open (cf_claim_ids potential) modifier_id
        "New evidence added to existing conflict" modifier
  | None =>
      match dict_get field_name resolved_by_field with
      | Some existing_any =>
          winner ← match cf_winning_claim_id existing_any with
                   | Some w => ClaimRepo.get w
                   | None => mret None
                   end;
          let field_claims := filter (λ c, c_field_name c = field_name) active_claims in
          match winner with
          | Some winner =>
              if contradicts winner field_claims
              then reopen_resolved_for_evidence existing_any (c_id <$> field_claims) modifier_id
                     modifier
              else insert_new_conflict event_id modifier_id modifier potential
          | None => insert_new_conflict event_id modifier_id modifier potential
          end
      | None => insert_new_conflict event_id modifier_id modifier potential
      end
  end.

(** The OPEN conflicts by field; a later one of the list overwrites. *)
Definition open_by_field (existing : list ClaimConflict) : list (string * ClaimConflict) :=
  foldl (λ d c, if bool_decide (cf_status c = OPEN) then dict_set (cf_field_name c) c d else d)
    [] existing.

(** ConflictReconciler.detect_and_apply_new_conflicts *)
Definition detect_and_apply_new_conflicts (event_id modifier_id : UUID) (modifier : ModifierType)
    : M unit :=
  active_claims ← ClaimRepo.find_active_by_event event_id;
  detected ← ConflictDetector.detect true active_claims;
  if bool_decide (detected = []) then mret () else
  existing ← ConflictRepo.find_by_event event_id;
  for_each detected
    (apply_potential event_id modifier_id modifier active_claims (open_by_field existing)
       (latest_resolved_conflicts_by_field existing)).
End ConflictReconciler.

(** ** Quiet runs of the building blocks *)
Section blocks.
Import ConflictRepo.

Lemma update_conflict_ok id f c w :
  quiet w → db_conflicts (w_db w) !! id = Some c →
  open_clash (db_conflicts (w_db w)) id (with_version (cf_version c + 1) (f c)) = false →
  update_with_version_check id (cf_version c) f w
  = (Ok (Some (load (w_db w) (with_version (cf_version c + 1) (f c)))),
     set_db (upd_conflicts <[id := with_version (cf_version c + 1) (f c)]> (w_db w)) w).
Proof.
  intros Hq Hc Hn. unfold update_with_version_check. rewrite stmt_quiet by done.
  by rewrite Hc, Z.eqb_refl, Hn.
Qed.

Lemma open_clash_false m id c :
  (cf_status c = OPEN → ∀ k c', m !! k = Some c' → k ≠ id →
     ¬ is_open_for (cf_event_id c) (cf_field_name c) c') →
  open_clash m id c = false.
Proof.
  intros Hno. unfold open_clash. case_bool_decide as Ho; [|done]. simpl.
  apply not_true_is_false. intros ([k c'] & Hin & Hx)%existsb_exists. simpl in Hx.
  apply andb_true_iff in Hx as [Hk Hf]. apply negb_true_iff, bool_decide_eq_false in Hk.
  apply bool_decide_eq_true in Hf. apply list_elem_of_In, elem_of_map_to_list in Hin.
  by apply (Hno Ho k c').
Qed.

(** A change of the link table that only adds links, to one conflict. *)
Definition links_added (id : UUID) (db db' : DB) : Prop :=
  ∃ l, db' = upd_conflict_claims (λ _, l) db
    ∧ (∀ p, p ∈ db_conflict_claims db → p ∈ l)
    ∧ (∀ p, p ∈ l → p ∈ db_conflict_claims db ∨ p.1 = id).

Lemma links_added_refl id db : links_added id db db.
Proof. exists (db_conflict_claims db). split; [by destruct db|]. auto. Qed.

Lemma links_added_trans id db1 db2 db3 :
  links_added id db1 db2 → links_added id db2 db3 → links_added id db1 db3.
Proof.
  intros (l2 & -> & H2 & H2') (l3 & -> & H3 & H3'). exists l3. split; [done|].
  simpl in *. split; [auto|]. intros p [Hp|Hp]%H3'; auto.
Qed.

Lemma elem_of_claim_ids db id k : k ∈ claim_ids_of db id ↔ (id, k) ∈ db_conflict_claims db.
Proof.
  unfold claim_ids_of. rewrite list_elem_of_fmap. split.
  - intros ([i k'] & -> & [Hi Hp]%list_elem_of_filter). simpl in *. by subst.
  - intros H. exists (id, k). split; [done|]. by apply list_elem_of_filter.
Qed.

Lemma add_claim_quiet id k w :
  quiet w → ∃ w', add_claim_to_conflict id k w = (Ok tt, w') ∧ quiet w'
    ∧ links_added id (w_db w) (w_db w') ∧ k ∈ claim_ids_of (w_db w') id
    ∧ w_uuid w' = w_uuid w ∧ w_committed w' = w_committed w.
Proof.
  intros Hq. unfold add_claim_to_conflict. rewrite exec_quiet by done. eexists. split; [done|].
  split; [done|]. simpl. rewrite elem_of_claim_ids. simpl. case_bool_decide as Hin.
  - split_and!; [|done|done|done]. exists (db_conflict_claims (w_db w)). split_and!; [|auto|auto].
    unfold upd_conflict_claims. by rewrite bool_decide_true.
  - split_and!; [|apply elem_of_app; right; by left|done|done].
    eexists. split_and!; [unfold upd_conflict_claims; by rewrite bool_decide_false| |].
    + intros p Hp. apply elem_of_app. by left.
    + intros p [Hp| ->%list_elem_of_singleton]%elem_of_app; auto.
Qed.

Lemma add_links_quiet id (ids : list UUID) (f : UUID → M unit) w :
  (∀ k, f k = add_claim_to_conflict id k
        ∨ f k = mret () ∧ k ∈ claim_ids_of (w_db w) id) → quiet w →
  ∃ w', for_each ids f w = (Ok tt, w') ∧ quiet w' ∧ links_added id (w_db w) (w_db w')
    ∧ (∀ k, k ∈ ids → k ∈ claim_ids_of (w_db w') id)
    ∧ w_uuid w' = w_uuid w ∧ w_committed w' = w_committed w.
Proof.
  revert w. induction ids as [|k ids IH]; intros w Hf Hq.
  - exists w. split_and!; try done; [apply links_added_refl|by intros k ?%elem_of_nil].
  - assert (∃ w1, f k w = (Ok tt, w1) ∧ quiet w1 ∧ links_added id (w_db w) (w_db w1)
      ∧ k ∈ claim_ids_of (w_db w1) id ∧ w_uuid w1 = w_uuid w ∧ w_committed w1 = w_committed w)
      as (w1 & E1 & Hq1 & Ha1 & Hk1 & Hu1 & Hc1).
    { destruct (Hf k) as [->|[-> Hin]]; [by apply add_claim_quiet|].
      exists w. split_and!; try done. apply links_added_refl. }
    assert (Hmono : ∀ db, links_added id (w_db w1) db →
      ∀ j, j ∈ claim_ids_of (w_db w1) id → j ∈ claim_ids_of db id).
    { intros db (l & -> & Hl & _) j. rewrite !elem_of_claim_ids. apply Hl. }
    destruct (IH w1) as (w2 & E2 & Hq2 & Ha2 & Hk2 & Hu2 & Hc2); [|done|].
    { intros j. destruct (Hf j) as [?|[? Hj]]; [by left|right]. split; [done|].
      destruct Ha1 as (l & -> & Hl & _). revert Hj. rewrite !elem_of_claim_ids. apply Hl. }
    exists w2. split_and!; [by eapply runs_bind|done|by eapply links_added_trans| |congruence..].
    intros j [->|Hj]%elem_of_cons; [by apply Hmono|by apply Hk2].
Qed.

Lemma add_missing_links_quiet id ids w :
  quiet w →
  ∃ w', ConflictReconciler.add_missing_links id ids w = (Ok tt, w') ∧ quiet w'
    ∧ links_added id (w_db w) (w_db w') ∧ (∀ k, k ∈ ids → k ∈ claim_ids_of (w_db w') id)
    ∧ w_uuid w' = w_uuid w ∧ w_committed w' = w_committed w.
Proof.
  intros Hq. unfold ConflictReconciler.add_missing_links.
  edestruct (add_links_quiet id ids (λ claim_id, when (negb (bool_decide
    (claim_id ∈ claim_ids_of (w_db w) id))) (add_claim_to_conflict id claim_id)) w)
    as (w' & E & H); [|done|].
  - intros k. case_bool_decide; simpl; [by right|by left].
  - exists w'. split; [|exact H]. eapply runs_bind; [|exact E].
    unfold get_claim_ids_for_conflict. by rewrite query_quiet.
Qed.

Lemma log_activity_ok id e from_ to_ mt user reason v snap w :
  quiet w →
  ∃ entry w', log_conflict_activity id e from_ to_ mt user reason v snap w = (Ok tt, w')
    ∧ quiet w' ∧ next_entry (w_db w) id from_ to_ user v entry
    ∧ w_db w' = upd_activity (λ l, l ++ [entry]) (w_db w) ∧ (w_uuid w ≤ w_uuid w')%N.
Proof.
  intros Hq. destruct (log_conflict_activity id e from_ to_ mt user reason v snap w)
    as [r w'] eqn:E. destruct r as [[]|x].
  - pose proof E as E'. apply log_activity_quiet in E' as (entry & He & Hq' & Hd & _); [|done].
    exists entry, w'. split_and!; try done.
    assert (Hn : NoCommit (log_conflict_activity id e from_ to_ mt user reason v snap)).
    { unfold log_conflict_activity, ActivityRepo.next_sequence, ActivityRepo.add.
      repeat nocommit_step. }
    destruct (proj1 Hn w) as (_ & _ & Hu). by rewrite E in Hu.
  - exfalso. destruct w as [db com env now uid]. unfold quiet in Hq. simpl in Hq. subst env.
    unfold log_conflict_activity, ActivityRepo.next_sequence, ActivityRepo.add, query, stmt,
      mbind, M_bind, uuid4, utc_now in E. simpl in E.
    case_bool_decide as Hs; [|done]. apply foldr_max_ge in Hs. lia.
Qed.
End blocks.

(** ** One detected conflict, run alone *)
Section one_potential.
Import ConflictRepo ConflictReconciler.

Definition one_open (db : DB) : Prop :=
  ∀ e f k1 k2 c1 c2, db_conflicts db !! k1 = Some c1 → db_conflicts db !! k2 = Some c2 →
    is_open_for e f c1 → is_open_for e f c2 → k1 = k2.

Definition in_group (e : UUID) (f : string) (c : ClaimConflict) : Prop :=
  cf_event_id c = e ∧ cf_field_name c = f.

(** One row of the group became (or stayed) OPEN and is linked to all of [ids];
    nothing else changed but the activity log. *)
Definition opened (e : UUID) (f : string) (fresh : UUID) (ids : list UUID) (db db' : DB) : Prop :=
  ∃ k row l acts,
    db' = upd_activity (λ _, acts) (upd_conflict_claims (λ _, l) (upd_conflicts <[k := row]> db))
    ∧ in_group e f row ∧ cf_status row = OPEN ∧ cf_id row = k
    ∧ match db_conflicts db !! k with Some c => in_group e f c | None => k = fresh end
    ∧ (∀ k' c', db_conflicts db !! k' = Some c' → is_open_for e f c' → k' = k)
    ∧ (∀ p, p ∈ db_conflict_claims db → p ∈ l) ∧ (∀ j, j ∈ ids → (k, j) ∈ l).

(** An UPDATE (or INSERT) of one row, its links, its log entry. *)
Lemma opened_intro e f fresh ids db k row (db1 db2 db3 : DB) entry :
  in_group e f row → cf_status row = OPEN → cf_id row = k →
  match db_conflicts db !! k with Some c => in_group e f c | None => k = fresh end →
  (∀ k' c', db_conflicts db !! k' = Some c' → is_open_for e f c' → k' = k) →
  db1 = upd_conflicts <[k := row]> db → links_added k db1 db2 →
  (∀ j, j ∈ ids → j ∈ claim_ids_of db2 k) →
  db3 = upd_activity (λ l, l ++ [entry]) db2 → opened e f fresh ids db db3.
Proof.
  intros Hg Ho Hi Hk Hu -> (l & -> & Hl & _) Hids ->. exists k, row, l, (db_activity db ++ [entry]).
  split_and!; try done. intros j Hj. specialize (Hids j Hj). by rewrite elem_of_claim_ids in Hids.
Qed.

Lemma merge_evidence_quiet ex k c ids modifier_id reason modifier fresh w :
  quiet w → one_open (w_db w) → conflicts_keyed (w_db w) →
  db_conflicts (w_db w) !! k = Some c → cf_status c = OPEN →
  cf_id ex = k → cf_version ex = cf_version c →
  ∃ w', merge_evidence_into_open ex ids modifier_id reason modifier w = (Ok tt, w') ∧ quiet w'
    ∧ opened (cf_event_id c) (cf_field_name c) fresh ids (w_db w) (w_db w').
Proof.
  intros Hq H1 Hkey Hc Ho Hid Hv. unfold merge_evidence_into_open. simpl. rewrite Hid, Hv.
  pose (f := evidence_columns (w_now w)).
  assert (Hclash : open_clash (db_conflicts (w_db w)) k
    (with_version (cf_version c + 1) (f c)) = false).
  { apply open_clash_false. intros _ k' c' Hc' Hne Hf. apply Hne.
    by apply (H1 (cf_event_id c) (cf_field_name c) k' k c' c). }
  pose proof (update_conflict_ok k f c (mkWorld (w_db w) (w_committed w) (w_env w)
    (w_now w + 1) (w_uuid w)) Hq Hc Hclash) as Hu.
  set (w1 := set_db _ _) in Hu. assert (Hq1 : quiet w1) by done.
  destruct (add_missing_links_quiet k ids w1 Hq1) as (w2 & E2 & Hq2 & Ha & Hl & _).
  edestruct (log_activity_ok k (cf_event_id ex) (Some OPEN) OPEN modifier (Some modifier_id)
    reason (cf_version c + 1) None w2 Hq2) as (entry & w3 & E3 & Hq3 & _ & Hd3 & _).
  exists w3. split; [|split; [done|]].
  - eapply runs_bind; [reflexivity|]. eapply runs_bind; [exact Hu|].
    eapply runs_bind; [exact E2|]. exact E3.
  - eapply (opened_intro _ _ _ _ _ k (with_version (cf_version c + 1) (f c))); try done.
    + simpl. by apply Hkey.
    + by rewrite Hc.
    + intros k' c' Hc' Hf. by apply (H1 (cf_event_id c) (cf_field_name c) k' k c' c).
Qed.

Lemma reopen_evidence_quiet ex k c ids modifier_id modifier fresh w :
  quiet w → conflicts_keyed (w_db w) → db_conflicts (w_db w) !! k = Some c →
  (∀ k' c', db_conflicts (w_db w) !! k' = Some c' →
     ¬ is_open_for (cf_event_id c) (cf_field_name c) c') →
  cf_id ex = k → cf_version ex = cf_version c →
  ∃ w', reopen_resolved_for_evidence ex ids modifier_id modifier w = (Ok tt, w') ∧ quiet w'
    ∧ opened (cf_event_id c) (cf_field_name c) fresh ids (w_db w) (w_db w').
Proof.
  intros Hq Hkey Hc Hno Hid Hv. unfold reopen_resolved_for_evidence. simpl. rewrite Hid, Hv.
  pose (f := reopened_columns (w_now w)).
  assert (Hclash : open_clash (db_conflicts (w_db w)) k
    (with_version (cf_version c + 1) (f c)) = false).
  { apply open_clash_false. intros _ k' c' Hc' _ Hf. by apply (Hno k' c'). }
  pose proof (update_conflict_ok k f c (mkWorld (w_db w) (w_committed w) (w_env w)
    (w_now w + 1) (w_uuid w)) Hq Hc Hclash) as Hu.
  set (w1 := set_db _ _) in Hu. assert (Hq1 : quiet w1) by done.
  destruct (add_missing_links_quiet k ids w1 Hq1) as (w2 & E2 & Hq2 & Ha & Hl & _).
  edestruct (log_activity_ok k (cf_event_id ex) (Some RESOLVED) OPEN modifier (Some modifier_id)
    "Reopened due to contradictory new evidence" (cf_version c + 1) None w2 Hq2)
    as (entry & w3 & E3 & Hq3 & _ & Hd3 & _).
  exists w3. split; [|split; [done|]].
  - eapply runs_bind; [reflexivity|]. eapply runs_bind; [exact Hu|].
    eapply runs_bind; [exact E2|]. exact E3.
  - eapply (opened_intro _ _ _ _ _ k (with_version (cf_version c + 1) (f c))); try done.
    + simpl. by apply Hkey.
    + by rewrite Hc.
    + intros k' c' Hc' Hf. by destruct (Hno k' c').
Qed.

Lemma insert_quiet e modifier_id modifier p w :
  quiet w → cf_status p = OPEN →
  (∀ k c, db_conflicts (w_db w) !! k = Some c →
     ¬ is_open_for (cf_event_id p) (cf_field_name p) c) →
  db_conflicts (w_db w) !! cf_id p = None →
  ∃ w', insert_new_conflict e modifier_id modifier p w = (Ok tt, w') ∧ quiet w'
    ∧ opened (cf_event_id p) (cf_field_name p) (cf_id p) (cf_claim_ids p) (w_db w) (w_db w').
Proof.
  intros Hq Ho Hno Hfresh.
  assert (Hrows : open_rows (cf_event_id p) (cf_field_name p) (w_db w) = []).
  { destruct (open_rows _ _ _) as [|c l] eqn:El; [done|exfalso].
    assert (Hin : c ∈ open_rows (cf_event_id p) (cf_field_name p) (w_db w))
      by (rewrite El; by left).
    apply list_elem_of_filter in Hin as [Hf (k & Hc)%elem_of_rows]. by apply (Hno k c). }
  pose (w1 := set_db (upd_conflicts <[cf_id p := cf_with_claim_ids [] p]> (w_db w)) w).
  assert (Hq1 : quiet w1) by done.
  edestruct (add_links_quiet (cf_id p) (cf_claim_ids p) (add_claim_to_conflict (cf_id p)) w1)
    as (w2 & E2 & Hq2 & Ha & Hl & _); [by intros k; left|done|].
  edestruct (log_activity_ok (cf_id p) (cf_event_id p) None OPEN modifier (Some modifier_id)
    "Initial conflict detected" (cf_version p) None w2 Hq2)
    as (entry & w3 & E3 & Hq3 & _ & Hd3 & _).
  exists w3. split; [|split; [done|]].
  - unfold insert_new_conflict. eapply runs_bind.
    { unfold try_add_open. rewrite stmt_quiet by done. rewrite Hrows, bool_decide_false, Hfresh by naive_solver.
      reflexivity. }
    cbn [negb]. eapply runs_bind; [exact E2|]. exact E3.
  - eapply (opened_intro _ _ _ _ _ (cf_id p) (cf_with_claim_ids [] p)); try done.
    + by rewrite Hfresh.
    + intros k' c' Hc' Hf. by destruct (Hno k' c').
Qed.
End one_potential.

(** ** The loop over the detected conflicts *)
Section loop.
Import ConflictRepo ConflictReconciler.
Context (e modifier_id : UUID) (modifier : ModifierType) (db0 : DB).

Abbreviation active := (ClaimRepo.active_by_event e db0).
Abbreviation existing := (conflicts_of db0 e).

Lemma elem_of_existing c :
  c ∈ existing ↔ ∃ k c0, db_conflicts db0 !! k = Some c0 ∧ cf_event_id c0 = e ∧ c = load db0 c0.
Proof.
  unfold conflicts_of. rewrite list_elem_of_fmap. setoid_rewrite elem_of_py_sorted.
  setoid_rewrite list_elem_of_filter. setoid_rewrite elem_of_rows. naive_solver.
Qed.

Lemma open_by_field_spec (l : list ClaimConflict) f :
  match dict_get f (open_by_field l) with
  | Some c => c ∈ l ∧ cf_field_name c = f ∧ cf_status c = OPEN
  | None => ∀ c, c ∈ l → cf_field_name c = f → cf_status c ≠ OPEN
  end.
Proof.
  unfold open_by_field. induction l as [|c l IH] using rev_ind; [by intros c ?%elem_of_nil|].
  rewrite foldl_app. simpl. case_bool_decide as Ho.
  - rewrite dict_get_set. case_decide as Hf.
    + split_and!; [apply elem_of_app; right; by left|done|done].
    + destruct (dict_get f _) as [c'|].
      * destruct IH as (? & ? & ?). split_and!; [apply elem_of_app; auto|done|done].
      * intro_snoc x Hx; [auto|]. congruence.
  - destruct (dict_get f _) as [c'|].
    + destruct IH as (? & ? & ?). split_and!; [apply elem_of_app; auto|done|done].
    + intro_snoc x Hx; auto.
Qed.

(** A detected conflict, ready to be applied to tables [db] whose rows of its
    group are still those of the start. *)
Record ready (db : DB) (p : ClaimConflict) : Prop := mkReady {
  rd_event : cf_event_id p = e;
  rd_open : cf_status p = OPEN;
  rd_fresh : db_conflicts db !! cf_id p = None;
  rd_ids : cf_claim_ids p = c_id <$> filter (λ c, c_field_name c = cf_field_name p) active;
  rd_rows : ∀ k c, in_group e (cf_field_name p) c →
    db_conflicts db !! k = Some c ↔ db_conflicts db0 !! k = Some c;
}.

Lemma apply_potential_quiet p w :
  quiet w → one_open (w_db w) → conflicts_keyed (w_db w) → ready (w_db w) p →
  ∃ w', apply_potential e modifier_id modifier active (open_by_field existing)
          (latest_resolved_conflicts_by_field existing) p w = (Ok tt, w') ∧ quiet w'
    ∧ opened e (cf_field_name p) (cf_id p) (cf_claim_ids p) (w_db w) (w_db w').
Proof.
  intros Hq H1 Hkey [He Ho Hfr Hids Hrows]. unfold apply_potential. cbv zeta.
  pose proof (open_by_field_spec existing (cf_field_name p)) as Hspec.
  destruct (dict_get (cf_field_name p) (open_by_field existing)) as [ex|].
  - destruct Hspec as ((k & c & Hc & Hce & ->)%elem_of_existing & Hf & Hst). simpl in Hf, Hst.
    assert (Hcur : db_conflicts (w_db w) !! k = Some c) by by apply Hrows.
    destruct (merge_evidence_quiet (load db0 c) k c (cf_claim_ids p) modifier_id
      "New evidence added to existing conflict" modifier (cf_id p) w) as (w' & E & Hq' & Hop);
      try done; [exact (Hkey k c Hcur)|]. exists w'. by rewrite <- Hce, <- Hf.
  - assert (Hno : ∀ k c, db_conflicts (w_db w) !! k = Some c →
      ¬ is_open_for e (cf_field_name p) c).
    { intros k c Hc (Hce & Hcf & Hst). apply (Hspec (load db0 c)); [|done|done].
      apply elem_of_existing. exists k, c. split_and!; [|done|done]. by apply Hrows. }
    assert (Hins : ∃ w', insert_new_conflict e modifier_id modifier p w = (Ok tt, w') ∧ quiet w'
      ∧ opened e (cf_field_name p) (cf_id p) (cf_claim_ids p) (w_db w) (w_db w')).
    { destruct (insert_quiet e modifier_id modifier p w) as (w' & E & Hq' & Hop); try done;
        [rewrite He; exact Hno|]. exists w'. by rewrite He in Hop. }
    pose proof (latest_resolved_spec existing (cf_field_name p)) as Hres.
    destruct (dict_get _ (latest_resolved_conflicts_by_field existing)) as [ex|]; [|done].
    destruct Hres as ((k & c & Hc & Hce & ->)%elem_of_existing & Hf & Hst & _). simpl in Hf, Hst.
    assert (Hcur : db_conflicts (w_db w) !! k = Some c) by by apply Hrows.
    assert (Hwin : ∃ o, (match cf_winning_claim_id (load db0 c) with
                         | Some w => ClaimRepo.get w | None => mret None end) w = (Ok o, w)).
    { destruct (cf_winning_claim_id _); [|by exists None]. unfold ClaimRepo.get.
      rewrite query_quiet by done. eauto. }
    destruct Hwin as [o Hwin].
    assert (Hre : ∃ w', reopen_resolved_for_evidence (load db0 c)
        (c_id <$> filter (λ c, c_field_name c = cf_field_name p) active) modifier_id modifier w
        = (Ok tt, w') ∧ quiet w'
      ∧ opened e (cf_field_name p) (cf_id p) (cf_claim_ids p) (w_db w) (w_db w')).
    { rewrite <- Hids. destruct (reopen_evidence_quiet (load db0 c) k c (cf_claim_ids p) modifier_id modifier
        (cf_id p) w) as (w' & E & Hq' & Hop); try done.
      - rewrite Hce, Hf. exact Hno.
      - exact (Hkey k c Hcur).
      - exists w'. by rewrite <- Hce, <- Hf. }
    assert (Hb : ∀ f : option Claim → M unit, (x ← match cf_winning_claim_id (load db0 c) with
      | Some w => ClaimRepo.get w | None => mret None end; f x) w = f o w)
      by (intros f; by eapply runs_bind).
    rewrite Hb. destruct o as [winner|]; [|done].
    match goal with |- context [if ?b then _ else _] => destruct b; [exact Hre|exact Hins] end.
Qed.

(** The field has an OPEN conflict linked to all these claims. *)
Definition covered (db : DB) (f : string) (ids : list UUID) : Prop :=
  ∃ k c, db_conflicts db !! k = Some c ∧ is_open_for e f c ∧ ∀ j, j ∈ ids → j ∈ claim_ids_of db k.

Lemma opened_covered f fresh ids db db' : opened e f fresh ids db db' → covered db' f ids.
Proof.
  intros (k & row & l & acts & -> & [Hre Hrf] & Ho & _ & _ & _ & _ & Hids). exists k, row.
  simpl. rewrite lookup_insert_eq. split_and!; [done|by split_and!|].
  intros j Hj. rewrite elem_of_claim_ids. simpl. auto.
Qed.

Lemma opened_keeps_covered f fresh ids db db' f' ids' :
  opened e f fresh ids db db' → f' ≠ f → covered db f' ids' → covered db' f' ids'.
Proof.
  intros (k & row & l & acts & -> & _ & _ & _ & Hk & _ & Hl & _) Hne (k' & c & Hc & Hf & Hids).
  exists k', c. simpl. assert (k ≠ k') as Hkk.
  { intros ->. rewrite Hc in Hk. destruct Hf as (_ & Hf & _), Hk as [_ Hk]. congruence. }
  rewrite lookup_insert_ne by done. split_and!; [done|done|]. intros j Hj.
  specialize (Hids j Hj). rewrite elem_of_claim_ids in Hids |- *. simpl. auto.
Qed.

Lemma opened_keeps_ready f fresh ids db db' p :
  opened e f fresh ids db db' → cf_field_name p ≠ f → cf_id p ≠ fresh →
  ready db p → ready db' p.
Proof.
  intros (k & row & l & acts & -> & [Hge Hgf] & _ & _ & Hk & _ & _ & _) Hne Hid [H1 H2 H3 H4 H5].
  split; try done.
  - simpl. rewrite lookup_insert_ne; [done|]. intros ->. by rewrite H3 in Hk.
  - intros k' c [Hce Hcf]. simpl. rewrite <- H5 by done. destruct (decide (k = k')) as [<-|Hkk].
    + rewrite lookup_insert_eq. split; [intros [= <-]; congruence|].
      intros Hc. rewrite Hc in Hk. destruct Hk. congruence.
    + by rewrite lookup_insert_ne.
Qed.

Lemma opened_keeps_one_open f fresh ids db db' :
  opened e f fresh ids db db' → one_open db → one_open db'.
Proof.
  intros (k & row & l & acts & -> & [<- <-] & _ & _ & Hk & Hu & _ & _) H1 e' f' k1 k2 c1 c2.
  simpl. rewrite !lookup_insert_Some.
  intros [[<- <-]|[Hn1 Hc1]] [[<- <-]|[Hn2 Hc2]] Hf1 Hf2; [done| | |by eapply H1].
  - symmetry. destruct Hf1 as (<- & <- & _). by apply (Hu k2 c2).
  - destruct Hf2 as (<- & <- & _). by apply (Hu k1 c1).
Qed.

Lemma opened_keeps_keyed f fresh ids db db' :
  opened e f fresh ids db db' → conflicts_keyed db → conflicts_keyed db'.
Proof.
  intros (k & row & l & acts & -> & _ & _ & Hid & _) Hkey k' c. simpl.
  rewrite lookup_insert_Some. intros [[<- <-]|[_ Hc]]; [done|by apply Hkey].
Qed.

(** Claims, and every table but the conflicts', are as before. *)
Definition same_evidence (db db' : DB) : Prop :=
  db_claims db' = db_claims db ∧ db_claim_history db' = db_claim_history db
  ∧ db_events db' = db_events db ∧ db_projections db' = db_projections db
  ∧ db_projection_history db' = db_projection_history db ∧ db_outbox db' = db_outbox db.

Lemma opened_same_evidence f fresh ids db db' :
  opened e f fresh ids db db' → same_evidence db db'.
Proof. by intros (k & row & l & acts & -> & _). Qed.

Lemma opened_rows f fresh ids db db' k c :
  opened e f fresh ids db db' → db_conflicts db' !! k = Some c →
  db_conflicts db !! k = Some c ∨ in_group e f c.
Proof.
  intros (k' & row & l & acts & -> & Hg & _). simpl. rewrite lookup_insert_Some.
  intros [[<- <-]|[_ Hc]]; [by right|by left].
Qed.

Lemma loop_quiet ps w :
  quiet w → one_open (w_db w) → conflicts_keyed (w_db w) →
  Forall (ready (w_db w)) ps → NoDup (cf_field_name <$> ps) → NoDup (cf_id <$> ps) →
  ∃ w', for_each ps (apply_potential e modifier_id modifier active (open_by_field existing)
          (latest_resolved_conflicts_by_field existing)) w = (Ok tt, w') ∧ quiet w'
    ∧ one_open (w_db w') ∧ conflicts_keyed (w_db w') ∧ same_evidence (w_db w) (w_db w')
    ∧ (∀ p, p ∈ ps → covered (w_db w') (cf_field_name p) (cf_claim_ids p))
    ∧ (∀ f ids, f ∉ cf_field_name <$> ps → covered (w_db w) f ids → covered (w_db w') f ids)
    ∧ (∀ k c, db_conflicts (w_db w') !! k = Some c →
         db_conflicts (w_db w) !! k = Some c
         ∨ cf_event_id c = e ∧ cf_field_name c ∈ cf_field_name <$> ps).
Proof.
  revert w. induction ps as [|p ps IH]; intros w Hq H1 Hkey Hr Hnf Hni.
  { exists w. split_and!; try done; [by intros p ?%elem_of_nil|by left]. }
  apply Forall_cons in Hr as [Hp Hr].
  apply NoDup_cons in Hnf as [Hpf Hnf]. apply NoDup_cons in Hni as [Hpi Hni].
  destruct (apply_potential_quiet p w Hq H1 Hkey Hp) as (w1 & E1 & Hq1 & Hop).
  destruct (IH w1) as (w2 & E2 & Hq2 & H12 & Hkey2 & Hs2 & Hcov & Hkeep & Hrows); try done.
  - by eapply opened_keeps_one_open.
  - by eapply opened_keeps_keyed.
  - apply Forall_forall. intros p' Hp'. rewrite Forall_forall in Hr.
    eapply opened_keeps_ready; [exact Hop| | |by apply Hr].
    + intros Hf. apply Hpf. rewrite <- Hf. by apply list_elem_of_fmap_2.
    + intros Hf. apply Hpi. rewrite <- Hf. by apply list_elem_of_fmap_2.
  - exists w2. split_and!; [by eapply runs_bind|done|done|done| | | |].
    + pose proof (opened_same_evidence _ _ _ _ _ Hop) as Hs1.
      unfold same_evidence in *. naive_solver congruence.
    + intros p' [->|Hp']%elem_of_cons; [|by apply Hcov].
      apply Hkeep; [done|]. by eapply opened_covered.
    + intros f ids. rewrite fmap_cons, not_elem_of_cons. intros [Hne Hn] Hc.
      apply Hkeep; [done|]. by eapply opened_keeps_covered.
    + intros k c [Hc|[? ?]]%Hrows; [|right; split; [done|by right]].
      destruct (opened_rows _ _ _ _ _ _ _ Hop Hc) as [?|[? Hf]]; [by left|right].
      split; [done|]. rewrite Hf. by left.
Qed.
End loop.

(** ** Detection publishes nothing *)
Ltac unfold_repos :=
  unfold log_claim_history, log_conflict_activity, ClaimRepo.lock_for_update,
    EventRepo.lock_for_update, ClaimRepo.add, ClaimRepo.get, ClaimRepo.get_many,
    ClaimRepo.find_active_by_event, ClaimRepo.find_active_by_event_field,
    ClaimRepo.bulk_supersede, ClaimRepo.bulk_unsupersede, ClaimRepo.find_superseded_by,
    ClaimHistoryRepo.add, ConflictRepo.get, ConflictRepo.try_add_open, ConflictRepo.find_by_event,
    ConflictRepo.find_open_by_event_field, ConflictRepo.get_claim_ids_for_conflict,
    ConflictRepo.add_claim_to_conflict, ConflictRepo.update_with_version_check,
    ConflictRepo.close_event_conflicts_as_merged, ActivityRepo.next_sequence, ActivityRepo.add,
    ActivityRepo.latest_for_conflict, ProjectionRepo.get, ProjectionRepo.delete, OutboxRepo.add,
    ReviewRepo.get, ReviewRepo.find_existing_pair, ReviewRepo.update_status,
    IdentityRepo.merge_identity_index, EventRepo.get,
    EventRepo.try_atomic_merge, SourceRepo.get in *.

Ltac nocommit_walk := unfold_repos; repeat first [solve [auto 2] | nocommit_step].

Lemma merge_evidence_NoCommit rb n id ex ids m r mt :
  Unpublished rb (ConflictReconciler.merge_evidence_loop n id ex ids m r mt).
Proof.
  unfold ConflictReconciler.add_missing_links. revert ex.
  induction n as [|n IH]; intros ex; simpl; [apply NoCommit_raise|].
  unfold ConflictReconciler.add_missing_links. nocommit_walk.
Qed.

Lemma reopen_evidence_NoCommit rb n id ex ids m mt :
  Unpublished rb (ConflictReconciler.reopen_loop n id ex ids m mt).
Proof.
  pose proof (merge_evidence_NoCommit rb). revert ex.
  induction n as [|n IH]; intros ex; simpl; [apply NoCommit_raise|].
  unfold ConflictReconciler.add_missing_links, ConflictReconciler.merge_evidence_into_open.
  nocommit_walk.
Qed.

Lemma detect_and_apply_NoCommit rb e m mt :
  Unpublished rb (ConflictReconciler.detect_and_apply_new_conflicts e m mt).
Proof.
  pose proof (merge_evidence_NoCommit rb). pose proof (reopen_evidence_NoCommit rb).
  unfold ConflictReconciler.detect_and_apply_new_conflicts, ConflictDetector.detect,
    ConflictReconciler.apply_potential, ConflictReconciler.insert_new_conflict,
    ConflictReconciler.merge_evidence_into_open, ConflictReconciler.reopen_resolved_for_evidence.
  cbv zeta. nocommit_walk.
Qed.

(** ** Detection, run alone *)
Section detection.
Definition detected_as (low : N) (g : (UUID * string) * list UUID) (c : ClaimConflict) : Prop :=
  cf_event_id c = g.1.1 ∧ cf_field_name c = g.1.2 ∧ cf_status c = OPEN ∧ cf_claim_ids c = g.2
  ∧ (low ≤ cf_id c)%N.

Lemma detect_quiet req claims w :
  quiet w → ∃ l w', ConflictDetector.detect req claims w = (Ok l, w') ∧ quiet w'
    ∧ w_db w' = w_db w ∧ Forall2 (detected_as (w_uuid w)) (ConflictDetector.potential req claims) l
    ∧ NoDup (cf_id <$> l).
Proof.
  intros Hq. unfold ConflictDetector.detect.
  generalize (ConflictDetector.potential req claims) as gs. intros gs. revert w Hq.
  induction gs as [|g gs IH]; intros w Hq; [exists [], w; split_and!; try done; constructor|].
  destruct w as [db com env now uid]. unfold quiet in Hq. simpl in Hq. subst env.
  destruct (IH (mkWorld db com [] (now + 1 + 1) (uid + 1)%N) eq_refl)
    as (l & w' & E & Hq' & Hd & HF & Hn). simpl in *.
  exists (ConflictDetector.new_conflict uid now (now + 1) g :: l), w'.
  split_and!; [|done|done| |].
  - eapply runs_bind; [reflexivity|]. eapply runs_bind; [exact E|]. reflexivity.
  - constructor; [by split_and!|]. eapply Forall2_impl; [exact HF|].
    intros g' c (? & ? & ? & ? & Hlow). split_and!; [done..|simpl in *; lia].
  - rewrite fmap_cons. apply NoDup_cons. split; [|done].
    intros (c & Hid & Hc)%list_elem_of_fmap. apply list_elem_of_lookup in Hc as [i Hi].
    destruct (Forall2_lookup_r _ _ _ _ _ HF Hi) as (g' & _ & _ & _ & _ & _ & Hlow).
    simpl in *. lia.
Qed.

(** A group of the claims of one event. *)
Lemma potential_group req claims e f ids :
  (∀ c, c ∈ claims → c_event_id c = e ∧ is_active c = true) →
  ((e, f), ids) ∈ ConflictDetector.potential req claims ↔
  (ids = c_id <$> filter (λ c, c_field_name c = f) claims
   ∧ ConflictDetector.conflicting req (filter (λ c, c_field_name c = f) claims) = true).
Proof.
  intros Hall.
  assert (Hf : filter (λ c, ConflictDetector.key c = (e, f))
                 (filter (λ c, is_active c = true) claims)
               = filter (λ c, c_field_name c = f) claims).
  { rewrite list_filter_filter. induction claims as [|c claims IH]; [done|].
    destruct (Hall c) as [He Ha]; [by left|]. rewrite !filter_cons.
    rewrite IH by (intros c' Hc'; apply Hall; by right).
    unfold ConflictDetector.key. destruct (decide (c_field_name c = f)) as [E|E].
    - rewrite decide_True; [done|]. split; [by rewrite He, E|done].
    - rewrite decide_False; [done|]. intros [[=] _]. done. }
  unfold ConflictDetector.potential. change (map ?g ?l) with (g <$> l).
  rewrite list_elem_of_fmap. split.
  - intros ([k cs] & E & Hin). simpl in E. injection E as <- ->.
    apply list_elem_of_filter in Hin as [Hc Hin].
    apply elem_of_group_by in Hin as [-> _]. rewrite Hf in *. by split.
  - intros [-> Hc]. eexists ((e, f), _). split; [reflexivity|].
    apply list_elem_of_filter. split; [exact Hc|].
    apply elem_of_group_by. split; [symmetry; exact Hf|]. intros E.
    by pose proof (eq_trans (f_equal (ConflictDetector.conflicting req) (eq_sym E)) Hc).
Qed.

Lemma potential_event req claims e g :
  (∀ c, c ∈ claims → c_event_id c = e ∧ is_active c = true) →
  g ∈ ConflictDetector.potential req claims → g.1.1 = e.
Proof.
  intros Hall. unfold ConflictDetector.potential. change (map ?g ?l) with (g <$> l).
  intros ([[e' f] cs] & -> & [_ Hin]%list_elem_of_filter)%list_elem_of_fmap. simpl.
  apply elem_of_group_by in Hin as [-> Hn].
  destruct (filter _ _) as [|c l] eqn:E; [done|].
  assert (Hc : c ∈ c :: l) by by left. rewrite <- E in Hc.
  apply list_elem_of_filter in Hc as [Hk Hc]. apply list_elem_of_filter in Hc as [_ Hc].
  destruct (Hall c Hc) as [<- _]. unfold ConflictDetector.key in Hk. by injection Hk as -> _.
Qed.
End detection.

(** ** Properties *)

Lemma detect_and_apply_run e modifier_id modifier w :
  quiet w → one_open (w_db w) → conflicts_keyed (w_db w) →
  (∀ k c, db_conflicts (w_db w) !! k = Some c → (k < w_uuid w)%N) →
  let cs f := filter (λ c, c_field_name c = f) (ClaimRepo.active_by_event e (w_db w)) in
  ∃ w', ConflictReconciler.detect_and_apply_new_conflicts e modifier_id modifier w = (Ok tt, w')
    ∧ quiet w' ∧ (w_uuid w ≤ w_uuid w')%N ∧ conflicts_keyed (w_db w') ∧ same_evidence (w_db w) (w_db w') ∧ one_open (w_db w')
    ∧ (∀ f, values_differ (cs f) → sources_differ (cs f) →
         covered e (w_db w') f (c_id <$> cs f))
    ∧ (∀ k c, db_conflicts (w_db w') !! k = Some c →
         db_conflicts (w_db w) !! k = Some c
         ∨ cf_event_id c = e ∧ values_differ (cs (cf_field_name c))
           ∧ sources_differ (cs (cf_field_name c))).
Proof.
  intros Hq H1 Hkey Hfresh cs. set (active := ClaimRepo.active_by_event e (w_db w)) in cs.
  assert (Hact : ∀ c, c ∈ active → c_event_id c = e ∧ is_active c = true).
  { intros c [[He Ha] _]%list_elem_of_filter. by split. }
  destruct (detect_quiet true active w Hq) as (l & w1 & E1 & Hq1 & Hd1 & HF & Hn).
  assert (Hin : ∀ p, p ∈ l → ∃ g, g ∈ ConflictDetector.potential true active
    ∧ detected_as (w_uuid w) g p).
  { intros p [i Hi]%list_elem_of_lookup. destruct (Forall2_lookup_r _ _ _ _ _ HF Hi) as (g & Hg & Hp).
    exists g. split; [by apply list_elem_of_lookup_2 in Hg|done]. }
  assert (Hpot : ∀ p, p ∈ l → cf_event_id p = e ∧ cf_claim_ids p = c_id <$> cs (cf_field_name p)
    ∧ ConflictDetector.conflicting true (cs (cf_field_name p)) = true).
  { intros p Hp. destruct (Hin p Hp) as ([[e' f] ids] & Hg & He & Hf & _ & Hids & _). simpl in *.
    pose proof (potential_event _ _ e _ Hact Hg) as He'. simpl in He'. rewrite He' in Hg, He.
    apply (potential_group true active e f ids Hact) in Hg as [-> Hc]. by rewrite He, Hf, Hids. }
  destruct (loop_quiet e modifier_id modifier (w_db w) l w1) as
    (w2 & E2 & Hq2 & H12 & Hkey2 & Hs & Hcov & _ & Hrows); try done; try (by rewrite Hd1).
  - apply Forall_forall. intros p Hp. destruct (Hpot p Hp) as (He & Hids & _).
    destruct (Hin p Hp) as (g & _ & _ & _ & Ho & _ & Hlow). rewrite Hd1. split; try done.
    destruct (db_conflicts (w_db w) !! cf_id p) as [c|] eqn:Ec; [|done].
    specialize (Hfresh _ _ Ec). lia.
  - assert (Hg : NoDup (ConflictDetector.potential true active).*1).
    { unfold ConflictDetector.potential. change (map ?f ?l) with (f <$> l).
      rewrite <- list_fmap_compose. apply NoDup_fst_filter, group_by_NoDup. }
    assert (Hkeys : (λ p, (e, cf_field_name p)) <$> l = (ConflictDetector.potential true active).*1).
    { symmetry. apply list_eq_Forall2, Forall2_fmap. eapply Forall2_impl; [|intros x y Hxy; exact Hxy].
      eapply Forall2_same_length_lookup. split; [by eapply Forall2_length|].
      intros i g p Hgi Hpi. destruct (Forall2_lookup_lr _ _ _ _ _ _ HF Hgi Hpi) as (He & Hf & _).
      rewrite (surjective_pairing g.1), Hf. f_equal.
      eapply potential_event; [exact Hact|]. by apply list_elem_of_lookup_2 in Hgi. }
    rewrite <- Hkeys in Hg. change (λ p, (e, cf_field_name p)) with (pair e ∘ cf_field_name) in Hg.
    rewrite list_fmap_compose in Hg. by apply NoDup_fmap_1 in Hg.
  - rewrite Hd1 in *.
    assert (Hdet : ∀ f, ConflictDetector.conflicting true (cs f) = true →
      ∃ p, p ∈ l ∧ cf_field_name p = f).
    { intros f Hc. assert (Hg : ((e, f), c_id <$> cs f) ∈ ConflictDetector.potential true active)
        by by apply potential_group.
      apply list_elem_of_lookup in Hg as [i Hi].
      destruct (Forall2_lookup_l _ _ _ _ _ HF Hi) as (p & Hp & _ & Hf & _).
      exists p. split; [by apply list_elem_of_lookup_2 in Hp|done]. }
    assert (Hrun : ConflictReconciler.detect_and_apply_new_conflicts e modifier_id modifier w
      = (Ok tt, if bool_decide (l = []) then w1 else w2)).
    { unfold ConflictReconciler.detect_and_apply_new_conflicts.
      eapply runs_bind; [unfold ClaimRepo.find_active_by_event; by rewrite query_quiet|].
      eapply runs_bind; [exact E1|]. case_bool_decide as El; [done|].
      eapply runs_bind; [unfold ConflictRepo.find_by_event; by rewrite query_quiet|].
      rewrite Hd1. exact E2. }
    pose proof (proj2 (proj2 (proj1 (detect_and_apply_NoCommit true e modifier_id modifier) w))) as Hu.
    rewrite Hrun in Hu. simpl in Hu.
    eexists. split; [exact Hrun|]. case_bool_decide as El.
    + rewrite Hd1. subst l. split_and!; [done..| |by left].
      intros f Hv Hs'. destruct (Hdet f) as (p & Hp%elem_of_nil & _); [|done].
      by apply conflicting_spec.
    + split_and!; [done..| |].
      * intros f Hv Hs'. destruct (Hdet f) as (p & Hp & <-); [by apply conflicting_spec|].
        destruct (Hpot p Hp) as (_ & <- & _). by apply Hcov.
      * intros k c [Hc|[He Hf]]%Hrows; [by left|right]. split; [done|].
        apply list_elem_of_fmap in Hf as (p & -> & Hp). destruct (Hpot p Hp) as (_ & _ & Hc').
        apply conflicting_spec in Hc' as [Hv Hs']. split; [done|by apply Hs'].
Qed.

(** C8: after claims were written, conflict detection for an event, run alone,
    always succeeds and leaves exactly the right conflicts open. Every field whose
    active claims carry two distinct normalised values from two sources has an
    OPEN conflict linked to all of them, whether it was opened anew, reopened
    after a contradicted resolution, or already open and given the new evidence;
    rows of fields that do not conflict are untouched; there is still at most one
    OPEN conflict per event and field; claims, events, projections and outbox stay
    as they were. *)
Theorem detect_and_apply_complete e modifier_id modifier w :
  quiet w → one_open (w_db w) → conflicts_keyed (w_db w) →
  (∀ k c, db_conflicts (w_db w) !! k = Some c → (k < w_uuid w)%N) →
  let cs f := filter (λ c, c_field_name c = f) (ClaimRepo.active_by_event e (w_db w)) in
  ∃ w', ConflictReconciler.detect_and_apply_new_conflicts e modifier_id modifier w = (Ok tt, w')
    ∧ same_evidence (w_db w) (w_db w') ∧ one_open (w_db w')
    ∧ (∀ f, values_differ (cs f) → sources_differ (cs f) →
         covered e (w_db w') f (c_id <$> cs f))
    ∧ (∀ k c, db_conflicts (w_db w') !! k = Some c →
         db_conflicts (w_db w) !! k = Some c
         ∨ cf_event_id c = e ∧ values_differ (cs (cf_field_name c))
           ∧ sources_differ (cs (cf_field_name c))).
Proof.
  intros Hq H1 Hkey Hfresh cs.
  destruct (detect_and_apply_run e modifier_id modifier w Hq H1 Hkey Hfresh)
    as (w' & E & _ & _ & _ & H'). by exists w'.
Qed.

(** ** Stale conflicts, run alone *)
Section stale.
Import ConflictRepo ConflictReconciler.

Lemma open_rows_unique e f db :
  one_open db → open_rows e f db = []
  ∨ ∃ k c, open_rows e f db = [c] ∧ db_conflicts db !! k = Some c ∧ is_open_for e f c.
Proof. intros H1. apply unique_row. intros k k' c c' Hc Hc' Ho Ho'. by eapply H1. Qed.

Abbreviation field_claims e f db := (ClaimRepo.active_by_event_field e f db).

(** The row a successful UPDATE leaves at [k], its winner linked. *)
Definition settled (k : UUID) (row : ClaimConflict) (db db' : DB) : Prop :=
  ∃ l acts, db' = upd_activity (λ _, acts)
                    (upd_conflict_claims (λ _, l) (upd_conflicts <[k := row]> db))
    ∧ (∀ p, p ∈ db_conflict_claims db → p ∈ l)
    ∧ (∀ j, cf_winning_claim_id row = Some j → (k, j) ∈ l).

Lemma settle_quiet k c f ids winner e fr to mt user reason w :
  quiet w → db_conflicts (w_db w) !! k = Some c → cf_status (f c) = RESOLVED →
  cf_winning_claim_id (f c) = Some winner → winner ∈ ids →
  let row := with_version (cf_version c + 1) (f c) in
  ∃ w1 w', update_with_version_check k (cf_version c) f w = (Ok (Some (load (w_db w) row)), w1)
    ∧ (add_missing_links k ids;;
       log_conflict_activity k e fr to mt user reason (cf_version row) None) w1 = (Ok tt, w')
    ∧ quiet w' ∧ settled k row (w_db w) (w_db w').
Proof.
  intros Hq Hc Hst Hwin Hin row.
  assert (Hclash : open_clash (db_conflicts (w_db w)) k row = false).
  { apply open_clash_false. simpl. rewrite Hst. done. }
  pose proof (update_conflict_ok k f c w Hq Hc Hclash) as Hu.
  set (w1 := set_db _ _) in Hu. assert (Hq1 : quiet w1) by done.
  destruct (add_missing_links_quiet k ids w1 Hq1) as (w2 & E2 & Hq2 & (l & Hd2 & Hl & _) & Hk & _).
  edestruct (log_activity_ok k e fr to mt user reason (cf_version row) None w2 Hq2)
    as (entry & w3 & E3 & Hq3 & _ & Hd3 & _).
  exists w1, w3. split; [done|]. split; [by eapply runs_bind|]. split; [done|].
  exists l, (db_activity (w_db w2) ++ [entry]). split_and!; [|done|].
  - rewrite Hd3, Hd2. done.
  - intros j Hj. simpl in Hj. rewrite Hwin in Hj. injection Hj as <-.
    specialize (Hk winner Hin). rewrite elem_of_claim_ids, Hd2 in Hk. done.
Qed.
End stale.

(** after source-record corrections, an OPEN conflict is closed exactly when
    the field's remaining active claims no longer disagree. Run alone the step
    always succeeds; with no OPEN conflict, no active claim left, or values that
    still differ, it changes nothing; otherwise the conflict becomes RESOLVED at
    the next version, marked SYSTEM_AUTO_CLOSED, and its winner is an active claim
    of the field that is linked to it. *)
Theorem auto_resolve_effect e f run w :
  quiet w → one_open (w_db w) → conflicts_keyed (w_db w) →
  let cs := ClaimRepo.active_by_event_field e f (w_db w) in
  ∃ w', ConflictReconciler.auto_resolve_stale_open_conflict e f run w = (Ok tt, w')
    ∧ ((¬ ∃ k c, db_conflicts (w_db w) !! k = Some c ∧ ConflictRepo.is_open_for e f c)
       ∨ cs = [] ∨ values_differ cs → w_db w' = w_db w)
    ∧ (∀ k c, db_conflicts (w_db w) !! k = Some c → ConflictRepo.is_open_for e f c →
         cs ≠ [] → ¬ values_differ cs →
         ∃ winner row, winner ∈ cs ∧ settled k row (w_db w) (w_db w')
           ∧ cf_status row = RESOLVED ∧ cf_winning_claim_id row = Some (c_id winner)
           ∧ cf_last_modified_reason row = SYSTEM_AUTO_CLOSED
           ∧ cf_version row = cf_version c + 1).
Proof.
  intros Hq H1 Hkey cs. unfold ConflictReconciler.auto_resolve_stale_open_conflict.
  assert (Hfind : ∀ o, scalar_one_or_none (ConflictRepo.load (w_db w) <$>
      ConflictRepo.open_rows e f (w_db w)) = Ok o →
    ConflictRepo.find_open_by_event_field e f w = (Ok o, w)).
  { intros o Ho. unfold ConflictRepo.find_open_by_event_field, scalar_query.
    rewrite stmt_quiet, Ho by done. by rewrite set_db_same. }
  destruct (open_rows_unique e f (w_db w) H1) as [El|(k & c & El & Hc & Ho)].
  { exists w. split; [eapply runs_bind; [apply Hfind; by rewrite El|done]|]. split; [done|].
    intros k c Hc Ho. exfalso.
    assert (Hin : c ∈ ConflictRepo.open_rows e f (w_db w)).
    { apply list_elem_of_filter. split; [done|]. apply elem_of_rows. eauto. }
    rewrite El in Hin. by apply elem_of_nil in Hin. }
  assert (Huniq : ∀ k' c', db_conflicts (w_db w) !! k' = Some c' →
    ConflictRepo.is_open_for e f c' → k' = k ∧ c' = c).
  { intros k' c' Hc' Ho'. assert (k' = k) as -> by by apply (H1 e f k' k c' c). 
    split; [done|congruence]. }
  assert (Hrun : ∀ r, ConflictReconciler.auto_resolve_loop ConflictReconciler.MAX_VERSION_RETRY e f
      (ConflictRepo.load (w_db w) c) run w = r →
    (existing_open ← ConflictRepo.find_open_by_event_field e f;
     match existing_open with
     | None => mret ()
     | Some c => ConflictReconciler.auto_resolve_loop ConflictReconciler.MAX_VERSION_RETRY e f c run
     end) w = r).
  { intros r Hr. eapply runs_bind; [apply Hfind; by rewrite El|exact Hr]. }
  assert (Hact : ClaimRepo.find_active_by_event_field e f w = (Ok cs, w))
    by (unfold ClaimRepo.find_active_by_event_field; by rewrite query_quiet).
  assert (Hid : cf_id c = k) by exact (Hkey k c Hc).
  destruct cs as [|c0 cs'] eqn:Ecs.
  { exists w. split; [apply Hrun; simpl; by eapply runs_bind|]. split; [done|]. done. }
  destruct (decide (1 < length (unique_normalised_values (c0 :: cs')))%nat) as [Hu|Hu].
  { exists w. split; [apply Hrun; simpl; eapply runs_bind; [exact Hact|by rewrite bool_decide_true]|].
    split; [done|]. intros k' c' _ _ _ Hn. by destruct Hn; apply unique_values_many. }
  destruct (settle_quiet k c (ConflictReconciler.auto_closed_columns (c_id c0) (w_now w)) [c_id c0]
    (c_id c0) (cf_event_id c) (Some OPEN) RESOLVED INGESTION (Some run)
    "Auto-closed because source-record supersession removed the active disagreement" (tick w))
    as (w1 & w2 & E1 & E2 & Hq2 & Hs); [done|done|done|done|by left|].
  exists w2. split; [|split].
  - apply Hrun. simpl. eapply runs_bind; [exact Hact|]. cbv beta iota.
    rewrite bool_decide_false by done. eapply runs_bind; [reflexivity|].
    eapply runs_bind; [rewrite Hid; exact E1|]. rewrite Hid. exact E2.
  - intros [Hn|[?|Hv]]; [destruct Hn; eauto|done|]. by destruct Hu; apply unique_values_many.
  - intros k' c' Hc' Ho' _ _. destruct (Huniq k' c' Hc' Ho') as [-> ->].
    exists c0. eexists. split; [by left|]. split; [exact Hs|]. by split_and!.
Qed.

Lemma unique_values_nonempty c cs : (1 ≤ length (unique_normalised_values (c :: cs)))%nat.
Proof.
  unfold unique_normalised_values, py_set. simpl. etrans; [|apply set_fold_ge].
  unfold set_insert. simpl. lia.
Qed.

(** a RESOLVED conflict whose winner was just superseded never keeps a stale
    winner, run alone. If the field's active claims agree, it stays RESOLVED at
    the next version with an active, linked claim as winner (the replacement
    itself when it is one of them); if they disagree it is OPEN again and linked
    to all of them; if none is left, nothing changes. *)
Theorem reconcile_resolved_winner_effect k c replacement run w :
  quiet w → conflicts_keyed (w_db w) → db_conflicts (w_db w) !! k = Some c →
  (∀ k' c', db_conflicts (w_db w) !! k' = Some c' →
     ¬ ConflictRepo.is_open_for (cf_event_id c) (cf_field_name c) c') →
  cf_status c = RESOLVED →
  let cs := ClaimRepo.active_by_event_field (cf_event_id c) (cf_field_name c) (w_db w) in
  ∃ w', ConflictReconciler.reconcile_resolved_winner (ConflictRepo.load (w_db w) c) replacement run w
          = (Ok tt, w')
    ∧ (cs = [] → w_db w' = w_db w)
    ∧ (cs ≠ [] → ¬ values_differ cs →
         ∃ winner row, winner ∈ c_id <$> cs ∧ settled k row (w_db w) (w_db w')
           ∧ cf_status row = RESOLVED ∧ cf_winning_claim_id row = Some winner
           ∧ cf_version row = cf_version c + 1
           ∧ (replacement ∈ cs → winner = c_id replacement))
    ∧ (values_differ cs →
         covered (cf_event_id c) (w_db w') (cf_field_name c) (c_id <$> cs)).
Proof.
  intros Hq Hkey Hc Hno Hres cs.
  assert (Hid : cf_id c = k) by exact (Hkey k c Hc).
  assert (Hact : ClaimRepo.find_active_by_event_field (cf_event_id c) (cf_field_name c) w = (Ok cs, w))
    by (unfold ClaimRepo.find_active_by_event_field; by rewrite query_quiet).
  unfold ConflictReconciler.reconcile_resolved_winner.
  change (cf_event_id (ConflictRepo.load (w_db w) c)) with (cf_event_id c).
  change (cf_field_name (ConflictRepo.load (w_db w) c)) with (cf_field_name c).
  assert (Hfield : ∀ x, x ∈ cs → c_field_name x = cf_field_name c)
    by (intros x [(_ & ? & _) _]%list_elem_of_filter; done).
  destruct cs as [|c0 cs'] eqn:Ecs.
  { exists w. split; [by eapply runs_bind|]. split; [done|]. split; [done|].
    intros (? & ? & ? & ? & _). done. }
  rewrite <- Ecs in *. pose proof (unique_values_nonempty c0 cs') as Hge. rewrite <- Ecs in Hge.
  destruct (decide (length (unique_normalised_values cs) = 1)%nat) as [Hu|Hu].
  - set (winner := if bool_decide (c_field_name replacement = cf_field_name c
      ∧ c_id replacement ∈ c_id <$> cs) then c_id replacement else c_id c0).
    assert (Hwin : winner ∈ c_id <$> cs).
    { unfold winner. case_bool_decide as Hb; [tauto|]. rewrite Ecs. by left. }
    destruct (settle_quiet k c (ConflictReconciler.new_winner_columns winner (w_now w)) [winner]
      winner (cf_event_id c) (Some RESOLVED) RESOLVED INGESTION (Some run)
      "Winning claim superseded by source-record correction; winner updated to equivalent replacement"
      (tick w)) as (w1 & w2 & E1 & E2 & Hq2 & Hs); [done|done|done|done|by left|].
    exists w2. split_and!.
    + eapply runs_bind; [exact Hact|]. cbv beta. rewrite Ecs. rewrite <- Ecs.
      rewrite bool_decide_true by done. eapply runs_bind; [reflexivity|].
      fold winner. cbn [ConflictReconciler.new_winner_loop ConflictReconciler.MAX_VERSION_RETRY].
      rewrite <- Hid in E1, E2. eapply runs_bind; [exact E1|exact E2].
    + by rewrite Ecs.
    + intros _ _. exists winner. eexists. split; [done|]. split; [exact Hs|].
      split_and!; [done|done|done|]. intros Hr. unfold winner. rewrite bool_decide_true; [done|].
      split; [by apply Hfield|by apply list_elem_of_fmap_2].
    + intros Hv%unique_values_many. lia.
  - destruct (reopen_evidence_quiet (ConflictRepo.load (w_db w) c) k c (c_id <$> cs) run INGESTION k w)
      as (w' & E & Hq' & Hop); try done.
    exists w'. split_and!.
    + eapply runs_bind; [exact Hact|]. cbv beta. rewrite Ecs. rewrite <- Ecs.
      by rewrite bool_decide_false.
    + by rewrite Ecs.
    + intros _ Hn. destruct Hn. apply unique_values_many. lia.
    + intros _. by eapply opened_covered.
Qed.

(** ** Examples and witnesses *)

(** Another transaction that only bumps the version of conflict 40. *)
Definition bump_40 (db : DB) : DB :=
  upd_conflicts (alter (λ c, ConflictRepo.with_version (cf_version c + 1) c) 40%N) db.

(** Conflict 40 resolved in favour of the superseded claim 14; 15 remains. *)
Definition stale_winner : ClaimConflict :=
  mkConflict 40 1 "location" RESOLVED 1 USER_RESOLVED None (Some 14%N) (Some 5) (Some 9%N) 100 100 [].

Definition stale_winner_db : DB :=
  upd_conflicts (<[40%N := stale_winner]>)
  (upd_claims (<[14%N := supersede 15 (sample_claim 14 6 "location" (PStr "Oslo") RAW)]>)
     sample_conflict_db).

Definition stale_winner_run (env : list (DB → DB)) :=
  ConflictReconciler.reconcile_resolved_winner (ConflictRepo.load stale_winner_db stale_winner)
    (sample_claim 15 5 "location" (PStr "Bergen") CONFIRMED) 77
    (mkWorld stale_winner_db stale_winner_db env 1000 1000).

(** The retry loop of [_reconcile_resolved_winner], unlike its three siblings,
    ends without an error when concurrent writers defeat all its attempts: the
    step reports success and the conflict keeps its superseded winner. *)
Example winner_retry_exhaustion_is_silent :
  let id := (λ db : DB, db) in
  let r := stale_winner_run [id; bump_40; id; bump_40; id; bump_40; id; bump_40; id; bump_40] in
  r.1 = Ok tt
  ∧ (cf_winning_claim_id <$> db_conflicts (w_db r.2) !! 40%N) = Some (Some 14%N).
Proof. vm_compute. split; reflexivity. Qed.

Lemma no_conflicts k c : db_conflicts sample_live_db !! k ≠ Some c.
Proof. exact (lookup_empty_Some (M := gmap UUID) k c). Defined.

Lemma detect_and_apply_complete_witness :
  ∃ w', ConflictReconciler.detect_and_apply_new_conflicts 1 77 INGESTION (world_of sample_live_db)
          = (Ok tt, w')
    ∧ covered 1 (w_db w') "location" [14; 15]%N.
Proof.
  edestruct (detect_and_apply_complete 1 77 INGESTION (world_of sample_live_db))
    as (w' & E & _ & _ & Hcov & _); [reflexivity| | | |].
  - intros e f k1 k2 c1 c2 H1. by destruct (no_conflicts k1 c1).
  - intros k c H1. by destruct (no_conflicts k c).
  - intros k c H1. by destruct (no_conflicts k c).
  - exists w'. split; [exact E|]. apply (Hcov "location").
    + exists (sample_claim 14 6 "location" (PStr "Oslo") RAW),
        [sample_claim 15 5 "location" (PStr "Bergen") RAW],
        (sample_claim 15 5 "location" (PStr "Bergen") RAW).
      split; [vm_compute; reflexivity|]. split; [by left|vm_compute; reflexivity].
    + exists (sample_claim 14 6 "location" (PStr "Oslo") RAW),
        (sample_claim 15 5 "location" (PStr "Bergen") RAW).
      split; [|split]; [apply list_elem_of_In; vm_compute; tauto..|done].
Defined.

(** Conflict 40 still open although claim 14 is superseded. *)
Definition agreeing_db : DB :=
  upd_conflicts (λ _, {[ 40%N := sample_conflict ]}) stale_winner_db.

Lemma sample_one_open : one_open agreeing_db.
Proof.
  intros e f k1 k2 c1 c2 H1 H2.
  change (db_conflicts agreeing_db) with ({[ 40%N := sample_conflict ]} : gmap UUID ClaimConflict)
    in H1, H2.
  apply lookup_singleton_Some in H1 as [<- _]. by apply lookup_singleton_Some in H2 as [<- _].
Defined.

Lemma auto_resolve_effect_witness :
  ∃ w' winner row,
    ConflictReconciler.auto_resolve_stale_open_conflict 1 "location" 77 (world_of agreeing_db)
      = (Ok tt, w')
    ∧ settled 40 row agreeing_db (w_db w') ∧ cf_winning_claim_id row = Some (c_id winner).
Proof.
  destruct (auto_resolve_effect 1 "location" 77 (world_of agreeing_db))
    as (w' & E & _ & Hs); [reflexivity|exact sample_one_open|exact sample_conflicts_keyed|].
  destruct (Hs 40%N sample_conflict eq_refl) as (winner & row & _ & Hset & _ & Hw & _).
  - by split_and!.
  - vm_compute. discriminate.
  - intros (c0 & cs' & c & Ec & Hin & _). vm_compute in Ec. injection Ec as <- <-.
    by apply elem_of_nil in Hin.
  - exists w', winner, row. by split_and!.
Defined.

Lemma stale_winner_cases k c :
  db_conflicts stale_winner_db !! k = Some c → k = 40%N ∧ c = stale_winner.
Proof.
  change (db_conflicts stale_winner_db) with
    (<[40%N := stale_winner]> ({[ 40%N := sample_conflict ]} : gmap UUID ClaimConflict)).
  intros [[<- <-]|[Hne [<- _]%lookup_singleton_Some]]%lookup_insert_Some; done.
Defined.

Lemma reconcile_resolved_winner_effect_witness :
  ∃ w' winner row,
    ConflictReconciler.reconcile_resolved_winner (ConflictRepo.load stale_winner_db stale_winner)
      (sample_claim 15 5 "location" (PStr "Bergen") CONFIRMED) 77 (world_of stale_winner_db)
    = (Ok tt, w')
    ∧ settled 40 row stale_winner_db (w_db w') ∧ cf_winning_claim_id row = Some winner.
Proof.
  destruct (reconcile_resolved_winner_effect 40 stale_winner
    (sample_claim 15 5 "location" (PStr "Bergen") CONFIRMED) 77 (world_of stale_winner_db))
    as (w' & E & _ & Hs & _); [reflexivity| |reflexivity| |reflexivity|].
  - by intros k c [-> ->]%stale_winner_cases.
  - intros k c [-> ->]%stale_winner_cases. by intros (_ & _ & ?).
  - destruct Hs as (winner & row & _ & Hset & _ & Hw & _).
    + vm_compute. discriminate.
    + intros (c0 & cs' & c & Ec & Hin & _). vm_compute in Ec. injection Ec as <- <-.
      by apply elem_of_nil in Hin.
    + exists w', winner, row. by split_and!.
Defined.
