(* ===== verification/EventResolution.v ===== *)
(** Finding the event incoming claims belong to: following merge pointers, continuity
    of source records, and resolution against the identity index
    (src/src/atlas/application/ingestion/_event_resolution.py, _continuity.py,
    _identity_index_updater.py, and the merge-pointer loop of _idempotency.py). *)
From Stdlib Require Import Ascii.
From S2P Require Import Prelude Text PyFloat PyVal PyDate Entities Store Logic Normalize.
From S2P Require Import Matching.
Open Scope string_scope.
Open Scope list_scope.
Open Scope Z_scope.

Abbreviation fields := (list (string * pyval)).
Definition field (k : string) (d : fields) : pyval := default PNone (dict_get k d).
Definition or_none (s : string) : option string := if str_empty s then None else Some s.

(** ** IdentityIndexUpdater *)
Definition norm_reg (val : pyval) : option string :=
  if py_truthy val then or_none (compact (norm val)) else None.

Definition iter_registration_alias_values (value : pyval) : list pyval :=
  match value with
  | PStr s => [PStr s]
  | PList l | PTuple l => l
  | _ => []
  end.

(** The distinct normalised registrations, the primary one first. *)
Definition registration_norm_aliases (incoming_fields : fields) : list string :=
  dict_fromkeys (omap norm_reg
    (field "registration" incoming_fields
     :: iter_registration_alias_values (field "aircraft_registration_numbers" incoming_fields))).

Definition build_identity_entry (event_id : UUID) (incoming_fields : fields)
    (source_record_id : option string) (now : datetime) : EventIdentityIndex :=
  let d := field "event_date" incoming_fields in
  mkIdentity event_id
    (if py_truthy d then Some (norm_date (PStr (py_str d))) else None)
    (norm_reg (field "registration" incoming_fields))
    (or_none (norm (field "operator" incoming_fields)))
    (or_none (norm (field "location" incoming_fields)))
    (or_none (norm (field "aircraft_type" incoming_fields)))
    (match source_record_id with
     | Some r => if str_empty r then [] else [r]
     | None => []
     end)
    (IdentityRepo.capped_union (registration_norm_aliases incoming_fields)) now.

(** IdentityIndexUpdater.update *)
Definition update_identity (event_id : UUID) (normalized_fields : fields)
    (source_record_id : option string) : M unit :=
  now ← utc_now;
  IdentityRepo.upsert (build_identity_entry event_id normalized_fields source_record_id now).

(** ** Following merge pointers

    The loop of _canonical_event_for: the first event that is not merged, or the id of
    an event that does not exist ([inl]).  [seen] holds the merged events passed so far;
    meeting one again is an error.  The loop of the code is unbounded: [fuel] bounds the
    recursion and [pointer_fuel] is always enough ([follow_enough]). *)
Fixpoint follow_merges (fuel : nat) (seen : list UUID) (current_id : UUID)
    : M (UUID + AccidentEvent) :=
  match fuel with
  | O => raise (RuntimeError "out of fuel")
  | S fuel' =>
      event ← EventRepo.get current_id;
      match event with
      | None => mret (inl current_id)
      | Some e =>
          match ev_merged_into e with
          | None => mret (inr e)
          | Some target =>
              if bool_decide (ev_id e ∈ seen)
              then raise (EventAlreadyMergedError (ev_id e) (Some target))
              else follow_merges fuel' (ev_id e :: seen) target
          end
      end
  end.

(** The number of statements other transactions can still get in between, and the
    number of events there are after them. *)
Definition pointer_fuel (w : World) : nat :=
  S (length (w_env w) + size (db_events (foldl (λ db f, f db) (w_db w) (w_env w)))).

Definition canonical_event (event_id : UUID) : M (UUID + AccidentEvent) :=
  λ w, follow_merges (pointer_fuel w) [] event_id w.

(** ** SourceRecordContinuityService *)
Module SourceRecordContinuityService.
Definition canonical_event_for (event_id : UUID) : M AccidentEvent :=
  r ← canonical_event event_id;
  match r with
  | inl missing => raise (EventNotFoundError missing)
  | inr e => mret e
  end.

Definition resolve (source_id : UUID) (source_record_id : string)
    (explicit_event : option AccidentEvent) : M (option AccidentEvent) :=
  SnapshotRepo.lock_for_source_record_correction source_id source_record_id;;
  prior_event_id ← SnapshotRepo.find_latest_event_id_by_source_record_id source_id
                     source_record_id;
  match prior_event_id with
  | None => mret None
  | Some prior =>
      prior_event ← canonical_event_for prior;
      match explicit_event with
      | Some e =>
          if (ev_id e =? ev_id prior_event)%N then mret (Some prior_event)
          else raise (SourceRecordEventMismatchError (ev_id prior_event) (ev_id e))
      | None => mret (Some prior_event)
      end
  end.
End SourceRecordContinuityService.

(** ** EventResolutionService *)
Module EventResolutionService.
Record resolution := mkResolution {
  re_event : AccidentEvent;
  re_reviews : list PendingDuplicateReview;
  re_created : bool;
  re_attached_by : string;
}.

(** _canonical_event_for: an event that does not exist is [None]. *)
Definition canonical_event_for (event_id : UUID) : M (option AccidentEvent) :=
  r ← canonical_event event_id;
  mret match r with inl _ => None | inr e => Some e end.

(** A new event with its identity row. *)
Definition create_event (claims_data_fields : fields) (source_record_id : option string)
    : M AccidentEvent :=
  id ← uuid4;
  created_at ← utc_now;
  let event := mkEvent id created_at None in
  EventRepo.add event;;
  update_identity id claims_data_fields source_record_id;;
  mret event.

(** Rows found by registration that the date window missed. *)
Fixpoint append_unseen (candidates reg_candidates : list EventIdentityIndex)
    : list EventIdentityIndex :=
  match reg_candidates with
  | [] => candidates
  | rc :: rest =>
      if bool_decide (ii_event_id rc ∈ ii_event_id <$> candidates)
      then append_unseen candidates rest
      else append_unseen (candidates ++ [rc]) rest
  end.

Definition gather_candidates (event_date_norm : string) (registration_norm : option string)
    : M (list EventIdentityIndex) :=
  candidates ← IdentityRepo.find_candidates event_date_norm 50;
  match registration_norm with
  | Some r =>
      if str_empty r then mret candidates else
      reg_candidates ← IdentityRepo.find_by_registration r event_date_norm;
      mret (append_unseen candidates reg_candidates)
  | None => mret candidates
  end.

(** The review candidates under their canonical ids, at most [max_reviews] of them. *)
Fixpoint canonical_candidates (event_id : UUID) (max_reviews : nat) (ids acc : list UUID)
    : M (list UUID) :=
  match ids with
  | [] => mret acc
  | raw :: rest =>
      canonical ← canonical_event_for raw;
      let id := match canonical with Some e => ev_id e | None => raw end in
      if (id =? event_id)%N || bool_decide (id ∈ acc)
         || bool_decide (max_reviews ≤ length acc)%nat
      then canonical_candidates event_id max_reviews rest acc
      else canonical_candidates event_id max_reviews rest (acc ++ [id])
  end.

(** The review of one pair: the one on file, or a new one. *)
Definition queue_review (event_id : UUID) (decision : MatchDecision) (candidate : UUID)
    : M PendingDuplicateReview :=
  existing ← ReviewRepo.find_existing_pair candidate event_id;
  match existing with
  | Some r => mret r
  | None =>
      id ← uuid4;
      created_at ← utc_now;
      let review := mkReview id candidate event_id DR_PENDING (md_score decision)
                      (md_matched_fields decision) created_at None None None in
      stored ← ReviewRepo.add review;
      mret (default review stored)
  end.

Definition attach (decision : MatchDecision) (claims_data_fields : fields)
    (source_record_id : option string) : M (option AccidentEvent) :=
  match md_candidate decision with
  | None => mret None
  | Some candidate =>
      existing ← canonical_event_for candidate;
      match existing with
      | None => mret None
      | Some e =>
          now ← utc_now;
          let entry := build_identity_entry (ev_id e) claims_data_fields source_record_id now in
          (if (candidate =? ev_id e)%N then IdentityRepo.upsert entry
           else IdentityRepo.enrich_identity_index_from_alias entry);;
          mret (Some e)
      end
  end.

Definition found_event (decision : MatchDecision) (claims_data_fields : fields)
    (source_record_id : option string) (max_duplicate_reviews : nat) : M resolution :=
  event ← create_event claims_data_fields source_record_id;
  if bool_decide (md_action decision = REVIEW)
     && negb (bool_decide (candidate_event_ids decision = [])) then
    ids ← canonical_candidates (ev_id event) max_duplicate_reviews
            (candidate_event_ids decision) [];
    reviews ← map_m (queue_review (ev_id event) decision) ids;
    mret match reviews with
         | [] => mkResolution event [] true "new_event"
         | _ => mkResolution event reviews true "duplicate_review"
         end
  else mret (mkResolution event [] true "new_event").

Definition resolve_with_reviews (claims_data_fields : fields)
    (source_record_id : option string) (max_duplicate_reviews : Z) : M resolution :=
  if max_duplicate_reviews <=? 0
  then raise (DomainValidationError "max_duplicate_reviews must be greater than zero") else
  match field "event_date" claims_data_fields with
  | PNone =>
      event ← create_event claims_data_fields source_record_id;
      mret (mkResolution event [] true "new_event")
  | event_date_raw =>
      let event_date_norm := norm_date (PStr (py_str event_date_raw)) in
      let registration_raw := field "registration" claims_data_fields in
      let registration_norm :=
        if py_truthy registration_raw then Some (compact (norm registration_raw)) else None in
      IdentityRepo.lock_for_identity_resolution event_date_norm registration_norm;;
      candidates ← gather_candidates event_date_norm registration_norm;
      let decision := EventMatcher.decide HIGH_CONFIDENCE UNCERTAIN_LOW claims_data_fields
                        candidates in
      existing ← (if bool_decide (md_action decision = ATTACH)
                  then attach decision claims_data_fields source_record_id else mret None);
      match existing with
      | Some e => mret (mkResolution e [] false "identity_match")
      | None => found_event decision claims_data_fields source_record_id
                  (Z.to_nat max_duplicate_reviews)
      end
  end.
End EventResolutionService.

(** ** The pointer loop ends *)
Definition final_events (w : World) : gmap UUID AccidentEvent :=
  db_events (foldl (λ db f, f db) (w_db w) (w_env w)).

(** Events the loop has not passed yet. *)
Definition unseen (seen : list UUID) (m : gmap UUID AccidentEvent) : list AccidentEvent :=
  filter (λ e, ev_id e ∉ seen) (rows m).

Lemma length_rows {A} (m : gmap UUID A) : length (rows m) = size m.
Proof. unfold rows. by rewrite length_fmap, length_map_to_list. Qed.

Lemma unseen_cons x seen m : (length (unseen (x :: seen) m) ≤ length (unseen seen m))%nat.
Proof.
  unfold unseen. induction (rows m) as [|e l IH]; [done|]. rewrite !filter_cons.
  repeat case_decide; simpl; try lia; set_solver.
Qed.

Lemma unseen_cons_lt e seen m :
  e ∈ rows m → ev_id e ∉ seen →
  (length (unseen (ev_id e :: seen) m) < length (unseen seen m))%nat.
Proof.
  unfold unseen. induction (rows m) as [|e' l IH]; [by intros ?%elem_of_nil|].
  assert (Hle : (length (filter (λ e0, ev_id e0 ∉ ev_id e :: seen) l)
                 ≤ length (filter (λ e0, ev_id e0 ∉ seen) l))%nat).
  { clear. induction l as [|x l IH]; [done|]. rewrite !filter_cons.
    repeat case_decide; simpl; try lia; set_solver. }
  intros Hin Hns. rewrite !filter_cons. apply elem_of_cons in Hin as [->|Hin].
  - rewrite decide_False by (intros H; apply H; by left). rewrite decide_True by done. simpl. lia.
  - specialize (IH Hin Hns). repeat case_decide; simpl; try lia; set_solver.
Qed.

Lemma final_env_step w : final_events (env_step w) = final_events w.
Proof. unfold final_events, env_step. destruct (w_env w) eqn:E; simpl; by rewrite ?E. Qed.

Lemma get_run id w :
  EventRepo.get id w = (Ok (db_events (w_db (env_step w)) !! id), env_step w).
Proof. unfold EventRepo.get, query, stmt. destruct (env_step w). reflexivity. Qed.

Lemma env_step_length w : w_env w ≠ [] → length (w_env w) = S (length (w_env (env_step w))).
Proof. unfold env_step. by destruct (w_env w). Qed.

(** With this much fuel more fuel makes no difference, and it never runs out. *)
Lemma follow_fuel n fuel fuel' seen id w :
  (length (w_env w) + length (unseen seen (final_events w)) < n)%nat →
  (n ≤ fuel)%nat → (n ≤ fuel')%nat →
  follow_merges fuel seen id w = follow_merges fuel' seen id w
  ∧ (follow_merges fuel seen id w).1 ≠ Raise (RuntimeError "out of fuel").
Proof.
  revert fuel fuel' seen id w. induction n as [|n IH]; [lia|].
  intros [|fuel] [|fuel'] seen id w Hn Hf Hf'; try lia. cbn [follow_merges].
  unfold mbind, M_bind. rewrite get_run.
  destruct (db_events (w_db (env_step w)) !! id) as [e|] eqn:He; [|by split].
  destruct (ev_merged_into e) as [target|]; [|by split].
  case_bool_decide as Hs; [by split|].
  apply IH; [|lia..]. rewrite final_env_step.
  destruct (w_env w) as [|f fs] eqn:Ew.
  - assert (e ∈ rows (final_events w)) as Hin.
    { apply elem_of_rows. exists id. unfold final_events. rewrite Ew. simpl.
      unfold env_step in He. by rewrite Ew in He. }
    pose proof (unseen_cons_lt e seen _ Hin Hs). unfold env_step. rewrite Ew, Ew. simpl in *. lia.
  - pose proof (unseen_cons (ev_id e) seen (final_events w)).
    assert (length (w_env (env_step w)) = length fs) as -> by (unfold env_step; by rewrite Ew).
    simpl in Hn. lia.
Qed.

(** C17: following merge pointers always ends. Whatever other transactions do in
    between, and even when the pointers form a cycle, the loop that looks for the
    canonical event stops within as many steps as they can still take plus the number
    of events: no amount of fuel beyond that changes its result. *)
Theorem follow_merges_terminates w id fuel :
  (pointer_fuel w ≤ fuel)%nat →
  follow_merges fuel [] id w = canonical_event id w
  ∧ (canonical_event id w).1 ≠ Raise (RuntimeError "out of fuel").
Proof.
  intros Hf. unfold canonical_event.
  destruct (follow_fuel (pointer_fuel w) (pointer_fuel w) fuel [] id w) as [E H]; [|lia..|].
  - unfold pointer_fuel. fold (final_events w). rewrite <- (length_rows (final_events w)).
    unfold unseen. pose proof (length_filter (λ e, ev_id e ∉ []) (rows (final_events w))). lia.
  - split; [by rewrite E|exact H].
Qed.

(** Two events merged into each other. *)
Definition cyclic_db : DB :=
  upd_events (λ _, {[1%N := mkEvent 1 0 (Some 2%N); 2%N := mkEvent 2 0 (Some 1%N)]}) empty_db.

Lemma follow_merges_terminates_witness :
  (pointer_fuel (world_of cyclic_db) ≤ 10)%nat
  ∧ follow_merges 10 [] 1 (world_of cyclic_db) = canonical_event 1 (world_of cyclic_db)
  ∧ (canonical_event 1 (world_of cyclic_db)).1 = Raise (EventAlreadyMergedError 1 (Some 2%N)).
Proof.
  assert (pointer_fuel (world_of cyclic_db) ≤ 10)%nat as Hf by (vm_compute; lia).
  split; [exact Hf|]. split; [|vm_compute; reflexivity].
  exact (proj1 (follow_merges_terminates (world_of cyclic_db) 1 10 Hf)).
Defined.

(** ** Where the loop ends, in a run without interference *)
Section quiet_pointers.
Implicit Types m : gmap UUID AccidentEvent.

Definition keyed_events m : Prop := ∀ k e, m !! k = Some e → ev_id e = k.

Definition points m (a b : UUID) : Prop :=
  ∃ e, m !! a = Some e ∧ ev_merged_into e = Some b.

(** [e] is the event at the end of the pointers that start at [id]. *)
Definition canonical_of m (id : UUID) (e : AccidentEvent) : Prop :=
  rtc (points m) id (ev_id e) ∧ m !! ev_id e = Some e ∧ ev_merged_into e = None.

Definition pointer_end m (id : UUID) (r : Res (UUID + AccidentEvent)) : Prop :=
  match r with
  | Ok (inr e) => canonical_of m id e
  | Ok (inl k) => rtc (points m) id k ∧ m !! k = None
  | Raise x => ∃ k t, x = EventAlreadyMergedError k (Some t)
                      ∧ rtc (points m) id k ∧ tc (points m) k k
  end.

Lemma follow_quiet fuel seen id start w :
  quiet w → keyed_events (db_events (w_db w)) →
  rtc (points (db_events (w_db w))) start id →
  (∀ x, x ∈ seen → tc (points (db_events (w_db w))) x id) →
  (length (unseen seen (db_events (w_db w))) < fuel)%nat →
  ∃ r, follow_merges fuel seen id w = (r, w) ∧ pointer_end (db_events (w_db w)) start r.
Proof.
  intros Hq Hk. revert seen id. induction fuel as [|fuel IH]; [lia|].
  intros seen id Hreach Hseen Hfuel. cbn [follow_merges]. unfold mbind, M_bind.
  rewrite get_run, env_step_quiet by done.
  destruct (db_events (w_db w) !! id) as [e|] eqn:He; [|by eexists].
  pose proof (Hk _ _ He) as Hid.
  destruct (ev_merged_into e) as [target|] eqn:Hm.
  - assert (Hp : points (db_events (w_db w)) id target) by (exists e; auto).
    case_bool_decide as Hs.
    + eexists. split; [reflexivity|]. exists (ev_id e), target. rewrite Hid in *. auto.
    + apply IH.
      * by eapply rtc_r.
      * intros x [->|Hx]%elem_of_cons; [rewrite Hid; by apply tc_once|].
        eapply tc_r; [by apply Hseen|done].
      * pose proof (unseen_cons_lt e seen (db_events (w_db w))) as H.
        assert (e ∈ rows (db_events (w_db w))) by (apply elem_of_rows; eauto).
        specialize (H ltac:(done) Hs). lia.
  - eexists. split; [reflexivity|]. simpl. unfold canonical_of. by rewrite Hid.
Qed.

Lemma canonical_quiet id w :
  quiet w → keyed_events (db_events (w_db w)) →
  ∃ r, canonical_event id w = (r, w) ∧ pointer_end (db_events (w_db w)) id r.
Proof.
  intros Hq Hk. unfold canonical_event. apply follow_quiet; try done.
  - by intros x []%elem_of_nil.
  - unfold pointer_fuel. rewrite Hq. simpl. rewrite <- length_rows. unfold unseen.
    pose proof (length_filter (λ e, ev_id e ∉ []) (rows (db_events (w_db w)))). lia.
Qed.
End quiet_pointers.

(** ** Resolution in a run without interference *)
Import EventResolutionService.

(** [m] only reads. *)
Definition reads {A} (m : M A) (P : World → A → Prop) : Prop :=
  ∀ w, quiet w → ∃ r, m w = (r, w) ∧ ∀ a, r = Ok a → P w a.

Lemma reads_bind {A B} (m : M A) (f : A → M B) P Q :
  reads m P → (∀ w a, quiet w → P w a → ∃ r, f a w = (r, w) ∧ ∀ b, r = Ok b → Q w b) →
  reads (x ← m; f x) Q.
Proof.
  intros Hm Hf w Hq. destruct (Hm w Hq) as (r & E & HP). unfold mbind, M_bind. rewrite E.
  destruct r as [a|e]; [|by eexists]. by apply Hf, HP.
Qed.

Lemma elem_of_take {A} (x : A) n l : x ∈ take n l → x ∈ l.
Proof. intros H. rewrite <- (take_drop n l). apply elem_of_app. by left. Qed.

(** The identity rows a resolution may look at: those dated within a day of [d], and
    those registered under [r] in the same window. *)
Definition dated (db : DB) (d : string) : list EventIdentityIndex :=
  match IdentityRepo.day_window d with
  | Ok (Some win) =>
      filter (λ i, IdentityRepo.within win (ii_event_date_norm i) = true) (IdentityRepo.joined_rows db)
  | _ => []
  end.

Definition registered (db : DB) (d r : string) : list EventIdentityIndex :=
  let reg := IdentityRepo.normalise_registration_lookup r in
  match (if str_empty d then Ok None else IdentityRepo.day_window d) with
  | Ok win =>
      filter (λ i, (ii_registration_norm i = Some reg ∨ reg ∈ ii_registration_norms i)
                   ∧ IdentityRepo.in_window win (ii_event_date_norm i) = true) (IdentityRepo.joined_rows db)
  | Raise _ => []
  end.

(** What [cands] holds: nothing else, and all of it up to the two limits. *)
Definition examined (db : DB) (d : string) (reg : option string) (cands : list EventIdentityIndex)
    : Prop :=
  (∀ c, c ∈ cands → c ∈ dated db d ∨ ∃ r, reg = Some r ∧ c ∈ registered db d r)
  ∧ ((length (dated db d) ≤ 50)%nat → ∀ c, c ∈ dated db d → c ∈ cands)
  ∧ ∀ r, reg = Some r → str_empty r = false → (length (registered db d r) ≤ 20)%nat →
    ∀ c, c ∈ registered db d r → ii_event_id c ∈ ii_event_id <$> cands.

Lemma find_candidates_reads d n :
  reads (IdentityRepo.find_candidates d n) (λ w l,
    (∀ c, c ∈ l → c ∈ dated (w_db w) d)
    ∧ ((length (dated (w_db w) d) ≤ n)%nat → ∀ c, c ∈ dated (w_db w) d → c ∈ l)).
Proof.
  intros w Hq. unfold IdentityRepo.find_candidates, mbind, M_bind, lift_res, dated.
  destruct (IdentityRepo.day_window d) as [[win|]|e]; [| |by eexists].
  - rewrite query_quiet by done. eexists. split; [reflexivity|]. intros l [= <-]. split.
    + intros c Hc%elem_of_take. by rewrite elem_of_py_sorted in Hc.
    + intros Hn c Hc. rewrite take_ge by by rewrite length_py_sorted. by apply elem_of_py_sorted.
  - eexists. split; [reflexivity|]. intros l [= <-]. split; [by intros c ?%elem_of_nil|].
    by intros _ c ?%elem_of_nil.
Qed.

Lemma find_by_registration_reads r d :
  reads (IdentityRepo.find_by_registration r d) (λ w l,
    (∀ c, c ∈ l → c ∈ registered (w_db w) d r)
    ∧ ((length (registered (w_db w) d r) ≤ 20)%nat → ∀ c, c ∈ registered (w_db w) d r → c ∈ l)).
Proof.
  intros w Hq. unfold IdentityRepo.find_by_registration, mbind, M_bind, registered.
  assert ((if str_empty d then mret None else lift_res (IdentityRepo.day_window d)) w
    = (if str_empty d then Ok None else IdentityRepo.day_window d, w)) as -> by by destruct (str_empty d).
  destruct (if str_empty d then _ else _) as [win|e]; [|by eexists].
  rewrite query_quiet by done. eexists. split; [reflexivity|]. intros l [= <-]. split.
  - intros c Hc%elem_of_take. by rewrite elem_of_py_sorted in Hc.
  - intros Hn c Hc. rewrite take_ge by by rewrite length_py_sorted. by apply elem_of_py_sorted.
Qed.

Lemma elem_of_append_unseen c l1 l2 : c ∈ append_unseen l1 l2 → c ∈ l1 ∨ c ∈ l2.
Proof.
  revert l1. induction l2 as [|x l2 IH]; intros l1; simpl; [by left|].
  rewrite elem_of_cons. case_bool_decide; intros Hc; apply IH in Hc as [Hc|Hc]; auto.
  apply elem_of_app in Hc as [Hc| ->%list_elem_of_singleton]; auto.
Qed.

Lemma append_unseen_incl l1 l2 :
  (∀ c, c ∈ l1 → c ∈ append_unseen l1 l2)
  ∧ ∀ c, c ∈ l2 → ii_event_id c ∈ ii_event_id <$> append_unseen l1 l2.
Proof.
  revert l1. induction l2 as [|x l2 IH]; intros l1; simpl.
  { split; [done|]. by intros c ?%elem_of_nil. }
  case_bool_decide as Hx; [destruct (IH l1) as [H1 H2]|destruct (IH (l1 ++ [x])) as [H1 H2]].
  - split; [done|]. intros c [->|Hc]%elem_of_cons; [|by apply H2].
    apply list_elem_of_fmap in Hx as (y & -> & Hy). apply list_elem_of_fmap_2, H1, Hy.
  - split; [intros c Hc; apply H1, elem_of_app; by left|].
    intros c [->|Hc]%elem_of_cons; [|by apply H2].
    apply list_elem_of_fmap_2, H1, elem_of_app. right. by left.
Qed.

Lemma gather_reads d reg :
  reads (gather_candidates d reg) (λ w l, examined (w_db w) d reg l).
Proof.
  unfold gather_candidates. eapply reads_bind; [apply find_candidates_reads|].
  intros w cands Hq [Hc Hall].
  assert ((∀ r, reg = Some r → str_empty r = true) → examined (w_db w) d reg cands) as Hdone.
  { intros Hr. split_and!; [intros c ?; left; by apply Hc|done|].
    intros r ->. by rewrite (Hr r eq_refl). }
  destruct reg as [r|]; [|eexists; split; [reflexivity|]; intros ? [= <-]; by apply Hdone].
  destruct (str_empty r) eqn:Er;
    [eexists; split; [reflexivity|]; intros ? [= <-]; apply Hdone; congruence|].
  destruct (find_by_registration_reads r d w Hq) as (x & E & Hx).
  unfold mbind, M_bind. rewrite E. destruct x as [l|e]; [|by eexists].
  eexists. split; [reflexivity|]. intros ? [= <-]. destruct (Hx l eq_refl) as [Hl Hlall].
  destruct (append_unseen_incl cands l) as [H1 H2]. split_and!.
  - intros c [?|?]%elem_of_append_unseen; [left; by apply Hc|right; exists r; split; [done|by apply Hl]].
  - intros Hn c ?. apply H1. by apply Hall.
  - intros r' [= <-] _ Hn c ?. apply H2. by apply Hlall.
Qed.

(** The pointers of [id] end at no event. *)
Definition dangling m (id : UUID) : Prop := ∃ k, rtc (points m) id k ∧ m !! k = None.

Lemma canonical_event_for_reads m id w :
  quiet w → db_events (w_db w) = m → keyed_events m →
  ∃ r, canonical_event_for id w = (r, w)
  ∧ match r with Ok (Some e) => canonical_of m id e | Ok None => dangling m id | Raise _ => True end.
Proof.
  intros Hq <- Hk. unfold canonical_event_for, mbind, M_bind.
  destruct (canonical_quiet id w Hq Hk) as (r & -> & H).
  destruct r as [[k|e]|x]; eexists; (split; [reflexivity|]); [by exists k|done..].
Qed.

(** The id a candidate is reviewed under. *)
Definition reviewed_as m (raw c : UUID) : Prop :=
  (∃ e, canonical_of m raw e ∧ c = ev_id e) ∨ dangling m raw ∧ c = raw.

Lemma fromkeys_go_ext (s1 s2 l : list UUID) :
  (∀ x, x ∈ s1 ↔ x ∈ s2) → dict_fromkeys_go s1 l = dict_fromkeys_go s2 l.
Proof.
  revert s1 s2. induction l as [|x l IH]; intros s1 s2 Hs; simpl; [done|].
  rewrite (decide_ext _ (x ∈ s2)) by apply Hs.
  case_decide; [by apply IH|]. f_equal. apply IH. intros y. rewrite !elem_of_cons, Hs. done.
Qed.

Lemma fromkeys_go_without x (s l : list UUID) :
  dict_fromkeys_go (x :: s) l = dict_fromkeys_go s (filter (λ c, c ≠ x) l).
Proof.
  revert s. induction l as [|y l IH]; intros s; simpl; [done|]. rewrite filter_cons.
  destruct (decide (y = x)) as [->|Hne].
  - rewrite decide_True by by left. rewrite (decide_False (P := x ≠ x)) by tauto. apply IH.
  - rewrite (decide_True (P := y ≠ x)) by done. simpl.
    rewrite (decide_ext _ (y ∈ s)) by (rewrite elem_of_cons; tauto).
    case_decide; [apply IH|]. f_equal. rewrite <- IH. apply fromkeys_go_ext.
    intros z. rewrite !elem_of_cons. tauto.
Qed.

Lemma canonical_candidates_reads eid k ids acc w :
  quiet w → keyed_events (db_events (w_db w)) → (length acc ≤ k)%nat →
  ∃ r, canonical_candidates eid k ids acc w = (r, w)
  ∧ ∀ l, r = Ok l → ∃ ns, Forall2 (reviewed_as (db_events (w_db w))) ids ns
      ∧ l = acc ++ take (k - length acc) (dict_fromkeys_go (eid :: acc) ns).
Proof.
  intros Hq Hk. revert acc. induction ids as [|id ids IH]; intros acc Hacc; cbn [canonical_candidates].
  { eexists. split; [reflexivity|]. intros l [= <-]. exists []. simpl. by rewrite take_nil, app_nil_r. }
  unfold mbind, M_bind.
  destruct (canonical_event_for_reads _ id w Hq eq_refl Hk) as (r & -> & Hr).
  destruct r as [o|x]; [|by eexists]. cbv zeta.
  set (c := match o with Some e => ev_id e | None => id end) in *.
  assert (reviewed_as (db_events (w_db w)) id c) as Hc.
  { destruct o as [e|]; [left; by exists e|by right]. }
  clearbody c. destruct ((c =? eid)%N || bool_decide (c ∈ acc)) eqn:Ein; simpl.
  - destruct (IH acc Hacc) as (r & Er & HIH). exists r. split; [done|]. intros l ->.
    destruct (HIH l eq_refl) as (ns & Hf & ->). exists (c :: ns). split; [by constructor|]. simpl.
    rewrite decide_True; [done|]. apply elem_of_cons.
    apply orb_true_iff in Ein as [?%N.eqb_eq|?%bool_decide_eq_true]; auto.
  - apply orb_false_iff in Ein as [Hne%N.eqb_neq Hni%bool_decide_eq_false]. case_bool_decide as Hfull.
    + destruct (IH acc Hacc) as (r & Er & HIH). exists r. split; [done|]. intros l ->.
      destruct (HIH l eq_refl) as (ns & Hf & ->). exists (c :: ns). split; [by constructor|].
      by replace (k - length acc)%nat with 0%nat by lia.
    + destruct (IH (acc ++ [c])) as (r & Er & HIH); [rewrite length_app; simpl; lia|].
      exists r. split; [done|]. intros l ->.
      destruct (HIH l eq_refl) as (ns & Hf & ->). exists (c :: ns). split; [by constructor|].
      rewrite length_app, <- app_assoc. simpl. rewrite decide_False by (rewrite elem_of_cons; tauto).
      replace (k - length acc)%nat with (S (k - (length acc + 1))) by lia. simpl. do 3 f_equal.
      apply fromkeys_go_ext. intros x. rewrite !elem_of_cons, elem_of_app, list_elem_of_singleton. tauto.
Qed.

Definition put_events m (db : DB) : DB := upd_events (λ _, m) db.
Definition put_identity m (db : DB) : DB := upd_identity (λ _, m) db.
Definition put_reviews m (db : DB) : DB := upd_reviews (λ _, m) db.

(** The identity row of an event after [entry] was brought in: the entry itself when
    there was no row; else the union of the source records and of the registrations, the
    newest five, and the values of one of the two where they differ: the ones brought in
    ([fresh]), or the stored ones, with the registration brought in as one more alias. *)
Definition row_after (fresh : bool) (old : option EventIdentityIndex)
    (entry row : EventIdentityIndex) : Prop :=
  match old with
  | None => row = entry
  | Some o =>
      let kept {A} (sel : EventIdentityIndex → option A) (v : option A) : Prop :=
        let '(first, second) := if fresh then (entry, o) else (o, entry) in
        match sel first with Some x => v = Some x | None => v = sel second end in
      kept ii_event_date_norm (ii_event_date_norm row)
      ∧ kept ii_registration_norm (ii_registration_norm row)
      ∧ kept ii_operator_norm (ii_operator_norm row)
      ∧ kept ii_location_norm (ii_location_norm row)
      ∧ kept ii_aircraft_type_norm (ii_aircraft_type_norm row)
      ∧ (∀ x, x ∈ ii_source_record_ids row ↔ x ∈ ii_source_record_ids o ∨ x ∈ ii_source_record_ids entry)
      ∧ ii_registration_norms row
        = IdentityRepo.capped_union (ii_registration_norms o ++ ii_registration_norms entry
            ++ if fresh then [] else IdentityRepo.opt_list (ii_registration_norm entry))
      ∧ ii_updated_at row = ii_updated_at entry
  end.

Lemma elem_of_distinct_agg x l : x ∈ IdentityRepo.distinct_agg l ↔ x ∈ l.
Proof. unfold IdentityRepo.distinct_agg. by rewrite elem_of_sort_strings, elem_of_fromkeys. Qed.

Lemma upsert_quiet (entry : EventIdentityIndex) w :
  quiet w → ∃ row, row_after true (db_identity (w_db w) !! ii_event_id entry) entry row
  ∧ IdentityRepo.upsert entry w
    = (Ok tt, set_db (put_identity (<[ii_event_id entry := row]> (db_identity (w_db w))) (w_db w)) w).
Proof.
  intros Hq. unfold IdentityRepo.upsert. rewrite exec_quiet by done. unfold upd_identity, put_identity.
  destruct (db_identity (w_db w) !! ii_event_id entry) as [o|]; eexists; (split; [|reflexivity]); [|done].
  unfold row_after. cbn [ii_event_date_norm ii_registration_norm ii_operator_norm ii_location_norm
    ii_aircraft_type_norm ii_source_record_ids ii_registration_norms ii_updated_at].
  split_and!; [by destruct entry as [? [] [] [] [] [] ? ? ?]..| | |done].
  - intros x. by rewrite elem_of_distinct_agg, elem_of_app.
  - by rewrite app_nil_r.
Qed.

Lemma enrich_quiet (entry : EventIdentityIndex) w :
  quiet w → ∃ row, row_after false (db_identity (w_db w) !! ii_event_id entry) entry row
  ∧ IdentityRepo.enrich_identity_index_from_alias entry w
    = (Ok tt, set_db (put_identity (<[ii_event_id entry := row]> (db_identity (w_db w))) (w_db w)) w).
Proof.
  intros Hq. unfold IdentityRepo.enrich_identity_index_from_alias. rewrite exec_quiet by done.
  unfold upd_identity, put_identity.
  destruct (db_identity (w_db w) !! ii_event_id entry) as [o|]; eexists; (split; [|reflexivity]); [|done].
  unfold row_after, IdentityRepo.absorb. cbn [ii_event_date_norm ii_registration_norm ii_operator_norm
    ii_location_norm ii_aircraft_type_norm ii_source_record_ids ii_registration_norms ii_updated_at].
  split_and!; [by destruct o as [? [] [] [] [] [] ? ? ?]..| |done|done].
  intros x. by rewrite elem_of_distinct_agg, elem_of_app.
Qed.

(** What a resolution writes to the identity index, some time after [start]: the row of
    one event, and no other. *)
Definition identity_written (fresh : bool) (id : UUID) (fs : fields) (srid : option string)
    (start : datetime) (ids ids' : gmap UUID EventIdentityIndex) : Prop :=
  ∃ now row, start ≤ now ∧ row_after fresh (ids !! id) (build_identity_entry id fs srid now) row
    ∧ ids' = <[id := row]> ids.

Lemma update_identity_quiet id fs srid start w :
  quiet w → start ≤ w_now w →
  ∃ ids w', identity_written true id fs srid start (db_identity (w_db w)) ids ∧ quiet w'
  ∧ update_identity id fs srid w = (Ok tt, w') ∧ w_db w' = put_identity ids (w_db w).
Proof.
  intros Hq Ht. unfold update_identity, mbind, M_bind, utc_now. set (w1 := mkWorld _ _ _ _ _).
  destruct (upsert_quiet (build_identity_entry id fs srid (w_now w)) w1 Hq) as (row & Hrow & ->).
  exists (<[id := row]> (db_identity (w_db w))), (set_db (put_identity (<[id := row]> (db_identity (w_db w1))) (w_db w1)) w1).
  split; [by exists (w_now w), row|]. by split_and!.
Qed.

(** Creating an event inserts it with an identity row. *)
Lemma create_event_ok fs srid w e w' :
  quiet w → create_event fs srid w = (Ok e, w') →
  quiet w' ∧ db_events (w_db w) !! ev_id e = None ∧ ev_merged_into e = None
  ∧ ∃ ids, identity_written true (ev_id e) fs srid (w_now w) (db_identity (w_db w)) ids
  ∧ w_db w' = put_identity ids (put_events (<[ev_id e := e]> (db_events (w_db w))) (w_db w)).
Proof.
  intros Hq. unfold create_event, uuid4, utc_now, EventRepo.add.
  unfold mbind, M_bind, mret, M_ret. cbn [ev_id]. rewrite stmt_quiet by done. cbn [w_db w_now w_uuid].
  destruct (db_events (w_db w) !! w_uuid w) eqn:Hn; [done|].
  set (w1 := set_db _ _). destruct (update_identity_quiet (w_uuid w) fs srid (w_now w) w1) as
    (ids & w2 & Hs & Hq2 & -> & Hdb); [exact Hq|simpl; lia|].
  intros [= <- <-]. cbn [ev_id ev_merged_into]. split_and!; try done. by exists ids.
Qed.

(** *** Reviews *)
(** The review a decision asks for: pending, with the score and the fields that agree. *)
Definition fresh_review (d : MatchDecision) (eid c : UUID) (r : PendingDuplicateReview) : Prop :=
  dr_event_id_a r = c ∧ dr_event_id_b r = eid ∧ dr_status r = DR_PENDING
  ∧ dr_match_score r = md_score d ∧ dr_matched_fields r = md_matched_fields d
  ∧ dr_resolved_at r = None ∧ dr_resolved_by r = None ∧ dr_resolution_note r = None.

(** One pair: the review on file, or a new row. *)
Lemma queue_review_ok eid d c w r w' :
  quiet w → queue_review eid d c w = (Ok r, w') →
  let old := db_reviews (w_db w) in
  quiet w' ∧ ReviewRepo.is_pair c eid r
  ∧ ((∃ k, old !! k = Some r) ∧ w_db w' = put_reviews old (w_db w)
     ∨ old !! dr_id r = None ∧ fresh_review d eid c r
       ∧ w_db w' = put_reviews (<[dr_id r := r]> old) (w_db w)).
Proof.
  intros Hq. unfold queue_review, ReviewRepo.find_existing_pair. cbv zeta.
  intros (o & w1 & E & H)%bind_Ok_inv. rewrite query_quiet in E by done.
  injection E as <- <-.
  destruct (head (py_sorted _ _)) as [x|] eqn:Eh.
  - injection H as <- <-. split; [done|].
    assert (x ∈ filter (ReviewRepo.is_pair c eid) (rows (db_reviews (w_db w)))) as Hx.
    { rewrite <- (elem_of_py_sorted ReviewRepo.pending_first).
      destruct (py_sorted _ _); [done|]. injection Eh as ->. by left. }
    apply list_elem_of_filter in Hx as [Hp Hx]. split; [done|]. left.
    split; [by apply elem_of_rows in Hx|]. by destruct (w_db w).
  - unfold uuid4, utc_now, ReviewRepo.add in H. cbn [dr_status dr_event_id_a dr_event_id_b dr_id] in H.
    assert (Hnone : ReviewRepo.pending_pair c eid (w_db w) = None).
    { unfold ReviewRepo.pending_pair.
      match goal with |- head ?ll = None => destruct ll as [|x l'] eqn:Ex; [done|] end.
      assert (Hx : x ∈ x :: l') by left.
      rewrite <- Ex, elem_of_py_sorted, list_elem_of_filter in Hx. destruct Hx as [[Hp _] Hx].
      match type of Eh with head ?ll = None => destruct ll as [|y l] eqn:Es; [|done] end.
      apply py_sorted_nil in Es. assert (Hin : x ∈ []); [|by apply elem_of_nil in Hin].
      rewrite <- Es. by apply list_elem_of_filter. }
    revert H. unfold mbind, M_bind, mret, M_ret. rewrite stmt_quiet by done. cbn [w_db w_uuid w_now].
    rewrite bool_decide_true by done. rewrite Hnone.
    destruct (db_reviews (w_db w) !! w_uuid w) eqn:Hn; [done|].
    intros [= <- <-]. split; [exact Hq|]. split; [by left|]. right. by split_and!.
Qed.

(** The reviews of the pairs [cs] of [eid], as the answer and in the table. *)
Definition reviews_stored (d : MatchDecision) (eid : UUID) (cs : list UUID)
    (rs : list PendingDuplicateReview) (old tbl : gmap UUID PendingDuplicateReview) : Prop :=
  Forall2 (λ c r, ReviewRepo.is_pair c eid r ∧ ∃ k, tbl !! k = Some r) cs rs
  ∧ old ⊆ tbl
  ∧ ∀ k r, tbl !! k = Some r → old !! k = None → r ∈ rs ∧ dr_id r = k ∧ ∃ c, c ∈ cs ∧ fresh_review d eid c r.

Lemma queue_reviews_ok eid d ids w rs w' :
  quiet w → map_m (queue_review eid d) ids w = (Ok rs, w') →
  quiet w' ∧ ∃ tbl, reviews_stored d eid ids rs (db_reviews (w_db w)) tbl
    ∧ w_db w' = put_reviews tbl (w_db w).
Proof.
  revert w rs. induction ids as [|c ids IH]; intros w rs Hq; cbn [map_m].
  - intros [= <- <-]. split; [done|]. exists (db_reviews (w_db w)). split; [|by destruct (w_db w)].
    split; [by apply Forall2_nil|split; [done|congruence]].
  - intros (r & w1 & E & (rs' & w2 & E2 & H)%bind_Ok_inv)%bind_Ok_inv.
    injection H as <- <-. apply queue_review_ok in E as (Hq1 & Hp & H1); [|done].
    apply IH in E2 as (Hq2 & tbl & (Hf & Hsub & Hnew) & Hdb2); [|done]. split; [done|]. exists tbl.
    assert (∃ t1, w_db w1 = put_reviews t1 (w_db w) ∧ (∃ k, t1 !! k = Some r) ∧ db_reviews (w_db w) ⊆ t1
      ∧ ∀ k x, t1 !! k = Some x → db_reviews (w_db w) !! k = None →
          x = r ∧ dr_id r = k ∧ fresh_review d eid c r) as (t1 & Hd1 & [k Hk] & Hs1 & Hn1).
    { destruct H1 as [(Hk & Hd)|(Hn & Hfr & Hd)]; eexists; (split; [exact Hd|]); split_and!; try done.
      - congruence.
      - exists (dr_id r). apply lookup_insert_eq.
      - by apply insert_subseteq.
      - intros k x [[<- <-]|[_ Hx]]%lookup_insert_Some Hnk; [done|congruence]. }
    rewrite Hd1 in Hsub, Hnew, Hdb2. cbn [put_reviews upd_reviews db_reviews] in Hsub, Hnew.
    split; [|rewrite Hdb2; by destruct (w_db w)]. split_and!.
    + constructor; [split; [done|]; exists k; by eapply lookup_weaken|exact Hf].
    + by etrans.
    + intros k' x Hx Hold. destruct (t1 !! k') as [y|] eqn:Ey.
      * assert (x = y) as -> by (eapply lookup_weaken in Ey; [|exact Hsub]; congruence).
        destruct (Hn1 _ _ Ey Hold) as (-> & ? & ?). split_and!; [by left|done|]. exists c. split; [by left|done].
      * destruct (Hnew _ _ Hx Ey) as (? & ? & c' & ? & ?). split_and!; [by right|done|].
        exists c'. split; [by right|done].
Qed.

Lemma keyed_insert m e : keyed_events m → keyed_events (<[ev_id e := e]> m).
Proof.
  intros Hk k x. destruct (decide (k = ev_id e)) as [->|Hne].
  - rewrite lookup_insert_eq. by intros [= <-].
  - rewrite lookup_insert_ne by congruence. apply Hk.
Qed.

(** What made the resolution: nothing to match without a date ([None]), else the decision
    over the identity rows examined. *)
Definition matched (fs : fields) (db : DB) (o : option MatchDecision) : Prop :=
  match o with
  | None => field "event_date" fs = PNone
  | Some d => field "event_date" fs ≠ PNone ∧ ∃ cands,
      examined db (norm_date (PStr (py_str (field "event_date" fs))))
        (if py_truthy (field "registration" fs) then Some (compact (norm (field "registration" fs)))
         else None) cands
      ∧ decided fs cands d
  end.

(** The ids under review: those of the candidates under their canonical ids, each once,
    without the new event, and no more than allowed. *)
Definition due_reviews (m : gmap UUID AccidentEvent) (eid : UUID) (maxr : nat)
    (o : option MatchDecision) (cs : list UUID) : Prop :=
  match o with
  | Some d =>
      if decide (md_action d = REVIEW) then
        ∃ ns, Forall2 (reviewed_as m) (candidate_event_ids d) ns
              ∧ cs = take maxr (dict_fromkeys (filter (λ c, c ≠ eid) ns))
      else cs = []
  | None => cs = []
  end.

(** What a resolution that creates an event leaves behind. *)
Definition created_effect (fs : fields) (srid : option string) (maxr : nat) (start : datetime)
    (o : option MatchDecision) (db : DB) (res : resolution) (db' : DB) : Prop :=
  let e := re_event res in
  db_events db !! ev_id e = None ∧ ev_merged_into e = None
  ∧ (∀ d, o = Some d → md_action d = ATTACH →
       ∃ c, md_candidate d = Some c ∧ dangling (db_events db) c)
  ∧ identity_written true (ev_id e) fs srid start (db_identity db) (db_identity db')
  ∧ (∃ cs, due_reviews (<[ev_id e := e]> (db_events db)) (ev_id e) maxr o cs
       ∧ match o with
         | Some d => reviews_stored d (ev_id e) cs (re_reviews res) (db_reviews db) (db_reviews db')
         | None => re_reviews res = [] ∧ db_reviews db' = db_reviews db
         end)
  ∧ re_attached_by res = (if decide (re_reviews res = []) then "new_event" else "duplicate_review")
  ∧ db' = put_reviews (db_reviews db') (put_identity (db_identity db')
            (put_events (<[ev_id e := e]> (db_events db)) db)).

(** ... and one that attaches to a known event. *)
Definition attached_effect (fs : fields) (srid : option string) (start : datetime)
    (o : option MatchDecision) (db : DB) (res : resolution) (db' : DB) : Prop :=
  let e := re_event res in
  re_reviews res = [] ∧ re_attached_by res = "identity_match"
  ∧ ∃ d c, o = Some d ∧ md_action d = ATTACH ∧ md_candidate d = Some c
    ∧ canonical_of (db_events db) c e
    ∧ identity_written (bool_decide (c = ev_id e)) (ev_id e) fs srid start (db_identity db) (db_identity db')
    ∧ db' = put_identity (db_identity db') db.

(** An event with its identity row and no review. *)
Lemma created_alone fs srid maxr o w e w' :
  quiet w → create_event fs srid w = (Ok e, w') →
  (∀ d, o = Some d → md_action d = ATTACH →
     ∃ c, md_candidate d = Some c ∧ dangling (db_events (w_db w)) c) →
  (∀ d, o = Some d → md_action d ≠ REVIEW) →
  created_effect fs srid maxr (w_now w) o (w_db w) (mkResolution e [] true "new_event") (w_db w').
Proof.
  intros Hq E Ha Hr. apply create_event_ok in E as (_ & Hn & Hm & ids & Hi & Hdb); [|done].
  unfold created_effect. cbn [re_event re_reviews re_attached_by]. rewrite Hdb.
  split_and!; [done..| |done|done]. exists []. destruct o as [d|]; [|done]. unfold due_reviews.
  rewrite decide_False by by apply Hr. split; [done|]. split; [by apply Forall2_nil|split; [done|intros k x Hx Hnx; cbn in Hx; congruence]].
Qed.

Lemma found_event_ok d fs srid maxr w res w' :
  quiet w → keyed_events (db_events (w_db w)) →
  (md_action d = ATTACH → ∃ c, md_candidate d = Some c ∧ dangling (db_events (w_db w)) c) →
  found_event d fs srid maxr w = (Ok res, w') →
  re_created res = true ∧ created_effect fs srid maxr (w_now w) (Some d) (w_db w) res (w_db w').
Proof.
  intros Hq Hk Ha. unfold found_event. intros (e & w1 & E & H)%bind_Ok_inv.
  case_bool_decide as Hr; simpl in H.
  2: { injection H as <- <-. split; [done|]. apply created_alone; [done|done|naive_solver..]. }
  pose proof E as E1. apply create_event_ok in E1 as (Hq1 & Hn & Hm & ids & Hi & Hdb); [|done].
  assert (∃ cs rs tbl, due_reviews (<[ev_id e := e]> (db_events (w_db w))) (ev_id e) maxr (Some d) cs
    ∧ reviews_stored d (ev_id e) cs rs (db_reviews (w_db w)) tbl ∧ w_db w' = put_reviews tbl (w_db w1)
    ∧ res = mkResolution e rs true (if decide (rs = []) then "new_event" else "duplicate_review"))
    as (cs & rs & tbl & Hdue & Hst & Hdb' & ->).
  { assert (∀ m cs, (∃ ns, Forall2 (reviewed_as m) (candidate_event_ids d) ns
        ∧ cs = take maxr (dict_fromkeys (filter (λ c, c ≠ ev_id e) ns))) →
      due_reviews m (ev_id e) maxr (Some d) cs) as Hdue.
    { intros m cs. unfold due_reviews. by rewrite decide_True. }
    case_bool_decide as Hids; simpl in H.
    - injection H as <- <-. exists [], [], (db_reviews (w_db w)). split_and!; [| | |done].
      + apply Hdue. exists []. rewrite Hids. split; [by apply Forall2_nil|by destruct maxr].
      + split; [by apply Forall2_nil|split; [done|congruence]].
      + rewrite Hdb. by destruct (w_db w).
    - apply bind_Ok_inv in H as (cs & w2 & E2 & H).
      destruct (canonical_candidates_reads (ev_id e) maxr (candidate_event_ids d) [] w1) as (r & Er & Hl);
        [done|rewrite Hdb; by apply keyed_insert|simpl; lia|].
      rewrite Er in E2. injection E2 as -> <-. destruct (Hl cs eq_refl) as (ns & Hns & ->).
      apply bind_Ok_inv in H as (rs & w3 & E3 & H).
      apply queue_reviews_ok in E3 as (_ & tbl & Hst & Hdb3); [|done].
      injection H as <- <-. rewrite Hdb in Hns, Hst. simpl in Hst. rewrite Nat.sub_0_r in Hst.
      eexists _, rs, tbl. split_and!; [apply Hdue; exists ns; split; [exact Hns|reflexivity]| |exact Hdb3|by destruct rs].
      unfold dict_fromkeys. by rewrite <- fromkeys_go_without. }
  split; [done|]. unfold created_effect. cbn [re_event re_reviews re_attached_by]. rewrite Hdb', Hdb.
  split_and!; try done; [naive_solver|]. exists cs. by split.
Qed.

Lemma attach_ok d fs srid w o w' :
  quiet w → keyed_events (db_events (w_db w)) → attach d fs srid w = (Ok o, w') →
  quiet w' ∧ match o with
             | Some e => ∃ c, md_candidate d = Some c ∧ canonical_of (db_events (w_db w)) c e
                 ∧ ∃ ids, identity_written (bool_decide (c = ev_id e)) (ev_id e) fs srid (w_now w)
                            (db_identity (w_db w)) ids
                   ∧ w_db w' = put_identity ids (w_db w)
             | None => w' = w ∧ ∀ c, md_candidate d = Some c → dangling (db_events (w_db w)) c
             end.
Proof.
  intros Hq Hk. unfold attach. destruct (md_candidate d) as [c|]; [|by intros [= <- <-]].
  intros (x & w1 & E & H)%bind_Ok_inv.
  destruct (canonical_event_for_reads _ c w Hq eq_refl Hk) as (r & Er & Hc).
  rewrite Er in E. injection E as -> <-.
  destruct x as [e|]; [|injection H as <- <-; split; [done|]; split; [done|]; by intros ? [= <-]].
  apply bind_Ok_inv in H as (now & w2 & E2 & H). injection E2 as <- <-.
  apply bind_Ok_inv in H as (u & w3 & E3 & H). injection H as <- <-.
  revert E3. set (w2 := mkWorld _ _ _ _ _). intros E3.
  assert (∃ ids, identity_written (bool_decide (c = ev_id e)) (ev_id e) fs srid (w_now w)
    (db_identity (w_db w)) ids ∧ w3 = set_db (put_identity ids (w_db w2)) w2) as (ids & Hs & ->).
  { set (entry := build_identity_entry (ev_id e) fs srid (w_now w)) in *.
    destruct (N.eqb_spec c (ev_id e)) as [Heq|Hne];
      [rewrite bool_decide_true by done; destruct (upsert_quiet entry w2 Hq) as (row & Hrow & E)
      |rewrite bool_decide_false by done; destruct (enrich_quiet entry w2 Hq) as (row & Hrow & E)];
      rewrite E in E3; injection E3 as _ <-;
      exists (<[ev_id e := row]> (db_identity (w_db w))); (split; [|done]); by exists (w_now w), row. }
  split; [exact Hq|]. exists c. split_and!; [done|exact Hc|]. by exists ids.
Qed.

(** The branch with a date, once the candidates are examined. *)
Definition after_decision (fs : fields) (srid : option string) (maxr : Z) (d : MatchDecision)
    : M resolution :=
  existing ← (if bool_decide (md_action d = ATTACH) then attach d fs srid else mret None);
  match existing with
  | Some e => mret (mkResolution e [] false "identity_match")
  | None => found_event d fs srid (Z.to_nat maxr)
  end.

Lemma decided_candidate fs cands d :
  decided fs cands d → md_action d = ATTACH → is_Some (md_candidate d).
Proof. unfold decided. intros Hd Ha. rewrite Ha in Hd. destruct Hd as (? & c & ? & _ & _ & ->). by eexists. Qed.

Lemma resolve_cases fs srid maxr w res w' :
  quiet w → resolve_with_reviews fs srid maxr w = (Ok res, w') →
  field "event_date" fs = PNone
    ∧ (∃ e, create_event fs srid w = (Ok e, w') ∧ res = mkResolution e [] true "new_event")
  ∨ ∃ d, matched fs (w_db w) (Some d) ∧ after_decision fs srid maxr d w = (Ok res, w').
Proof.
  intros Hq H. unfold resolve_with_reviews in H. destruct (maxr <=? 0); [done|]. unfold matched.
  destruct (field "event_date" fs) eqn:Ef;
    [apply bind_Ok_inv in H as (e & w1 & E & H); injection H as <- <-; left; eauto|right..].
  all: apply bind_Ok_inv in H as (u & w1 & E1 & H);
    unfold IdentityRepo.lock_for_identity_resolution in E1;
    rewrite exec_quiet, set_db_same in E1 by done; injection E1 as _ <-;
    apply bind_Ok_inv in H as (cands & w2 & E2 & H);
    match type of E2 with gather_candidates ?a ?b _ = _ =>
      destruct (gather_reads a b w Hq) as (r & Er & Hr) end;
    rewrite Er in E2; injection E2 as -> <-; eexists; split; [|exact H];
    (split; [done|]); exists cands; (split; [exact (Hr cands eq_refl)|apply decide_decided]).
Qed.

(** C18: what resolution does with anonymous claims. In a run without interference it
    examines the identity rows near the date, and those of the registration, and ends in
    one of two ways.

    Either it creates one new event: because the claims carry no date, because no
    candidate scores high enough alone, or because the one that does leads to no event
    any more. The event gets an identity row; and when the decision is REVIEW, each
    candidate, under its canonical id, once and up to the allowed number, is paired with
    it by one review, which is answered and stored: the review on file, or a new pending
    one with the score of the decision. No other review is added and none is changed.

    Or it attaches to the event at the end of the merge pointers of the one candidate
    that scores at least HIGH_CONFIDENCE and more than all others, queues no review, and
    brings the claims into that event's identity row: they win over the stored values
    when the candidate was the event itself, and yield to them when it was merged into it.

    No other identity row, event or table changes, and the event it returns is stored and
    not merged. *)
Theorem event_resolution_effect fs srid maxr w res w' :
  quiet w → keyed_events (db_events (w_db w)) →
  resolve_with_reviews fs srid maxr w = (Ok res, w') →
  let e := re_event res in
  db_events (w_db w') !! ev_id e = Some e ∧ ev_merged_into e = None
  ∧ ∃ o, matched fs (w_db w) o
    ∧ if re_created res then created_effect fs srid (Z.to_nat maxr) (w_now w) o (w_db w) res (w_db w')
      else attached_effect fs srid (w_now w) o (w_db w) res (w_db w').
Proof.
  intros Hq Hk H. cbv zeta.
  assert (Hgoal : ∀ o, re_created res = true → matched fs (w_db w) o →
    created_effect fs srid (Z.to_nat maxr) (w_now w) o (w_db w) res (w_db w') →
    db_events (w_db w') !! ev_id (re_event res) = Some (re_event res)
    ∧ ev_merged_into (re_event res) = None
    ∧ ∃ o, matched fs (w_db w) o
      ∧ if re_created res then created_effect fs srid (Z.to_nat maxr) (w_now w) o (w_db w) res (w_db w')
        else attached_effect fs srid (w_now w) o (w_db w) res (w_db w')).
  { intros o -> Ho He. pose proof He as (_ & Hm & _ & _ & _ & _ & Hdb).
    split; [rewrite Hdb; apply lookup_insert_eq|]. split; [done|]. by exists o. }
  apply resolve_cases in H as [[Hf (e & E & ->)]|(d & Hd & H)]; [| |done].
  { apply (Hgoal None); [done|done|]. by apply created_alone. }
  unfold after_decision in H. apply bind_Ok_inv in H as ([e|] & w3 & E & H).
  - injection H as <- <-. cbn [re_created re_event].
    case_bool_decide as Ha; [|done].
    apply attach_ok in E as (_ & c & Hc & Hcan & ids & Hids & Hdb); [|done..]. rewrite Hdb.
    split_and!; [apply Hcan|apply Hcan|]. exists (Some d). split; [done|].
    split_and!; [done|done|]. by exists d, c.
  - assert (w3 = w ∧ (md_action d = ATTACH →
      ∃ c, md_candidate d = Some c ∧ dangling (db_events (w_db w)) c)) as [-> Hda].
    { case_bool_decide as Ha; [|injection E as <-; done].
      apply attach_ok in E as (_ & -> & Hdan); [|done..]. split; [done|]. intros _.
      destruct Hd as (_ & cands & _ & Hdec). destruct (decided_candidate _ _ _ Hdec Ha) as [c Hc]. eauto. }
    apply found_event_ok in H as [Hc He]; [|done..]. by apply (Hgoal (Some d)).
Qed.

(** Event 1 and its identity row. *)
Definition identity_db : DB :=
  put_identity {[1%N := sample_identity 1 "lnold" []]}
    (put_events {[1%N := mkEvent 1 0 None]} empty_db).

Lemma event_resolution_effect_witness :
  let w := world_of identity_db in
  let run := resolve_with_reviews sample_incoming None 10 w in
  ∃ res w', run = (Ok res, w') ∧ re_event res = mkEvent 1 0 None
  ∧ ∃ o, matched sample_incoming (w_db w) o
    ∧ attached_effect sample_incoming None (w_now w) o (w_db w) res (w_db w').
Proof.
  cbv zeta.
  assert (Hk : keyed_events (db_events (w_db (world_of identity_db)))).
  { intros k e. change (db_events (w_db (world_of identity_db)))
      with ({[1%N := mkEvent 1 0 None]} : gmap UUID AccidentEvent).
    by intros [<- <-]%lookup_singleton_Some. }
  eexists (mkResolution (mkEvent 1 0 None) [] false "identity_match"), _.
  match goal with |- ?a ∧ ?b ∧ ?c => assert (Hrun : a) by (vm_compute; reflexivity) end.
  split; [exact Hrun|]. split; [reflexivity|].
  exact (proj2 (proj2 (event_resolution_effect sample_incoming None 10 (world_of identity_db) _ _
           eq_refl Hk Hrun))).
Defined.

(** Event 2 was merged into event 1; both rows of the identity index remain. *)
Definition merged_twins_db : DB :=
  put_identity {[1%N := sample_identity 1 "lnold" ["lnold"]; 2%N := sample_identity 2 "lnold" []]}
    (put_events {[1%N := mkEvent 1 0 None; 2%N := mkEvent 2 0 (Some 1%N)]} empty_db).

(** merging duplicates breeds duplicates. When two events with the same identity
    were merged, the row of the absorbed event ties with the row of the survivor, so
    claims that match both perfectly found a third event, with a review against the
    survivor, instead of attaching to it; with the absorbed row gone the same claims
    attach. *)
Theorem merged_twins_tie :
  let run db := resolve_with_reviews sample_incoming None 10 (world_of db) in
  (∃ res w', run merged_twins_db = (Ok res, w') ∧ re_created res = true
     ∧ re_attached_by res = "duplicate_review" ∧ size (db_events (w_db w')) = 3%nat
     ∧ ∃ r, re_reviews res = [r] ∧ ReviewRepo.is_pair 1 (ev_id (re_event res)) r
            ∧ f_eqb (dr_match_score r) f_one = true)
  ∧ (∃ res w', run (put_identity (delete 2%N (db_identity merged_twins_db)) merged_twins_db)
       = (Ok res, w')
     ∧ re_created res = false ∧ ev_id (re_event res) = 1%N
     ∧ size (db_events (w_db w')) = 2%nat).
Proof.
  cbv zeta. split; (eexists _, _; split; [vm_compute; reflexivity|]).
  - split_and!; [reflexivity..|]. eexists. split_and!; [reflexivity|by left|reflexivity].
  - split_and!; reflexivity.
Qed.
