(* ===== verification/Ingestion.v ===== *)
(** Ingestion: validation and hashing of a submission, idempotent replay, writing and
    superseding claims, and the use case that composes them
    (src/src/atlas/application/use_cases/ingest_source_data.py,
    src/src/atlas/application/ingestion/_idempotency.py, _claim_writer.py,
    _projection_updater.py).

    [StoredIngestionResult.model_validate] is pydantic's: it is the parameter
    [ModelValidate].  Claim values are JSON values, which [model_dump(mode="json")]
    leaves as they are. *)
From Stdlib Require Import Ascii.
From S2P Require Import Prelude Text PyFloat PyVal PyDate Entities Store Json Logic Normalize.
From S2P Require Import Matching Conflicts Projection Reproject Resolution Reconcile.
From S2P Require Import EventResolution.
Open Scope string_scope.
Open Scope list_scope.
Open Scope Z_scope.

Record IngestionSettings := mkSettings {
  max_claims_per_request : Z;
  max_raw_payload_bytes : Z;
  max_duplicate_reviews_per_ingestion : Z;
}.

(** ** Data transfer objects (application/dto.py) *)
Record IngestionClaimDTO := mkDTO { dto_field_name : string; dto_field_value : pyval }.

(** IngestionClaimDTO.field_name_non_empty *)
Definition make_dto (field_name : string) (field_value : pyval) : Res IngestionClaimDTO :=
  let value := str_strip field_name in
  if str_empty value then Raise (ValueError "field_name must not be blank")
  else Ok (mkDTO value field_value).

(** [claim.model_dump(mode="json")] *)
Definition model_dump (c : IngestionClaimDTO) : raw_claim :=
  [("field_name", PStr (dto_field_name c)); ("field_value", dto_field_value c)].

Record IngestionResult := mkResult {
  rt_event_id : UUID;
  rt_event_created : bool;
  rt_snapshot_created : bool;
  rt_idempotent_replay : bool;
  rt_pending_review_id : option UUID;
  rt_pending_review_ids : list UUID;
  rt_attached_by : string;
}.

(** IngestionResult.__post_init__: the primary review heads the distinct ids. *)
Definition make_result (event_id : UUID) (event_created snapshot_created replay : bool)
    (pending_review_id : option UUID) (pending_review_ids : list UUID) (attached_by : string)
    : IngestionResult :=
  let ids := dict_fromkeys pending_review_ids in
  let primary := match pending_review_id with Some p => Some p | None => head ids end in
  let ids := match primary with
             | Some p => p :: filter (λ id, id ≠ p) ids
             | None => ids
             end in
  mkResult event_id event_created snapshot_created replay primary ids attached_by.

(** ** Validation and hashing *)
Definition canonical_bytes (value : pyval) (label : string) : Res string :=
  match json_dumps value with
  | Some t => Ok t
  | None => Raise (DomainValidationError (label +:+ " must be JSON-serializable"))
  end.

Definition normalise_source_record_id (source_record_id : option string) : option string :=
  s ← source_record_id; or_none (str_strip s).

Definition opt_str (o : option string) : pyval := match o with Some s => PStr s | None => PNone end.
Definition opt_uuid (o : option UUID) : pyval :=
  match o with Some u => PStr (uuid_str u) | None => PNone end.

Section submission.
Context `{Hashlib}.

Definition source_mapping_hash (field_mapping : list (string * string)) : Res string :=
  t ← canonical_bytes (PDict (map (λ kv, (kv.1, PStr kv.2)) field_mapping)) "source field mapping";
  mret (sha256_hexdigest t).

(** The sort key of a claim: its field name, then the canonical text of its value. *)
Definition claim_key (c : IngestionClaimDTO) : Res ((string * string) * pyval) :=
  t ← canonical_bytes (dto_field_value c) "claim field_value";
  mret ((dto_field_name c, t), PDict (model_dump c)).

Definition key_leb (x y : (string * string) * pyval) : bool :=
  if String.eqb x.1.1 y.1.1 then String.leb x.1.2 y.1.2 else String.leb x.1.1 y.1.1.

Definition sorted_claims (claims_data : list IngestionClaimDTO) : Res (list pyval) :=
  items ← map_res claim_key claims_data;
  mret (snd <$> py_sorted key_leb items).

Record submission := mkSubmission {
  sb_source_id : UUID;
  sb_raw_payload : list (string * pyval);
  sb_ingestion_run_id : UUID;
  sb_claims_data : list IngestionClaimDTO;
  sb_captured_at : option datetime;
  sb_event_id : option UUID;
  sb_source_record_id : option string;
}.

(** _ingestion_submission_fingerprint *)
Definition submission_fingerprint (sb : submission) (raw_payload_hash source_mapping_hash
    normalizer_version : option string) : Res (list (string * pyval)) :=
  claims ← sorted_claims (sb_claims_data sb);
  mret [("schema_version", PInt 1); ("raw_payload_hash", opt_str raw_payload_hash);
        ("claims_data", PList claims); ("source_record_id", opt_str (sb_source_record_id sb));
        ("event_id", opt_uuid (sb_event_id sb));
        ("captured_at", opt_str (datetime_iso <$> sb_captured_at sb));
        ("source_mapping_hash", opt_str source_mapping_hash);
        ("normalizer_version", opt_str normalizer_version)].

(** _ingestion_submission_hash_material *)
Definition hash_material (sb : submission) : Res pyval :=
  fingerprint ← submission_fingerprint sb None None None;
  mret (PDict (("raw_payload", PDict (sb_raw_payload sb))
        :: filter (λ kv, kv.1 ≠ "source_mapping_hash" ∧ kv.1 ≠ "normalizer_version") fingerprint)).

Fixpoint duplicates (seen : list string) (l : list string) : list string :=
  match l with
  | [] => []
  | x :: l' => if bool_decide (x ∈ seen) then x :: duplicates seen l' else duplicates (x :: seen) l'
  end.

(** [sorted(set(l))], shown *)
Definition shown_set (l : list string) : string :=
  repr (PList (map PStr (py_sorted String.leb (dict_fromkeys l)))).

Definition str_len (s : string) : Z := Z.of_nat (String.length s).

(** _validate_and_hash: the hash of the raw payload and of the submission. *)
Definition validate_and_hash (settings : IngestionSettings) (sb : submission)
    : Res (string * string) :=
  let n := Z.of_nat (length (sb_claims_data sb)) in
  if n =? 0 then Raise (DomainValidationError
    "claims_data must not be empty: at least one claim is required per ingestion") else
  if max_claims_per_request settings <? n then Raise (TooManyClaimsError
    ("Too many claims in request: " +:+ int_str n +:+ " > "
     +:+ int_str (max_claims_per_request settings))) else
  payload ← canonical_bytes (PDict (sb_raw_payload sb)) "raw_payload";
  if max_raw_payload_bytes settings <? str_len payload then Raise (PayloadTooLargeError
    ("raw_payload is too large: " +:+ int_str (str_len payload) +:+ " bytes > "
     +:+ int_str (max_raw_payload_bytes settings))) else
  material ← hash_material sb;
  bytes ← canonical_bytes material "ingestion submission";
  if max_raw_payload_bytes settings <? str_len bytes then Raise (PayloadTooLargeError
    ("ingestion submission is too large: " +:+ int_str (str_len bytes) +:+ " bytes > "
     +:+ int_str (max_raw_payload_bytes settings))) else
  match duplicates [] (dto_field_name <$> sb_claims_data sb) with
  | [] => Ok (sha256_hexdigest payload, sha256_hexdigest bytes)
  | dups => Raise (DuplicateClaimFieldError
      ("Ingestion payload contains duplicate field_name entries: " +:+ shown_set dups
       +:+ ". A single source may only assert one value per field per submission."))
  end.
End submission.

(** _ingestion_result_json *)
Definition result_json (r : IngestionResult) (completed_at : datetime) : list (string * pyval) :=
  [("schema_version", PInt 1); ("event_id_at_completion", PStr (uuid_str (rt_event_id r)));
   ("event_id", PStr (uuid_str (rt_event_id r))); ("event_created", PBool (rt_event_created r));
   ("snapshot_created", PBool (rt_snapshot_created r));
   ("pending_review_id", opt_uuid (rt_pending_review_id r));
   ("pending_review_ids", PList (map (λ u, PStr (uuid_str u)) (rt_pending_review_ids r)));
   ("attached_by", PStr (rt_attached_by r)); ("completed_at", PStr (datetime_iso completed_at))].

(** ** IngestionIdempotencyService *)
Record StoredIngestionResult := mkStored {
  st_schema_version : Z;
  st_event_id_at_completion : option UUID;
  st_event_id : option UUID;
  st_event_created : bool;
  st_snapshot_created : bool;
  st_pending_review_id : option UUID;
  st_pending_review_ids : list UUID;
  st_attached_by : string;
}.

(** pydantic's validation of the stored JSON; [None] when it raises. *)
Class ModelValidate := model_validate : list (string * pyval) → option StoredIngestionResult.

Definition payload_mismatch : exn := IdempotencyKeyPayloadMismatchError.

Module IngestionIdempotencyService.
(** [a or b] on optional strings: the empty string is false. *)
Definition str_or (a : option string) (b : string) : string :=
  match a with Some s => if str_empty s then b else s | None => b end.

Definition snapshot_hash_matches (snapshot : RawSnapshot) (submission_hash raw_payload_hash : string)
    : bool :=
  let stored := str_or (rs_submission_hash snapshot) (rs_payload_hash snapshot) in
  String.eqb stored submission_hash
  || (bool_decide (rs_submission_fingerprint snapshot = None)
      && bool_decide (rs_raw_payload_hash snapshot = None)
      && String.eqb stored raw_payload_hash).

(** _canonical_event_id: the row found under an id carries that id. *)
Definition canonical_event_id (event_id : UUID) : M UUID :=
  r ← canonical_event event_id;
  match r with
  | inl missing => raise (EventNotFoundError missing)
  | inr e => mret (ev_id e)
  end.

Definition replay_seed_event_id (stored : StoredIngestionResult) : option UUID :=
  coalesce (st_event_id_at_completion stored) (st_event_id stored).

(** The reviews of a replay: the distinct stored ids, the primary one among them. *)
Definition replay_review_ids (stored : StoredIngestionResult) : list UUID :=
  let ids := dict_fromkeys (st_pending_review_ids stored) in
  match st_pending_review_id stored with
  | Some p => if bool_decide (p ∈ ids) then ids else p :: ids
  | None => ids
  end.

Section replay.
Context `{ModelValidate}.

Definition result_from_json (data : list (string * pyval)) : M IngestionResult :=
  match model_validate data with
  | None => raise (PersistenceCorruptionError
      "Malformed stored ingestion_result_json: persisted result could not be deserialized. This is an internal data-integrity problem, not a client error.")
  | Some stored =>
      if negb (st_schema_version stored =? 1)
      then raise (PersistenceCorruptionError ("Unsupported ingestion_result_json schema_version "
        +:+ int_str (st_schema_version stored) +:+ ". The stored record was written by a newer version of Atlas. This is an internal data-integrity problem, not a client error.")) else
      match replay_seed_event_id stored with
      | None => raise (PersistenceCorruptionError
                  "Malformed stored ingestion_result_json: missing event id (event_id_at_completion and event_id are both absent). This is an internal data-integrity problem, not a client error.")
      | Some seed =>
          event_id ← canonical_event_id seed;
          mret (make_result event_id (st_event_created stored) false true
                  (st_pending_review_id stored) (replay_review_ids stored)
                  (if str_empty (st_attached_by stored) then "idempotent_replay"
                   else st_attached_by stored))
      end
  end.

(** _result_from_snapshot; without a stored result the claims of the snapshot tell
    the event. *)
Definition result_from_snapshot (snapshot : RawSnapshot) : M (option IngestionResult) :=
  match rs_ingestion_result snapshot with
  | Some (kv :: d) => r ← result_from_json (kv :: d); mret (Some r)
  | _ =>
      existing_event_id ← ClaimRepo.find_event_id_by_raw_snapshot_id (rs_id snapshot);
      match existing_event_id with
      | None => mret None
      | Some id =>
          event_id ← canonical_event_id id;
          mret (Some (make_result event_id false false true None []
                        "idempotent_replay_legacy_claim_lookup"))
      end
  end.

Definition check (source_id ingestion_run_id : UUID) (submission_hash raw_payload_hash : string)
    : M (option IngestionResult) :=
  existing_for_run ← SnapshotRepo.find_by_source_run source_id ingestion_run_id;
  match existing_for_run with
  | None => mret None
  | Some snapshot =>
      if negb (snapshot_hash_matches snapshot submission_hash raw_payload_hash)
      then raise payload_mismatch else
      replay ← result_from_snapshot snapshot;
      match replay with
      | Some r => mret (Some r)
      | None => raise IngestionInProgressError
      end
  end.
End replay.
End IngestionIdempotencyService.

(** ** ClaimWriter *)
Module ClaimWriter.
Definition assert_no_duplicate_fields (items : list raw_claim) (message_prefix : string)
    : Res unit :=
  match duplicates [] (raw_field_name <$> items) with
  | [] => Ok tt
  | dups => Raise (DuplicateClaimFieldError (message_prefix +:+ ": " +:+ shown_set dups))
  end.

Definition normalise_claims (registry : SourceNormalizerRegistry.t) (source_kind : string)
    (claims_data : list raw_claim) (source_id : option UUID)
    (source_field_mapping : list (string * string)) : Res (list raw_claim) :=
  normalised ← SourceNormalizerRegistry.normalize registry source_kind claims_data source_id
                 source_field_mapping;
  assert_no_duplicate_fields normalised
    "Ingestion payload contains duplicate canonical field_name entries after source field mapping / normalization";;
  mret normalised.

(** [{item["field_name"]: item.get("field_value") for item in normalised}] *)
Definition fields_of (normalised : list raw_claim) : fields :=
  foldl (λ d item, dict_set (raw_field_name item) (raw_field_value item) d) [] normalised.

Definition extract_normalised_fields (registry : SourceNormalizerRegistry.t)
    (source_kind : string) (claims_data : list raw_claim) (source_id : option UUID)
    (source_field_mapping : list (string * string)) : Res fields :=
  normalised ← normalise_claims registry source_kind claims_data source_id source_field_mapping;
  mret (fields_of normalised).

Record ClaimWriteResult := mkWritten {
  cw_new_claims : list Claim;
  cw_superseded_claims : list Claim;
  cw_affected_fields : list string;
  cw_resolved_conflicts_to_reconcile : list (ClaimConflict * Claim);
}.

(** The active claims the new ones replace, by field: those of the source record
    when there is one, else those of the source on the event.  The set of field
    names is visited in the order of the items. *)
Definition prior_claims (event_id source_id : UUID) (source_record_id : option string)
    (normalised_claims : list raw_claim) : M (list (string * list Claim)) :=
  match source_record_id with
  | Some r =>
      prior ← ClaimRepo.find_active_by_source_record source_id r;
      mret (group_by c_field_name prior)
  | None =>
      map_m (λ field_name,
        prior ← ClaimRepo.find_active_by_event_field event_id field_name;
        mret (field_name, filter (λ old, c_source_id old = source_id) prior))
        (dict_fromkeys (raw_field_name <$> normalised_claims))
  end.

Definition superseded_reason (source_record_id : option string) : string :=
  "Superseded by same-source re-ingestion ("
  +:+ IngestionIdempotencyService.str_or source_record_id "no source_record_id" +:+ ")".

(** One item: the new claim with its history, then the claims it supersedes. *)
Definition write_item (event_id source_id snapshot_id ingestion_run_id : UUID)
    (source_record_id : option string) (prior_claims_by_field : list (string * list Claim))
    (item : raw_claim) : M (Claim * list Claim) :=
  let field_name := raw_field_name item in
  match dict_get "field_value" item with
  | None => raise (DomainValidationError ("claims_data item for '" +:+ field_name
                     +:+ "' is missing required key 'field_value'"))
  | Some value =>
      id ← uuid4;
      created_at ← utc_now;
      let claim := mkClaim id event_id source_id (Some snapshot_id) field_name value RAW
                     created_at None None in
      ClaimRepo.add claim;;
      log_claim_history id event_id None (some_nonnull value) None RAW "created"
        "Initial ingestion" INGESTION (Some ingestion_run_id);;
      superseded ← ClaimRepo.bulk_supersede
                     (c_id <$> default [] (dict_get field_name prior_claims_by_field)) id;
      for_each superseded (λ old,
        log_claim_history (c_id old) (c_event_id old) (some_nonnull (c_field_value old))
          (some_nonnull (c_field_value old)) (Some (c_claim_type old)) SUPERSEDED "superseded"
          (superseded_reason source_record_id) INGESTION (Some ingestion_run_id));;
      mret (claim, superseded)
  end.

(** The resolved conflicts a superseded claim had won, with the claim that replaces it. *)
Definition to_reconcile (resolved_by_winner : list (UUID * ClaimConflict))
    (new_claims superseded : list Claim) : list (ClaimConflict * Claim) :=
  omap (λ old,
    resolved_won ← dict_get (c_id old) resolved_by_winner;
    replacement ← head (filter (λ nc, c_field_name nc = c_field_name old) new_claims);
    Some (resolved_won, replacement)) superseded.

Definition write_normalised (event_id source_id snapshot_id : UUID)
    (normalised_claims : list raw_claim) (ingestion_run_id : UUID)
    (source_record_id : option string) : M ClaimWriteResult :=
  lift_res (assert_no_duplicate_fields normalised_claims
    "Ingestion payload contains duplicate canonical field_name entries");;
  prior_claims_by_field ← prior_claims event_id source_id source_record_id normalised_claims;
  written ← map_m (write_item event_id source_id snapshot_id ingestion_run_id source_record_id
                     prior_claims_by_field) normalised_claims;
  let new_claims := written.*1 in
  let superseded := concat written.*2 in
  let affected := omap (λ p : Claim * list Claim,
    match p.2 with [] => None | _ => Some (c_field_name p.1) end) written in
  pairs ← (if bool_decide (superseded = []) then mret [] else
           resolved_by_winner ← ConflictRepo.find_resolved_by_winning_claims (c_id <$> superseded);
           mret (to_reconcile resolved_by_winner new_claims superseded));
  mret (mkWritten new_claims superseded (dict_fromkeys affected) pairs).

Definition write (registry : SourceNormalizerRegistry.t) (event_id source_id snapshot_id : UUID)
    (source_kind : string) (claims_data : list raw_claim) (ingestion_run_id : UUID)
    (source_record_id : option string) (source_field_mapping : list (string * string))
    : M ClaimWriteResult :=
  normalised ← lift_res (normalise_claims registry source_kind claims_data (Some source_id)
                           source_field_mapping);
  write_normalised event_id source_id snapshot_id normalised ingestion_run_id source_record_id.
End ClaimWriter.

(** ** ProjectionUpdater *)
Definition queue_projection (event_id source_id ingestion_run_id : UUID) : M unit :=
  id ← uuid4;
  created_at ← utc_now;
  OutboxRepo.add (mkOutbox id "CLAIMS_UPDATED" event_id
    [("event_id", PStr (uuid_str event_id)); ("source_id", PStr (uuid_str source_id));
     ("ingestion_run_id", PStr (uuid_str ingestion_run_id))]
    OB_PENDING 0 None None None None created_at None).

(** ** IngestSourceData *)
Module IngestSourceData.
Import EventResolutionService.

Definition kind_value (k : SourceKind) : string :=
  match k with EXTERNAL => "EXTERNAL" | INTERNAL => "INTERNAL" end.

Section ingest.
Context `{Hashlib} `{ModelValidate} (settings : IngestionSettings)
  (registry : SourceNormalizerRegistry.t).

(** derive_ingestion_run_id: the first 16 bytes of the digest. *)
Definition derive_ingestion_run_id (source_id : UUID) (idempotency_key : string) : option UUID :=
  read_hex (take 32 (chars (sha256_hexdigest
    (uuid_str source_id +:+ ":" +:+ idempotency_key)))) 0.

(** The exceptions normalise_claims can raise, seen from _load_and_normalise. *)
Definition invalid_mapping (source_id : UUID) (e : exn) : exn :=
  match e with
  | ValueError msg => DomainValidationError ("Invalid Source.field_mapping_json for source "
                        +:+ uuid_str source_id +:+ ": " +:+ msg)
  | _ => e
  end.

Definition mapped_error {A} (source_id : UUID) (r : Res A) : Res A :=
  match r with Ok a => Ok a | Raise e => Raise (invalid_mapping source_id e) end.

(** ingest into the canonical event instead *)
Definition must_exist (id : UUID) (o : option AccidentEvent) : M AccidentEvent :=
  match o with
  | None => raise (EventNotFoundError id)
  | Some e => if is_merged e then raise (EventAlreadyMergedError (ev_id e) (ev_merged_into e))
              else mret e
  end.

Definition explicit_event (event_id : option UUID) : M (option AccidentEvent) :=
  match event_id with
  | None => mret None
  | Some id => o ← EventRepo.get id; e ← must_exist id o; mret (Some e)
  end.

Record loaded := mkLoaded {
  ld_explicit_event : option AccidentEvent;
  ld_normalised_claims : list raw_claim;
  ld_normalised_fields : fields;
  ld_fingerprint : list (string * pyval);
}.

Definition load_and_normalise (sb : submission) (raw_payload_hash : string) : M loaded :=
  found ← SourceRepo.get (sb_source_id sb);
  match found with
  | None => raise (SourceNotFoundError (sb_source_id sb))
  | Some source =>
      mapping_hash ← lift_res (source_mapping_hash (src_field_mapping source));
      fingerprint ← lift_res (submission_fingerprint sb (Some raw_payload_hash)
        (Some mapping_hash)
        (Some match src_kind source with EXTERNAL => "external-v1" | INTERNAL => "identity-v1" end));
      explicit ← explicit_event (sb_event_id sb);
      normalised ← lift_res (mapped_error (sb_source_id sb) (ClaimWriter.normalise_claims registry
        (kind_value (src_kind source)) (model_dump <$> sb_claims_data sb)
        (Some (sb_source_id sb)) (src_field_mapping source)));
      mret (mkLoaded explicit normalised (ClaimWriter.fields_of normalised) fingerprint)
  end.

Definition start_run (sb : submission) : M unit :=
  RunRepo.ensure_started (sb_ingestion_run_id sb) (sb_source_id sb);;
  existing_run ← RunRepo.get (sb_ingestion_run_id sb);
  match existing_run with
  | Some r => if (ir_source_id r =? sb_source_id sb)%N then mret ()
              else raise (DomainValidationError ("Ingestion run " +:+ uuid_str (sb_ingestion_run_id sb)
                +:+ " already exists for source " +:+ uuid_str (ir_source_id r)
                +:+ ", cannot reuse for source " +:+ uuid_str (sb_source_id sb)))
  | None => mret ()
  end.

Definition continuity (sb : submission) (explicit : option AccidentEvent)
    : M (option AccidentEvent) :=
  match sb_source_record_id sb with
  | Some r => SourceRecordContinuityService.resolve (sb_source_id sb) r explicit
  | None => mret None
  end.

(** The inserted snapshot, or the answer of the ingestion that inserted it first. *)
Definition insert_snapshot (sb : submission) (now : datetime) (raw_payload_hash submission_hash : string)
    (fingerprint : list (string * pyval)) : M (RawSnapshot + IngestionResult) :=
  id ← uuid4;
  created_at ← utc_now;
  let snapshot := mkSnapshot id (sb_source_id sb) (sb_ingestion_run_id sb) submission_hash
    (sb_raw_payload sb) (default now (sb_captured_at sb)) created_at (sb_source_record_id sb)
    (Some raw_payload_hash) (Some submission_hash) (Some fingerprint) None in
  inserted ← SnapshotRepo.try_add_unique snapshot;
  if (inserted : bool) then mret (inl snapshot) else
  existing ← SnapshotRepo.find_by_source_run (sb_source_id sb) (sb_ingestion_run_id sb);
  match existing with
  | None => raise IngestionInProgressError
  | Some s =>
      if negb (IngestionIdempotencyService.snapshot_hash_matches s submission_hash raw_payload_hash)
      then raise payload_mismatch else
      replay ← IngestionIdempotencyService.result_from_snapshot s;
      match replay with
      | Some r => mret (inr r)
      | None => raise IngestionInProgressError
      end
  end.

(** The event, with whether its identity row is already up to date. *)
Definition resolve_event (sb : submission) (explicit continued : option AccidentEvent)
    (normalised_fields : fields) : M (resolution * bool) :=
  match explicit, continued with
  | Some e, _ => mret (mkResolution e [] false "explicit_event_id", false)
  | None, Some e => mret (mkResolution e [] false "source_record_id", false)
  | None, None =>
      r ← resolve_with_reviews normalised_fields (sb_source_record_id sb)
            (max_duplicate_reviews_per_ingestion settings);
      mret (r, true)
  end.

Definition lock_and_write_claims (sb : submission) (event : AccidentEvent) (maintained : bool)
    (ld : loaded) (snapshot_id : UUID) : M (AccidentEvent * ClaimWriter.ClaimWriteResult) :=
  o ← EventRepo.lock_for_update (ev_id event);
  locked ← must_exist (ev_id event) o;
  when (negb maintained)
    (update_identity (ev_id locked) (ld_normalised_fields ld) (sb_source_record_id sb));;
  written ← ClaimWriter.write_normalised (ev_id locked) (sb_source_id sb) snapshot_id
              (ld_normalised_claims ld) (sb_ingestion_run_id sb) (sb_source_record_id sb);
  mret (locked, written).

(** Phase 7: the conflicts of the event follow its new claims. *)
Definition reconcile (event_id run_id : UUID) (written : ClaimWriter.ClaimWriteResult) : M unit :=
  ConflictReconciler.reconcile_superseded_winners
    (ClaimWriter.cw_resolved_conflicts_to_reconcile written) run_id;;
  ConflictReconciler.auto_resolve_stale_open_conflicts event_id
    (ClaimWriter.cw_affected_fields written) run_id;;
  ConflictReconciler.detect_and_apply_new_conflicts event_id run_id INGESTION.

(** From the commit of the rows back: the result is stored with its snapshot. *)
Definition finish (sb : submission) (snapshot_id : UUID) (result : IngestionResult) : M unit :=
  completed_at ← utc_now;
  SnapshotRepo.update_ingestion_result snapshot_id (result_json result completed_at);;
  finished_at ← utc_now;
  RunRepo.update_status (sb_ingestion_run_id sb) "finished" finished_at;;
  commit.

(** Phases 5 to 8, once the snapshot is in. *)
Definition ingest_snapshot (sb : submission) (ld : loaded) (continued : option AccidentEvent)
    (snapshot : RawSnapshot) : M IngestionResult :=
  resolved ← resolve_event sb (ld_explicit_event ld) continued (ld_normalised_fields ld);
  let '(res, maintained) := resolved in
  locked ← lock_and_write_claims sb (re_event res) maintained ld (rs_id snapshot);
  let '(event, written) := locked in
  reconcile (ev_id event) (sb_ingestion_run_id sb) written;;
  queue_projection (ev_id event) (sb_source_id sb) (sb_ingestion_run_id sb);;
  let result := make_result (ev_id event) (re_created res) true false
                  (dr_id <$> head (re_reviews res)) (dr_id <$> re_reviews res)
                  (re_attached_by res) in
  finish sb (rs_id snapshot) result;;
  mret result.

(** Phases 2 to 8. *)
Definition ingest_new (sb : submission) (raw_payload_hash submission_hash : string)
    : M IngestionResult :=
  ld ← load_and_normalise sb raw_payload_hash;
  start_run sb;;
  continued ← continuity sb (ld_explicit_event ld);
  now ← utc_now;
  inserted ← insert_snapshot sb now raw_payload_hash submission_hash (ld_fingerprint ld);
  match inserted with
  | inr replay => mret replay
  | inl snapshot => ingest_snapshot sb ld continued snapshot
  end.

Definition clean_record_id (sb : submission) : submission :=
  mkSubmission (sb_source_id sb) (sb_raw_payload sb) (sb_ingestion_run_id sb)
    (sb_claims_data sb) (sb_captured_at sb) (sb_event_id sb)
    (normalise_source_record_id (sb_source_record_id sb)).

(** execute_with_result *)
Definition execute_with_result (request : submission) : M IngestionResult :=
  let sb := clean_record_id request in
  hashes ← lift_res (validate_and_hash settings sb);
  let '(raw_payload_hash, submission_hash) := hashes in
  early ← IngestionIdempotencyService.check (sb_source_id sb) (sb_ingestion_run_id sb)
            submission_hash raw_payload_hash;
  match early with
  | Some replay => mret replay
  | None => ingest_new sb raw_payload_hash submission_hash
  end.

Definition execute (request : submission) : M UUID :=
  r ← execute_with_result request; mret (rt_event_id r).
End ingest.
End IngestSourceData.

(** ** Ingestion publishes nothing before its end *)
Section transactions.
Context `{Hashlib} `{ModelValidate} (settings : IngestionSettings)
  (registry : SourceNormalizerRegistry.t) (rb : bool).

Lemma canonical_event_NoCommit id : Unpublished rb (canonical_event id).
Proof.
  assert (Hf : ∀ fuel seen i, Unpublished rb (follow_merges fuel seen i)).
  { induction fuel as [|n IH]; intros seen i; simpl; [apply NoCommit_raise|]. nocommit_walk. }
  split; [intros w; apply Hf|]. intros Hrb w1 w2 Hw. unfold canonical_event, pointer_fuel.
  pose proof Hw as (-> & -> & _). by apply (Hf _ _ _).
Qed.

Lemma continuity_NoCommit source_id srid explicit :
  Unpublished rb (SourceRecordContinuityService.resolve source_id srid explicit).
Proof.
  pose proof canonical_event_NoCommit.
  unfold SourceRecordContinuityService.resolve, SourceRecordContinuityService.canonical_event_for,
    SnapshotRepo.lock_for_source_record_correction,
    SnapshotRepo.find_latest_event_id_by_source_record_id. nocommit_walk.
Qed.

Lemma update_identity_NoCommit id fs srid : Unpublished rb (update_identity id fs srid).
Proof. unfold update_identity, IdentityRepo.upsert. nocommit_walk. Qed.

Lemma resolve_NoCommit fs srid n :
  Unpublished rb (EventResolutionService.resolve_with_reviews fs srid n).
Proof.
  pose proof canonical_event_NoCommit. pose proof update_identity_NoCommit.
  assert (∀ e k ids acc, Unpublished rb (EventResolutionService.canonical_candidates e k ids acc)).
  { intros e k ids. unfold EventResolutionService.canonical_candidates.
    induction ids as [|x ids IH]; intros acc; [apply NoCommit_ret|].
    unfold EventResolutionService.canonical_event_for in *. nocommit_walk. }
  unfold EventResolutionService.resolve_with_reviews, EventResolutionService.gather_candidates,
    EventResolutionService.found_event, EventResolutionService.attach,
    EventResolutionService.create_event, EventResolutionService.queue_review,
    EventResolutionService.canonical_event_for, IdentityRepo.lock_for_identity_resolution,
    IdentityRepo.find_candidates, IdentityRepo.find_by_registration, IdentityRepo.upsert,
    IdentityRepo.enrich_identity_index_from_alias, EventRepo.add, ReviewRepo.add.
  cbv zeta. nocommit_walk.
Qed.

Lemma ingest_replay_NoCommit s : Unpublished rb (IngestionIdempotencyService.result_from_snapshot s).
Proof.
  pose proof canonical_event_NoCommit.
  unfold IngestionIdempotencyService.result_from_snapshot,
    IngestionIdempotencyService.result_from_json, IngestionIdempotencyService.canonical_event_id,
    ClaimRepo.find_event_id_by_raw_snapshot_id. nocommit_walk.
Qed.

Lemma write_NoCommit e s k items run srid :
  Unpublished rb (ClaimWriter.write_normalised e s k items run srid).
Proof.
  unfold ClaimWriter.write_normalised, ClaimWriter.prior_claims, ClaimWriter.write_item,
    ClaimRepo.find_active_by_source_record, ConflictRepo.find_resolved_by_winning_claims.
  cbv zeta. nocommit_walk.
Qed.

Lemma reconcile_NoCommit e run written : Unpublished rb (IngestSourceData.reconcile e run written).
Proof.
  pose proof (reopen_evidence_NoCommit rb). pose proof (detect_and_apply_NoCommit rb).
  assert (∀ n c w r t, Unpublished rb (ConflictReconciler.new_winner_loop n c w r t)).
  { induction n as [|n IH]; intros; simpl; [apply NoCommit_ret|].
    unfold ConflictReconciler.add_missing_links. nocommit_walk. }
  assert (∀ n e f c r, Unpublished rb (ConflictReconciler.auto_resolve_loop n e f c r)).
  { induction n as [|n IH]; intros; simpl; [apply NoCommit_raise|].
    unfold ConflictReconciler.add_missing_links. nocommit_walk. }
  unfold IngestSourceData.reconcile, ConflictReconciler.reconcile_superseded_winners,
    ConflictReconciler.auto_resolve_stale_open_conflicts,
    ConflictReconciler.reconcile_resolved_winner,
    ConflictReconciler.reopen_resolved_for_evidence,
    ConflictReconciler.auto_resolve_stale_open_conflict. cbv zeta. nocommit_walk.
Qed.

End transactions.

Section commit_last.
Context `{Hashlib} `{ModelValidate} (settings : IngestionSettings)
  (registry : SourceNormalizerRegistry.t).

Lemma finish_last {A} sb k r (a : A) :
  CommitLast (IngestSourceData.finish sb k r;; mret a).
Proof.
  apply (CommitLast_map _ (λ _, a)).
  unfold IngestSourceData.finish, SnapshotRepo.update_ingestion_result, RunRepo.update_status.
  nocommit_walk.
Qed.

Lemma ingest_snapshot_last sb ld continued s :
  CommitLast (IngestSourceData.ingest_snapshot settings sb ld continued s).
Proof.
  pose proof (resolve_NoCommit true). pose proof (write_NoCommit true). pose proof (update_identity_NoCommit true).
  pose proof (reconcile_NoCommit true). pose proof (@finish_last IngestionResult).
  unfold IngestSourceData.ingest_snapshot, IngestSourceData.resolve_event,
    IngestSourceData.lock_and_write_claims, IngestSourceData.must_exist, queue_projection.
  cbv zeta. nocommit_walk.
Qed.

Lemma ingest_new_last sb h1 h2 : CommitLast (IngestSourceData.ingest_new settings registry sb h1 h2).
Proof.
  pose proof ingest_snapshot_last. pose proof (ingest_replay_NoCommit true). pose proof (continuity_NoCommit true).
  unfold IngestSourceData.ingest_new, IngestSourceData.load_and_normalise,
    IngestSourceData.explicit_event, IngestSourceData.must_exist, IngestSourceData.start_run,
    IngestSourceData.continuity, IngestSourceData.insert_snapshot, SnapshotRepo.find_by_source_run,
    SnapshotRepo.try_add_unique, RunRepo.ensure_started, RunRepo.get. cbv zeta. nocommit_walk.
Qed.
End commit_last.
