(* ===== verification/ClaimWrites.v ===== *)
(** What ClaimWriter.write_normalised leaves behind, in a run without interference:
    one new claim per submitted field, and the claims it supersedes. *)
From S2P Require Import Prelude Text PyFloat PyVal PyDate Entities Store Json Logic Normalize.
From S2P Require Import Matching Conflicts Projection Reproject Resolution Reconcile.
From S2P Require Import EventResolution Ingestion.
Open Scope string_scope.
Open Scope list_scope.
Open Scope Z_scope.
Import ClaimWriter.

Definition put_claims m (db : DB) : DB := upd_claims (λ _, m) db.
Definition put_history h (db : DB) : DB := upd_claim_history (λ _, h) db.

(** The claims table and the claim history are all that [db'] changes of [db]; the
    history only grows. *)
Definition claims_only (db db' : DB) : Prop :=
  db_claim_history db `prefix_of` db_claim_history db'
  ∧ db' = put_claims (db_claims db') (put_history (db_claim_history db') db).

Lemma claims_only_refl db : claims_only db db.
Proof. split; [done|by destruct db]. Qed.

Lemma claims_only_trans db1 db2 db3 :
  claims_only db1 db2 → claims_only db2 db3 → claims_only db1 db3.
Proof.
  intros [P1 E1] [P2 E2]. split; [by etrans|]. rewrite E2 at 1. rewrite E1 at 1. reflexivity.
Qed.

Lemma claims_only_intro db m rows :
  claims_only db (upd_claim_history (λ h, h ++ rows) (put_claims m db)).
Proof. split; [by apply prefix_app_r|reflexivity]. Qed.

Section writing.
Context (event_id source_id snapshot_id run_id : UUID) (srid : option string).
Context (prior : list (string * list Claim)).

(** The claim stored under [k] is one of the prior claims of the field. *)
Definition hit (f : string) (k : UUID) : Prop := k ∈ c_id <$> default [] (dict_get f prior).

#[local] Instance hit_dec f k : Decision (hit f k).
Proof. unfold hit. apply _. Defined.

(** The claim an item is written as. *)
Definition written_as (item : raw_claim) (c : Claim) : Prop :=
  c_field_name c = raw_field_name item ∧ dict_get "field_value" item = Some (c_field_value c)
  ∧ c_event_id c = event_id ∧ c_source_id c = source_id
  ∧ c_raw_snapshot_id c = Some snapshot_id ∧ c_claim_type c = RAW ∧ c_superseded_by c = None.

Lemma log_history_quiet cid eid fv tv ft tt_ a r mt mi w :
  quiet w → ∃ row, log_claim_history cid eid fv tv ft tt_ a r mt mi w
    = (Ok tt, mkWorld (upd_claim_history (λ h, h ++ [row]) (w_db w)) (w_committed w) []
                (w_now w + 1) (w_uuid w + 1)%N).
Proof.
  destruct w as [db com env now u]. unfold quiet. simpl. intros ->. eexists.
  unfold log_claim_history, uuid4, utc_now, ClaimHistoryRepo.add, mbind, M_bind. reflexivity.
Qed.

Lemma supersede_rows_nil by_ m : ClaimRepo.supersede_rows [] by_ m = m.
Proof. apply update_where_none. intros k x _. rewrite bool_decide_false; [done|]. apply not_elem_of_nil. Qed.

Lemma bulk_supersede_quiet ids by_ w : quiet w →
  ClaimRepo.bulk_supersede ids by_ w
  = (Ok (filter (λ c, is_active c = true) (omap (λ id, db_claims (w_db w) !! id) (dict_fromkeys ids))),
     set_db (upd_claims (ClaimRepo.supersede_rows (dict_fromkeys ids) by_) (w_db w)) w).
Proof.
  intros Hq. unfold ClaimRepo.bulk_supersede. case_bool_decide as Hn.
  - subst ids. unfold dict_fromkeys. simpl. unfold mret, M_ret. f_equal.
    destruct w as [[] ????]. unfold upd_claims, set_db. simpl. by rewrite supersede_rows_nil.
  - by rewrite stmt_quiet.
Qed.

(** One item. *)
Lemma write_item_ok item w c sup w' :
  quiet w →
  write_item event_id source_id snapshot_id run_id srid prior item w = (Ok (c, sup), w') →
  quiet w' ∧ written_as item c ∧ db_claims (w_db w) !! c_id c = None
  ∧ db_claims (w_db w') = ClaimRepo.supersede_rows
      (dict_fromkeys (c_id <$> default [] (dict_get (raw_field_name item) prior))) (c_id c)
      (<[c_id c := c]> (db_claims (w_db w)))
  ∧ claims_only (w_db w) (w_db w').
Proof.
  intros Hq. unfold write_item. destruct (dict_get "field_value" item) as [v|] eqn:Ev; [|done].
  unfold uuid4, utc_now. intros (id & w1 & [= <- <-] & H)%bind_Ok_inv.
  apply bind_Ok_inv in H as (t & w2 & [= <- <-] & H).
  apply bind_Ok_inv in H as (u & w3 & E & H). unfold ClaimRepo.add in E.
  rewrite stmt_quiet in E by done. cbn [c_id w_db w_uuid] in E.
  destruct (db_claims (w_db w) !! w_uuid w) eqn:Hn; [done|]. injection E as _ <-.
  apply bind_Ok_inv in H as (u1 & w4 & E & H).
  match type of E with log_claim_history ?a ?b ?c0 ?d ?e ?f ?g ?h ?i ?j ?ww = _ =>
    destruct (log_history_quiet a b c0 d e f g h i j ww Hq) as [row Hrow] end.
  rewrite Hrow in E. injection E as _ <-.
  apply bind_Ok_inv in H as (sup' & w5 & E & H). rewrite bulk_supersede_quiet in E by done.
  injection E as E5 <-.
  apply bind_Ok_inv in H as (u2 & w6 & E & H). injection H as <- <- <-.
  match type of E with for_each ?l ?f ?ww = _ =>
    edestruct (for_each_history (λ old i t, mkClaimHistory i (c_id old) (c_event_id old)
      (some_nonnull (c_field_value old)) (some_nonnull (c_field_value old)) (Some (c_claim_type old))
      SUPERSEDED "superseded" (superseded_reason srid) INGESTION (Some run_id) t) f l ww)
      as (rows & w7 & E7 & Hq7 & _ & Hd7 & _); [done|done|] end.
  rewrite E7 in E. injection E as _ <-.
  split_and!; try done.
  - by rewrite Hd7.
  - rewrite Hd7. split.
    + simpl. rewrite <- app_assoc. by apply prefix_app_r.
    + reflexivity.
Qed.

Lemma lookup_after_item item c m k :
  m !! c_id c = None → ¬ hit (raw_field_name item) (c_id c) →
  ClaimRepo.supersede_rows
    (dict_fromkeys (c_id <$> default [] (dict_get (raw_field_name item) prior))) (c_id c)
    (<[c_id c := c]> m) !! k
  = if decide (k = c_id c) then Some c
    else (λ x, if bool_decide (hit (raw_field_name item) k) && is_active x
               then supersede (c_id c) x else x) <$> m !! k.
Proof.
  intros Hn Hh. unfold ClaimRepo.supersede_rows. rewrite lookup_update_where.
  assert (Hb : ∀ k, bool_decide (k ∈ dict_fromkeys (c_id <$> default [] (dict_get (raw_field_name item) prior)))
    = bool_decide (hit (raw_field_name item) k)).
  { intros k'. apply bool_decide_ext. by rewrite elem_of_fromkeys. }
  rewrite Hb. destruct (decide (k = c_id c)) as [->|Hne].
  - rewrite lookup_insert_eq. simpl. by rewrite bool_decide_false.
  - by rewrite lookup_insert_ne.
Qed.

(** All the items, when every prior claim is on file and belongs to one field only. *)
Record prior_ok (m : gmap UUID Claim) : Prop := mkPriorOk {
  po_stored : ∀ f k, hit f k → is_Some (m !! k);
  po_once : ∀ f f' k, hit f k → hit f' k → f = f';
}.

Lemma write_items_ok items w l w' :
  quiet w → prior_ok (db_claims (w_db w)) → NoDup (raw_field_name <$> items) →
  map_m (write_item event_id source_id snapshot_id run_id srid prior) items w = (Ok l, w') →
  quiet w' ∧ claims_only (w_db w) (w_db w') ∧ Forall2 written_as items l.*1
  ∧ (∀ c, c ∈ l.*1 → db_claims (w_db w) !! c_id c = None
                     ∧ db_claims (w_db w') !! c_id c = Some c)
  ∧ (∀ k c, db_claims (w_db w') !! k = Some c → db_claims (w_db w) !! k = None →
       c ∈ l.*1 ∧ c_id c = k)
  ∧ (∀ k c, db_claims (w_db w) !! k = Some c →
       (∀ f, f ∈ raw_field_name <$> items → hit f k → is_active c = false) →
       db_claims (w_db w') !! k = Some c)
  ∧ (∀ k c f, db_claims (w_db w) !! k = Some c → f ∈ raw_field_name <$> items → hit f k →
       is_active c = true →
       ∃ nc, nc ∈ l.*1 ∧ c_field_name nc = f
             ∧ db_claims (w_db w') !! k = Some (supersede (c_id nc) c)).
Proof.
  revert w l. induction items as [|item items IH]; intros w l Hq Hp Hnd; cbn [map_m].
  { intros [= <- <-]. split_and!; [done|apply claims_only_refl|constructor|..].
    - by intros c []%elem_of_nil.
    - intros k c H1 H2. congruence.
    - done.
    - by intros k c f _ []%elem_of_nil. }
  intros ([c0 sup] & w1 & E & H)%bind_Ok_inv. apply bind_Ok_inv in H as (l' & w2 & E2 & H).
  injection H as <- <-. apply NoDup_cons in Hnd as [Hnew Hnd].
  apply write_item_ok in E as (Hq1 & Hwas & Hfresh & Hm & Honly); [|done].
  set (m := db_claims (w_db w)) in *. set (f0 := raw_field_name item) in *.
  assert (Hnohit : ∀ f, ¬ hit f (c_id c0)).
  { intros f Hf. destruct (po_stored _ Hp f _ Hf) as [x Hx]. congruence. }
  assert (Hlk : ∀ k, db_claims (w_db w1) !! k = if decide (k = c_id c0) then Some c0
    else (λ x, if bool_decide (hit f0 k) && is_active x then supersede (c_id c0) x else x) <$> m !! k).
  { intros k. rewrite Hm. by apply lookup_after_item. }
  assert (Hp1 : prior_ok (db_claims (w_db w1))).
  { split; [|apply Hp]. intros f k Hf. rewrite Hlk. case_decide; [done|].
    destruct (po_stored _ Hp f k Hf) as [x Hx]. fold m in Hx. rewrite Hx. eauto. }
  destruct (IH w1 l' Hq1 Hp1 Hnd E2) as (Hq2 & Honly2 & HF & Hin & Hback & Hkeep & Hsup).
  simpl. split_and!; [done|by eapply claims_only_trans|by constructor|..].
  - intros c [->|Hc]%elem_of_cons.
    + split; [done|]. apply Hkeep; [rewrite Hlk; by rewrite decide_True|].
      intros f _ Hf. by destruct (Hnohit f).
    + destruct (Hin c Hc) as [Hn Hs]. split; [|done]. rewrite Hlk in Hn.
      case_decide; [done|]. fold m in Hn. by destruct (m !! c_id c).
  - intros k c Hc Hk. destruct (decide (k = c_id c0)) as [->|Hne].
    + assert (db_claims (w_db w2) !! c_id c0 = Some c0) as Hc0.
      { apply Hkeep; [rewrite Hlk; by rewrite decide_True|]. intros f _ Hf. by destruct (Hnohit f). }
      assert (c = c0) as -> by congruence. split; [by left|done].
    + destruct (Hback k c Hc) as [H1 H2]; [|split; [by right|done]].
      rewrite Hlk, decide_False by done. fold m. fold m in Hk. by rewrite Hk.
  - intros k c Hc Hno. apply Hkeep.
    + rewrite Hlk. rewrite decide_False by (intros ->; congruence). fold m in Hc. rewrite Hc. simpl.
      destruct (decide (hit f0 k)) as [Hh|Hh]; [|by rewrite bool_decide_false].
      by rewrite (Hno f0), andb_false_r by (by left || done).
    + intros f Hf. apply Hno. by right.
  - intros k c f Hc Hf Hh Ha.
    assert (Hlk1 : db_claims (w_db w1) !! k
      = Some (if bool_decide (hit f0 k) && is_active c then supersede (c_id c0) c else c)).
    { rewrite Hlk, decide_False by (intros ->; congruence). fold m in Hc. by rewrite Hc. }
    rewrite Ha, andb_true_r in Hlk1. apply elem_of_cons in Hf as [->|Hf].
    + exists c0. rewrite bool_decide_true in Hlk1 by done. split_and!; [by left|by apply Hwas|].
      apply (Hkeep _ _ Hlk1). intros f _ _. reflexivity.
    + rewrite bool_decide_false in Hlk1.
      * destruct (Hsup k c f Hlk1 Hf Hh Ha) as (nc & H1 & H2 & H3). exists nc.
        split_and!; [by right|done|done].
      * intros Hh0. rewrite (po_once _ Hp _ _ _ Hh0 Hh) in Hnew. done.
Qed.
End writing.

(** ** The claims an ingestion replaces *)
Lemma duplicates_nil seen l : duplicates seen l = [] ↔ NoDup l ∧ ∀ x, x ∈ l → x ∉ seen.
Proof.
  revert seen. induction l as [|x l IH]; intros seen; simpl.
  { split; [|done]. intros _. split; [constructor|]. by intros x []%elem_of_nil. }
  case_bool_decide as Hs.
  - split; [done|]. intros [_ H]. destruct (H x); [by left|done].
  - rewrite IH, NoDup_cons. split.
    + intros [Hn Hx]. split_and!; [|done|].
      * intros Hin. apply (Hx x Hin). by left.
      * intros y [->|Hy]%elem_of_cons; [done|]. intros Hys. apply (Hx y Hy). by right.
    + intros [[Hn Hnd] Hx]. split; [done|]. intros y Hy [->|Hys]%elem_of_cons; [done|].
      apply (Hx y); [by right|done].
Qed.

(** [c] is the claim of the same source that a new claim of the field replaces: of
    the same source record when the submission has one, else on the same event. *)
Definition supersedable (event_id source_id : UUID) (srid : option string) (db : DB) (f : string)
    (c : Claim) : Prop :=
  is_active c = true ∧ c_source_id c = source_id ∧ c_field_name c = f
  ∧ match srid with
    | Some r => ClaimRepo.of_source_record source_id r db c = true
    | None => c_event_id c = event_id
    end.

Lemma dict_get_map {V} (g : string → V) l f :
  dict_get f ((λ x, (x, g x)) <$> l) = if decide (f ∈ l) then Some (g f) else None.
Proof.
  induction l as [|x l IH]; [done|]. rewrite fmap_cons. cbn [dict_get].
  destruct (decide (f = x)) as [->|Hne].
  - by rewrite decide_True by (by left).
  - rewrite IH. repeat case_decide; try done; set_solver.
Qed.

Lemma dict_get_default_group {A} (f : A → string) (l : list A) k :
  default [] (dict_get k (group_by f l)) = filter (λ x, f x = k) l.
Proof. apply group_by_get. Qed.

Lemma prior_claims_quiet e s srid items w :
  quiet w → claims_keyed (w_db w) →
  ∃ pm, prior_claims e s srid items w = (Ok pm, w)
  ∧ (∀ f k, f ∈ raw_field_name <$> items →
       hit pm f k ↔ ∃ c, db_claims (w_db w) !! k = Some c ∧ supersedable e s srid (w_db w) f c)
  ∧ prior_ok pm (db_claims (w_db w)).
Proof.
  intros Hq Hk.
  assert (Hrow : ∀ (l : list Claim) (P : Claim → Prop) k,
    (∀ c, c ∈ l ↔ c ∈ rows (db_claims (w_db w)) ∧ P c) →
    k ∈ c_id <$> l ↔ ∃ c, db_claims (w_db w) !! k = Some c ∧ P c).
  { intros l P k Hl. rewrite list_elem_of_fmap. split.
    - intros (c & -> & Hc). apply Hl in Hc as [Hc HP]. apply elem_of_rows in Hc as [k' Hc].
      exists c. by rewrite (Hk _ _ Hc).
    - intros (c & Hc & HP). exists c. split; [by rewrite (Hk _ _ Hc)|]. apply Hl. split; [|done].
      apply elem_of_rows. eauto. }
  destruct srid as [r|].
  - eexists. split; [unfold prior_claims; eapply runs_bind;
      [unfold ClaimRepo.find_active_by_source_record; by rewrite query_quiet|reflexivity]|].
    assert (Hhit : ∀ f k, hit (group_by c_field_name (ClaimRepo.active_by_source_record s r (w_db w))) f k
      ↔ ∃ c, db_claims (w_db w) !! k = Some c ∧ supersedable e s (Some r) (w_db w) f c).
    { intros f k. unfold hit. rewrite group_by_get. apply Hrow. intros c.
      unfold ClaimRepo.active_by_source_record, supersedable. rewrite !list_elem_of_filter. tauto. }
    split; [intros; apply Hhit|]. split.
    + intros f k (c & Hc & _)%Hhit. eauto.
    + intros f f' k (c & Hc & _ & _ & <- & _)%Hhit (c' & Hc' & _ & _ & <- & _)%Hhit. congruence.
  - set (g := λ f, filter (λ old, c_source_id old = s) (ClaimRepo.active_by_event_field e f (w_db w))).
    exists ((λ f, (f, g f)) <$> dict_fromkeys (raw_field_name <$> items)).
    assert (Hhit : ∀ f k, hit ((λ f, (f, g f)) <$> dict_fromkeys (raw_field_name <$> items)) f k
      ↔ f ∈ raw_field_name <$> items
        ∧ ∃ c, db_claims (w_db w) !! k = Some c ∧ supersedable e s None (w_db w) f c).
    { intros f k. unfold hit. rewrite dict_get_map. case_decide as Hf; rewrite elem_of_fromkeys in Hf.
      - simpl. assert (Hc := λ l P, Hrow l P k).
        rewrite (Hrow (g f) (supersedable e s None (w_db w) f) k); [tauto|]. intros c. unfold g,
          ClaimRepo.active_by_event_field, supersedable. rewrite !list_elem_of_filter. tauto.
      - simpl. split; [by intros ?%elem_of_nil|tauto]. }
    split_and!.
    + unfold prior_claims. apply map_m_same. intros f _. eapply runs_bind; [|reflexivity].
      unfold ClaimRepo.find_active_by_event_field. by rewrite query_quiet.
    + intros f k Hf. rewrite Hhit. tauto.
    + split.
      * intros f k (_ & c & Hc & _)%Hhit. eauto.
      * intros f f' k (_ & c & Hc & _ & _ & <- & _)%Hhit (_ & c' & Hc' & _ & _ & <- & _)%Hhit. congruence.
Qed.

(** What a successful call has done. *)
Record written_effect (e s snap : UUID) (srid : option string) (items : list raw_claim)
    (news : list Claim) (db db' : DB) : Prop := mkWrittenEffect {
  we_only : claims_only db db';
  we_items : Forall2 (written_as e s snap) items news;
  we_fields : NoDup (c_field_name <$> news);
  we_new : ∀ c, c ∈ news → db_claims db !! c_id c = None ∧ db_claims db' !! c_id c = Some c;
  we_back : ∀ k c, db_claims db' !! k = Some c → db_claims db !! k = None → c ∈ news;
  we_kept : ∀ k c, db_claims db !! k = Some c →
    (∀ nc, nc ∈ news → ¬ supersedable e s srid db (c_field_name nc) c) →
    db_claims db' !! k = Some c;
  we_superseded : ∀ k c nc, db_claims db !! k = Some c → nc ∈ news →
    supersedable e s srid db (c_field_name nc) c →
    db_claims db' !! k = Some (supersede (c_id nc) c);
}.

Lemma written_names e s snap items news :
  Forall2 (written_as e s snap) items news → c_field_name <$> news = raw_field_name <$> items.
Proof. induction 1 as [|i c items news Hw _ IH]; simpl; [done|]. f_equal; [apply Hw|done]. Qed.

Lemma write_normalised_run e s snap items run srid w res w' :
  quiet w → claims_keyed (w_db w) →
  write_normalised e s snap items run srid w = (Ok res, w') →
  quiet w' ∧ written_effect e s snap srid items (cw_new_claims res) (w_db w) (w_db w').
Proof.
  intros Hq Hk. unfold write_normalised. intros (u & w1 & E & H)%bind_Ok_inv.
  unfold lift_res in E. injection E as E <-.
  assert (Hnd : NoDup (raw_field_name <$> items)).
  { unfold assert_no_duplicate_fields in E. destruct (duplicates _ _) eqn:Ed; [|done].
    by apply duplicates_nil in Ed as [? _]. }
  apply bind_Ok_inv in H as (pm & w1 & E1 & H).
  destruct (prior_claims_quiet e s srid items w Hq Hk) as (pm' & Epm & Hhit & Hpo).
  rewrite Epm in E1. injection E1 as <- <-.
  apply bind_Ok_inv in H as (l & w2 & E2 & H).
  apply write_items_ok in E2 as (Hq2 & Honly & HF & Hin & Hback & Hkeep & Hsup); [|done..].
  assert (w' = w2 ∧ cw_new_claims res = l.*1) as [-> Hnew].
  { apply bind_Ok_inv in H as (pairs & w3 & E3 & H). injection H as <- <-.
    case_bool_decide; [injection E3 as _ <-; done|].
    unfold ConflictRepo.find_resolved_by_winning_claims in E3.
    apply bind_Ok_inv in E3 as (x & w4 & E4 & E3). rewrite query_quiet in E4 by done.
    injection E4 as _ <-. injection E3 as _ <-. done. }
  clear H. rewrite Hnew. pose proof (written_names _ _ _ _ _ HF) as Hnames.
  split; [done|]. split; try done.
  - by rewrite Hnames.
  - intros k c Hc Hk'. by apply (Hback k c).
  - intros k c Hc Hno. apply Hkeep; [done|]. intros f Hf Hh. apply Hhit in Hh as (c' & Hc' & Hs); [|done].
    assert (c' = c) as -> by congruence. exfalso.
    rewrite <- Hnames in Hf. apply list_elem_of_fmap in Hf as (nc & -> & Hnc). by apply (Hno nc).
  - intros k c nc Hc Hnc Hs.
    assert (Hf : c_field_name nc ∈ raw_field_name <$> items).
    { rewrite <- Hnames. apply list_elem_of_fmap. eauto. }
    destruct (Hsup k c (c_field_name nc) Hc Hf) as (nc' & Hnc' & Ef & Hs').
    { apply Hhit; eauto. }
    { apply Hs. }
    assert (nc' = nc) as ->; [|done].
    eapply (NoDup_fmap_inj_elem c_field_name); [by rewrite Hnames|done..].
Qed.

(** C19: what writing claims does. When a submission's claims are written, each of
    them becomes one new active RAW claim of the event, source and snapshot, with the
    submitted value, under an identifier not in use; every active claim of the same
    source on one of these fields (of the same source record when the submission has
    one, else on the same event) is superseded by exactly the new claim of its field;
    every other claim is as it was; no claim appears besides the new ones; and
    nothing but claims and their history, which only grows, is touched. *)
Theorem write_normalised_effect e s snap items run srid w res w' :
  quiet w → claims_keyed (w_db w) →
  write_normalised e s snap items run srid w = (Ok res, w') →
  written_effect e s snap srid items (cw_new_claims res) (w_db w) (w_db w').
Proof. intros Hq Hk E. by apply (write_normalised_run e s snap items run srid w res w'). Qed.

(** a source never disagrees with itself. After a submission without a source
    record has been written to an event, the active claims of its source on the event,
    in each of the fields it submitted, are exactly its own new claim: re-ingestion
    leaves no stale value beside the new one. *)
Theorem one_active_claim_per_source e s snap items run w res w' item :
  quiet w → claims_keyed (w_db w) →
  write_normalised e s snap items run None w = (Ok res, w') → item ∈ items →
  ∃ nc, nc ∈ cw_new_claims res ∧ written_as e s snap item nc
  ∧ ∀ c, c ∈ ClaimRepo.active_by_event_field e (raw_field_name item) (w_db w') ∧ c_source_id c = s
         ↔ c = nc.
Proof.
  intros Hq Hk E Hitem. apply write_normalised_run in E as (_ & [_ Hw Hnd Hnew Hback Hkept Hsup]); [|done..].
  apply list_elem_of_lookup in Hitem as [i Hi].
  destruct (Forall2_lookup_l _ _ _ _ _ Hw Hi) as (nc & Hnc & Hwas).
  apply list_elem_of_lookup_2 in Hnc. exists nc. split_and!; [done|done|]. intros c.
  destruct Hwas as (Hf & Hv & He & Hs & Hsn & Ht & _).
  unfold ClaimRepo.active_by_event_field. rewrite list_elem_of_filter, elem_of_rows. split.
  - intros [[(Hce & Hcf & Ha) [k Hc]] Hcs].
    destruct (db_claims (w_db w) !! k) as [c0|] eqn:Hc0.
    + exfalso. assert (Hno : ∀ nc', nc' ∈ cw_new_claims res →
        ¬ supersedable e s None (w_db w) (c_field_name nc') c0).
      { intros nc' Hnc' Hsp. rewrite (Hsup k c0 nc' Hc0 Hnc' Hsp) in Hc. injection Hc as <-.
        by vm_compute in Ha. }
      pose proof (Hkept k c0 Hc0 Hno) as Hsame. assert (c0 = c) as -> by congruence.
      apply (Hno nc Hnc). split_and!; congruence.
    + pose proof (Hback k c Hc Hc0) as Hcn.
      apply (NoDup_fmap_inj_elem c_field_name (cw_new_claims res)); congruence.
  - intros ->. split_and!; try done; [|exists (c_id nc); by apply Hnew].
    apply is_active_spec. by rewrite Ht.
Qed.

(** ** Witnesses *)

(** Two sources disagree on the operator; the first one submits a correction. *)
Definition sample_evidence_db : DB :=
  upd_claims (λ _, claims_table
    [mkClaim 10 1 2 (Some 80%N) "operator" (PStr "Acme") RAW 5 None None;
     mkClaim 11 1 3 (Some 81%N) "operator" (PStr "Emca") RAW 6 None None]) empty_db.
Definition sample_items : list raw_claim :=
  [[("field_name", PStr "operator"); ("field_value", PStr "ACME")];
   [("field_name", PStr "location"); ("field_value", PStr "Lima")]].

Lemma sample_evidence_keyed : claims_keyed sample_evidence_db.
Proof.
  apply (bool_decide_unpack (map_Forall (λ k c, c_id c = k) (db_claims sample_evidence_db))).
  vm_compute. exact I.
Defined.

Definition sample_write (srid : option string) :=
  write_normalised 1 2 82 sample_items 7 srid (world_of sample_evidence_db).

Lemma sample_write_runs : is_ok (sample_write None).1.
Proof. vm_compute. exact I. Defined.

Lemma ok_run {A} (r : Res A * World) : is_ok r.1 → ∃ a w, r = (Ok a, w).
Proof. destruct r as [[a|e] w]; [eauto|done]. Defined.

Lemma write_normalised_effect_witness :
  ∃ res w', sample_write None = (Ok res, w')
  ∧ written_effect 1 2 82 None sample_items (cw_new_claims res) sample_evidence_db (w_db w').
Proof.
  destruct (ok_run _ sample_write_runs) as (res & w' & E). exists res, w'. split; [exact E|].
  exact (write_normalised_effect 1 2 82 sample_items 7 None (world_of sample_evidence_db) res w'
    eq_refl sample_evidence_keyed E).
Defined.

Lemma one_active_claim_per_source_witness :
  ∃ res w' nc, sample_write None = (Ok res, w') ∧ nc ∈ cw_new_claims res
  ∧ ∀ c, c ∈ ClaimRepo.active_by_event_field 1 "operator" (w_db w') ∧ c_source_id c = 2%N ↔ c = nc.
Proof.
  destruct (ok_run _ sample_write_runs) as (res & w' & E). exists res, w'.
  destruct (one_active_claim_per_source 1 2 82 sample_items 7 (world_of sample_evidence_db) res w'
    [("field_name", PStr "operator"); ("field_value", PStr "ACME")] eq_refl sample_evidence_keyed E)
    as (nc & Hin & _ & H); [by left|].
  exists nc. split_and!; [done|exact Hin|exact H].
Defined.
