(* ===== verification/Merge.v ===== *)
(** Merging a duplicate accident event into a surviving one, and the curator's
    review of a suspected duplicate pair
    (src/src/atlas/application/use_cases/{merge_duplicate_events,review_duplicate}.py).

    The merge copies the source's active claims to the target and supersedes the
    originals; it never moves a row. *)
From Stdlib Require Import Ascii.
From S2P Require Import Prelude Text PyFloat PyVal Entities Store Json Logic Conflicts.
From S2P Require Import Projection Reproject Resolution Reconcile.
Open Scope string_scope.
Open Scope list_scope.
Open Scope Z_scope.

(** [f": {note}" if note else ""] *)
Definition note_suffix (note : string) : string := if str_empty note then "" else ": " +:+ note.

Record MergeResult := mkMergeResult {
  mr_target : UUID;
  mr_source : UUID;
  mr_claims_transferred : Z;
  mr_review_id : option UUID;
}.

Module MergeDuplicateEvents.

(** Lock both rows in the order of their ids; each must still exist. *)
Definition lock_events (source target : UUID) : M (list (UUID * AccidentEvent)) :=
  map_m (λ lock_id,
    locked ← EventRepo.lock_for_update lock_id;
    match locked with
    | Some e => mret (lock_id, e)
    | None => raise (EventNotFoundError lock_id)
    end) (py_sorted N.leb [source; target]).

Definition check_not_merged (e : option AccidentEvent) (id : UUID) : M unit :=
  match e with
  | Some e => if is_merged e then raise (EventAlreadyMergedError id (ev_merged_into e)) else mret ()
  | None => raise (EventNotFoundError id)
  end.

(** Step 1: copy one active claim to the target; the pair (old id, new id). *)
Definition transfer_claim (source target resolved_by : UUID) (note : string) (old : Claim)
    : M (UUID * UUID) :=
  new_id ← uuid4;
  ClaimRepo.add (mkClaim new_id target (c_source_id old) (c_raw_snapshot_id old)
    (c_field_name old) (c_field_value old) (c_claim_type old) (c_created_at old)
    (c_created_by old) None);;
  log_claim_history new_id target None (some_nonnull (c_field_value old)) None (c_claim_type old)
    "merged" ("Transferred from event " +:+ uuid_str source +:+ " during merge by "
              +:+ uuid_str resolved_by +:+ note_suffix note) USER (Some resolved_by);;
  mret (c_id old, new_id).

(** Step 2: supersede the original by its copy. *)
Definition supersede_original (target resolved_by : UUID) (note : string)
    (old_to_new : list (UUID * UUID)) (old : Claim) : M unit :=
  match dict_get (c_id old) old_to_new with
  | None => raise (RuntimeError "KeyError")
  | Some new_id =>
      _ ← ClaimRepo.bulk_supersede [c_id old] new_id;
      log_claim_history (c_id old) (c_event_id old) (some_nonnull (c_field_value old))
        (some_nonnull (c_field_value old)) (Some (c_claim_type old)) SUPERSEDED "superseded"
        ("Superseded by merge into " +:+ uuid_str target +:+ note_suffix note)
        USER (Some resolved_by)
  end.

(** Step 4: tombstone the source's open conflicts. *)
Definition close_source_conflicts (source target resolved_by : UUID) (note : string) : M unit :=
  let merge_note := "Event merged into " +:+ uuid_str target +:+ " by " +:+ uuid_str resolved_by
                    +:+ note_suffix note in
  closed ← ConflictRepo.close_event_conflicts_as_merged source merge_note;
  for_each closed (λ c,
    log_conflict_activity (cf_id c) (cf_event_id c) (Some OPEN) RESOLVED SYSTEM None merge_note
      (cf_version c) (Some [("event_merged_into", PStr (uuid_str target));
                            ("previous_winning_claim_id", PNone)])).

(** Step 6: queue the target's reprojection. *)
Definition queue_reprojection (source target : UUID) : M unit :=
  id ← uuid4;
  created_at ← utc_now;
  OutboxRepo.add (mkOutbox id "CLAIMS_UPDATED" target
    [("event_id", PStr (uuid_str target)); ("merged_from", PStr (uuid_str source))]
    OB_PENDING 0 None None None None created_at None).

(** _close_review *)
Definition close_review (source target : UUID) (review_id : option UUID) (resolved_by : UUID)
    (note : string) : M (option UUID) :=
  let note_text := str_take 500 (or_default note "Merged via admin action") in
  match review_id with
  | Some id =>
      _ ← ReviewRepo.update_status id DR_MERGED (Some resolved_by) (Some note_text);
      mret (Some id)
  | None =>
      existing ← ReviewRepo.find_existing_pair source target;
      match existing with
      | Some r =>
          if bool_decide (dr_status r = DR_PENDING) then
            _ ← ReviewRepo.update_status (dr_id r) DR_MERGED (Some resolved_by) (Some note_text);
            mret (Some (dr_id r))
          else mret None
      | None => mret None
      end
  end.

(** Everything after the conditional UPDATE claimed the merge. *)
Definition absorb (source target resolved_by : UUID) (note : string) (review_id : option UUID)
    : M MergeResult :=
  IdentityRepo.merge_identity_index source target;;
  source_active ← ClaimRepo.find_active_by_event source;
  old_to_new ← map_m (transfer_claim source target resolved_by note) source_active;
  for_each source_active (supersede_original target resolved_by note old_to_new);;
  close_source_conflicts source target resolved_by note;;
  ConflictReconciler.detect_and_apply_new_conflicts target resolved_by USER;;
  queue_reprojection source target;;
  ProjectionRepo.delete source;;
  closed_review_id ← close_review source target review_id resolved_by note;
  commit;;
  mret (mkMergeResult target source (Z.of_nat (length source_active)) closed_review_id).

Definition execute (source target resolved_by : UUID) (note : string) (review_id : option UUID)
    : M MergeResult :=
  if (source =? target)%N then raise (CannotMergeIntoSelfError source) else
  found_source ← EventRepo.get source;
  if bool_decide (found_source = None) then raise (EventNotFoundError source) else
  found_target ← EventRepo.get target;
  if bool_decide (found_target = None) then raise (EventNotFoundError target) else
  locked ← lock_events source target;
  check_not_merged (dict_get source locked) source;;
  check_not_merged (dict_get target locked) target;;
  claimed ← EventRepo.try_atomic_merge source target;
  if negb claimed then raise (EventAlreadyMergedError source None) else
  absorb source target resolved_by note review_id.
End MergeDuplicateEvents.

Module ReviewDuplicate.
(** (absorbed, surviving) *)
Definition direction (review : PendingDuplicateReview) (source_event_id : option UUID)
    : Res (UUID * UUID) :=
  match source_event_id with
  | Some s =>
      if negb (bool_decide (s ∈ [dr_event_id_a review; dr_event_id_b review]))
      then Raise (DomainValidationError "source_event_id is not part of the review")
      else Ok (s, if (s =? dr_event_id_a review)%N then dr_event_id_b review
                  else dr_event_id_a review)
  | None => Ok (dr_event_id_b review, dr_event_id_a review)
  end.

Definition execute (review_id : UUID) (action : string) (resolved_by : UUID) (note : string)
    (source_event_id : option UUID) : M (option MergeResult) :=
  found ← ReviewRepo.get review_id;
  match found with
  | None => raise (ReviewNotFoundError review_id)
  | Some review =>
      if bool_decide (dr_status review ≠ DR_PENDING)
      then raise (ReviewAlreadyResolvedError review_id (dr_status review)) else
      if String.eqb (str_upper action) "CONFIRM" then
        '(source, target) ← lift_res (direction review source_event_id);
        result ← MergeDuplicateEvents.execute source target resolved_by
                   (or_default note "Confirmed duplicate via review") (Some review_id);
        mret (Some result)
      else if String.eqb (str_upper action) "REJECT" then
        _ ← ReviewRepo.update_status review_id DR_REJECTED (Some resolved_by)
              (Some (str_take 500 (or_default note "Not a duplicate")));
        commit;;
        mret None
      else raise (DomainValidationError "Invalid action. Must be 'CONFIRM' or 'REJECT'.")
  end.
End ReviewDuplicate.

(** ** The phases of a merge, run alone *)
Section phases.
Import MergeDuplicateEvents.
Context (source target resolved_by : UUID) (note : string).

(** Every identifier in use was handed out before. *)
Record fresh_ids (u : N) (db : DB) : Prop := mkFreshIds {
  fr_claims : ∀ k c, db_claims db !! k = Some c → (k < u)%N;
  fr_conflicts : ∀ k c, db_conflicts db !! k = Some c → (k < u)%N;
  fr_outbox : ∀ k o, db_outbox db !! k = Some o → (k < u)%N;
}.

(** The copy of a claim: same evidence, another event. *)
Definition copy_of (id : UUID) (c : Claim) : Claim :=
  mkClaim id target (c_source_id c) (c_raw_snapshot_id c) (c_field_name c) (c_field_value c)
    (c_claim_type c) (c_created_at c) (c_created_by c) None.

(** Each copy takes one identifier for itself and one for its history row. *)
Fixpoint copies (u : N) (l : list Claim) : list Claim :=
  match l with
  | [] => []
  | c :: l' => copy_of u c :: copies (u + 2)%N l'
  end.

Definition insert_claims (m : gmap UUID Claim) (l : list Claim) : gmap UUID Claim :=
  foldl (λ m c, <[c_id c := c]> m) m l.

(** Only claims and their history differ. *)
Definition same_but_claims (db db' : DB) : Prop :=
  db' = upd_claims (λ _, db_claims db') (upd_claim_history (λ _, db_claim_history db') db).

Lemma same_but_claims_trans db1 db2 db3 :
  same_but_claims db1 db2 → same_but_claims db2 db3 → same_but_claims db1 db3.
Proof. unfold same_but_claims. intros H1 H2. rewrite H2 at 1. by rewrite H1 at 1. Qed.

Lemma copies_ids u l c : c ∈ copies u l → (u ≤ c_id c)%N.
Proof.
  revert u. induction l as [|c0 l IH]; intros u; simpl; [by intros ?%elem_of_nil|].
  intros [->|Hc]%elem_of_cons; [simpl; lia|]. apply IH in Hc. lia.
Qed.

Lemma copies_NoDup u l : NoDup (c_id <$> copies u l).
Proof.
  revert u. induction l as [|c l IH]; intros u; simpl; [constructor|].
  apply NoDup_cons. split; [|apply IH].
  intros (c' & E & Hc')%list_elem_of_fmap. apply copies_ids in Hc'. simpl in E. lia.
Qed.

Lemma copies_zip u l c n : (c, n) ∈ zip l (copies u l) → n = copy_of (c_id n) c.
Proof.
  revert u. induction l as [|c0 l IH]; intros u; simpl; [by intros ?%elem_of_nil|].
  intros [[= -> ->]|Hin]%elem_of_cons; [done|by eapply IH].
Qed.

Lemma copies_length u l : length (copies u l) = length l.
Proof. revert u. induction l as [|c l IH]; intros u; simpl; [done|]. by rewrite IH. Qed.

Lemma insert_claims_other m l k : k ∉ c_id <$> l → insert_claims m l !! k = m !! k.
Proof.
  revert m. induction l as [|c l IH]; intros m; [done|].
  rewrite fmap_cons, not_elem_of_cons. intros [Hne Hk]. simpl. rewrite IH by done.
  by rewrite lookup_insert_ne.
Qed.

Lemma insert_claims_new m l c : NoDup (c_id <$> l) → c ∈ l → insert_claims m l !! c_id c = Some c.
Proof.
  revert m. induction l as [|c0 l IH]; intros m; [by intros _ ?%elem_of_nil|].
  rewrite fmap_cons. intros [Hn Hnd]%NoDup_cons [->|Hc]%elem_of_cons; simpl; [|by apply IH].
  change (insert_claims (<[c_id c0 := c0]> m) l !! c_id c0 = Some c0).
  rewrite insert_claims_other by done. apply lookup_insert_eq.
Qed.

(** Step 1 *)
Lemma transfer_quiet l w :
  quiet w → (∀ k c, db_claims (w_db w) !! k = Some c → (k < w_uuid w)%N) →
  ∃ w', map_m (transfer_claim source target resolved_by note) l w
      = (Ok (zip (c_id <$> l) (c_id <$> copies (w_uuid w) l)), w')
    ∧ quiet w' ∧ (w_uuid w ≤ w_uuid w')%N ∧ same_but_claims (w_db w) (w_db w')
    ∧ db_claims (w_db w') = insert_claims (db_claims (w_db w)) (copies (w_uuid w) l).
Proof.
  revert w. induction l as [|c l IH]; intros w Hq Hf; [exists w; split_and!; try done|].
  { by destruct w as [[] ????]. }
  destruct w as [db com env now uid]. unfold quiet in Hq. simpl in *. subst env.
  assert (Hnew : db_claims db !! uid = None).
  { destruct (db_claims db !! uid) as [c'|] eqn:E; [|done]. specialize (Hf _ _ E). lia. }
  eassert (H1 : ∃ h, transfer_claim source target resolved_by note c (mkWorld db com [] now uid)
    = (Ok (c_id c, uid), mkWorld (upd_claim_history (λ l, l ++ [h])
         (upd_claims <[uid := copy_of uid c]> db)) com [] (now + 1) (uid + 2)%N)).
  { unfold transfer_claim, uuid4, ClaimRepo.add, log_claim_history, ClaimHistoryRepo.add, utc_now,
      exec, stmt, mbind, M_bind. simpl. rewrite Hnew. simpl.
    replace (uid + 2)%N with (uid + 1 + 1)%N by lia. eexists. reflexivity. }
  destruct H1 as [h H1].
  destruct (IH (mkWorld (upd_claim_history (λ l, l ++ [h]) (upd_claims <[uid := copy_of uid c]> db))
    com [] (now + 1) (uid + 2)%N)) as (w' & E & Hq' & Hu & Hs & Hc); [done| |].
  { intros k c'. simpl. rewrite lookup_insert_Some. intros [[<- _]|[_ Hk]]; [lia|].
    specialize (Hf _ _ Hk). lia. }
  simpl in *. exists w'. split_and!; [|done|lia| |done].
  - eapply runs_bind; [exact H1|]. eapply runs_bind; [exact E|]. done.
  - eapply same_but_claims_trans; [|exact Hs]. by destruct db.
Qed.

(** Step 2 *)
Definition supersede_each (nid : Claim → UUID) (m : gmap UUID Claim) (l : list Claim) :=
  foldl (λ m c, ClaimRepo.supersede_rows [c_id c] (nid c) m) m l.

Lemma lookup_supersede_one k n (m : gmap UUID Claim) k' :
  ClaimRepo.supersede_rows [k] n m !! k'
  = (λ c, if bool_decide (k' = k) && is_active c then supersede n c else c) <$> m !! k'.
Proof.
  unfold ClaimRepo.supersede_rows. rewrite lookup_update_where.
  destruct (m !! k') as [c|]; [|done]. simpl. f_equal.
  by rewrite (bool_decide_ext (k' ∈ [k]) (k' = k)) by apply list_elem_of_singleton.
Qed.

Lemma supersede_each_other nid m l k : k ∉ c_id <$> l → supersede_each nid m l !! k = m !! k.
Proof.
  revert m. induction l as [|c l IH]; intros m; [done|].
  rewrite fmap_cons, not_elem_of_cons. intros [Hne Hk]. simpl.
  change (supersede_each nid (ClaimRepo.supersede_rows [c_id c] (nid c) m) l !! k = m !! k).
  rewrite IH, lookup_supersede_one, bool_decide_false by done. by destruct (m !! k).
Qed.

Lemma supersede_each_hit nid m l c :
  NoDup (c_id <$> l) → c ∈ l → m !! c_id c = Some c → is_active c = true →
  supersede_each nid m l !! c_id c = Some (supersede (nid c) c).
Proof.
  revert m. induction l as [|c0 l IH]; intros m; [by intros _ ?%elem_of_nil|].
  rewrite fmap_cons. intros [Hn Hnd]%NoDup_cons Hc Hm Ha. simpl.
  change (supersede_each nid (ClaimRepo.supersede_rows [c_id c0] (nid c0) m) l !! c_id c
    = Some (supersede (nid c) c)).
  apply elem_of_cons in Hc as [->|Hc].
  - rewrite supersede_each_other, lookup_supersede_one, Hm by done. simpl.
    by rewrite bool_decide_true, Ha by done.
  - apply IH; [done..| |done]. rewrite lookup_supersede_one, Hm, bool_decide_false; [done|].
    intros E. apply Hn. rewrite <- E. by apply list_elem_of_fmap_2.
Qed.

Lemma supersede_loop_quiet pairs nid l w :
  quiet w → (∀ c, c ∈ l → dict_get (c_id c) pairs = Some (nid c)) →
  ∃ w', for_each l (supersede_original target resolved_by note pairs) w = (Ok tt, w')
    ∧ quiet w' ∧ (w_uuid w ≤ w_uuid w')%N ∧ same_but_claims (w_db w) (w_db w')
    ∧ db_claims (w_db w') = supersede_each nid (db_claims (w_db w)) l.
Proof.
  revert w. induction l as [|c l IH]; intros w Hq Hg; [exists w; split_and!; try done|].
  { by destruct w as [[] ????]. }
  destruct w as [db com env now uid]. unfold quiet in Hq. simpl in *. subst env.
  eassert (H1 : ∃ h, supersede_original target resolved_by note pairs c (mkWorld db com [] now uid)
    = (Ok tt, mkWorld (upd_claim_history (λ l, l ++ [h])
         (upd_claims (ClaimRepo.supersede_rows [c_id c] (nid c)) db)) com [] (now + 1)
         (uid + 1)%N)).
  { unfold supersede_original. rewrite (Hg c) by by left.
    unfold ClaimRepo.bulk_supersede. rewrite bool_decide_false by done.
    eexists. reflexivity. }
  destruct H1 as [h H1].
  destruct (IH (mkWorld (upd_claim_history (λ l, l ++ [h])
    (upd_claims (ClaimRepo.supersede_rows [c_id c] (nid c)) db)) com [] (now + 1) (uid + 1)%N))
    as (w' & E & Hq' & Hu & Hs & Hc); [done|intros c' Hc'; apply Hg; by right|].
  simpl in *. exists w'. split_and!; [by eapply runs_bind|done|lia| |done].
  eapply same_but_claims_trans; [|exact Hs]. by destruct db.
Qed.

(** What the two steps make of the claims: [pairs] lists each claim that was
    active on the source with its copy on the target. *)
Record absorbed (m : gmap UUID Claim) (pairs : list (Claim * Claim)) (m' : gmap UUID Claim)
    : Prop := mkAbsorbed {
  ab_originals : ∀ c, c ∈ pairs.*1
    ↔ m !! c_id c = Some c ∧ c_event_id c = source ∧ is_active c = true;
  ab_copy : ∀ c n, (c, n) ∈ pairs → n = copy_of (c_id n) c ∧ m !! c_id n = None;
  ab_distinct : NoDup (c_id <$> pairs.*1) ∧ NoDup (c_id <$> pairs.*2);
  ab_superseded : ∀ c n, (c, n) ∈ pairs → m' !! c_id c = Some (supersede (c_id n) c);
  ab_copied : ∀ c n, (c, n) ∈ pairs → m' !! c_id n = Some n;
  ab_rest : ∀ k, k ∉ c_id <$> pairs.*1 → k ∉ c_id <$> pairs.*2 → m' !! k = m !! k;
}.

Lemma elem_of_zip_fmap {A B A' B'} (f : A → A') (g : B → B') l k x y :
  (x, y) ∈ zip l k → (f x, g y) ∈ zip (f <$> l) (g <$> k).
Proof.
  revert k. induction l as [|x0 l IH]; intros [|y0 k]; simpl; try (by intros ?%elem_of_nil).
  intros [[= -> ->]|Hin]%elem_of_cons; [by left|right; by apply IH].
Qed.

Lemma NoDup_active db e : claims_keyed db → NoDup (c_id <$> ClaimRepo.active_by_event e db).
Proof.
  intros Hk. apply NoDup_ids_filter. unfold rows.
  assert (E : c_id <$> (map_to_list (db_claims db)).*2 = (map_to_list (db_claims db)).*1).
  { rewrite <- list_fmap_compose. apply list_fmap_ext. intros i [k c] Hi.
    apply (Hk k c), elem_of_map_to_list. by eapply list_elem_of_lookup_2. }
  rewrite E. apply NoDup_fst_map_to_list.
Qed.

Lemma elem_of_active db e c :
  claims_keyed db → c ∈ ClaimRepo.active_by_event e db
  ↔ db_claims db !! c_id c = Some c ∧ c_event_id c = e ∧ is_active c = true.
Proof.
  intros Hk. unfold ClaimRepo.active_by_event. rewrite list_elem_of_filter, elem_of_rows.
  split; [intros ((? & ?) & k & Hc); by rewrite (Hk _ _ Hc)|naive_solver].
Qed.

Lemma absorbed_intro db u :
  claims_keyed db → (∀ k c, db_claims db !! k = Some c → (k < u)%N) →
  let l := ClaimRepo.active_by_event source db in
  let old_to_new := zip (c_id <$> l) (c_id <$> copies u l) in
  let nid c := default 0%N (dict_get (c_id c) old_to_new) in
  (∀ c, c ∈ l → dict_get (c_id c) old_to_new = Some (nid c))
  ∧ absorbed (db_claims db) (zip l (copies u l))
      (supersede_each nid (insert_claims (db_claims db) (copies u l)) l).
Proof.
  intros Hk Hf l o nid. pose proof (NoDup_active db source Hk) as Hnd. fold l in Hnd.
  pose proof (λ c, elem_of_active db source c Hk) as Hl. fold l in Hl.
  assert (Hlen : length l = length (copies u l)) by by rewrite copies_length.
  assert (Hfst : (zip l (copies u l)).*1 = l) by (apply fst_zip; lia).
  assert (Hsnd : (zip l (copies u l)).*2 = copies u l) by (apply snd_zip; lia).
  assert (Hget : ∀ c n, (c, n) ∈ zip l (copies u l) → dict_get (c_id c) o = Some (c_id n)).
  { intros c n Hin. apply dict_get_NoDup.
    - subst o. rewrite fst_zip by (rewrite !length_fmap; lia). done.
    - by apply elem_of_zip_fmap. }
  assert (Hsmall : ∀ c, c ∈ l → c_id c ∉ c_id <$> copies u l).
  { intros c Hc (n & E & Hn)%list_elem_of_fmap. apply copies_ids in Hn.
    apply Hl in Hc as (Hc & _). specialize (Hf _ _ Hc). lia. }
  assert (Hbig : ∀ n, n ∈ copies u l → db_claims db !! c_id n = None).
  { intros n Hn%copies_ids. destruct (db_claims db !! c_id n) as [c|] eqn:E; [|done].
    specialize (Hf _ _ E). lia. }
  split.
  { intros c Hc. rewrite <- Hfst in Hc. apply list_elem_of_fmap in Hc as ([c' n] & -> & Hin).
    subst nid. simpl. by rewrite (Hget c' n Hin). }
  split.
  - intros c. rewrite Hfst. apply Hl.
  - intros c n Hin. split; [by eapply copies_zip|]. apply Hbig. by apply elem_of_zip_r in Hin.
  - rewrite Hfst, Hsnd. split; [done|apply copies_NoDup].
  - intros c n Hin. pose proof (elem_of_zip_l _ _ _ _ Hin) as Hc.
    assert (Hm : insert_claims (db_claims db) (copies u l) !! c_id c = Some c)
      by (rewrite insert_claims_other by auto; by apply Hl).
    rewrite (supersede_each_hit nid _ l c Hnd Hc Hm) by by apply Hl.
    subst nid. simpl. by rewrite (Hget c n Hin).
  - intros c n Hin%elem_of_zip_r. rewrite supersede_each_other.
    + apply insert_claims_new; [apply copies_NoDup|done].
    + intros (c' & E & Hc')%list_elem_of_fmap. apply (Hsmall c' Hc'). rewrite <- E.
      by apply list_elem_of_fmap_2.
  - intros k. rewrite Hfst, Hsnd. intros H1 H2.
    by rewrite supersede_each_other, insert_claims_other.
Qed.

(** Step 4 *)
Lemma log_each_quiet {A} (g : A → M unit) l w :
  (∀ x, ∃ id e from_ to_ mt user reason v snap,
     g x = log_conflict_activity id e from_ to_ mt user reason v snap) → quiet w →
  ∃ acts w', for_each l g w = (Ok tt, w') ∧ quiet w' ∧ (w_uuid w ≤ w_uuid w')%N
    ∧ w_db w' = upd_activity (λ h, h ++ acts) (w_db w).
Proof.
  intros Hg. revert w. induction l as [|x l IH]; intros w Hq.
  { exists [], w. split_and!; try done. destruct w as [[] ????]. unfold upd_activity. simpl.
    by rewrite app_nil_r. }
  destruct (Hg x) as (id & e & from_ & to_ & mt & user & reason & v & snap & E).
  destruct (log_activity_ok id e from_ to_ mt user reason v snap w Hq)
    as (entry & w1 & E1 & Hq1 & _ & Hd1 & Hu1).
  destruct (IH w1 Hq1) as (acts & w2 & E2 & Hq2 & Hu2 & Hd2).
  exists (entry :: acts), w2. split_and!; [|done|lia|].
  - simpl. rewrite E. by eapply runs_bind.
  - rewrite Hd2, Hd1. unfold upd_activity. simpl. by rewrite <- app_assoc.
Qed.

Definition open_on (e : UUID) (c : ClaimConflict) : bool :=
  bool_decide (cf_event_id c = e ∧ cf_status c = OPEN).

Lemma close_source_quiet w :
  quiet w → ∃ msg t acts w', close_source_conflicts source target resolved_by note w = (Ok tt, w')
    ∧ quiet w' ∧ (w_uuid w ≤ w_uuid w')%N
    ∧ w_db w' = upd_activity (λ h, h ++ acts) (upd_conflicts
        (update_where (λ _ c, open_on source c) (ConflictRepo.close_as_merged msg t)) (w_db w)).
Proof.
  destruct w as [db com env now uid]. intros Hq. unfold quiet in Hq. simpl in Hq. subst env.
  unfold close_source_conflicts. cbv zeta.
  set (msg := "Event merged into " +:+ _). set (hit := λ (_ : UUID) c, open_on source c).
  set (db' := upd_conflicts (update_where hit (ConflictRepo.close_as_merged msg now)) db).
  set (closed := ConflictRepo.load db <$> (ConflictRepo.close_as_merged msg now <$>
    filter (λ c, open_on source c = true) (rows (db_conflicts db)))).
  destruct (log_each_quiet (λ c,
    log_conflict_activity (cf_id c) (cf_event_id c) (Some OPEN) RESOLVED SYSTEM None msg
      (cf_version c) (Some [("event_merged_into", PStr (uuid_str target));
                            ("previous_winning_claim_id", PNone)]))
    closed (mkWorld db' com [] (now + 1) uid)) as (acts & w' & E & Hq' & Hu & Hd);
    [intros c; repeat eexists|done|].
  exists msg, now, acts, w'. split_and!; [|done|done|exact Hd].
  eapply runs_bind; [|exact E]. reflexivity.
Qed.

Lemma closed_rows msg t (m : gmap UUID ClaimConflict) k c :
  update_where (λ _ c, open_on source c) (ConflictRepo.close_as_merged msg t) m !! k = Some c →
  ∃ c0, m !! k = Some c0 ∧ cf_id c = cf_id c0 ∧ cf_event_id c = cf_event_id c0
    ∧ (cf_event_id c = source → cf_status c = RESOLVED)
    ∧ (cf_status c = OPEN → c = c0).
Proof.
  rewrite lookup_update_where. destruct (m !! k) as [c0|]; [|done]. simpl. intros [= <-].
  exists c0. unfold open_on. case_bool_decide as Hh; [by split_and!|]. split_and!; try done.
  intros He. destruct (cf_status c0) eqn:Es; [|done]. by destruct Hh.
Qed.

Lemma close_review_quiet review_id w :
  quiet w → ∃ r f w', close_review source target review_id resolved_by note w = (Ok r, w')
    ∧ quiet w' ∧ w_db w' = upd_reviews f (w_db w).
Proof.
  destruct w as [db com env now uid]. intros Hq. unfold quiet in Hq. simpl in Hq. subst env.
  assert (Hu : ∀ id st by_ n, ∃ o f, ReviewRepo.update_status id st by_ n
    (mkWorld db com [] now uid) = (Ok o, mkWorld (upd_reviews f db) com [] (now + 1) uid)).
  { intros id st by_ n. unfold ReviewRepo.update_status, utc_now, stmt, mbind, M_bind. simpl.
    destruct (db_reviews db !! id) as [r|]; [by eexists _, _|].
    exists None, (λ m, m). by destruct db. }
  unfold close_review. cbv zeta. destruct review_id as [id|].
  - destruct (Hu id DR_MERGED (Some resolved_by)
      (Some (str_take 500 (or_default note "Merged via admin action")))) as (o & f & E).
    exists (Some id), f. eexists. split_and!; [by eapply runs_bind|done|done].
  - assert (Hf : ∃ o, ReviewRepo.find_existing_pair source target (mkWorld db com [] now uid)
      = (Ok o, mkWorld db com [] now uid)) by (by eexists).
    destruct Hf as [[r|] Hf].
    + destruct (decide (dr_status r = DR_PENDING)) as [Hp|Hp].
      * destruct (Hu (dr_id r) DR_MERGED (Some resolved_by)
          (Some (str_take 500 (or_default note "Merged via admin action")))) as (o & f & E).
        exists (Some (dr_id r)), f, (mkWorld (upd_reviews f db) com [] (now + 1) uid).
        split_and!; [|done|done].
        eapply runs_bind; [exact Hf|]. simpl. rewrite bool_decide_true by done.
        by eapply runs_bind.
      * exists None, (λ m, m), (mkWorld db com [] now uid).
        split_and!; [|done|by destruct db].
        eapply runs_bind; [exact Hf|]. simpl. by rewrite bool_decide_false by done.
    + exists None, (λ m, m), (mkWorld db com [] now uid).
      split_and!; [by eapply runs_bind|done|by destruct db].
Qed.
End phases.

(** ** The whole merge, run alone *)
Section merge.
Import MergeDuplicateEvents.
Context (source target resolved_by : UUID) (note : string) (review_id : option UUID).
Hypothesis distinct_events : source ≠ target.

Definition active_on_field (e : UUID) (db : DB) (f : string) : list Claim :=
  filter (λ c, c_field_name c = f) (ClaimRepo.active_by_event e db).

(** What the merge leaves in the tables, [db] being their state before it and
    [pairs] the source's active claims with their copies. *)
Record merge_outcome (db : DB) (pairs : list (Claim * Claim)) (db' : DB) : Prop :=
  mkMergeOutcome {
  mo_claims : absorbed source target (db_claims db) pairs (db_claims db');
  mo_source_inactive : ∀ k c, db_claims db' !! k = Some c → c_event_id c = source →
    is_active c = false;
  mo_source_closed : ∀ k c, db_conflicts db' !! k = Some c → cf_event_id c = source →
    cf_status c = RESOLVED;
  mo_target_covered : ∀ f, values_differ (active_on_field target db' f) →
    sources_differ (active_on_field target db' f) →
    covered target db' f (c_id <$> active_on_field target db' f);
  mo_one_open : one_open db';
  mo_events : db_events db' = db_events db;
  mo_projections : db_projections db' = base.delete source (db_projections db);
  mo_outbox : ∃ o, db_outbox db' = <[ob_id o := o]> (db_outbox db)
    ∧ db_outbox db !! ob_id o = None ∧ ob_aggregate_id o = target ∧ ob_status o = OB_PENDING;
}.

Lemma absorbed_inactive m pairs m' :
  (∀ k c, m !! k = Some c → c_id c = k) → absorbed source target m pairs m' →
  ∀ k c, m' !! k = Some c → c_event_id c = source → is_active c = false.
Proof using distinct_events.
  intros Hk [Ho Hc _ Hs Hn Hr] k c Hm He.
  destruct (decide (k ∈ c_id <$> pairs.*1)) as [H1|H1].
  - apply list_elem_of_fmap in H1 as (c0 & -> & ([c1 n] & -> & Hin)%list_elem_of_fmap).
    simpl in Hm. rewrite (Hs _ _ Hin) in Hm. by injection Hm as <-.
  - destruct (decide (k ∈ c_id <$> pairs.*2)) as [H2|H2].
    + apply list_elem_of_fmap in H2 as (c0 & -> & ([c1 n] & -> & Hin)%list_elem_of_fmap).
      simpl in Hm. rewrite (Hn _ _ Hin) in Hm. injection Hm as <-.
      destruct (Hc _ _ Hin) as [E _]. rewrite E in He. simpl in He. by subst.
    + rewrite Hr in Hm by done. destruct (is_active c) eqn:Ha; [|done]. exfalso. apply H1.
      rewrite <- (Hk _ _ Hm). apply list_elem_of_fmap_2, Ho. by rewrite (Hk _ _ Hm).
Qed.

Lemma queue_quiet w :
  quiet w → (∀ k o, db_outbox (w_db w) !! k = Some o → (k < w_uuid w)%N) →
  ∃ o w', queue_reprojection source target w = (Ok tt, w') ∧ quiet w'
    ∧ w_db w' = upd_outbox <[ob_id o := o]> (w_db w) ∧ db_outbox (w_db w) !! ob_id o = None
    ∧ ob_aggregate_id o = target ∧ ob_status o = OB_PENDING.
Proof.
  clear distinct_events.
  destruct w as [db com env now uid]. intros Hq Hf. unfold quiet in Hq. simpl in *. subst env.
  assert (Hnew : db_outbox db !! uid = None).
  { destruct (db_outbox db !! uid) as [o|] eqn:E; [|done]. specialize (Hf _ _ E). lia. }
  unfold queue_reprojection, uuid4, utc_now, OutboxRepo.add, stmt, mbind, M_bind. simpl.
  rewrite Hnew. simpl. eexists (mkOutbox uid _ target _ OB_PENDING 0 None None None None now None), _.
  split_and!; [reflexivity|done..].
Qed.

Lemma absorb_quiet w :
  quiet w → one_open (w_db w) → claims_keyed (w_db w) → conflicts_keyed (w_db w) →
  fresh_ids (w_uuid w) (w_db w) →
  ∃ r pairs w', absorb source target resolved_by note review_id w = (Ok r, w')
    ∧ w_committed w' = w_db w' ∧ mr_claims_transferred r = Z.of_nat (length pairs)
    ∧ merge_outcome (w_db w) pairs (w_db w').
Proof using distinct_events.
  destruct w as [db com env now u]. unfold quiet. simpl. intros -> H1 Hk Hck [Hf1 Hf2 Hf3].
  set (db1 := upd_identity (IdentityRepo.merge_rows source target now) db).
  set (l := ClaimRepo.active_by_event source db).
  destruct (transfer_quiet source target resolved_by note l (mkWorld db1 com [] (now + 1) u))
    as (w2 & E2 & Hq2 & Hu2 & Hs2 & Hc2); [done|done|]. simpl in Hu2, Hs2, Hc2.
  destruct (absorbed_intro source target db u Hk Hf1) as [Hget Hab]. fold l in Hget, Hab.
  destruct (supersede_loop_quiet target resolved_by note _ _ l w2 Hq2 Hget)
    as (w3 & E3 & Hq3 & Hu3 & Hs3 & Hc3). rewrite Hc2 in Hc3. rewrite <- Hc3 in Hab.
  pose proof (same_but_claims_trans _ _ _ Hs2 Hs3) as Hs. clear Hs2 Hs3.
  destruct (close_source_quiet source target resolved_by note w3 Hq3)
    as (msg & t & acts & w4 & E4 & Hq4 & Hu4 & Hd4). rewrite Hs in Hd4.
  set (closed := update_where (λ _ c, open_on source c) (ConflictRepo.close_as_merged msg t)
    (db_conflicts db)).
  assert (Hcf4 : db_conflicts (w_db w4) = closed) by by rewrite Hd4.
  assert (Hcl4 : db_claims (w_db w4) = db_claims (w_db w3)) by by rewrite Hd4.
  assert (Hrow : ∀ k c, closed !! k = Some c → ∃ c0, db_conflicts db !! k = Some c0
    ∧ cf_id c = cf_id c0 ∧ cf_event_id c = cf_event_id c0
    ∧ (cf_event_id c = source → cf_status c = RESOLVED) ∧ (cf_status c = OPEN → c = c0))
    by (intros k c; apply closed_rows).
  destruct (detect_and_apply_run target resolved_by USER w4) as
    (w5 & E5 & Hq5 & Hu5 & Hk5 & Hs5 & H15 & Hcov & Hrows); [done| | | |].
  { intros e f k1 k2 c1 c2. rewrite Hcf4. intros Hc1%Hrow Hc2'%Hrow Ho1 Ho2.
    destruct Hc1 as (y1 & Hy1 & _ & _ & _ & Hi1), Hc2' as (y2 & Hy2 & _ & _ & _ & Hi2).
    rewrite (Hi1 (proj2 (proj2 Ho1))) in Ho1. rewrite (Hi2 (proj2 (proj2 Ho2))) in Ho2.
    by eapply H1. }
  { intros k c. rewrite Hcf4. intros (c0 & Hc0 & -> & _)%Hrow. by apply Hck. }
  { intros k c. rewrite Hcf4. intros (c0 & Hc0 & _)%Hrow. specialize (Hf2 _ _ Hc0). lia. }
  destruct Hs5 as (Hcl5 & _ & Hev5 & Hpj5 & _ & Hob5).
  destruct (queue_quiet w5) as (o & w6 & E6 & Hq6 & Hd6 & Hnew & Hag & Hst); [done| |].
  { intros k o. rewrite Hob5, Hd4. simpl. intros Ho. specialize (Hf3 _ _ Ho). lia. }
  destruct (close_review_quiet source target resolved_by note review_id
    (set_db (upd_projections (base.delete source) (w_db w6)) w6)) as (r & f & w7 & E7 & Hq7 & Hd7);
    [exact Hq6|].
  exists (mkMergeResult target source (Z.of_nat (length l)) r), (zip l (copies target u l)),
    (commit w7).2.
  split; [|split_and!; [done| |]].
  - unfold absorb, IdentityRepo.merge_identity_index.
    eapply runs_bind; [reflexivity|]. eapply runs_bind; [reflexivity|].
    eapply runs_bind; [exact E2|]. eapply runs_bind; [exact E3|]. eapply runs_bind; [exact E4|].
    eapply runs_bind; [exact E5|]. eapply runs_bind; [exact E6|].
    eapply runs_bind; [by apply exec_quiet|]. eapply runs_bind; [exact E7|].
    eapply runs_bind; reflexivity.
  - simpl. rewrite length_zip_with_l_eq; [done|]. by rewrite copies_length.
  - simpl. rewrite Hd7. simpl. rewrite Hd6.
    assert (Hcl : db_claims (w_db w5) = db_claims (w_db w3)) by congruence.
    split; simpl.
    + by rewrite Hcl.
    + rewrite Hcl. by eapply absorbed_inactive.
    + intros k c [Hc|[Ht _]]%Hrows Hsrc; [|congruence].
      rewrite Hcf4 in Hc. destruct (Hrow _ _ Hc) as (_ & _ & _ & _ & Hres & _). auto.
    + unfold active_on_field, ClaimRepo.active_by_event. simpl. intros fl.
      rewrite Hcl5. apply Hcov.
    + done.
    + by rewrite Hev5, Hd4.
    + by rewrite Hpj5, Hd4.
    + exists o. rewrite Hob5, Hd4 in Hnew |- *. done.
Qed.
End merge.

(** ** Properties *)

(** C11: merging an accident event into another, run alone on well-formed tables,
    always succeeds when both exist, differ and neither is merged already, and
    publishes at once: the source points at the target; each claim that was active
    on the source is superseded by exactly one new copy of it on the target, the
    same in every respect but event and identity, and no other claim changes; the
    source is left without active claim and without open conflict; on the target
    every field whose active claims now disagree is under an OPEN conflict linked
    to all of them; the source's read model is gone; and one pending outbox event
    asks for the target to be reprojected. *)
Theorem merge_effect source target resolved_by note review_id w es et :
  quiet w → one_open (w_db w) → claims_keyed (w_db w) → conflicts_keyed (w_db w) →
  fresh_ids (w_uuid w) (w_db w) → source ≠ target →
  db_events (w_db w) !! source = Some es → db_events (w_db w) !! target = Some et →
  ev_merged_into es = None → ev_merged_into et = None →
  ∃ r w' pairs,
    MergeDuplicateEvents.execute source target resolved_by note review_id w = (Ok r, w')
    ∧ w_committed w' = w_db w' ∧ mr_claims_transferred r = Z.of_nat (length pairs)
    ∧ merge_outcome source target
        (upd_events <[source := EventRepo.set_merged target es]> (w_db w)) pairs (w_db w').
Proof.
  intros Hq H1 Hk Hck Hf Hne Hs Ht Hus Hut.
  set (db1 := upd_events <[source := EventRepo.set_merged target es]> (w_db w)).
  destruct (absorb_quiet source target resolved_by note review_id Hne (set_db db1 w))
    as (r & pairs & w' & E & Hc & Hn & Ho); [exact Hq|exact H1|exact Hk|exact Hck| |].
  { by destruct Hf; constructor. }
  exists r, w', pairs. split_and!; [|done|done|exact Ho].
  assert (Hget : ∀ k, EventRepo.get k w = (Ok (db_events (w_db w) !! k), w))
    by (intros k; by apply query_quiet).
  unfold MergeDuplicateEvents.execute. rewrite (proj2 (N.eqb_neq _ _) Hne).
  eapply runs_bind; [apply Hget|]. rewrite Hs. cbn [bool_decide].
  eapply runs_bind; [apply Hget|]. rewrite Ht.
  assert (Hm : ∀ e, ev_merged_into e = None → is_merged e = false)
    by (intros e He; unfold is_merged; by rewrite He).
  assert (Hl : ∃ locked, MergeDuplicateEvents.lock_events source target w = (Ok locked, w)
    ∧ dict_get source locked = Some es ∧ dict_get target locked = Some et).
  { unfold MergeDuplicateEvents.lock_events. eexists. split.
    - apply (map_m_same _ (λ x, (x, if decide (x = source) then es else et))).
      intros x Hx%elem_of_py_sorted. eapply runs_bind; [apply Hget|].
      rewrite elem_of_cons, list_elem_of_singleton in Hx. destruct Hx as [-> | ->].
      + by rewrite Hs, decide_True.
      + by rewrite Ht, decide_False.
    - unfold py_sorted. simpl. destruct (source <=? target)%N; simpl;
        split; repeat case_decide; congruence. }
  destruct Hl as (locked & El & Hls & Hlt).
  eapply runs_bind; [exact El|]. rewrite Hls, Hlt. simpl. rewrite (Hm es Hus), (Hm et Hut).
  eapply runs_bind; [reflexivity|]. eapply runs_bind; [reflexivity|].
  eapply runs_bind; [unfold EventRepo.try_atomic_merge; rewrite stmt_quiet, Hs, (Hm es Hus) by done;
    reflexivity|]. exact E.
Qed.

(** Event 2 repeats event 1 under another source, at another place. *)
Definition sample_twin : Claim :=
  mkClaim 20 2 5 None "location" (PStr "Bergen") RAW 20 None None.
Definition sample_twin_db : DB :=
  upd_claims (λ _, {[ 14%N := sample_claim 14 6 "location" (PStr "Oslo") RAW; 20%N := sample_twin ]})
  (upd_events (λ _, {[ 1%N := mkEvent 1 100 None; 2%N := mkEvent 2 200 None ]}) empty_db).

Lemma sample_twin_claims k c :
  db_claims sample_twin_db !! k = Some c → c_id c = k ∧ (k < 1000)%N.
Proof.
  change (db_claims sample_twin_db) with ({[ 14%N := sample_claim 14 6 "location" (PStr "Oslo") RAW;
    20%N := sample_twin ]} : gmap UUID Claim).
  intros [[<- <-]|[_ [<- <-]%lookup_singleton_Some]]%lookup_insert_Some; by split.
Defined.

Lemma sample_twin_conflicts k c : db_conflicts sample_twin_db !! k ≠ Some c.
Proof. exact (lookup_empty_Some (M := gmap UUID) k c). Defined.

Lemma merge_effect_witness :
  ∃ r w', MergeDuplicateEvents.execute 2 1 9 "same crash" None (world_of sample_twin_db) = (Ok r, w')
    ∧ mr_claims_transferred r = 1 ∧ w_committed w' = w_db w'
    ∧ ∃ pairs, merge_outcome 2 1 (upd_events <[2%N := mkEvent 2 200 (Some 1%N)]> sample_twin_db)
        pairs (w_db w').
Proof.
  destruct (merge_effect 2 1 9 "same crash" None (world_of sample_twin_db) (mkEvent 2 200 None)
    (mkEvent 1 100 None)) as (r & w' & pairs & E & Hc & _ & Ho); try reflexivity.
  - intros e f k1 k2 c1 c2 H1. by destruct (sample_twin_conflicts k1 c1).
  - intros k c Hc. by apply sample_twin_claims.
  - intros k c H1. by destruct (sample_twin_conflicts k c).
  - split.
    + intros k c Hc. by apply (sample_twin_claims k c).
    + intros k c H1. by destruct (sample_twin_conflicts k c).
    + intros k o Ho. by apply (lookup_empty_Some (M := gmap UUID) k o) in Ho.
  - discriminate.
  - exists r, w'. split; [exact E|]. split; [|split; [exact Hc|exists pairs; exact Ho]].
    vm_compute in E. by injection E as <- _.
Defined.
