(* ===== verification/Outbox.v ===== *)
(** The outbox: leasing, fencing, retries with backoff, stale-lock recovery and the
    worker that processes the events
    (src/src/atlas/infrastructure/db/repositories/outbox.py,
    src/src/atlas/infrastructure/event_bus/outbox_worker.py).

    An event moves PENDING or FAILED -> PROCESSING (a lease: worker and attempt
    number) -> PROCESSED, FAILED, DEAD_LETTER or, swept as stale, PENDING again.
    The cross-reference jobs of tenants (ECHO_CROSSREF_REQUESTED) run in units of
    work of other databases: what they do is an argument of the worker here. *)
From Stdlib Require Import Ascii.
From S2P Require Import Prelude Text PyFloat PyVal PyDate Entities Store Json Logic Conflicts.
From S2P Require Import Projection Reproject Resolution.
Open Scope string_scope.
Open Scope list_scope.
Open Scope Z_scope.

(** ** SqlOutboxRepository *)
Module OutboxQueue.
(** ORDER BY created_at, id *)
Definition oldest_first (x y : OutboxEvent) : bool :=
  (ob_created_at x <? ob_created_at y)
  || ((ob_created_at x =? ob_created_at y) && (ob_id x <=? ob_id y)%N).

(** ORDER BY next_attempt_at NULLS FIRST, created_at, id *)
Definition due_first (x y : OutboxEvent) : bool :=
  match ob_next_attempt_at x, ob_next_attempt_at y with
  | None, None => oldest_first x y
  | None, Some _ => true
  | Some _, None => false
  | Some a, Some b => (a <? b) || ((a =? b) && oldest_first x y)
  end.

(** The UPDATE of [fetch_and_lock_pending]. *)
Definition lease (worker : string) (now : datetime) (o : OutboxEvent) : OutboxEvent :=
  mkOutbox (ob_id o) (ob_event_type o) (ob_aggregate_id o) (ob_payload o) OB_PROCESSING
    (ob_attempt_count o + 1) (Some now) (Some worker) (ob_last_error o) (ob_next_attempt_at o)
    (ob_created_at o) (ob_processed_at o).

(** A FAILED row whose retry budget and time allow another attempt. *)
Definition due (max_attempts : Z) (now : datetime) (o : OutboxEvent) : bool :=
  (ob_attempt_count o <? max_attempts)
  && match ob_next_attempt_at o with Some t => t <=? now | None => true end.

(** Rows with their primary keys. [skipped] are the rows other transactions hold
    locked (SKIP LOCKED). *)
Definition pending_candidates (skipped : UUID → bool) (limit : nat) (db : DB)
    : list (UUID * OutboxEvent) :=
  take limit (py_sorted (λ x y, oldest_first x.2 y.2)
    (filter (λ kv, ob_status kv.2 = OB_PENDING ∧ skipped kv.1 = false)
       (map_to_list (db_outbox db)))).

Definition failed_candidates (skipped : UUID → bool) (limit : nat) (max_attempts : Z)
    (now : datetime) (db : DB) : list (UUID * OutboxEvent) :=
  take limit (py_sorted (λ x y, due_first x.2 y.2)
    (filter (λ kv, ob_status kv.2 = OB_FAILED ∧ skipped kv.1 = false
                   ∧ due max_attempts now kv.2 = true) (map_to_list (db_outbox db)))).

Definition selected (skipped : UUID → bool) (limit : nat) (max_attempts : Z) (now : datetime)
    (db : DB) : list UUID :=
  (take limit (py_sorted (λ x y, oldest_first x.2 y.2)
     (pending_candidates skipped limit db
      ++ failed_candidates skipped limit max_attempts now db))).*1.

Definition fetch_and_lock_pending (skipped : UUID → bool) (limit : nat) (worker : string)
    (max_attempts : Z) : M (list OutboxEvent) :=
  now ← utc_now;
  stmt (λ db,
    let ids := selected skipped limit max_attempts now db in
    (Ok (lease worker now <$> (filter (λ kv, kv.1 ∈ ids) (map_to_list (db_outbox db))).*2),
     upd_outbox (update_where (λ k _, bool_decide (k ∈ ids)) (lease worker now)) db)).

(** The columns [update_status] sets. *)
Definition set_status (status : OutboxStatus) (attempt_count : Z) (last_error : option string)
    (next_attempt_at : option datetime) (now : datetime) (o : OutboxEvent) : OutboxEvent :=
  mkOutbox (ob_id o) (ob_event_type o) (ob_aggregate_id o) (ob_payload o) status attempt_count
    None None last_error next_attempt_at (ob_created_at o)
    (if bool_decide (status = OB_PROCESSED) then Some now else ob_processed_at o).

(** The fence: the row is still leased to this worker for this attempt. *)
Definition leased (worker : string) (attempt : Z) (o : OutboxEvent) : Prop :=
  ob_status o = OB_PROCESSING ∧ ob_locked_by o = Some worker ∧ ob_attempt_count o = attempt.
#[export] Instance leased_dec w n o : Decision (leased w n o).
Proof. unfold leased. apply _. Defined.

Definition update_status (event_id : UUID) (status : OutboxStatus) (attempt_count : Z)
    (last_error : option string) (next_attempt_at : option datetime)
    (expected : option (string * Z)) : M bool :=
  now ← utc_now;
  stmt (λ db,
    match db_outbox db !! event_id with
    | Some o =>
        if match expected with
           | Some (worker, attempt) => bool_decide (leased worker attempt o)
           | None => true
           end
        then (Ok true, upd_outbox
                <[event_id := set_status status attempt_count last_error next_attempt_at now o]> db)
        else (Ok false, db)
    | None => (Ok false, db)
    end).

Definition minute_us : Z := 60 * second_us.

Definition stale (cutoff : datetime) (o : OutboxEvent) : bool :=
  bool_decide (ob_status o = OB_PROCESSING)
  && match ob_locked_at o with Some t => t <? cutoff | None => false end.

Definition unlock (status : OutboxStatus) (last_error : option string) (o : OutboxEvent)
    : OutboxEvent :=
  mkOutbox (ob_id o) (ob_event_type o) (ob_aggregate_id o) (ob_payload o) status
    (ob_attempt_count o) None None last_error None (ob_created_at o) (ob_processed_at o).

Definition requeued (o : OutboxEvent) : OutboxEvent := unlock OB_PENDING (ob_last_error o) o.
Definition deadlettered (suffix : string) (o : OutboxEvent) : OutboxEvent :=
  unlock OB_DEAD_LETTER (Some (default "" (ob_last_error o) +:+ suffix)) o.

Definition requeue_stale_locked_with_dead_letters (stale_after_minutes max_attempts : Z)
    : M (Z * list OutboxEvent) :=
  t0 ← utc_now;
  let cutoff := t0 - stale_after_minutes * minute_us in
  n ← stmt (λ db,
    let hit o := stale cutoff o && (ob_attempt_count o <? max_attempts) in
    (Ok (Z.of_nat (length (filter (λ o, hit o = true) (rows (db_outbox db))))),
     upd_outbox (update_where (λ _ o, hit o) requeued) db));
  t1 ← utc_now;
  let suffix := " [stale lock dead-lettered at " +:+ datetime_iso t1 +:+ "]" in
  dead ← stmt (λ db,
    let hit o := stale cutoff o && (max_attempts <=? ob_attempt_count o) in
    (Ok (deadlettered suffix <$> filter (λ o, hit o = true) (rows (db_outbox db))),
     upd_outbox (update_where (λ _ o, hit o) (deadlettered suffix)) db));
  mret (n + Z.of_nat (length dead), dead).
End OutboxQueue.

(** ** OutboxWorker *)
Module OutboxWorker.
Section worker.
Context `{Hashlib} (worker_id : string) (max_attempts stale_lock_minutes : Z)
  (** Stand-ins for what is not part of this component: the cross-reference job of
      a tenant event, the text of an exception, the rows locked by others. *)
  (run_echo : OutboxEvent → M unit) (fail_echo : OutboxEvent → string → M unit)
  (str_exn : exn → string) (skipped : UUID → bool).

Definition MAX_BACKOFF_SECONDS : Z := 1800.

(** _next_attempt_at *)
Definition backoff (attempt_count : Z) : Z := Z.min (2 ^ attempt_count) MAX_BACKOFF_SECONDS.
Definition next_attempt_at (attempt_count : Z) (now : datetime) : datetime :=
  now + backoff attempt_count * second_us.

(** Every write of the worker is fenced by its lease. *)
Definition settle (event : OutboxEvent) (status : OutboxStatus) (last_error : option string)
    (next_at : option datetime) : M bool :=
  OutboxQueue.update_status (ob_id event) status (ob_attempt_count event) last_error next_at
    (Some (worker_id, ob_attempt_count event)).

Definition payload_uuid (event : OutboxEvent) (k : string) : M UUID :=
  match dict_get k (ob_payload event) with
  | Some (PStr s) => match uuid_of_str s with
                     | Some u => mret u
                     | None => raise (ValueError "badly formed hexadecimal UUID string")
                     end
  | _ => raise (RuntimeError "KeyError")
  end.

(** [UUID(x) if x else None] for [x = payload.get(k)] *)
Definition payload_uuid_opt (event : OutboxEvent) (k : string) : M (option UUID) :=
  match dict_get k (ob_payload event) with
  | Some v => if py_truthy v then u ← payload_uuid event k; mret (Some u) else mret None
  | None => mret None
  end.

(** The CLAIMS_UPDATED branch of _process_event. *)
Definition process_claims_updated (event : OutboxEvent) : M bool :=
  event_id ← payload_uuid event "event_id";
  existing ← ProjectionHistoryRepo.find_by_outbox_event (ob_id event);
  acknowledged ← match existing with
                 | Some _ => row ← EventRepo.get event_id;
                             mret (match row with Some e => negb (is_merged e) | None => true end)
                 | None => mret false
                 end;
  if (acknowledged : bool) then settle event OB_PROCESSED None None else
  ingestion_run_id ← payload_uuid_opt event "ingestion_run_id";
  _ ← ReProjectEvent.execute event_id
        (ReProjectEvent.mkCause None ingestion_run_id (Some (ob_id event))) false false;
  settle event OB_PROCESSED None None.

(** _process_event *)
Definition process_event (event : OutboxEvent) : M bool :=
  if String.eqb (ob_event_type event) "ECHO_CROSSREF_REQUESTED" then
    run_echo event;; settle event OB_PROCESSED None None
  else if negb (String.eqb (ob_event_type event) "CLAIMS_UPDATED") then
    settle event OB_DEAD_LETTER (Some ("Unknown event type: " +:+ ob_event_type event)) None
  else process_claims_updated event.

(** _mark_failed *)
Definition mark_failed (event : OutboxEvent) (error : string) : M unit :=
  let exhausted := max_attempts <=? ob_attempt_count event in
  now ← utc_now;
  applied ← with_uow (
    applied ← settle event (if exhausted then OB_DEAD_LETTER else OB_FAILED) (Some error)
      (if exhausted then None else Some (next_attempt_at (ob_attempt_count event) now));
    (if (applied : bool) then commit else rollback);;
    mret applied);
  when (applied && exhausted && String.eqb (ob_event_type event) "ECHO_CROSSREF_REQUESTED")
    (fail_echo event error).

(** One iteration of the loop of [process_batch], the [try] included. *)
Definition handle_one (event : OutboxEvent) : M bool :=
  catch (with_uow (
           succeeded ← process_event event;
           (if (succeeded : bool) then commit else rollback);;
           mret succeeded))
    (λ e, mark_failed event (str_exn e);; mret false).

Fixpoint handle_all (events : list OutboxEvent) : M nat :=
  match events with
  | [] => mret 0%nat
  | e :: rest => ok ← handle_one e; n ← handle_all rest; mret (if ok : bool then S n else n)
  end.

Definition process_batch (limit : nat) : M nat :=
  events ← with_uow (
    events ← OutboxQueue.fetch_and_lock_pending skipped limit worker_id max_attempts;
    commit;; mret events);
  handle_all events.

Definition recover_stale_locks : M Z :=
  '(count, dead) ← with_uow (
    out ← OutboxQueue.requeue_stale_locked_with_dead_letters stale_lock_minutes max_attempts;
    commit;; mret out);
  for_each dead (λ o, when (String.eqb (ob_event_type o) "ECHO_CROSSREF_REQUESTED")
    (fail_echo o "Outbox event was dead-lettered during stale-lock recovery after exhausting retry attempts."));;
  mret count.
End worker.
End OutboxWorker.

(** ** The life of one event *)
Definition same_event (o o' : OutboxEvent) : Prop :=
  ob_id o' = ob_id o ∧ ob_event_type o' = ob_event_type o
  ∧ ob_aggregate_id o' = ob_aggregate_id o ∧ ob_payload o' = ob_payload o
  ∧ ob_created_at o' = ob_created_at o.

Definition waiting (o : OutboxEvent) : Prop := ob_status o = OB_PENDING ∨ ob_status o = OB_FAILED.
Definition terminal (o : OutboxEvent) : Prop :=
  ob_status o = OB_PROCESSED ∨ ob_status o = OB_DEAD_LETTER.

(** The transitions: take a lease for one more attempt, or end the attempt. *)
Inductive advance (budget : Z) (o : OutboxEvent) : OutboxEvent → Prop :=
  | adv_lease worker now : waiting o → advance budget o (OutboxQueue.lease worker now o)
  | adv_end o' :
      ob_status o = OB_PROCESSING → ob_status o' ≠ OB_PROCESSING → same_event o o' →
      ob_attempt_count o' = ob_attempt_count o → ob_locked_by o' = None →
      (waiting o' → ob_attempt_count o' < budget) → advance budget o o'.

(** A statement moves each row by at most one transition. *)
Definition row_moves (budget : Z) (m m' : gmap UUID OutboxEvent) : Prop :=
  ∀ k, match m !! k, m' !! k with
       | Some o, Some o' => o' = o ∨ advance budget o o'
       | None, None => True
       | _, _ => False
       end.

(** What any number of transitions amounts to. *)
Record progress (o o' : OutboxEvent) : Prop := mkProgress {
  pr_event : same_event o o';
  pr_attempts : ob_attempt_count o ≤ ob_attempt_count o';
  pr_final : terminal o → o' = o;
  pr_lease : ob_status o' = OB_PROCESSING → o' = o ∨ ob_attempt_count o < ob_attempt_count o';
}.

Definition within_budget (budget : Z) (o : OutboxEvent) : Prop :=
  0 ≤ ob_attempt_count o ≤ budget ∧ (waiting o → ob_attempt_count o < budget).

Section life.
Context (budget : Z).

#[export] Instance progress_preorder : PreOrder progress.
Proof.
  split.
  - intros o. split; [by split_and!|lia|done|by left].
  - intros o o1 o2 [E1 A1 F1 L1] [E2 A2 F2 L2]. split.
    + unfold same_event in *. intuition congruence.
    + lia.
    + intros Ht. pose proof (F1 Ht) as ->. by apply F2.
    + intros Hp. destruct (L2 Hp) as [->|?]; [|right; lia]. by apply L1.
Qed.

Lemma advance_progress o o' : advance budget o o' → progress o o'.
Proof.
  intros [w t Hw|o1 Hp Hn He Ha _ _].
  - split; simpl; [by split_and!|lia| |right; lia].
    intros [Ht|Ht]; destruct Hw; congruence.
  - split; [done|lia| |done]. intros [Ht|Ht]; congruence.
Qed.

Lemma advance_budget o o' : within_budget budget o → advance budget o o' → within_budget budget o'.
Proof.
  intros [Hb Hw] [w t Hw'|o1 Hp Hn He Ha _ Hb'].
  - specialize (Hw Hw'). split; simpl; [lia|]. by intros [?|?].
  - split; [lia|done].
Qed.

Lemma row_moves_refl m : row_moves budget m m.
Proof. intros k. destruct (m !! k); [by left|done]. Qed.

Lemma row_moves_update p f m :
  (∀ k o, m !! k = Some o → p k o = true → advance budget o (f o)) →
  row_moves budget m (update_where p f m).
Proof.
  intros Hf k. rewrite lookup_update_where. destruct (m !! k) as [o|] eqn:E; [|done]. simpl.
  destruct (p k o) eqn:Ep; [right; by apply (Hf k)|by left].
Qed.

Lemma row_moves_insert m k o o' :
  m !! k = Some o → advance budget o o' → row_moves budget m (<[k := o']> m).
Proof.
  intros Hk Ha k'. destruct (decide (k = k')) as [<-|Hne].
  - rewrite Hk, lookup_insert_eq. by right.
  - rewrite lookup_insert_ne by done. apply row_moves_refl.
Qed.

(** ** The statements of the queue *)
Lemma selected_waiting skipped limit now db k :
  k ∈ OutboxQueue.selected skipped limit budget now db →
  ∃ o, db_outbox db !! k = Some o ∧ waiting o ∧ skipped k = false
    ∧ (ob_status o = OB_FAILED → OutboxQueue.due budget now o = true).
Proof.
  unfold OutboxQueue.selected. intros ([k' o] & -> & Hin)%list_elem_of_fmap.
  apply elem_of_take in Hin as (i & Hi & _). apply list_elem_of_lookup_2 in Hi.
  rewrite elem_of_py_sorted, elem_of_app in Hi.
  assert (Hsub : ∀ {A} (x : A) n l, x ∈ take n l → x ∈ l).
  { intros A x n l (j & Hj & _)%elem_of_take. by eapply list_elem_of_lookup_2. }
  exists o. destruct Hi as [Hi|Hi]; apply Hsub in Hi; rewrite elem_of_py_sorted in Hi;
    apply list_elem_of_filter in Hi as [Hc Hi]; apply elem_of_map_to_list in Hi; simpl in *.
  - destruct Hc as [Hc Hs]. split_and!; [done|by left|done|congruence].
  - destruct Hc as (Hc & Hs & Hd). split_and!; [done|by right|done|done].
Qed.

(** Run alone, a fetch returns rows it leased. *)
Lemma fetch_leases skipped limit worker w es w' e :
  quiet w → (∀ k o, db_outbox (w_db w) !! k = Some o → ob_id o = k) →
  OutboxQueue.fetch_and_lock_pending skipped limit worker budget w = (Ok es, w') → e ∈ es →
  quiet w' ∧ db_outbox (w_db w') !! ob_id e = Some e
  ∧ ∃ o, db_outbox (w_db w) !! ob_id e = Some o ∧ e = OutboxQueue.lease worker (w_now w) o.
Proof.
  destruct w as [db com env now u]. intros Hq Hk. unfold quiet in Hq. simpl in Hq. subst env.
  intros [= <- <-] Hin. simpl in *.
  apply list_elem_of_fmap in Hin as (o & -> & ([k o'] & -> & Hin)%list_elem_of_fmap).
  apply list_elem_of_filter in Hin as [Hs Hin%elem_of_map_to_list]. simpl in *.
  rewrite (Hk k o' Hin). split_and!; [done| |by exists o'].
  rewrite lookup_update_where, Hin. simpl. by rewrite bool_decide_true.
Qed.

Lemma fetch_moves skipped limit worker now db :
  row_moves budget (db_outbox db) (update_where
    (λ k _, bool_decide (k ∈ OutboxQueue.selected skipped limit budget now db))
    (OutboxQueue.lease worker now) (db_outbox db)).
Proof.
  apply row_moves_update. intros k o Hk Hs%bool_decide_eq_true.
  apply selected_waiting in Hs as (o' & Hk' & Hw & _). apply adv_lease. congruence.
Qed.

Lemma settle_moves o status n err next now worker :
  status ≠ OB_PROCESSING → (status = OB_PENDING ∨ status = OB_FAILED → n < budget) →
  OutboxQueue.leased worker n o →
  advance budget o (OutboxQueue.set_status status n err next now o).
Proof.
  intros Hs Hb (Hp & _ & Ha). by apply adv_end.
Qed.

Lemma requeue_moves cutoff m :
  row_moves budget m (update_where
    (λ _ o, OutboxQueue.stale cutoff o && (ob_attempt_count o <? budget)) OutboxQueue.requeued m).
Proof.
  apply row_moves_update. intros k o _ [Hs Ha]%andb_true_iff.
  apply andb_true_iff in Hs as [Hs%bool_decide_eq_true _]. apply adv_end; try done.
  intros _. simpl. lia.
Qed.

Lemma deadletter_moves cutoff suffix m :
  row_moves budget m (update_where
    (λ _ o, OutboxQueue.stale cutoff o && (budget <=? ob_attempt_count o))
    (OutboxQueue.deadlettered suffix) m).
Proof.
  apply row_moves_update. intros k o _ [Hs Ha]%andb_true_iff.
  apply andb_true_iff in Hs as [Hs%bool_decide_eq_true _]. apply adv_end; try done.
  intros [?|?]; discriminate.
Qed.
End life.

(** ** A batch, run alone *)
Section batch.
Import OutboxWorker.
Context `{Hashlib} (worker : string) (max_attempts : Z)
  (run_echo : OutboxEvent → M unit) (fail_echo : OutboxEvent → string → M unit)
  (str_exn : exn → string) (skipped : UUID → bool)
  (echo_elsewhere : ∀ o w, (run_echo o w).2 = w)
  (fail_elsewhere : ∀ o s w, fail_echo o s w = (Ok tt, w)).

(** The attempt ended: processed, given up, or to be retried after the backoff. *)
Definition ended (t0 t1 : datetime) (o o' : OutboxEvent) : Prop :=
  same_event o o' ∧ ob_attempt_count o' = ob_attempt_count o ∧ ob_locked_by o' = None
  ∧ (terminal o'
     ∨ ob_status o' = OB_FAILED ∧ ob_attempt_count o < max_attempts
       ∧ ∃ t, t0 ≤ t < t1 ∧ ob_next_attempt_at o' = Some (next_attempt_at (ob_attempt_count o) t)).

(** Between two worlds of a unit of work only the row of one event changed. *)
Definition only_row (k : UUID) (db db' : DB) : Prop :=
  ∀ k', k' ≠ k → db_outbox db' !! k' = db_outbox db !! k'.

Lemma settle_row_quiet e r status err next w :
  quiet w → db_outbox (w_db w) !! ob_id e = Some r →
  OutboxQueue.leased worker (ob_attempt_count e) r →
  settle worker e status err next w
  = (Ok true, mkWorld (upd_outbox <[ob_id e :=
      OutboxQueue.set_status status (ob_attempt_count e) err next (w_now w) r]> (w_db w))
      (w_committed w) [] (w_now w + 1) (w_uuid w)).
Proof.
  destruct w as [db com env now u]. intros Hq Hr Hl. unfold quiet in Hq. simpl in *. subst env.
  unfold settle, OutboxQueue.update_status, utc_now, stmt, mbind, M_bind. simpl.
  by rewrite Hr, bool_decide_true.
Qed.

(** What precedes the last statement of [process_event] leaves the queue alone. *)
Definition prelude_ok {A} (m : M A) : Prop := ∀ w, quiet w → quiet (m w).2
  ∧ w_committed (m w).2 = w_committed w ∧ w_now w ≤ w_now (m w).2
  ∧ (is_ok (m w).1 → db_outbox (w_db (m w).2) = db_outbox (w_db w)).

Lemma prelude_bind {A B} (m : M A) (f : A → M B) :
  prelude_ok m → (∀ a, prelude_ok (f a)) → prelude_ok (x ← m; f x).
Proof.
  intros Hm Hf w Hq. unfold mbind, M_bind. destruct (Hm w Hq) as (Q & C & N & D).
  destruct (m w) as [[a|e] w1]; [|done]. simpl in *. destruct (Hf a w1 Q) as (Q' & C' & N' & D').
  split_and!; [done|congruence|lia|]. intros Hok. by rewrite D', D.
Qed.

Lemma prelude_ret {A} (a : A) : prelude_ok (mret a).
Proof. intros w Hq. split_and!; try done. Qed.
Lemma prelude_raise {A} e : prelude_ok (raise (A := A) e).
Proof. intros w Hq. split_and!; try done. Qed.
Lemma prelude_query {A} (f : DB → A) : prelude_ok (query f).
Proof. intros w Hq. rewrite query_quiet by done. split_and!; try done. Qed.
Lemma prelude_scalar {A} (f : DB → list A) : prelude_ok (scalar_query f).
Proof.
  intros w Hq. unfold scalar_query. rewrite stmt_quiet by done.
  destruct (scalar_one_or_none _); rewrite ?set_db_same; split_and!; try done.
Qed.

Lemma prelude_reproject e cause force : prelude_ok (ReProjectEvent.execute e cause false force).
Proof.
  intros w Hq. destruct (proj1 (execute_NoCommit e cause force) w) as ((fs & Ef & Ec) & Hn & _).
  unfold quiet in *. rewrite Hq in Ef. symmetry in Ef. apply app_nil in Ef as [-> Hq'].
  split_and!; try done. destruct (ReProjectEvent.execute e cause false force w) as [[dto|x] w'] eqn:E;
    [|done]. intros _. apply execute_frame in E as [_ E]; [|done]. simpl. by rewrite E.
Qed.

(** A program that ends with the fenced update of [e] to a terminal status. *)
Definition concludes (e : OutboxEvent) (m : M bool) : Prop := ∀ w r,
  quiet w → db_outbox (w_db w) !! ob_id e = Some r →
  OutboxQueue.leased worker (ob_attempt_count e) r →
  quiet (m w).2 ∧ w_committed (m w).2 = w_committed w ∧ w_now w ≤ w_now (m w).2
  ∧ ∀ b, (m w).1 = Ok b → b = true ∧ ∃ o',
      db_outbox (w_db (m w).2) = <[ob_id e := o']> (db_outbox (w_db w))
      ∧ terminal o' ∧ same_event r o' ∧ ob_attempt_count o' = ob_attempt_count r
      ∧ ob_locked_by o' = None.

Lemma concludes_settle e st err :
  st = OB_PROCESSED ∨ st = OB_DEAD_LETTER → concludes e (settle worker e st err None).
Proof.
  intros Hst w r Hq Hr Hl. rewrite (settle_row_quiet e r) by done. simpl. split_and!; [done|done|lia|].
  intros b [= <-]. split; [done|]. eexists. split_and!; [done|done|by split_and!| |done].
  by destruct Hl as (_ & _ & ->).
Qed.

Lemma concludes_bind {A} e (m : M A) (f : A → M bool) :
  prelude_ok m → (∀ a, concludes e (f a)) → concludes e (x ← m; f x).
Proof.
  intros Hm Hf w r Hq Hr Hl. unfold mbind, M_bind. destruct (Hm w Hq) as (Q & C & N & D).
  destruct (m w) as [[a|x] w1]; [|by split_and!]. simpl in *.
  destruct (Hf a w1 r Q) as (Q' & C' & N' & D'); [by rewrite D|done|].
  split_and!; [done|congruence|lia|]. by rewrite <- D.
Qed.

Lemma process_event_concludes e : concludes e (process_event worker run_echo e).
Proof using echo_elsewhere.
  pose proof (λ err, concludes_settle e OB_PROCESSED err (or_introl eq_refl)) as Hp.
  assert (He : prelude_ok (run_echo e)).
  { intros w Hq. pose proof (echo_elsewhere e w) as E. rewrite E. by split_and!. }
  assert (Hu : ∀ k, prelude_ok (payload_uuid e k)).
  { intros k. unfold payload_uuid. destruct (dict_get k (ob_payload e)) as [[]|];
      try apply prelude_raise. destruct (uuid_of_str _); [apply prelude_ret|apply prelude_raise]. }
  unfold process_event. destruct (String.eqb _ _); [by apply concludes_bind|].
  destruct (negb _); [apply concludes_settle; by right|]. unfold process_claims_updated.
  apply concludes_bind; [done|]. intros event_id.
  apply concludes_bind; [apply prelude_scalar|]. intros existing.
  apply concludes_bind.
  { destruct existing; [|apply prelude_ret]. apply prelude_bind; [apply prelude_query|].
    intros row. apply prelude_ret. }
  intros [|]; [done|]. apply concludes_bind.
  { unfold payload_uuid_opt. destruct (dict_get _ _) as [v|]; [|apply prelude_ret].
    destruct (py_truthy v); [|apply prelude_ret].
    apply prelude_bind; [done|intros; apply prelude_ret]. }
  intros run_id. apply concludes_bind; [apply prelude_reproject|done].
Qed.

Lemma mark_failed_quiet e r err w :
  quiet w → w_db w = w_committed w → db_outbox (w_db w) !! ob_id e = Some r →
  OutboxQueue.leased worker (ob_attempt_count e) r →
  ∃ w' o', mark_failed worker max_attempts fail_echo e err w = (Ok tt, w') ∧ quiet w'
    ∧ w_db w' = w_committed w' ∧ w_now w ≤ w_now w'
    ∧ db_outbox (w_db w') = <[ob_id e := o']> (db_outbox (w_db w))
    ∧ ended (w_now w) (w_now w') r o'.
Proof using fail_elsewhere.
  destruct w as [db com env now u]. intros Hq Hd Hr Hl. unfold quiet in Hq. simpl in *. subst env com.
  set (ex := max_attempts <=? ob_attempt_count e).
  pose proof (settle_row_quiet e r (if ex then OB_DEAD_LETTER else OB_FAILED) (Some err)
    (if ex then None else Some (next_attempt_at (ob_attempt_count e) now))
    (mkWorld db db [] (now + 1) u) eq_refl Hr Hl) as Es. simpl in Es.
  set (o' := OutboxQueue.set_status _ _ _ _ _ r) in Es.
  set (db' := upd_outbox <[ob_id e := o']> db).
  exists (mkWorld db' db' [] (now + 1 + 1) u), o'. split_and!; try done; simpl; [|lia|].
  - unfold mark_failed. cbv zeta. fold ex. eapply runs_bind; [reflexivity|]. simpl.
    eapply runs_bind.
    { unfold with_uow. erewrite runs_bind; [|exact Es|eapply runs_bind; reflexivity]. reflexivity. }
    unfold rollback_world. simpl. unfold when. destruct (_ && _); [apply fail_elsewhere|done].
  - destruct Hl as (_ & _ & Ha). split_and!; [by split_and!|done|done|].
    subst o' ex. simpl. destruct (max_attempts <=? ob_attempt_count e) eqn:Ex; [left; by right|].
    right. split_and!; [done|lia|]. exists now. split; [lia|]. by rewrite Ha.
Qed.

Lemma handle_one_quiet e r w :
  quiet w → w_db w = w_committed w → db_outbox (w_db w) !! ob_id e = Some r →
  OutboxQueue.leased worker (ob_attempt_count e) r →
  ∃ b w' o', handle_one worker max_attempts run_echo fail_echo str_exn e w = (Ok b, w') ∧ quiet w'
    ∧ w_db w' = w_committed w' ∧ w_now w ≤ w_now w'
    ∧ db_outbox (w_db w') = <[ob_id e := o']> (db_outbox (w_db w))
    ∧ ended (w_now w) (w_now w') r o'.
Proof using echo_elsewhere fail_elsewhere.
  intros Hq Hd Hr Hl. unfold handle_one, catch, with_uow.
  destruct (process_event_concludes e w r Hq Hr Hl) as (Q & C & N & D).
  destruct (process_event worker run_echo e w) as [[b|x] w1] eqn:E; simpl in *.
  - destruct (D b eq_refl) as (-> & o' & Ho & Ht & Hs & Ha & Hlk).
    exists true. unfold mbind at 1, M_bind at 1. rewrite E. simpl. unfold mbind, M_bind. simpl.
    eexists _, o'. split_and!; [reflexivity|done|done|done|done|].
    split_and!; [done|done|done|by left].
  - unfold mbind at 1, M_bind at 1. rewrite E.
    destruct (mark_failed_quiet e r (str_exn x) (rollback_world w1)) as
      (w' & o' & E' & Q' & D' & N' & Ho & Hend); try done; simpl.
    { by rewrite C, <- Hd. }
    exists false, w', o'. split_and!; [by eapply runs_bind|done|done| | |].
    + simpl in N'. lia.
    + rewrite Ho. simpl. by rewrite C, Hd.
    + destruct Hend as (? & ? & ? & [?|(? & ? & t & ? & ?)]); split_and!; try done; [by left|right].
      split_and!; try done. exists t. simpl in *. split; [lia|done].
Qed.

Lemma handle_all_quiet events w :
  quiet w → w_db w = w_committed w → NoDup (ob_id <$> events) →
  (∀ e, e ∈ events → db_outbox (w_db w) !! ob_id e = Some e
                     ∧ OutboxQueue.leased worker (ob_attempt_count e) e) →
  ∃ n w', handle_all worker max_attempts run_echo fail_echo str_exn events w = (Ok n, w')
    ∧ quiet w' ∧ w_db w' = w_committed w' ∧ w_now w ≤ w_now w'
    ∧ (∀ e, e ∈ events → ∃ o', db_outbox (w_db w') !! ob_id e = Some o'
                               ∧ ended (w_now w) (w_now w') e o')
    ∧ (∀ k, k ∉ ob_id <$> events → db_outbox (w_db w') !! k = db_outbox (w_db w) !! k).
Proof using echo_elsewhere fail_elsewhere.
  revert w. induction events as [|e events IH]; intros w Hq Hd Hnd Hl.
  { exists 0%nat, w. split_and!; try done. by intros e ?%elem_of_nil. }
  apply NoDup_cons in Hnd as [Hn Hnd]. destruct (Hl e) as [Hr Hle]; [by left|].
  destruct (handle_one_quiet e e w Hq Hd Hr Hle) as (b & w1 & o1 & E1 & Q1 & D1 & N1 & Ho1 & End1).
  destruct (IH w1) as (n & w2 & E2 & Q2 & D2 & N2 & Hall & Hrest); try done.
  { intros e' He'. rewrite Ho1, lookup_insert_ne; [apply Hl; by right|].
    intros E. apply Hn. rewrite E. by apply list_elem_of_fmap_2. }
  eexists _, w2. split_and!; [simpl; eapply runs_bind; [exact E1|]; by eapply runs_bind
    |done|done|lia| |].
  - assert (Hwide : ∀ t0 t1 r o, ended t0 t1 r o → w_now w ≤ t0 → t1 ≤ w_now w2 →
      ended (w_now w) (w_now w2) r o).
    { intros t0 t1 r o (? & ? & ? & [?|(? & ? & t & ? & ?)]) ? ?; split_and!; try done;
        [by left|right]. split_and!; try done. exists t. split; [lia|done]. }
    intros e' [->|He']%elem_of_cons.
    + exists o1. split; [rewrite Hrest by done; by rewrite Ho1, lookup_insert_eq|].
      eapply Hwide; [exact End1|lia|lia].
    + destruct (Hall e' He') as (o' & Ho' & End'). exists o'. split; [done|].
      eapply Hwide; [exact End'|lia|lia].
  - intros k. rewrite fmap_cons, not_elem_of_cons. intros [Hne Hk].
    rewrite Hrest by done. by rewrite Ho1, lookup_insert_ne.
Qed.

(** The rows an attempt is due for, and how many of them a batch takes. *)
Definition eligible (now : datetime) (kv : UUID * OutboxEvent) : Prop :=
  skipped kv.1 = false
  ∧ (ob_status kv.2 = OB_PENDING
     ∨ ob_status kv.2 = OB_FAILED ∧ OutboxQueue.due max_attempts now kv.2 = true).
#[export] Instance eligible_dec now kv : Decision (eligible now kv).
Proof. unfold eligible. apply _. Defined.

Lemma length_filter_or {A} (P Q R : A → Prop) `{∀ x, Decision (P x), ∀ x, Decision (Q x),
    ∀ x, Decision (R x)} l :
  (∀ x, R x ↔ P x ∨ Q x) → (∀ x, P x → ¬ Q x) →
  (length (filter P l) + length (filter Q l))%nat = length (filter R l).
Proof.
  intros HR Hx. induction l as [|x l IH]; [done|]. rewrite !filter_cons.
  specialize (HR x). specialize (Hx x). repeat case_decide; simpl; naive_solver lia.
Qed.

Lemma length_selected limit now db :
  length (OutboxQueue.selected skipped limit max_attempts now db)
  = Nat.min limit (length (filter (eligible now) (map_to_list (db_outbox db)))).
Proof.
  unfold OutboxQueue.selected. rewrite length_fmap, length_take, length_py_sorted, length_app.
  unfold OutboxQueue.pending_candidates, OutboxQueue.failed_candidates.
  rewrite !length_take, !length_py_sorted.
  match goal with |- context [(limit `min` length ?a + limit `min` length ?b)%nat] =>
    assert (E : (length a + length b)%nat
      = length (filter (eligible now) (map_to_list (db_outbox db)))) end; [|lia].
  apply length_filter_or.
  - intros kv. unfold eligible. naive_solver.
  - intros kv [H1 _] [H2 _]. congruence.
Qed.
End batch.

(** ** Properties *)

(** C12: a batch of an outbox worker, run alone, takes as many of the due events as
    the limit allows, and ends the attempt of every event it took, whatever the
    processing did: the event is PROCESSED or DEAD_LETTER, or it is FAILED with
    budget left and a retry time backed off by the attempt number; exactly one
    attempt was counted, no lease is left behind, everything is published, and
    no other event changed. *)
Theorem batch_ends_attempts `{Hashlib} worker max_attempts run_echo fail_echo str_exn skipped
    limit w :
  (∀ o w, (run_echo o w).2 = w) → (∀ o s w, fail_echo o s w = (Ok tt, w)) →
  quiet w → w_db w = w_committed w → (∀ k o, db_outbox (w_db w) !! k = Some o → ob_id o = k) →
  let taken := OutboxQueue.selected skipped limit max_attempts (w_now w) (w_db w) in
  length taken = Nat.min limit
    (length (filter (eligible max_attempts skipped (w_now w)) (map_to_list (db_outbox (w_db w)))))
  ∧ ∃ n w', OutboxWorker.process_batch worker max_attempts run_echo fail_echo str_exn skipped limit w
      = (Ok n, w') ∧ w_db w' = w_committed w'
    ∧ (∀ k, k ∈ taken → ∃ o o', db_outbox (w_db w) !! k = Some o ∧ waiting o
         ∧ db_outbox (w_db w') !! k = Some o'
         ∧ ended max_attempts (w_now w) (w_now w') (OutboxQueue.lease worker (w_now w) o) o')
    ∧ (∀ k, k ∉ taken → db_outbox (w_db w') !! k = db_outbox (w_db w) !! k).
Proof.
  intros He Hf Hq Hd Hk taken. split; [apply length_selected|].
  destruct w as [db com env now u]. unfold quiet in Hq. simpl in *. subst env com.
  set (leases := OutboxQueue.lease worker now
    <$> (filter (λ kv, kv.1 ∈ taken) (map_to_list (db_outbox db))).*2).
  set (m := update_where (λ k _, bool_decide (k ∈ taken)) (OutboxQueue.lease worker now) (db_outbox db)).
  set (db1 := upd_outbox (λ _, m) db).
  assert (Hin : ∀ e, e ∈ leases ↔ ∃ k o, k ∈ taken ∧ db_outbox db !! k = Some o
    ∧ e = OutboxQueue.lease worker now o).
  { intros e. unfold leases. rewrite list_elem_of_fmap. setoid_rewrite list_elem_of_fmap.
    setoid_rewrite list_elem_of_filter. split.
    - intros (o & -> & [k o'] & -> & Ht & Hin%elem_of_map_to_list). by exists k, o'.
    - intros (k & o & Ht & Ho & ->). exists o. split; [done|]. exists (k, o).
      split_and!; [done|done|by apply elem_of_map_to_list]. }
  assert (Hids : ob_id <$> leases = (filter (λ kv, kv.1 ∈ taken) (map_to_list (db_outbox db))).*1).
  { unfold leases. rewrite <- !list_fmap_compose. apply list_fmap_ext. intros i [k o] Hi.
    apply list_elem_of_lookup_2, list_elem_of_filter in Hi as [_ Hi]. by apply Hk, elem_of_map_to_list. }
  destruct (handle_all_quiet worker max_attempts run_echo fail_echo str_exn He Hf leases
    (mkWorld db1 db1 [] (now + 1) u)) as (n & w' & E & Q & D & N & Hall & Hrest); try done; simpl.
  { rewrite Hids. apply NoDup_fst_filter, NoDup_fst_map_to_list. }
  { intros e (k & o & Ht & Ho & ->)%Hin. simpl. rewrite (Hk k o Ho). split; [|done].
    unfold m. rewrite lookup_update_where, Ho. simpl. by rewrite bool_decide_true. }
  exists n, w'. split_and!; [eapply runs_bind; [reflexivity|exact E]|done| |].
  - intros k Ht. destruct (selected_waiting max_attempts _ _ _ _ _ Ht) as (o & Ho & Hw & _).
    destruct (Hall (OutboxQueue.lease worker now o)) as (o' & Ho' & Hend); [apply Hin; eauto|].
    exists o, o'. simpl in Ho'. rewrite (Hk k o Ho) in Ho'. split_and!; try done.
    destruct Hend as (? & ? & ? & [?|(? & ? & t & ? & ?)]); split_and!; try done; [by left|right].
    split_and!; try done. exists t. simpl in *. split; [lia|done].
  - intros k Ht. rewrite Hrest.
    + simpl. unfold m. rewrite lookup_update_where, bool_decide_false by done. by destruct (_ !! k).
    + rewrite Hids. intros ([k' o] & -> & [Hk' _]%list_elem_of_filter)%list_elem_of_fmap. done.
Qed.

(** ** Witnesses *)
Definition sample_queued : OutboxEvent :=
  mkOutbox 90 "CLAIMS_UPDATED" 1 [("event_id", PStr (uuid_str 1))] OB_PENDING 0 None None None None
    500 None.
Definition no_job (o : OutboxEvent) : M unit := mret ().
Definition sample_queue_db : DB := upd_outbox (λ _, {[ 90%N := sample_queued ]}) sample_live_db.

(** The event is taken by the batch, and its attempt is over when the batch is. *)
Lemma batch_ends_attempts_witness :
  ∃ n w' o', OutboxWorker.process_batch (H := sample_hashlib) "w1" 5 no_job (λ o _, no_job o)
      (λ _, "error") (λ _, false) 10 (world_of sample_queue_db) = (Ok n, w')
    ∧ db_outbox (w_committed w') !! 90%N = Some o' ∧ ob_locked_by o' = None
    ∧ ob_attempt_count o' = 1.
Proof.
  destruct (batch_ends_attempts (H := sample_hashlib) "w1" 5 no_job (λ o _, no_job o)
    (λ _, "error") (λ _, false) 10 (world_of sample_queue_db)) as (_ & n & w' & E & D & Hall & _);
    try reflexivity.
  - intros k o Ho. change (db_outbox (w_db (world_of sample_queue_db)))
      with ({[ 90%N := sample_queued ]} : gmap UUID OutboxEvent) in Ho.
    by apply lookup_singleton_Some in Ho as [<- <-].
  - destruct (Hall 90%N) as (o & o' & Ho & _ & Ho' & _ & Ha & Hl & _).
    + vm_compute. by left.
    + exists n, w', o'. rewrite <- D. split_and!; [exact E|exact Ho'|exact Hl|].
      rewrite Ha. change (db_outbox (w_db (world_of sample_queue_db)))
        with ({[ 90%N := sample_queued ]} : gmap UUID OutboxEvent) in Ho.
      rewrite lookup_singleton_eq in Ho. by injection Ho as <-.
Defined.

Example uuid_text_1 : uuid_of_str (uuid_str 10) = Some 10%N.
Proof. reflexivity. Qed.
