(* ===== verification/Steps.v ===== *)
(** The database as a state machine: every write of a repository is one of a few
    kinds of legal steps, and a predicate kept by the steps is kept by every use
    case of the claims core, under any interference that keeps it.

    Properties of the whole core are proved by induction on the step relation,
    once, instead of once per use case. *)
From S2P Require Import Prelude Text PyFloat PyVal Entities Store Json Logic Conflicts.
From S2P Require Import PyDate Normalize Matching EventResolution Ingestion.
From S2P Require Import Projection Reproject Resolution Reconcile Merge Outbox.
Open Scope string_scope.
Open Scope list_scope.
Open Scope Z_scope.
#[local] Set Default Proof Using "All".

(** The columns of a claim that no use case rewrites. *)
Definition same_evidence_row (c c' : Claim) : Prop :=
  c_id c' = c_id c ∧ c_event_id c' = c_event_id c ∧ c_source_id c' = c_source_id c
  ∧ c_raw_snapshot_id c' = c_raw_snapshot_id c ∧ c_field_name c' = c_field_name c
  ∧ c_field_value c' = c_field_value c ∧ c_created_at c' = c_created_at c
  ∧ c_created_by c' = c_created_by c.

Definition same_conflict_key (c c' : ClaimConflict) : Prop :=
  cf_id c' = cf_id c ∧ cf_event_id c' = cf_event_id c ∧ cf_field_name c' = cf_field_name c
  ∧ cf_created_at c' = cf_created_at c.

Inductive step (budget : Z) (db : DB) : DB → Prop :=
  | step_claim_add c :
      db_claims db !! c_id c = None → step budget db (upd_claims <[c_id c := c]> db)
  | step_claim_retype p f :
      (∀ c, same_evidence_row c (f c)) → step budget db (upd_claims (update_where p f) db)
  | step_claim_history h : step budget db (upd_claim_history (λ l, l ++ [h]) db)
  | step_conflict_add c :
      db_conflicts db !! cf_id c = None →
      (cf_status c = OPEN → ConflictRepo.open_rows (cf_event_id c) (cf_field_name c) db = []) →
      step budget db (upd_conflicts <[cf_id c := c]> db)
  | step_conflict_update k c c' :
      db_conflicts db !! k = Some c → same_conflict_key c c' → cf_version c' = cf_version c + 1 →
      ConflictRepo.open_clash (db_conflicts db) k c' = false →
      step budget db (upd_conflicts <[k := c']> db)
  | step_conflicts_closed e note t :
      step budget db (upd_conflicts (update_where
        (λ _ c, bool_decide (cf_event_id c = e ∧ cf_status c = OPEN))
        (ConflictRepo.close_as_merged note t)) db)
  | step_link i j :
      (i, j) ∉ db_conflict_claims db → step budget db (upd_conflict_claims (λ l, l ++ [(i, j)]) db)
  | step_activity a :
      al_sequence a ∉ ActivityRepo.sequences (db_activity db) (al_conflict_id a) →
      step budget db (upd_activity (λ l, l ++ [a]) db)
  | step_projection g : step budget db (upd_projections g db)
  | step_projection_history h :
      existsb (ProjectionHistoryRepo.clash h) (db_projection_history db) = false →
      step budget db (upd_projection_history (λ l, l ++ [ProjectionHistoryRepo.to_row h]) db)
  | step_outbox o :
      db_outbox db !! ob_id o = None → ob_status o = OB_PENDING → ob_attempt_count o = 0 →
      step budget db (upd_outbox <[ob_id o := o]> db)
  | step_queue m :
      row_moves budget (db_outbox db) m → step budget db (upd_outbox (λ _, m) db)
  | step_reviews g : step budget db (upd_reviews g db)
  | step_identity g : step budget db (upd_identity g db)
  | step_merge source target e :
      db_events db !! source = Some e → is_merged e = false →
      step budget db (upd_events <[source := EventRepo.set_merged target e]> db)
  | step_event_add e :
      db_events db !! ev_id e = None → step budget db (upd_events <[ev_id e := e]> db)
  | step_snapshot_add s :
      existsb (λ s', bool_decide (SnapshotRepo.same_key s s')) (rows (db_snapshots db)) = false →
      db_snapshots db !! rs_id s = None → step budget db (upd_snapshots <[rs_id s := s]> db)
  | step_snapshot_result k s r :
      db_snapshots db !! k = Some s →
      step budget db (upd_snapshots <[k := SnapshotRepo.with_result r s]> db)
  | step_run_start id source_id t :
      db_runs db !! id = None →
      step budget db (upd_runs <[id := mkRun id source_id "running" t None]> db)
  | step_run_status id r status t :
      db_runs db !! id = Some r →
      step budget db (upd_runs <[id := RunRepo.with_status status t r]> db).

(** ** The repositories make steps *)
Section closed.
Context (budget : Z) (I : DB → Prop) (closed : ∀ db db', I db → step budget db db' → I db').

Lemma upd_claims_id db : upd_claims (λ m, m) db = db.
Proof. by destruct db. Qed.

Lemma claim_add_I c : Inv I (ClaimRepo.add c).
Proof.
  apply Inv_stmt. intros db a db' HI. destruct (db_claims db !! c_id c) eqn:E; [done|].
  intros [= <- <-]. by apply (closed db), step_claim_add.
Qed.

Lemma bulk_supersede_I ids by_ : Inv I (ClaimRepo.bulk_supersede ids by_).
Proof.
  unfold ClaimRepo.bulk_supersede. case_bool_decide; [apply Inv_ret|].
  apply Inv_stmt. intros db a db' HI [= <- <-]. by apply (closed db), step_claim_retype.
Qed.

Lemma bulk_unsupersede_I ids : Inv I (ClaimRepo.bulk_unsupersede ids).
Proof.
  unfold ClaimRepo.bulk_unsupersede. case_bool_decide; [apply Inv_ret|].
  apply Inv_stmt. intros db a db' HI [= <- <-]. by apply (closed db), step_claim_retype.
Qed.

Lemma claim_history_I h : Inv I (ClaimHistoryRepo.add h).
Proof. apply Inv_exec. intros db HI. by apply (closed db), step_claim_history. Qed.

Lemma try_add_open_I c : Inv I (ConflictRepo.try_add_open c).
Proof.
  apply Inv_stmt. intros db a db' HI. case_bool_decide as Hb; [by intros [= <- <-]|].
  destruct (db_conflicts db !! cf_id c) eqn:E; [done|]. intros [= <- <-].
  apply (closed db); [done|]. apply (step_conflict_add budget db (cf_with_claim_ids [] c)); [done|].
  simpl. intros Ho. destruct (decide (ConflictRepo.open_rows (cf_event_id c) (cf_field_name c) db = []));
    [done|]. by destruct Hb.
Qed.

Lemma update_conflict_I id v f :
  (∀ c, same_conflict_key c (f c)) → Inv I (ConflictRepo.update_with_version_check id v f).
Proof.
  intros Hf. apply Inv_stmt. intros db a db' HI.
  destruct (db_conflicts db !! id) as [c|] eqn:Ec; [|by intros [= <- <-]].
  destruct (cf_version c =? v); [|by intros [= <- <-]]. cbv zeta.
  destruct (ConflictRepo.open_clash (db_conflicts db) id
    (ConflictRepo.with_version (cf_version c + 1) (f c))) eqn:Ek; [done|]. intros [= <- <-].
  apply (closed db); [done|]. by apply (step_conflict_update budget db id c
    (ConflictRepo.with_version (cf_version c + 1) (f c)) Ec (Hf c)).
Qed.

Lemma close_as_merged_I e note : Inv I (ConflictRepo.close_event_conflicts_as_merged e note).
Proof.
  unfold ConflictRepo.close_event_conflicts_as_merged. apply Inv_bind; [apply Inv_now|]. intros t.
  apply Inv_stmt. intros db a db' HI [= <- <-]. by apply (closed db), step_conflicts_closed.
Qed.

Lemma link_I i j : Inv I (ConflictRepo.add_claim_to_conflict i j).
Proof.
  apply Inv_exec. intros db HI. unfold upd_conflict_claims. case_bool_decide as Hb.
  - by destruct db.
  - by apply (closed db), step_link.
Qed.

Lemma activity_I a : Inv I (ActivityRepo.add a).
Proof.
  apply Inv_stmt. intros db u db' HI. case_bool_decide as Hb; [done|]. intros [= <- <-].
  by apply (closed db), step_activity.
Qed.

Lemma projection_upsert_I p : Inv I (ProjectionRepo.upsert p).
Proof. apply Inv_exec. intros db HI. by apply (closed db), step_projection. Qed.

Lemma projection_delete_I e : Inv I (ProjectionRepo.delete e).
Proof. apply Inv_exec. intros db HI. by apply (closed db), step_projection. Qed.

Lemma projection_history_I h : Inv I (ProjectionHistoryRepo.add h).
Proof.
  apply Inv_stmt. intros db u db' HI. destruct (existsb _ _) eqn:E; [done|]. intros [= <- <-].
  by apply (closed db), step_projection_history.
Qed.

Lemma outbox_add_I o :
  ob_status o = OB_PENDING → ob_attempt_count o = 0 → Inv I (OutboxRepo.add o).
Proof.
  intros Hp Ha. apply Inv_stmt. intros db u db' HI. destruct (db_outbox db !! ob_id o) eqn:E; [done|].
  intros [= <- <-]. by apply (closed db), step_outbox.
Qed.

Lemma review_status_I id st by_ note : Inv I (ReviewRepo.update_status id st by_ note).
Proof.
  unfold ReviewRepo.update_status. apply Inv_bind; [apply Inv_now|]. intros t.
  apply Inv_stmt. intros db a db' HI. destruct (db_reviews db !! id); intros [= <- <-]; [|done].
  by apply (closed db), step_reviews.
Qed.

Lemma merge_identity_I s t : Inv I (IdentityRepo.merge_identity_index s t).
Proof.
  unfold IdentityRepo.merge_identity_index. apply Inv_bind; [apply Inv_now|]. intros now.
  apply Inv_exec. intros db HI. by apply (closed db), step_identity.
Qed.

Lemma try_merge_I s t : Inv I (EventRepo.try_atomic_merge s t).
Proof.
  apply Inv_stmt. intros db a db' HI. destruct (db_events db !! s) as [e|] eqn:Ee;
    [|by intros [= <- <-]].
  destruct (is_merged e) eqn:Em; intros [= <- <-]; [done|].
  by apply (closed db), step_merge.
Qed.

Lemma event_add_I e : Inv I (EventRepo.add e).
Proof.
  apply Inv_stmt. intros db a db' HI. destruct (db_events db !! ev_id e) eqn:E; [done|].
  intros [= <- <-]. by apply (closed db), step_event_add.
Qed.

Lemma review_add_I r : Inv I (ReviewRepo.add r).
Proof.
  unfold ReviewRepo.add. apply Inv_bind; [|intros []; [apply Inv_ret|apply Inv_query]].
  apply Inv_stmt. intros db a db' HI. destruct (if bool_decide _ then _ else _); [by intros [= <- <-]|].
  destruct (db_reviews db !! dr_id r); [done|]. intros [= <- <-]. by apply (closed db), step_reviews.
Qed.

Lemma identity_upsert_I e : Inv I (IdentityRepo.upsert e).
Proof. apply Inv_exec. intros db HI. by apply (closed db), step_identity. Qed.

Lemma identity_enrich_I e : Inv I (IdentityRepo.enrich_identity_index_from_alias e).
Proof. apply Inv_exec. intros db HI. by apply (closed db), step_identity. Qed.

Lemma snapshot_add_I s : Inv I (SnapshotRepo.try_add_unique s).
Proof.
  apply Inv_stmt. intros db a db' HI. destruct (existsb _ _) eqn:Ek; [by intros [= <- <-]|].
  destruct (db_snapshots db !! rs_id s) eqn:E; [done|]. intros [= <- <-].
  by apply (closed db), step_snapshot_add.
Qed.

Lemma snapshot_result_I k r : Inv I (SnapshotRepo.update_ingestion_result k r).
Proof.
  apply Inv_stmt. intros db a db' HI. destruct (db_snapshots db !! k) eqn:E; [|done].
  intros [= <- <-]. by apply (closed db), step_snapshot_result.
Qed.

Lemma run_start_I id source_id : Inv I (RunRepo.ensure_started id source_id).
Proof.
  unfold RunRepo.ensure_started, RunRepo.get. repeat inv_step. apply Inv_exec. intros db HI.
  unfold upd_runs. destruct (db_runs db !! id) eqn:E; [by destruct db|].
  by apply (closed db), step_run_start.
Qed.

Lemma run_status_I id status t : Inv I (RunRepo.update_status id status t).
Proof.
  apply Inv_stmt. intros db a db' HI. destruct (db_runs db !! id) eqn:E; [|done].
  intros [= <- <-]. by apply (closed db), step_run_status.
Qed.

Lemma log_history_I c e fv tv ft tt_ a r m mi :
  Inv I (log_claim_history c e fv tv ft tt_ a r m mi).
Proof. unfold log_claim_history. repeat inv_step. apply claim_history_I. Qed.

Lemma log_activity_I c e f t m mi r v s : Inv I (log_conflict_activity c e f t m mi r v s).
Proof.
  unfold log_conflict_activity, ActivityRepo.next_sequence. repeat inv_step. apply activity_I.
Qed.
End closed.

Create HintDb steps.
#[export] Hint Resolve claim_add_I bulk_supersede_I bulk_unsupersede_I claim_history_I
  try_add_open_I close_as_merged_I link_I activity_I projection_upsert_I projection_delete_I
  projection_history_I review_status_I outbox_add_I merge_identity_I try_merge_I log_history_I
  log_activity_I event_add_I review_add_I identity_upsert_I identity_enrich_I snapshot_add_I
  snapshot_result_I run_start_I run_status_I : steps.
#[export] Hint Extern 1 (ob_status _ = _) => reflexivity : steps.
#[export] Hint Extern 1 (ob_attempt_count _ = _) => reflexivity : steps.
#[export] Hint Extern 1 (Inv _ (ConflictRepo.update_with_version_check _ _ _)) =>
  eapply update_conflict_I; [eassumption|intros; by split_and!] : steps.

(** Walks through a program, statement by statement. *)
Ltac inv_walk := repeat first [inv_step | solve [eauto 2 with steps]].

(** ** The use cases make steps *)
Section use_cases.
Context (budget : Z) (I : DB → Prop) (closed : ∀ db db', I db → step budget db db' → I db').
Context `{Hashlib}.

Lemma reproject_I e cause cm force : Inv I (ReProjectEvent.execute e cause cm force).
Proof.
  unfold ReProjectEvent.execute, ReProjectEvent.rebuild_tombstone, ReProjectEvent.answer_existing,
    ReProjectEvent.rebuild, ReProjectEvent.restore_projection_from_history,
    ReProjectEvent.persist_projection, ReProjectEvent.write_projection, ReProjectEvent.commit_if,
    EventRepo.lock_for_reprojection, EventRepo.get, ProjectionRepo.get,
    ProjectionHistoryRepo.find_by_outbox_event, ClaimRepo.find_active_by_event,
    ConflictRepo.find_by_event, SourceRepo.get_by_ids.
  inv_walk; by apply Inv_exec.
Qed.

Lemma check_winner_I found winner : Inv I (ResolveConflict.check_winner found winner).
Proof. unfold ResolveConflict.check_winner. inv_walk. Qed.

Lemma supersede_losers_I id winner user reason :
  Inv I (ResolveConflict.supersede_losers id winner user reason).
Proof.
  unfold ResolveConflict.supersede_losers, ConflictRepo.get_claim_ids_for_conflict,
    ClaimRepo.get_many. inv_walk.
Qed.

Lemma after_failed_update_I id e : Inv I (ConflictModified.after_failed_update id e).
Proof.
  unfold ConflictModified.after_failed_update, ConflictRepo.get, ProjectionRepo.get,
    ActivityRepo.latest_for_conflict. inv_walk.
Qed.

Lemma from_known_I c : Inv I (ConflictModified.from_known c).
Proof.
  unfold ConflictModified.from_known, ProjectionRepo.get, ActivityRepo.latest_for_conflict. inv_walk.
Qed.

Lemma apply_resolution_I c v m winner user reason :
  Inv I (ResolveConflict.apply_resolution c v m winner user reason).
Proof.
  pose proof check_winner_I. pose proof supersede_losers_I. pose proof after_failed_update_I.
  pose proof reproject_I.
  unfold ResolveConflict.apply_resolution, ClaimRepo.lock_for_update, ClaimRepo.get. inv_walk.
Qed.

Lemma resolve_I curator id v win val prov user reason :
  Inv I (ResolveConflict.execute curator id v win val prov user reason).
Proof.
  pose proof check_winner_I. pose proof apply_resolution_I. pose proof from_known_I.
  unfold ResolveConflict.execute, ResolveConflict.check_arguments, ResolveConflict.create_override,
    ResolveConflict.choose_existing, ConflictRepo.get, ConflictRepo.get_claim_ids_for_conflict,
    SourceRepo.get, ClaimRepo.get. cbv zeta. inv_walk.
Qed.

Lemma reopen_I id v user reason : Inv I (ReopenConflict.execute id v user reason).
Proof.
  pose proof after_failed_update_I. pose proof from_known_I. pose proof reproject_I.
  unfold ReopenConflict.execute, ReopenConflict.unsupersede_losers, ConflictRepo.get,
    ConflictRepo.get_claim_ids_for_conflict, ClaimRepo.find_superseded_by. cbv zeta. inv_walk.
Qed.
End use_cases.

Section reconciler.
Import ConflictReconciler.
Context (budget : Z) (I : DB → Prop) (closed : ∀ db db', I db → step budget db db' → I db').

Lemma add_missing_links_I id ids : Inv I (add_missing_links id ids).
Proof. unfold add_missing_links, ConflictRepo.get_claim_ids_for_conflict. inv_walk. Qed.

Lemma merge_evidence_I ex ids m r mt : Inv I (merge_evidence_into_open ex ids m r mt).
Proof.
  pose proof add_missing_links_I. unfold merge_evidence_into_open. generalize (cf_id ex) as id.
  revert ex. induction MAX_VERSION_RETRY as [|n IH]; intros ex id; simpl; [apply Inv_raise|].
  unfold ConflictRepo.get. inv_walk.
Qed.

Lemma reopen_evidence_I ex ids m mt : Inv I (reopen_resolved_for_evidence ex ids m mt).
Proof.
  pose proof add_missing_links_I. pose proof merge_evidence_I.
  unfold reopen_resolved_for_evidence. generalize (cf_id ex) as id.
  revert ex. induction MAX_VERSION_RETRY as [|n IH]; intros ex id; simpl; [apply Inv_raise|].
  unfold ConflictRepo.get. inv_walk.
Qed.

Lemma auto_resolve_loop_I n e f ex run : Inv I (auto_resolve_loop n e f ex run).
Proof.
  pose proof add_missing_links_I.
  revert ex. induction n as [|n IH]; intros ex; simpl; [apply Inv_raise|].
  unfold ClaimRepo.find_active_by_event_field, ConflictRepo.get. inv_walk.
Qed.

Lemma auto_resolve_I e f run : Inv I (auto_resolve_stale_open_conflict e f run).
Proof.
  pose proof auto_resolve_loop_I. unfold auto_resolve_stale_open_conflict,
    ConflictRepo.find_open_by_event_field. inv_walk.
Qed.

Lemma new_winner_loop_I n ex win run now : Inv I (new_winner_loop n ex win run now).
Proof.
  pose proof add_missing_links_I.
  revert ex. induction n as [|n IH]; intros ex; simpl; [apply Inv_ret|].
  unfold ConflictRepo.get. inv_walk.
Qed.

Lemma reconcile_winner_I c r run : Inv I (reconcile_resolved_winner c r run).
Proof.
  pose proof new_winner_loop_I. pose proof reopen_evidence_I.
  unfold reconcile_resolved_winner, ClaimRepo.find_active_by_event_field. cbv zeta. inv_walk.
Qed.

Lemma detect_and_apply_I e m mt : Inv I (detect_and_apply_new_conflicts e m mt).
Proof.
  pose proof merge_evidence_I. pose proof reopen_evidence_I.
  unfold detect_and_apply_new_conflicts, ConflictDetector.detect, apply_potential,
    insert_new_conflict, ClaimRepo.find_active_by_event, ConflictRepo.find_by_event, ClaimRepo.get,
    ConflictRepo.find_open_by_event_field. cbv zeta. inv_walk.
Qed.
End reconciler.

Section merging.
Context (budget : Z) (I : DB → Prop) (closed : ∀ db db', I db → step budget db db' → I db').

Lemma merge_I s t by_ note review : Inv I (MergeDuplicateEvents.execute s t by_ note review).
Proof.
  pose proof (detect_and_apply_I budget I closed).
  unfold MergeDuplicateEvents.execute, MergeDuplicateEvents.absorb, MergeDuplicateEvents.lock_events,
    MergeDuplicateEvents.check_not_merged, MergeDuplicateEvents.transfer_claim,
    MergeDuplicateEvents.supersede_original, MergeDuplicateEvents.close_source_conflicts,
    MergeDuplicateEvents.queue_reprojection, MergeDuplicateEvents.close_review,
    EventRepo.lock_for_update, EventRepo.get, ClaimRepo.find_active_by_event,
    ReviewRepo.find_existing_pair. cbv zeta. inv_walk.
Qed.

Lemma review_I id action by_ note source : Inv I (ReviewDuplicate.execute id action by_ note source).
Proof.
  pose proof merge_I. unfold ReviewDuplicate.execute, ReviewRepo.get. inv_walk.
Qed.
End merging.

(** ** Ingestion makes steps *)
Section ingesting.
Context (budget : Z) (I : DB → Prop) (closed : ∀ db db', I db → step budget db db' → I db').

Lemma follow_merges_I fuel seen id : Inv I (follow_merges fuel seen id).
Proof.
  revert seen id. induction fuel as [|n IH]; intros seen id; simpl; [apply Inv_raise|].
  unfold EventRepo.get. inv_walk.
Qed.

Lemma canonical_event_I id : Inv I (canonical_event id).
Proof. intros w. apply follow_merges_I. Qed.

Lemma update_identity_I id fs srid : Inv I (update_identity id fs srid).
Proof. unfold update_identity. inv_walk. Qed.

Lemma continuity_I source_id srid explicit :
  Inv I (SourceRecordContinuityService.resolve source_id srid explicit).
Proof.
  pose proof canonical_event_I.
  unfold SourceRecordContinuityService.resolve, SourceRecordContinuityService.canonical_event_for,
    SnapshotRepo.lock_for_source_record_correction,
    SnapshotRepo.find_latest_event_id_by_source_record_id.
  inv_walk; by apply Inv_exec.
Qed.

Lemma create_event_I fs srid : Inv I (EventResolutionService.create_event fs srid).
Proof. pose proof update_identity_I. unfold EventResolutionService.create_event. cbv zeta. inv_walk. Qed.

Lemma canonical_event_for_I id : Inv I (EventResolutionService.canonical_event_for id).
Proof. pose proof canonical_event_I. unfold EventResolutionService.canonical_event_for. inv_walk. Qed.

Lemma canonical_candidates_I id n ids acc :
  Inv I (EventResolutionService.canonical_candidates id n ids acc).
Proof.
  pose proof canonical_event_for_I. revert acc. induction ids as [|x ids IH]; intros acc; simpl.
  - apply Inv_ret.
  - inv_walk.
Qed.

Lemma queue_review_I id d c : Inv I (EventResolutionService.queue_review id d c).
Proof.
  unfold EventResolutionService.queue_review, ReviewRepo.find_existing_pair. cbv zeta. inv_walk.
Qed.

Lemma found_event_I d fs srid n : Inv I (EventResolutionService.found_event d fs srid n).
Proof.
  pose proof create_event_I. pose proof canonical_candidates_I. pose proof queue_review_I.
  unfold EventResolutionService.found_event. inv_walk.
Qed.

Lemma attach_I d fs srid : Inv I (EventResolutionService.attach d fs srid).
Proof.
  pose proof canonical_event_for_I. unfold EventResolutionService.attach. cbv zeta. inv_walk.
Qed.

Lemma gather_I d r : Inv I (EventResolutionService.gather_candidates d r).
Proof.
  unfold EventResolutionService.gather_candidates, IdentityRepo.find_candidates,
    IdentityRepo.find_by_registration. cbv zeta. inv_walk.
Qed.

Lemma resolve_with_reviews_I fs srid n :
  Inv I (EventResolutionService.resolve_with_reviews fs srid n).
Proof.
  pose proof create_event_I. pose proof gather_I. pose proof attach_I. pose proof found_event_I.
  assert (∀ d r, Inv I (IdentityRepo.lock_for_identity_resolution d r))
    by (intros; by apply Inv_exec).
  unfold EventResolutionService.resolve_with_reviews. cbv zeta. inv_walk.
Qed.

Lemma write_normalised_I e s k items run srid :
  Inv I (ClaimWriter.write_normalised e s k items run srid).
Proof.
  unfold ClaimWriter.write_normalised, ClaimWriter.prior_claims, ClaimWriter.write_item,
    ClaimRepo.find_active_by_source_record, ClaimRepo.find_active_by_event_field,
    ConflictRepo.find_resolved_by_winning_claims. cbv zeta. inv_walk.
Qed.

Lemma ingest_reconcile_I e run written : Inv I (IngestSourceData.reconcile e run written).
Proof.
  pose proof (reconcile_winner_I budget I closed). pose proof (auto_resolve_I budget I closed).
  pose proof (detect_and_apply_I budget I closed).
  unfold IngestSourceData.reconcile, ConflictReconciler.reconcile_superseded_winners,
    ConflictReconciler.auto_resolve_stale_open_conflicts. inv_walk.
Qed.

Context `{ModelValidate}.

Lemma replay_I s : Inv I (IngestionIdempotencyService.result_from_snapshot s).
Proof.
  pose proof canonical_event_I.
  unfold IngestionIdempotencyService.result_from_snapshot,
    IngestionIdempotencyService.result_from_json, IngestionIdempotencyService.canonical_event_id,
    ClaimRepo.find_event_id_by_raw_snapshot_id. inv_walk.
Qed.

Context `{Hashlib} (settings : IngestionSettings) (registry : SourceNormalizerRegistry.t).

Lemma finish_I sb k r : Inv I (IngestSourceData.finish sb k r).
Proof. unfold IngestSourceData.finish. inv_walk. Qed.

Lemma ingest_snapshot_I sb ld continued s :
  Inv I (IngestSourceData.ingest_snapshot settings sb ld continued s).
Proof.
  pose proof resolve_with_reviews_I. pose proof write_normalised_I. pose proof update_identity_I.
  pose proof ingest_reconcile_I. pose proof finish_I.
  unfold IngestSourceData.ingest_snapshot, IngestSourceData.resolve_event,
    IngestSourceData.lock_and_write_claims, IngestSourceData.must_exist, queue_projection,
    EventRepo.lock_for_update, EventRepo.get. cbv zeta. inv_walk.
Qed.

Lemma ingest_I request : Inv I (IngestSourceData.execute_with_result settings registry request).
Proof.
  pose proof ingest_snapshot_I. pose proof replay_I. pose proof continuity_I.
  unfold IngestSourceData.execute_with_result, IngestSourceData.ingest_new,
    IngestionIdempotencyService.check, IngestSourceData.load_and_normalise,
    IngestSourceData.explicit_event, IngestSourceData.must_exist, IngestSourceData.start_run,
    IngestSourceData.continuity, IngestSourceData.insert_snapshot, SnapshotRepo.find_by_source_run,
    SourceRepo.get, EventRepo.get, RunRepo.get. cbv zeta. inv_walk.
Qed.
End ingesting.

(** ** The outbox worker makes steps *)
Section outbox.
Import OutboxWorker.
Context (budget : Z) (I : DB → Prop) (closed : ∀ db db', I db → step budget db db' → I db').
Context `{Hashlib} (worker : string) (minutes : Z)
  (run_echo : OutboxEvent → M unit) (fail_echo : OutboxEvent → string → M unit)
  (str_exn : exn → string) (skipped : UUID → bool)
  (run_echo_I : ∀ o, Inv I (run_echo o)) (fail_echo_I : ∀ o s, Inv I (fail_echo o s)).

Lemma fetch_I limit : Inv I (OutboxQueue.fetch_and_lock_pending skipped limit worker budget).
Proof.
  unfold OutboxQueue.fetch_and_lock_pending. apply Inv_bind; [apply Inv_now|]. intros now.
  apply Inv_stmt. intros db a db' HI [= _ <-]. apply (closed db); [done|].
  apply (step_queue budget db), fetch_moves.
Qed.

Lemma settle_I o status err next :
  status ≠ OB_PROCESSING →
  (status = OB_PENDING ∨ status = OB_FAILED → ob_attempt_count o < budget) →
  Inv I (settle worker o status err next).
Proof.
  intros Hs Hb. unfold settle, OutboxQueue.update_status. apply Inv_bind; [apply Inv_now|].
  intros now. apply Inv_stmt. intros db a db' HI.
  destruct (db_outbox db !! ob_id o) as [r|] eqn:Er; [|by intros [= _ <-]].
  case_bool_decide as Hl; intros [= _ <-]; [|done]. apply (closed db); [done|].
  apply (step_queue budget db). eapply row_moves_insert; [exact Er|].
  by eapply settle_moves.
Qed.

Lemma requeue_I : Inv I (OutboxQueue.requeue_stale_locked_with_dead_letters minutes budget).
Proof.
  unfold OutboxQueue.requeue_stale_locked_with_dead_letters.
  apply Inv_bind; [apply Inv_now|]. intros t0. apply Inv_bind.
  { apply Inv_stmt. intros db a db' HI [= _ <-]. apply (closed db); [done|].
    apply (step_queue budget db), requeue_moves. }
  intros n. apply Inv_bind; [apply Inv_now|]. intros t1. apply Inv_bind; [|intros; apply Inv_ret].
  apply Inv_stmt. intros db a db' HI [= _ <-]. apply (closed db); [done|].
  apply (step_queue budget db), deadletter_moves.
Qed.

Lemma process_event_I o : Inv I (process_event worker run_echo o).
Proof.
  pose proof reproject_I.
  assert (Hd : ∀ st err next, st = OB_PROCESSED ∨ st = OB_DEAD_LETTER →
    Inv I (settle worker o st err next)).
  { intros st err next Hst. apply settle_I; naive_solver. }
  unfold process_event, process_claims_updated, payload_uuid_opt, payload_uuid,
    ProjectionHistoryRepo.find_by_outbox_event, EventRepo.get.
  inv_walk; apply Hd; auto.
Qed.

Lemma mark_failed_I o err : Inv I (mark_failed worker budget fail_echo o err).
Proof.
  unfold mark_failed. inv_walk.
  destruct (budget <=? ob_attempt_count o) eqn:Ea; apply settle_I; try done.
  - intros [?|?]; discriminate.
  - lia.
Qed.

Lemma process_batch_I limit :
  Inv I (process_batch worker budget run_echo fail_echo str_exn skipped limit).
Proof.
  pose proof process_event_I. pose proof mark_failed_I.
  unfold process_batch. apply Inv_bind.
  - apply Inv_with_uow. apply Inv_bind; [apply fetch_I|]. inv_walk.
  - intros events. induction events as [|o events IH]; simpl; [apply Inv_ret|].
    apply Inv_bind; [|intros; apply Inv_bind; [done|intros; apply Inv_ret]].
    unfold handle_one. inv_walk.
Qed.

Lemma recover_I : Inv I (recover_stale_locks budget minutes fail_echo).
Proof.
  pose proof requeue_I. unfold recover_stale_locks. inv_walk.
Qed.
End outbox.
