(* ===== verification/Core.v ===== *)
(** The claims core as one system: requests served in their own unit of work, and
    what holds of every run of them, whatever other transactions do meanwhile as
    long as they respect the same rules. *)
From S2P Require Import Prelude Text PyFloat PyVal Entities Store Json Logic Conflicts.
From S2P Require Import PyDate Normalize Matching EventResolution Ingestion.
From S2P Require Import Projection Reproject Resolution Reconcile Merge Outbox Steps.
Open Scope string_scope.
Open Scope list_scope.
Open Scope Z_scope.

(** ** Requests *)
Inductive request :=
  | RqReproject (event_id : UUID) (cause : ReProjectEvent.Cause) (force_history : bool)
  | RqResolve (conflict_id : UUID) (expected_version : Z) (winning_claim_id : option UUID)
      (value : pyval) (provided : bool) (user : option UUID) (reason : string)
  | RqReopen (conflict_id : UUID) (expected_version : Z) (user : option UUID) (reason : string)
  | RqMerge (source target resolved_by : UUID) (note : string) (review_id : option UUID)
  | RqReview (review_id : UUID) (action : string) (resolved_by : UUID) (note : string)
      (source_event_id : option UUID)
  | RqIngest (sb : submission).

(** What the deployment fixes: the curator source, the ingestion limits, the
    registered normalizers. *)
Record deployment := mkDeployment {
  dp_curator : UUID;
  dp_settings : IngestionSettings;
  dp_registry : SourceNormalizerRegistry.t;
}.

Section serve.
Context `{Hashlib} `{ModelValidate} (dp : deployment).

Definition handle (r : request) : M unit :=
  match r with
  | RqReproject e cause force => _ ← ReProjectEvent.execute e cause true force; mret ()
  | RqResolve id v win val prov user reason =>
      _ ← ResolveConflict.execute (dp_curator dp) id v win val prov user reason; mret ()
  | RqReopen id v user reason => _ ← ReopenConflict.execute id v user reason; mret ()
  | RqMerge s t by_ note review => _ ← MergeDuplicateEvents.execute s t by_ note review; mret ()
  | RqReview id action by_ note s => _ ← ReviewDuplicate.execute id action by_ note s; mret ()
  | RqIngest sb =>
      _ ← IngestSourceData.execute_with_result (dp_settings dp) (dp_registry dp) sb; mret ()
  end.

(** One request, in a unit of work of its own. *)
Definition serve (r : request) : M unit := with_uow (handle r).

(** What runs in the system: requests, and the two duties of an outbox worker. *)
Inductive activity :=
  | Serve (r : request)
  | ProcessBatch (worker : string) (skipped : UUID → bool) (limit : nat)
  | RecoverStaleLocks.

(** [max_attempts] and [stale_minutes] are settings; the cross-reference jobs
    of tenants work on other databases. *)
Context (max_attempts stale_minutes : Z) (run_echo : OutboxEvent → M unit)
  (fail_echo : OutboxEvent → string → M unit) (str_exn : exn → string).

Definition run (a : activity) : M unit :=
  match a with
  | Serve r => serve r
  | ProcessBatch worker skipped limit =>
      _ ← OutboxWorker.process_batch worker max_attempts run_echo fail_echo str_exn skipped limit;
      mret ()
  | RecoverStaleLocks =>
      _ ← OutboxWorker.recover_stale_locks max_attempts stale_minutes fail_echo; mret ()
  end.

Lemma serve_I (I : DB → Prop) r :
  (∀ db db', I db → step max_attempts db db' → I db') → Inv I (serve r).
Proof.
  intros closed. unfold serve, handle. apply Inv_with_uow. destruct r; apply Inv_bind;
    [by eapply reproject_I| |by eapply resolve_I| |by eapply reopen_I| |by eapply merge_I|
     |by eapply review_I| |by eapply ingest_I|]; intros; apply Inv_ret.
Qed.

(** The jobs leave this database alone. *)
Definition elsewhere : Prop :=
  (∀ o w, (run_echo o w).2 = w) ∧ (∀ o s w, (fail_echo o s w).2 = w).

Lemma run_I (I : DB → Prop) a :
  elsewhere → (∀ db db', I db → step max_attempts db db' → I db') → Inv I (run a).
Proof.
  intros [He Hf] closed.
  assert (∀ o, Inv I (run_echo o)) by (intros o w Hw; by rewrite He).
  assert (∀ o s, Inv I (fail_echo o s)) by (intros o s w Hw; by rewrite Hf).
  destruct a as [r|worker skipped limit|]; [by apply serve_I| |];
    (apply Inv_bind; [|intros; apply Inv_ret]).
  - by eapply process_batch_I.
  - by apply (recover_I max_attempts I closed "" stale_minutes run_echo fail_echo (λ _, "")
      (λ _, false)).
Qed.
End serve.

(** ** Integrity of the tables *)

(** Rows under their ids, and one snapshot per source and ingestion run. *)
Definition snapshots_ok (db : DB) : Prop :=
  (∀ k s, db_snapshots db !! k = Some s → rs_id s = k)
  ∧ ∀ k1 k2 s1 s2, db_snapshots db !! k1 = Some s1 → db_snapshots db !! k2 = Some s2 →
      SnapshotRepo.same_key s1 s2 → k1 = k2.

Record integrity (max_attempts : Z) (db : DB) : Prop := mkIntegrity {
  in_one_open : one_open db;
  in_claims : claims_keyed db;
  in_conflicts : conflicts_keyed db;
  in_activity : NoDup ((λ a, (al_conflict_id a, al_sequence a)) <$> db_activity db);
  in_links : NoDup (db_conflict_claims db);
  in_history : ∀ (i j : nat) h h', db_projection_history db !! i = Some h →
    db_projection_history db !! j = Some h' → (i < j)%nat → ProjectionHistoryRepo.clash h' h = false;
  in_outbox : ∀ k o, db_outbox db !! k = Some o →
    ob_id o = k ∧ within_budget max_attempts o;
  in_events : keyed_events (db_events db);
  in_snapshots : snapshots_ok db;
}.

Section integrity_steps.
Context (max_attempts : Z) (some_attempt : 0 < max_attempts).

Lemma lookup_update_where_Some {A} p (f : A → A) m k x :
  update_where p f m !! k = Some x ↔ ∃ y, m !! k = Some y ∧ x = (if p k y then f y else y).
Proof.
  rewrite lookup_update_where. destruct (m !! k) as [y|]; simpl; naive_solver.
Qed.

Lemma one_open_insert db k c :
  one_open db → ConflictRepo.open_clash (db_conflicts db) k c = false →
  one_open (upd_conflicts <[k := c]> db).
Proof.
  intros H1 Hk.
  assert (Hno : ∀ k' c' e f, db_conflicts db !! k' = Some c' → k' ≠ k →
    ConflictRepo.is_open_for e f c → ¬ ConflictRepo.is_open_for e f c').
  { intros k' c' e f Hc' Hne (<- & <- & Ho) Hf. unfold ConflictRepo.open_clash in Hk.
    rewrite bool_decide_true in Hk by done. simpl in Hk.
    rewrite <- not_true_iff_false in Hk. apply Hk. apply existsb_exists. exists (k', c').
    split; [by apply list_elem_of_In, elem_of_map_to_list|]. simpl.
    rewrite (bool_decide_false (k' = k)), bool_decide_true by done. done. }
  intros e f k1 k2 c1 c2. simpl. rewrite !lookup_insert_Some.
  intros [[<- <-]|[Hn1 Hc1]] [[<- <-]|[Hn2 Hc2]] Hf1 Hf2; [done| | |by eapply H1].
  - by destruct (Hno k2 c2 e f Hc2).
  - by destruct (Hno k1 c1 e f Hc1).
Qed.

Lemma open_rows_none_clash db c :
  (cf_status c = OPEN → ConflictRepo.open_rows (cf_event_id c) (cf_field_name c) db = []) →
  ConflictRepo.open_clash (db_conflicts db) (cf_id c) c = false.
Proof.
  intros Hno. apply open_clash_false. intros Ho k' c' Hc' _ Hf.
  assert (Hin : c' ∈ ConflictRepo.open_rows (cf_event_id c) (cf_field_name c) db).
  { apply list_elem_of_filter. split; [done|]. apply elem_of_rows. eauto. }
  rewrite Hno in Hin by done. by apply elem_of_nil in Hin.
Qed.

Lemma one_open_step db db' : one_open db → step max_attempts db db' → one_open db'.
Proof.
  intros H1 [| | |c Hn Ho|k c c' Hc Hk Hv Hcl|e note t| | | | | | | | | | | | | |]; try exact H1.
  - apply one_open_insert; [done|by apply open_rows_none_clash].
  - by apply one_open_insert.
  - intros e' f k1 k2 c1 c2 Hc1 Hc2 Hf1 Hf2. simpl in Hc1, Hc2.
    apply lookup_update_where_Some in Hc1 as (y1 & Hy1 & ->).
    apply lookup_update_where_Some in Hc2 as (y2 & Hy2 & ->).
    assert (Ho : ∀ y, ConflictRepo.is_open_for e' f (if bool_decide (cf_event_id y = e
      ∧ cf_status y = OPEN) then ConflictRepo.close_as_merged note t y else y) →
      ConflictRepo.is_open_for e' f y).
    { intros y Hy. destruct (decide (cf_event_id y = e ∧ cf_status y = OPEN)) as [Hd|Hd].
      - rewrite bool_decide_true in Hy by done. by destruct Hy as (_ & _ & ?).
      - by rewrite bool_decide_false in Hy by done. }
    eapply H1; eauto.
Qed.

Lemma keyed_step db db' :
  claims_keyed db ∧ conflicts_keyed db → step max_attempts db db' → claims_keyed db' ∧ conflicts_keyed db'.
Proof.
  intros [Hk Hck] [c Hn|p f Hf| |c Hn Ho|k c c' Hc Hk' Hv Hcl|e note t| | | | | | | | | | | | | |];
    try (split; [exact Hk|exact Hck]).
  - split; [|exact Hck]. intros k x. simpl. rewrite lookup_insert_Some.
    intros [[<- <-]|[_ Hx]]; [done|by apply Hk].
  - split; [|exact Hck]. intros k x. simpl. rewrite lookup_update_where_Some.
    intros (y & Hy & ->). destruct (p k y); [|by apply Hk].
    destruct (Hf y) as [-> _]. by apply Hk.
  - split; [exact Hk|]. intros k x. simpl. rewrite lookup_insert_Some.
    intros [[<- <-]|[_ Hx]]; [done|by apply Hck].
  - split; [exact Hk|]. intros k0 x. simpl. rewrite lookup_insert_Some.
    intros [[<- <-]|[_ Hx]]; [|by apply Hck]. destruct Hk' as [-> _]. by apply Hck.
  - split; [exact Hk|]. intros k x. simpl. rewrite lookup_update_where_Some.
    intros (y & Hy & ->). case_bool_decide; by apply Hck in Hy.
Qed.

Lemma NoDup_snoc {A} (l : list A) x : NoDup l → x ∉ l → NoDup (l ++ [x]).
Proof.
  intros Hl Hx. apply NoDup_app. split_and!; [done| |apply NoDup_singleton].
  intros y Hy ->%list_elem_of_singleton. done.
Qed.

Definition outbox_ok (db : DB) : Prop := ∀ k o, db_outbox db !! k = Some o →
  ob_id o = k ∧ within_budget max_attempts o.

Lemma advance_id o o' : advance max_attempts o o' → ob_id o' = ob_id o.
Proof. intros Ha. by destruct (advance_progress _ _ _ Ha) as [[E _] _ _ _]. Qed.

Lemma outbox_step db db' : outbox_ok db → step max_attempts db db' → outbox_ok db'.
Proof using some_attempt.
  intros Hob Hs. destruct Hs as [| | | | | | | | | |o Hn Hp Ha|m Hm| | | | | | | |]; try exact Hob.
  - intros k x. simpl. rewrite lookup_insert_Some. intros [[<- <-]|[_ Hx]]; [|by apply Hob].
    split; [done|]. unfold within_budget. rewrite Ha. split; [lia|intros _; lia].
  - intros k x. simpl. intros Hx. specialize (Hm k). rewrite Hx in Hm.
    destruct (db_outbox db !! k) as [o|] eqn:Eo; [|done].
    destruct (Hob k o Eo) as [Hid Hb]. destruct Hm as [->|Hm]; [done|].
    split; [by rewrite (advance_id _ _ Hm)|by eapply advance_budget].
Qed.

Lemma keyed_events_step db db' :
  keyed_events (db_events db) → step max_attempts db db' → keyed_events (db_events db').
Proof.
  intros Hk Hs. destruct Hs as [| | | | | | | | | | | | | |source target e He Hm|e Hn| | | |];
    try exact Hk.
  - intros k x. simpl. rewrite lookup_insert_Some. intros [[<- <-]|[_ Hx]]; [|by apply Hk].
    simpl. by apply Hk.
  - by apply keyed_insert.
Qed.

Lemma snapshots_step db db' : snapshots_ok db → step max_attempts db db' → snapshots_ok db'.
Proof.
  intros [Hk Hu] Hs.
  destruct Hs as [| | | | | | | | | | | | | | | |s Hnew Hn|k s r Hs0| |]; try by split.
  - assert (Hno : ∀ k' s', db_snapshots db !! k' = Some s' → ¬ SnapshotRepo.same_key s s').
    { intros k' s' Hs' Hsame. rewrite <- not_true_iff_false in Hnew. apply Hnew.
      apply existsb_exists. exists s'. split; [|by apply bool_decide_eq_true].
      apply list_elem_of_In, elem_of_rows. eauto. }
    split.
    + intros k x. simpl. rewrite lookup_insert_Some. intros [[<- <-]|[_ Hx]]; [done|by apply Hk].
    + intros k1 k2 s1 s2. simpl. rewrite !lookup_insert_Some.
      intros [[<- <-]|[_ H1]] [[<- <-]|[_ H2]] Hsame; [done| | |by eapply Hu].
      * by destruct (Hno k2 s2 H2).
      * destruct (Hno k1 s1 H1). by destruct Hsame.
  - split.
    + intros k' x. simpl. rewrite lookup_insert_Some. intros [[<- <-]|[_ Hx]]; [|by apply Hk].
      simpl. by apply Hk.
    + intros k1 k2 s1 s2. simpl. rewrite !lookup_insert_Some.
      intros [[<- <-]|[_ H1]] [[<- <-]|[_ H2]] Hsame; [done| | |by eapply Hu].
      * by apply (Hu k k2 s s2).
      * by apply (Hu k1 k s1 s).
Qed.

Lemma integrity_step db db' : integrity max_attempts db → step max_attempts db db' →
  integrity max_attempts db'.
Proof using some_attempt.
  intros [H1 Hk Hck Ha Hl Hh Hob He Hsn] Hs.
  destruct (keyed_step db db' (conj Hk Hck) Hs) as [Hk' Hck'].
  pose proof (one_open_step db db' H1 Hs) as H1'.
  pose proof (outbox_step db db' Hob Hs) as Hob'.
  pose proof (keyed_events_step db db' He Hs) as He'.
  pose proof (snapshots_step db db' Hsn Hs) as Hsn'.
  destruct Hs as [| | | | | |i j Hij|a Hseq| |h Hcl| | | | | | | | | |]; split; try done.
  - by apply NoDup_snoc.
  - simpl. rewrite fmap_app. apply NoDup_snoc; [done|].
    intros (a' & E & Hin)%list_elem_of_fmap. injection E as E1 E2. apply Hseq.
    unfold ActivityRepo.sequences. apply list_elem_of_fmap. exists a'. split; [done|].
    by apply list_elem_of_filter.
  - intros i j x y. simpl. intros Hx Hy Hij. 
    apply lookup_app_Some in Hy as [Hy|[Hle Hy]].
    + rewrite lookup_app_l in Hx; [by eapply Hh|]. apply lookup_lt_Some in Hy. lia.
    + apply list_lookup_singleton_Some in Hy as [Hj <-].
      assert (Hi : (i < length (db_projection_history db))%nat) by lia.
      rewrite lookup_app_l in Hx by done.
      assert (Hn : ProjectionHistoryRepo.clash h x = false); [|exact Hn].
      rewrite <- not_true_iff_false in Hcl |- *. intros Hc. apply Hcl. apply existsb_exists.
      exists x. split; [|done]. apply list_elem_of_In. by eapply list_elem_of_lookup_2.
Qed.
End integrity_steps.

(** ** Evolution: what two states of a run have in common *)

(** Everything of a snapshot but the result stored with it. *)
Definition same_submission (s s' : RawSnapshot) : Prop :=
  rs_id s' = rs_id s ∧ rs_source_id s' = rs_source_id s
  ∧ rs_ingestion_run_id s' = rs_ingestion_run_id s ∧ rs_payload_hash s' = rs_payload_hash s
  ∧ rs_payload_json s' = rs_payload_json s ∧ rs_captured_at s' = rs_captured_at s
  ∧ rs_created_at s' = rs_created_at s ∧ rs_source_record_id s' = rs_source_record_id s
  ∧ rs_raw_payload_hash s' = rs_raw_payload_hash s
  ∧ rs_submission_hash s' = rs_submission_hash s
  ∧ rs_submission_fingerprint s' = rs_submission_fingerprint s
  ∧ (rs_ingestion_result s = None ∨ is_Some (rs_ingestion_result s')).

Record evolves (db db' : DB) : Prop := mkEvolves {
  ev_claims : ∀ k c, db_claims db !! k = Some c →
    ∃ c', db_claims db' !! k = Some c' ∧ same_evidence_row c c';
  ev_claim_history : db_claim_history db `prefix_of` db_claim_history db';
  ev_activity : db_activity db `prefix_of` db_activity db';
  ev_history : db_projection_history db `prefix_of` db_projection_history db';
  ev_conflicts : ∀ k c, db_conflicts db !! k = Some c →
    ∃ c', db_conflicts db' !! k = Some c' ∧ same_conflict_key c c'
          ∧ (c' = c ∨ cf_version c < cf_version c');
  ev_links : ∀ p, p ∈ db_conflict_claims db → p ∈ db_conflict_claims db';
  ev_merges : ∀ k e, db_events db !! k = Some e →
    ∃ e', db_events db' !! k = Some e' ∧ (is_merged e = true → e' = e);
  ev_outbox : ∀ k o, db_outbox db !! k = Some o →
    ∃ o', db_outbox db' !! k = Some o' ∧ progress o o';
  ev_snapshots : ∀ k s, db_snapshots db !! k = Some s →
    ∃ s', db_snapshots db' !! k = Some s' ∧ same_submission s s';
  ev_runs : ∀ k r, db_runs db !! k = Some r →
    ∃ r', db_runs db' !! k = Some r' ∧ ir_id r' = ir_id r ∧ ir_source_id r' = ir_source_id r;
}.

Section evolution.
Lemma same_evidence_refl c : same_evidence_row c c.
Proof. by split_and!. Qed.
Lemma same_key_refl c : same_conflict_key c c.
Proof. by split_and!. Qed.
Lemma same_submission_refl s : same_submission s s.
Proof. split_and!; try done. destruct (rs_ingestion_result s); [right|left]; done. Qed.

#[export] Instance evolves_preorder : PreOrder evolves.
Proof.
  split.
  - intros db. split; try done; eauto using same_evidence_refl.
    + intros k c Hc. exists c. split_and!; [done|apply same_key_refl|by left].
    + intros k o Ho. by exists o.
    + intros k s Hs. exists s. split; [done|apply same_submission_refl].
  - intros a b d [A1 A2 A3 A4 A5 A6 A7 A8 A9 A10] [B1 B2 B3 B4 B5 B6 B7 B8 B9 B10]. split.
    + intros k c Hc. destruct (A1 k c Hc) as (c1 & Hc1 & E1).
      destruct (B1 k c1 Hc1) as (c2 & Hc2 & E2). exists c2. split; [done|].
      unfold same_evidence_row in *. intuition congruence.
    + by etrans.
    + by etrans.
    + by etrans.
    + intros k c Hc. destruct (A5 k c Hc) as (c1 & Hc1 & E1 & V1).
      destruct (B5 k c1 Hc1) as (c2 & Hc2 & E2 & V2). exists c2.
      split_and!; [done|unfold same_conflict_key in *; intuition congruence|].
      destruct V1 as [->|V1]; [done|]. right. destruct V2 as [->|V2]; lia.
    + auto.
    + intros k e He. destruct (A7 k e He) as (e1 & He1 & M1).
      destruct (B7 k e1 He1) as (e2 & He2 & M2). exists e2. split; [done|].
      intros Hm. specialize (M1 Hm) as ->. auto.
    + intros k o Ho. destruct (A8 k o Ho) as (o1 & Ho1 & P1).
      destruct (B8 k o1 Ho1) as (o2 & Ho2 & P2). exists o2. split; [done|by etrans].
    + intros k s Hs. destruct (A9 k s Hs) as (s1 & Hs1 & E1).
      destruct (B9 k s1 Hs1) as (s2 & Hs2 & E2). exists s2. split; [done|].
      destruct E1 as (? & ? & ? & ? & ? & ? & ? & ? & ? & ? & ? & P1).
      destruct E2 as (? & ? & ? & ? & ? & ? & ? & ? & ? & ? & ? & P2).
      unfold same_submission. split_and!; try congruence.
      destruct P1 as [P1|[x P1]]; [by left|right]. destruct P2 as [P2|P2]; [congruence|done].
    + intros k r Hr. destruct (A10 k r Hr) as (r1 & Hr1 & E1 & F1).
      destruct (B10 k r1 Hr1) as (r2 & Hr2 & E2 & F2). exists r2. split_and!; congruence.
Qed.

Lemma evolves_insert_fresh {A} (R : A → A → Prop) (m : gmap UUID A) k x :
  m !! k = None → (∀ y, R y y) →
  ∀ k' y, m !! k' = Some y → ∃ z, <[k := x]> m !! k' = Some z ∧ R y z.
Proof.
  intros Hn Hr k' y Hy. exists y. split; [|done].
  rewrite lookup_insert_ne; [done|]. intros ->. congruence.
Qed.

Lemma evolves_step budget db db' : step budget db db' → evolves db db'.
Proof.
  pose proof (reflexivity (R := evolves) db) as R.
  intros Hs. destruct Hs as [c Hn|p f Hf|h|c Hn Ho|k c c' Hc Hk Hv Hcl|e note t|i j Hij|a Ha|g|h Hh
    |o Ho _ _|m Hm|g|g|source target e He Hm|e He|s Hnew Hn|k s r Hs0|id sid t Hn|id r st t Hr];
    destruct R as [R1 R2 R3 R4 R5 R6 R7 R8 R9 R10]; split; simpl;
    try done; try by apply prefix_app_r.
  - by apply evolves_insert_fresh; [|apply same_evidence_refl].
  - intros k c Hc. rewrite lookup_update_where, Hc. simpl. eexists; split; [done|].
    destruct (p k c); [apply Hf|apply same_evidence_refl].
  - apply (evolves_insert_fresh (λ c c', same_conflict_key c c' ∧ (c' = c ∨ cf_version c < cf_version c')));
      [done|]. intros x. split; [apply same_key_refl|by left].
  - intros k' x Hx. destruct (decide (k = k')) as [<-|Hne].
    + rewrite lookup_insert_eq. exists c'. assert (x = c) as -> by congruence.
      split_and!; [done|done|right; lia].
    + rewrite lookup_insert_ne by done. exists x. split_and!; [done|apply same_key_refl|by left].
  - intros k c Hc. rewrite lookup_update_where, Hc. simpl. eexists; split; [done|].
    case_bool_decide; [|split; [apply same_key_refl|by left]].
    split; [by split_and!|]. right. simpl. lia.
  - intros p Hp. apply elem_of_app. by left.
  - by apply evolves_insert_fresh.
  - intros k o Ho. specialize (Hm k). rewrite Ho in Hm. destruct (m !! k) as [o'|]; [|done].
    exists o'. split; [done|]. destruct Hm as [->|Hm]; [done|by eapply advance_progress].
  - intros k x Hx. destruct (decide (source = k)) as [<-|Hne].
    + rewrite lookup_insert_eq. eexists; split; [done|]. intros Hmx. congruence.
    + rewrite lookup_insert_ne by done. by exists x.
  - by apply (evolves_insert_fresh (λ e e', is_merged e = true → e' = e)).
  - by apply evolves_insert_fresh; [|apply same_submission_refl].
  - intros k' x Hx. destruct (decide (k = k')) as [<-|Hne].
    + rewrite lookup_insert_eq. eexists; split; [done|]. assert (x = s) as -> by congruence.
      split_and!; try done. by right.
    + rewrite lookup_insert_ne by done. exists x. split; [done|apply same_submission_refl].
  - by apply (evolves_insert_fresh (λ r r', ir_id r' = ir_id r ∧ ir_source_id r' = ir_source_id r)).
  - intros k' x Hx. destruct (decide (id = k')) as [<-|Hne].
    + rewrite lookup_insert_eq. eexists; split; [done|]. by assert (x = r) as -> by congruence.
    + rewrite lookup_insert_ne by done. by exists x.
Qed.
End evolution.

(** ** Transactions *)
Section atomic.
Context `{Hashlib} `{ModelValidate} (dp : deployment).

Lemma apply_resolution_last c v m winner user reason :
  CommitLast (ResolveConflict.apply_resolution c v m winner user reason).
Proof.
  pose proof execute_NoCommit.
  unfold ResolveConflict.apply_resolution, ResolveConflict.supersede_losers,
    ResolveConflict.check_winner, ConflictModified.after_failed_update. nocommit_walk.
Qed.

Lemma resolve_last id v win val prov user reason :
  CommitLast (ResolveConflict.execute (dp_curator dp) id v win val prov user reason).
Proof.
  pose proof apply_resolution_last.
  unfold ResolveConflict.execute, ResolveConflict.check_arguments, ResolveConflict.create_override,
    ResolveConflict.choose_existing, ResolveConflict.check_winner, ConflictModified.from_known.
  cbv zeta. nocommit_walk.
Qed.

Lemma reopen_last id v user reason : CommitLast (ReopenConflict.execute id v user reason).
Proof.
  pose proof execute_NoCommit.
  unfold ReopenConflict.execute, ReopenConflict.unsupersede_losers, ConflictModified.from_known,
    ConflictModified.after_failed_update. cbv zeta. nocommit_walk.
Qed.

Lemma merge_last s t by_ note review : CommitLast (MergeDuplicateEvents.execute s t by_ note review).
Proof.
  pose proof detect_and_apply_NoCommit.
  unfold MergeDuplicateEvents.execute, MergeDuplicateEvents.absorb, MergeDuplicateEvents.lock_events,
    MergeDuplicateEvents.check_not_merged, MergeDuplicateEvents.transfer_claim,
    MergeDuplicateEvents.supersede_original, MergeDuplicateEvents.close_source_conflicts,
    MergeDuplicateEvents.queue_reprojection, MergeDuplicateEvents.close_review.
  cbv zeta. nocommit_walk.
Qed.

Lemma review_last id action by_ note s : CommitLast (ReviewDuplicate.execute id action by_ note s).
Proof.
  unfold ReviewDuplicate.execute. unfold_repos.
  apply CommitLast_bind; [nocommit_walk|]. intros [r|]; [|nocommit_walk].
  destruct (bool_decide _); [nocommit_walk|]. destruct (String.eqb _ "CONFIRM").
  - apply CommitLast_bind; [nocommit_walk|]. intros [src tgt].
    apply (CommitLast_map _ Some), merge_last.
  - destruct (String.eqb _ "REJECT"); nocommit_walk.
Qed.

Lemma ingest_last sb :
  CommitLast (IngestSourceData.execute_with_result (dp_settings dp) (dp_registry dp) sb).
Proof.
  pose proof ingest_new_last. pose proof (ingest_replay_NoCommit true).
  unfold IngestSourceData.execute_with_result, IngestionIdempotencyService.check,
    SnapshotRepo.find_by_source_run. cbv zeta. nocommit_walk.
Qed.

Lemma handle_last r : CommitLast (handle dp r).
Proof.
  unfold handle. destruct r; apply (CommitLast_map _ (λ _, tt)).
  - apply execute_CommitLast.
  - apply resolve_last.
  - apply reopen_last.
  - apply merge_last.
  - apply review_last.
  - apply ingest_last.
Qed.
End atomic.

(** ** Properties *)

(** C9: whatever runs (requests, ingestions among them, batches of outbox workers,
    recovery of stale locks) and whatever other transactions commit in between, as long as those keep
    these rules too, the tables keep their integrity: at most one OPEN conflict per
    event and field, rows stored under their own ids, one activity entry per
    conflict and sequence number, no duplicate link, no projection version or
    outbox event used twice, and no outbox event ever attempted more often than
    the budget allows, those waiting for an attempt having one left; and one snapshot
    per source and ingestion run. *)
Theorem activities_keep_integrity `{Hashlib} `{ModelValidate} dp max_attempts minutes run_echo
    fail_echo str_exn a w :
  0 < max_attempts → elsewhere run_echo fail_echo →
  integrity max_attempts (w_db w) → integrity max_attempts (w_committed w) →
  Forall (λ f, ∀ db, integrity max_attempts db → integrity max_attempts (f db)) (w_env w) →
  let w' := (run dp max_attempts minutes run_echo fail_echo str_exn a w).2 in
  integrity max_attempts (w_db w') ∧ integrity max_attempts (w_committed w').
Proof.
  intros Hm He Hd Hc Henv.
  destruct (run_I dp max_attempts minutes run_echo fail_echo str_exn (integrity max_attempts) a
    He (integrity_step max_attempts Hm) w) as (H1 & H2 & _); [by split_and!|done].
Qed.

(** C10: the record of evidence only grows. Comparing the durable state before and
    after any request, outbox batch or recovery sweep, under interference that
    respects the same law: no claim is deleted or has its event, source, field,
    value, author or date changed; claim history, conflict activity and projection
    history keep every entry in order; links stay; a conflict row changes only
    together with a higher version; a merge pointer, once set, never moves; and an
    outbox event never changes once PROCESSED or DEAD_LETTER, never loses an
    attempt, and is leased anew only for a higher attempt number; a snapshot keeps its
    payload and hashes; an ingestion run keeps its source. *)
Theorem activities_only_append `{Hashlib} `{ModelValidate} dp max_attempts minutes run_echo
    fail_echo str_exn a w :
  elsewhere run_echo fail_echo → w_db w = w_committed w →
  Forall (λ f, ∀ db, evolves db (f db)) (w_env w) →
  evolves (w_committed w)
    (w_committed (run dp max_attempts minutes run_echo fail_echo str_exn a w).2).
Proof.
  intros He Hsame Henv.
  destruct (run_I dp max_attempts minutes run_echo fail_echo str_exn (evolves (w_committed w)) a)
    with (w := w) as (_ & H2 & _).
  - done.
  - intros db db' Hev Hs. etrans; [exact Hev|by eapply evolves_step].
  - split_and!; [by rewrite Hsame|done|].
    eapply Forall_impl; [exact Henv|]. intros f Hf db Hev. etrans; [exact Hev|apply Hf].
  - exact H2.
Qed.

(** requests are atomic. When a request fails, at whatever statement and with
    whatever exception, the durable state is what other transactions made of it:
    nothing the request wrote survives, in the database or in the session. *)
Theorem failed_request_leaves_no_trace `{Hashlib} `{ModelValidate} dp r w e w' :
  serve dp r w = (Raise e, w') →
  w_db w' = w_committed w'
  ∧ ∃ fs, w_env w = fs ++ w_env w' ∧ w_committed w' = foldl (λ db f, f db) (w_committed w) fs.
Proof.
  intros E. unfold serve in E. pose proof (CommitLast_with_uow _ (handle_last dp r) w e w' E)
    as (H1 & _). split; [|exact H1].
  unfold with_uow in E. destruct (handle dp r w) as [x w1]. by injection E as _ <-.
Qed.

(** a worker that lost its lease cannot interfere. Worker A leased an event;
    whatever happened since, worker B leased the same event; then B's lease is for a
    higher attempt, and at any later time, whatever happens in between, A's attempt
    to record an outcome for its own lease is refused and changes nothing. *)
Theorem stale_worker_is_fenced budget a b sk1 sk2 l1 l2 w1 w1' w2 w2' w3 es1 es2 o1 o2
    status err next :
  quiet w1 → quiet w2 → quiet w3 →
  (∀ k o, db_outbox (w_db w1) !! k = Some o → ob_id o = k) →
  (∀ k o, db_outbox (w_db w2) !! k = Some o → ob_id o = k) →
  OutboxQueue.fetch_and_lock_pending sk1 l1 a budget w1 = (Ok es1, w1') → o1 ∈ es1 →
  evolves (w_db w1') (w_db w2) →
  OutboxQueue.fetch_and_lock_pending sk2 l2 b budget w2 = (Ok es2, w2') → o2 ∈ es2 →
  ob_id o2 = ob_id o1 → evolves (w_db w2') (w_db w3) →
  ob_attempt_count o1 < ob_attempt_count o2
  ∧ ∃ w3', OutboxWorker.settle a o1 status err next w3 = (Ok false, w3') ∧ w_db w3' = w_db w3.
Proof.
  intros Hq1 Hq2 Hq3 Hk1 Hk2 E1 Hin1 Hev12 E2 Hin2 Hid Hev23.
  destruct (fetch_leases budget _ _ _ _ _ _ _ Hq1 Hk1 E1 Hin1) as (_ & Hr1 & _).
  destruct (fetch_leases budget _ _ _ _ _ _ _ Hq2 Hk2 E2 Hin2) as (_ & Hr2 & o & Ho & ->).
  destruct (ev_outbox _ _ Hev12 _ _ Hr1) as (x & Hx & P1). rewrite Hid in Ho, Hr2.
  assert (x = o) as -> by congruence.
  destruct (ev_outbox _ _ Hev23 _ _ Hr2) as (r3 & Hr3 & P2).
  pose proof (pr_attempts _ _ P1) as A1. pose proof (pr_attempts _ _ P2) as A2. simpl in A2 |- *.
  split; [lia|]. destruct w3 as [db com env now u]. unfold quiet in Hq3. simpl in *. subst env.
  unfold OutboxWorker.settle, OutboxQueue.update_status, utc_now, stmt, mbind, M_bind. simpl.
  rewrite Hr3, bool_decide_false; [by eexists|]. intros (_ & _ & Ha). lia.
Qed.

(** ** Witnesses *)
Definition sample_request (v : Z) : request :=
  RqResolve 40 v (Some 14%N) PNone false (Some 9%N) "why".

(** The sample conflict, and an event queued for reprojection. *)
Definition sample_core_db : DB := upd_outbox (λ _, {[ 90%N := sample_queued ]}) sample_conflict_db.

Lemma sample_integrity : integrity 5 sample_core_db.
Proof.
  split; [exact sample_one_open|exact sample_claims_keyed|exact sample_conflicts_keyed
    |apply NoDup_nil_2| | | | |].
  - change (NoDup [(40%N, 14%N); (40%N, 15%N)]). apply NoDup_cons_2.
    + intros H. apply list_elem_of_singleton in H. discriminate H.
    + apply NoDup_singleton.
  - intros i j h h' Hi. change (([] : list AccidentProjectionHistory) !! i = Some h) in Hi.
    by rewrite lookup_nil in Hi.
  - intros k o Ho. change (db_outbox sample_core_db)
      with ({[ 90%N := sample_queued ]} : gmap UUID OutboxEvent) in Ho.
    apply lookup_singleton_Some in Ho as [<- <-]. split; [done|]. split; simpl; lia.
  - apply (bool_decide_unpack (map_Forall (λ k e, ev_id e = k) (db_events sample_core_db))).
    vm_compute. exact I.
  - split; intros k; intros; exfalso; simplify_eq.
Defined.

(** Nothing is stored that could be validated. *)
Definition sample_validate : ModelValidate := λ _, None.
Definition sample_settings : IngestionSettings := mkSettings 100 1000000 5.
Definition sample_deployment : deployment :=
  mkDeployment 5 sample_settings SourceNormalizerRegistry.init.

Definition sample_run (a : activity) : World → Res unit * World :=
  run (H := sample_hashlib) (H0 := sample_validate) sample_deployment 5 10 no_job (λ o _, no_job o) (λ _, "error") a.

Lemma activities_keep_integrity_witness :
  integrity 5 (w_committed (sample_run (ProcessBatch "w1" (λ _, false) 10)
    (world_of sample_core_db)).2).
Proof.
  refine (proj2 (activities_keep_integrity (H := sample_hashlib) (H0 := sample_validate) sample_deployment 5 10 no_job (λ o _, no_job o)
    (λ _, "error") (ProcessBatch "w1" (λ _, false) 10) (world_of sample_core_db) eq_refl
    (conj (λ _ _, eq_refl) (λ _ _ _, eq_refl)) sample_integrity sample_integrity _)).
  apply Forall_nil_2.
Defined.

(** Meanwhile another curator's change of the conflict is committed. *)
Lemma activities_only_append_witness :
  let w := mkWorld sample_core_db sample_core_db [id; id; bump_40] 1000 1000 in
  evolves sample_core_db (w_committed (sample_run (Serve (sample_request 1)) w).2).
Proof.
  refine (activities_only_append (H := sample_hashlib) (H0 := sample_validate) sample_deployment 5 10 no_job (λ o _, no_job o)
    (λ _, "error") (Serve (sample_request 1))
    (mkWorld sample_core_db sample_core_db [id; id; bump_40] 1000 1000)
    (conj (λ _ _, eq_refl) (λ _ _ _, eq_refl)) eq_refl _).
  assert (Hb : ∀ db, evolves db (bump_40 db)).
  { intros db. pose proof (reflexivity (R := evolves) db) as [R1 R2 R3 R4 R5 R6 R7 R8].
    split; try assumption. intros k c Hc. unfold bump_40. simpl.
    destruct (decide (k = 40%N)) as [->|Hne].
    - rewrite lookup_alter_eq, Hc. eexists. split; [reflexivity|]. split; [by split_and!|].
      right. simpl. lia.
    - rewrite lookup_alter_ne by congruence. by apply R5. }
  apply Forall_cons_2; [intros db; reflexivity|]. apply Forall_cons_2; [intros db; reflexivity|].
  apply Forall_cons_2; [exact Hb|apply Forall_nil_2].
Defined.

(** Worker w1 leases the event and stalls; the lease is swept and w2 takes over. *)
Lemma stale_worker_is_fenced_witness :
  let fetch worker := OutboxQueue.fetch_and_lock_pending (λ _, false) 10 worker 5 in
  let w1 := (fetch "w1" (world_of sample_core_db)).2 in
  let w2 := (OutboxQueue.requeue_stale_locked_with_dead_letters 0 5 (commit w1).2).2 in
  let lost := OutboxQueue.lease "w1" 1000000 sample_queued in
  ∃ w3, OutboxWorker.settle "w1" lost OB_PROCESSED None None (fetch "w2" w2).2 = (Ok false, w3).
Proof.
  intros fetch w1 w2 lost.
  assert (Hone : ∀ (m : gmap UUID OutboxEvent) o, m = {[ 90%N := o ]} → ob_id o = 90%N →
    ∀ k x, m !! k = Some x → ob_id x = k).
  { intros m o -> Ho k x [<- <-]%lookup_singleton_Some. exact Ho. }
  destruct (stale_worker_is_fenced 5 "w1" "w2" (λ _, false) (λ _, false) 10 10
    (world_of sample_core_db) w1 w2 (fetch "w2" w2).2 (fetch "w2" w2).2
    [lost] [OutboxQueue.lease "w2" 1000003 (OutboxQueue.requeued lost)] lost
    (OutboxQueue.lease "w2" 1000003 (OutboxQueue.requeued lost)) OB_PROCESSED None None)
    as (_ & w3 & E & _); try reflexivity.
  - apply (Hone _ sample_queued); vm_compute; reflexivity.
  - apply (Hone _ (OutboxQueue.requeued lost)); vm_compute; reflexivity.
  - by left.
  - refine (proj1 (requeue_I 5 (evolves (w_db w1)) (λ db db' Hev Hs,
      transitivity Hev (evolves_step 5 db db' Hs)) (H := sample_hashlib) "w1" 0 no_job
      (λ o _, no_job o) (λ _, "") (λ _, false) (λ o, Inv_ret _ tt) (λ o _, Inv_ret _ tt) (commit w1).2 _)).
    split_and!; [reflexivity|reflexivity|apply Forall_nil_2].
  - by left.
  - exists w3. exact E.
Defined.

(** A stale version is refused: the other curator's change stands alone. *)
Lemma failed_request_leaves_no_trace_witness :
  ∃ e w', serve (H := sample_hashlib) (H0 := sample_validate) sample_deployment (sample_request 7) sample_w0 = (Raise e, w')
    ∧ w_db w' = w_committed w'.
Proof.
  eexists _, _. split; [vm_compute; reflexivity|].
  refine (proj1 (failed_request_leaves_no_trace (H := sample_hashlib) (H0 := sample_validate) sample_deployment (sample_request 7)
    sample_w0 _ _ _)). vm_compute. reflexivity.
Defined.
