(* ===== verification/Idempotency.v ===== *)
(** Ingestion as a whole: what a completed ingestion leaves behind, that repeating it
    changes nothing and answers the same, that its run cannot be reused for another
    submission, and that the order of the claims in a request is irrelevant. *)
From S2P Require Import Prelude Text PyFloat PyVal PyDate Entities ContextEntities Store Json Logic Normalize.
From S2P Require Import Matching Conflicts Projection Reproject Resolution Reconcile.
From S2P Require Import EventResolution Ingestion ClaimWrites Merge Outbox Steps Core.
Open Scope string_scope.
Open Scope list_scope.
Open Scope Z_scope.
#[local] Set Default Proof Using "Type".
Import IngestSourceData.

(** ** Parts of a request that neither publish nor roll back *)
Section parts.
Context (budget : Z) (some_attempt : 0 < budget).

Definition stepwise {A} (m : M A) : Prop := ∀ I : DB → Prop,
  (∀ db db', I db → step budget db db' → I db') → Inv I m.

Definition part {A} (m : M A) : Prop := Unpublished false m ∧ stepwise m.

Lemma part_ret {A} (a : A) : part (mret a).
Proof. split; [apply NoCommit_ret|intros I _; apply Inv_ret]. Qed.

Lemma part_bind {A B} (m : M A) (f : A → M B) :
  part m → (∀ a, part (f a)) → part (x ← m; f x).
Proof.
  intros [Hm Sm] Hf. split; [apply NoCommit_bind; [done|]; intros a; by apply Hf|].
  intros I closed. apply Inv_bind; [by apply Sm|]. intros a. by apply Hf.
Qed.

Lemma part_when b m : part m → part (when b m).
Proof. destruct b; [done|]. intros _. apply part_ret. Qed.

Lemma part_run {A} (m : M A) w r w' :
  part m → quiet w → integrity budget (w_db w) → m w = (r, w') →
  quiet w' ∧ integrity budget (w_db w') ∧ evolves (w_db w) (w_db w').
Proof using some_attempt.
  intros [Hu Hs] Hq Hi E. destruct (NoCommit_quiet false m w r w' Hu Hq E) as (Hq' & _).
  assert (w' = (m w).2) as -> by (by rewrite E). split_and!; [done|..].
  - apply blind_inv; try done. apply Hs. intros db db'. by apply integrity_step.
  - apply (blind_inv (evolves (w_db w))); try done. apply Hs.
    intros db db' H1 H2. etrans; [exact H1|by eapply evolves_step].
Qed.

Lemma update_identity_part id fs srid : part (update_identity id fs srid).
Proof. split; [apply update_identity_NoCommit|]. intros I closed. by eapply update_identity_I. Qed.

Lemma write_part e s k items run srid : part (ClaimWriter.write_normalised e s k items run srid).
Proof. split; [apply write_NoCommit|]. intros I closed. by eapply write_normalised_I. Qed.

Lemma resolve_part fs srid n : part (EventResolutionService.resolve_with_reviews fs srid n).
Proof. split; [apply resolve_NoCommit|]. intros I closed. by eapply resolve_with_reviews_I. Qed.

Lemma reconcile_part e run written : part (reconcile e run written).
Proof. split; [apply reconcile_NoCommit|]. intros I closed. by eapply ingest_reconcile_I. Qed.

Lemma continuity_part source_id srid explicit :
  part (SourceRecordContinuityService.resolve source_id srid explicit).
Proof. split; [apply continuity_NoCommit|]. intros I closed. by eapply continuity_I. Qed.
End parts.

Section completed.
Context `{Hashlib} `{ModelValidate} (settings : IngestionSettings)
  (registry : SourceNormalizerRegistry.t) (budget : Z) (some_attempt : 0 < budget).

(** The rows a completed ingestion of [sb] has left in the tables. *)
Record stored (sb : submission) (raw_payload_hash submission_hash : string)
    (r : IngestionResult) (db : DB) : Prop := mkStoredRows {
  sr_snapshot : ∃ k s t, db_snapshots db !! k = Some s
    ∧ rs_source_id s = sb_source_id sb ∧ rs_ingestion_run_id s = sb_ingestion_run_id sb
    ∧ rs_payload_json s = sb_raw_payload sb ∧ rs_source_record_id s = sb_source_record_id sb
    ∧ rs_payload_hash s = submission_hash ∧ rs_submission_hash s = Some submission_hash
    ∧ rs_raw_payload_hash s = Some raw_payload_hash ∧ is_Some (rs_submission_fingerprint s)
    ∧ rs_ingestion_result s = Some (result_json r t);
  sr_run : ∃ run, db_runs db !! sb_ingestion_run_id sb = Some run ∧ ir_status run = "finished"
    ∧ is_Some (ir_finished_at run);
  sr_event : is_Some (db_events db !! rt_event_id r);
  sr_queued : ∃ k o, db_outbox db !! k = Some o ∧ ob_event_type o = "CLAIMS_UPDATED"
    ∧ ob_aggregate_id o = rt_event_id r ∧ ob_status o = OB_PENDING ∧ ob_attempt_count o = 0
    ∧ ob_payload o = [("event_id", PStr (uuid_str (rt_event_id r)));
                      ("source_id", PStr (uuid_str (sb_source_id sb)));
                      ("ingestion_run_id", PStr (uuid_str (sb_ingestion_run_id sb)))];
  sr_review_ids : ∃ created by_ reviews, r = make_result (rt_event_id r) created true false
    (head reviews) reviews by_;
}.

Lemma finish_run sb k r w w' :
  quiet w → finish sb k r w = (Ok tt, w') →
  ∃ s t run t', db_snapshots (w_db w) !! k = Some s
  ∧ db_runs (w_db w) !! sb_ingestion_run_id sb = Some run
  ∧ w_db w' = upd_runs <[sb_ingestion_run_id sb := RunRepo.with_status "finished" (Some t') run]>
      (upd_snapshots <[k := SnapshotRepo.with_result (result_json r t) s]> (w_db w))
  ∧ w_committed w' = w_db w' ∧ quiet w'.
Proof.
  destruct w as [db com env now u]. unfold quiet. simpl. intros ->. unfold finish, utc_now.
  intros (t & w1 & [= <- <-] & H1)%bind_Ok_inv. apply bind_Ok_inv in H1 as ([] & w1 & E1 & H1).
  unfold SnapshotRepo.update_ingestion_result in E1. rewrite stmt_quiet in E1 by done. simpl in E1.
  destruct (db_snapshots db !! k) as [s|] eqn:Es; [|done]. injection E1 as <-.
  apply bind_Ok_inv in H1 as (t' & w2 & [= <- <-] & H1). apply bind_Ok_inv in H1 as ([] & w3 & E3 & H1).
  unfold RunRepo.update_status in E3. rewrite stmt_quiet in E3 by done. simpl in E3.
  destruct (db_runs db !! sb_ingestion_run_id sb) as [run|] eqn:Er; [|done].
  injection E3 as <-. injection H1 as <-. simpl. by eexists s, _, run, _.
Qed.

Lemma must_exist_ok id o w e w' :
  must_exist id o w = (Ok e, w') → o = Some e ∧ is_merged e = false ∧ w' = w.
Proof.
  unfold must_exist. destruct o as [x|]; [|done]. destruct (is_merged x) eqn:Em; [done|].
  by intros [= <- <-].
Qed.

(** Phases 5 and 6 end with an event that exists. *)
Lemma lock_and_write_event sb e m ld k w event written w' :
  quiet w → integrity budget (w_db w) →
  lock_and_write_claims sb e m ld k w = (Ok (event, written), w') →
  is_Some (db_events (w_db w') !! ev_id event).
Proof using some_attempt.
  intros Hq Hi. unfold lock_and_write_claims.
  intros (o & w1 & E1 & Hrest)%bind_Ok_inv. unfold EventRepo.lock_for_update in E1.
  rewrite get_run, env_step_quiet in E1 by done. injection E1 as <- <-.
  apply bind_Ok_inv in Hrest as (locked & w1 & E2 & Hrest).
  apply must_exist_ok in E2 as (Ho & _ & ->).
  assert (Hpart : part budget (when (negb m) (update_identity (ev_id locked)
    (ld_normalised_fields ld) (sb_source_record_id sb));; written ← ClaimWriter.write_normalised
    (ev_id locked) (sb_source_id sb) k (ld_normalised_claims ld) (sb_ingestion_run_id sb)
    (sb_source_record_id sb); mret (locked, written))).
  { apply part_bind; [apply part_when, update_identity_part|]. intros _.
    apply part_bind; [apply write_part|]. intros. apply part_ret. }
  destruct (part_run budget some_attempt _ _ _ _ Hpart Hq Hi Hrest) as (_ & _ & Hev).
  assert (event = locked) as ->.
  { apply bind_Ok_inv in Hrest as (? & ? & _ & Hrest).
    apply bind_Ok_inv in Hrest as (? & ? & _ & Hrest). by injection Hrest. }
  assert (Hid : ev_id e = ev_id locked) by (symmetry; by apply (in_events _ _ Hi)).
  rewrite Hid in Ho. destruct (ev_merges _ _ Hev _ _ Ho) as (e' & He' & _). eauto.
Qed.
Lemma lock_and_write_part sb e m ld k : part budget (lock_and_write_claims sb e m ld k).
Proof.
  apply part_bind.
  { split; [apply NoCommit_stmt|]. intros I _. apply Inv_query. }
  intros o. apply part_bind.
  { unfold must_exist. destruct o as [x|]; [destruct (is_merged x)|];
      (split; [try apply NoCommit_raise; try apply NoCommit_ret|intros I _; try apply Inv_raise;
        try apply Inv_ret]). }
  intros locked. apply part_bind; [apply part_when, update_identity_part|]. intros _.
  apply part_bind; [apply write_part|]. intros. apply part_ret.
Qed.

Lemma resolve_event_part sb explicit continued fs :
  part budget (resolve_event settings sb explicit continued fs).
Proof.
  unfold resolve_event. destruct explicit as [e|]; [apply part_ret|].
  destruct continued as [e|]; [apply part_ret|].
  apply part_bind; [apply resolve_part|]. intros. apply part_ret.
Qed.

Lemma queue_projection_ok e s run w w' :
  quiet w → queue_projection e s run w = (Ok tt, w') →
  quiet w' ∧ ∃ o, db_outbox (w_db w) !! ob_id o = None ∧ w_db w' = upd_outbox <[ob_id o := o]> (w_db w)
  ∧ ob_event_type o = "CLAIMS_UPDATED" ∧ ob_aggregate_id o = e ∧ ob_status o = OB_PENDING
  ∧ ob_attempt_count o = 0
  ∧ ob_payload o = [("event_id", PStr (uuid_str e)); ("source_id", PStr (uuid_str s));
                    ("ingestion_run_id", PStr (uuid_str run))].
Proof.
  intros Hq. unfold queue_projection, uuid4, utc_now, OutboxRepo.add.
  unfold mbind, M_bind. rewrite stmt_quiet by done. cbn [w_db w_now w_uuid ob_id].
  set (o := mkOutbox _ _ _ _ _ _ _ _ _ _ _ _).
  destruct (db_outbox (w_db w) !! w_uuid w) eqn:En; [done|]. intros [= <-].
  split; [done|]. by exists o.
Qed.

(** Phases 5 to 8. *)
Lemma ingest_snapshot_run sb h1 h2 ld continued s w r w' :
  quiet w → integrity budget (w_db w) → db_snapshots (w_db w) !! rs_id s = Some s →
  rs_source_id s = sb_source_id sb → rs_ingestion_run_id s = sb_ingestion_run_id sb →
  rs_payload_json s = sb_raw_payload sb → rs_source_record_id s = sb_source_record_id sb →
  rs_payload_hash s = h2 → rs_submission_hash s = Some h2 → rs_raw_payload_hash s = Some h1 →
  is_Some (rs_submission_fingerprint s) →
  ingest_snapshot settings sb ld continued s w = (Ok r, w') →
  quiet w' ∧ w_committed w' = w_db w' ∧ stored sb h1 h2 r (w_db w').
Proof using some_attempt.
  intros Hq Hi Hs K1 K2 K3 K4 K5 K6 K7 K8. unfold ingest_snapshot.
  intros ([res maintained] & w1 & E1 & Hrest)%bind_Ok_inv.
  destruct (part_run budget some_attempt _ _ _ _ (resolve_event_part _ _ _ _) Hq Hi E1)
    as (Hq1 & Hi1 & Ev1).
  apply bind_Ok_inv in Hrest as ([event written] & w2 & E2 & Hrest).
  destruct (part_run budget some_attempt _ _ _ _ (lock_and_write_part _ _ _ _ _) Hq1 Hi1 E2)
    as (Hq2 & Hi2 & Ev2).
  pose proof (lock_and_write_event _ _ _ _ _ _ _ _ _ Hq1 Hi1 E2) as Hev.
  apply bind_Ok_inv in Hrest as ([] & w3 & E3 & Hrest).
  destruct (part_run budget some_attempt _ _ _ _ (reconcile_part _ _ _ _) Hq2 Hi2 E3)
    as (Hq3 & Hi3 & Ev3).
  apply bind_Ok_inv in Hrest as ([] & w4 & E4 & Hrest).
  apply queue_projection_ok in E4 as (Hq4 & o & Ho & Hd4 & O1 & O2 & O3 & O4 & O5); [|done].
  apply bind_Ok_inv in Hrest as ([] & w5 & E5 & Hrest). injection Hrest as <- <-.
  apply finish_run in E5 as (s' & t & run & t' & Hs' & Hr & Hd & Hc & Hq5); [|done].
  split_and!; [done|done|].
  assert (Hev03 : evolves (w_db w) (w_db w3)) by (etrans; [exact Ev1|by etrans]).
  destruct (ev_snapshots _ _ Hev03 _ _ Hs) as (s3 & Hs3 & Hsame).
  rewrite Hd4 in Hs', Hr. simpl in Hs', Hr. assert (s3 = s') as -> by congruence.
  destruct Hsame as (S1 & S2 & S3 & S4 & S5 & S6 & S7 & S8 & S9 & S10 & S11 & _).
  rewrite Hd, Hd4. split; simpl.
  - exists (rs_id s). eexists _, t.
    split; [apply lookup_insert_eq|]. simpl. split_and!; congruence.
  - eexists. split; [apply lookup_insert_eq|]. split; [done|]. by eexists.
  - destruct Hev as [e He]. destruct (ev_merges _ _ Ev3 _ _ He) as (e' & He' & _). eauto.
  - exists (ob_id o), o. split; [apply lookup_insert_eq|]. done.
  - eexists _, _, (dr_id <$> EventResolutionService.re_reviews res).
    simpl. by destruct (EventResolutionService.re_reviews res).
Qed.
Import IngestionIdempotencyService.

Lemma replay_flag s w r w' :
  result_from_snapshot s w = (Ok (Some r), w') → rt_idempotent_replay r = true.
Proof.
  assert (Hlegacy : (existing ← ClaimRepo.find_event_id_by_raw_snapshot_id (rs_id s);
      match existing with
      | None => mret None
      | Some id => event_id ← canonical_event_id id;
          mret (Some (make_result event_id false false true None []
                        "idempotent_replay_legacy_claim_lookup"))
      end) w = (Ok (Some r), w') → rt_idempotent_replay r = true).
  { intros (o & w1 & _ & E)%bind_Ok_inv. destruct o as [id|]; [|done].
    apply bind_Ok_inv in E as (e & w2 & _ & E). by injection E as <- _. }
  unfold result_from_snapshot. destruct (rs_ingestion_result s) as [[|kv d]|]; [exact Hlegacy| |exact Hlegacy].
  intros (x & w1 & E & H1)%bind_Ok_inv. injection H1 as <- <-. unfold result_from_json in E.
  destruct (model_validate _) as [st|]; [|done]. destruct (negb _); [done|].
  destruct (replay_seed_event_id st); [|done]. apply bind_Ok_inv in E as (e & w2 & _ & E).
  by injection E as <- _.
Qed.

Lemma load_part sb h : part budget (load_and_normalise registry sb h).
Proof.
  split.
  - unfold load_and_normalise, explicit_event, must_exist. unfold_repos. repeat nocommit_step.
  - intros I _. unfold load_and_normalise, explicit_event, must_exist, SourceRepo.get, EventRepo.get.
    repeat inv_step.
Qed.

Lemma start_run_part sb : part budget (start_run sb).
Proof.
  split.
  - unfold start_run, RunRepo.ensure_started, RunRepo.get. repeat nocommit_step.
  - intros I closed. pose proof (run_start_I budget I closed). unfold start_run, RunRepo.get.
    repeat first [solve [auto 2]|inv_step].
Qed.

Lemma continuity_of_part sb e : part budget (continuity sb e).
Proof. unfold continuity. destruct (sb_source_record_id sb); [apply continuity_part|apply part_ret]. Qed.

Lemma check_reads_part a b c d : part budget (check a b c d).
Proof.
  split.
  - pose proof (λ s, ingest_replay_NoCommit false s). unfold check, SnapshotRepo.find_by_source_run.
    repeat first [solve [auto 2]|nocommit_step].
  - intros I closed. pose proof (replay_I budget I closed). unfold check, SnapshotRepo.find_by_source_run.
    repeat first [solve [auto 2]|inv_step].
Qed.

Lemma insert_snapshot_ok sb now h1 h2 fp w s w' :
  quiet w → insert_snapshot sb now h1 h2 fp w = (Ok (inl s), w') →
  quiet w' ∧ db_snapshots (w_db w') !! rs_id s = Some s
  ∧ rs_source_id s = sb_source_id sb ∧ rs_ingestion_run_id s = sb_ingestion_run_id sb
  ∧ rs_payload_json s = sb_raw_payload sb ∧ rs_source_record_id s = sb_source_record_id sb
  ∧ rs_payload_hash s = h2 ∧ rs_submission_hash s = Some h2 ∧ rs_raw_payload_hash s = Some h1
  ∧ is_Some (rs_submission_fingerprint s)
  ∧ step budget (w_db w) (w_db w').
Proof.
  intros Hq. unfold insert_snapshot, uuid4, utc_now. intros (id & w1 & [= <- <-] & E)%bind_Ok_inv.
  apply bind_Ok_inv in E as (t & w1 & [= <- <-] & E). cbv zeta in E.
  apply bind_Ok_inv in E as (ins & w1 & E1 & E). unfold SnapshotRepo.try_add_unique in E1.
  rewrite stmt_quiet in E1 by done. cbn [w_db w_now w_uuid] in E1. revert E1 E.
  set (s0 := mkSnapshot _ _ _ _ _ _ _ _ _ _ _ _). intros E1 E.
  destruct (existsb _ _) eqn:Ex.
  - injection E1 as <- <-. cbv iota in E. apply bind_Ok_inv in E as (o & w2 & _ & E).
    destruct o as [x|]; [|done]. destruct (negb _); [done|].
    apply bind_Ok_inv in E as ([y|] & w3 & _ & E); [by injection E|done].
  - destruct (db_snapshots (w_db w) !! rs_id s0) eqn:En; [done|]. injection E1 as <- <-.
    injection E as <- <-. split_and!; try done.
    + simpl. apply lookup_insert_eq.
    + by apply (step_snapshot_add budget (w_db w) s0).
Qed.

(** A completed ingestion, from the request to the durable rows. *)
Lemma execute_stored request w r w' :
  quiet w → integrity budget (w_db w) →
  execute_with_result settings registry request w = (Ok r, w') → rt_idempotent_replay r = false →
  quiet w' ∧ w_committed w' = w_db w' ∧ ∃ h1 h2,
    validate_and_hash settings (clean_record_id request) = Ok (h1, h2)
    ∧ stored (clean_record_id request) h1 h2 r (w_db w').
Proof using some_attempt.
  intros Hq Hi. unfold execute_with_result. generalize (clean_record_id request) as sb. intros sb.
  intros ([h1 h2] & w1 & E1 & E)%bind_Ok_inv Hr. unfold lift_res in E1. injection E1 as Eh <-.
  apply bind_Ok_inv in E as (early & w1 & E1 & E).
  destruct (part_run budget some_attempt _ _ _ _ (check_reads_part _ _ _ _) Hq Hi E1)
    as (Hq1 & Hi1 & _).
  destruct early as [early|].
  { exfalso. injection E as -> ->. unfold check in E1.
    apply bind_Ok_inv in E1 as (o & w2 & _ & E1). destruct o as [s|]; [|done].
    destruct (negb _); [done|]. apply bind_Ok_inv in E1 as ([x|] & w3 & E3 & E1); [|done].
    injection E1 as -> ->. apply replay_flag in E3. congruence. }
  unfold ingest_new in E. apply bind_Ok_inv in E as (ld & w2 & E2 & E).
  destruct (part_run budget some_attempt _ _ _ _ (load_part _ _) Hq1 Hi1 E2) as (Hq2 & Hi2 & _).
  apply bind_Ok_inv in E as ([] & w3 & E3 & E).
  destruct (part_run budget some_attempt _ _ _ _ (start_run_part _) Hq2 Hi2 E3) as (Hq3 & Hi3 & _).
  apply bind_Ok_inv in E as (cont & w4 & E4 & E).
  destruct (part_run budget some_attempt _ _ _ _ (continuity_of_part _ _) Hq3 Hi3 E4) as (Hq4 & Hi4 & _).
  apply bind_Ok_inv in E as (now & w5 & [= <- <-] & E).
  apply bind_Ok_inv in E as (ins & w6 & E6 & E). destruct ins as [s|x].
  - apply insert_snapshot_ok in E6 as (Hq6 & Hs & K1 & K2 & K3 & K4 & K5 & K6 & K7 & K8 & Hst); [|done].
    apply (integrity_step budget some_attempt) in Hst as Hi6; [|exact Hi4].
    destruct (ingest_snapshot_run sb h1 h2 ld cont s w6 r w') as (? & ? & ?); try done.
    split_and!; [done|done|]. by exists h1, h2.
  - exfalso. injection E as -> ->. unfold insert_snapshot in E6.
    apply bind_Ok_inv in E6 as (? & ? & _ & E6). apply bind_Ok_inv in E6 as (? & ? & _ & E6).
    cbv zeta in E6. apply bind_Ok_inv in E6 as ([] & ? & _ & E6); [done|].
    apply bind_Ok_inv in E6 as ([y|] & ? & _ & E6); [|done]. destruct (negb _); [done|].
    apply bind_Ok_inv in E6 as ([z|] & ? & E7 & E6); [|done]. injection E6 as -> ->.
    apply replay_flag in E7. congruence.
Qed.
End completed.

(** ** Repeating a request *)

(** The stored form of a result, and the identifiers it holds. *)
Definition stored_of (r : IngestionResult) : StoredIngestionResult :=
  mkStored 1 (Some (rt_event_id r)) (Some (rt_event_id r)) (rt_event_created r)
    (rt_snapshot_created r) (rt_pending_review_id r) (rt_pending_review_ids r) (rt_attached_by r).

Definition wide (r : IngestionResult) : Prop :=
  (rt_event_id r < uuid_bound)%N
  ∧ Forall (λ u, (u < uuid_bound)%N) (rt_pending_review_ids r)
  ∧ match rt_pending_review_id r with Some u => (u < uuid_bound)%N | None => True end.

(** pydantic reads a stored result back. *)
Definition validates `{ModelValidate} : Prop :=
  ∀ r t, wide r → model_validate (result_json r t) = Some (stored_of r).

(** The answer to a repeated request: the stored one, for the event that is canonical
    by then. *)
Definition replayed (r : IngestionResult) (event_id : UUID) : IngestionResult :=
  mkResult event_id (rt_event_created r) false true (rt_pending_review_id r)
    (rt_pending_review_ids r)
    (if str_empty (rt_attached_by r) then "idempotent_replay" else rt_attached_by r).

Lemma filter_ne_cons (p : UUID) (l : list UUID) : p ∉ l → filter (λ id, id ≠ p) l = l.
Proof.
  intros Hp. induction l as [|x l IH]; [done|]. apply not_elem_of_cons in Hp as [Hne Hp].
  rewrite filter_cons, decide_True by congruence. by rewrite IH.
Qed.

Lemma replay_ids_make id created by_ reviews id' created' :
  let r := make_result id created true false (head reviews) reviews by_ in
  make_result id' created' false true (rt_pending_review_id r)
    (IngestionIdempotencyService.replay_review_ids (stored_of r))
    (if str_empty (rt_attached_by r) then "idempotent_replay" else rt_attached_by r)
  = mkResult id' created' false true (rt_pending_review_id r) (rt_pending_review_ids r)
      (if str_empty (rt_attached_by r) then "idempotent_replay" else rt_attached_by r).
Proof.
  destruct reviews as [|p rest]; [reflexivity|]. cbv zeta.
  unfold IngestionIdempotencyService.replay_review_ids, make_result, stored_of.
  cbn [head rt_pending_review_id rt_pending_review_ids rt_attached_by st_pending_review_ids
    st_pending_review_id].
  set (ids := p :: filter (λ id, id ≠ p) (dict_fromkeys (p :: rest))).
  assert (Hnd : NoDup ids).
  { constructor; [|apply NoDup_filter, NoDup_fromkeys]. by intros [? _]%list_elem_of_filter. }
  rewrite (fromkeys_NoDup ids Hnd), bool_decide_true by left.
  rewrite (fromkeys_NoDup ids Hnd). f_equal. unfold ids at 1. rewrite filter_cons.
  rewrite decide_False by (intros Hc; by apply Hc). f_equal. apply filter_ne_cons.
  by apply NoDup_cons in Hnd as [? _].
Qed.

Lemma find_unique k s w :
  quiet w → snapshots_ok (w_db w) → db_snapshots (w_db w) !! k = Some s →
  SnapshotRepo.find_by_source_run (rs_source_id s) (rs_ingestion_run_id s) w = (Ok (Some s), w).
Proof.
  intros Hq [Hk Hu] Hs. unfold SnapshotRepo.find_by_source_run. rewrite query_quiet by done.
  do 2 f_equal. match goal with |- head ?l = _ => destruct l as [|x l'] eqn:El end.
  - apply py_sorted_nil in El. exfalso. assert (Hin : s ∈ []); [|by apply elem_of_nil in Hin].
    rewrite <- El. apply list_elem_of_filter. split; [done|]. apply elem_of_rows. eauto.
  - assert (Hx : x ∈ x :: l') by left. rewrite <- El, elem_of_py_sorted in Hx.
    apply list_elem_of_filter in Hx as [[H1 H2] Hx]. apply elem_of_rows in Hx as [k' Hx].
    assert (k' = k) as -> by (by apply (Hu k' k x s)). simpl. congruence.
Qed.

Section repeating.
Context `{Hashlib} `{ModelValidate} (settings : IngestionSettings)
  (registry : SourceNormalizerRegistry.t) (budget : Z) (some_attempt : 0 < budget).

(** C20: what a completed ingestion leaves behind. A request that ran without
    interference and returned a result of its own (not a replay) has published
    everything it wrote: one snapshot with the submission's payload, its two hashes,
    its fingerprint and the result returned; its run marked finished; the event the
    result names; and one fresh CLAIMS_UPDATED entry for that event in the outbox,
    with the source and the run in its payload. *)
Theorem ingestion_is_durable request w r w' :
  quiet w → integrity budget (w_db w) →
  execute_with_result settings registry request w = (Ok r, w') → rt_idempotent_replay r = false →
  w_committed w' = w_db w' ∧ ∃ h1 h2,
    validate_and_hash settings (clean_record_id request) = Ok (h1, h2)
    ∧ stored (clean_record_id request) h1 h2 r (w_db w').
Proof using some_attempt.
  intros Hq Hi E Hr. by destruct (execute_stored settings registry budget some_attempt _ _ _ _ Hq Hi E Hr)
    as (_ & ? & ?).
Qed.

(** Snapshots on file stay as they are. *)
Definition snapshots_kept (db db' : DB) : Prop :=
  ∀ k s, db_snapshots db !! k = Some s → db_snapshots db' !! k = Some s.

(** C21: ingestion is idempotent. Once a request has completed, sending it again at any
    later time, whatever was ingested, resolved or merged since, writes nothing at all
    and answers with the stored outcome (same reviews, same way of attaching), marked
    as a replay, for the event that is canonical now, found by following merge
    pointers; it fails only when these pointers are broken. *)
Theorem ingestion_replay request w r w1 w2 :
  validates → quiet w → integrity budget (w_db w) →
  execute_with_result settings registry request w = (Ok r, w1) →
  rt_idempotent_replay r = false → wide r →
  quiet w2 → integrity budget (w_db w2) → snapshots_kept (w_db w1) (w_db w2) →
  ∃ out, execute_with_result settings registry request w2 = (out, w2)
  ∧ match out with
    | Ok r' => ∃ e, canonical_of (db_events (w_db w2)) (rt_event_id r) e ∧ r' = replayed r (ev_id e)
    | Raise (EventNotFoundError k) =>
        rtc (points (db_events (w_db w2))) (rt_event_id r) k ∧ db_events (w_db w2) !! k = None
    | Raise (EventAlreadyMergedError k _) => tc (points (db_events (w_db w2))) k k
    | Raise _ => False
    end.
Proof using some_attempt.
  intros Hval Hq Hi E Hr Hw Hq2 Hi2 Hkept.
  destruct (execute_stored settings registry budget some_attempt _ _ _ _ Hq Hi E Hr)
    as (_ & _ & h1 & h2 & Eh & [Hs _ _ _ (created & by_ & reviews & Emk)]).
  destruct Hs as (k & s & t & Hs & K1 & K2 & K3 & K4 & K5 & K6 & K7 & K8 & K9). apply Hkept in Hs.
  unfold execute_with_result, lift_res. rewrite Eh. unfold mbind at 1, M_bind at 1.
  unfold IngestionIdempotencyService.check. rewrite <- K1, <- K2.
  pose proof (find_unique k s w2 Hq2 (in_snapshots _ _ Hi2) Hs) as Efind.
  assert (Hmatch : IngestionIdempotencyService.snapshot_hash_matches s h2 h1 = true).
  { unfold IngestionIdempotencyService.snapshot_hash_matches. rewrite K6, K5. simpl.
    destruct (str_empty h2); by rewrite String.eqb_refl. }
  destruct (canonical_quiet (rt_event_id r) w2 Hq2 (in_events _ _ Hi2)) as (o & Eo & Hend).
  assert (Erep : IngestionIdempotencyService.result_from_snapshot s w2
    = (match o with
       | Ok (inr e) => Ok (Some (replayed r (ev_id e)))
       | Ok (inl k) => Raise (EventNotFoundError k)
       | Raise x => Raise x
       end, w2)).
  { unfold IngestionIdempotencyService.result_from_snapshot. rewrite K9. unfold result_json.
    cbv iota. fold (result_json r t). unfold IngestionIdempotencyService.result_from_json.
    rewrite Hval by done. cbn [st_schema_version stored_of]. simpl (negb _). cbv iota.
    unfold IngestionIdempotencyService.replay_seed_event_id, IngestionIdempotencyService.canonical_event_id.
    cbn [stored_of st_event_id_at_completion coalesce]. unfold mbind, M_bind. rewrite Eo.
    destruct o as [[m|e]|x]; [done| |done]. unfold mret, M_ret. do 3 f_equal.
    rewrite Emk. unfold replayed. apply replay_ids_make. }
  unfold mbind, M_bind. rewrite Efind, Hmatch. cbn [negb]. rewrite Erep.
  destruct o as [[m|e]|x]; simpl in Hend.
  - eexists. split; [reflexivity|]. exact Hend.
  - eexists. split; [reflexivity|]. by exists e.
  - destruct Hend as (m & tgt & -> & _ & Hcyc). eexists. split; [reflexivity|]. exact Hcyc.
Qed.

(** a run belongs to one submission. After a request has completed, any other
    valid submission for the same source and ingestion run, recognised by its hash, is
    refused with a payload mismatch, at any later time, and nothing is written. *)
Theorem ingestion_mismatch request other w r w1 w2 h1 h2 h1' h2' :
  quiet w → integrity budget (w_db w) →
  execute_with_result settings registry request w = (Ok r, w1) → rt_idempotent_replay r = false →
  quiet w2 → integrity budget (w_db w2) → snapshots_kept (w_db w1) (w_db w2) →
  sb_source_id other = sb_source_id request →
  sb_ingestion_run_id other = sb_ingestion_run_id request →
  validate_and_hash settings (clean_record_id request) = Ok (h1, h2) →
  validate_and_hash settings (clean_record_id other) = Ok (h1', h2') → h2 ≠ h2' →
  execute_with_result settings registry other w2 = (Raise IdempotencyKeyPayloadMismatchError, w2).
Proof using some_attempt.
  intros Hq Hi E Hr Hq2 Hi2 Hkept Hsrc Hrun Eh Eh' Hne.
  destruct (execute_stored settings registry budget some_attempt _ _ _ _ Hq Hi E Hr)
    as (_ & _ & g1 & g2 & Eg & [Hs _ _ _ _]).
  assert (g2 = h2) as -> by congruence.
  destruct Hs as (k & s & t & Hs & K1 & K2 & K3 & K4 & K5 & K6 & K7 & [fp K8] & K9).
  apply Hkept in Hs. unfold execute_with_result, lift_res. rewrite Eh'.
  unfold mbind at 1, M_bind at 1. unfold IngestionIdempotencyService.check. simpl sb_source_id.
  simpl sb_ingestion_run_id. rewrite Hsrc, Hrun.
  pose proof (find_unique k s w2 Hq2 (in_snapshots _ _ Hi2) Hs) as Efind. rewrite K1, K2 in Efind.
  simpl in Efind. unfold mbind, M_bind. rewrite Efind.
  assert (IngestionIdempotencyService.snapshot_hash_matches s h2' h1' = false) as ->; [|reflexivity].
  unfold IngestionIdempotencyService.snapshot_hash_matches. rewrite K6, K5, K8. simpl.
  destruct (str_empty h2); rewrite orb_false_r; by apply String.eqb_neq.
Qed.
End repeating.

(** ** The order of the claims in a request *)
Section order.
Context `{Hashlib}.

Lemma submission_key_total x y : key_leb x y = true ∨ key_leb y x = true.
Proof.
  unfold key_leb. destruct (String.eqb x.1.1 y.1.1) eqn:E.
  - apply String.eqb_eq in E. rewrite <- E, String.eqb_refl. apply string_leb_total.
  - rewrite String.eqb_sym, E. apply string_leb_total.
Qed.

Lemma submission_key_trans x y z : key_leb x y = true → key_leb y z = true → key_leb x z = true.
Proof.
  unfold key_leb.
  destruct (String.eqb x.1.1 y.1.1) eqn:E1, (String.eqb y.1.1 z.1.1) eqn:E2; intros H1 H2.
  - apply String.eqb_eq in E1, E2. rewrite E1, E2, String.eqb_refl. by eapply string_leb_trans.
  - apply String.eqb_eq in E1. rewrite E1, E2. done.
  - apply String.eqb_eq in E2. rewrite <- E2, E1. done.
  - destruct (String.eqb x.1.1 z.1.1) eqn:E3; [|by eapply string_leb_trans].
    apply String.eqb_eq in E3. exfalso. rewrite <- E3 in H2.
    apply String.eqb_neq in E1. apply E1. by apply string_leb_antisym.
Qed.

(** Every claim fails in the same way, if it fails. *)
Lemma claim_keys_perm l1 l2 : (l1 ≡ₚ l2) →
  match map_res claim_key l1, map_res claim_key l2 with
  | Ok y1, Ok y2 => (y1 ≡ₚ y2)
  | Raise e1, Raise e2 => e1 = e2
  | _, _ => False
  end.
Proof.
  assert (Hraise : ∀ l e, map_res claim_key l = Raise e →
    e = DomainValidationError "claim field_value must be JSON-serializable").
  { intros l e. induction l as [|x l IH]; [done|]. simpl. unfold mbind, Res_bind.
    destruct (claim_key x) as [k|e'] eqn:Ek.
    - destruct (map_res claim_key l); [done|]. intros [= <-]. by apply IH.
    - intros [= <-]. revert Ek. unfold claim_key, canonical_bytes, mbind, Res_bind.
      destruct (json_dumps (dto_field_value x)); [done|]. by intros [= <-]. }
  assert (Hok : ∀ l1 l2, (l1 ≡ₚ l2) → ∀ y1, map_res claim_key l1 = Ok y1 →
    ∃ y2, map_res claim_key l2 = Ok y2 ∧ (y1 ≡ₚ y2)).
  { intros k1 k2 Hp y1 E. apply map_res_Forall2 in E.
    destruct (Permutation_Forall2 Hp E) as (y2 & Hp2 & HF).
    exists y2. split; [by apply map_res_Forall2|done]. }
  intros Hp. destruct (map_res claim_key l1) as [y1|e1] eqn:E1.
  - destruct (Hok _ _ Hp y1 E1) as (y2 & -> & Hy). done.
  - destruct (map_res claim_key l2) as [y2|e2] eqn:E2.
    + symmetry in Hp. destruct (Hok _ _ Hp y2 E2) as (y1 & E & _). congruence.
    + by rewrite (Hraise _ _ E1), (Hraise _ _ E2).
Qed.

Lemma claim_key_inv c k : claim_key c = Ok k →
  k.1.1 = dto_field_name c ∧ k.2 = PDict (model_dump c).
Proof. unfold claim_key, mbind, Res_bind. destruct (canonical_bytes _ _); [|done]. by intros [= <-]. Qed.

Lemma claim_key_names l ks :
  map_res claim_key l = Ok ks → (λ k : (string * string) * pyval, k.1.1) <$> ks = dto_field_name <$> l.
Proof.
  intros E. apply map_res_Forall2 in E. induction E as [|c k l ks Hc _ IH]; [done|].
  rewrite !fmap_cons. f_equal; [by apply claim_key_inv|done].
Qed.

Lemma sorted_claims_perm l1 l2 :
  NoDup (dto_field_name <$> l1) → (l1 ≡ₚ l2) → sorted_claims l1 = sorted_claims l2.
Proof.
  intros Hnd Hp. unfold sorted_claims, mbind, Res_bind. pose proof (claim_keys_perm l1 l2 Hp) as Hk.
  destruct (map_res claim_key l1) as [y1|e1] eqn:E1, (map_res claim_key l2) as [y2|e2] eqn:E2;
    try done; [|congruence].
  pose proof (claim_key_names _ _ E1) as Hnames.
  f_equal. f_equal. apply py_sorted_perm_eq; [apply submission_key_total|apply submission_key_trans| |done].
  intros x y Hx Hy H1 H2. apply (NoDup_fmap_inj_elem (λ k : (string * string) * pyval, k.1.1) y1);
    [by rewrite Hnames|done|done|].
  unfold key_leb in H1, H2. destruct (String.eqb x.1.1 y.1.1) eqn:E; [by apply String.eqb_eq|].
  rewrite String.eqb_sym, E in H2. by apply string_leb_antisym.
Qed.
Definition with_claims (cs : list IngestionClaimDTO) (sb : submission) : submission :=
  mkSubmission (sb_source_id sb) (sb_raw_payload sb) (sb_ingestion_run_id sb) cs
    (sb_captured_at sb) (sb_event_id sb) (sb_source_record_id sb).

(** the order of claims in a request is irrelevant. Two submissions that differ
    only in the order of their claims, no field being named twice, are validated alike:
    both are refused with the same error, or both get the same payload hash and the
    same submission hash, so that the one is a retry of the other. *)
Theorem claim_order_irrelevant settings sb cs1 cs2 :
  NoDup (dto_field_name <$> cs1) → (cs1 ≡ₚ cs2) →
  validate_and_hash settings (with_claims cs1 sb) = validate_and_hash settings (with_claims cs2 sb).
Proof.
  intros Hnd Hp. unfold validate_and_hash, hash_material, submission_fingerprint.
  cbn [with_claims sb_claims_data sb_raw_payload sb_source_record_id sb_event_id sb_captured_at].
  rewrite (sorted_claims_perm cs1 cs2 Hnd Hp), (Permutation_length Hp).
  assert (∀ cs, NoDup (dto_field_name <$> cs) → duplicates [] (dto_field_name <$> cs) = []) as Hdup.
  { intros cs Hcs. apply duplicates_nil. split; [done|]. intros x _. apply not_elem_of_nil. }
  rewrite (Hdup cs1 Hnd), (Hdup cs2) by (by rewrite <- Hp). reflexivity.
Qed.
End order.

(** ** Witnesses *)

(** A validator for the stored form: the fields as pydantic types them. *)
Definition field_uuid (k : string) (d : list (string * pyval)) : option (option UUID) :=
  match dict_get k d with
  | Some (PStr s) => Some <$> uuid_of_str s
  | Some PNone | None => Some None
  | Some _ => None
  end.
Definition field_bool (k : string) (d : list (string * pyval)) : option bool :=
  match dict_get k d with Some (PBool b) => Some b | _ => None end.
Definition text_uuid (v : pyval) : option UUID :=
  match v with PStr s => uuid_of_str s | _ => None end.
Definition sample_validator : ModelValidate := λ d,
  completion ← field_uuid "event_id_at_completion" d;
  event ← field_uuid "event_id" d;
  created ← field_bool "event_created" d;
  snapshot ← field_bool "snapshot_created" d;
  pending ← field_uuid "pending_review_id" d;
  match dict_get "schema_version" d, dict_get "pending_review_ids" d, dict_get "attached_by" d with
  | Some (PInt v), Some (PList l), Some (PStr by_) =>
      ids ← traverse text_uuid l;
      Some (mkStored v completion event created snapshot pending ids by_)
  | _, _, _ => None
  end.

Lemma traverse_uuids ids : Forall (λ u, (u < uuid_bound)%N) ids →
  traverse text_uuid (map (λ u, PStr (uuid_str u)) ids) = Some ids.
Proof.
  induction 1 as [|u ids Hu _ IH]; [done|]. cbn [map traverse text_uuid].
  by rewrite (uuid_str_read u Hu), IH.
Qed.

Lemma read_opt_uuid (o : option UUID) :
  match o with Some u => (u < uuid_bound)%N | None => True end →
  match opt_uuid o with
  | PStr s => Some <$> uuid_of_str s
  | PNone => Some None
  | _ => None
  end = Some o.
Proof. destruct o as [u|]; intros Hu; [|done]. unfold opt_uuid. by rewrite uuid_str_read. Qed.

Lemma sample_validates : validates (H := sample_validator).
Proof.
  intros r t (He & Hids & Hp). set (d := result_json r t).
  assert (G1 : field_uuid "event_id_at_completion" d = Some (Some (rt_event_id r))).
  { transitivity (Some <$> uuid_of_str (uuid_str (rt_event_id r))); [reflexivity|].
    by rewrite uuid_str_read. }
  assert (G2 : field_uuid "event_id" d = Some (Some (rt_event_id r))).
  { transitivity (Some <$> uuid_of_str (uuid_str (rt_event_id r))); [reflexivity|].
    by rewrite uuid_str_read. }
  assert (G3 : field_bool "event_created" d = Some (rt_event_created r)) by reflexivity.
  assert (G4 : field_bool "snapshot_created" d = Some (rt_snapshot_created r)) by reflexivity.
  assert (G5 : dict_get "pending_review_id" d = Some (opt_uuid (rt_pending_review_id r)))
    by reflexivity.
  assert (G6 : dict_get "schema_version" d = Some (PInt 1)) by reflexivity.
  assert (G7 : dict_get "pending_review_ids" d
    = Some (PList (map (λ u, PStr (uuid_str u)) (rt_pending_review_ids r)))) by reflexivity.
  assert (G8 : dict_get "attached_by" d = Some (PStr (rt_attached_by r))) by reflexivity.
  clearbody d.
  assert (G9 : field_uuid "pending_review_id" d = Some (rt_pending_review_id r)).
  { unfold field_uuid. rewrite G5. by apply read_opt_uuid. }
  unfold model_validate, sample_validator. rewrite G1, G2, G3, G4, G9, G6, G7, G8.
  unfold mbind, option_bind. by rewrite (traverse_uuids _ Hids).
Qed.

Definition sample_source_db : DB :=
  mkDB {[2%N := mkSource 2 "NTSB" EXTERNAL 1 []]} ∅ ∅ [] ∅ [] [] ∅ [] ∅ ∅ ∅ ∅ ∅
    (mkPublicTables ∅ [] ∅ ∅) no_tenants no_content no_causality no_signals no_hermes no_timelines no_entities.

Definition sample_submission (operator : string) : submission :=
  mkSubmission 2 [("raw", PInt 1)] 77
    [mkDTO "operator" (PStr operator); mkDTO "location" (PStr "Lima")] None None (Some " R-1 ").

Definition sample_ingest (operator : string) : World → Res IngestionResult * World :=
  execute_with_result (H := sample_hashlib) (H0 := sample_validator) sample_settings
    SourceNormalizerRegistry.init (sample_submission operator).

Lemma sample_source_integrity : integrity 5 sample_source_db.
Proof.
  assert (Hno : ∀ {A} k (x : A), (∅ : gmap UUID A) !! k = Some x → False).
  { intros A k x Hx. by rewrite lookup_empty in Hx. }
  split.
  - intros e f k1 k2 c1 c2 Hc. by apply Hno in Hc.
  - intros k c Hc. by apply Hno in Hc.
  - intros k c Hc. by apply Hno in Hc.
  - apply NoDup_nil_2.
  - apply NoDup_nil_2.
  - intros i j h h' Hi. change (([] : list AccidentProjectionHistory) !! i = Some h) in Hi.
    by rewrite lookup_nil in Hi.
  - intros k o Ho. by apply Hno in Ho.
  - intros k e He. by apply Hno in He.
  - split; [intros k s Hs|intros k1 k2 s1 s2 Hs]; by apply Hno in Hs.
Defined.

Definition sample_world : World := world_of sample_source_db.

(** The first request completes, and its identifiers are 128 bits wide. *)
Lemma sample_ingest_runs :
  match (sample_ingest "Acme" sample_world).1 with
  | Ok r => rt_idempotent_replay r = false ∧ (rt_event_id r <? uuid_bound)%N = true
            ∧ rt_pending_review_ids r = [] ∧ rt_pending_review_id r = None
  | Raise _ => False
  end.
Proof. vm_compute. by split_and!. Defined.

Lemma sample_ingest_first : ∃ r w, sample_ingest "Acme" sample_world = (Ok r, w)
  ∧ rt_idempotent_replay r = false ∧ wide r ∧ quiet w ∧ integrity 5 (w_db w).
Proof.
  pose proof sample_ingest_runs as Hr. destruct (sample_ingest "Acme" sample_world) as [[r|x] w] eqn:E;
    [|destruct Hr]. cbn [fst] in Hr. destruct Hr as (Hrep & Hid & Hids & Hp). exists r, w.
  split; [reflexivity|]. split; [exact Hrep|]. split.
  { split_and!; [by apply N.ltb_lt|by rewrite Hids|by rewrite Hp]. }
  assert (Hinv := ingest_I 5 (integrity 5) (integrity_step 5 eq_refl) (H := sample_validator)
    (H0 := sample_hashlib) sample_settings SourceNormalizerRegistry.init (sample_submission "Acme")
    sample_world).
  unfold Inv in Hinv. unfold sample_ingest in E. rewrite E in Hinv. destruct Hinv as (Hi & _ & _).
  { split_and!; [exact sample_source_integrity|exact sample_source_integrity|constructor]. }
  split; [|exact Hi].
  exact (proj1 (execute_stored (H := sample_hashlib) (H0 := sample_validator) sample_settings
    SourceNormalizerRegistry.init 5 eq_refl (sample_submission "Acme") sample_world r w eq_refl
    sample_source_integrity E Hrep)).
Qed.

Lemma ingestion_is_durable_witness : ∃ r w, sample_ingest "Acme" sample_world = (Ok r, w)
  ∧ w_committed w = w_db w.
Proof.
  destruct sample_ingest_first as (r & w & E & Hr & _ & _ & _). exists r, w. split; [exact E|].
  exact (proj1 (ingestion_is_durable (H := sample_hashlib) (H0 := sample_validator) sample_settings
    SourceNormalizerRegistry.init 5 eq_refl (sample_submission "Acme") sample_world r w eq_refl
    sample_source_integrity E Hr)).
Defined.

Lemma ingestion_replay_witness : ∃ r w out, sample_ingest "Acme" sample_world = (Ok r, w)
  ∧ sample_ingest "Acme" w = (out, w).
Proof.
  destruct sample_ingest_first as (r & w & E & Hr & Hw & Hq & Hi). exists r, w.
  destruct (ingestion_replay (H := sample_hashlib) (H0 := sample_validator) sample_settings
    SourceNormalizerRegistry.init 5 eq_refl (sample_submission "Acme") sample_world r w w
    sample_validates eq_refl sample_source_integrity E Hr Hw Hq Hi (λ k s Hs, Hs))
    as (out & E2 & _).
  exists out. split; [exact E|exact E2].
Defined.

(** The hashes are the submissions themselves here, and these differ. *)
Lemma sample_hashes : ∃ h1 h2 h1' h2',
  validate_and_hash (H := sample_hashlib) sample_settings (clean_record_id (sample_submission "Acme"))
  = Ok (h1, h2)
  ∧ validate_and_hash (H := sample_hashlib) sample_settings (clean_record_id (sample_submission "Emca"))
  = Ok (h1', h2') ∧ h2 ≠ h2'.
Proof.
  eexists _, _, _, _. split; [vm_compute; reflexivity|]. split; [vm_compute; reflexivity|].
  discriminate.
Qed.

Lemma ingestion_mismatch_witness : ∃ r w, sample_ingest "Acme" sample_world = (Ok r, w)
  ∧ sample_ingest "Emca" w = (Raise IdempotencyKeyPayloadMismatchError, w).
Proof.
  destruct sample_ingest_first as (r & w & E & Hr & _ & Hq & Hi).
  destruct sample_hashes as (h1 & h2 & h1' & h2' & Eh & Eh' & Hne). exists r, w. split; [exact E|].
  exact (ingestion_mismatch (H := sample_hashlib) (H0 := sample_validator) sample_settings
    SourceNormalizerRegistry.init 5 eq_refl (sample_submission "Acme") (sample_submission "Emca")
    sample_world r w w h1 h2 h1' h2' eq_refl sample_source_integrity E Hr Hq Hi (λ k s Hs, Hs)
    eq_refl eq_refl Eh Eh' Hne).
Defined.

Lemma claim_order_irrelevant_witness :
  let c1 := mkDTO "operator" (PStr "Acme") in let c2 := mkDTO "location" (PStr "Lima") in
  validate_and_hash (H := sample_hashlib) sample_settings (with_claims [c1; c2] (sample_submission "x"))
  = validate_and_hash (H := sample_hashlib) sample_settings (with_claims [c2; c1] (sample_submission "x")).
Proof.
  apply (claim_order_irrelevant (H := sample_hashlib)).
  - apply (bool_decide_unpack _). vm_compute. exact I.
  - apply perm_swap.
Defined.
