(* ===== verification/Slug.v ===== *)
(** Slugs of public pages (src/src/atlas/domain/publication/slug.py): the
    normaliser, the validator and the canonical form they agree on. *)
From Stdlib Require Import Ascii.
From S2P Require Import Prelude Text PyFloat PyVal PyDate Entities.
Open Scope string_scope.
Open Scope list_scope.
Open Scope Z_scope.

Definition MAX_SLUG_LENGTH : nat := 160.

Definition hyphen : ascii := ascii_of_N 45.
Definition is_hyphen (c : ascii) : bool := Ascii.eqb c hyphen.
Definition newline : ascii := ascii_of_N 10.

(** The class [[a-z0-9]]. *)
Definition slug_char (c : ascii) : bool := is_ascii_lower c || is_digit c.
Definition non_slug (c : ascii) : bool := negb (slug_char c).

(** [re.sub(r"[^a-z0-9]+", "-", l)] *)
Definition sub_non_slug (l : list ascii) : list ascii := sub_runs non_slug [hyphen] false l.
(** [re.sub(r"-{2,}", "-", l)]: a run of one hyphen is itself. *)
Definition collapse_hyphens (l : list ascii) : list ascii := sub_runs is_hyphen [hyphen] false l.

(** normalize_slug, for a text. *)
Definition normalize_slug (raw : string) : Res string :=
  let ascii_only := List.filter is_ascii (chars raw) in
  let lowered := strip_while is_space (map lower_char ascii_only) in
  let collapsed := strip_while is_hyphen (collapse_hyphens (sub_non_slug lowered)) in
  match collapsed with
  | [] => Raise (InvalidSlugError "slug normalization produced an empty value")
  | _ =>
      if bool_decide (MAX_SLUG_LENGTH < length collapsed)%nat then
        match rdrop_while is_hyphen (take MAX_SLUG_LENGTH collapsed) with
        | [] => Raise (InvalidSlugError "slug truncated to empty value")
        | cut => Ok (of_chars cut)
        end
      else Ok (of_chars collapsed)
  end.

(** [re.match(r"^[a-z0-9]+(?:-[a-z0-9]+)*$", l)]: [$] also matches before a
    final newline.  [in_word]: the current word has a character. *)
Fixpoint match_slug (in_word : bool) (l : list ascii) : bool :=
  match l with
  | [] => in_word
  | c :: l' =>
      if slug_char c then match_slug true l'
      else in_word && ((is_hyphen c && match_slug false l')
                       || (Ascii.eqb c newline && match l' with [] => true | _ => false end))
  end.

Definition is_valid_slug (value : string) : bool :=
  negb (str_empty value || bool_decide (MAX_SLUG_LENGTH < length (chars value))%nat)
  && match_slug false (chars value).

(** ** The canonical form: words of [[a-z0-9]] joined by single hyphens *)
Fixpoint canonical_from (in_word : bool) (l : list ascii) : bool :=
  match l with
  | [] => in_word
  | c :: l' => if slug_char c then canonical_from true l'
               else in_word && is_hyphen c && canonical_from false l'
  end.

Definition canonical_slug (s : string) : Prop :=
  canonical_from false (chars s) = true ∧ (length (chars s) ≤ MAX_SLUG_LENGTH)%nat.

(** Letters and digits of ASCII. *)
Definition ascii_alnum (c : ascii) : bool := is_ascii_lower c || is_ascii_upper c || is_digit c.

(** No two hyphens in a row; [prev]: the character before was one. *)
Fixpoint single (prev : bool) (l : list ascii) : bool :=
  match l with
  | [] => true
  | c :: l' => if is_hyphen c then negb prev && single true l' else single false l'
  end.

Definition slug_text (l : list ascii) : Prop := Forall (λ c, slug_char c || is_hyphen c = true) l.

(** ** Facts about characters *)
Ltac by_char c := destruct c as [[] [] [] [] [] [] [] []]; vm_compute; intuition congruence.

Lemma slug_char_hyphen c : is_hyphen c = true → slug_char c = false.
Proof. by_char c. Qed.
Lemma slug_char_ascii c : slug_char c = true → is_ascii c = true.
Proof. by_char c. Qed.
Lemma hyphen_ascii c : is_hyphen c = true → is_ascii c = true.
Proof. by_char c. Qed.
Lemma slug_char_lower c : slug_char c || is_hyphen c = true → lower_char c = c.
Proof. by_char c. Qed.
Lemma slug_char_space c : slug_char c || is_hyphen c = true → is_space c = false.
Proof. by_char c. Qed.
Lemma space_not_slug c : is_space c = true → slug_char c = false.
Proof. by_char c. Qed.
Lemma alnum_lower c : ascii_alnum c = is_ascii c && slug_char (lower_char c).
Proof. by_char c. Qed.
Lemma is_hyphen_eq c : is_hyphen c = true ↔ c = hyphen.
Proof. unfold is_hyphen. apply Ascii.eqb_eq. Qed.

(** ** Single hyphens *)
Lemma single_weaken l : single true l = true → single false l = true.
Proof. destruct l as [|c l]; [done|]. simpl. by destruct (is_hyphen c). Qed.

Lemma single_app b l1 l2 :
  single b (l1 ++ l2) = true → single b l1 = true ∧ single false l2 = true.
Proof.
  revert b. induction l1 as [|c l1 IH]; intros b; simpl.
  - intros H. split; [done|]. destruct b; [by apply single_weaken|done].
  - destruct (is_hyphen c); [|apply IH]. rewrite !andb_true_iff. intros [Hb H].
    apply IH in H as [H1 H2]. done.
Qed.

Lemma sub_runs_single p b l : p hyphen = true →
  Forall (λ c, p c = false ∨ c = hyphen) (sub_runs p [hyphen] b l)
  ∧ single b (sub_runs p [hyphen] b l) = true.
Proof.
  intros Hp. revert b. induction l as [|c l IH]; intros b; simpl; [by split|].
  destruct (p c) eqn:Ec.
  - destruct (IH true) as [HF HS]. destruct b; simpl; [done|]. split; [|done].
    constructor; [by right|done].
  - destruct (IH false) as [HF HS]. split; [constructor; [by left|done]|].
    simpl. destruct (is_hyphen c) eqn:Eh; [|done].
    apply is_hyphen_eq in Eh as ->. congruence.
Qed.

(** Substitution leaves a text alone that has only single hyphens to replace. *)
Lemma sub_runs_single_id p b l : p hyphen = true →
  Forall (λ c, p c = true → c = hyphen) l → single b l = true →
  sub_runs p [hyphen] b l = l.
Proof.
  intros Hp HF. revert b. induction HF as [|c l Hc HF IH]; intros b; simpl; [done|].
  destruct (p c) eqn:Ec.
  - rewrite (Hc eq_refl). change (is_hyphen hyphen) with true. cbn iota.
    rewrite andb_true_iff. intros [Hb HS]. destruct b; [done|]. simpl. by rewrite IH.
  - destruct (is_hyphen c) eqn:Eh; [apply is_hyphen_eq in Eh as ->; congruence|].
    intros HS. by rewrite IH.
Qed.

(** ** Stripping *)
Lemma rdrop_while_last p l c : last (rdrop_while p l) = Some c → p c = false.
Proof.
  unfold rdrop_while. pose proof (drop_while_head p (rev l)) as H.
  destruct (drop_while p (rev l)) as [|x l']; [done|]. simpl. rewrite last_snoc. by intros [= <-].
Qed.

Lemma existsb_drop_while p q l : (∀ c, p c = true → q c = false) →
  existsb q (drop_while p l) = existsb q l.
Proof.
  intros H. induction l as [|c l IH]; simpl; [done|]. destruct (p c) eqn:E; [|done].
  by rewrite (H c E).
Qed.

Lemma existsb_reverse (q : ascii → bool) l : existsb q (rev l) = existsb q l.
Proof.
  induction l as [|c l IH]; [done|]. simpl. rewrite existsb_app, IH. simpl.
  rewrite orb_false_r. apply orb_comm.
Qed.

Lemma existsb_strip p q l : (∀ c, p c = true → q c = false) →
  existsb q (strip_while p l) = existsb q l.
Proof.
  intros H. unfold strip_while, rdrop_while.
  by rewrite existsb_reverse, existsb_drop_while, existsb_reverse, existsb_drop_while.
Qed.

Lemma existsb_sub_runs p q b l : q hyphen = false → (∀ c, p c = true → q c = false) →
  existsb q (sub_runs p [hyphen] b l) = existsb q l.
Proof.
  intros Hq H. revert b. induction l as [|c l IH]; intros b; simpl; [done|].
  destruct (p c) eqn:E; [|simpl; by rewrite IH].
  rewrite existsb_app, IH, (H c E). destruct b; simpl; [done|]. by rewrite Hq.
Qed.

(** ** The canonical form, without recursion *)
Definition trimmed (l : list ascii) : Prop :=
  slug_text l ∧ single true l = true ∧ last l ≠ Some hyphen.

Lemma canonical_from_spec b l : canonical_from b l = true ↔
  slug_text l ∧ single (negb b) l = true ∧ last l ≠ Some hyphen ∧ (l = [] → b = true).
Proof.
  revert b. induction l as [|c l IH]; intros b; simpl.
  - split; [intros ->; by split_and!; [constructor| | |]|]. intros (_ & _ & _ & H). by apply H.
  - destruct (slug_char c) eqn:Es.
    + assert (is_hyphen c = false) as Eh.
      { destruct (is_hyphen c) eqn:Eh; [|done]. apply slug_char_hyphen in Eh. congruence. }
      rewrite IH, Eh. unfold slug_text. rewrite Forall_cons, Es. simpl.
      assert (last (c :: l) = Some hyphen ↔ last l = Some hyphen) as Hl.
      { destruct l as [|d l]; [|done]. simpl. split; [|done]. intros [= ->]. done. }
      change (match l with [] => Some c | _ :: _ => last l end) with (last (c :: l)).
      naive_solver.
    + rewrite !andb_true_iff, IH. unfold slug_text. rewrite Forall_cons, Es. simpl.
      destruct (is_hyphen c) eqn:Eh; [|naive_solver]. apply is_hyphen_eq in Eh as ->.
      rewrite andb_true_iff, negb_true_iff, negb_false_iff.
      change (match l with [] => Some hyphen | _ :: _ => last l end) with (last (hyphen :: l)).
      assert (last (hyphen :: l) ≠ Some hyphen ↔ last l ≠ Some hyphen ∧ l ≠ []) as ->.
      { destruct l as [|d l]; [naive_solver|]. split; [|by intros [? _]]. by split. }
      naive_solver.
Qed.

Lemma canonical_trimmed l : canonical_from false l = true ↔ trimmed l ∧ l ≠ [].
Proof. rewrite canonical_from_spec. unfold trimmed. simpl. naive_solver. Qed.

Lemma rdrop_trimmed l : slug_text l → single true l = true → trimmed (rdrop_while is_hyphen l).
Proof.
  intros HF HS. destruct (rdrop_while_decompose is_hyphen l) as (post & E & _).
  rewrite E in HF, HS. apply Forall_app in HF as [HF _]. apply single_app in HS as [HS _].
  split_and!; [done|done|]. intros H. by apply rdrop_while_last in H.
Qed.

Lemma strip_trimmed l : slug_text l → single false l = true → trimmed (strip_while is_hyphen l).
Proof.
  intros HF HS. unfold strip_while. destruct (drop_while_decompose is_hyphen l) as (pre & E & _).
  pose proof (drop_while_head is_hyphen l) as Hh. rewrite E in HF, HS.
  apply Forall_app in HF as [_ HF]. apply single_app in HS as [_ HS].
  apply rdrop_trimmed; [done|]. destruct (drop_while _ l) as [|c l']; [done|].
  simpl in *. by rewrite Hh in *.
Qed.

Lemma trimmed_strip l : trimmed l → strip_while is_hyphen l = l.
Proof.
  intros (_ & HS & HL). unfold strip_while.
  assert (drop_while is_hyphen l = l) as ->.
  { destruct l as [|c l]; [done|]. simpl in *. by destruct (is_hyphen c). }
  unfold rdrop_while. rewrite <- (rev_involutive l) at 2. f_equal.
  destruct l as [|c l _] using rev_ind; [done|]. rewrite rev_unit. simpl.
  rewrite last_snoc in HL. destruct (is_hyphen c) eqn:E; [|done].
  apply is_hyphen_eq in E. congruence.
Qed.

Lemma rdrop_nonempty l : existsb slug_char l = true → rdrop_while is_hyphen l ≠ [].
Proof.
  intros H E. pose proof (existsb_drop_while is_hyphen slug_char (rev l) slug_char_hyphen) as Hd.
  rewrite existsb_reverse, H in Hd. unfold rdrop_while in E.
  apply (f_equal (@rev _)) in E. rewrite rev_involutive in E. by rewrite E in Hd.
Qed.

(** ** The normaliser *)
Definition lowered (raw : string) : list ascii :=
  strip_while is_space (map lower_char (List.filter is_ascii (chars raw))).

Lemma sub_non_slug_shape l : slug_text (sub_non_slug l) ∧ single false (sub_non_slug l) = true.
Proof.
  destruct (sub_runs_single non_slug false l eq_refl) as [HF HS]. split; [|done].
  eapply Forall_impl; [exact HF|]. intros c [Hc| ->]; [|reflexivity].
  unfold non_slug in Hc. apply negb_false_iff in Hc. by rewrite Hc.
Qed.

Lemma collapse_single l : slug_text l → single false l = true → collapse_hyphens l = l.
Proof.
  intros _ HS. apply sub_runs_single_id; [reflexivity| |done].
  apply Forall_forall. intros c _. apply is_hyphen_eq.
Qed.

Lemma existsb_lowered raw : existsb slug_char (lowered raw) = existsb ascii_alnum (chars raw).
Proof.
  unfold lowered. rewrite existsb_strip by (intros c; apply space_not_slug).
  induction (chars raw) as [|c l IH]; [done|]. simpl. rewrite alnum_lower.
  destruct (is_ascii c); simpl; by rewrite IH.
Qed.

(** What the truncation works on. *)
Lemma collapsed_shape raw l :
  l = strip_while is_hyphen (collapse_hyphens (sub_non_slug (lowered raw))) →
  trimmed l ∧ existsb slug_char l = existsb ascii_alnum (chars raw).
Proof.
  intros ->. destruct (sub_non_slug_shape (lowered raw)) as [HF HS].
  rewrite collapse_single by done. split; [by apply strip_trimmed|].
  rewrite existsb_strip by (intros c; apply slug_char_hyphen).
  unfold sub_non_slug. rewrite existsb_sub_runs, existsb_lowered; [done|reflexivity|].
  intros c. unfold non_slug. by destruct (slug_char c).
Qed.

Lemma trimmed_slug_char l : trimmed l → l ≠ [] → existsb slug_char l = true.
Proof.
  intros (HF & HS & _). destruct l as [|c l]; [done|]. intros _. simpl in *.
  apply Forall_cons in HF as [Hc _]. destruct (is_hyphen c); [done|].
  rewrite orb_false_r in Hc. by rewrite Hc.
Qed.

Lemma take_trimmed n l : (0 < n)%nat → trimmed l → l ≠ [] →
  trimmed (rdrop_while is_hyphen (take n l)) ∧ rdrop_while is_hyphen (take n l) ≠ []
  ∧ (length (rdrop_while is_hyphen (take n l)) ≤ n)%nat.
Proof.
  intros Hn (HF & HS & _) Hne. pose proof (take_drop n l) as E. split_and!.
  - rewrite <- E in HF, HS. apply Forall_app in HF as [HF _]. apply single_app in HS as [HS _].
    by apply rdrop_trimmed.
  - apply rdrop_nonempty. destruct l as [|c l]; [done|]. destruct n as [|n]; [lia|]. simpl in *.
    apply Forall_cons in HF as [Hc _]. destruct (is_hyphen c); [done|].
    rewrite orb_false_r in Hc. by rewrite Hc.
  - destruct (rdrop_while_decompose is_hyphen (take n l)) as (post & Ep & _).
    pose proof (f_equal length Ep) as El. rewrite length_app, length_take in El. lia.
Qed.

Lemma normalize_canonical raw s : normalize_slug raw = Ok s → canonical_slug s.
Proof.
  unfold normalize_slug. cbv zeta. fold (lowered raw).
  destruct (strip_while _ _) as [|c l] eqn:E; [done|]. rewrite <- E in *.
  destruct (collapsed_shape raw _ eq_refl) as [Ht _].
  assert (strip_while is_hyphen (collapse_hyphens (sub_non_slug (lowered raw))) ≠ []) as Hne
    by (by rewrite E).
  set (k := strip_while _ _) in *. clearbody k. clear E c l.
  unfold canonical_slug. case_bool_decide as Hlen.
  - destruct (take_trimmed MAX_SLUG_LENGTH k) as (Ht' & Hne' & Hl); [unfold MAX_SLUG_LENGTH; lia|done|done|].
    destruct (rdrop_while _ _) as [|c l] eqn:E; [done|]. intros [= <-].
    change (String c (of_chars l)) with (of_chars (c :: l)). rewrite chars_of_chars. split; [by apply canonical_trimmed|done].
  - intros [= <-]. rewrite chars_of_chars. split; [by apply canonical_trimmed|lia].
Qed.

Lemma canonical_normalize s : canonical_slug s → normalize_slug s = Ok s.
Proof.
  intros [Hc Hlen]. apply canonical_trimmed in Hc as [Ht Hne].
  destruct Ht as (HF & HS & HL). assert (lowered s = chars s) as E.
  { unfold lowered. assert (List.filter is_ascii (chars s) = chars s) as ->.
    { clear -HF. induction HF as [|c l Hc HF IH]; [done|]. simpl. rewrite IH.
      apply orb_true_iff in Hc as [Hc|Hc]; [by rewrite (slug_char_ascii c Hc)|by rewrite (hyphen_ascii c Hc)]. }
    assert (map lower_char (chars s) = chars s) as ->.
    { clear -HF. induction HF as [|c l Hc HF IH]; [done|]. simpl. by rewrite IH, slug_char_lower. }
    apply strip_while_none. eapply Forall_impl; [exact HF|]. apply slug_char_space. }
  unfold normalize_slug. cbv zeta. fold (lowered s). rewrite E.
  assert (sub_non_slug (chars s) = chars s) as ->.
  { apply sub_runs_single_id; [reflexivity| |exact (single_weaken _ HS)].
    eapply Forall_impl; [exact HF|]. cbn beta. intros c Hc. unfold non_slug.
    destruct (slug_char c); [done|]. intros _. exact (proj1 (is_hyphen_eq c) Hc). }
  rewrite (collapse_single _ HF (single_weaken _ HS)). rewrite trimmed_strip by done.
  destruct (chars s) as [|c l] eqn:El; [done|]. rewrite <- El.
  rewrite bool_decide_false by (rewrite El; lia). by rewrite of_chars_chars.
Qed.

Lemma canonical_match b l : canonical_from b l = true → match_slug b l = true.
Proof.
  revert b. induction l as [|c l IH]; intros b; simpl; [done|].
  destruct (slug_char c); [apply IH|]. rewrite !andb_true_iff. intros [[-> ->] H].
  simpl. by rewrite (IH false H).
Qed.

Lemma match_canonical b l : match_slug b l = true →
  canonical_from b l = true ∨ ∃ l', l = l' ++ [newline] ∧ canonical_from b l' = true.
Proof.
  revert b. induction l as [|c l IH]; intros b; simpl; [by left|].
  destruct (slug_char c) eqn:Es.
  { intros [H|(l' & -> & H)]%IH; [by left|]. right. exists (c :: l'). simpl. by rewrite Es. }
  rewrite andb_true_iff, orb_true_iff, !andb_true_iff.
  intros [-> [[Eh [H|(l' & -> & H)]%IH]|[En Hl]]].
  - left. by rewrite Eh.
  - right. exists (c :: l'). simpl. by rewrite Es, Eh.
  - destruct l; [|done]. apply Ascii.eqb_eq in En as ->. right. by exists [].
Qed.

(** [normalize_slug] succeeds exactly on texts with an ASCII letter or
    digit; its result is in canonical form (words of [a-z0-9] joined by single
    hyphens, at most 160 characters), valid, and a fixed point: the normaliser
    is idempotent and leaves exactly the canonical slugs alone. *)
Theorem normalize_slug_canonical raw :
  match normalize_slug raw with
  | Ok s => canonical_slug s ∧ is_valid_slug s = true ∧ normalize_slug s = Ok s
            ∧ existsb ascii_alnum (chars raw) = true
  | Raise e => e = InvalidSlugError "slug normalization produced an empty value"
               ∧ existsb ascii_alnum (chars raw) = false
  end
  ∧ (canonical_slug raw ↔ normalize_slug raw = Ok raw).
Proof.
  split; [|split; [apply canonical_normalize|apply normalize_canonical]].
  destruct (normalize_slug raw) as [s|e] eqn:E.
  - pose proof (normalize_canonical _ _ E) as Hc. split_and!.
    + done.
    + destruct Hc as [Hc Hlen]. unfold is_valid_slug. rewrite (canonical_match _ _ Hc).
      rewrite bool_decide_false by lia. by destruct s.
    + by apply canonical_normalize.
    + revert E. unfold normalize_slug. cbv zeta. fold (lowered raw).
      destruct (collapsed_shape raw _ eq_refl) as [Ht <-].
      destruct (strip_while _ _) as [|c l] eqn:Ek; [done|]. intros _.
      by apply trimmed_slug_char.
  - revert E. unfold normalize_slug. cbv zeta. fold (lowered raw).
    destruct (collapsed_shape raw _ eq_refl) as [Ht He].
    destruct (strip_while _ _) as [|c l] eqn:Ek; [by intros [= <-]|].
    case_bool_decide; [|done].
    destruct (take_trimmed MAX_SLUG_LENGTH (c :: l)) as (_ & Hne & _);
      [unfold MAX_SLUG_LENGTH; lia|done|done|].
    by destruct (rdrop_while _ _).
Qed.

(** The validator accepts the canonical slugs, and those followed by a newline:
    [$] without [re.fullmatch]. *)
Lemma is_valid_slug_spec s : is_valid_slug s = true ↔
  (length (chars s) ≤ MAX_SLUG_LENGTH)%nat
  ∧ (canonical_from false (chars s) = true
     ∨ ∃ l, chars s = l ++ [newline] ∧ canonical_from false l = true).
Proof.
  unfold is_valid_slug. rewrite andb_true_iff, negb_true_iff, orb_false_iff, bool_decide_eq_false.
  split.
  - intros [[_ Hlen] H]. split; [lia|]. by apply match_canonical.
  - intros [Hlen H]. assert (match_slug false (chars s) = true) as Hm.
    { destruct H as [H|(l & -> & H)]; [by apply canonical_match|]. clear Hlen. revert H.
      generalize false. induction l as [|c l IH]; intros b; simpl; [by intros ->|].
      destruct (slug_char c); [apply IH|]. rewrite !andb_true_iff. intros [[-> ->] H].
      simpl. by rewrite (IH false H). }
    split; [|done]. split; [|lia]. by destruct s.
Qed.

Lemma valid_slug_newline :
  let s := of_chars (chars "boeing-737" ++ [newline]) in
  is_valid_slug s = true ∧ normalize_slug s = Ok "boeing-737".
Proof. split; reflexivity. Qed.
