(* ===== verification/Publication.v ===== *)
(** The publication overlay: the editorial state machine
    (domain/publication/workflow.py), the repositories of pages, search index and
    map index (repositories/publication.py, search.py, maps.py), and the index
    entries built from a page and its projection
    (use_cases/_search_indexing.py, _map_indexing.py).

    The full-text vector and the PostGIS point of an index row are functions of
    its other columns and live in PostgreSQL; they are not stored here. *)
From S2P Require Import Prelude Text PyFloat PyVal PyDate Entities Store Normalize Matching.
Open Scope string_scope.
Open Scope list_scope.
Open Scope Z_scope.

(** ** Entities *)
(** PublicEventPage.check_status_timestamps, and the CHECK constraints of the table. *)
Definition check_status_timestamps (p : PublicEventPage) : bool :=
  negb (bool_decide (pg_status p = PUBLISHED) && bool_decide (pg_last_published_at p = None))
  && negb (bool_decide (pg_status p = RETRACTED) && bool_decide (pg_retracted_at p = None)).

Definition is_publicly_visible (p : PublicEventPage) : bool :=
  bool_decide (pg_status p = PUBLISHED).

(** ** Workflow *)
Module Workflow.
(** [_ALLOWED_TRANSITIONS.get(from_status, frozenset())] *)
Definition allowed_next_states (from_status : PublicationStatus) : list PublicationStatus :=
  match from_status with
  | DRAFT => [IN_REVIEW]
  | IN_REVIEW => [APPROVED; DRAFT]
  | APPROVED => [PUBLISHED; DRAFT]
  | PUBLISHED => [ARCHIVED; RETRACTED]
  | ARCHIVED => [PUBLISHED; DRAFT]
  | RETRACTED => []
  end.

Definition is_allowed (from_status to_status : PublicationStatus) : bool :=
  bool_decide (to_status ∈ allowed_next_states from_status).

Definition validate_transition (from_status to_status : PublicationStatus) : Res unit :=
  if is_allowed from_status to_status then Ok tt
  else Raise (InvalidPublicationTransitionError from_status to_status).
End Workflow.

(** ** Column widths *)
(** [varchar(n)] and 32-bit [integer] columns. *)
Definition fits (n : nat) (s : string) : bool := bool_decide (length (chars s) ≤ n)%nat.
Definition fits_opt (n : nat) (s : option string) : bool := from_option (fits n) true s.
Definition int4 (z : Z) : bool := (- 2 ^ 31 <=? z) && (z <? 2 ^ 31).
Definition int4_opt (z : option Z) : bool := from_option int4 true z.

(** min_length and max_length of a pydantic field *)
Definition text_between (lo hi : nat) (s : string) : bool :=
  bool_decide (lo ≤ length (chars s) ≤ hi)%nat.
Definition when_valid {A} (ok : bool) (m : M A) : M A :=
  if ok then m else raise (ValueError "validation error").

Definition upd_pages f := upd_publication (λ t,
  mkPublicTables (f (pt_pages t)) (pt_revisions t) (pt_search t) (pt_maps t)).
Definition upd_revisions f := upd_publication (λ t,
  mkPublicTables (pt_pages t) (f (pt_revisions t)) (pt_search t) (pt_maps t)).
Definition upd_search f := upd_publication (λ t,
  mkPublicTables (pt_pages t) (pt_revisions t) (f (pt_search t)) (pt_maps t)).
Definition upd_maps f := upd_publication (λ t,
  mkPublicTables (pt_pages t) (pt_revisions t) (pt_search t) (f (pt_maps t))).

(** ** SqlPublicEventPageRepository *)
Module PageRepo.
Definition pages (db : DB) : gmap UUID PublicEventPage := pt_pages (db_publication db).
Definition revisions (db : DB) : list PublicEventPageRevision :=
  pt_revisions (db_publication db).

(** The values of the columns with a width, and the CHECK constraints. *)
Definition storable (p : PublicEventPage) : bool :=
  fits 160 (pg_slug p) && fits 300 (pg_title p).
Definition checks (p : PublicEventPage) : bool :=
  check_status_timestamps p && (1 <=? pg_version p).

(** Another row has the slug. *)
Definition slug_taken (m : gmap UUID PublicEventPage) (id : UUID) (slug : string) : bool :=
  existsb (λ kv, negb (bool_decide (kv.1 = id)) && bool_decide (pg_slug kv.2 = slug))
    (map_to_list m).
Definition event_taken (m : gmap UUID PublicEventPage) (event_id : UUID) : bool :=
  existsb (λ kv, bool_decide (pg_event_id kv.2 = event_id)) (map_to_list m).

(** INSERT: widths, CHECKs, unique indexes in the order of their creation, and the
    foreign key at the end of the statement. *)
Definition add (p : PublicEventPage) : M unit :=
  stmt (λ db,
    if negb (storable p && int4 (pg_version p))
    then (Raise (DataError "public_event_pages"), db)
    else if negb (checks p) then (Raise (IntegrityError "ck_public_event_pages"), db)
    else match pages db !! pg_id p with
    | Some _ => (Raise (IntegrityError "public_event_pages_pkey"), db)
    | None =>
        if slug_taken (pages db) (pg_id p) (pg_slug p)
        then (Raise (SlugAlreadyTakenError (pg_slug p)), db)
        else if event_taken (pages db) (pg_event_id p)
        then (Raise (PublicEventPageAlreadyExistsError (pg_event_id p)), db)
        else match db_events db !! pg_event_id p with
             | None => (Raise (IntegrityError "public_event_pages_event_id_fkey"), db)
             | Some _ => (Ok tt, upd_pages <[pg_id p := p]> db)
             end
    end).

(** The SET list: [event_id] and [created_at] are not in it. *)
Definition set_values (p old : PublicEventPage) : PublicEventPage :=
  mkPage (pg_id old) (pg_event_id old) (pg_slug p) (pg_title p) (pg_short_summary p)
    (pg_narrative_markdown p) (pg_status p) (pg_version p) (pg_first_published_at p)
    (pg_last_published_at p) (pg_retracted_at p) (pg_retraction_note p) (pg_created_at old)
    (pg_updated_at p).

(** No row matched: SELECT version tells a missing row from a newer one. *)
Definition no_row_updated (id : UUID) (expected_version : Z) : M unit :=
  actual_version ← query (λ db, pg_version <$> pages db !! id);
  match actual_version with
  | None => raise (PublicEventPageNotFoundError "page")
  | Some v => raise (PublicEventPageModifiedError expected_version v)
  end.

(** UPDATE ... WHERE id = :id AND version = :expected *)
Definition update (p : PublicEventPage) (expected_version : Z) : M unit :=
  updated ← stmt (λ db,
    if negb (int4 (pg_version p) && int4 expected_version)
    then (Raise (DataError "public_event_pages.version"), db)
    else match pages db !! pg_id p with
    | Some old =>
        if pg_version old =? expected_version then
          if negb (storable p) then (Raise (DataError "public_event_pages"), db)
          else if negb (checks p) then (Raise (IntegrityError "ck_public_event_pages"), db)
          else if slug_taken (pages db) (pg_id p) (pg_slug p)
          then (Raise (SlugAlreadyTakenError (pg_slug p)), db)
          else (Ok true, upd_pages <[pg_id p := set_values p old]> db)
        else (Ok false, db)
    | None => (Ok false, db)
    end);
  if (updated : bool) then mret tt else no_row_updated (pg_id p) expected_version.

Definition get_by_id (id : UUID) : M (option PublicEventPage) := query (λ db, pages db !! id).
Definition get_by_slug (slug : string) : M (option PublicEventPage) :=
  scalar_query (λ db, filter (λ p, pg_slug p = slug) (rows (pages db))).
Definition get_by_event_id (event_id : UUID) : M (option PublicEventPage) :=
  scalar_query (λ db, filter (λ p, pg_event_id p = event_id) (rows (pages db))).

(** Keyset pages: ORDER BY key DESC, id DESC, the rows after the cursor, and one
    more row than asked for to know whether there are more. *)
Definition key_desc (key : PublicEventPage → Z) (x y : PublicEventPage) : bool :=
  (key y <? key x) || ((key y =? key x) && (pg_id y <=? pg_id x)%N).
Definition key_before (key : PublicEventPage → Z) (c : Z * UUID) (x : PublicEventPage) : Prop :=
  key x < c.1 ∨ (key x = c.1 ∧ (pg_id x < c.2)%N).
#[export] Instance key_before_dec key c x : Decision (key_before key c x).
Proof. unfold key_before. apply _. Defined.

Definition after_cursor (key : PublicEventPage → Z) (c : option (Z * UUID))
    (l : list PublicEventPage) : list PublicEventPage :=
  match c with None => l | Some c => filter (key_before key c) l end.

Definition trim (limit : nat) (l : list PublicEventPage) : list PublicEventPage * option UUID :=
  if bool_decide (limit < length l)%nat
  then let items := take limit l in (items, pg_id <$> last items)
  else (l, None).

Definition keyset_page (key : PublicEventPage → Z) (P : PublicEventPage → bool) (limit : nat)
    (c : option (Z * UUID)) (db : DB) : list PublicEventPage * option UUID :=
  trim limit (take (S limit) (py_sorted (key_desc key)
    (after_cursor key c (filter (λ p, P p = true) (rows (pages db)))))).

(** The row's last publication; every PUBLISHED row has one. *)
Definition published_key (p : PublicEventPage) : Z := default 0 (pg_last_published_at p).

Definition list_published (limit : nat) (after_id : option UUID)
    : M (list PublicEventPage * option UUID) :=
  cursor ← match after_id with
           | None => mret None
           | Some id => query (λ db, p ← pages db !! id; t ← pg_last_published_at p;
                                     if is_publicly_visible p then Some (t, id) else None)
           end;
  query (keyset_page published_key is_publicly_visible limit cursor).

Definition with_status_in (statuses : list PublicationStatus) (p : PublicEventPage) : bool :=
  bool_decide (pg_status p ∈ statuses).

Definition list_editorial (statuses : option (list PublicationStatus)) (limit : nat)
    (after_id : option UUID) : M (list PublicEventPage * option UUID) :=
  let active := default [DRAFT; IN_REVIEW; APPROVED; PUBLISHED; ARCHIVED] statuses in
  cursor ← match after_id with
           | None => mret None
           | Some id => query (λ db, p ← pages db !! id;
               if with_status_in active p then Some (pg_updated_at p, id) else None)
           end;
  query (keyset_page pg_updated_at (with_status_in active) limit cursor).

Definition add_revision (r : PublicEventPageRevision) : M unit :=
  stmt (λ db,
    if negb (fits 300 (rv_title r) && int4 (rv_version_at_moment r))
    then (Raise (DataError "public_event_page_revisions"), db)
    else if rv_version_at_moment r <? 1
    then (Raise (IntegrityError "ck_public_event_page_revisions_version_ge_1"), db)
    else if bool_decide (rv_id r ∈ rv_id <$> revisions db)
    then (Raise (IntegrityError "public_event_page_revisions_pkey"), db)
    else match pages db !! rv_page_id r with
         | None => (Raise (IntegrityError "public_event_page_revisions_page_id_fkey"), db)
         | Some _ => (Ok tt, upd_revisions (λ l, l ++ [r]) db)
         end).

(** ORDER BY version_at_moment, id *)
Definition by_version (x y : PublicEventPageRevision) : bool :=
  (rv_version_at_moment x <? rv_version_at_moment y)
  || ((rv_version_at_moment x =? rv_version_at_moment y) && (rv_id x <=? rv_id y)%N).
Definition list_revisions (page_id : UUID) : M (list PublicEventPageRevision) :=
  query (λ db, py_sorted by_version (filter (λ r, rv_page_id r = page_id) (revisions db))).
End PageRepo.

(** ** SqlPostgresFtsSearchRepository (writes) *)
Module SearchRepo.
Definition index (db : DB) : gmap UUID SearchIndexEntry := pt_search (db_publication db).

Definition storable (e : SearchIndexEntry) : bool :=
  int4_opt (se_fatalities_total e) && fits 160 (se_slug e) && fits 300 (se_title e)
  && fits_opt 300 (se_operator e) && fits_opt 300 (se_aircraft_type e)
  && fits_opt 300 (se_country e).

(** INSERT ... ON CONFLICT (page_id) DO UPDATE; the foreign key is on the pages. *)
Definition upsert (e : SearchIndexEntry) : M unit :=
  stmt (λ db,
    if negb (storable e) then (Raise (DataError "search_index_entries"), db)
    else match PageRepo.pages db !! se_page_id e with
         | None => (Raise (IntegrityError "search_index_entries_page_id_fkey"), db)
         | Some _ => (Ok tt, upd_search <[se_page_id e := e]> db)
         end).

Definition delete (page_id : UUID) : M unit := exec (upd_search (base.delete page_id)).

Definition rebuild_all_from (entries : list SearchIndexEntry) : M Z :=
  exec (upd_search (λ _, ∅));;
  for_each entries upsert;;
  mret (Z.of_nat (length entries)).
End SearchRepo.

(** ** SqlPostGisMapRepository (writes) *)
Module MapRepo.
Definition index (db : DB) : gmap UUID MapIndexEntry := pt_maps (db_publication db).

Definition storable (e : MapIndexEntry) : bool :=
  int4_opt (me_fatalities_total e) && fits 160 (me_slug e) && fits 300 (me_title e)
  && fits_opt 300 (me_operator e) && fits_opt 300 (me_aircraft_type e)
  && fits_opt 300 (me_country e).

Definition upsert (e : MapIndexEntry) : M unit :=
  stmt (λ db,
    if negb (storable e) then (Raise (DataError "map_index_entries"), db)
    else match PageRepo.pages db !! me_page_id e with
         | None => (Raise (IntegrityError "map_index_entries_page_id_fkey"), db)
         | Some _ => (Ok tt, upd_maps <[me_page_id e := e]> db)
         end).

Definition delete (page_id : UUID) : M unit := exec (upd_maps (base.delete page_id)).

Definition rebuild_all_from (entries : list MapIndexEntry) : M Z :=
  exec (upd_maps (λ _, ∅));;
  for_each entries upsert;;
  mret (Z.of_nat (length entries)).
End MapRepo.

(** ** Index entries *)
Module Indexing.
(** _confidence_band, public_events._confidence_label *)
Definition confidence_band (projection : option ProjectedAccidentRecord) : string :=
  match projection with
  | None => "unknown"
  | Some p =>
      let score := pj_completeness p in
      if f_geb score (lit 85 (-2)) then "high"
      else if f_geb score (lit 5 (-1)) then "medium"
      else if f_gtb score f_zero then "low"
      else "unknown"
  end.

(** [fields.get(key)] *)
Definition get (fields : list (string * pyval)) (key : string) : pyval :=
  default PNone (dict_get key fields).

Definition str_or_none (v : pyval) : option string :=
  match v with
  | PNone => None
  | PStr s => if str_empty s then None else Some s
  | _ => Some (py_str v)
  end.

(** Stored fields are JSON: a date is a text. *)
Definition parse_event_date (v : pyval) : option date :=
  match v with
  | PStr s => match datetime_fromisoformat s with
              | Some (d, _) => Some d
              | None => date_fromisoformat s
              end
  | _ => None
  end.

(** [int(value)]; TypeError and ValueError are caught, OverflowError is not. *)
Definition coerce_int (v : pyval) : Res (option Z) :=
  match v with
  | PInt z => Ok (Some z)
  | PBool b => Ok (Some (Z.b2z b))
  | PStr s => Ok (py_int s)
  | PFloat f => match int_of_float f with
                | Ok z => Ok (Some z)
                | Raise (ValueError _) => Ok None
                | Raise e => Raise e
                end
  | _ => Ok None
  end.

Definition is_infinite (f : float) : bool :=
  match f with SpecFloat.S754_infinity _ => true | _ => false end.

(** [float(value)] *)
Definition coerce_float (v : pyval) : Res (option float) :=
  match v with
  | PInt z => if is_infinite (f_of_int z)
              then Raise (OverflowError "int too large to convert to float")
              else Ok (Some (f_of_int z))
  | PFloat f => Ok (Some f)
  | PStr s => Ok (py_float s)
  | _ => Ok None
  end.

(** The first of the keys that is present with a number. *)
Fixpoint first_coord (keys : list string) (fields : list (string * pyval)) : Res (option float) :=
  match keys with
  | [] => Ok None
  | key :: keys' =>
      match dict_get key fields with
      | None => first_coord keys' fields
      | Some v => c ← coerce_float v;
                  match c with Some x => Ok (Some x) | None => first_coord keys' fields end
      end
  end.

Definition LAT_KEYS : list string := ["latitude"; "lat"].
Definition LNG_KEYS : list string := ["longitude"; "lng"; "lon"].

Definition within (bound : Z) (x : float) : bool :=
  f_leb (f_of_int (- bound)) x && f_leb x (f_of_int bound).

Definition extract_coords (fields : list (string * pyval)) : Res (option (float * float)) :=
  lat ← first_coord LAT_KEYS fields;
  lng ← first_coord LNG_KEYS fields;
  match lat, lng with
  | Some lat, Some lng =>
      if negb (within 90 lat) then Ok None
      else if negb (within 180 lng) then Ok None
      else Ok (Some (lat, lng))
  | _, _ => Ok None
  end.

Definition fields_of (projection : option ProjectedAccidentRecord) : list (string * pyval) :=
  match projection with Some p => pj_fields p | None => [] end.

(** [page.last_published_at or page.updated_at] *)
Definition published_at (p : PublicEventPage) : datetime :=
  default (pg_updated_at p) (pg_last_published_at p).

(** _entry_from *)
Definition entry_from (page : PublicEventPage) (projection : option ProjectedAccidentRecord)
    : Res SearchIndexEntry :=
  let fields := fields_of projection in
  fatalities ← coerce_int (get fields "fatalities_total");
  Ok (mkSearchEntry (pg_id page) (pg_slug page) (pg_title page) (pg_short_summary page)
        (str_or_none (get fields "operator")) (str_or_none (get fields "aircraft_type"))
        (str_or_none (get fields "country")) (parse_event_date (get fields "event_date"))
        fatalities (confidence_band projection) (published_at page)).

(** _map_entry_from *)
Definition map_entry_from (page : PublicEventPage)
    (projection : option ProjectedAccidentRecord) : Res (option MapIndexEntry) :=
  let fields := fields_of projection in
  coords ← extract_coords fields;
  match coords with
  | None => Ok None
  | Some (lat, lng) =>
      fatalities ← coerce_int (get fields "fatalities_total");
      Ok (Some (mkMapEntry (pg_id page) (pg_slug page) (pg_title page) lat lng
        (str_or_none (get fields "operator")) (str_or_none (get fields "aircraft_type"))
        (str_or_none (get fields "country")) (parse_event_date (get fields "event_date"))
        fatalities (confidence_band projection) (published_at page)))
  end.

Definition index_published_page (page : PublicEventPage) : M unit :=
  projection ← ProjectionRepo.get (pg_event_id page);
  entry ← lift_res (entry_from page projection);
  SearchRepo.upsert entry.

Definition remove_page_from_index (page_id : UUID) : M unit := SearchRepo.delete page_id.

Definition index_published_page_in_map (page : PublicEventPage) : M unit :=
  projection ← ProjectionRepo.get (pg_event_id page);
  entry ← lift_res (map_entry_from page projection);
  match entry with
  | None => MapRepo.delete (pg_id page)
  | Some e => MapRepo.upsert e
  end.

Definition remove_page_from_map (page_id : UUID) : M unit := MapRepo.delete page_id.
End Indexing.
