(* ===== verification/Keyset.v ===== *)
(** Keyset pagination: reading the pages in ordered batches, each starting after the
    last row of the one before (list_published, list_editorial and the walks that
    page through them). *)
From S2P Require Import Prelude Text PyFloat PyVal PyDate Entities Store Publication.
Open Scope list_scope.
Open Scope Z_scope.

(** ** The rows after a cursor *)
Section after.
Context {A : Type} (leb : A → A → bool)
  (Htot : ∀ x y, leb x y = true ∨ leb y x = true)
  (Htrans : ∀ x y z, leb x y = true → leb y z = true → leb x z = true).

Lemma filter_sorted l : StronglySorted (λ x y, leb x y = true) l → py_sorted leb l = l.
Proof using Htot Htrans.
  induction 1 as [|x l Hl IH Hx]; [done|]. simpl. rewrite IH.
  destruct Hx as [|y l Hy _]; [done|]. simpl. by rewrite Hy.
Qed.

(** Sorting the rows that come after a row gives the rest of the sorted table. *)
Lemma sorted_after l pre x post (P : A → Prop) `{∀ y, Decision (P y)} :
  NoDup l → (∀ y z, y ∈ l → z ∈ l → leb y z = true → leb z y = true → y = z) →
  (∀ y, y ∈ l → P y ↔ leb x y = true ∧ y ≠ x) →
  py_sorted leb l = pre ++ x :: post → py_sorted leb (filter P l) = post.
Proof using Htot Htrans.
  intros Hnd Hanti HP E. pose proof (py_sorted_perm leb l) as Hp. rewrite E in Hp.
  assert (∀ y, y ∈ pre ++ x :: post → y ∈ l) as Hin by (intros y; by rewrite Hp).
  pose proof (py_sorted_sorted leb Htot Htrans l) as Hs. rewrite E in Hs.
  assert (NoDup (pre ++ x :: post)) as Hnd' by (by rewrite Hp).
  apply NoDup_app in Hnd' as (_ & Hpre & Hnd'). apply NoDup_cons in Hnd' as [Hx _].
  apply StronglySorted_app in Hs as (Hlt & _ & Hs). inversion Hs as [|?? Hs' Hge]; subst.
  rewrite Forall_forall in Hge.
  assert (filter P l ≡ₚ post) as Hf.
  { rewrite <- Hp, filter_app, filter_cons.
    assert (filter P pre = []) as ->.
    { apply list_filter_none, Forall_forall. intros y Hy HPy.
      assert (y ∈ l) as Hyl by (apply Hin, elem_of_app; by left).
      apply HP in HPy as [Hxy Hne]; [|done]. apply Hne. apply Hanti; [done| | |done].
      - apply Hin, elem_of_app. right. left.
      - apply Hlt; [done|left]. }
    rewrite decide_False.
    2: { intros HPx. apply HP in HPx as [_ Hne]; [done|]. apply Hin, elem_of_app. right. left. }
    rewrite list_filter_all; [done|]. apply Forall_forall. intros y Hy. apply HP.
    - apply Hin, elem_of_app. right. by right.
    - split; [by apply Hge|]. by intros ->. }
  rewrite <- (filter_sorted post Hs').
  apply py_sorted_perm_eq; [done|done| |done].
  intros y z Hy Hz. apply Hanti; by eapply list_elem_of_filter.
Qed.
End after.

(** ** The order of the pages *)
Import PageRepo.
Section pages.
Context (key : PublicEventPage → Z).

Lemma key_desc_total x y : key_desc key x y = true ∨ key_desc key y x = true.
Proof. unfold key_desc. rewrite !orb_true_iff, !andb_true_iff, !Z.ltb_lt, !Z.eqb_eq, !N.leb_le. lia. Qed.

Lemma key_desc_trans x y z :
  key_desc key x y = true → key_desc key y z = true → key_desc key x z = true.
Proof. unfold key_desc. rewrite !orb_true_iff, !andb_true_iff, !Z.ltb_lt, !Z.eqb_eq, !N.leb_le. lia. Qed.

Lemma key_desc_id x y :
  key_desc key x y = true → key_desc key y x = true → pg_id x = pg_id y.
Proof. unfold key_desc. rewrite !orb_true_iff, !andb_true_iff, !Z.ltb_lt, !Z.eqb_eq, !N.leb_le. lia. Qed.

Lemma key_before_spec x y : pg_id y ≠ pg_id x →
  key_before key (key x, pg_id x) y ↔ key_desc key x y = true.
Proof.
  unfold key_before, key_desc. simpl. rewrite orb_true_iff, andb_true_iff, Z.ltb_lt, Z.eqb_eq, N.leb_le.
  lia.
Qed.

Context (db : DB) (keyed : ∀ k p, pages db !! k = Some p → pg_id p = k).

Lemma elem_of_pages p : p ∈ rows (pages db) ↔ pages db !! pg_id p = Some p.
Proof using keyed.
  rewrite elem_of_rows. split; [|by eauto]. intros [k Hk]. by rewrite (keyed k p Hk).
Qed.

Lemma NoDup_pages : NoDup (rows (pages db)).
Proof using keyed.
  unfold rows. apply (NoDup_fmap_1 pg_id). rewrite <- list_fmap_compose.
  assert ((pg_id ∘ snd) <$> map_to_list (pages db) = fst <$> map_to_list (pages db)) as ->;
    [|apply NoDup_fst_map_to_list].
  apply list_fmap_ext. intros i [k p] H. simpl. apply (keyed k).
  apply elem_of_map_to_list. by eapply list_elem_of_lookup_2.
Qed.

(** The rows a listing walks through. *)
Definition listing (P : PublicEventPage → bool) : list PublicEventPage :=
  py_sorted (key_desc key) (filter (λ p, P p = true) (rows (pages db))).

Lemma elem_of_listing P p : p ∈ listing P ↔ pages db !! pg_id p = Some p ∧ P p = true.
Proof using keyed.
  unfold listing. rewrite elem_of_py_sorted, list_elem_of_filter, elem_of_pages. naive_solver.
Qed.

Lemma NoDup_listing P : NoDup (listing P).
Proof using keyed. unfold listing. rewrite py_sorted_perm. apply NoDup_filter, NoDup_pages. Qed.

Lemma listing_after P pre x post : listing P = pre ++ x :: post →
  py_sorted (key_desc key) (after_cursor key (Some (key x, pg_id x))
    (filter (λ p, P p = true) (rows (pages db)))) = post.
Proof using keyed.
  intros E. unfold after_cursor.
  eapply (sorted_after (key_desc key) key_desc_total key_desc_trans); [| | |exact E].
  - apply NoDup_filter, NoDup_pages.
  - intros y z Hy Hz H1 H2.
    apply list_elem_of_filter in Hy as [_ Hy]. apply list_elem_of_filter in Hz as [_ Hz].
    apply elem_of_pages in Hy, Hz. rewrite (key_desc_id y z H1 H2) in Hy. congruence.
  - intros y Hy. assert (x ∈ listing P) as Hx by (rewrite E; set_solver).
    apply elem_of_listing in Hx as [Hx _]. apply list_elem_of_filter in Hy as [_ Hy].
    apply elem_of_pages in Hy. destruct (decide (pg_id y = pg_id x)) as [Eid|Hne].
    + assert (y = x) as -> by congruence. split; [|by intros []].
      unfold key_before. simpl. lia.
    + rewrite (key_before_spec x y Hne). split; [|by intros []]. intros H. split; [done|congruence].
Qed.

(** One batch: the next rows, and a cursor exactly when there are more. *)
Lemma trim_take limit (l : list PublicEventPage) :
  trim limit (take (S limit) l)
  = if bool_decide (limit < length l)%nat then (take limit l, pg_id <$> last (take limit l))
    else (l, None).
Proof.
  unfold trim. rewrite length_take. destruct (decide (limit < length l)%nat) as [H|H].
  - rewrite !bool_decide_true by lia. rewrite take_take. by replace (limit `min` S limit)%nat with limit by lia.
  - rewrite !bool_decide_false by lia. by rewrite take_ge by lia.
Qed.
End pages.
