(* ===== verification/PublicationSpec.v ===== *)
(** What the publication overlay promises: an abstract machine of pages, revisions
    and indexes, and the invariant its steps keep. *)
From S2P Require Import Prelude Text PyFloat PyVal PyDate Entities Store Slug Publication.
Import Indexing.
Open Scope string_scope.
Open Scope list_scope.
Open Scope Z_scope.

(** ** The abstract machine

    A page with its revisions, its search entry and its map entry; the moves of
    the workflow, the edits of a DRAFT, and the rebuild of the indexes. *)
Definition documents (r : PublicEventPageRevision) (from : option PublicationStatus)
    (p : PublicEventPage) : Prop :=
  rv_page_id r = pg_id p ∧ rv_version_at_moment r = pg_version p ∧ rv_from_status r = from
  ∧ rv_to_status r = pg_status p ∧ rv_title r = pg_title p
  ∧ rv_short_summary r = pg_short_summary p ∧ rv_narrative_markdown r = pg_narrative_markdown p.

(** The columns an edit leaves alone. *)
Definition same_page (p p' : PublicEventPage) : Prop :=
  pg_id p' = pg_id p ∧ pg_event_id p' = pg_event_id p ∧ pg_created_at p' = pg_created_at p
  ∧ pg_version p' = pg_version p + 1.
Definition same_overlay (p p' : PublicEventPage) : Prop :=
  pg_slug p' = pg_slug p ∧ pg_title p' = pg_title p ∧ pg_short_summary p' = pg_short_summary p
  ∧ pg_narrative_markdown p' = pg_narrative_markdown p.
Definition same_lifecycle (p p' : PublicEventPage) : Prop :=
  pg_status p' = pg_status p ∧ pg_first_published_at p' = pg_first_published_at p
  ∧ pg_last_published_at p' = pg_last_published_at p ∧ pg_retracted_at p' = pg_retracted_at p
  ∧ pg_retraction_note p' = pg_retraction_note p.

(** The publication dates a move may touch: only those of its own kind. *)
Definition moved (p p' : PublicEventPage) : Prop :=
  Workflow.is_allowed (pg_status p) (pg_status p') = true
  ∧ match pg_status p' with
    | PUBLISHED => ∃ now, pg_last_published_at p' = Some now
        ∧ pg_first_published_at p' = Some (default now (pg_first_published_at p))
        ∧ pg_retracted_at p' = pg_retracted_at p
    | RETRACTED => is_Some (pg_retracted_at p')
        ∧ pg_first_published_at p' = pg_first_published_at p
        ∧ pg_last_published_at p' = pg_last_published_at p
    | _ => pg_first_published_at p' = pg_first_published_at p
        ∧ pg_last_published_at p' = pg_last_published_at p
        ∧ pg_retracted_at p' = pg_retracted_at p
    end.

Definition describes (e : SearchIndexEntry) (p : PublicEventPage) : Prop :=
  se_page_id e = pg_id p ∧ se_slug e = pg_slug p ∧ se_title e = pg_title p
  ∧ se_short_summary e = pg_short_summary p
  ∧ pg_last_published_at p = Some (se_last_published_at e).
Definition locates (e : MapIndexEntry) (p : PublicEventPage) : Prop :=
  me_page_id e = pg_id p ∧ me_slug e = pg_slug p ∧ me_title e = pg_title p
  ∧ pg_last_published_at p = Some (me_last_published_at e)
  ∧ within 90 (me_latitude e) = true ∧ within 180 (me_longitude e) = true.

(** The indexes hold exactly, respectively at most, the PUBLISHED pages. *)
Definition search_matches (pages : gmap UUID PublicEventPage)
    (search : gmap UUID SearchIndexEntry) : Prop :=
  (∀ k e, search !! k = Some e →
     ∃ p, pages !! k = Some p ∧ pg_status p = PUBLISHED ∧ describes e p)
  ∧ ∀ k p, pages !! k = Some p → pg_status p = PUBLISHED → is_Some (search !! k).
Definition maps_match (pages : gmap UUID PublicEventPage) (maps : gmap UUID MapIndexEntry)
    : Prop :=
  ∀ k e, maps !! k = Some e → ∃ p, pages !! k = Some p ∧ pg_status p = PUBLISHED ∧ locates e p.

Definition free_slug (pages : gmap UUID PublicEventPage) (id : UUID) (slug : string) : Prop :=
  ∀ k q, pages !! k = Some q → k ≠ id → pg_slug q ≠ slug.

Inductive editorial_step (t : PublicTables) : PublicTables → Prop :=
  | es_create p r :
      pt_pages t !! pg_id p = None → free_slug (pt_pages t) (pg_id p) (pg_slug p) →
      (∀ k q, pt_pages t !! k = Some q → pg_event_id q ≠ pg_event_id p) →
      canonical_slug (pg_slug p) → pg_status p = DRAFT → pg_version p = 1 →
      PageRepo.storable p = true → documents r None p →
      editorial_step t (mkPublicTables (<[pg_id p := p]> (pt_pages t)) (pt_revisions t ++ [r])
        (pt_search t) (pt_maps t))
  | es_edit p p' r :
      pt_pages t !! pg_id p = Some p → pg_status p = DRAFT → same_page p p' →
      same_lifecycle p p' → free_slug (pt_pages t) (pg_id p) (pg_slug p') →
      (canonical_slug (pg_slug p) → canonical_slug (pg_slug p')) → PageRepo.storable p' = true →
      int4 (pg_version p') = true →
      documents r (Some DRAFT) p' →
      editorial_step t (mkPublicTables (<[pg_id p := p']> (pt_pages t)) (pt_revisions t ++ [r])
        (pt_search t) (pt_maps t))
  | es_move p p' r search maps :
      pt_pages t !! pg_id p = Some p → same_page p p' → same_overlay p p' → moved p p' →
      int4 (pg_version p') = true → documents r (Some (pg_status p)) p' →
      match pg_status p' with
      | PUBLISHED => (∃ e, search = <[pg_id p := e]> (pt_search t) ∧ describes e p')
          ∧ (maps = delete (pg_id p) (pt_maps t)
             ∨ ∃ e, maps = <[pg_id p := e]> (pt_maps t) ∧ locates e p')
      | ARCHIVED | RETRACTED =>
          search = delete (pg_id p) (pt_search t) ∧ maps = delete (pg_id p) (pt_maps t)
      | _ => search = pt_search t ∧ maps = pt_maps t
      end →
      editorial_step t (mkPublicTables (<[pg_id p := p']> (pt_pages t)) (pt_revisions t ++ [r])
        search maps)
  | es_reindex search maps :
      search_matches (pt_pages t) search → maps_match (pt_pages t) maps →
      editorial_step t (mkPublicTables (pt_pages t) (pt_revisions t) search maps).

(** The revisions of a page tell its whole life: one per version, each starting
    from the status the one before ended in, by a legal move or an edit of a
    DRAFT, and the last is the page as it stands. *)
Inductive history_of : list PublicEventPageRevision → PublicEventPage → Prop :=
  | history_created p r :
      pg_version p = 1 → pg_status p = DRAFT → documents r None p → history_of [r] p
  | history_step rs p p' r :
      history_of rs p → same_page p p' → documents r (Some (pg_status p)) p' →
      (pg_status p = DRAFT ∧ pg_status p' = DRAFT
       ∨ Workflow.is_allowed (pg_status p) (pg_status p') = true) →
      history_of (rs ++ [r]) p'.

Definition revisions_of (k : UUID) (t : PublicTables) : list PublicEventPageRevision :=
  filter (λ r, rv_page_id r = k) (pt_revisions t).

Record publication_ok (t : PublicTables) : Prop := mkPublicationOk {
  po_keys : ∀ k p, pt_pages t !! k = Some p → pg_id p = k;
  po_rows : ∀ k p, pt_pages t !! k = Some p →
    PageRepo.checks p = true ∧ PageRepo.storable p = true ∧ int4 (pg_version p) = true
    ∧ canonical_slug (pg_slug p);
  po_slugs : ∀ k1 k2 p1 p2, pt_pages t !! k1 = Some p1 → pt_pages t !! k2 = Some p2 →
    pg_slug p1 = pg_slug p2 → k1 = k2;
  po_events : ∀ k1 k2 p1 p2, pt_pages t !! k1 = Some p1 → pt_pages t !! k2 = Some p2 →
    pg_event_id p1 = pg_event_id p2 → k1 = k2;
  po_search : search_matches (pt_pages t) (pt_search t);
  po_maps : maps_match (pt_pages t) (pt_maps t);
  po_history : ∀ k p, pt_pages t !! k = Some p → history_of (revisions_of k t) p;
  po_revisions : ∀ r, r ∈ pt_revisions t → is_Some (pt_pages t !! rv_page_id r);
}.

(** ** The machine keeps the invariant *)
Lemma revisions_of_snoc k pages revs r search maps :
  revisions_of k (mkPublicTables pages (revs ++ [r]) search maps)
  = filter (λ r, rv_page_id r = k) revs ++ (if bool_decide (rv_page_id r = k) then [r] else []).
Proof.
  unfold revisions_of. simpl. rewrite filter_app. f_equal. rewrite filter_cons, filter_nil.
  destruct (decide (rv_page_id r = k)); [by rewrite bool_decide_true|by rewrite bool_decide_false].
Qed.

(** Steps that write one page and append one revision of it. *)
Lemma step_history t p' r search maps :
  publication_ok t → rv_page_id r = pg_id p' →
  history_of (revisions_of (pg_id p') t ++ [r]) p' →
  let t' := mkPublicTables (<[pg_id p' := p']> (pt_pages t)) (pt_revisions t ++ [r]) search maps in
  (∀ k p, pt_pages t' !! k = Some p → history_of (revisions_of k t') p)
  ∧ ∀ r, r ∈ pt_revisions t' → is_Some (pt_pages t' !! rv_page_id r).
Proof.
  intros Hok Hr Hh t'. split.
  - intros k p. subst t'. rewrite revisions_of_snoc. simpl. rewrite lookup_insert_Some.
    intros [[<- <-]|[Hne Hp]].
    + rewrite bool_decide_true by done. exact Hh.
    + rewrite bool_decide_false by congruence. rewrite app_nil_r. by apply (po_history t Hok).
  - intros r'. simpl. rewrite elem_of_app, list_elem_of_singleton. rewrite lookup_insert_is_Some.
    intros [Hin| ->]; [|left; by symmetry].
    destruct (decide (pg_id p' = rv_page_id r')); [by left|right]. split; [done|].
    by apply (po_revisions t Hok).
Qed.

Lemma unique_insert {A} (f : PublicEventPage → A) (m : gmap UUID PublicEventPage) k p :
  (∀ k1 k2 p1 p2, m !! k1 = Some p1 → m !! k2 = Some p2 → f p1 = f p2 → k1 = k2) →
  (∀ k' q, m !! k' = Some q → k' ≠ k → f q ≠ f p) →
  ∀ k1 k2 p1 p2, <[k := p]> m !! k1 = Some p1 → <[k := p]> m !! k2 = Some p2 →
    f p1 = f p2 → k1 = k2.
Proof.
  intros Hu Hf k1 k2 p1 p2. rewrite !lookup_insert_Some.
  intros [[<- <-]|[Hn1 H1]] [[<- <-]|[Hn2 H2]] E; [done| | |by eapply Hu].
  - exfalso. by apply (Hf k2 p2 H2 (not_eq_sym Hn2)).
  - exfalso. by apply (Hf k1 p1 H1 (not_eq_sym Hn1)).
Qed.

Lemma write_page_ok t p' r search maps :
  publication_ok t →
  PageRepo.checks p' = true → PageRepo.storable p' = true → int4 (pg_version p') = true →
  canonical_slug (pg_slug p') → free_slug (pt_pages t) (pg_id p') (pg_slug p') →
  (∀ k q, pt_pages t !! k = Some q → k ≠ pg_id p' → pg_event_id q ≠ pg_event_id p') →
  rv_page_id r = pg_id p' → history_of (revisions_of (pg_id p') t ++ [r]) p' →
  search_matches (<[pg_id p' := p']> (pt_pages t)) search →
  maps_match (<[pg_id p' := p']> (pt_pages t)) maps →
  publication_ok (mkPublicTables (<[pg_id p' := p']> (pt_pages t)) (pt_revisions t ++ [r])
    search maps).
Proof.
  intros Hok Hc Hs Hi Hcan Hslug Hev Hr Hh Hsearch Hmaps.
  destruct (step_history t p' r search maps Hok Hr Hh) as [Hhist Hrevs].
  split; simpl; [| | | |done|done|done|done].
  - intros k p. rewrite lookup_insert_Some. intros [[<- <-]|[_ Hp]]; [done|].
    by apply (po_keys t Hok).
  - intros k p. rewrite lookup_insert_Some. intros [[<- <-]|[_ Hp]]; [done|].
    by apply (po_rows t Hok k).
  - apply unique_insert; [apply (po_slugs t Hok)|exact Hslug].
  - apply unique_insert; [apply (po_events t Hok)|exact Hev].
Qed.

(** The indexes after a page was written: unchanged when it was not and is not
    PUBLISHED, without its entries when it is hidden, with fresh ones when it is
    PUBLISHED. *)
Section index_writes.
Context (pages : gmap UUID PublicEventPage) (id : UUID) (p' : PublicEventPage).

Lemma search_hidden search :
  (∀ p, pages !! id = Some p → pg_status p ≠ PUBLISHED) → pg_status p' ≠ PUBLISHED →
  search_matches pages search → search_matches (<[id := p']> pages) search.
Proof.
  intros Hold Hnew [H1 H2]. split.
  - intros k e He. destruct (H1 k e He) as (p & Hp & Hs & Hd). exists p.
    rewrite lookup_insert_ne; [done|]. intros <-. by apply (Hold p).
  - intros k p. rewrite lookup_insert_Some. intros [[<- <-]|[_ Hp]]; [done|by apply H2].
Qed.

Lemma search_removed search : pg_status p' ≠ PUBLISHED →
  search_matches pages search → search_matches (<[id := p']> pages) (delete id search).
Proof.
  intros Hnew [H1 H2]. split.
  - intros k e. rewrite lookup_delete_Some. intros [Hne He].
    destruct (H1 k e He) as (p & Hp & Hs & Hd). exists p. by rewrite lookup_insert_ne.
  - intros k p. rewrite lookup_insert_Some. intros [[<- <-]|[Hne Hp]]; [done|].
    intros Hs. rewrite lookup_delete_ne by done. by eapply H2.
Qed.

Lemma search_published search e : pg_status p' = PUBLISHED → describes e p' →
  search_matches pages search → search_matches (<[id := p']> pages) (<[id := e]> search).
Proof.
  intros Hnew Hd [H1 H2]. split.
  - intros k e'. rewrite lookup_insert_Some. intros [[<- <-]|[Hne He]].
    + exists p'. by rewrite lookup_insert_eq.
    + destruct (H1 k e' He) as (p & Hp & Hs & Hd'). exists p. by rewrite lookup_insert_ne.
  - intros k p. rewrite lookup_insert_Some. intros [[<- <-]|[Hne Hp]] Hs.
    + by rewrite lookup_insert_eq.
    + rewrite lookup_insert_ne by done. by eapply H2.
Qed.

Lemma maps_hidden maps :
  (∀ p, pages !! id = Some p → pg_status p ≠ PUBLISHED) →
  maps_match pages maps → maps_match (<[id := p']> pages) maps.
Proof.
  intros Hold H k e He. destruct (H k e He) as (p & Hp & Hs & Hd). exists p.
  rewrite lookup_insert_ne; [done|]. intros <-. by apply (Hold p).
Qed.

Lemma maps_removed maps : maps_match pages maps → maps_match (<[id := p']> pages) (delete id maps).
Proof.
  intros H k e. rewrite lookup_delete_Some. intros [Hne He].
  destruct (H k e He) as (p & Hp & Hs & Hd). exists p. by rewrite lookup_insert_ne.
Qed.

Lemma maps_published maps e : pg_status p' = PUBLISHED → locates e p' →
  maps_match pages maps → maps_match (<[id := p']> pages) (<[id := e]> maps).
Proof.
  intros Hnew Hd H k e'. rewrite lookup_insert_Some. intros [[<- <-]|[Hne He]].
  - exists p'. by rewrite lookup_insert_eq.
  - destruct (H k e' He) as (p & Hp & Hs & Hd'). exists p. by rewrite lookup_insert_ne.
Qed.
End index_writes.

Lemma checks_spec p : PageRepo.checks p = true ↔
  (pg_status p = PUBLISHED → pg_last_published_at p ≠ None)
  ∧ (pg_status p = RETRACTED → pg_retracted_at p ≠ None) ∧ 1 ≤ pg_version p.
Proof.
  unfold PageRepo.checks, check_status_timestamps.
  rewrite !andb_true_iff, !negb_true_iff, !andb_false_iff, !bool_decide_eq_false, Z.leb_le.
  destruct (decide (pg_status p = PUBLISHED)), (decide (pg_status p = RETRACTED)); naive_solver.
Qed.

Lemma moved_checks p p' : PageRepo.checks p = true → same_page p p' → moved p p' →
  PageRepo.checks p' = true.
Proof.
  rewrite !checks_spec. intros (_ & _ & Hv) (_ & _ & _ & Ev) [_ Hm]. split_and!; [| |lia].
  - intros Es. rewrite Es in Hm. destruct Hm as (now & -> & _). done.
  - intros Es. rewrite Es in Hm. destruct Hm as ([t ->] & _). done.
Qed.

Lemma storable_overlay p p' : same_overlay p p' → PageRepo.storable p' = PageRepo.storable p.
Proof. intros (E1 & E2 & _). unfold PageRepo.storable. by rewrite E1, E2. Qed.

(** Only APPROVED and ARCHIVED lead to PUBLISHED, only PUBLISHED out of the indexes. *)
Lemma allowed_hidden s s' : Workflow.is_allowed s s' = true → s' ≠ PUBLISHED →
  s' ≠ ARCHIVED → s' ≠ RETRACTED → s ≠ PUBLISHED.
Proof. destruct s, s'; vm_compute; congruence. Qed.

(** The indexes of a page that moved. *)
Lemma moved_indexes t p p' search maps :
  publication_ok t → pt_pages t !! pg_id p = Some p → pg_id p' = pg_id p → moved p p' →
  match pg_status p' with
  | PUBLISHED => (∃ e, search = <[pg_id p := e]> (pt_search t) ∧ describes e p')
      ∧ (maps = delete (pg_id p) (pt_maps t)
         ∨ ∃ e, maps = <[pg_id p := e]> (pt_maps t) ∧ locates e p')
  | ARCHIVED | RETRACTED =>
      search = delete (pg_id p) (pt_search t) ∧ maps = delete (pg_id p) (pt_maps t)
  | _ => search = pt_search t ∧ maps = pt_maps t
  end →
  search_matches (<[pg_id p := p']> (pt_pages t)) search
  ∧ maps_match (<[pg_id p := p']> (pt_pages t)) maps.
Proof.
  intros Hok Hp Eid [Ha _]. pose proof (po_search t Hok) as Hs. pose proof (po_maps t Hok) as Hm.
  assert (pg_status p' ≠ PUBLISHED → pg_status p' ≠ ARCHIVED → pg_status p' ≠ RETRACTED →
    ∀ q, pt_pages t !! pg_id p = Some q → pg_status q ≠ PUBLISHED) as Hold.
  { intros H1 H2 H3 q. rewrite Hp. intros [= <-]. by eapply allowed_hidden. }
  destruct (pg_status p') eqn:Es; intros Hi.
  4: { destruct Hi as [(e & -> & He) Hmaps]. split; [by apply search_published|].
       destruct Hmaps as [-> |(m & -> & Hl)]; [by apply maps_removed|by apply maps_published]. }
  all: destruct Hi as [-> ->]; split;
    first [apply search_removed; [congruence|done]|by apply maps_removed
          |apply search_hidden; [by apply Hold|congruence|done]|apply maps_hidden; [by apply Hold|done]].
Qed.

Lemma same_page_events t p p' k q :
  publication_ok t → pt_pages t !! pg_id p = Some p → same_page p p' →
  pt_pages t !! k = Some q → k ≠ pg_id p' → pg_event_id q ≠ pg_event_id p'.
Proof.
  intros Hok Hp (Eid & Eev & _) Hq Hne E. apply Hne. rewrite Eid.
  apply (po_events t Hok k (pg_id p) q p Hq Hp). congruence.
Qed.

Lemma publication_step t t' : publication_ok t → editorial_step t t' → publication_ok t'.
Proof.
  intros Hok Hstep. destruct Hstep as
    [p r Hnone Hslug Hev Hcan Hst Hver Hstor Hdoc
    |p p' r Hp Hst Hpage Hlife Hslug Hcan Hstor Hint Hdoc
    |p p' r search maps Hp Hpage Hover Hmoved Hint Hdoc Hidx|search maps Hs Hm].
  - apply write_page_ok; try done.
    + apply checks_spec. rewrite Hst, Hver. split_and!; [done|done|lia].
    + by rewrite Hver.
    + intros k q Hq _. by apply (Hev k q).
    + apply Hdoc.
    + assert (revisions_of (pg_id p) t = []) as ->; [|by apply history_created].
      destruct (revisions_of (pg_id p) t) as [|r' l] eqn:E; [done|exfalso].
      assert (r' ∈ revisions_of (pg_id p) t) as Hin by (rewrite E; left).
      apply list_elem_of_filter in Hin as [Hr' Hin]. apply (po_revisions t Hok) in Hin as [q Hq].
      rewrite Hr' in Hq. congruence.
    + apply search_hidden; [by rewrite Hnone|congruence|apply Hok].
    + apply maps_hidden; [by rewrite Hnone|apply Hok].
  - pose proof (po_rows t Hok _ _ Hp) as (Hc & _ & _ & Hcanp).
    pose proof Hpage as (Eid & Eev & _ & Ev). destruct Hlife as (El & Ef & Elast & Er & _).
    rewrite <- Eid in Hslug |- *. apply write_page_ok; try done.
    + apply checks_spec. rewrite El, Elast, Er, Ev. apply checks_spec in Hc.
      destruct Hc as (H1 & H2 & H3). split_and!; [done|done|lia].
    + by apply Hcan.
    + intros k q Hq. by eapply same_page_events.
    + apply Hdoc.
    + rewrite Eid. apply (history_step _ p); [by apply (po_history t Hok)|done|by rewrite Hst|].
      left. by rewrite El.
    + rewrite Eid. apply search_hidden; [by rewrite Hp; intros ? [= <-]; congruence|congruence|apply Hok].
    + rewrite Eid. apply maps_hidden; [by rewrite Hp; intros ? [= <-]; congruence|apply Hok].
  - pose proof (po_rows t Hok _ _ Hp) as (Hc & Hstor & _ & Hcan).
    pose proof Hpage as (Eid & _). pose proof Hover as (Eslug & _).
    destruct (moved_indexes t p p' search maps Hok Hp Eid Hmoved Hidx) as [Hs Hm].
    rewrite <- Eid in Hs, Hm |- *. apply write_page_ok; try done.
    + by eapply moved_checks.
    + by rewrite (storable_overlay p p').
    + by rewrite Eslug.
    + rewrite Eslug, Eid. intros k q Hq Hne E. apply Hne. by eapply (po_slugs t Hok).
    + intros k q Hq. by eapply same_page_events.
    + apply Hdoc.
    + rewrite Eid. apply (history_step _ p); [by apply (po_history t Hok)|done|done|].
      right. apply Hmoved.
  - destruct Hok. by split.
Qed.

(** ** What the machine never takes back *)

(** Revisions are only appended, pages never removed, versions never decrease, a
    page that changed has a new version, a first publication date stays, and a
    RETRACTED page is final. *)
Record publication_evolves (t t' : PublicTables) : Prop := mkPublicationEvolves {
  pe_revisions : pt_revisions t `prefix_of` pt_revisions t';
  pe_pages : ∀ k p, pt_pages t !! k = Some p → ∃ p', pt_pages t' !! k = Some p'
    ∧ pg_event_id p' = pg_event_id p ∧ pg_created_at p' = pg_created_at p
    ∧ (p' = p ∨ pg_version p < pg_version p' ∧ pg_status p ≠ RETRACTED)
    ∧ (is_Some (pg_first_published_at p) → pg_first_published_at p' = pg_first_published_at p);
}.

#[export] Instance publication_evolves_preorder : PreOrder publication_evolves.
Proof.
  split.
  - intros t. split; [done|]. intros k p Hp. exists p. by split_and!; [|..|left|].
  - intros t1 t2 t3 [R1 P1] [R2 P2]. split; [by etrans|]. intros k p Hp.
    destruct (P1 k p Hp) as (q & Hq & E1 & C1 & V1 & F1).
    destruct (P2 k q Hq) as (s & Hs & E2 & C2 & V2 & F2). exists s.
    split_and!; [done|congruence|congruence| |].
    + destruct V1 as [-> |[V1 N1]], V2 as [-> |[V2 N2]]; [by left|by right|by right|].
      right. split; [lia|done].
    + intros Hf. rewrite F2; [by apply F1|]. by rewrite F1.
Qed.

Lemma evolves_write t p p' r search maps :
  pt_pages t !! pg_id p = Some p → same_page p p' → pg_status p ≠ RETRACTED →
  (is_Some (pg_first_published_at p) → pg_first_published_at p' = pg_first_published_at p) →
  publication_evolves t (mkPublicTables (<[pg_id p := p']> (pt_pages t)) (pt_revisions t ++ [r])
    search maps).
Proof.
  intros Hp (_ & Ee & Ec & Ev) Hs Hf. split; simpl; [by apply prefix_app_r|]. intros k q Hq.
  destruct (decide (pg_id p = k)) as [<-|Hne].
  - assert (q = p) as -> by congruence. exists p'. rewrite lookup_insert_eq.
    split_and!; [done|done|done| |done]. right. split; [lia|done].
  - exists q. rewrite lookup_insert_ne by done. by split_and!; [|..|left|].
Qed.

Lemma moved_first p p' : moved p p' → is_Some (pg_first_published_at p) →
  pg_first_published_at p' = pg_first_published_at p.
Proof.
  intros [_ Hm] [t0 E]. destruct (pg_status p').
  4: { destruct Hm as (now & _ & -> & _). by rewrite E. }
  5: by destruct Hm as (_ & -> & _).
  all: by destruct Hm as (-> & _).
Qed.

Lemma evolves_editorial t t' : editorial_step t t' → publication_evolves t t'.
Proof.
  destruct 1 as [p r Hnone|p p' r Hp Hst Hpage Hlife|p p' r search maps Hp Hpage Hover Hmoved|].
  - split; simpl; [by apply prefix_app_r|]. intros k q Hq. exists q.
    rewrite lookup_insert_ne by congruence. by split_and!; [|..|left|].
  - apply evolves_write; [done|done|congruence|]. intros _. apply Hlife.
  - apply evolves_write; [done|done| |by apply moved_first]. intros E.
    destruct Hmoved as [Ha _]. rewrite E in Ha. vm_compute in Ha. by destruct (pg_status p').
  - split; simpl; [done|]. intros k p Hp. exists p. by split_and!; [|..|left|].
Qed.
