(* ===== verification/Editorial.v ===== *)
(** The editorial use cases (application/use_cases/editorial.py and
    reindex_public_events.py): creation, edits, transitions and the rebuild of the
    indexes.  Every request implements a step of the machine of PublicationSpec. *)
From S2P Require Import Prelude Text PyFloat PyVal PyDate Entities Store Logic Slug Publication.
From S2P Require Import Keyset PublicationSpec.
Import Indexing.
Open Scope string_scope.
Open Scope list_scope.
Open Scope Z_scope.

(** ** Inputs *)
Record CreateInput := mkCreate {
  ci_event_id : UUID;
  ci_slug : string;
  ci_title : string;
  ci_short_summary : option string;
  ci_narrative_markdown : option string;
  ci_editor_user_id : UUID;
}.

Record UpdateInput := mkUpdate {
  ui_page_id : UUID;
  ui_expected_version : Z;
  ui_editor_user_id : UUID;
  ui_title : option string;
  ui_short_summary : option string;
  ui_narrative_markdown : option string;
  ui_slug : option string;
  ui_correction_note : option string;
  ui_transition_reason : option string;
}.

Record TransitionInput := mkTransition {
  ti_page_id : UUID;
  ti_expected_version : Z;
  ti_editor_user_id : UUID;
  ti_transition_reason : option string;
  ti_retraction_note : option string;
}.

(** ** Shared helpers *)
Definition EDITORIAL_FIELDS : list string :=
  ["title"; "short_summary"; "narrative_markdown"; "slug"].

Definition load_page (page_id : UUID) : M PublicEventPage :=
  page ← PageRepo.get_by_id page_id;
  match page with
  | None => raise (PublicEventPageNotFoundError "page")
  | Some p => mret p
  end.

(** _validate_editorial_kwargs, on the keys: the smallest illegal key is reported. *)
Definition validate_editorial_kwargs (extras : list string) : Res unit :=
  match sort_strings (filter (λ k, k ∉ EDITORIAL_FIELDS) (dict_fromkeys extras)) with
  | [] => Ok tt
  | k :: _ => Raise (EditorialFieldLockedError k)
  end.

Definition revision_of (id : UUID) (t : datetime) (page : PublicEventPage)
    (from_status : option PublicationStatus) (editor : UUID)
    (transition_reason correction_note : option string) : PublicEventPageRevision :=
  mkRevision id (pg_id page) (pg_version page) from_status (pg_status page) (pg_title page)
    (pg_short_summary page) (pg_narrative_markdown page) editor transition_reason correction_note
    t.

Definition write_revision (page : PublicEventPage) (from_status : option PublicationStatus)
    (editor : UUID) (transition_reason correction_note : option string) : M unit :=
  id ← uuid4;
  t ← utc_now;
  PageRepo.add_revision
    (revision_of id t page from_status editor transition_reason correction_note).

(** [s or None], [s or d] *)
Definition or_none (s : string) : option string := if str_empty s then None else Some s.
Definition or_else (s : option string) (d : string) : string :=
  match s with Some s => if str_empty s then d else s | None => d end.

(** ** CreatePublicEventPage *)
Module CreatePublicEventPage.
Definition execute (input : CreateInput) : M PublicEventPage :=
  slug ← lift_res (normalize_slug (ci_slug input));
  id ← uuid4;
  created ← utc_now;
  updated ← utc_now;
  let page := mkPage id (ci_event_id input) slug (ci_title input) (ci_short_summary input)
    (ci_narrative_markdown input) DRAFT 1 None None None None created updated in
  PageRepo.add page;;
  write_revision page None (ci_editor_user_id input) (Some "created") None;;
  commit;;
  mret page.
End CreatePublicEventPage.

(** ** UpdatePublicEventPage *)
Module UpdatePublicEventPage.
(** The dict of the fields the caller wants to change. *)
Definition provided (input : UpdateInput) : Res (list (string * option string)) :=
  slug ← match ui_slug input with
         | None => Ok []
         | Some s => s' ← normalize_slug s; Ok [("slug", Some s')]
         end;
  Ok (match ui_title input with None => [] | Some t => [("title", Some t)] end
      ++ match ui_short_summary input with None => [] | Some s => [("short_summary", or_none s)] end
      ++ match ui_narrative_markdown input with
         | None => [] | Some s => [("narrative_markdown", or_none s)] end
      ++ slug).

(** [page.model_copy(update={**provided, "version": ..., "updated_at": ...})] *)
Definition model_copy (provided : list (string * option string)) (version : Z) (t : datetime)
    (p : PublicEventPage) : PublicEventPage :=
  let text key old := match dict_get key provided with Some (Some s) => s | _ => old end in
  let opt key old := default old (dict_get key provided) in
  mkPage (pg_id p) (pg_event_id p) (text "slug" (pg_slug p)) (text "title" (pg_title p))
    (opt "short_summary" (pg_short_summary p)) (opt "narrative_markdown" (pg_narrative_markdown p))
    (pg_status p) version (pg_first_published_at p) (pg_last_published_at p) (pg_retracted_at p)
    (pg_retraction_note p) (pg_created_at p) t.

Definition execute (input : UpdateInput) : M PublicEventPage :=
  page ← load_page (ui_page_id input);
  if bool_decide (pg_status page ≠ DRAFT)
  then raise (InvalidPublicationTransitionError (pg_status page) DRAFT)
  else
    fields ← lift_res (provided input);
    lift_res (validate_editorial_kwargs fields.*1);;
    moment ← utc_now;
    let updated := model_copy fields (pg_version page + 1) moment page in
    PageRepo.update updated (ui_expected_version input);;
    write_revision updated (Some DRAFT) (ui_editor_user_id input)
      (Some (or_else (ui_transition_reason input) "edited")) (ui_correction_note input);;
    commit;;
    mret updated.
End UpdatePublicEventPage.

(** ** The transition use cases: the subclasses of [_TransitionUseCase] *)
Inductive Transition :=
  | SubmitPublicEventPage | RequestChanges | ApprovePublicEventPage | RejectPublicEventPage
  | PublishPublicEventPage | ArchivePublicEventPage | ReopenPublicEventPage
  | RetractPublicEventPage.

Module TransitionUseCase.
Definition target_status (u : Transition) : PublicationStatus :=
  match u with
  | SubmitPublicEventPage => IN_REVIEW
  | RequestChanges => DRAFT
  | ApprovePublicEventPage => APPROVED
  | RejectPublicEventPage => DRAFT
  | PublishPublicEventPage => PUBLISHED
  | ArchivePublicEventPage => ARCHIVED
  | ReopenPublicEventPage => DRAFT
  | RetractPublicEventPage => RETRACTED
  end.

(** [(note or None) and note[:1000]] *)
Definition trim_note (note : option string) : option string :=
  match note with
  | Some n => if str_empty n then None else Some (str_take 1000 n)
  | None => None
  end.

Definition with_status (status : PublicationStatus) (now : datetime) (p : PublicEventPage)
    : PublicEventPage :=
  mkPage (pg_id p) (pg_event_id p) (pg_slug p) (pg_title p) (pg_short_summary p)
    (pg_narrative_markdown p) status (pg_version p + 1) (pg_first_published_at p)
    (pg_last_published_at p) (pg_retracted_at p) (pg_retraction_note p) (pg_created_at p) now.

(** _apply_status_mutation and its two overrides *)
Definition apply_status_mutation (u : Transition) (now : datetime) (input : TransitionInput)
    (page : PublicEventPage) : PublicEventPage :=
  let p := with_status (target_status u) now page in
  match u with
  | PublishPublicEventPage =>
      mkPage (pg_id p) (pg_event_id p) (pg_slug p) (pg_title p) (pg_short_summary p)
        (pg_narrative_markdown p) (pg_status p) (pg_version p)
        (Some (default now (pg_first_published_at page))) (Some now) (pg_retracted_at p)
        (pg_retraction_note p) (pg_created_at p) (pg_updated_at p)
  | RetractPublicEventPage =>
      mkPage (pg_id p) (pg_event_id p) (pg_slug p) (pg_title p) (pg_short_summary p)
        (pg_narrative_markdown p) (pg_status p) (pg_version p) (pg_first_published_at p)
        (pg_last_published_at p) (Some now) (trim_note (ti_retraction_note input))
        (pg_created_at p) (pg_updated_at p)
  | _ => p
  end.

(** _post_transition_hook and its overrides *)
Definition post_transition_hook (u : Transition) (page : PublicEventPage) : M unit :=
  match u with
  | PublishPublicEventPage =>
      index_published_page page;; index_published_page_in_map page
  | ArchivePublicEventPage | RetractPublicEventPage =>
      remove_page_from_index (pg_id page);; remove_page_from_map (pg_id page)
  | _ => mret tt
  end.

Definition execute (u : Transition) (input : TransitionInput) : M PublicEventPage :=
  page ← load_page (ti_page_id input);
  let from_status := pg_status page in
  lift_res (Workflow.validate_transition from_status (target_status u));;
  moment ← utc_now;
  let updated := apply_status_mutation u moment input page in
  PageRepo.update updated (ti_expected_version input);;
  write_revision updated (Some from_status) (ti_editor_user_id input) (ti_transition_reason input)
    (if bool_decide (target_status u = RETRACTED) then ti_retraction_note input else None);;
  post_transition_hook u updated;;
  commit;;
  mret updated.
End TransitionUseCase.

(** ** Reads *)
Record EditorialPageListItem := mkEditorialItem {
  el_id : UUID;
  el_slug : string;
  el_title : string;
  el_status : PublicationStatus;
  el_version : Z;
  el_updated_at : datetime;
  el_last_published_at : option datetime;
  el_allowed_next_statuses : list PublicationStatus;
}.

(** The order of the statuses as strings. *)
Definition status_value (s : PublicationStatus) : string :=
  match s with
  | DRAFT => "DRAFT" | IN_REVIEW => "IN_REVIEW" | APPROVED => "APPROVED"
  | PUBLISHED => "PUBLISHED" | ARCHIVED => "ARCHIVED" | RETRACTED => "RETRACTED"
  end.
Definition sort_statuses : list PublicationStatus → list PublicationStatus :=
  py_sorted (λ x y, String.leb (status_value x) (status_value y)).

Module ListEditorialPages.
Definition execute (statuses : option (list PublicationStatus)) (limit : Z)
    (after_id : option UUID) : M (list EditorialPageListItem * option UUID * Z) :=
  let bounded_limit := Z.max 1 (Z.min limit 100) in
  '(items, next_cursor) ← PageRepo.list_editorial statuses (Z.to_nat bounded_limit) after_id;
  mret ((λ row, mkEditorialItem (pg_id row) (pg_slug row) (pg_title row) (pg_status row)
           (pg_version row) (pg_updated_at row) (pg_last_published_at row)
           (sort_statuses (Workflow.allowed_next_states (pg_status row)))) <$> items,
        next_cursor, bounded_limit).
End ListEditorialPages.

Module ListPageRevisions.
Definition execute (page_id : UUID) : M (list PublicEventPageRevision) :=
  load_page page_id;;
  PageRepo.list_revisions page_id.
End ListPageRevisions.

(** ** ReindexPublicEvents *)
Module ReindexPublicEvents.
Definition REINDEX_BATCH_SIZE : nat := 100.

Section walk.
Context (MAX_REINDEX_PAGES : Z).

Definition entries : Type := list SearchIndexEntry * list MapIndexEntry.

(** The loop over one batch. *)
Fixpoint collect (rows : list PublicEventPage) (acc : entries) : M entries :=
  match rows with
  | [] => mret acc
  | row :: rows' =>
      projection ← ProjectionRepo.get (pg_event_id row);
      entry ← lift_res (entry_from row projection);
      map_entry ← lift_res (map_entry_from row projection);
      let search_entries := acc.1 ++ [entry] in
      let map_entries := acc.2 ++ match map_entry with Some e => [e] | None => [] end in
      if MAX_REINDEX_PAGES <=? Z.of_nat (length search_entries)
      then raise (RuntimeError "Reindex exceeds the page ceiling")
      else collect rows' (search_entries, map_entries)
  end.

(** The [while True] loop: [fuel] bounds the number of batches. *)
Fixpoint walk (fuel : nat) (after_id : option UUID) (acc : entries) : M (option entries) :=
  match fuel with
  | O => mret None
  | S fuel' =>
      '(items, next_cursor) ← PageRepo.list_editorial (Some [PUBLISHED]) REINDEX_BATCH_SIZE after_id;
      acc' ← collect items acc;
      match next_cursor with
      | None => mret (Some acc')
      | Some id => walk fuel' (Some id) acc'
      end
  end.

(** [None]: the fuel ran out. *)
Definition execute (fuel : nat) : M (option (Z * Z)) :=
  found ← walk fuel None ([], []);
  match found with
  | None => mret None
  | Some (search_entries, map_entries) =>
      search_count ← SearchRepo.rebuild_all_from search_entries;
      map_count ← MapRepo.rebuild_all_from map_entries;
      commit;;
      mret (Some (search_count, map_count))
  end.
End walk.

Definition MAX_REINDEX_PAGES : Z := 50000.
(** Every batch but the last adds a full batch of entries: the ceiling stops the
    loop before the fuel does ([EditorialFacts.run_ends]). *)
Definition batches (max_pages : Z) : nat := S (Z.to_nat (max_pages / 100)).
Definition run : M (option (Z * Z)) := execute MAX_REINDEX_PAGES (batches MAX_REINDEX_PAGES).
End ReindexPublicEvents.

(** ** Requests *)
Inductive EditorialRequest :=
  | EdCreate (input : CreateInput)
  | EdUpdate (input : UpdateInput)
  | EdTransition (u : Transition) (input : TransitionInput)
  | EdReindex.

Definition handle_editorial (r : EditorialRequest) : M unit :=
  match r with
  | EdCreate input => _ ← CreatePublicEventPage.execute input; mret tt
  | EdUpdate input => _ ← UpdatePublicEventPage.execute input; mret tt
  | EdTransition u input => _ ← TransitionUseCase.execute u input; mret tt
  | EdReindex => _ ← ReindexPublicEvents.run; mret tt
  end.

(** ** Quiet runs of the statements *)
Lemma stmt_Ok_inv {A} (f : DB → Res A * DB) w a w' :
  quiet w → stmt f w = (Ok a, w') → ∃ db', f (w_db w) = (Ok a, db') ∧ w' = set_db db' w.
Proof.
  intros Hq. rewrite stmt_quiet by done. destruct (f (w_db w)) as [[b|e] db']; [|done].
  intros [= -> <-]. by exists db'.
Qed.

(** The page table after an update, or the error. *)
Definition update_result (p : PublicEventPage) (v : Z) (m : gmap UUID PublicEventPage)
    : Res (gmap UUID PublicEventPage) :=
  if negb (int4 (pg_version p) && int4 v) then Raise (DataError "public_event_pages.version")
  else match m !! pg_id p with
       | None => Raise (PublicEventPageNotFoundError "page")
       | Some old =>
           if pg_version old =? v then
             if negb (PageRepo.storable p) then Raise (DataError "public_event_pages")
             else if negb (PageRepo.checks p) then Raise (IntegrityError "ck_public_event_pages")
             else if PageRepo.slug_taken m (pg_id p) (pg_slug p)
             then Raise (SlugAlreadyTakenError (pg_slug p))
             else Ok (<[pg_id p := PageRepo.set_values p old]> m)
           else Raise (PublicEventPageModifiedError v (pg_version old))
       end.

Lemma no_row_quiet id v w : quiet w →
  PageRepo.no_row_updated id v w
  = (match PageRepo.pages (w_db w) !! id with
     | None => Raise (PublicEventPageNotFoundError "page")
     | Some p => Raise (PublicEventPageModifiedError v (pg_version p))
     end, w).
Proof.
  intros Hq. unfold PageRepo.no_row_updated. unfold mbind, M_bind. rewrite query_quiet by done.
  by destruct (PageRepo.pages (w_db w) !! id).
Qed.

Lemma update_quiet p v w : quiet w →
  PageRepo.update p v w
  = match update_result p v (PageRepo.pages (w_db w)) with
    | Ok m => (Ok tt, set_db (upd_pages (λ _, m) (w_db w)) w)
    | Raise e => (Raise e, w)
    end.
Proof.
  intros Hq. unfold PageRepo.update, update_result. unfold mbind at 1, M_bind at 1.
  rewrite stmt_quiet by done. destruct (negb (int4 (pg_version p) && int4 v)); [done|].
  destruct (PageRepo.pages (w_db w) !! pg_id p) as [old|] eqn:Eold.
  - destruct (pg_version old =? v).
    + destruct (negb (PageRepo.storable p)); [done|]. destruct (negb (PageRepo.checks p)); [done|].
      by destruct (PageRepo.slug_taken _ _ _).
    + rewrite set_db_same, no_row_quiet by done. by rewrite Eold.
  - rewrite set_db_same, no_row_quiet by done. by rewrite Eold.
Qed.

Lemma slug_taken_false m id slug : PageRepo.slug_taken m id slug = false ↔ free_slug m id slug.
Proof.
  unfold PageRepo.slug_taken, free_slug. rewrite <- not_true_iff_false, existsb_exists. split.
  - intros H k q Hq Hne E. apply H. exists (k, q).
    split; [by apply list_elem_of_In, elem_of_map_to_list|]. simpl.
    by rewrite bool_decide_false, bool_decide_true.
  - intros H ([k q] & Hin & Hb). apply list_elem_of_In, elem_of_map_to_list in Hin. simpl in Hb.
    apply andb_true_iff in Hb as [H1 H2]. apply negb_true_iff, bool_decide_eq_false in H1.
    apply bool_decide_eq_true in H2. by apply (H k q).
Qed.

Lemma update_result_Ok p v m m' : update_result p v m = Ok m' ↔
  ∃ old, int4 (pg_version p) = true ∧ int4 v = true ∧ m !! pg_id p = Some old
    ∧ pg_version old = v ∧ PageRepo.storable p = true ∧ PageRepo.checks p = true
    ∧ free_slug m (pg_id p) (pg_slug p) ∧ m' = <[pg_id p := PageRepo.set_values p old]> m.
Proof.
  unfold update_result. setoid_rewrite <- slug_taken_false. split.
  - destruct (int4 (pg_version p)) eqn:E1, (int4 v) eqn:E2; [|done..]. simpl.
    destruct (m !! pg_id p) as [old|] eqn:Eold; [|done].
    destruct (pg_version old =? v) eqn:Ev; [|done]. apply Z.eqb_eq in Ev.
    destruct (PageRepo.storable p) eqn:Es; [|done]. destruct (PageRepo.checks p) eqn:Ec; [|done].
    destruct (PageRepo.slug_taken _ _ _) eqn:Et; [done|]. intros [= <-]. by exists old.
  - intros (old & -> & -> & -> & -> & -> & -> & -> & ->). simpl. by rewrite Z.eqb_refl.
Qed.

(** Writing a revision of a page that is there. *)
Lemma write_revision_inv page from editor reason note w w' :
  quiet w → write_revision page from editor reason note w = (Ok tt, w') →
  ∃ r, r = revision_of (w_uuid w) (w_now w) page from editor reason note
    ∧ quiet w' ∧ w_committed w' = w_committed w
    ∧ w_db w' = upd_revisions (λ l, l ++ [r]) (w_db w).
Proof.
  intros Hq. destruct w as [db com env now uid]. unfold quiet in Hq. simpl in Hq. subst env.
  unfold write_revision. intros (id & w1 & [= <- <-] & H)%bind_Ok_inv.
  apply bind_Ok_inv in H as (t & w2 & [= <- <-] & H). simpl in H.
  unfold PageRepo.add_revision in H. apply stmt_Ok_inv in H as (db' & H & ->); [|done].
  simpl in H. destruct (negb _); [done|]. destruct (_ <? 1); [done|]. case_bool_decide; [done|].
  destruct (PageRepo.pages db !! _); [|done]. injection H as <-.
  eexists. split_and!; [| | |reflexivity]; done.
Qed.

Lemma load_page_inv id w p w' : quiet w → load_page id w = (Ok p, w') →
  PageRepo.pages (w_db w) !! id = Some p ∧ w' = w.
Proof.
  intros Hq. unfold load_page, PageRepo.get_by_id. intros (o & w1 & H & E)%bind_Ok_inv.
  rewrite query_quiet in H by done. injection H as <- <-.
  destruct (PageRepo.pages (w_db w) !! id); [|done]. by injection E as <- <-.
Qed.

(** ** Transitions *)
Definition set_publication (t : PublicTables) (db : DB) : DB := upd_publication (λ _, t) db.

(** What the hook of a transition leaves in the indexes. *)
Definition hook_indexes (u : Transition) (p : PublicEventPage)
    (projection : option ProjectedAccidentRecord) (t : PublicTables)
    (search : gmap UUID SearchIndexEntry) (maps : gmap UUID MapIndexEntry) : Prop :=
  match u with
  | PublishPublicEventPage => ∃ e m,
      entry_from p projection = Ok e ∧ map_entry_from p projection = Ok m
      ∧ search = <[pg_id p := e]> (pt_search t)
      ∧ maps = match m with
               | Some me => <[pg_id p := me]> (pt_maps t)
               | None => delete (pg_id p) (pt_maps t)
               end
  | ArchivePublicEventPage | RetractPublicEventPage =>
      search = delete (pg_id p) (pt_search t) ∧ maps = delete (pg_id p) (pt_maps t)
  | _ => search = pt_search t ∧ maps = pt_maps t
  end.

Lemma entry_from_id p projection e : entry_from p projection = Ok e → se_page_id e = pg_id p.
Proof.
  unfold entry_from, mbind, Res_bind. destruct (coerce_int _); [|done]. by intros [= <-].
Qed.

Lemma map_entry_from_id p projection e :
  map_entry_from p projection = Ok (Some e) → me_page_id e = pg_id p.
Proof.
  unfold map_entry_from, mbind, Res_bind. destruct (extract_coords _) as [[[lat lng]|]|]; [|done..].
  destruct (coerce_int _); [|done]. by intros [= <-].
Qed.

(** The two statements of the publish hook. *)
Lemma index_search_inv p w w' : quiet w → index_published_page p w = (Ok tt, w') →
  ∃ e, entry_from p (db_projections (w_db w) !! pg_event_id p) = Ok e
    ∧ w' = set_db (upd_search <[pg_id p := e]> (w_db w)) w.
Proof.
  intros Hq. unfold index_published_page. intros (pr & w1 & H1 & H)%bind_Ok_inv.
  unfold ProjectionRepo.get in H1. rewrite query_quiet in H1 by done. injection H1 as <- <-.
  apply bind_Ok_inv in H as (e & w1 & He & H). unfold lift_res in He. injection He as He <-.
  unfold SearchRepo.upsert in H. apply stmt_Ok_inv in H as (db' & H & ->); [|done].
  exists e. split; [done|]. rewrite <- (entry_from_id _ _ _ He).
  destruct (negb _); [done|]. destruct (PageRepo.pages _ !! _); [|done]. by injection H as <-.
Qed.

Lemma index_map_inv p w w' : quiet w → index_published_page_in_map p w = (Ok tt, w') →
  ∃ m, map_entry_from p (db_projections (w_db w) !! pg_event_id p) = Ok m
    ∧ w' = set_db (upd_maps (match m with
                             | Some me => <[pg_id p := me]>
                             | None => delete (pg_id p)
                             end) (w_db w)) w.
Proof.
  intros Hq. unfold index_published_page_in_map. intros (pr & w1 & H1 & H)%bind_Ok_inv.
  unfold ProjectionRepo.get in H1. rewrite query_quiet in H1 by done. injection H1 as <- <-.
  apply bind_Ok_inv in H as (m & w1 & Hm & H). unfold lift_res in Hm. injection Hm as Hm <-.
  exists m. split; [done|]. destruct m as [me|].
  - rewrite <- (map_entry_from_id _ _ _ Hm). unfold MapRepo.upsert in H.
    apply stmt_Ok_inv in H as (db' & H & ->); [|done].
    destruct (negb _); [done|]. destruct (PageRepo.pages _ !! _); [|done]. by injection H as <-.
  - unfold MapRepo.delete in H. rewrite exec_quiet in H by done. by injection H as <-.
Qed.

Lemma hook_inv u p w w' :
  quiet w → TransitionUseCase.post_transition_hook u p w = (Ok tt, w') →
  quiet w' ∧ w_committed w' = w_committed w
  ∧ ∃ search maps, hook_indexes u p (db_projections (w_db w) !! pg_event_id p)
      (db_publication (w_db w)) search maps
    ∧ w_db w' = set_publication (mkPublicTables (PageRepo.pages (w_db w))
        (PageRepo.revisions (w_db w)) search maps) (w_db w).
Proof.
  intros Hq. assert (w_db w = set_publication (db_publication (w_db w)) (w_db w)) as Hsame
    by (by destruct (w_db w)).
  destruct u; simpl; unfold mret, M_ret.
  1-4, 7: (intros [= <-]; split_and!; [done|done|]; by do 2 eexists; split; [by split|];
    rewrite Hsame at 1; unfold PageRepo.pages, PageRepo.revisions; by destruct (db_publication _)).
  - intros ([] & w1 & H1 & H2)%bind_Ok_inv.
    apply index_search_inv in H1 as (e & He & ->); [|done].
    apply index_map_inv in H2 as (m & Hm & ->); [|done].
    split_and!; [done|done|]. do 2 eexists. split; [exists e, m; by split_and!|].
    destruct m; reflexivity.
  - intros ([] & w1 & H1 & H2)%bind_Ok_inv.
    unfold remove_page_from_index, SearchRepo.delete in H1. rewrite exec_quiet in H1 by done.
    injection H1 as <-. unfold remove_page_from_map, MapRepo.delete in H2.
    rewrite exec_quiet in H2 by done. injection H2 as <-.
    split_and!; [done|done|]. do 2 eexists. by split; [by split|].
  - intros ([] & w1 & H1 & H2)%bind_Ok_inv.
    unfold remove_page_from_index, SearchRepo.delete in H1. rewrite exec_quiet in H1 by done.
    injection H1 as <-. unfold remove_page_from_map, MapRepo.delete in H2.
    rewrite exec_quiet in H2 by done. injection H2 as <-.
    split_and!; [done|done|]. do 2 eexists. by split; [by split|].
Qed.

(** The mutated copy keeps the columns the UPDATE does not write. *)
Lemma set_values_transition u t input p :
  PageRepo.set_values (TransitionUseCase.apply_status_mutation u t input p) p
  = TransitionUseCase.apply_status_mutation u t input p.
Proof. by destruct u. Qed.

Lemma set_values_edit fields v t p :
  PageRepo.set_values (UpdatePublicEventPage.model_copy fields v t p) p
  = UpdatePublicEventPage.model_copy fields v t p.
Proof. done. Qed.

(** Update of a page and its revision. *)
Lemma save_inv p p' v from editor reason note w w1 w2 :
  quiet w → PageRepo.pages (w_db w) !! pg_id p' = Some p → PageRepo.set_values p' p = p' →
  PageRepo.update p' v w = (Ok tt, w1) →
  write_revision p' from editor reason note w1 = (Ok tt, w2) →
  ∃ r, r = revision_of (w_uuid w) (w_now w) p' from editor reason note
    ∧ quiet w2 ∧ w_committed w2 = w_committed w
    ∧ int4 (pg_version p') = true ∧ pg_version p = v ∧ PageRepo.storable p' = true
    ∧ free_slug (PageRepo.pages (w_db w)) (pg_id p') (pg_slug p')
    ∧ w_db w2 = set_publication (mkPublicTables (<[pg_id p' := p']> (PageRepo.pages (w_db w)))
        (PageRepo.revisions (w_db w) ++ [r]) (SearchRepo.index (w_db w)) (MapRepo.index (w_db w)))
        (w_db w).
Proof.
  intros Hq Hp Hset Hu Hr. rewrite update_quiet in Hu by done.
  destruct (update_result p' v (PageRepo.pages (w_db w))) as [m|e] eqn:Em; [|done].
  injection Hu as <-. apply update_result_Ok in Em as
    (old & Hi & _ & Hold & Hv & Hs & _ & Hf & ->).
  assert (old = p) as -> by congruence. rewrite Hset in Hr.
  apply write_revision_inv in Hr as (r & Hd & Hq2 & Hc2 & Hdb); [|done].
  exists r. by split_and!.
Qed.

Lemma lift_Ok_inv {A} (r : Res A) w a w' : lift_res r w = (Ok a, w') → r = Ok a ∧ w' = w.
Proof. by intros [= -> <-]. Qed.

Lemma transition_inv u input w p' w' :
  quiet w → (∀ k p, PageRepo.pages (w_db w) !! k = Some p → pg_id p = k) →
  TransitionUseCase.execute u input w = (Ok p', w') →
  ∃ p r search maps, PageRepo.pages (w_db w) !! ti_page_id input = Some p
    ∧ Workflow.is_allowed (pg_status p) (TransitionUseCase.target_status u) = true
    ∧ pg_version p = ti_expected_version input ∧ int4 (pg_version p') = true
    ∧ p' = TransitionUseCase.apply_status_mutation u (w_now w) input p
    ∧ r = revision_of (w_uuid w) (w_now w + 1) p' (Some (pg_status p)) (ti_editor_user_id input)
        (ti_transition_reason input)
        (if bool_decide (TransitionUseCase.target_status u = RETRACTED)
         then ti_retraction_note input else None)
    ∧ hook_indexes u p' (db_projections (w_db w) !! pg_event_id p')
        (db_publication (w_db w)) search maps
    ∧ w_committed w' = set_publication (mkPublicTables (<[pg_id p' := p']> (PageRepo.pages (w_db w)))
        (PageRepo.revisions (w_db w) ++ [r]) search maps) (w_db w).
Proof.
  intros Hq Hk. unfold TransitionUseCase.execute. intros (p & w1 & H & E)%bind_Ok_inv.
  apply load_page_inv in H as [Hp ->]; [|done]. cbv zeta in E.
  apply bind_Ok_inv in E as ([] & w1 & H & E). apply lift_Ok_inv in H as [Ha ->].
  unfold Workflow.validate_transition in Ha.
  destruct (Workflow.is_allowed _ _) eqn:Hallow; [|done].
  apply bind_Ok_inv in E as (t & w1 & H & E). injection H as <- <-.
  set (w1 := mkWorld _ _ _ _ _) in E. set (q := TransitionUseCase.apply_status_mutation _ _ _ _) in E.
  apply bind_Ok_inv in E as ([] & w2 & H2 & E). apply bind_Ok_inv in E as ([] & w3 & H3 & E).
  apply bind_Ok_inv in E as ([] & w4 & H4 & E). apply bind_Ok_inv in E as ([] & w5 & H5 & E).
  injection E as <- <-. injection H5 as <-.
  assert (pg_id q = ti_page_id input) as Hid by (rewrite <- (Hk _ _ Hp); by destruct u).
  destruct (save_inv p q (ti_expected_version input) (Some (pg_status p)) (ti_editor_user_id input)
    (ti_transition_reason input)
    (if bool_decide (TransitionUseCase.target_status u = RETRACTED)
     then ti_retraction_note input else None) w1 w2 w3)
    as (r & Hd & Hq3 & _ & Hi & Hv & _ & _ & Hdb3); [done|by rewrite Hid|by destruct u|done|done|].
  apply hook_inv in H4 as (_ & _ & search & maps & Hh & Hdb4); [|done].
  exists p, r, search, maps. rewrite Hdb3 in Hh, Hdb4. by split_and!.
Qed.

Lemma create_inv input w p w' :
  quiet w → CreatePublicEventPage.execute input w = (Ok p, w') →
  ∃ r, normalize_slug (ci_slug input) = Ok (pg_slug p) ∧ pg_event_id p = ci_event_id input
    ∧ pg_status p = DRAFT ∧ pg_version p = 1 ∧ PageRepo.storable p = true
    ∧ PageRepo.pages (w_db w) !! pg_id p = None
    ∧ free_slug (PageRepo.pages (w_db w)) (pg_id p) (pg_slug p)
    ∧ (∀ k q, PageRepo.pages (w_db w) !! k = Some q → pg_event_id q ≠ pg_event_id p)
    ∧ documents r None p
    ∧ w_committed w' = set_publication (mkPublicTables (<[pg_id p := p]> (PageRepo.pages (w_db w)))
        (PageRepo.revisions (w_db w) ++ [r]) (SearchRepo.index (w_db w)) (MapRepo.index (w_db w)))
        (w_db w).
Proof.
  intros Hq. destruct w as [db com env now uid]. unfold quiet in Hq. simpl in Hq. subst env.
  unfold CreatePublicEventPage.execute. intros (slug & w1 & H & E)%bind_Ok_inv.
  apply lift_Ok_inv in H as [Hslug ->].
  apply bind_Ok_inv in E as (id & w1 & [= <- <-] & E).
  apply bind_Ok_inv in E as (t1 & w1 & [= <- <-] & E).
  apply bind_Ok_inv in E as (t2 & w1 & [= <- <-] & E). cbv zeta in E. cbn [w_db w_committed w_env w_now w_uuid] in E.
  set (q := mkPage _ _ _ _ _ _ _ _ _ _ _ _ _ _) in E.
  apply bind_Ok_inv in E as ([] & w2 & H2 & E). apply bind_Ok_inv in E as ([] & w3 & H3 & E).
  apply bind_Ok_inv in E as ([] & w4 & H4 & E). injection E as <- <-. injection H4 as <-.
  unfold PageRepo.add in H2. apply stmt_Ok_inv in H2 as (db2 & H2 & ->); [|done].
  cbn [w_db] in H2.
  destruct (negb (PageRepo.storable q && int4 (pg_version q))) eqn:Es; [done|].
  destruct (negb (PageRepo.checks q)); [done|].
  destruct (PageRepo.pages db !! pg_id q) eqn:Eid; [done|].
  destruct (PageRepo.slug_taken _ _ _) eqn:Et; [done|].
  destruct (PageRepo.event_taken _ _) eqn:Ee; [done|].
  destruct (db_events db !! pg_event_id q); [|done]. injection H2 as <-.
  apply write_revision_inv in H3 as (r & Hr & _ & _ & Hdb3); [|done].
  assert (documents r None q) as Hd by (by rewrite Hr).
  exists r. apply negb_false_iff, andb_true_iff in Es as [Es _].
  split_and!; try done.
  - by apply slug_taken_false.
  - intros k x Hx Hev. rewrite <- not_true_iff_false in Ee. apply Ee. apply existsb_exists.
    exists (k, x). split; [by apply list_elem_of_In, elem_of_map_to_list|]. by apply bool_decide_true.
Qed.

Lemma update_inv input w p' w' :
  quiet w → (∀ k p, PageRepo.pages (w_db w) !! k = Some p → pg_id p = k) →
  UpdatePublicEventPage.execute input w = (Ok p', w') →
  ∃ p fields r, PageRepo.pages (w_db w) !! ui_page_id input = Some p ∧ pg_status p = DRAFT
    ∧ UpdatePublicEventPage.provided input = Ok fields
    ∧ pg_version p = ui_expected_version input ∧ int4 (pg_version p') = true
    ∧ p' = UpdatePublicEventPage.model_copy fields (pg_version p + 1) (w_now w) p
    ∧ PageRepo.storable p' = true ∧ free_slug (PageRepo.pages (w_db w)) (pg_id p') (pg_slug p')
    ∧ documents r (Some DRAFT) p'
    ∧ w_committed w' = set_publication (mkPublicTables (<[pg_id p' := p']> (PageRepo.pages (w_db w)))
        (PageRepo.revisions (w_db w) ++ [r]) (SearchRepo.index (w_db w)) (MapRepo.index (w_db w)))
        (w_db w).
Proof.
  intros Hq Hk. unfold UpdatePublicEventPage.execute. intros (p & w1 & H & E)%bind_Ok_inv.
  apply load_page_inv in H as [Hp ->]; [|done].
  destruct (decide (pg_status p = DRAFT)) as [Hst|Hst];
    [|by rewrite bool_decide_true in E by done].
  rewrite bool_decide_false in E by (by intros []).
  apply bind_Ok_inv in E as (fields & w1 & H & E). apply lift_Ok_inv in H as [Hf ->].
  apply bind_Ok_inv in E as ([] & w1 & H & E). apply lift_Ok_inv in H as [_ ->].
  apply bind_Ok_inv in E as (t & w1 & H & E). injection H as <- <-. cbv zeta in E.
  set (w1 := mkWorld _ _ _ _ _) in E. set (q := UpdatePublicEventPage.model_copy _ _ _ _) in E.
  apply bind_Ok_inv in E as ([] & w2 & H2 & E). apply bind_Ok_inv in E as ([] & w3 & H3 & E).
  apply bind_Ok_inv in E as ([] & w4 & H4 & E). injection E as <- <-. injection H4 as <-.
  assert (pg_id q = ui_page_id input) as Hid by (by rewrite <- (Hk _ _ Hp)).
  destruct (save_inv p q (ui_expected_version input) (Some DRAFT) (ui_editor_user_id input)
    (Some (or_else (ui_transition_reason input) "edited")) (ui_correction_note input) w1 w2 w3)
    as (r & Hr & _ & _ & Hi & Hv & Hs & Hfree & Hdb3); [done|by rewrite Hid|done|done|done|].
  assert (documents r (Some DRAFT) q) as Hd by (by rewrite Hr).
  exists p, fields, r. by split_and!.
Qed.

(** ** The reindex *)
Section reindex.
Import ReindexPublicEvents.
Context (max_pages : Z) (db : DB).

Definition projection_of (p : PublicEventPage) : option ProjectedAccidentRecord :=
  db_projections db !! pg_event_id p.

(** [collect] as a function. *)
Fixpoint collected (rows : list PublicEventPage) (acc : entries) : Res entries :=
  match rows with
  | [] => Ok acc
  | row :: rows' =>
      entry ← entry_from row (projection_of row);
      map_entry ← map_entry_from row (projection_of row);
      let acc' := (acc.1 ++ [entry], acc.2 ++ match map_entry with Some e => [e] | None => [] end) in
      if max_pages <=? Z.of_nat (length acc'.1)
      then Raise (RuntimeError "Reindex exceeds the page ceiling")
      else collected rows' acc'
  end.

Lemma collect_quiet l acc w : quiet w → w_db w = db →
  collect max_pages l acc w = (collected l acc, w).
Proof.
  intros Hq Hdb. revert acc. induction l as [|p l IH]; intros acc; [done|].
  cbn [collect collected]. unfold mbind at 1, M_bind at 1, ProjectionRepo.get.
  rewrite query_quiet, Hdb by done. fold (projection_of p).
  unfold mbind at 1, M_bind at 1, lift_res. unfold mbind at 2, Res_bind at 1.
  destruct (entry_from p (projection_of p)) as [e|]; [|done].
  unfold mbind, M_bind, Res_bind. destruct (map_entry_from p (projection_of p)) as [m|]; [|done].
  cbv zeta. cbn [fst]. by destruct (max_pages <=? _).
Qed.

Lemma collected_app l1 l2 acc : collected (l1 ++ l2) acc = acc' ← collected l1 acc; collected l2 acc'.
Proof.
  revert acc. induction l1 as [|p l1 IH]; intros acc; [done|]. simpl.
  unfold mbind, Res_bind. destruct (entry_from _ _); [|done]. destruct (map_entry_from _ _); [|done].
  destruct (max_pages <=? _); [done|]. apply IH.
Qed.

Lemma collected_length l acc acc' : collected l acc = Ok acc' →
  length acc'.1 = (length acc.1 + length l)%nat
  ∧ (l ≠ [] → Z.of_nat (length acc'.1) < max_pages).
Proof.
  revert acc. induction l as [|p l IH]; intros acc; simpl; [intros [= <-]; split; [lia|done]|].
  unfold mbind, Res_bind. destruct (entry_from _ _); [|done]. destruct (map_entry_from _ _); [|done].
  destruct (max_pages <=? _) eqn:Em; [done|]. apply Z.leb_gt in Em. intros H.
  destruct (IH _ H) as [E1 E2]. simpl in E1. rewrite length_app in E1. simpl in E1.
  split; [lia|]. intros _. destruct l as [|q l]; [|by apply E2].
  injection H as <-. exact Em.
Qed.

(** What was collected, read off the pages. *)
Lemma collected_spec l acc es ms : collected l acc = Ok (es, ms) ↔
  ∃ es' os, Forall2 (λ p e, entry_from p (projection_of p) = Ok e) l es'
    ∧ Forall2 (λ p o, map_entry_from p (projection_of p) = Ok o) l os
    ∧ es = acc.1 ++ es' ∧ ms = acc.2 ++ omap id os
    ∧ (l ≠ [] → Z.of_nat (length acc.1 + length l) < max_pages).
Proof.
  revert acc. induction l as [|p l IH]; intros [a b]; simpl.
  - split.
    + intros [= <- <-]. exists [], []. by rewrite !app_nil_r.
    + intros (? & ? & ->%Forall2_nil_inv_l & ->%Forall2_nil_inv_l & -> & -> & _).
      by rewrite !app_nil_r.
  - unfold mbind, Res_bind. split.
    + destruct (entry_from _ _) as [e|] eqn:Ee; [|done].
      destruct (map_entry_from _ _) as [o|] eqn:Eo; [|done].
      destruct (max_pages <=? _) eqn:Em; [done|]. apply Z.leb_gt in Em. intros H.
      apply IH in H as (es' & os & He & Ho & -> & -> & Hlen). exists (e :: es'), (o :: os).
      split_and!; [by constructor|by constructor| | |].
      * simpl. by rewrite <- app_assoc.
      * simpl. rewrite <- app_assoc. by destruct o.
      * intros _. simpl in Hlen. rewrite length_app in Em, Hlen. simpl in Em, Hlen.
        destruct l as [|q l]; [simpl; lia|]. specialize (Hlen ltac:(done)). simpl in *. lia.
    + intros (es' & os & He & Ho & -> & -> & Hlen).
      apply Forall2_cons_inv_l in He as (e & es2 & Ee & He & ->).
      apply Forall2_cons_inv_l in Ho as (o & os2 & Eo & Ho & ->). rewrite Ee, Eo.
      specialize (Hlen ltac:(done)). simpl in Hlen. rewrite length_app. simpl.
      replace (max_pages <=? _) with false by (symmetry; apply Z.leb_gt; lia).
      apply IH. exists es2, os2. split_and!; [done|done| | |].
      * simpl. by rewrite <- app_assoc.
      * simpl. rewrite <- app_assoc. by destruct o.
      * intros _. simpl. rewrite length_app. simpl. lia.
Qed.

Context (keyed : ∀ k p, PageRepo.pages db !! k = Some p → pg_id p = k).

(** The PUBLISHED pages in the order of the walk, and the part a cursor leaves. *)
Definition published_pages : list PublicEventPage :=
  listing pg_updated_at db (PageRepo.with_status_in [PUBLISHED]).
Definition remaining (after_id : option UUID) (rest : list PublicEventPage) : Prop :=
  match after_id with
  | None => rest = published_pages
  | Some id => ∃ pre x, published_pages = pre ++ x :: rest ∧ pg_id x = id
  end.

Lemma list_editorial_quiet after_id rest w :
  quiet w → w_db w = db → remaining after_id rest →
  PageRepo.list_editorial (Some [PUBLISHED]) REINDEX_BATCH_SIZE after_id w
  = (Ok (if bool_decide (REINDEX_BATCH_SIZE < length rest)%nat
         then (take REINDEX_BATCH_SIZE rest, pg_id <$> last (take REINDEX_BATCH_SIZE rest))
         else (rest, None)), w).
Proof using keyed.
  intros Hq Hdb Hrest. unfold PageRepo.list_editorial. cbv zeta. cbn [default from_option id].
  unfold mbind, M_bind. destruct after_id as [id|].
  - rewrite query_quiet, Hdb by done. destruct Hrest as (pre & x & E & Hid).
    assert (x ∈ published_pages) as Hx by (rewrite E; set_solver).
    apply elem_of_listing in Hx as [Hx Hs]; [|done]. rewrite Hid in Hx.
    rewrite Hx. unfold mbind, option_bind. rewrite Hs, query_quiet, Hdb by done.
    rewrite <- Hid. unfold PageRepo.keyset_page. rewrite trim_take.
    by rewrite (listing_after _ _ keyed _ pre x rest E).
  - unfold mret, M_ret. rewrite query_quiet, Hdb by done. unfold PageRepo.keyset_page.
    rewrite trim_take. simpl in Hrest. subst rest. reflexivity.
Qed.

Lemma remaining_next after_id rest n : (0 < n < length rest)%nat → remaining after_id rest →
  ∃ x, last (take n rest) = Some x ∧ remaining (Some (pg_id x)) (drop n rest).
Proof.
  intros Hn Hrest. destruct (last (take n rest)) as [x|] eqn:El.
  - exists x. split; [done|]. apply last_Some in El as [l' El].
    assert (rest = l' ++ x :: drop n rest) as E.
    { rewrite <- (take_drop n rest) at 1. rewrite El, <- app_assoc. done. }
    destruct after_id as [id|]; simpl in *.
    + destruct Hrest as (pre & y & -> & _). exists (pre ++ y :: l'), x. split; [|done].
      rewrite E at 1. by rewrite <- app_assoc.
    + subst rest. exists l', x. done.
  - apply last_None in El. apply (f_equal length) in El. rewrite length_take in El. simpl in El. lia.
Qed.

(** The walk collects the remaining pages, when the fuel reaches the end of the
    table or the ceiling. *)
Lemma walk_quiet fuel after_id rest acc w :
  quiet w → w_db w = db → remaining after_id rest → (0 < fuel)%nat →
  (length rest ≤ 100 * fuel)%nat ∨ max_pages ≤ Z.of_nat (length acc.1 + 100 * fuel) →
  walk max_pages fuel after_id acc w
  = (acc' ← collected rest acc; Ok (Some acc'), w).
Proof using keyed.
  intros Hq Hdb. revert after_id rest acc. induction fuel as [|fuel IH]; intros after_id rest acc Hrest Hf Hlen;
    [lia|]. cbn [walk]. unfold mbind at 1, M_bind at 1.
  rewrite (list_editorial_quiet after_id rest w Hq Hdb Hrest). clear Hf. unfold REINDEX_BATCH_SIZE.
  destruct (decide (100 < length rest)%nat) as [Hl|Hl].
  - rewrite bool_decide_true by done. destruct (remaining_next after_id rest 100) as (x & -> & Hnext);
      [lia|done|]. cbn [fmap option_fmap option_map].
    rewrite <- (take_drop 100 rest) at 2. rewrite collected_app.
    unfold mbind at 1, M_bind at 1. rewrite collect_quiet by done.
    unfold mbind at 1 2, Res_bind at 1 2.
    destruct (collected (take 100 rest) acc) as [acc'|e] eqn:Ec; [|done].
    apply collected_length in Ec as [El Em]. rewrite length_take in El.
    assert (take 100 rest ≠ []) as Hne by (destruct rest; [simpl in Hl; lia|done]).
    specialize (Em Hne). apply IH; [done| |].
    + destruct Hlen as [Hlen|Hlen]; [lia|]. destruct fuel; [|lia]. lia.
    + rewrite length_drop. destruct Hlen as [Hlen|Hlen]; [left|right]; lia.
  - rewrite bool_decide_false by done. unfold mbind at 1, M_bind at 1.
    rewrite collect_quiet by done.
    by destruct (collected rest acc) as [acc'|e].
Qed.
End reindex.

(** Inserting every element under its key. *)
Definition insert_all {E} (f : E → UUID) (l : list E) (m : gmap UUID E) : gmap UUID E :=
  foldl (λ m e, <[f e := e]> m) m l.

Lemma insert_all_lookup {E} (f : E → UUID) (l : list E) m k e :
  NoDup (f <$> l) →
  (insert_all f l m !! k = Some e) ↔ (e ∈ l ∧ f e = k) ∨ ((k ∉ f <$> l) ∧ m !! k = Some e).
Proof.
  revert m. induction l as [|x l IH]; intros m Hnd; simpl.
  - split; [intros H; right; split; [apply not_elem_of_nil|done]|]. intros [[H _]|[_ H]]; [|done].
    by apply elem_of_nil in H.
  - apply NoDup_cons in Hnd as [Hx Hnd]. rewrite IH by done. rewrite !elem_of_cons.
    rewrite lookup_insert_Some. split.
    + intros [[H1 H2]|[H1 [[<- <-]|[H2 H3]]]]; [by left; split; [right|]|by left; split; [left|]|].
      right. split; [|done]. intros [->|H]; [by apply H2|by apply H1].
    + intros [[[->|H1] H2]|[H1 H2]].
      * right. split; [by rewrite <- H2|]. by left.
      * by left.
      * right. split; [intros H; apply H1; by right|]. right. split; [|done].
        intros <-. apply H1. by left.
Qed.

Lemma insert_all_size {E} (f : E → UUID) (l : list E) m :
  NoDup (f <$> l) → (∀ e, e ∈ l → m !! f e = None) →
  size (insert_all f l m) = (size m + length l)%nat.
Proof.
  revert m. induction l as [|x l IH]; intros m Hnd Hm; simpl; [lia|].
  apply NoDup_cons in Hnd as [Hx Hnd]. rewrite IH; [|done|].
  - rewrite map_size_insert_None by (apply Hm; left). lia.
  - intros e He. rewrite lookup_insert_ne; [apply Hm; by right|]. intros E1. apply Hx.
    rewrite E1. by apply list_elem_of_fmap_2.
Qed.

(** A rebuild: the table is emptied and every entry upserted. *)
Section rebuild.
Context {E : Type} (f : E → UUID) (upsert : E → M unit) (ok : DB → E → Prop)
  (upd : (gmap UUID E → gmap UUID E) → DB → DB)
  (upd_upd : ∀ g h db, upd g (upd h db) = upd (λ m, g (h m)) db)
  (ok_upd : ∀ g db e, ok db e → ok (upd g db) e)
  (upsert_run : ∀ e w, quiet w → ok (w_db w) e →
    upsert e w = (Ok tt, set_db (upd <[f e := e]> (w_db w)) w))
  (upsert_inv : ∀ e w w', quiet w → upsert e w = (Ok tt, w') →
    w' = set_db (upd <[f e := e]> (w_db w)) w).

Lemma rebuild_run l g w : quiet w → Forall (ok (w_db w)) l →
  for_each l upsert (set_db (upd g (w_db w)) w)
  = (Ok tt, set_db (upd (λ m, insert_all f l (g m)) (w_db w)) w).
Proof using ok_upd upd_upd upsert_run.
  intros Hq. revert g. induction l as [|e l IH]; intros g Hl; [done|].
  apply Forall_cons in Hl as [He Hl]. simpl. unfold mbind, M_bind.
  rewrite upsert_run by (try done; by apply ok_upd). cbn [w_db set_db]. rewrite upd_upd.
  exact (IH (λ m, <[f e := e]> (g m)) Hl).
Qed.

Lemma rebuild_inv l g w w' : quiet w →
  for_each l upsert (set_db (upd g (w_db w)) w) = (Ok tt, w') →
  w' = set_db (upd (λ m, insert_all f l (g m)) (w_db w)) w.
Proof using upd_upd upsert_inv.
  intros Hq. revert g. induction l as [|e l IH]; intros g; [by intros [= <-]|].
  cbn [for_each]. intros ([] & w1 & H1 & H2)%bind_Ok_inv.
  apply upsert_inv in H1 as ->; [|done]. cbn [w_db set_db] in H2. rewrite upd_upd in H2.
  exact (IH (λ m, <[f e := e]> (g m)) H2).
Qed.
End rebuild.

Definition search_ok (db : DB) (e : SearchIndexEntry) : Prop :=
  SearchRepo.storable e = true ∧ is_Some (PageRepo.pages db !! se_page_id e).
Definition map_ok (db : DB) (e : MapIndexEntry) : Prop :=
  MapRepo.storable e = true ∧ is_Some (PageRepo.pages db !! me_page_id e).

Lemma search_upsert_run e w : quiet w → search_ok (w_db w) e →
  SearchRepo.upsert e w = (Ok tt, set_db (upd_search <[se_page_id e := e]> (w_db w)) w).
Proof.
  intros Hq [Hs [p Hp]]. unfold SearchRepo.upsert. rewrite stmt_quiet by done. by rewrite Hs, Hp.
Qed.
Lemma search_upsert_inv e w w' : quiet w → SearchRepo.upsert e w = (Ok tt, w') →
  w' = set_db (upd_search <[se_page_id e := e]> (w_db w)) w.
Proof.
  intros Hq H. unfold SearchRepo.upsert in H. apply stmt_Ok_inv in H as (db' & H & ->); [|done].
  destruct (negb _); [done|]. destruct (PageRepo.pages _ !! _); [|done]. by injection H as <-.
Qed.
Lemma map_upsert_run e w : quiet w → map_ok (w_db w) e →
  MapRepo.upsert e w = (Ok tt, set_db (upd_maps <[me_page_id e := e]> (w_db w)) w).
Proof.
  intros Hq [Hs [p Hp]]. unfold MapRepo.upsert. rewrite stmt_quiet by done. by rewrite Hs, Hp.
Qed.
Lemma map_upsert_inv e w w' : quiet w → MapRepo.upsert e w = (Ok tt, w') →
  w' = set_db (upd_maps <[me_page_id e := e]> (w_db w)) w.
Proof.
  intros Hq H. unfold MapRepo.upsert in H. apply stmt_Ok_inv in H as (db' & H & ->); [|done].
  destruct (negb _); [done|]. destruct (PageRepo.pages _ !! _); [|done]. by injection H as <-.
Qed.

(** Both rebuilds of the reindex, and its commit. *)
Definition reindexed (db : DB) (es : list SearchIndexEntry) (ms : list MapIndexEntry) : DB :=
  set_publication (mkPublicTables (PageRepo.pages db) (PageRepo.revisions db)
    (insert_all se_page_id es ∅) (insert_all me_page_id ms ∅)) db.

Definition rebuild_indexes (es : list SearchIndexEntry) (ms : list MapIndexEntry)
    : M (option (Z * Z)) :=
  search_count ← SearchRepo.rebuild_all_from es;
  map_count ← MapRepo.rebuild_all_from ms;
  commit;;
  mret (Some (search_count, map_count)).

Lemma rebuild_indexes_inv es ms w c w' : quiet w → rebuild_indexes es ms w = (Ok c, w') →
  w_committed w' = reindexed (w_db w) es ms.
Proof.
  intros Hq. unfold rebuild_indexes. intros (n & w1 & H1 & E)%bind_Ok_inv.
  apply bind_Ok_inv in E as (m & w2 & H2 & E). apply bind_Ok_inv in E as ([] & w3 & H3 & E).
  injection E as <- <-. injection H3 as <-. cbn [w_committed].
  unfold SearchRepo.rebuild_all_from in H1. apply bind_Ok_inv in H1 as ([] & w3 & H & H1).
  rewrite exec_quiet in H by done. injection H as <-.
  apply bind_Ok_inv in H1 as ([] & w3 & H & H1). injection H1 as _ <-.
  eapply (rebuild_inv se_page_id SearchRepo.upsert upd_search) in H as ->;
    [|done|exact search_upsert_inv|done].
  unfold MapRepo.rebuild_all_from in H2. apply bind_Ok_inv in H2 as ([] & w4 & H & H2).
  rewrite exec_quiet in H by done. injection H as <-.
  apply bind_Ok_inv in H2 as ([] & w4 & H & H2). injection H2 as _ <-.
  apply (rebuild_inv me_page_id MapRepo.upsert upd_maps (λ _ _ _, eq_refl) map_upsert_inv ms
    (λ _, ∅) (set_db (upd_search (λ _, insert_all se_page_id es ∅) (w_db w)) w) w4) in H as ->;
    [|done]. reflexivity.
Qed.

Lemma rebuild_indexes_run es ms w : quiet w →
  Forall (search_ok (w_db w)) es → Forall (map_ok (w_db w)) ms →
  ∃ w', rebuild_indexes es ms w
        = (Ok (Some (Z.of_nat (length es), Z.of_nat (length ms))), w')
    ∧ w_committed w' = reindexed (w_db w) es ms.
Proof.
  intros Hq He Hm. unfold rebuild_indexes, SearchRepo.rebuild_all_from, MapRepo.rebuild_all_from.
  eexists. split; [|].
  - eapply runs_bind.
    { eapply runs_bind; [by apply exec_quiet|].
      eapply runs_bind; [|reflexivity].
      by apply (rebuild_run se_page_id SearchRepo.upsert search_ok upd_search); try done;
        exact search_upsert_run. }
    eapply runs_bind.
    { eapply runs_bind; [by apply exec_quiet|].
      eapply runs_bind; [|reflexivity].
      by apply (rebuild_run me_page_id MapRepo.upsert map_ok upd_maps); try done;
        exact map_upsert_run. }
    reflexivity.
  - reflexivity.
Qed.

(** What the indexes hold after a reindex. *)
Definition indexes_of (db : DB) (search : gmap UUID SearchIndexEntry)
    (maps : gmap UUID MapIndexEntry) : Prop :=
  (∀ k e, search !! k = Some e ↔ ∃ p, PageRepo.pages db !! k = Some p ∧ pg_status p = PUBLISHED
     ∧ entry_from p (projection_of db p) = Ok e)
  ∧ ∀ k e, maps !! k = Some e ↔ ∃ p, PageRepo.pages db !! k = Some p ∧ pg_status p = PUBLISHED
     ∧ map_entry_from p (projection_of db p) = Ok (Some e).

Section collected_indexes.
Context (db : DB) (keyed : ∀ k p, PageRepo.pages db !! k = Some p → pg_id p = k).

Lemma elem_of_published p : p ∈ published_pages db ↔
  PageRepo.pages db !! pg_id p = Some p ∧ pg_status p = PUBLISHED.
Proof using keyed.
  unfold published_pages. rewrite elem_of_listing by done. unfold PageRepo.with_status_in.
  by rewrite bool_decide_eq_true, list_elem_of_singleton.
Qed.

Lemma NoDup_published_ids : NoDup (pg_id <$> published_pages db).
Proof using keyed.
  apply NoDup_fmap_2_strong; [|by apply NoDup_listing]. intros x y Hx Hy E.
  apply elem_of_published in Hx as [Hx _]. apply elem_of_published in Hy as [Hy _].
  rewrite E in Hx. congruence.
Qed.

Lemma collected_fst max_pages es ms : collected max_pages db (published_pages db) ([], []) = Ok (es, ms) →
  (se_page_id <$> es = pg_id <$> published_pages db)
  ∧ sublist (me_page_id <$> ms) (pg_id <$> published_pages db).
Proof.
  intros H. apply collected_spec in H as (es' & os & He & Ho & -> & -> & _). simpl. split.
  - clear Ho. induction He as [|p e l l' He HF IH]; [done|]. by rewrite !fmap_cons, IH, (entry_from_id _ _ _ He).
  - clear He. induction Ho as [|p o l l' Hp HF IH]; [done|]. destruct o as [m|]; simpl.
    + rewrite (map_entry_from_id _ _ _ Hp). by apply sublist_skip.
    + by apply sublist_cons.
Qed.

Lemma collected_indexes max_pages es ms :
  collected max_pages db (published_pages db) ([], []) = Ok (es, ms) →
  indexes_of db (insert_all se_page_id es ∅) (insert_all me_page_id ms ∅).
Proof using keyed.
  intros H. pose proof (collected_fst _ _ _ H) as [Hes Hms].
  pose proof NoDup_published_ids as Hnd.
  assert (NoDup (se_page_id <$> es)) as Hne by (by rewrite Hes).
  assert (NoDup (me_page_id <$> ms)) as Hnm by exact (sublist_NoDup _ _ Hnd Hms).
  apply collected_spec in H as (es' & os & He & Ho & Ees & Ems & _). simpl in Ees, Ems. subst es' ms.
  split; intros k x; rewrite insert_all_lookup by done; rewrite lookup_empty;
    (split; [intros [[Hin <-]|[_ [=]]]|intros (p & Hp & Hs & Hx); left]).
  - apply list_elem_of_lookup in Hin as [i Hi].
    destruct (Forall2_lookup_r _ _ _ _ _ He Hi) as (p & Hp & Hx). exists p.
    apply list_elem_of_lookup_2, elem_of_published in Hp as [Hp Hs].
    by rewrite (entry_from_id _ _ _ Hx).
  - assert (p ∈ published_pages db) as Hin by (apply elem_of_published; by rewrite (keyed _ _ Hp)).
    apply list_elem_of_lookup in Hin as [i Hi].
    destruct (Forall2_lookup_l _ _ _ _ _ He Hi) as (e & Hei & Hx'). assert (e = x) as -> by congruence.
    split; [by eapply list_elem_of_lookup_2|]. by rewrite (entry_from_id _ _ _ Hx), (keyed _ _ Hp).
  - apply list_elem_of_omap in Hin as (o & Hin & Eo). unfold id in Eo. subst o.
    apply list_elem_of_lookup in Hin as [i Hi].
    destruct (Forall2_lookup_r _ _ _ _ _ Ho Hi) as (p & Hp & Hx). exists p.
    apply list_elem_of_lookup_2, elem_of_published in Hp as [Hp Hs].
    by rewrite (map_entry_from_id _ _ _ Hx).
  - assert (p ∈ published_pages db) as Hin by (apply elem_of_published; by rewrite (keyed _ _ Hp)).
    apply list_elem_of_lookup in Hin as [i Hi].
    destruct (Forall2_lookup_l _ _ _ _ _ Ho Hi) as (o & Hoi & Hx'). assert (o = Some x) as -> by congruence.
    split; [|by rewrite (map_entry_from_id _ _ _ Hx), (keyed _ _ Hp)].
    apply list_elem_of_omap. exists (Some x). split; [|done]. by eapply list_elem_of_lookup_2.
Qed.

Lemma collected_total max_pages acc p : p ∈ published_pages db →
  collected max_pages db (published_pages db) ([], []) = Ok acc →
  ∃ e, entry_from p (projection_of db p) = Ok e.
Proof.
  intros Hin H. destruct acc as [es ms]. apply collected_spec in H as (es' & os & He & _).
  apply list_elem_of_lookup in Hin as [i Hi].
  destruct (Forall2_lookup_l _ _ _ _ _ He Hi) as (e & _ & Hx). by exists e.
Qed.
End collected_indexes.

Import ReindexPublicEvents.
Lemma fuel_reaches_ceiling : MAX_REINDEX_PAGES ≤ Z.of_nat (100 * batches MAX_REINDEX_PAGES).
Proof. rewrite Nat2Z.inj_mul. change (batches MAX_REINDEX_PAGES) with (501%nat). vm_compute. done. Qed.

(** A quiet reindex is a walk over the PUBLISHED pages and a rebuild. *)
Lemma reindex_quiet w : quiet w →
  (∀ k p, PageRepo.pages (w_db w) !! k = Some p → pg_id p = k) →
  run w = match collected MAX_REINDEX_PAGES (w_db w) (published_pages (w_db w)) ([], []) with
          | Ok (es, ms) => rebuild_indexes es ms w
          | Raise e => (Raise e, w)
          end.
Proof.
  intros Hq Hk. unfold run, execute. unfold mbind at 1, M_bind at 1.
  rewrite (walk_quiet MAX_REINDEX_PAGES (w_db w) Hk _ None (published_pages (w_db w)));
    [|done|done|done|unfold batches; lia|right; simpl length; apply fuel_reaches_ceiling].
  unfold mbind at 1, Res_bind at 1.
  by destruct (collected _ _ _ _) as [[es ms]|e].
Qed.
