(* ===== verification/EditorialFacts.v ===== *)
(** What holds of every run of the editorial use cases: requests refine the machine
    of PublicationSpec, next to the activities of the claims core; the complete
    effect of a transition and of a reindex. *)
From S2P Require Import Prelude Text PyFloat PyVal PyDate Entities Store Logic Normalize Ingestion.
From S2P Require Import Projection Reproject Outbox Steps Core.
From S2P Require Import Slug Publication Keyset PublicationSpec Editorial.
Import Indexing ReindexPublicEvents.
Open Scope string_scope.
Open Scope list_scope.
Open Scope Z_scope.

(** ** Index entries describe their page *)
Lemma entry_describes p projection e :
  PageRepo.checks p = true → pg_status p = PUBLISHED →
  entry_from p projection = Ok e → describes e p.
Proof.
  intros Hc Hs. apply checks_spec in Hc as (Hl & _ & _). specialize (Hl Hs).
  unfold entry_from, mbind, Res_bind. destruct (coerce_int _); [|done]. intros [= <-].
  unfold describes, published_at. simpl. split_and!; try done. by destruct (pg_last_published_at p).
Qed.

Lemma map_entry_locates p projection e :
  PageRepo.checks p = true → pg_status p = PUBLISHED →
  map_entry_from p projection = Ok (Some e) → locates e p.
Proof.
  intros Hc Hs. apply checks_spec in Hc as (Hl & _ & _). specialize (Hl Hs).
  unfold map_entry_from, extract_coords, mbind, Res_bind.
  destruct (first_coord LAT_KEYS _) as [[lat|]|]; [| |done];
    destruct (first_coord LNG_KEYS _) as [[lng|]|]; try done.
  destruct (within 90 lat) eqn:E1; [|done]. destruct (within 180 lng) eqn:E2; [|done]. simpl.
  destruct (coerce_int _); [|done]. intros [= <-]. unfold locates, published_at. simpl.
  split_and!; try done. by destruct (pg_last_published_at p).
Qed.

(** ** Requests are steps of the machine *)
Lemma transition_same u t input p :
  let p' := TransitionUseCase.apply_status_mutation u t input p in
  same_page p p' ∧ same_overlay p p' ∧ pg_status p' = TransitionUseCase.target_status u.
Proof. by destruct u. Qed.

Lemma transition_moved u t input p :
  Workflow.is_allowed (pg_status p) (TransitionUseCase.target_status u) = true →
  moved p (TransitionUseCase.apply_status_mutation u t input p).
Proof.
  intros Ha. split; [by destruct u|]. destruct u; simpl; try done.
  by exists t.
Qed.

Lemma hook_step u t input p projection tables search maps :
  let p' := TransitionUseCase.apply_status_mutation u t input p in
  PageRepo.checks p' = true → hook_indexes u p' projection tables search maps →
  match pg_status p' with
  | PUBLISHED => (∃ e, search = <[pg_id p := e]> (pt_search tables) ∧ describes e p')
      ∧ (maps = delete (pg_id p) (pt_maps tables)
         ∨ ∃ e, maps = <[pg_id p := e]> (pt_maps tables) ∧ locates e p')
  | ARCHIVED | RETRACTED =>
      search = delete (pg_id p) (pt_search tables) ∧ maps = delete (pg_id p) (pt_maps tables)
  | _ => search = pt_search tables ∧ maps = pt_maps tables
  end.
Proof.
  intros p' Hc. destruct u; try done. intros (e & m & He & Hm & -> & ->). split.
  - exists e. split; [done|]. by eapply entry_describes.
  - destruct m as [me|]; [right|by left]. exists me. split; [done|]. by eapply map_entry_locates.
Qed.

Lemma update_same_page fields v t p : v = pg_version p + 1 →
  same_page p (UpdatePublicEventPage.model_copy fields v t p)
  ∧ same_lifecycle p (UpdatePublicEventPage.model_copy fields v t p).
Proof. intros ->. by split. Qed.

(** An edit keeps or normalises the slug. *)
Lemma update_slug input fields v t p : UpdatePublicEventPage.provided input = Ok fields →
  canonical_slug (pg_slug p) →
  canonical_slug (pg_slug (UpdatePublicEventPage.model_copy fields v t p)).
Proof.
  unfold UpdatePublicEventPage.provided, mbind, Res_bind. intros H Hp.
  destruct (ui_slug input) as [s|].
  - destruct (normalize_slug s) as [s'|] eqn:Es; [|done]. injection H as <-.
    apply normalize_canonical in Es.
    destruct (ui_title input), (ui_short_summary input), (ui_narrative_markdown input); exact Es.
  - injection H as <-.
    destruct (ui_title input), (ui_short_summary input), (ui_narrative_markdown input); exact Hp.
Qed.

Lemma request_step r w w' :
  quiet w → publication_ok (db_publication (w_db w)) →
  handle_editorial r w = (Ok tt, w') →
  ∃ t', w_committed w' = set_publication t' (w_db w)
    ∧ editorial_step (db_publication (w_db w)) t'.
Proof.
  intros Hq Hok. pose proof (po_keys _ Hok) as Hk. destruct r as [input|input|u input|]; simpl.
  - intros (p & w1 & H & E)%bind_Ok_inv. injection E as <-.
    apply create_inv in H as (r & Hs & _ & Hst & Hv & Hstor & Hn & Hf & He & Hd & ->); [|done].
    eexists. split; [reflexivity|].
    by apply es_create; try done; eapply normalize_canonical.
  - intros (p' & w1 & H & E)%bind_Ok_inv. injection E as <-.
    apply update_inv in H as (p & fields & r & Hp & Hst & Hf & Hv & Hi & -> & Hs & Hfree & Hd & ->);
      [|done|done].
    eexists. split; [reflexivity|]. pose proof (Hk _ _ Hp) as Hid. rewrite <- Hid in Hp.
    destruct (update_same_page fields _ (w_now w) p eq_refl) as [Hsame Hlife].
    apply (es_edit _ p); try done. by apply (update_slug input).
  - intros (p' & w1 & H & E)%bind_Ok_inv. injection E as <-.
    apply transition_inv in H as (p & r & search & maps & Hp & Ha & Hv & Hi & -> & -> & Hh & ->);
      [|done|done].
    eexists. split; [reflexivity|]. pose proof (Hk _ _ Hp) as Hid. rewrite <- Hid in Hp.
    destruct (transition_same u (w_now w) input p) as (Hsame & Hover & _).
    pose proof (transition_moved u (w_now w) input p Ha) as Hm.
    pose proof (po_rows _ Hok _ _ Hp) as (Hc & _).
    rewrite (proj1 Hsame). apply (es_move _ p); try done. eapply hook_step; [|exact Hh]. by eapply moved_checks.
  - intros (c & w1 & H & E)%bind_Ok_inv. injection E as <-.
    rewrite reindex_quiet in H by done.
    destruct (collected _ _ _ _) as [[es ms]|e] eqn:Ec; [|done].
    apply rebuild_indexes_inv in H as ->; [|done]. eexists. split; [reflexivity|].
    pose proof Ec as Hall. apply collected_indexes in Ec as [Hes Hms]; [|done].
    apply es_reindex.
    + split.
      * intros k e (p & Hp & Hs & He)%Hes. exists p. split_and!; [done|done|].
        pose proof (po_rows _ Hok _ _ Hp) as (Hc & _). by eapply entry_describes.
      * intros k p Hp Hs.
        destruct (collected_total (w_db w) MAX_REINDEX_PAGES (es, ms) p) as [e He]; [|done|].
        { apply elem_of_published; [done|]. by rewrite (Hk _ _ Hp). }
        exists e. apply Hes. by exists p.
    + intros k e (p & Hp & Hs & He)%Hms. exists p. split_and!; [done|done|].
      pose proof (po_rows _ Hok _ _ Hp) as (Hc & _). by eapply map_entry_locates.
Qed.

(** ** Failing requests publish nothing *)
Ltac quiet_steps := repeat first [nocommit_step | progress cbv zeta].

Lemma write_revision_quiet p from editor reason note :
  NoCommit (write_revision p from editor reason note).
Proof. unfold write_revision, PageRepo.add_revision. quiet_steps. Qed.
Lemma load_page_quiet id : NoCommit (load_page id).
Proof. unfold load_page, PageRepo.get_by_id. quiet_steps. Qed.
Lemma page_update_quiet p v : NoCommit (PageRepo.update p v).
Proof. unfold PageRepo.update, PageRepo.no_row_updated. quiet_steps. Qed.
Lemma hook_quiet u p : NoCommit (TransitionUseCase.post_transition_hook u p).
Proof.
  destruct u; simpl; unfold index_published_page, index_published_page_in_map,
    remove_page_from_index, remove_page_from_map, ProjectionRepo.get, SearchRepo.upsert,
    MapRepo.upsert, SearchRepo.delete, MapRepo.delete; quiet_steps.
Qed.

Lemma transition_last u input : CommitLast (TransitionUseCase.execute u input).
Proof.
  unfold TransitionUseCase.execute.
  repeat first [apply load_page_quiet|apply page_update_quiet|apply write_revision_quiet
               |apply hook_quiet|nocommit_step|progress cbv zeta].
Qed.

Lemma collect_nocommit max_pages l acc : NoCommit (collect max_pages l acc).
Proof.
  revert acc. induction l as [|p l IH]; intros acc; cbn [collect]; [apply NoCommit_ret|].
  unfold ProjectionRepo.get. repeat first [apply IH|nocommit_step|progress cbv zeta].
Qed.

Lemma walk_nocommit max_pages fuel after_id acc : NoCommit (walk max_pages fuel after_id acc).
Proof.
  revert after_id acc. induction fuel as [|fuel IH]; intros after_id acc; cbn [walk];
    [apply NoCommit_ret|]. unfold PageRepo.list_editorial.
  repeat first [apply IH|apply collect_nocommit|nocommit_step|progress cbv zeta].
Qed.

Lemma handle_editorial_last r : CommitLast (handle_editorial r).
Proof.
  destruct r as [input|input|u input|]; cbn [handle_editorial]; apply CommitLast_map.
  - unfold CreatePublicEventPage.execute, PageRepo.add.
    repeat first [apply write_revision_quiet|nocommit_step|progress cbv zeta].
  - unfold UpdatePublicEventPage.execute.
    repeat first [apply load_page_quiet|apply page_update_quiet|apply write_revision_quiet
                 |nocommit_step|progress cbv zeta].
  - apply transition_last.
  - unfold run, execute, SearchRepo.rebuild_all_from, MapRepo.rebuild_all_from, SearchRepo.upsert,
      MapRepo.upsert.
    repeat first [apply walk_nocommit|nocommit_step|progress cbv zeta].
Qed.

(** ** The system: editorial requests next to the activities of the claims core *)
Inductive system_activity :=
  | CoreActivity (a : activity)
  | EditorialActivity (r : EditorialRequest).

Section system.
Context `{Hashlib} `{ModelValidate} (dp : deployment) (max_attempts stale_minutes : Z)
  (run_echo : OutboxEvent → M unit) (fail_echo : OutboxEvent → string → M unit)
  (str_exn : exn → string).

Definition run_alone (w : World) (a : system_activity) : World :=
  match a with
  | CoreActivity a => Core.run dp max_attempts stale_minutes run_echo fail_echo str_exn a (alone w)
  | EditorialActivity r => with_uow (handle_editorial r) (alone w)
  end.2.

Definition run_serially : World → list system_activity → World := foldl run_alone.

Lemma core_leaves_publication a w : elsewhere run_echo fail_echo →
  db_publication (w_committed (run_alone w (CoreActivity a))) = db_publication (w_committed w).
Proof.
  intros He. pose proof (run_I dp max_attempts stale_minutes run_echo fail_echo str_exn
    (λ db, db_publication db = db_publication (w_committed w)) a He) as Hrun.
  assert (Inv (λ db, db_publication db = db_publication (w_committed w))
    (Core.run dp max_attempts stale_minutes run_echo fail_echo str_exn a)) as Hinv.
  { apply Hrun. intros db db' E Hs. rewrite <- E. by destruct Hs. }
  apply (Hinv (alone w)). split_and!; [done|done|constructor].
Qed.

Lemma run_alone_step a w : elsewhere run_echo fail_echo →
  publication_ok (db_publication (w_committed w)) →
  db_publication (w_committed (run_alone w a)) = db_publication (w_committed w)
  ∨ editorial_step (db_publication (w_committed w)) (db_publication (w_committed (run_alone w a))).
Proof.
  intros He Hok. destruct a as [a|r]; [left; by apply core_leaves_publication|].
  unfold run_alone, with_uow. destruct (handle_editorial r (alone w)) as [[[]|e] w1] eqn:E; simpl.
  - apply request_step in E as (t' & -> & Ht); [|done|done]. right. exact Ht.
  - left. apply handle_editorial_last in E. destruct E as ((fs & Ef & ->) & _). simpl in *.
    symmetry in Ef. apply app_eq_nil in Ef as [-> _]. done.
Qed.

Lemma run_serially_ok l w : elsewhere run_echo fail_echo →
  publication_ok (db_publication (w_committed w)) →
  publication_ok (db_publication (w_committed (run_serially w l)))
  ∧ publication_evolves (db_publication (w_committed w))
      (db_publication (w_committed (run_serially w l))).
Proof.
  intros He. revert w. induction l as [|a l IH]; intros w Hok; [done|]. cbn [run_serially foldl].
  destruct (run_alone_step a w He Hok) as [E|Hstep].
  - destruct (IH (run_alone w a)) as [H1 H2]; rewrite E in *; done.
  - destruct (IH (run_alone w a)) as [H1 H2]; [by eapply publication_step|].
    split; [done|]. etrans; [by apply evolves_editorial|exact H2].
Qed.
End system.

(** ** The complete effect of a transition *)
Lemma bind_is_ok {A B} (m : M A) (f : A → M B) w a w1 :
  m w = (Ok a, w1) → is_ok (f a w1).1 → is_ok ((x ← m; f x) w).1.
Proof. intros E H. unfold mbind, M_bind. by rewrite E. Qed.

Lemma is_ok_run {A} (m : M A) w : is_ok (m w).1 → ∃ a w', m w = (Ok a, w').
Proof. destruct (m w) as [[a|e] w']; [eauto|done]. Qed.

(** The index entries of a page about to be PUBLISHED can be built and stored. *)
Definition indexable (u : Transition) (p : PublicEventPage)
    (projection : option ProjectedAccidentRecord) : Prop :=
  match u with
  | PublishPublicEventPage => ∃ e m,
      entry_from p projection = Ok e ∧ SearchRepo.storable e = true
      ∧ map_entry_from p projection = Ok m ∧ from_option MapRepo.storable true m = true
  | _ => True
  end.

Lemma hook_is_ok u p w : quiet w → is_Some (PageRepo.pages (w_db w) !! pg_id p) →
  indexable u p (db_projections (w_db w) !! pg_event_id p) →
  is_ok (TransitionUseCase.post_transition_hook u p w).1.
Proof.
  intros Hq [q Hp]. destruct u; simpl; try done.
  - intros (e & m & He & Hse & Hm & Hsm). eapply bind_is_ok.
    { unfold index_published_page. eapply runs_bind; [by apply query_quiet|].
      eapply runs_bind; [unfold lift_res; rewrite He; reflexivity|].
      apply search_upsert_run; [done|]. split; [done|].
      rewrite (entry_from_id _ _ _ He). by eexists. }
    set (w1 := set_db _ w). unfold index_published_page_in_map.
    eapply bind_is_ok; [by apply query_quiet|]. cbn [w_db w1 set_db].
    eapply bind_is_ok; [unfold lift_res; change (db_projections (upd_search _ _))
      with (db_projections (w_db w)); rewrite Hm; reflexivity|].
    destruct m as [me|].
    + rewrite map_upsert_run; [done|done|]. split; [done|].
      rewrite (map_entry_from_id _ _ _ Hm). by eexists.
    + unfold MapRepo.delete. by rewrite exec_quiet.
Qed.

(** Revision ids in use come from the supply of identifiers. *)
Definition fresh_revisions (w : World) : Prop :=
  ∀ r, r ∈ PageRepo.revisions (w_db w) → (rv_id r < w_uuid w)%N.

Lemma write_revision_run p from editor reason note w :
  quiet w → fresh_revisions w → is_Some (PageRepo.pages (w_db w) !! pg_id p) →
  PageRepo.storable p = true → PageRepo.checks p = true → int4 (pg_version p) = true →
  is_ok (write_revision p from editor reason note w).1.
Proof.
  intros Hq Hf [q Hp] Hs Hc Hi. destruct w as [db com env now uid]. unfold quiet in Hq.
  simpl in Hq. subst env. unfold write_revision. eapply bind_is_ok; [reflexivity|].
  eapply bind_is_ok; [reflexivity|]. unfold PageRepo.add_revision. rewrite stmt_quiet by done.
  simpl. apply andb_true_iff in Hs as [_ Ht]. rewrite Ht, Hi. simpl.
  apply checks_spec in Hc as (_ & _ & Hv). replace (pg_version p <? 1) with false by (symmetry; apply Z.ltb_ge; lia).
  simpl in Hp. rewrite bool_decide_false; [by rewrite Hp|].
  intros Hin. apply list_elem_of_fmap in Hin as (r & E & Hr). apply Hf in Hr. simpl in Hr. lia.
Qed.

Lemma load_page_run id p w : quiet w → PageRepo.pages (w_db w) !! id = Some p →
  load_page id w = (Ok p, w).
Proof.
  intros Hq Hp. unfold load_page. eapply runs_bind; [by apply query_quiet|]. by rewrite Hp.
Qed.

Lemma transition_is_ok u input w p :
  quiet w → publication_ok (db_publication (w_db w)) → fresh_revisions w →
  PageRepo.pages (w_db w) !! ti_page_id input = Some p →
  Workflow.is_allowed (pg_status p) (TransitionUseCase.target_status u) = true →
  pg_version p = ti_expected_version input → int4 (pg_version p + 1) = true →
  let p' := TransitionUseCase.apply_status_mutation u (w_now w) input p in
  indexable u p' (db_projections (w_db w) !! pg_event_id p') →
  is_ok (TransitionUseCase.execute u input w).1.
Proof.
  intros Hq Hok Hfresh Hp Ha Hv Hi p' Hindex.
  pose proof (po_rows _ Hok _ _ Hp) as (Hc & Hs & Hi0 & _). pose proof (po_keys _ Hok _ _ Hp) as Hid.
  destruct (transition_same u (w_now w) input p) as ((Eid & _ & _ & Ev) & Hover & _).
  assert (PageRepo.checks p' = true) as Hc'.
  { eapply moved_checks; [exact Hc| |by apply transition_moved].
    by destruct (transition_same u (w_now w) input p). }
  assert (PageRepo.storable p' = true) as Hs' by (by rewrite (storable_overlay p p')).
  fold p' in Eid, Ev.
  unfold TransitionUseCase.execute. eapply bind_is_ok; [by apply load_page_run|].
  cbv zeta. eapply bind_is_ok.
  { unfold lift_res, Workflow.validate_transition. rewrite Ha. reflexivity. }
  eapply bind_is_ok; [reflexivity|]. fold p'. set (w1 := mkWorld _ _ _ _ _).
  eapply bind_is_ok.
  { rewrite update_quiet by done.
    assert (update_result p' (ti_expected_version input) (PageRepo.pages (w_db w1))
      = Ok (<[pg_id p' := p']> (PageRepo.pages (w_db w)))) as ->; [|reflexivity].
    apply update_result_Ok. exists p. rewrite <- Hv, Ev, Eid, Hid. split_and!; try done.
    - intros k q Hq' Hne Eslug. apply Hne. apply (po_slugs _ Hok k (ti_page_id input) q p Hq' Hp).
      rewrite Eslug. apply Hover.
    - unfold p'. by rewrite set_values_transition. }
  set (w2 := set_db _ w1).
  assert (PageRepo.pages (w_db w2) !! pg_id p' = Some p') as Hp2
    by (unfold w2; simpl; apply lookup_insert_eq).
  destruct (is_ok_run (write_revision p' (Some (pg_status p)) (ti_editor_user_id input)
    (ti_transition_reason input) (if bool_decide (TransitionUseCase.target_status u = RETRACTED)
      then ti_retraction_note input else None)) w2) as ([] & w3 & H3).
  { apply write_revision_run; try done. by rewrite Ev. }
  eapply bind_is_ok; [exact H3|].
  apply write_revision_inv in H3 as (r & _ & Hq3 & _ & Hdb3); [|done].
  destruct (is_ok_run (TransitionUseCase.post_transition_hook u p') w3) as ([] & w4 & H4).
  { apply hook_is_ok; [done| |]; rewrite Hdb3; [by eexists|exact Hindex]. }
  eapply bind_is_ok; [exact H4|]. eapply bind_is_ok; [reflexivity|]. exact I.
Qed.

(** The complete effect of every transition use case without interference:
    a missing page, a move the workflow forbids and a stale version are refused
    with their own errors; a legal move at the current version succeeds, when the
    index entries of a page being published can be stored, and publishes together
    the moved page, one revision and the indexes.  A refusal changes nothing. *)
Theorem transition_effect u input w :
  quiet w → publication_ok (db_publication (w_db w)) → fresh_revisions w →
  int4 (ti_expected_version input) = true →
  (∀ p, PageRepo.pages (w_db w) !! ti_page_id input = Some p → int4 (pg_version p + 1) = true) →
  match PageRepo.pages (w_db w) !! ti_page_id input with
  | None =>
      (TransitionUseCase.execute u input w).1 = Raise (PublicEventPageNotFoundError "page")
  | Some p =>
      let target := TransitionUseCase.target_status u in
      let p' := TransitionUseCase.apply_status_mutation u (w_now w) input p in
      let projection := db_projections (w_db w) !! pg_event_id p' in
      if negb (Workflow.is_allowed (pg_status p) target) then
        (TransitionUseCase.execute u input w).1
        = Raise (InvalidPublicationTransitionError (pg_status p) target)
      else if negb (pg_version p =? ti_expected_version input) then
        (TransitionUseCase.execute u input w).1
        = Raise (PublicEventPageModifiedError (ti_expected_version input) (pg_version p))
      else indexable u p' projection →
        ∃ w' search maps, TransitionUseCase.execute u input w = (Ok p', w')
          ∧ hook_indexes u p' projection (db_publication (w_db w)) search maps
          ∧ w_committed w' = set_publication (mkPublicTables
              (<[ti_page_id input := p']> (PageRepo.pages (w_db w)))
              (PageRepo.revisions (w_db w)
                 ++ [revision_of (w_uuid w) (w_now w + 1) p' (Some (pg_status p))
                       (ti_editor_user_id input) (ti_transition_reason input)
                       (if bool_decide (target = RETRACTED)
                        then ti_retraction_note input else None)])
              search maps) (w_db w)
  end
  ∧ (¬ is_ok (TransitionUseCase.execute u input w).1 →
     w_committed (TransitionUseCase.execute u input w).2 = w_committed w).
Proof.
  intros Hq Hok Hfresh Hexp Hver. split.
  - destruct (PageRepo.pages (w_db w) !! ti_page_id input) as [p|] eqn:Hp.
    2: { unfold TransitionUseCase.execute, load_page, PageRepo.get_by_id. unfold mbind, M_bind.
         rewrite query_quiet by done. by rewrite Hp. }
    specialize (Hver p eq_refl). cbv zeta.
    destruct (Workflow.is_allowed _ _) eqn:Ha; simpl.
    2: { unfold TransitionUseCase.execute. unfold mbind at 1, M_bind at 1.
         rewrite (load_page_run _ p) by done. cbv zeta. unfold mbind, M_bind, lift_res.
         unfold Workflow.validate_transition. by rewrite Ha. }
    destruct (pg_version p =? ti_expected_version input) eqn:Ev; simpl.
    + apply Z.eqb_eq in Ev. intros Hindex.
      pose proof (transition_is_ok u input w p Hq Hok Hfresh Hp Ha Ev Hver Hindex) as Hrun.
      apply is_ok_run in Hrun as (p' & w' & Hrun). pose proof (po_keys _ Hok) as Hk.
      pose proof (transition_inv u input w p' w' Hq Hk Hrun)
        as (p0 & r & search & maps & Hp0 & _ & _ & _ & -> & -> & Hh & Hcom).
      assert (p0 = p) as -> by congruence. exists w', search, maps.
      split_and!; [done|done|]. rewrite Hcom. do 3 f_equal.
      rewrite <- (Hk _ _ Hp). by destruct u.
    + unfold TransitionUseCase.execute. unfold mbind at 1, M_bind at 1.
      rewrite (load_page_run _ p) by done. cbv zeta. unfold mbind at 1, M_bind at 1, lift_res.
      unfold Workflow.validate_transition. rewrite Ha. unfold mbind at 1, M_bind at 1. cbv beta.
      cbn [utc_now]. unfold mbind at 1, M_bind at 1. rewrite update_quiet by done.
      unfold update_result. cbn [w_db].
      pose proof (po_keys _ Hok _ _ Hp) as Hid.
      destruct (transition_same u (w_now w) input p) as ((Eid & _ & _ & Ev') & _).
      by rewrite Eid, Ev', Hid, Hp, Hver, Hexp, Ev.
  - intros Hn. destruct (TransitionUseCase.execute u input w) as [[p|e] w'] eqn:E; [by destruct Hn|].
    apply transition_last in E. destruct E as ((fs & Ef & Ec) & _). rewrite Hq in Ef.
    symmetry in Ef. apply app_eq_nil in Ef as [-> _]. exact Ec.
Qed.

(** ** The reindex *)

(** Whatever other transactions do: a batch adds its rows, all below the ceiling, and
    a batch with a cursor is full. *)
Lemma collect_length max_pages l acc w acc' w' :
  collect max_pages l acc w = (Ok acc', w') →
  length acc'.1 = (length acc.1 + length l)%nat
  ∧ (l ≠ [] → Z.of_nat (length acc'.1) < max_pages).
Proof.
  revert acc w. induction l as [|p l IH]; intros acc w; cbn [collect].
  - intros [= <- _]. split; [simpl; lia|done].
  - intros (pr & w1 & _ & E)%bind_Ok_inv. apply bind_Ok_inv in E as (e & w2 & _ & E).
    apply bind_Ok_inv in E as (m & w3 & _ & E). cbv zeta in E.
    destruct (max_pages <=? _) eqn:Em; [done|]. apply Z.leb_gt in Em.
    destruct (IH _ _ E) as [E1 E2]. simpl in E1. rewrite length_app in E1. simpl in E1.
    split; [simpl; lia|]. intros _. destruct l as [|q l]; [|by apply E2].
    injection E as <- _. exact Em.
Qed.

Lemma trim_next limit l items next :
  PageRepo.trim limit l = (items, Some next) → length items = limit.
Proof.
  unfold PageRepo.trim. destruct (decide (limit < length l)%nat) as [H|H].
  - rewrite bool_decide_true by done. intros [= <- _]. rewrite length_take. lia.
  - by rewrite bool_decide_false.
Qed.

Lemma list_editorial_next statuses limit after_id w items next w' :
  PageRepo.list_editorial statuses limit after_id w = (Ok (items, Some next), w') →
  length items = limit.
Proof.
  unfold PageRepo.list_editorial. cbv zeta. intros (c & w1 & _ & H)%bind_Ok_inv.
  unfold query, stmt in H. injection H as H _. by eapply trim_next.
Qed.

Lemma walk_ends max_pages fuel after_id acc w : (0 < fuel)%nat →
  max_pages ≤ Z.of_nat (length acc.1 + 100 * fuel) →
  (walk max_pages fuel after_id acc w).1 ≠ Ok None.
Proof.
  revert after_id acc w. induction fuel as [|fuel IH]; intros after_id acc w Hf Hm; [lia|].
  cbn [walk]. unfold mbind at 1, M_bind at 1.
  destruct (PageRepo.list_editorial _ _ _ w) as [[[items [next|]]|e] w1] eqn:El; [| |done].
  - apply list_editorial_next in El. unfold mbind, M_bind.
    destruct (collect max_pages items acc w1) as [[acc'|e] w2] eqn:Ec; [|done].
    apply collect_length in Ec as [E1 E2]. rewrite El in E1. unfold REINDEX_BATCH_SIZE in E1, El.
    specialize (E2 ltac:(by destruct items)). apply IH; [|lia]. destruct fuel; lia.
  - unfold mbind, M_bind. by destruct (collect max_pages items acc w1) as [[acc'|e] w2].
Qed.

Lemma run_ends w : (run w).1 ≠ Ok None.
Proof.
  unfold run, execute. unfold mbind at 1, M_bind at 1.
  pose proof (walk_ends MAX_REINDEX_PAGES (batches MAX_REINDEX_PAGES) None ([], []) w) as H.
  destruct (walk _ _ _ _ w) as [[[[es ms]|]|e] w1].
  - fold (rebuild_indexes es ms). unfold rebuild_indexes. unfold mbind, M_bind.
    destruct (SearchRepo.rebuild_all_from es w1) as [[n|e] w2]; [|done].
    by destruct (MapRepo.rebuild_all_from ms w2) as [[m|e] w3].
  - exfalso. apply H; [unfold batches; lia|apply fuel_reaches_ceiling|done].
  - done.
Qed.

Definition n_published (db : DB) : nat :=
  length (filter (λ p, pg_status p = PUBLISHED) (rows (PageRepo.pages db))).

Lemma length_published db : length (published_pages db) = n_published db.
Proof.
  unfold published_pages, listing, n_published. rewrite length_py_sorted. f_equal.
  apply list_filter_iff'. intros p. unfold PageRepo.with_status_in.
  by rewrite bool_decide_eq_true, list_elem_of_singleton.
Qed.

Lemma choose_Forall2 {A B} (R : A → B → Prop) l :
  (∀ x, x ∈ l → ∃ y, R x y) → ∃ ys, Forall2 R l ys.
Proof.
  induction l as [|x l IH]; intros H; [by exists []|].
  destruct (H x) as [y Hy]; [by left|]. destruct IH as [ys Hys]; [intros z Hz; apply H; by right|].
  exists (y :: ys). by constructor.
Qed.

(** Every PUBLISHED page has index entries that can be stored. *)
Definition all_indexable (db : DB) : Prop :=
  ∀ k p, PageRepo.pages db !! k = Some p → pg_status p = PUBLISHED →
    indexable PublishPublicEventPage p (projection_of db p).

Lemma collected_error max_pages db l acc e :
  (∀ p, p ∈ l → indexable PublishPublicEventPage p (projection_of db p)) →
  collected max_pages db l acc = Raise e → e = RuntimeError "Reindex exceeds the page ceiling".
Proof.
  revert acc. induction l as [|p l IH]; intros acc Hl; [done|]. simpl.
  destruct (Hl p) as (x & m & -> & _ & -> & _); [by left|]. unfold mbind, Res_bind.
  destruct (max_pages <=? _); [by intros [= <-]|]. apply IH. intros q Hq. apply Hl. by right.
Qed.

Section reindex_run.
Context (w : World) (Hq : quiet w) (Hok : publication_ok (db_publication (w_db w)))
  (Hall : all_indexable (w_db w)).

Lemma published_indexable p : p ∈ published_pages (w_db w) →
  is_Some (PageRepo.pages (w_db w) !! pg_id p)
  ∧ indexable PublishPublicEventPage p (projection_of (w_db w) p).
Proof using Hok Hall.
  intros [Hp Hs]%elem_of_published; [|apply (po_keys _ Hok)]. split; [by eexists|by eapply Hall].
Qed.

Lemma collected_ok es ms :
  collected MAX_REINDEX_PAGES (w_db w) (published_pages (w_db w)) ([], []) = Ok (es, ms) →
  Forall (search_ok (w_db w)) es ∧ Forall (map_ok (w_db w)) ms.
Proof using Hok Hall.
  intros (es' & os & He & Ho & -> & -> & _)%collected_spec. simpl. split.
  - apply Forall_forall. intros e [i Hi]%list_elem_of_lookup.
    destruct (Forall2_lookup_r _ _ _ _ _ He Hi) as (p & Hp & Ee).
    apply list_elem_of_lookup_2, published_indexable in Hp as [Hin (e' & m & Ee' & Hs & _)].
    assert (e' = e) as -> by congruence. split; [done|]. by rewrite (entry_from_id _ _ _ Ee).
  - apply Forall_forall. intros m (o & Hin & Eo)%list_elem_of_omap. unfold id in Eo. subst o.
    apply list_elem_of_lookup in Hin as [i Hi].
    destruct (Forall2_lookup_r _ _ _ _ _ Ho Hi) as (p & Hp & Em).
    apply list_elem_of_lookup_2, published_indexable in Hp as [Hin (e' & o & _ & _ & Eo & Hs)].
    assert (o = Some m) as -> by congruence. split; [done|]. by rewrite (map_entry_from_id _ _ _ Em).
Qed.

Lemma collected_run :
  if MAX_REINDEX_PAGES <=? Z.of_nat (n_published (w_db w))
  then collected MAX_REINDEX_PAGES (w_db w) (published_pages (w_db w)) ([], [])
       = Raise (RuntimeError "Reindex exceeds the page ceiling")
  else ∃ es ms, collected MAX_REINDEX_PAGES (w_db w) (published_pages (w_db w)) ([], []) = Ok (es, ms).
Proof using Hok Hall.
  rewrite <- length_published. set (l := published_pages (w_db w)).
  destruct (choose_Forall2 (λ p e, entry_from p (projection_of (w_db w) p) = Ok e) l) as [es He].
  { intros p [_ (e & m & He & _)]%published_indexable. by exists e. }
  destruct (choose_Forall2 (λ p o, map_entry_from p (projection_of (w_db w) p) = Ok o) l) as [os Ho].
  { intros p [_ (e & m & _ & _ & Hm & _)]%published_indexable. by exists m. }
  destruct (MAX_REINDEX_PAGES <=? Z.of_nat (length l)) eqn:Em.
  - apply Z.leb_le in Em. destruct (collected _ _ _ _) as [[es' ms']|e] eqn:Ec.
    2: { f_equal. eapply collected_error; [|exact Ec]. intros p Hp. by apply published_indexable. }
    apply collected_spec in Ec as (_ & _ & _ & _ & _ & _ & Hlen). simpl in Hlen.
    exfalso. specialize (Hlen ltac:(by intros ->)). unfold MAX_REINDEX_PAGES in *. fold l in Hlen. lia.
  - apply Z.leb_gt in Em. exists es, (omap id os). apply collected_spec. by exists es, os.
Qed.
End reindex_run.

(** C23: The reindex always ends, whatever other transactions do: the ceiling stops
    it before the fuel.  Without interference and with entries that can be stored,
    it walks every PUBLISHED page exactly once: below the ceiling the indexes become
    exactly the entries of the PUBLISHED pages (those with coordinates, for the
    map), with their counts returned; at the ceiling it fails and changes nothing. *)
Theorem reindex_effect w :
  (ReindexPublicEvents.run w).1 ≠ Ok None
  ∧ (quiet w → publication_ok (db_publication (w_db w)) → all_indexable (w_db w) →
     if MAX_REINDEX_PAGES <=? Z.of_nat (n_published (w_db w)) then
       ReindexPublicEvents.run w = (Raise (RuntimeError "Reindex exceeds the page ceiling"), w)
     else ∃ w' search maps,
       ReindexPublicEvents.run w
         = (Ok (Some (Z.of_nat (n_published (w_db w)), Z.of_nat (size maps))), w')
       ∧ size search = n_published (w_db w) ∧ indexes_of (w_db w) search maps
       ∧ w_committed w' = set_publication (mkPublicTables (PageRepo.pages (w_db w))
           (PageRepo.revisions (w_db w)) search maps) (w_db w)).
Proof.
  split; [apply run_ends|]. intros Hq Hok Hall. pose proof (po_keys _ Hok) as Hk.
  rewrite reindex_quiet by done. pose proof (collected_run w Hok Hall) as Hrun.
  destruct (MAX_REINDEX_PAGES <=? _) eqn:Em.
  - by rewrite Hrun.
  - destruct Hrun as (es & ms & Ec). rewrite Ec.
    destruct (collected_ok w Hok Hall es ms Ec) as [Hes Hms].
    destruct (rebuild_indexes_run es ms w Hq Hes Hms) as (w' & -> & Hcom).
    pose proof (collected_fst _ _ _ _ Ec) as [E1 E2].
    pose proof (NoDup_published_ids _ Hk) as Hnd.
    assert (length es = n_published (w_db w)) as El.
    { rewrite <- length_published. by rewrite <- (length_fmap se_page_id es), E1, length_fmap. }
    exists w', (insert_all se_page_id es ∅), (insert_all me_page_id ms ∅).
    rewrite !insert_all_size, !map_size_empty by first [intros; apply lookup_empty
      |by rewrite E1|exact (sublist_NoDup _ _ Hnd E2)].
    rewrite El. split_and!; [done|done| |exact Hcom]. by eapply collected_indexes.
Qed.

(** C22: Whatever editorial requests and activities of the claims core follow one
    another, the publication overlay keeps its invariant: slugs canonical and
    unique, one page per event, publication dates present, the search index exactly
    the PUBLISHED pages and the map at most them, each described as it is, and the
    revisions of a page its complete legal history; and nothing is taken back:
    revisions are only appended, versions grow, a first publication date stays, a
    RETRACTED page is final. *)
Theorem editorial_keeps_publication `{Hashlib} `{ModelValidate} dp max_attempts minutes run_echo
    fail_echo str_exn (l : list system_activity) w :
  elsewhere run_echo fail_echo → publication_ok (db_publication (w_committed w)) →
  let w' := run_serially dp max_attempts minutes run_echo fail_echo str_exn w l in
  publication_ok (db_publication (w_committed w'))
  ∧ publication_evolves (db_publication (w_committed w)) (db_publication (w_committed w')).
Proof. intros He Hok. by apply run_serially_ok. Qed.

(** ** Examples *)
Definition sample_projection : ProjectedAccidentRecord :=
  mkProjection 7 1 [("fatalities_total", PInt 3); ("lat", PStr "60.25"); ("longitude", PInt 11);
    ("operator", PStr "Acme Air")] (f_of_decimal false 9 (-1)) [] 500.
Definition sample_public_db : DB :=
  upd_projections <[7%N := sample_projection]>
    (upd_events <[7%N := mkEvent 7 100 None]> empty_db).

Definition sample_create : EditorialRequest :=
  EdCreate (mkCreate 7 "  Acme 737 -- Oslo!" "Acme 737" None (Some "text") 1).
Definition sample_transition (u : Transition) (v : Z) : EditorialRequest :=
  EdTransition u (mkTransition 1000 v 1 None None).

Definition sample_serially (l : list system_activity) : World :=
  run_serially (H := sample_hashlib) (H0 := sample_validate) sample_deployment 5 10 no_job
    (λ o _, no_job o) (λ _, "error") (world_of sample_public_db) l.

Lemma empty_publication_ok : publication_ok (db_publication sample_public_db).
Proof. split; simpl; try done. intros r Hr. by apply elem_of_nil in Hr. Qed.

(** Created, submitted, approved, published; a stale archive is refused. *)
Definition sample_story : list system_activity :=
  EditorialActivity <$> [sample_create; sample_transition SubmitPublicEventPage 1;
    sample_transition ApprovePublicEventPage 2; sample_transition PublishPublicEventPage 3;
    sample_transition ArchivePublicEventPage 3].

Example sample_story_published :
  let t := db_publication (w_committed (sample_serially sample_story)) in
  (pg_slug <$> pt_pages t !! 1000%N) = Some "acme-737-oslo"
  ∧ (pg_status <$> pt_pages t !! 1000%N) = Some PUBLISHED
  ∧ (rv_version_at_moment <$> pt_revisions t) = [1; 2; 3; 4]
  ∧ (se_operator <$> pt_search t !! 1000%N) = Some (Some "Acme Air")
  ∧ (me_longitude <$> pt_maps t !! 1000%N) = Some (f_of_int 11).
Proof. vm_compute. by split_and!. Qed.

Lemma editorial_keeps_publication_witness :
  publication_ok (db_publication (w_committed (sample_serially sample_story))).
Proof.
  exact (proj1 (editorial_keeps_publication (H := sample_hashlib) (H0 := sample_validate)
    sample_deployment 5 10 no_job (λ o _, no_job o) (λ _, "error") sample_story
    (world_of sample_public_db) (conj (λ _ _, eq_refl) (λ _ _ _, eq_refl)) empty_publication_ok)).
Defined.

(** The world in which the page is APPROVED. *)
Definition sample_approved : World := alone (sample_serially (take 3 sample_story)).
Lemma sample_approved_ok : publication_ok (db_publication (w_db sample_approved)).
Proof.
  apply (run_serially_ok (H := sample_hashlib) (H0 := sample_validate) sample_deployment 5 10 no_job
    (λ o _, no_job o) (λ _, "error") (take 3 sample_story) (world_of sample_public_db)
    (conj (λ _ _, eq_refl) (λ _ _ _, eq_refl)) empty_publication_ok).
Qed.

Definition sample_page (status : PublicationStatus) (version : Z) (published : option datetime)
    (updated : datetime) : PublicEventPage :=
  mkPage 1000 7 "acme-737-oslo" "Acme 737" None (Some "text") status version published published
    None None 1000000 updated.

Lemma sample_approved_page : PageRepo.pages (w_db sample_approved) !! 1000%N
  = Some (sample_page APPROVED 3 None 1000005).
Proof. vm_compute. reflexivity. Qed.
Lemma sample_approved_projection :
  db_projections (w_db sample_approved) !! 7%N = Some sample_projection.
Proof. vm_compute. reflexivity. Qed.
Lemma sample_fresh : fresh_revisions sample_approved.
Proof. unfold fresh_revisions. apply Forall_forall. vm_compute. repeat constructor. Qed.

Lemma sample_indexable status version published updated :
  indexable PublishPublicEventPage (sample_page status version published updated)
    (Some sample_projection).
Proof.
  eexists _, _. split; [vm_compute; reflexivity|]. split; [vm_compute; reflexivity|].
  split; [vm_compute; reflexivity|]. vm_compute. reflexivity.
Qed.

Lemma transition_effect_witness :
  ∃ p' w', TransitionUseCase.execute PublishPublicEventPage (mkTransition 1000 3 1 None None)
             sample_approved = (Ok p', w')
    ∧ pg_status p' = PUBLISHED ∧ pg_version p' = 4.
Proof.
  destruct (transition_effect PublishPublicEventPage (mkTransition 1000 3 1 None None)
    sample_approved eq_refl sample_approved_ok sample_fresh eq_refl) as [H _].
  { intros q. change (ti_page_id _) with 1000%N. rewrite sample_approved_page. by intros [= <-]. }
  change (ti_page_id _) with 1000%N in H. rewrite sample_approved_page in H.
  destruct H as (w' & search & maps & E & _).
  - change (pg_event_id _) with 7%N. rewrite sample_approved_projection.
    exact (sample_indexable PUBLISHED 4 (Some (w_now sample_approved)) (w_now sample_approved)).
  - eexists _, w'. split; [exact E|]. by split.
Defined.

Definition sample_published : World := alone (sample_serially sample_story).
Lemma sample_published_ok : publication_ok (db_publication (w_db sample_published)).
Proof.
  apply (run_serially_ok (H := sample_hashlib) (H0 := sample_validate) sample_deployment 5 10 no_job
    (λ o _, no_job o) (λ _, "error") sample_story (world_of sample_public_db)
    (conj (λ _ _, eq_refl) (λ _ _ _, eq_refl)) empty_publication_ok).
Qed.
Lemma sample_all_indexable : all_indexable (w_db sample_published).
Proof.
  assert (PageRepo.pages (w_db sample_published)
    = {[ 1000%N := sample_page PUBLISHED 4 (Some 1000007) 1000007 ]}) as E
    by (vm_compute; reflexivity).
  intros k p. rewrite E. intros [<- <-]%lookup_singleton_Some _. unfold projection_of.
  change (pg_event_id _) with 7%N.
  assert (db_projections (w_db sample_published) !! 7%N = Some sample_projection) as ->
    by (vm_compute; reflexivity).
  apply sample_indexable.
Qed.
Lemma sample_one_published : n_published (w_db sample_published) = 1%nat.
Proof. vm_compute. reflexivity. Qed.

Lemma reindex_effect_witness :
  ∃ w' search maps,
    ReindexPublicEvents.run sample_published = (Ok (Some (1, Z.of_nat (size maps))), w')
    ∧ size search = 1%nat ∧ indexes_of (w_db sample_published) search maps.
Proof.
  destruct (reindex_effect sample_published) as [_ H].
  specialize (H eq_refl sample_published_ok sample_all_indexable).
  rewrite sample_one_published in H. destruct H as (w' & search & maps & E & Hs & Hi & _).
  exists w', search, maps. split; [exact E|]. by split.
Defined.

(** RequestChanges, documented as IN_REVIEW to DRAFT, also reopens ARCHIVED pages. *)
Lemma request_changes_reopens s :
  Workflow.is_allowed s (TransitionUseCase.target_status RequestChanges) = true
  ↔ s = IN_REVIEW ∨ s = APPROVED ∨ s = ARCHIVED.
Proof. destruct s; vm_compute; split; intros H; try done; naive_solver. Qed.

(** A page can be created on an event that was merged away. *)
Definition merged_event_db : DB :=
  upd_events (λ _, {[ 7%N := mkEvent 7 100 (Some 8%N); 8%N := mkEvent 8 100 None ]}) empty_db.
Lemma page_on_merged_event :
  is_ok (with_uow (handle_editorial sample_create) (world_of merged_event_db)).1.
Proof. vm_compute. exact I. Qed.

(** A projected operator longer than the index column blocks the publication. *)
Definition long_operator : string := of_chars (replicate 301 (Ascii.ascii_of_N 65)).
Lemma long_operator_blocks_publish :
  let projection := mkProjection 7 1 [("operator", PStr long_operator)] f_zero [] 500 in
  let w := run_serially (H := sample_hashlib) (H0 := sample_validate) sample_deployment 5 10 no_job
    (λ o _, no_job o) (λ _, "error")
    (world_of (upd_projections <[7%N := projection]> sample_public_db)) (take 3 sample_story) in
  (with_uow (handle_editorial (sample_transition PublishPublicEventPage 3)) (alone w)).1
  = Raise (DataError "search_index_entries").
Proof. vm_compute. reflexivity. Qed.
