(* ===== verification/PublicRead.v ===== *)
(** The public read paths (application/use_cases/public_events.py and
    query_accident.py): the visibility gate, the list, the detail and the evidence of
    published events. *)
From S2P Require Import Prelude Text PyFloat PyVal PyDate Entities Store Json Logic Normalize Matching.
From S2P Require Import EventResolution Slug Publication Keyset PublicationSpec Editorial.
From S2P Require Import EditorialFacts.
Open Scope string_scope.
Open Scope list_scope.
Open Scope Z_scope.

(** ** Canonical events *)

(** The walk of EventResolution, with a cycle reported as [None]. *)
Definition walk_merges (event_id : UUID) : M (option (UUID + AccidentEvent)) :=
  catch (r ← canonical_event event_id; mret (Some r)) (λ _, mret None).

(** _canonical_event_id_for: a missing event and a cycle have no canonical event. *)
Definition canonical_event_id_for (event_id : UUID) : M (option UUID) :=
  r ← walk_merges event_id;
  mret (match r with Some (inr e) => Some (ev_id e) | _ => None end).

Module QueryAccidentPublicView.
(** A missing event is looked up in the projections all the same. *)
Definition canonical_event_id (event_id : UUID) : M (option UUID) :=
  r ← walk_merges event_id;
  mret (match r with
        | Some (inr e) => Some (ev_id e) | Some (inl missing) => Some missing | None => None
        end).

Definition execute (event_id : UUID) : M (option ProjectedAccidentRecord) :=
  canonical_id ← canonical_event_id event_id;
  match canonical_id with
  | None => mret None
  | Some id => ProjectionRepo.get id
  end.
End QueryAccidentPublicView.

(** ** The gate of the slug-keyed routes: _load_page_and_check_visibility *)
Definition load_page_and_check_visibility (slug : string) : M (PublicEventPage * UUID) :=
  page ← PageRepo.get_by_slug slug;
  match page with
  | None => raise (PublicEventPageNotFoundError slug)
  | Some p =>
      if bool_decide (pg_status p = DRAFT) then raise (PublicEventPageNotPublishedError slug)
      else if bool_decide (pg_status p = RETRACTED)
      then raise (PublicEventPageRetractedError slug (pg_retraction_note p))
      else
        canonical_id ← canonical_event_id_for (pg_event_id p);
        match canonical_id with
        | None => raise (PublicEventPageNotFoundError slug)
        | Some id => mret (p, id)
        end
  end.

(** [str(value)], [None] for a missing value. *)
Definition str_or_none (v : pyval) : option string :=
  match v with PNone => None | PStr s => Some s | _ => Some (py_str v) end.

(** ** ListPublicEvents *)
Record PublicEventListItem := mkListItem {
  li_slug : string;
  li_title : string;
  li_short_summary : option string;
  li_event_date : option string;
  li_location : option string;
  li_operator : option string;
  li_aircraft_type : option string;
  li_fatalities_total : pyval;
  li_confidence : string;
  li_has_unresolved_conflicts : bool;
  li_last_published_at : option datetime;
}.

Definition summary_from (row : PublicEventPage) (projection : option ProjectedAccidentRecord)
    : PublicEventListItem :=
  let get key := Indexing.get (Indexing.fields_of projection) key in
  mkListItem (pg_slug row) (pg_title row) (pg_short_summary row)
    (str_or_none (get "event_date")) (str_or_none (get "location"))
    (str_or_none (get "operator")) (str_or_none (get "aircraft_type"))
    (get "fatalities_total") (Indexing.confidence_band projection)
    (match projection with Some p => negb (bool_decide (pj_unresolved p = [])) | None => false end)
    (pg_last_published_at row).

Module ListPublicEvents.
Definition MAX_PUBLIC_LIST_LIMIT : Z := 100.

Definition summarise (row : PublicEventPage) : M PublicEventListItem :=
  canonical_id ← canonical_event_id_for (pg_event_id row);
  projection ← match canonical_id with
               | None => mret None
               | Some id => ProjectionRepo.get id
               end;
  mret (summary_from row projection).

Definition execute (limit : Z) (after_id : option UUID)
    : M (list PublicEventListItem * option UUID * Z) :=
  let bounded_limit := Z.max 1 (Z.min limit MAX_PUBLIC_LIST_LIMIT) in
  '(rows, next_cursor) ← PageRepo.list_published (Z.to_nat bounded_limit) after_id;
  items ← map_m summarise rows;
  mret (items, next_cursor, bounded_limit).
End ListPublicEvents.

(** ** GetPublicEventPage *)
Record PublicEventDetail := mkDetail {
  pd_slug : string;
  pd_canonical_event_id : UUID;
  pd_title : string;
  pd_short_summary : option string;
  pd_narrative_markdown : option string;
  pd_fields : list (string * pyval);
  pd_completeness_score : float;
  pd_confidence : string;
  pd_unresolved_conflict_fields : list string;
  pd_projection_version : Z;
  pd_first_published_at : option datetime;
  pd_last_published_at : option datetime;
  pd_last_updated_at : datetime;
}.

Module GetPublicEventPage.
Definition detail_of (page : PublicEventPage) (canonical_id : UUID)
    (p : ProjectedAccidentRecord) : PublicEventDetail :=
  mkDetail (pg_slug page) canonical_id (pg_title page) (pg_short_summary page)
    (pg_narrative_markdown page) (map (λ kv, (kv.1, replace_disputed kv.2)) (pj_fields p))
    (pj_completeness p) (Indexing.confidence_band (Some p)) (pj_unresolved p) (pj_version p)
    (pg_first_published_at page) (pg_last_published_at page) (pj_updated_at p).

Definition execute (slug : string) : M PublicEventDetail :=
  '(page, canonical_id) ← load_page_and_check_visibility slug;
  projection ← ProjectionRepo.get canonical_id;
  match projection with
  | None => raise (PublicEventPageNotFoundError slug)
  | Some p => mret (detail_of page canonical_id p)
  end.
End GetPublicEventPage.

(** ** GetPublicEventEvidence *)
Record PublicEvidenceClaim := mkEvidenceClaim {
  pec_field_name : string;
  pec_field_value : pyval;
  pec_claim_type : ClaimType;
  pec_source_name : string;
  pec_source_kind : SourceKind;
  pec_source_reliability_tier : Z;
  pec_is_winning : bool;
  pec_is_superseded : bool;
  pec_created_at : datetime;
}.

Record PublicEvidenceSource := mkEvidenceSource {
  pes_name : string;
  pes_kind : SourceKind;
  pes_reliability_tier : Z;
}.

Record PublicEvidenceResponse := mkEvidence {
  per_slug : string;
  per_canonical_event_id : UUID;
  per_claims : list PublicEvidenceClaim;
  per_sources : list PublicEvidenceSource;
  per_claim_count : Z;
  per_truncated : bool;
}.

Module GetPublicEventEvidence.
Definition PUBLIC_EVIDENCE_CLAIM_LIMIT : nat := 200.
Definition PUBLIC_EVIDENCE_SOURCE_LIMIT : nat := 50.

(** _winning_values_by_field *)
Definition winning_values_by_field (projection : option ProjectedAccidentRecord)
    : list (string * pyval) :=
  match projection with
  | None => []
  | Some p => filter (λ kv, kv.1 ∉ pj_unresolved p) (pj_fields p)
  end.

Definition values_equal (a b : pyval) : bool :=
  py_eq a b || bool_decide (py_str a = py_str b).

Definition claim_to_public (winning_values : list (string * pyval)) (source : option Source)
    (c : Claim) : PublicEvidenceClaim :=
  mkEvidenceClaim (c_field_name c) (c_field_value c) (c_claim_type c)
    (from_option src_name "(unknown source)" source) (from_option src_kind EXTERNAL source)
    (from_option src_reliability_tier 99 source)
    (match dict_get (c_field_name c) winning_values with
     | Some v => values_equal v (c_field_value c)
     | None => false
     end)
    (negb (is_active c)) (c_created_at c).

Definition source_to_public (s : Source) : PublicEvidenceSource :=
  mkEvidenceSource (src_name s) (src_kind s) (src_reliability_tier s).

(** key=lambda c: (c.created_at, c.id) *)
Definition oldest_first (x y : Claim) : bool :=
  (c_created_at x <? c_created_at y)
  || ((c_created_at x =? c_created_at y) && (c_id x <=? c_id y)%N).
(** key=lambda s: (s.reliability_tier, s.name) *)
Definition by_tier_name (x y : PublicEvidenceSource) : bool :=
  (pes_reliability_tier x <? pes_reliability_tier y)
  || ((pes_reliability_tier x =? pes_reliability_tier y)
      && String.leb (pes_name x) (pes_name y)).

Definition execute (slug : string) : M PublicEvidenceResponse :=
  '(page, canonical_id) ← load_page_and_check_visibility slug;
  active_claims ← ClaimRepo.find_active_by_event canonical_id;
  let sorted_claims := py_sorted oldest_first active_claims in
  let truncated := bool_decide (PUBLIC_EVIDENCE_CLAIM_LIMIT < length sorted_claims)%nat in
  let claims := if truncated then take PUBLIC_EVIDENCE_CLAIM_LIMIT sorted_claims
                else sorted_claims in
  let source_ids := dict_fromkeys (c_source_id <$> claims) in
  sources ← (if bool_decide (source_ids = []) then mret [] else SourceRepo.get_by_ids source_ids);
  projection ← ProjectionRepo.get canonical_id;
  let winning_values := winning_values_by_field projection in
  let source_by_id id := List.find (λ s, (src_id s =? id)%N) sources in
  let public_claims :=
    (λ c, claim_to_public winning_values (source_by_id (c_source_id c)) c) <$> claims in
  let public_sources := take PUBLIC_EVIDENCE_SOURCE_LIMIT
    (py_sorted by_tier_name (source_to_public <$> sources)) in
  mret (mkEvidence (pg_slug page) canonical_id public_claims public_sources
          (Z.of_nat (length public_claims)) truncated).
End GetPublicEventEvidence.

(** ** What the gate lets through *)
Lemma page_by_slug w slug : quiet w → publication_ok (db_publication (w_db w)) →
  ∃ o, PageRepo.get_by_slug slug w = (Ok o, w)
    ∧ match o with
      | Some p => PageRepo.pages (w_db w) !! pg_id p = Some p ∧ pg_slug p = slug
      | None => ∀ k p, PageRepo.pages (w_db w) !! k = Some p → pg_slug p ≠ slug
      end.
Proof.
  intros Hq Hok. unfold PageRepo.get_by_slug, scalar_query. rewrite stmt_quiet by done.
  rewrite set_db_same. set (l := filter _ _).
  assert (∀ p, p ∈ l ↔ PageRepo.pages (w_db w) !! pg_id p = Some p ∧ pg_slug p = slug) as Hl.
  { intros p. unfold l. rewrite list_elem_of_filter, (elem_of_pages _ (po_keys _ Hok)). tauto. }
  assert (NoDup l) as Hnd by apply NoDup_filter, NoDup_pages, (po_keys _ Hok).
  clearbody l. destruct l as [|p [|q l']].
  - exists None. split; [done|]. intros k p Hp Hs. apply (not_elem_of_nil p), Hl.
    by rewrite (po_keys _ Hok _ _ Hp).
  - exists (Some p). split; [done|]. apply Hl. by left.
  - exfalso. destruct (proj1 (Hl p)) as [Hp Esp]; [by left|].
    destruct (proj1 (Hl q)) as [Hx Esx]; [by right; left|].
    assert (pg_id p = pg_id q) as E by (eapply (po_slugs _ Hok); [done|done|congruence]).
    apply NoDup_cons in Hnd as [Hnin _]. apply Hnin. rewrite E in Hp.
    assert (q = p) as -> by congruence. by left.
Qed.

Lemma canonical_event_id_quiet id w : quiet w → keyed_events (db_events (w_db w)) →
  ∃ r, pointer_end (db_events (w_db w)) id r
    ∧ canonical_event_id_for id w = (Ok (match r with Ok (inr e) => Some (ev_id e) | _ => None end), w).
Proof.
  intros Hq Hk. destruct (canonical_quiet id w Hq Hk) as (r & E & Hr). exists r. split; [done|].
  unfold canonical_event_id_for, walk_merges, catch. unfold mbind, M_bind. rewrite E.
  by destruct r as [[k|e]|x].
Qed.

(** What the public sees of a page. *)
Definition public_answer (events : gmap UUID AccidentEvent) (slug : string)
    (page : option PublicEventPage) (answer : Res (PublicEventPage * UUID)) : Prop :=
  match page with
  | None => answer = Raise (PublicEventPageNotFoundError slug)
  | Some p =>
      match pg_status p with
      | DRAFT => answer = Raise (PublicEventPageNotPublishedError slug)
      | RETRACTED => answer = Raise (PublicEventPageRetractedError slug (pg_retraction_note p))
      | IN_REVIEW | APPROVED | PUBLISHED | ARCHIVED =>
          ∃ r, pointer_end events (pg_event_id p) r
            ∧ answer = match r with
                       | Ok (inr e) => Ok (p, ev_id e)
                       | _ => Raise (PublicEventPageNotFoundError slug)
                       end
      end
  end.

Lemma gate_quiet w slug :
  quiet w → publication_ok (db_publication (w_db w)) → keyed_events (db_events (w_db w)) →
  ∃ page answer, load_page_and_check_visibility slug w = (answer, w)
    ∧ public_answer (db_events (w_db w)) slug page answer
    ∧ match page with
      | Some p => PageRepo.pages (w_db w) !! pg_id p = Some p ∧ pg_slug p = slug
      | None => ∀ k p, PageRepo.pages (w_db w) !! k = Some p → pg_slug p ≠ slug
      end.
Proof.
  intros Hq Hok Hk. destruct (page_by_slug w slug Hq Hok) as (o & E & Ho). exists o.
  unfold load_page_and_check_visibility. unfold mbind at 1, M_bind at 1. rewrite E.
  destruct o as [p|]; [|eexists; by split_and!].
  destruct (canonical_event_id_quiet (pg_event_id p) w Hq Hk) as (r & Hr & Er).
  unfold public_answer. destruct (pg_status p) eqn:Es.
  1: (rewrite bool_decide_true by done; eexists; split; [reflexivity|]; split; [reflexivity|exact Ho]).
  5: (rewrite bool_decide_false, bool_decide_true by done; eexists; split; [reflexivity|];
      split; [reflexivity|exact Ho]).
  all: rewrite !bool_decide_false by done; unfold mbind, M_bind; rewrite Er;
    eexists; split; [|split; [exists r; split; [exact Hr|reflexivity]|exact Ho]];
    by destruct r as [[]|].
Qed.

(** What the detail route answers, by the status of the page with the slug. *)
Definition public_detail (db : DB) (slug : string) (page : option PublicEventPage)
    (answer : Res PublicEventDetail) : Prop :=
  match page with
  | None => answer = Raise (PublicEventPageNotFoundError slug)
  | Some p =>
      match pg_status p with
      | DRAFT => answer = Raise (PublicEventPageNotPublishedError slug)
      | RETRACTED => answer = Raise (PublicEventPageRetractedError slug (pg_retraction_note p))
      | IN_REVIEW | APPROVED | PUBLISHED | ARCHIVED =>
          ∃ r, pointer_end (db_events db) (pg_event_id p) r
            ∧ answer = match r with
                       | Ok (inr e) =>
                           match db_projections db !! ev_id e with
                           | Some pj => Ok (GetPublicEventPage.detail_of p (ev_id e) pj)
                           | None => Raise (PublicEventPageNotFoundError slug)
                           end
                       | _ => Raise (PublicEventPageNotFoundError slug)
                       end
      end
  end.


(** A page created, submitted and approved, but never published, is served. *)
Lemma unpublished_page_is_served :
  ∃ d, (GetPublicEventPage.execute "acme-737-oslo" sample_approved).1 = Ok d
    ∧ pd_narrative_markdown d = Some "text" ∧ pd_last_published_at d = None.
Proof. eexists. split; [vm_compute; reflexivity|]. by split. Qed.

Lemma sample_approved_events : keyed_events (db_events (w_db sample_approved)).
Proof.
  assert (db_events (w_db sample_approved) = {[ 7%N := mkEvent 7 100 None ]}) as ->
    by (vm_compute; reflexivity).
  by intros k e [<- <-]%lookup_singleton_Some.
Qed.

