(* ===== verification/Maintenance.v ===== *)
(** Maintenance of the read model: rebuilding the projections of all events, batch by
    batch, and verifying a stored projection against the claims
    (src/src/atlas/application/use_cases/{rebuild_all_projections,
    verify_projection_consistency}.py). *)
From S2P Require Import Prelude Text PyFloat PyVal Entities Store Json Logic Conflicts.
From S2P Require Import Projection Reproject PyDate Publication Keyset.
From Stdlib Require Import SpecFloat.
Open Scope string_scope.
Open Scope list_scope.
Open Scope Z_scope.

(** ** RebuildAllProjections *)
Record RebuildAllResult := mkRebuildAll {
  ra_processed : Z;
  ra_skipped : Z;
  ra_failed_event_ids : list UUID;
  ra_errors : list string;
}.

Module RebuildAllProjections.
Section rebuild_all.
Context `{Hashlib} (str_exn : exn → string).

Definition DEFAULT_BATCH_SIZE : Z := 100.

(** WHERE id > after *)
Definition ids_after (after_id : option UUID) (ids : list UUID) : list UUID :=
  match after_id with None => ids | Some a => filter (λ i, (a < i)%N) ids end.

(** EventRepo.list_ids_after_keyset: ORDER BY id LIMIT limit *)
Definition list_ids_after_keyset (after_id : option UUID) (limit : Z) : M (list UUID) :=
  query (λ db, take (Z.to_nat limit)
    (py_sorted N.leb (ids_after after_id (map_to_list (db_events db)).*1))).

Definition no_cause : ReProjectEvent.Cause := ReProjectEvent.mkCause None None None.

Definition one_processed (r : RebuildAllResult) : RebuildAllResult :=
  mkRebuildAll (ra_processed r + 1) (ra_skipped r) (ra_failed_event_ids r) (ra_errors r).

(** [f"{event_id}: {exc}"] *)
Definition one_skipped (event_id : UUID) (exc : exn) (r : RebuildAllResult) : RebuildAllResult :=
  mkRebuildAll (ra_processed r) (ra_skipped r + 1) (ra_failed_event_ids r ++ [event_id])
    (ra_errors r ++ [uuid_str event_id +:+ ": " +:+ str_exn exc]).

(** The body of the loop over a batch: commit each event, or roll it back. *)
Definition attempt_event (event_id : UUID) (r : RebuildAllResult) : M RebuildAllResult :=
  catch (ReProjectEvent.execute event_id no_cause true false;; mret (one_processed r))
    (λ exc, rollback;; mret (one_skipped event_id exc r)).

Fixpoint attempt_all (event_ids : list UUID) (r : RebuildAllResult) : M RebuildAllResult :=
  match event_ids with
  | [] => mret r
  | event_id :: rest => r' ← attempt_event event_id r; attempt_all rest r'
  end.

Section scan.
Context (batch_size : Z) (max_events : option Z).

Definition remaining (r : RebuildAllResult) : option Z :=
  (λ m, m - (ra_processed r + ra_skipped r)) <$> max_events.
Definition batch_limit (r : RebuildAllResult) : Z :=
  match remaining r with Some n => Z.min batch_size n | None => batch_size end.

(** The [while True] loop; [None]: the fuel, the number of batches, ran out. *)
Fixpoint scan (fuel : nat) (last_seen_id : option UUID) (r : RebuildAllResult)
    : M (option RebuildAllResult) :=
  match fuel with
  | O => mret None
  | S fuel' =>
      if match remaining r with Some n => n <=? 0 | None => false end
      then mret (Some r)
      else
        event_ids ← list_ids_after_keyset last_seen_id (batch_limit r);
        match last event_ids with
        | None => mret (Some r)
        | Some last_id => r' ← attempt_all event_ids r; scan fuel' (Some last_id) r'
        end
  end.

Definition execute (fuel : nat) : M (option RebuildAllResult) :=
  if batch_size <? 1 then raise (DomainValidationError "batch_size must be at least 1")
  else scan fuel None (mkRebuildAll 0 0 [] []).
End scan.
End rebuild_all.
End RebuildAllProjections.

(** ** VerifyProjectionConsistency *)
Record FieldDiff := mkFieldDiff { fd_stored : pyval; fd_recomputed : pyval }.

Record ConsistencyReport := mkReport {
  cr_consistent : bool;                      (* status *)
  cr_event_id : UUID;
  cr_stored_version : option Z;
  cr_projection_absent_expected : bool;
  cr_field_diff : list (string * FieldDiff);
  cr_unresolved_diff : option (list string * list string);
  cr_completeness_diff : option (float * float);
}.

Module VerifyProjectionConsistency.
(** What the claims and conflicts, or the merge pointer, say now. *)
Definition recompute_live (event_id : UUID) (stored : ProjectedAccidentRecord)
    : M ProjectedAccidentRecord :=
  claims ← ClaimRepo.find_active_by_event event_id;
  conflicts ← ConflictRepo.find_by_event event_id;
  let source_ids := dict_fromkeys (c_source_id <$> claims) in
  sources ← (if bool_decide (source_ids = []) then mret [] else SourceRepo.get_by_ids source_ids);
  now ← utc_now;
  mret (ProjectionBuilder.build event_id claims conflicts (ReProjectEvent.sources_by_id sources)
          (pj_version stored) now).

Definition recompute (event_id : UUID) (event : option AccidentEvent)
    (stored : ProjectedAccidentRecord) : M ProjectedAccidentRecord :=
  match event with
  | Some e =>
      if is_merged e then
        now ← utc_now;
        mret (ReProjectEvent.tombstone event_id (ev_merged_into e) (pj_version stored) now)
      else recompute_live event_id stored
  | None => recompute_live event_id stored
  end.

(** [abs(a - b) < 1e-9] *)
Definition close (a b : float) : bool :=
  f_ltb (SFabs (SFsub prec emax a b)) (f_of_decimal false 1 (-9)).

Definition get (f : string) (p : ProjectedAccidentRecord) : pyval :=
  default PNone (dict_get f (pj_fields p)).

(** The keys come from a set: their order carries no meaning. *)
Definition field_diff (stored recomputed : ProjectedAccidentRecord) : list (string * FieldDiff) :=
  (λ f, (f, mkFieldDiff (get f stored) (get f recomputed))) <$>
  filter (λ f, py_eq (get f stored) (get f recomputed) = false)
    (dict_fromkeys ((pj_fields stored).*1 ++ (pj_fields recomputed).*1)).

Definition compare (event_id : UUID) (stored recomputed : ProjectedAccidentRecord)
    : ConsistencyReport :=
  let fields_match := py_eq (PDict (pj_fields recomputed)) (PDict (pj_fields stored)) in
  let stored_open := sort_strings (pj_unresolved stored) in
  let recomputed_open := sort_strings (pj_unresolved recomputed) in
  let conflicts_match := bool_decide (recomputed_open = stored_open) in
  let completeness_match := close (pj_completeness recomputed) (pj_completeness stored) in
  mkReport (fields_match && conflicts_match && completeness_match) event_id
    (Some (pj_version stored)) false
    (if fields_match then [] else field_diff stored recomputed)
    (if conflicts_match then None else Some (stored_open, recomputed_open))
    (if completeness_match then None
     else Some (pj_completeness stored, pj_completeness recomputed)).

Definition absent_as_expected (event_id : UUID) : ConsistencyReport :=
  mkReport true event_id None true [] None None.

Definition execute (event_id : UUID) : M (option ConsistencyReport) :=
  event ← EventRepo.get event_id;
  stored ← ProjectionRepo.get event_id;
  match stored with
  | None =>
      mret (match event with
            | Some e => if is_merged e then Some (absent_as_expected event_id) else None
            | None => None
            end)
  | Some p => recomputed ← recompute event_id event p; mret (Some (compare event_id p recomputed))
  end.
End VerifyProjectionConsistency.

(** ** Stored values and the values computed from the claims *)
Lemma canon_list_traverse l :
  canon (PList l) = CSeq false <$> traverse canon l ∧ canon (PTuple l) = CSeq true <$> traverse canon l.
Proof.
  cbn [canon].
  assert ((fix canon_list (l : list pyval) : option (list ckey) :=
    match l with
    | [] => Some []
    | x :: l' => match canon x, canon_list l' with Some a, Some b => Some (a :: b) | _, _ => None end
    end) l = traverse canon l) as ->; [|done].
  by induction l as [|x l IH]; simpl; [|rewrite IH].
Qed.

Lemma canon_dict_traverse d :
  canon (PDict d) = (λ d', CDict (sort_items d'))
    <$> traverse (λ kv : string * pyval, (λ c, (kv.1, c)) <$> canon kv.2) d.
Proof.
  cbn [canon]. f_equal. induction d as [|[k v] d IH]; [done|]. cbn. rewrite IH.
  by destruct (canon v).
Qed.

Lemma canon_json v : json_ok v = true → ∃ k, canon v = Some k.
Proof.
  induction v as [| | |f|s|l IH|l IH|d IH|] using pyval_ind'; intros H; try by eexists.
  - destruct f; try done; by eexists.
  - rewrite (proj1 (canon_list_traverse l)).
    destruct (traverse_total canon l) as [ks ->]; [|by eexists].
    eapply Forall_impl; [apply Forall_and; split; [exact IH|apply forallb_True, Is_true_true, H]|].
    intros x [Hx Hok]. apply Hx. by apply Is_true_true.
  - rewrite (proj2 (canon_list_traverse l)).
    destruct (traverse_total canon l) as [ks ->]; [|by eexists].
    eapply Forall_impl; [apply Forall_and; split; [exact IH|apply forallb_True, Is_true_true, H]|].
    intros x [Hx Hok]. apply Hx. by apply Is_true_true.
  - rewrite canon_dict_traverse.
    destruct (traverse_total (λ kv : string * pyval, (λ c, (kv.1, c)) <$> canon kv.2) d)
      as [ks ->]; [|by eexists].
    eapply Forall_impl; [apply Forall_and; split; [exact IH|apply forallb_True, Is_true_true, H]|].
    intros x [Hx Hok]. destruct Hx as [k ->]; [by apply Is_true_true|by eexists].
Qed.

Lemma py_eq_json v : json_ok v = true → py_eq v v = true.
Proof. intros [k E]%canon_json. unfold py_eq. rewrite E. by apply bool_decide_eq_true. Qed.

Lemma map_same {A} (f : A → A) l : Forall (λ x, f x = x) l → map f l = l.
Proof. induction 1 as [|x l Hx _ IH]; [done|]. simpl. by rewrite Hx, IH. Qed.

(** A JSON value holds no sentinel. *)
Lemma replace_json v : json_ok v = true → replace_disputed v = v.
Proof.
  induction v as [| | |f|s|l IH|l IH|d IH|] using pyval_ind'; intros H; try done.
  - simpl. f_equal. apply map_same.
    eapply Forall_impl; [apply Forall_and; split; [exact IH|apply forallb_True, Is_true_true, H]|].
    intros x [Hx Hok]. apply Hx. by apply Is_true_true.
  - simpl. f_equal. apply map_same.
    eapply Forall_impl; [apply Forall_and; split; [exact IH|apply forallb_True, Is_true_true, H]|].
    intros [k x] [Hx Hok]. simpl in *. rewrite Hx; [done|]. by apply Is_true_true.
Qed.

Lemma canon_replace_disputed v : canon (replace_disputed v) ≠ Some CDisputed.
Proof.
  destruct v as [|b|z|f|s|l|l|d|]; simpl; try done.
  - unfold canon_int, canon_pos. by destruct b.
  - unfold canon_int, canon_pos. destruct z; [done|..]; by destruct (strip2 _ _).
  - unfold canon_float, canon_pos. destruct f; try done. by destruct (strip2 _ _).
  - pose proof (proj1 (canon_list_traverse (map replace_disputed l))) as E. simpl in E. rewrite E.
    by destruct (traverse _ _).
  - pose proof (proj2 (canon_list_traverse l)) as E. simpl in E. rewrite E. by destruct (traverse _ _).
  - match goal with |- context [map ?g d] => pose proof (canon_dict_traverse (map g d)) as E end.
    simpl in E. rewrite E. by destruct (traverse _ _).
Qed.

Lemma py_eq_disputed v : py_eq PDisputed (replace_disputed v) = false.
Proof.
  unfold py_eq. pose proof (canon_replace_disputed v) as H.
  destruct (canon (replace_disputed v)); [|done]. simpl. apply bool_decide_eq_false. congruence.
Qed.

Lemma traverse_elem_of {A B} (f : A → option B) l ks y :
  traverse f l = Some ks → y ∈ ks ↔ ∃ x, x ∈ l ∧ f x = Some y.
Proof.
  revert ks. induction l as [|x l IH]; simpl; intros ks E.
  - injection E as <-. split; [by intros ?%elem_of_nil|by intros (x & ?%elem_of_nil & _)].
  - destruct (f x) as [b|] eqn:Ex; [|done]. destruct (traverse f l) as [bs|]; [|done].
    injection E as <-. rewrite elem_of_cons, (IH bs) by done. setoid_rewrite elem_of_cons.
    naive_solver.
Qed.

Lemma dict_neq_disputed d f :
  (f, PDisputed) ∈ d →
  py_eq (PDict d) (PDict (map (λ kv, (kv.1, replace_disputed kv.2)) d)) = false.
Proof.
  intros Hin. unfold py_eq. rewrite !canon_dict_traverse.
  destruct (traverse _ d) as [ks|] eqn:E1; [|done].
  destruct (traverse _ (map _ d)) as [ks'|] eqn:E2; [|done]. simpl.
  apply bool_decide_eq_false. intros [= E].
  assert ((f, CDisputed) ∈ ks') as Hk.
  { apply (elem_of_py_sorted (λ x y : string * ckey, String.leb x.1 y.1)). unfold sort_items in E.
    rewrite <- E. apply elem_of_py_sorted. apply (traverse_elem_of _ _ _ _ E1).
    by exists (f, PDisputed). }
  apply (traverse_elem_of _ _ _ _ E2) in Hk as ([k v] & Hv & Ek).
  apply list_elem_of_In, in_map_iff in Hv as ([k' v'] & [= <- <-] & _). simpl in Ek.
  pose proof (canon_replace_disputed v'). destruct (canon (replace_disputed v')); simpl in *; congruence.
Qed.

Lemma close_refl a : json_ok (PFloat a) = true → VerifyProjectionConsistency.close a a = true.
Proof.
  intros Ha. unfold VerifyProjectionConsistency.close.
  assert (SFabs (SFsub prec emax a a) = S754_zero false) as ->; [|by vm_compute].
  destruct a as [s| | |s m e]; try done; [by destruct s|].
  unfold SFsub. simpl. rewrite Z.sub_diag. done.
Qed.

(** ** Verifying the row of a reprojection *)
Section verify.
Import VerifyProjectionConsistency.

(** A record whose fields are JSON values and sentinels, each sentinel listed as
    unresolved. *)
Definition well_marked (p : ProjectedAccidentRecord) : Prop :=
  json_ok (PFloat (pj_completeness p)) = true ∧ NoDup (pj_fields p).*1
  ∧ Forall (λ kv, kv.2 = PDisputed ∨ json_ok kv.2 = true) (pj_fields p)
  ∧ ∀ f, f ∈ pj_unresolved p ↔ (f, PDisputed) ∈ pj_fields p.

Lemma get_row f p : get f (ProjectionRepo.to_row p) = replace_disputed (get f p).
Proof.
  unfold get, ProjectionRepo.to_row. simpl. induction (pj_fields p) as [|[k v] d IH]; [done|].
  simpl. by destruct (decide (f = k)).
Qed.

Lemma row_keys p : (pj_fields (ProjectionRepo.to_row p)).*1 = (pj_fields p).*1.
Proof. unfold ProjectionRepo.to_row. simpl. rewrite <- list_fmap_compose. by apply list_fmap_ext. Qed.

Lemma get_marked f p : well_marked p → f ∈ (pj_fields p).*1 →
  (f ∈ pj_unresolved p ∧ get f p = PDisputed)
  ∨ ((f ∉ pj_unresolved p) ∧ json_ok (get f p) = true).
Proof.
  intros (_ & Hnd & Hv & Hu) ([k v] & -> & Hin)%list_elem_of_fmap. simpl.
  assert (get k p = v) as Eg by (unfold get; by rewrite (dict_get_NoDup k v)).
  rewrite Forall_forall in Hv. destruct (Hv _ Hin) as [Hd|Hj]; simpl in *.
  - rewrite Hd in *. left. split; [by apply Hu|done].
  - rewrite <- Eg in Hj. right. split; [|done]. rewrite Hu. intros Hin'.
    pose proof (dict_get_NoDup k _ _ Hnd Hin') as E. unfold get in Hj. by rewrite E in Hj.
Qed.

(** Comparing a record with the row it is stored as. *)
Lemma compare_row e p q :
  well_marked p → pj_fields q = pj_fields p → pj_unresolved q = pj_unresolved p →
  pj_completeness q = pj_completeness p →
  let r := compare e (ProjectionRepo.to_row p) q in
  (cr_consistent r = true ↔ pj_unresolved p = [])
  ∧ cr_unresolved_diff r = None ∧ cr_completeness_diff r = None
  ∧ ∀ f d, (f, d) ∈ cr_field_diff r ↔
      f ∈ pj_unresolved p ∧ d = mkFieldDiff (PStr DISPUTED_MARKER) PDisputed.
Proof.
  intros Hp Ef Eu Ec. pose proof Hp as (Hc & Hnd & Hv & Hu). cbv zeta. unfold compare.
  cbn [cr_consistent cr_unresolved_diff cr_completeness_diff cr_field_diff].
  change (pj_unresolved (ProjectionRepo.to_row p)) with (pj_unresolved p).
  change (pj_completeness (ProjectionRepo.to_row p)) with (pj_completeness p).
  rewrite Ef, Eu, Ec.
  rewrite (bool_decide_true (sort_strings _ = _)) by done. rewrite close_refl by done.
  rewrite andb_true_r, andb_true_r.
  assert (py_eq (PDict (pj_fields p))
    (PDict (pj_fields (ProjectionRepo.to_row p)))
    = bool_decide (pj_unresolved p = [])) as ->.
  { cbn [ProjectionRepo.to_row pj_fields]. destruct (decide (pj_unresolved p = [])) as [E|E].
    - rewrite bool_decide_true by done.
      assert (Forall (λ kv, json_ok kv.2 = true) (pj_fields p)) as Hj.
      { apply Forall_forall. intros [k v] Hin. rewrite Forall_forall in Hv.
        destruct (Hv _ Hin) as [Hd|]; [|done]. simpl in Hd. subst v.
        apply Hu in Hin. rewrite E in Hin. by apply elem_of_nil in Hin. }
      rewrite map_same.
      2: { eapply Forall_impl; [exact Hj|]. intros [k v] H. simpl in *. by rewrite replace_json. }
      apply py_eq_json. simpl. apply forallb_forall. intros kv Hin%list_elem_of_In.
      rewrite Forall_forall in Hj. by apply Hj.
    - rewrite bool_decide_false by done. destruct (pj_unresolved p) as [|f l] eqn:El; [done|].
      apply (dict_neq_disputed _ f). apply Hu. by left. }
  split_and!; [apply bool_decide_eq_true|done|done|]. intros f d.
  destruct (decide (pj_unresolved p = [])) as [E|E].
  - rewrite bool_decide_true, E by done. split; [by intros ?%elem_of_nil|by intros [?%elem_of_nil _]].
  - rewrite bool_decide_false by done. unfold field_diff. rewrite list_elem_of_fmap.
    assert (get f q = get f p) as Eq by (unfold get; by rewrite Ef).
    setoid_rewrite list_elem_of_filter. setoid_rewrite elem_of_fromkeys.
    rewrite row_keys, Ef. split.
    + intros (k & [= -> ->] & Hne & Hk). rewrite elem_of_app in Hk.
      assert (k ∈ (pj_fields p).*1) as Hin by tauto.
      rewrite Eq, get_row in *. destruct (get_marked k p Hp Hin) as [[Hk' ->]|[_ Hj]]; [done|].
      rewrite replace_json, py_eq_json in Hne by done. done.
    + intros [Hf ->]. exists f. apply Hu in Hf as Hin.
      assert (f ∈ (pj_fields p).*1) as Hk by (apply list_elem_of_fmap; by exists (f, PDisputed)).
      rewrite Eq, get_row, elem_of_app.
      destruct (get_marked f p Hp Hk) as [[_ ->]|[Hn _]]; [|done]. split_and!; [done| |by left].
      rewrite py_eq_sym. apply (py_eq_disputed PDisputed).
Qed.
End verify.

(** ** The record a reprojection computes is well marked *)
Section candidates.
Import ProjectionBuilder.

Lemma entries_keys (r : string → field_result) names :
  (omap (λ f, field_entry f (r f)) names).*1 `sublist_of` names.
Proof.
  induction names as [|n names IH]; [done|]. simpl. unfold field_entry at 1.
  destruct (r n); simpl; [by apply sublist_skip..|by apply sublist_cons].
Qed.

Lemma build_marked e claims conflicts s v now :
  (∀ c, c ∈ claims → json_ok (c_field_value c) = true) →
  well_marked (build e claims conflicts s v now).
Proof.
  intros Hj.
  assert (∀ kv, kv ∈ pj_fields (build e claims conflicts s v now) →
    kv.2 = PDisputed ∨ json_ok kv.2 = true) as Hv.
  { intros kv [->|(c & Hc & _ & _ & ->)]%build_field_values; auto. }
  split_and!.
  - apply (score_finite (pj_fields (build e claims conflicts s v now))).
  - simpl. eapply sublist_NoDup; [apply (NoDup_all_fields e claims conflicts)|apply entries_keys].
  - by apply Forall_forall.
  - intros f. simpl. rewrite elem_of_sort_strings, list_elem_of_filter, is_disputed_spec,
      list_elem_of_omap. unfold field_entry. split.
    + intros [Hd Hf]. exists f. by rewrite Hd.
    + intros (f' & Hf & E). destruct (result_for e claims conflicts s f') as [|v'|] eqn:Er; [| |done].
      * injection E as <-. done.
      * injection E as -> ->. apply result_for_value in Er as (c & Hc & Ec).
        apply live_active in Hc as [Hc _]. apply Hj in Hc. by rewrite <- Ec in Hc.
Qed.

Lemma candidate_marked db e v now :
  (∀ c, c ∈ ClaimRepo.active_by_event e db → json_ok (c_field_value c) = true) →
  well_marked (candidate db e v now).
Proof.
  intros Hj. assert (well_marked (built db e v now)) as Hb by (by apply build_marked).
  unfold candidate. destruct (db_events db !! e) as [x|]; [|done]. destruct (is_merged x); [|done].
  split_and!; [done| |by repeat constructor; right|].
  - simpl. repeat constructor; set_solver.
  - intros f. simpl. split; [by intros ?%elem_of_nil|]. intros H. set_solver.
Qed.

(** Neither version nor clock changes what a record says. *)
Lemma candidate_same db e v t v' t' :
  pj_fields (candidate db e v t) = pj_fields (candidate db e v' t')
  ∧ pj_unresolved (candidate db e v t) = pj_unresolved (candidate db e v' t')
  ∧ pj_completeness (candidate db e v t) = pj_completeness (candidate db e v' t').
Proof. unfold candidate. destruct (db_events db !! e) as [x|]; [|done]. by destruct (is_merged x). Qed.
End candidates.

Lemma recompute_quiet e stored w : quiet w →
  ∃ now w', VerifyProjectionConsistency.recompute e (db_events (w_db w) !! e) stored w
    = (Ok (candidate (w_db w) e (pj_version stored) now), w')
    ∧ quiet w' ∧ w_db w' = w_db w ∧ w_committed w' = w_committed w.
Proof.
  intros Hq. exists (w_now w), (tick w). split; [|done].
  assert (VerifyProjectionConsistency.recompute_live e stored w
    = (Ok (built (w_db w) e (pj_version stored) (w_now w)), tick w)) as El.
  { destruct w as [db com env now uid]. unfold quiet in Hq. simpl in Hq. subst env.
    unfold VerifyProjectionConsistency.recompute_live, ClaimRepo.find_active_by_event,
      ConflictRepo.find_by_event, query, stmt. unfold built, sources_of, mbind, M_bind. simpl.
    case_bool_decide as Hs; [rewrite Hs; reflexivity|].
    unfold SourceRepo.get_by_ids. rewrite (fromkeys_NoDup (dict_fromkeys _)) by
      apply NoDup_fromkeys. reflexivity. }
  unfold VerifyProjectionConsistency.recompute, candidate.
  destruct (db_events (w_db w) !! e) as [x|]; [|done]. by destruct (is_merged x).
Qed.

(** ** The rebuild *)
Section rebuild.
Context `{Hashlib} (str_exn : exn → string).
Import RebuildAllProjections.
Implicit Types r : RebuildAllResult.

Definition attempted r : Z := ra_processed r + ra_skipped r.

(** A reprojection leaves the events alone. *)
Lemma reproject_events (I : gmap UUID AccidentEvent → Prop) e cause cm force :
  Inv (λ db, I (db_events db)) (ReProjectEvent.execute e cause cm force).
Proof.
  unfold ReProjectEvent.execute, ReProjectEvent.rebuild_tombstone, ReProjectEvent.answer_existing,
    ReProjectEvent.rebuild, ReProjectEvent.restore_projection_from_history,
    ReProjectEvent.persist_projection, ReProjectEvent.write_projection, ReProjectEvent.commit_if,
    EventRepo.lock_for_reprojection, EventRepo.get, ProjectionRepo.get, ProjectionRepo.upsert,
    ProjectionHistoryRepo.find_by_outbox_event, ClaimRepo.find_active_by_event,
    ConflictRepo.find_by_event, SourceRepo.get_by_ids, ProjectionHistoryRepo.add.
  repeat inv_step; try (by apply Inv_exec).
  all: apply Inv_stmt; intros db x db' Hdb; case_match; [done|]; by intros [= _ <-].
Qed.

Lemma attempt_event_spec I event_id r w : winv (λ db, I (db_events db)) w →
  ∃ r' w', attempt_event str_exn event_id r w = (Ok r', w') ∧ winv (λ db, I (db_events db)) w'
    ∧ (r' = one_processed r ∨ ∃ exc, r' = one_skipped str_exn event_id exc r).
Proof.
  intros Hw. pose proof (reproject_events I event_id no_cause true false w Hw) as Hi.
  unfold attempt_event, catch, mbind, M_bind.
  destruct (ReProjectEvent.execute _ _ _ _ w) as [[p|exc] w1]; simpl in *.
  - exists (one_processed r), w1. eauto.
  - exists (one_skipped str_exn event_id exc r), (rollback_world w1).
    split_and!; [done|by apply winv_rollback|eauto].
Qed.

Lemma attempt_all_spec I ids r w : winv (λ db, I (db_events db)) w →
  ∃ r' w' failed, attempt_all str_exn ids r w = (Ok r', w') ∧ winv (λ db, I (db_events db)) w'
    ∧ attempted r' = attempted r + Z.of_nat (length ids)
    ∧ ra_failed_event_ids r' = ra_failed_event_ids r ++ failed ∧ failed `sublist_of` ids
    ∧ ra_skipped r' = ra_skipped r + Z.of_nat (length failed)
    ∧ (length (ra_errors r') = length (ra_errors r) + length failed)%nat.
Proof.
  revert r w. induction ids as [|id ids IH]; intros r w Hw.
  - exists r, w, []. simpl. rewrite app_nil_r. split_and!; try done; lia.
  - destruct (attempt_event_spec I id r w Hw) as (r1 & w1 & E1 & Hw1 & Hr1).
    destruct (IH r1 w1 Hw1) as (r2 & w2 & failed & E2 & Hw2 & Hn & Hf & Hsub & Hs & He).
    simpl. rewrite (runs_bind _ _ _ _ _ _ E1 E2). exists r2, w2.
    destruct Hr1 as [->|[exc ->]]; [exists failed|exists (id :: failed)]; unfold attempted in *;
      simpl in *; rewrite ?length_app in He; simpl in He; rewrite <- ?app_assoc in Hf.
    + split_and!; try done; [lia|by apply sublist_cons].
    + split_and!; try done; [lia|by apply sublist_skip|lia..].
Qed.

Lemma elem_of_ids_after last_id ids id :
  id ∈ ids_after last_id ids ↔ id ∈ ids ∧ (∀ a, last_id = Some a → (a < id)%N).
Proof.
  unfold ids_after. destruct last_id as [a|]; [|naive_solver].
  rewrite list_elem_of_filter. naive_solver.
Qed.

Lemma ids_after_after last_id ids id : id ∈ ids_after last_id ids →
  ids_after (Some id) ids = ids_after (Some id) (ids_after last_id ids).
Proof.
  intros [_ Hlt]%elem_of_ids_after. unfold ids_after. destruct last_id as [a|]; [|done].
  rewrite list_filter_filter. apply list_filter_iff. intros i. specialize (Hlt a eq_refl). lia.
Qed.

Lemma ids_after_shorter last_id ids id : id ∈ ids_after last_id ids →
  (length (ids_after (Some id) ids) < length (ids_after last_id ids))%nat.
Proof.
  intros Hid. rewrite (ids_after_after last_id) by done. apply (length_filter_lt _ _ id); [done|lia].
Qed.

(** Every batch moves the cursor past at least one event of the finite set that all
    events belong to. *)
Lemma scan_ends batch_size max_events (S : gset UUID) fuel last_id r w :
  1 ≤ batch_size → winv (λ db, dom (db_events db) ⊆ S) w →
  (length (ids_after last_id (elements S)) < fuel)%nat →
  ∃ r' w', scan str_exn batch_size max_events fuel last_id r w = (Ok (Some r'), w').
Proof.
  intros Hb. revert last_id r w. induction fuel as [|fuel IH]; [lia|]. intros last_id r w Hw Hf.
  cbn [scan]. destruct (match remaining max_events r with Some n => n <=? 0 | None => false end);
    [by eexists _, _|].
  unfold mbind at 1, M_bind, list_ids_after_keyset, query, stmt.
  apply winv_env_step in Hw as Hw1. set (w1 := env_step w) in *.
  set (ids := py_sorted N.leb _). cbv zeta. replace (set_db (w_db w1) w1) with w1 by (by destruct w1).
  destruct (last (take _ ids)) as [id|] eqn:El; [|by eexists _, _].
  destruct (attempt_all_spec (λ m, dom m ⊆ S) (take (Z.to_nat (batch_limit batch_size max_events r)) ids)
    r w1 Hw1) as (r' & w2 & _ & E & Hw2 & _).
  rewrite (runs_bind _ _ _ _ _ _ E eq_refl). apply IH; [done|].
  apply last_Some_elem_of in El. apply elem_of_take in El as (i & Hi & _).
  apply list_elem_of_lookup_2 in Hi. unfold ids in Hi. rewrite elem_of_py_sorted in Hi.
  destruct Hw1 as [Hdom _]. eapply Nat.lt_le_trans; [|apply Nat.lt_succ_r, Hf].
  apply ids_after_shorter, elem_of_ids_after. apply elem_of_ids_after in Hi as [Hi Hlt].
  split; [|done]. apply elem_of_elements, Hdom. apply elem_of_dom.
  apply list_elem_of_fmap in Hi as ([k x] & -> & Hx%elem_of_map_to_list). by exists x.
Qed.

(** *** In a run without interference the batches do not matter *)
Lemma attempt_all_app l1 l2 r w :
  attempt_all str_exn (l1 ++ l2) r w
  = (r' ← attempt_all str_exn l1 r; attempt_all str_exn l2 r') w.
Proof.
  revert r w. induction l1 as [|id l1 IH]; intros r w; [done|]. simpl. unfold mbind, M_bind in *.
  destruct (attempt_event str_exn id r w) as [[r'|e] w']; [|done]. by rewrite IH.
Qed.

Lemma attempt_event_quiet event_id r w : quiet w → quiet (attempt_event str_exn event_id r w).2.
Proof.
  intros Hq. unfold attempt_event, catch, mbind, M_bind.
  destruct (ReProjectEvent.execute _ _ _ _ w) as [[p|exc] w1] eqn:E; simpl.
  - by apply execute_reprojected in E as [Hq1 _].
  - apply execute_CommitLast in E as ((fs & Ef & _) & _). unfold quiet in *. simpl.
    rewrite Hq in Ef. by destruct fs.
Qed.

Lemma attempt_all_quiet ids r w : quiet w → quiet (attempt_all str_exn ids r w).2.
Proof.
  revert r w. induction ids as [|id ids IH]; intros r w Hq; [done|]. simpl.
  pose proof (attempt_event_quiet id r w Hq) as Hq1. unfold mbind, M_bind.
  destruct (attempt_event str_exn id r w) as [[r1|e] w1]; [by apply IH|done].
Qed.

Definition up_to (n : option Z) (ids : list UUID) : list UUID :=
  match n with None => ids | Some n => take (Z.to_nat n) ids end.

Lemma rest_after last_id ids pre id post :
  NoDup ids → py_sorted N.leb (ids_after last_id ids) = pre ++ id :: post →
  py_sorted N.leb (ids_after (Some id) ids) = post.
Proof.
  intros Hnd E. assert (id ∈ ids_after last_id ids) as Hid.
  { apply (elem_of_py_sorted N.leb). rewrite E. set_solver. }
  rewrite (ids_after_after last_id) by done. unfold ids_after at 1.
  eapply (sorted_after N.leb); [..|exact E].
  - intros x y. rewrite !N.leb_le. lia.
  - intros x y z. rewrite !N.leb_le. lia.
  - unfold ids_after. destruct last_id; [by apply NoDup_filter|done].
  - intros x y _ _. rewrite !N.leb_le. lia.
  - intros x _. rewrite N.leb_le. lia.
Qed.

Lemma scan_quiet batch_size max_events m fuel last_id r w :
  1 ≤ batch_size → quiet w → winv (λ db, db_events db = m) w →
  let rest := py_sorted N.leb (ids_after last_id (map_to_list m).*1) in
  (length rest < fuel)%nat →
  scan str_exn batch_size max_events fuel last_id r w
  = (r' ← attempt_all str_exn (up_to (remaining max_events r) rest) r; mret (Some r')) w.
Proof.
  intros Hb. revert last_id r w. induction fuel as [|fuel IH]; [simpl; lia|].
  intros last_id r w Hq Hw rest Hf. cbn [scan].
  destruct (match remaining max_events r with Some n => n <=? 0 | None => false end) eqn:En.
  { destruct (remaining max_events r) as [n|]; [|done]. simpl. by replace (Z.to_nat n) with O by lia. }
  pose proof Hw as (Hm & _ & _). unfold list_ids_after_keyset.
  eapply runs_bind; [by apply query_quiet|]. rewrite Hm. fold rest.
  set (k := batch_limit batch_size max_events r).
  destruct (last (take (Z.to_nat k) rest)) as [id|] eqn:El.
  2: { apply last_None in El. assert (rest = []) as ->.
       { apply (f_equal length) in El. rewrite length_take in El. simpl in El.
         destruct rest; [done|]. simpl in El. unfold k, batch_limit in El.
         destruct (remaining max_events r); simpl in *; lia. }
       unfold up_to. destruct (remaining max_events r); [by rewrite take_nil|done]. }
  apply last_Some in El as [pre Epre]. set (batch := take (Z.to_nat k) rest) in *.
  assert (rest = batch ++ drop (Z.to_nat k) rest) as Erest by (symmetry; apply take_drop).
  assert (py_sorted N.leb (ids_after (Some id) (map_to_list m).*1) = drop (Z.to_nat k) rest) as Epost.
  { apply (rest_after last_id _ pre); [apply NoDup_fst_map_to_list|].
    fold rest. rewrite Erest at 1. by rewrite Epre, <- app_assoc. }
  destruct (attempt_all_spec (λ m', m' = m) batch r w Hw) as (r' & w1 & _ & E & Hw1 & Hn & _).
  rewrite (runs_bind _ _ _ _ _ _ E eq_refl).
  pose proof (attempt_all_quiet batch r w Hq) as Hq1. rewrite E in Hq1.
  rewrite IH; [|done|done|rewrite Epost; assert (length batch ≠ 0%nat) by (rewrite Epre, length_app;
    simpl; lia); apply (f_equal length) in Erest; rewrite length_app in Erest; lia].
  rewrite Epost. assert (up_to (remaining max_events r) rest
    = batch ++ up_to (remaining max_events r') (drop (Z.to_nat k) rest)) as ->.
  { unfold remaining, k, batch_limit, up_to in *. unfold attempted in Hn.
    destruct max_events as [n|]; simpl in *; [|done].
    rewrite Erest at 1. assert (length batch ≤ Z.to_nat (Z.min batch_size
      (n - (ra_processed r + ra_skipped r))))%nat by (subst batch; rewrite length_take; lia).
    rewrite take_app_ge by lia. do 2 f_equal. lia. }
  unfold mbind, M_bind in *. rewrite attempt_all_app. unfold mbind, M_bind. by rewrite E.
Qed.
End rebuild.

Lemma up_to_sublist n ids : up_to n ids `sublist_of` ids.
Proof. destruct n; [apply sublist_take|done]. Qed.

Lemma up_to_NoDup {A} n (m : gmap UUID A) : NoDup (up_to n (py_sorted N.leb (map_to_list m).*1)).
Proof.
  eapply sublist_NoDup; [|apply up_to_sublist]. rewrite py_sorted_perm. apply NoDup_fst_map_to_list.
Qed.

Lemma up_to_known {A} n (m : gmap UUID A) e :
  e ∈ up_to n (py_sorted N.leb (map_to_list m).*1) → m !! e ≠ None.
Proof.
  intros He. eapply elem_of_submseteq in He; [|apply sublist_submseteq, up_to_sublist].
  apply elem_of_py_sorted, list_elem_of_fmap in He as ([k x] & -> & Hx%elem_of_map_to_list).
  simpl. congruence.
Qed.

(** ** A rebuild of healthy tables *)
Section healthy.
Context `{Hashlib} (str_exn : exn → string).
Import RebuildAllProjections.

(** Nothing in the tables makes a reprojection fail. *)
Record healthy (db : DB) : Prop := {
  hl_versions : versions_ok db;
  hl_claims : ∀ e c, c ∈ ClaimRepo.active_by_event e db → storable (c_field_value c);
  hl_rows : ∀ e p, db_projections db !! e = Some p → row_storable p;
}.

Lemma row_storable_row p : row_storable p → row_storable (ProjectionRepo.to_row p).
Proof.
  intros [Hf Hc]. split; [|done]. unfold ProjectionRepo.to_row. simpl.
  apply Forall_map. eapply Forall_impl; [exact Hf|]. intros [k v] Hv. simpl in *.
  unfold storable in *. by rewrite replace_json.
Qed.

Lemma persisted_rows p cur cause force db dto db' e' q :
  persisted p cur cause force db dto db' →
  db_projections db' !! e' = Some q →
  db_projections db !! e' = Some q ∨ q = ProjectionRepo.to_row p.
Proof.
  intros [c h _ _ _ _|h row _ _ _ _] Hl; [by left|]. simpl in Hl.
  apply lookup_insert_Some in Hl as [[_ <-]|[_ Hl]]; [by right|by left].
Qed.

(** Only the read model and its history differ. *)
Definition same_inputs (db db' : DB) : Prop :=
  db' = upd_projection_history (λ _, db_projection_history db')
          (upd_projections (λ _, db_projections db') db).

Lemma same_inputs_trans db1 db2 db3 : same_inputs db1 db2 → same_inputs db2 db3 → same_inputs db1 db3.
Proof. unfold same_inputs. intros H1 H2. rewrite H2, H1. done. Qed.

Lemma current_kept db db' e : same_inputs db db' →
  db_projections db' !! e = db_projections db !! e → current db e → current db' e.
Proof. unfold current. intros -> ->. by rewrite candidate_stored. Qed.

(** An attempt in a session with nothing uncommitted: it commits the rebuilt row, or
    leaves everything as it was. *)
Lemma attempt_event_clean e r w : quiet w → w_committed w = w_db w →
  ∃ r' w', attempt_event str_exn e r w = (Ok r', w') ∧ quiet w' ∧ w_committed w' = w_db w'
    ∧ same_inputs (w_db w) (w_db w')
    ∧ (∀ e', e' ≠ e → db_projections (w_db w') !! e' = db_projections (w_db w) !! e')
    ∧ (r' = one_processed r ∧ current (w_db w') e
       ∨ (∃ exc, r' = one_skipped str_exn e exc r) ∧ w_db w' = w_db w).
Proof.
  intros Hq Hc. pose proof (attempt_event_quiet str_exn e r w Hq) as Hq'.
  unfold attempt_event, catch, mbind, M_bind in *.
  destruct (ReProjectEvent.execute e no_cause true false w) as [[dto|exc] w1] eqn:E; simpl in *.
  - destruct (reproject_rows e no_cause true false w dto w1 Hq eq_refl E)
      as ((row & Hrow & _ & Hh) & Ho & Hd & Hpub).
    exists (one_processed r), w1. split_and!; try done. left. split; [done|].
    exists row. split; [done|]. by rewrite Hh, Hd.
  - apply execute_CommitLast in E as ((fs & Ef & Ec) & _).
    assert (w_committed w1 = w_committed w) as Ec'.
    { unfold quiet in Hq. rewrite Hq in Ef. by destruct fs. }
    exists (one_skipped str_exn e exc r), (rollback_world w1). simpl. rewrite Ec', Hc.
    split_and!; try done; [by destruct (w_db w)|right]. split; [by exists exc|done].
Qed.

(** Each event on its own: its row is current in the committed tables, or it is among
    the failed ones and its row is as before. *)
Lemma attempt_all_clean ids r w :
  quiet w → w_committed w = w_db w → NoDup ids →
  ∃ r' w' failed, attempt_all str_exn ids r w = (Ok r', w') ∧ quiet w' ∧ w_committed w' = w_db w'
    ∧ same_inputs (w_db w) (w_db w')
    ∧ ra_failed_event_ids r' = ra_failed_event_ids r ++ failed ∧ failed `sublist_of` ids
    ∧ (∀ e, e ∉ ids ∨ e ∈ failed → db_projections (w_db w') !! e = db_projections (w_db w) !! e)
    ∧ ∀ e, e ∈ ids → e ∉ failed → current (w_db w') e.
Proof.
  revert r w. induction ids as [|id ids IH]; intros r w Hq Hc Hnd.
  { exists r, w, []. rewrite app_nil_r. split_and!; first [done|by destruct (w_db w)|by intros e ?%elem_of_nil]. }
  apply NoDup_cons in Hnd as [Hid Hnd].
  destruct (attempt_event_clean id r w Hq Hc) as (r1 & w1 & E1 & Hq1 & Hc1 & Hs1 & Ho1 & H1).
  destruct (IH r1 w1 Hq1 Hc1 Hnd) as (r' & w' & failed & E & Hq' & Hc' & Hs & Hf & Hsub & Ho & Hcur).
  assert (id ∉ failed) as Hidf by (intros Hin; eapply elem_of_submseteq in Hin; [|by apply sublist_submseteq]; done).
  simpl. rewrite (runs_bind _ _ _ _ _ _ E1 E).
  destruct H1 as [[-> Hid1]|[[exc ->] Hd1]].
  - exists r', w', failed. split_and!; [done..|by eapply same_inputs_trans|done|by apply sublist_cons| |].
    + intros e [[Hne He]%not_elem_of_cons|He]; rewrite Ho; auto.
      apply Ho1. by intros ->.
    + intros e [->|He]%elem_of_cons Hn; [|by apply Hcur].
      eapply current_kept; [exact Hs| |exact Hid1]. by apply Ho; left.
  - exists r', w', (id :: failed). simpl in Hf. rewrite <- app_assoc in Hf.
    split_and!; [done..|by eapply same_inputs_trans|done|by apply sublist_skip| |].
    + intros e He. rewrite <- Hd1. apply Ho. rewrite not_elem_of_cons, elem_of_cons in He.
      destruct He as [[_ ?]|[->|?]]; auto.
    + intros e He [Hne Hn]%not_elem_of_cons. apply Hcur; [|done]. by apply elem_of_cons in He as [->|?].
Qed.

Lemma attempt_healthy e r w : quiet w → healthy (w_db w) → db_events (w_db w) !! e ≠ None →
  ∃ w', attempt_event str_exn e r w = (Ok (one_processed r), w') ∧ quiet w' ∧ healthy (w_db w')
    ∧ same_inputs (w_db w) (w_db w').
Proof.
  intros Hq [Hv Hc Hr] He.
  destruct (reproject_total e no_cause true false w) as (dto & w' & E & Hv');
    [done|done|by left|by apply Hc|by apply Hr|simpl; lia|by intros h ?%elem_of_nil|].
  exists w'. unfold attempt_event, catch, mbind, M_bind. rewrite E. split; [done|].
  destruct (execute_persisted e no_cause true false w dto w' Hq eq_refl E) as (Hq' & Hp & _).
  destruct (reproject_rows e no_cause true false w dto w' Hq eq_refl E) as (_ & _ & Hd & _).
  split; [done|]. split; [|done].
  constructor; [done|by rewrite Hd|]. intros e' p' Hp'.
  destruct (persisted_rows _ _ _ _ _ _ _ e' p' Hp Hp') as [Hold| ->]; [by eapply Hr|].
  apply row_storable_row, candidate_storable, Hc.
Qed.

Lemma attempt_all_healthy ids r w :
  quiet w → healthy (w_db w) → (∀ e, e ∈ ids → db_events (w_db w) !! e ≠ None) →
  ∃ r' w', attempt_all str_exn ids r w = (Ok r', w') ∧ ra_failed_event_ids r' = ra_failed_event_ids r.
Proof.
  revert r w. induction ids as [|id ids IH]; intros r w Hq Hh Hids; [by exists r, w|].
  destruct (attempt_healthy id r w) as (w1 & E1 & Hq1 & Hh1 & Hd1); [done|done|apply Hids; by left|].
  destruct (IH (one_processed r) w1) as (r' & w' & E & Hf); [done..| |].
  { intros e He. rewrite Hd1. apply Hids. by right. }
  exists r', w'. simpl. by rewrite (runs_bind _ _ _ _ _ _ E1 E).
Qed.
End healthy.

(** C3: The rebuild never stops for an event it cannot reproject, and it ends.
    Whatever other transactions do, as long as the events they add stay within some
    finite set, more batches than that set has members are never needed.  Run alone, in
    a session with nothing uncommitted, it does the same as attempting the events one by
    one in the order of their ids, up to [max_events], whatever the batch size: each is
    attempted exactly once, the failed ones are reported, and processed and skipped add
    up.  Everything it did is then committed: the stored row of each attempted event that
    is not reported failed says what its claims say, the rows of the failed events and of
    all others are as before, and nothing but the read model and its history differs.  In
    healthy tables none fails. *)
Theorem rebuild_all_effect `{Hashlib} str_exn batch_size max_events (S : gset UUID) fuel w :
  1 ≤ batch_size → winv (λ db, dom (db_events db) ⊆ S) w → (size S < fuel)%nat →
  (∃ r w', RebuildAllProjections.execute str_exn batch_size max_events fuel w = (Ok (Some r), w'))
  ∧ (quiet w → w_committed w = w_db w →
     let ids := up_to max_events (py_sorted N.leb (map_to_list (db_events (w_db w))).*1) in
     ∃ r w', RebuildAllProjections.execute str_exn batch_size max_events fuel w = (Ok (Some r), w')
       ∧ RebuildAllProjections.attempt_all str_exn ids (mkRebuildAll 0 0 [] []) w = (Ok r, w')
       ∧ ra_processed r + ra_skipped r = Z.of_nat (length ids)
       ∧ ra_failed_event_ids r `sublist_of` ids
       ∧ ra_skipped r = Z.of_nat (length (ra_failed_event_ids r))
       ∧ length (ra_errors r) = length (ra_failed_event_ids r)
       ∧ same_inputs (w_committed w) (w_committed w')
       ∧ (∀ e, e ∈ ids → e ∉ ra_failed_event_ids r → current (w_committed w') e)
       ∧ (∀ e, e ∉ ids ∨ e ∈ ra_failed_event_ids r →
            db_projections (w_committed w') !! e = db_projections (w_committed w) !! e)
       ∧ (healthy (w_committed w) → ra_failed_event_ids r = [])).
Proof.
  intros Hb Hw Hf. unfold RebuildAllProjections.execute.
  destruct (Z.ltb_spec batch_size 1); [lia|]. split.
  { by apply (scan_ends _ _ _ S). }
  intros Hq Hc. set (m := db_events (w_db w)) in *. set (ids := up_to max_events _).
  assert (winv (λ db, db_events db = m) w) as Hm.
  { split_and!; [done|by rewrite Hc|]. rewrite Hq. constructor. }
  destruct (attempt_all_spec str_exn (λ m', m' = m) ids (mkRebuildAll 0 0 [] []) w Hm)
    as (r & w' & failed & E & _ & Hn & Hfail & Hsub & Hs & He). simpl in *. subst failed.
  destruct (attempt_all_clean str_exn ids (mkRebuildAll 0 0 [] []) w)
    as (r1 & w1 & failed & E1 & _ & Hc1 & Hsame & Hf1 & _ & Ho & Hcur); [done|done|apply up_to_NoDup|].
  rewrite E in E1. injection E1 as <- <-. simpl in Hf1. subst failed.
  exists r, w'. rewrite Hc1, Hc. split_and!; [|done..|].
  2: { intros Hh. destruct (attempt_all_healthy str_exn ids (mkRebuildAll 0 0 [] []) w)
         as (r2 & w2 & E2 & Hf2); [done|done|by apply up_to_known|].
       rewrite E in E2. by injection E2 as <- <-. }
  assert (size m ≤ size S)%nat.
  { destruct Hw as [Hd _]. apply subseteq_size in Hd. by rewrite size_dom in Hd. }
  rewrite (scan_quiet _ _ _ m);
    [|done..|simpl; rewrite length_py_sorted, length_fmap, length_map_to_list; lia].
  eapply runs_bind; [|reflexivity]. rewrite <- E. unfold ids, RebuildAllProjections.remaining.
  by destruct max_events as [n|]; simpl; [rewrite Z.sub_0_r|].
Qed.

(** verifying a projection right after it was written.  When a reprojection has
    written the row of an event (it had none, or a rewrite was forced), verification
    finds the conflict fields and the score as recomputed, and exactly the disputed
    fields different: the stored marker is compared with the sentinel.  So the event
    is reported consistent exactly when no field is disputed.  Verifying changes
    nothing. *)
Theorem verify_after_reproject `{Hashlib} e cause cm force w dto w' :
  quiet w → outbox_rows (w_db w) cause = [] →
  (force = true ∨ db_projections (w_db w) !! e = None) →
  (∀ c, c ∈ ClaimRepo.active_by_event e (w_db w) → json_ok (c_field_value c) = true) →
  ReProjectEvent.execute e cause cm force w = (Ok dto, w') →
  ∃ report w'', VerifyProjectionConsistency.execute e w' = (Ok (Some report), w'')
    ∧ w_db w'' = w_db w' ∧ w_committed w'' = w_committed w'
    ∧ (cr_consistent report = true ↔ pj_unresolved dto = [])
    ∧ cr_unresolved_diff report = None ∧ cr_completeness_diff report = None
    ∧ ∀ f d, (f, d) ∈ cr_field_diff report ↔
        f ∈ pj_unresolved dto ∧ d = mkFieldDiff (PStr DISPUTED_MARKER) PDisputed.
Proof.
  intros Hq Ho Hw Hj [Hq' E]%execute_reprojected; [|done].
  remember (w_db w') as dbf eqn:Ef.
  destruct E as [h p Ho' _ _|h now Ho' _ _ _|cause' now dto db' _ _ Hp]; [congruence|congruence|].
  remember (candidate (w_db w) e _ now) as p eqn:Ep.
  destruct Hp as [c h Hc Hf _ _|h row _ _ _ _]; [destruct Hw; congruence|].
  assert (pj_event_id p = e) as He by (subst p; apply candidate_event). rewrite He in Ef.
  destruct (recompute_quiet e (ProjectionRepo.to_row p) w' Hq') as (now' & w'' & Er & _ & Hd & Hc).
  rewrite <- Ef, candidate_stored in Er. exists (VerifyProjectionConsistency.compare e
    (ProjectionRepo.to_row p) (candidate (w_db w) e (pj_version p) now')), w''.
  assert (db_projections (w_db w') !! e = Some (ProjectionRepo.to_row p)) as Hrow.
  { rewrite <- Ef. simpl. apply lookup_insert_eq. }
  split.
  { unfold VerifyProjectionConsistency.execute, EventRepo.get, ProjectionRepo.get.
    eapply runs_bind; [by apply query_quiet|]. eapply runs_bind; [by apply query_quiet|].
    rewrite Hrow, <- Ef. eapply runs_bind; [exact Er|reflexivity]. }
  assert (pj_fields (candidate (w_db w) e (pj_version p) now') = pj_fields p
    ∧ pj_unresolved (candidate (w_db w) e (pj_version p) now') = pj_unresolved p
    ∧ pj_completeness (candidate (w_db w) e (pj_version p) now') = pj_completeness p)
    as (E1 & E2 & E3) by (rewrite Ep; apply candidate_same).
  split; [congruence|]. split; [done|]. refine (compare_row e p _ _ E1 E2 E3).
  rewrite Ep. by apply candidate_marked.
Qed.

(** ** Examples and witnesses *)
Definition no_text : exn → string := λ _, "error".

Lemma sample_json c : c ∈ ClaimRepo.active_by_event 1 sample_live_db → json_ok (c_field_value c) = true.
Proof.
  intros [_ (k & Hc)%elem_of_rows]%list_elem_of_filter.
  apply elem_of_list_to_map_2, list_elem_of_In in Hc. vm_compute in Hc.
  repeat (destruct Hc as [[= _ <-]|Hc]; [reflexivity|]). destruct Hc.
Qed.

Lemma sample_healthy : healthy sample_live_db.
Proof.
  constructor; [by intros r ?%elem_of_nil| |].
  - intros e c [_ (k & Hc)%elem_of_rows]%list_elem_of_filter.
    apply elem_of_list_to_map_2, list_elem_of_In in Hc. vm_compute in Hc.
    repeat (destruct Hc as [[= _ <-]|Hc]; [reflexivity|]). destruct Hc.
  - intros e p. change (db_projections sample_live_db) with (∅ : gmap UUID ProjectedAccidentRecord).
    by rewrite lookup_empty.
Qed.

Definition sample_rebuild := RebuildAllProjections.execute (H := sample_hashlib) no_text 1 None 3.

(** Two events, one at a time: both are projected and current. *)
Lemma rebuild_all_effect_witness :
  ∃ r w', sample_rebuild (world_of sample_live_db) = (Ok (Some r), w')
    ∧ ra_processed r + ra_skipped r = 2 ∧ ra_failed_event_ids r = []
    ∧ current (H := sample_hashlib) (w_committed w') 2.
Proof.
  destruct (rebuild_all_effect (H := sample_hashlib) no_text 1 None {[1%N; 2%N]} 3
    (world_of sample_live_db)) as [_ Hr].
  - lia.
  - split_and!; [vm_compute; set_solver..|constructor].
  - vm_compute. lia.
  - destruct (Hr eq_refl eq_refl) as (r & w' & E & _ & Hn & _ & _ & _ & _ & Hcur & _ & Hh).
    pose proof (Hh sample_healthy) as Hf. exists r, w'. split; [exact E|]. split; [exact Hn|].
    split; [exact Hf|]. apply Hcur; [vm_compute; right; left|]. rewrite Hf. apply not_elem_of_nil.
Defined.

(** The location is disputed: the row just written is reported inconsistent. *)
Lemma verify_after_reproject_witness :
  ∃ dto w' report w'',
    ReProjectEvent.execute (H := sample_hashlib) 1 sample_cause true true (world_of sample_live_db)
      = (Ok dto, w')
    ∧ VerifyProjectionConsistency.execute 1 w' = (Ok (Some report), w'')
    ∧ cr_consistent report = false.
Proof.
  eexists _, _.
  destruct (verify_after_reproject (H := sample_hashlib) 1 sample_cause true true
    (world_of sample_live_db) _ _ eq_refl eq_refl (or_introl eq_refl) sample_json
    ltac:(vm_compute; reflexivity)) as (report & w'' & E & _ & _ & Hc & _).
  exists report, w''. split; [vm_compute; reflexivity|]. split; [exact E|].
  apply not_true_is_false. intros Hr%Hc. discriminate Hr.
Defined.
