(* ===== verification/PyRe.v ===== *)
(** Python's [re]: a backtracking matcher for the patterns the code uses, its
    declarative meaning, and [finditer] and [sub] on top of it.  Models the language.

    A match is tried at every position from the left; quantifiers are greedy and give
    back one character at a time; [\b], look-behind of one character and negative
    look-ahead see the text around the match.  None of the patterns matches the empty
    text, so empty matches do not occur. *)
From Stdlib Require Import Ascii.
From S2P Require Import Prelude Text.
Open Scope list_scope.

Inductive re :=
  | Cls (p : ascii → bool) (lo : nat) (hi : option nat)   (* [p]{lo,hi} *)
  | Seq (r1 r2 : re)
  | Alt (r1 r2 : re)
  | Opt (r : re)                                          (* (?:r)? *)
  | Grp (n : nat) (r : re)                                (* (r), the n-th group *)
  | Bound                                                 (* \b *)
  | NotBehind (p : ascii → bool)                          (* (?<!p) *)
  | NotAhead (r : re).                                    (* (?!r) *)

(** [\w]: letters, digits and numerals of Latin-1, and the underscore. *)
Definition is_word (c : ascii) : bool :=
  let n := code c in
  is_digit c || is_ascii_upper c || is_ascii_lower c || (n =? 95)%N
  || (n =? 170)%N || (n =? 178)%N || (n =? 179)%N || (n =? 181)%N || (n =? 185)%N
  || (n =? 186)%N || ((188 <=? n) && (n <=? 190))%N
  || ((192 <=? n)%N && negb (n =? 215)%N && negb (n =? 247)%N).

Definition head_word (l : list ascii) : bool :=
  match l with c :: _ => is_word c | [] => false end.

(** [prev] is the text before the position, reversed. *)
Definition at_bound (prev rest : list ascii) : bool := xorb (head_word prev) (head_word rest).

(** ** The matcher *)
Definition groups : Type := list (nat * list ascii).
Definition found : Type := list ascii * groups.   (* the text after the match *)

(** The longest run of [p] at the head, at most [hi]. *)
Fixpoint run_length (p : ascii → bool) (hi : option nat) (l : list ascii) : nat :=
  match hi with
  | Some O => O
  | _ => match l with
         | c :: l' => if p c then S (run_length p (pred <$> hi) l') else O
         | [] => O
         end
  end.

(** [n], then shorter and shorter, down to [lo]. *)
Fixpoint give_back (lo n : nat) (try : nat → option found) : option found :=
  if bool_decide (n < lo)%nat then None
  else match try n with
       | Some r => Some r
       | None => match n with O => None | S n' => give_back lo n' try end
       end.

Fixpoint match_re (r : re) (k : list ascii → list ascii → groups → option found)
    (prev rest : list ascii) (gs : groups) : option found :=
  match r with
  | Cls p lo hi =>
      give_back lo (run_length p hi rest)
        (λ n, k (rev (take n rest) ++ prev) (drop n rest) gs)
  | Seq r1 r2 => match_re r1 (match_re r2 k) prev rest gs
  | Alt r1 r2 =>
      match match_re r1 k prev rest gs with
      | Some f => Some f
      | None => match_re r2 k prev rest gs
      end
  | Opt r =>
      match match_re r k prev rest gs with Some f => Some f | None => k prev rest gs end
  | Grp n r =>
      match_re r (λ prev' rest' gs',
        k prev' rest' ((n, take (length rest - length rest') rest) :: gs')) prev rest gs
  | Bound => if at_bound prev rest then k prev rest gs else None
  | NotBehind p =>
      match prev with c :: _ => if p c then None else k prev rest gs | [] => k prev rest gs end
  | NotAhead r =>
      match match_re r (λ _ rest' gs', Some (rest', gs')) prev rest gs with
      | Some _ => None
      | None => k prev rest gs
      end
  end.

Definition match_at (r : re) (prev rest : list ascii) : option found :=
  match_re r (λ _ rest' gs, Some (rest', gs)) prev rest [].

(** A text cut into the characters no match covers and the matches. *)
Inductive piece := Plain (c : ascii) | Hit (w : list ascii) (gs : groups).

Fixpoint scan (r : re) (skip : nat) (prev rest : list ascii) : list piece :=
  match rest with
  | [] => []
  | c :: rest' =>
      match skip with
      | S k => scan r k (c :: prev) rest'
      | O =>
          match match_at r prev rest with
          | Some (after, gs) =>
              match (length rest - length after)%nat with
              | O => Plain c :: scan r O (c :: prev) rest'
              | S n => Hit (take (S n) rest) gs :: scan r n (c :: prev) rest'
              end
          | None => Plain c :: scan r O (c :: prev) rest'
          end
      end
  end.

Definition pieces (r : re) (text : list ascii) : list piece := scan r O [] text.

(** [[m for m in r.finditer(text)]] *)
Definition finditer (r : re) (text : list ascii) : list (list ascii * groups) :=
  omap (λ x, match x with Hit w gs => Some (w, gs) | Plain _ => None end) (pieces r text).

(** [r.sub(token, text)], for a token without escapes. *)
Definition re_sub (r : re) (token text : list ascii) : list ascii :=
  flat_map (λ x, match x with Plain c => [c] | Hit _ _ => token end) (pieces r text).

(** ** What a pattern means *)
Fixpoint means (r : re) (prev w rest : list ascii) : Prop :=
  match r with
  | Cls p lo hi =>
      Forall (λ c, p c = true) w ∧ (lo ≤ length w)%nat ∧ ∀ h, hi = Some h → (length w ≤ h)%nat
  | Seq r1 r2 =>
      ∃ w1 w2, w = w1 ++ w2 ∧ means r1 prev w1 (w2 ++ rest) ∧ means r2 (rev w1 ++ prev) w2 rest
  | Alt r1 r2 => means r1 prev w rest ∨ means r2 prev w rest
  | Opt r => means r prev w rest ∨ w = []
  | Grp _ r => means r prev w rest
  | Bound => w = [] ∧ at_bound prev rest = true
  | NotBehind p => w = [] ∧ ∀ c prev', prev = c :: prev' → p c = false
  | NotAhead r => w = [] ∧ ¬ ∃ w' rest', rest = w' ++ rest' ∧ means r prev w' rest'
  end.

Lemma run_length_spec p hi l :
  Forall (λ c, p c = true) (take (run_length p hi l) l)
  ∧ (run_length p hi l ≤ length l)%nat ∧ (∀ h, hi = Some h → (run_length p hi l ≤ h)%nat).
Proof.
  revert hi. induction l as [|c l IH]; intros hi.
  { destruct hi as [[|h]|]; simpl; split_and!; try constructor; intros; simplify_eq; lia. }
  destruct hi as [[|h]|]; simpl.
  - split_and!; [constructor|lia|intros; simplify_eq; lia].
  - destruct (p c) eqn:Ec; simpl; [|split_and!; [constructor|lia|intros; simplify_eq; lia]].
    destruct (IH (Some h)) as (H1 & H2 & H3). specialize (H3 h eq_refl).
    split_and!; [by constructor|lia|intros; simplify_eq; lia].
  - destruct (p c) eqn:Ec; simpl; [|split_and!; [constructor|lia|done]].
    destruct (IH None) as (H1 & H2 & _). split_and!; [by constructor|lia|done].
Qed.

(** No longer run exists. *)
Lemma run_length_max p hi w l :
  Forall (λ c, p c = true) w → (∀ h, hi = Some h → (length w ≤ h)%nat) →
  (length w ≤ run_length p hi (w ++ l))%nat.
Proof.
  revert hi. induction w as [|c w IH]; intros hi Hw Hh; [simpl; lia|].
  apply Forall_cons in Hw as [Hc Hw]. destruct hi as [[|h]|]; simpl.
  - specialize (Hh _ eq_refl). simpl in Hh. lia.
  - rewrite Hc. specialize (IH (Some h) Hw). specialize (Hh _ eq_refl). simpl in *.
    assert (length w ≤ run_length p (Some h) (w ++ l))%nat; [|lia].
    apply IH. intros ? [= <-]. lia.
  - rewrite Hc. specialize (IH None Hw). simpl. assert (length w ≤ run_length p None (w ++ l))%nat; [|lia].
    by apply IH.
Qed.

Lemma give_back_Some lo n try f :
  give_back lo n try = Some f → ∃ m, (lo ≤ m ≤ n)%nat ∧ try m = Some f.
Proof.
  induction n as [|n IH]; simpl; (case_bool_decide; [done|]).
  - destruct (try 0%nat) eqn:E; [|done]. intros [= ->]. exists 0%nat. split; [lia|done].
  - destruct (try (S n)) eqn:E; [intros [= ->]; exists (S n); split; [lia|done]|].
    intros (m & ? & ?)%IH. exists m. split; [lia|done].
Qed.

Lemma give_back_is_Some lo n m try :
  (lo ≤ m ≤ n)%nat → is_Some (try m) → is_Some (give_back lo n try).
Proof.
  intros Hm Ht. induction n as [|n IH]; simpl; rewrite bool_decide_false by lia.
  - replace m with 0%nat in Ht by lia. destruct (try 0%nat); [done|by destruct Ht].
  - destruct (try (S n)) eqn:E; [done|]. apply IH.
    assert (m ≠ S n) by (intros ->; rewrite E in Ht; by destruct Ht). lia.
Qed.

(** The matcher finds what the pattern means, and something whenever the pattern has
    a match the continuation accepts. *)
Definition sound (r : re) : Prop := ∀ k prev rest gs f,
  match_re r k prev rest gs = Some f →
  ∃ w rest' gs', rest = w ++ rest' ∧ means r prev w rest' ∧ k (rev w ++ prev) rest' gs' = Some f.
Definition complete (r : re) : Prop := ∀ k prev w rest gs,
  means r prev w rest → (∀ gs', is_Some (k (rev w ++ prev) rest gs')) →
  is_Some (match_re r k prev (w ++ rest) gs).

Lemma cls_sound p lo hi : sound (Cls p lo hi).
Proof.
  intros k prev rest gs f. simpl. intros (m & Hm & Hk)%give_back_Some.
  destruct (run_length_spec p hi rest) as (H1 & H2 & H3).
  exists (take m rest), (drop m rest), gs. rewrite take_drop. split; [done|]. split; [|done].
  split_and!.
  - replace (take m rest) with (take m (take (run_length p hi rest) rest)).
    + by apply Forall_take.
    + rewrite take_take. f_equal. lia.
  - rewrite length_take. lia.
  - intros h Hh. specialize (H3 h Hh). rewrite length_take. lia.
Qed.

Lemma cls_complete p lo hi : complete (Cls p lo hi).
Proof.
  intros k prev w rest gs (Hw & Hlo & Hhi) Hk. simpl.
  apply (give_back_is_Some _ _ (length w)); [split; [done|by apply run_length_max]|].
  rewrite take_app_length, drop_app_length. apply Hk.
Qed.

Lemma match_re_spec r : sound r ∧ complete r.
Proof.
  induction r as [p lo hi|r1 [S1 C1] r2 [S2 C2]|r1 [S1 C1] r2 [S2 C2]|r [S C]|n r [S C]| |p|r [S C]].
  - split; [apply cls_sound|apply cls_complete].
  - split.
    + intros k prev rest gs f (w1 & rest1 & gs1 & -> & H1 & (w2 & rest2 & gs2 & -> & H2 & Hk)%S2)%S1.
      exists (w1 ++ w2), rest2, gs2. rewrite <- app_assoc. split; [done|]. split; [by exists w1, w2|].
      by rewrite rev_app_distr, <- app_assoc.
    + intros k prev w rest gs (w1 & w2 & -> & H1 & H2) Hk. simpl. rewrite <- app_assoc.
      apply C1; [done|]. intros gs'. apply C2; [done|]. intros gs2.
      specialize (Hk gs2). by rewrite rev_app_distr, <- app_assoc in Hk.
  - split.
    + intros k prev rest gs f. simpl. destruct (match_re r1 k prev rest gs) as [f'|] eqn:E.
      * intros [= ->]. apply S1 in E as (w & rest' & gs' & ? & ? & ?). exists w, rest', gs'. tauto.
      * intros (w & rest' & gs' & ? & ? & ?)%S2. exists w, rest', gs'. tauto.
    + intros k prev w rest gs [H|H] Hk; simpl.
      * destruct (C1 k prev w rest gs H Hk) as [f ->]. by eexists.
      * destruct (match_re r1 _ _ _ _); [by eexists|by apply C2].
  - split.
    + intros k prev rest gs f. simpl. destruct (match_re r k prev rest gs) as [f'|] eqn:E.
      * intros [= ->]. apply S in E as (w & rest' & gs' & ? & ? & ?). exists w, rest', gs'. tauto.
      * intros Hk. exists [], rest, gs. tauto.
    + intros k prev w rest gs [H| ->] Hk; simpl.
      * destruct (C k prev w rest gs H Hk) as [f ->]. by eexists.
      * destruct (match_re r _ _ _ _); [by eexists|apply Hk].
  - split.
    + intros k prev rest gs f (w & rest' & gs' & ? & ? & ?)%S.
      eexists w, rest', (_ :: gs'). by split_and!.
    + intros k prev w rest gs H Hk. simpl. apply C; [done|]. intros gs'. apply Hk.
  - split.
    + intros k prev rest gs f. simpl. destruct (at_bound prev rest) eqn:E; [|done].
      intros Hk. exists [], rest, gs. tauto.
    + intros k prev w rest gs [-> H] Hk. simpl. rewrite H. apply Hk.
  - split.
    + intros k prev rest gs f. simpl. intros Hk. exists [], rest, gs. split; [done|].
      destruct prev as [|c prev']; [split; [split; [done|by intros]|done]|].
      destruct (p c) eqn:E; [done|]. split; [split; [done|by intros ?? [= <- _]]|done].
    + intros k prev w rest gs [-> H] Hk. simpl. destruct prev as [|c prev']; [apply Hk|].
      rewrite (H c prev' eq_refl). apply Hk.
  - split.
    + intros k prev rest gs f. simpl.
      destruct (match_re r _ prev rest gs) as [f'|] eqn:E; [done|]. intros Hk. exists [], rest, gs.
      split; [done|]. split; [|done]. split; [done|]. intros (w' & rest' & -> & Hm).
      destruct (C (λ _ rest' gs', Some (rest', gs')) prev w' rest' gs Hm ltac:(by eexists)) as [x Ex].
      congruence.
    + intros k prev w rest gs [-> H] Hk. simpl.
      destruct (match_re r _ prev rest gs) as [f'|] eqn:E; [|apply Hk].
      exfalso. apply S in E as (w' & rest' & gs' & ? & ? & _). eauto.
Qed.

(** [match_at] decides whether the pattern has a match at a position. *)
Lemma match_at_Some r prev rest after gs :
  match_at r prev rest = Some (after, gs) → ∃ w, rest = w ++ after ∧ means r prev w after.
Proof.
  intros (w & rest' & gs' & -> & Hm & [= <- _])%(proj1 (match_re_spec r)). by exists w.
Qed.

Lemma match_at_None r prev rest :
  match_at r prev rest = None ↔ ¬ ∃ w rest', rest = w ++ rest' ∧ means r prev w rest'.
Proof.
  split.
  - intros E (w & rest' & -> & Hm).
    destruct (proj2 (match_re_spec r) (λ _ rest' gs, Some (rest', gs)) prev w rest' [] Hm ltac:(by eexists))
      as [f Ef]. unfold match_at in E. congruence.
  - intros H. destruct (match_at r prev rest) as [[after gs]|] eqn:E; [|done].
    exfalso. apply match_at_Some in E as (w & -> & Hm). eauto.
Qed.

(** ** What scanning finds *)
Definition text_of (x : piece) : list ascii := match x with Plain c => [c] | Hit w _ => w end.
Definition whole (l : list piece) : list ascii := flat_map text_of l.

(** Every hit is a match where it stands and not empty; at a plain character no
    match, or only the empty one, was found. *)
Fixpoint pieces_ok (r : re) (prev : list ascii) (l : list piece) : Prop :=
  match l with
  | [] => True
  | Plain c :: l' =>
      (∀ after gs, match_at r prev (c :: whole l') = Some (after, gs) → after = c :: whole l')
      ∧ pieces_ok r (c :: prev) l'
  | Hit w gs :: l' =>
      w ≠ [] ∧ means r prev w (whole l') ∧ match_at r prev (w ++ whole l') = Some (whole l', gs)
      ∧ pieces_ok r (rev w ++ prev) l'
  end.

Lemma scan_ok r skip prev rest :
  whole (scan r skip prev rest) = drop skip rest
  ∧ pieces_ok r (rev (take skip rest) ++ prev) (scan r skip prev rest).
Proof.
  revert skip prev. induction rest as [|c rest IH]; intros skip prev; [by destruct skip|].
  destruct skip as [|k]; simpl.
  2: { destruct (IH k (c :: prev)) as [H1 H2]. split; [done|]. by rewrite <- app_assoc. }
  destruct (IH 0%nat (c :: prev)) as [P1 P2]. simpl in P2.
  assert (Hplain : (∀ after gs, match_at r prev (c :: rest) = Some (after, gs) → after = c :: rest) →
    whole (Plain c :: scan r 0 (c :: prev) rest) = c :: rest
    ∧ pieces_ok r prev (Plain c :: scan r 0 (c :: prev) rest)).
  { intros H. simpl. rewrite P1. by split_and!. }
  destruct (match_at r prev (c :: rest)) as [[after gs]|] eqn:E; [|by apply Hplain].
  pose proof (match_at_Some _ _ _ _ _ E) as (w & Ew & Hm).
  assert (S (length rest) - length after = length w)%nat as Hlen.
  { apply (f_equal length) in Ew. rewrite length_app in Ew. simpl in Ew. lia. }
  rewrite Hlen. destruct w as [|c' w]; simpl.
  { apply Hplain. intros ?? [= <- _]. by rewrite Ew. }
  injection Ew as <- ->. destruct (IH (length w) (c :: prev)) as [H1 H2].
  rewrite take_app_length, drop_app_length in *. rewrite H1.
  split; [done|]. split_and!; [done|done|done|]. by rewrite <- app_assoc.
Qed.

Lemma pieces_spec r text : whole (pieces r text) = text ∧ pieces_ok r [] (pieces r text).
Proof. destruct (scan_ok r 0 [] text) as [H1 H2]. by rewrite drop_0 in H1. Qed.

Definition nonempty (r : re) : Prop := ∀ prev rest, ¬ means r prev [] rest.

(** A sufficient check: some part must consume a character. *)
Fixpoint consumes (r : re) : bool :=
  match r with
  | Cls _ lo _ => bool_decide (0 < lo)%nat
  | Seq r1 r2 => consumes r1 || consumes r2
  | Alt r1 r2 => consumes r1 && consumes r2
  | Grp _ r => consumes r
  | Opt _ | Bound | NotBehind _ | NotAhead _ => false
  end.

Lemma consumes_nonempty r : consumes r = true → nonempty r.
Proof.
  unfold nonempty. induction r as [p lo hi|r1 IH1 r2 IH2|r1 IH1 r2 IH2| |n r IH| | |]; simpl;
    intros Hc prev rest; try done.
  - apply bool_decide_eq_true in Hc. intros (_ & Hlo & _). simpl in Hlo. lia.
  - intros (w1 & w2 & E & H1 & H2). symmetry in E. apply app_eq_nil in E as [-> ->].
    apply orb_true_iff in Hc as [Hc|Hc]; [by eapply IH1|by eapply IH2].
  - apply andb_true_iff in Hc as [Hc1 Hc2]. intros [H|H]; [by eapply IH1|by eapply IH2].
  - by apply IH.
Qed.

Lemma whole_app l1 l2 : whole (l1 ++ l2) = whole l1 ++ whole l2.
Proof. apply flat_map_app. Qed.

Lemma pieces_ok_app r prev l1 l2 :
  pieces_ok r prev (l1 ++ l2) → pieces_ok r (rev (whole l1) ++ prev) l2.
Proof.
  revert prev. induction l1 as [|[c|w gs] l1 IH]; intros prev; simpl; [done|..].
  - intros [_ H%IH]. by rewrite <- app_assoc.
  - intros (_ & _ & _ & H%IH). by rewrite rev_app_distr, <- app_assoc.
Qed.

(** At a character no match covers, none starts. *)
Lemma plain_no_match r prev l1 c l2 w rest :
  nonempty r → pieces_ok r prev (l1 ++ Plain c :: l2) → c :: whole l2 = w ++ rest →
  ¬ means r (rev (whole l1) ++ prev) w rest.
Proof.
  intros Hne [H _]%pieces_ok_app E Hm.
  destruct (match_at r (rev (whole l1) ++ prev) (c :: whole l2)) as [[after gs]|] eqn:Em.
  - specialize (H _ _ eq_refl). subst after. apply match_at_Some in Em as (w' & E' & Hm').
    assert (w' = []) as ->; [|by apply Hne in Hm'].
    apply (f_equal length) in E'. rewrite length_app in E'. destruct w'; [done|]. simpl in E'. lia.
  - apply match_at_None in Em. apply Em. eauto.
Qed.
