(* ===== verification/Deidentification.v ===== *)
(** The pattern scrub of safety reports (application/services/deidentification.py):
    what it replaces, what it leaves, and the minimum content it demands. *)
From Stdlib Require Import Ascii.
From S2P Require Import Prelude Text PyFloat PyVal PyDate Entities PyRe.
Open Scope string_scope.
Open Scope list_scope.

Definition MIN_NARRATIVE_WORDS : nat := 20.

(** ** The patterns *)
Definition is_alpha (c : ascii) : bool := is_ascii_upper c || is_ascii_lower c.
Definition one_of (cs : string) (c : ascii) : bool := existsb (Ascii.eqb c) (chars cs).
Definition chr (c : string) : re := Cls (one_of c) 1 (Some 1%nat).
Definition digits (lo hi : nat) : re := Cls is_digit lo (Some hi).

(** A sequence of patterns, from left to right. *)
Fixpoint seq_re (r : re) (rs : list re) : re :=
  match rs with [] => r | r' :: rs' => Seq r (seq_re r' rs') end.

(** \bN\d{1,5}[A-Z]{0,2}\b, ignoring case *)
Definition TAIL_NUMBER : re :=
  seq_re Bound [chr "Nn"; digits 1 5; Cls is_alpha 0 (Some 2%nat); Bound].
(** \b\d{6,8}\b *)
Definition EMPLOYEE_ID : re := seq_re Bound [digits 6 8; Bound].
(** \b[A-Za-z0-9._%+-]+@[A-Za-z0-9.-]+\.[A-Za-z]{2,}\b *)
Definition EMAIL : re :=
  seq_re Bound [Cls (λ c, is_alpha c || is_digit c || one_of "._%+-" c) 1 None; chr "@";
    Cls (λ c, is_alpha c || is_digit c || one_of ".-" c) 1 None; chr ".";
    Cls is_alpha 2 None; Bound].
(** [-.\s]? *)
Definition separator : re := Opt (Cls (λ c, one_of "-." c || is_space c) 1 (Some 1%nat)).
(** (?<!\d)(?:\+?\d{1,3}[-.\s]?)?\(?\d{3}\)?[-.\s]?\d{3}[-.\s]?\d{4}(?!\d) *)
Definition PHONE : re :=
  seq_re (NotBehind is_digit)
    [Opt (seq_re (Opt (chr "+")) [digits 1 3; separator]);
     Opt (chr "("); digits 3 3; Opt (chr ")"); separator; digits 3 3; separator; digits 4 4;
     NotAhead (digits 1 1)].
(** \b[A-Z]{2,3}\s?\d{1,4}\b, ignoring case *)
Definition FLIGHT_NUMBER : re :=
  seq_re Bound [Cls is_alpha 2 (Some 3%nat); Opt (Cls is_space 1 (Some 1%nat)); digits 1 4; Bound].

Definition passes : list (re * string) :=
  [(TAIL_NUMBER, "[REDACTED:TAIL_NUMBER]"); (FLIGHT_NUMBER, "[REDACTED:FLIGHT_NUMBER]");
   (EMAIL, "[REDACTED:EMAIL]"); (PHONE, "[REDACTED:PHONE]");
   (EMPLOYEE_ID, "[REDACTED:EMPLOYEE_ID]")].

(** ** The scrub *)
Record DeidentificationResult := mkDeid {
  cleaned_text : string;
  replacements : list string;
}.

(** One round of the loop. *)
Definition pass (acc : list ascii * list string) (p : re * string) : list ascii * list string :=
  let '(cleaned, replacements) := acc in
  (re_sub p.1 (chars p.2) cleaned, replacements ++ ((λ m, of_chars m.1) <$> finditer p.1 cleaned)).

Definition run_deidentification (narrative : string) : DeidentificationResult :=
  let '(cleaned, replaced) := foldl pass (chars narrative, []) passes in
  mkDeid (of_chars cleaned) replaced.

Definition too_short (words : nat) : exn :=
  DeidentificationRequiredError ("Narrative is too short after deidentification").

Definition assert_acceptable_narrative (narrative : string) : Res string :=
  let result := run_deidentification narrative in
  let word_count := length (str_split (cleaned_text result)) in
  if bool_decide (word_count < MIN_NARRATIVE_WORDS)%nat then Raise (too_short word_count)
  else Ok (cleaned_text result).

Example scrub_tail : run_deidentification "crew of n123AB called 555-123-4567, id 1234567"
  = mkDeid "crew of [REDACTED:TAIL_NUMBER] called [REDACTED:PHONE], id [REDACTED:EMPLOYEE_ID]"
      ["n123AB"; "555-123-4567"; "1234567"].
Proof. vm_compute. reflexivity. Qed.
Example scrub_flight : cleaned_text (run_deidentification "AA 123 and x@y.org. N1 spool")
  = "[REDACTED:FLIGHT_NUMBER] and [REDACTED:EMAIL]. [REDACTED:TAIL_NUMBER] spool".
Proof. vm_compute. reflexivity. Qed.
(** A tail number that a phone number hides is not scrubbed. *)
Example scrub_exposes_tail : cleaned_text (run_deidentification "call 5551234567N123AB now")
  = "call [REDACTED:PHONE]N123AB now".
Proof. vm_compute. reflexivity. Qed.

(** ** What a pass does *)
Definition hits (l : list piece) : list string :=
  omap (λ x, match x with Hit w _ => Some (of_chars w) | Plain _ => None end) l.
Definition filled (token : list ascii) (l : list piece) : list ascii :=
  flat_map (λ x, match x with Plain c => [c] | Hit _ _ => token end) l.

Module Sites.
(** Where something stands: the text before it, reversed; itself; the text after it. *)
Definition site : Type := list ascii → list ascii → list ascii → Prop.

(** [scrubbed ps t t' removed]: the text [t] falls into characters and occurrences of
    the first kind of site, the occurrences are removed in order and replaced by its
    token, and none starts at a character that stays; then the others do the same. *)
Inductive scrubbed : list (site * string) → list ascii → list ascii → list string → Prop :=
  | scrubbed_nil t : scrubbed [] t t []
  | scrubbed_cons (P : site) token ps l t' removed :
      (∀ l1 w gs l2, l = l1 ++ Hit w gs :: l2 → P (rev (whole l1)) w (whole l2)) →
      (∀ l1 c l2 w rest, l = l1 ++ Plain c :: l2 → c :: whole l2 = w ++ rest →
         ¬ P (rev (whole l1)) w rest) →
      scrubbed ps (filled (chars token) l) t' removed →
      scrubbed ((P, token) :: ps) (whole l) t' (hits l ++ removed).

(** ** What each pattern finds, without reference to the patterns *)
Definition digit (c : ascii) : Prop := is_digit c = true.
Definition letter (c : ascii) : Prop := is_ascii_upper c = true ∨ is_ascii_lower c = true.
Definition run (P : ascii → Prop) (lo hi : nat) (w : list ascii) : Prop :=
  Forall P w ∧ (lo ≤ length w ≤ hi)%nat.
(** A word boundary at both ends. *)
Definition bounded : site := λ prev w rest,
  at_bound prev (w ++ rest) = true ∧ at_bound (rev w ++ prev) rest = true.

(** N, one to five digits and at most two letters. *)
Definition tail_number : site := λ prev w rest,
  bounded prev w rest ∧ ∃ n ds ls, w = n ++ ds ++ ls
  ∧ run (λ c, c ∈ chars "Nn") 1 1 n ∧ run digit 1 5 ds ∧ run letter 0 2 ls.
(** Two or three letters, at most one space, and one to four digits. *)
Definition flight_number : site := λ prev w rest,
  bounded prev w rest ∧ ∃ ls sp ds, w = ls ++ sp ++ ds
  ∧ run letter 2 3 ls ∧ run (λ c, is_space c = true) 0 1 sp ∧ run digit 1 4 ds.
Definition email_address : site := λ prev w rest,
  bounded prev w rest ∧ ∃ user host top, w = user ++ chars "@" ++ host ++ chars "." ++ top
  ∧ (1 ≤ length user)%nat ∧ Forall (λ c, letter c ∨ digit c ∨ c ∈ chars "._%+-") user
  ∧ (1 ≤ length host)%nat ∧ Forall (λ c, letter c ∨ digit c ∨ c ∈ chars ".-") host
  ∧ (2 ≤ length top)%nat ∧ Forall letter top.
(** At most one separator. *)
Definition separated (w : list ascii) : Prop := run (λ c, c ∈ chars "-." ∨ is_space c = true) 0 1 w.
(** Three, three and four digits with their separators and brackets, perhaps after a
    country code; no digit right before or after. *)
Definition phone_number : site := λ prev w rest,
  (∀ c l, prev = c :: l → ¬ digit c) ∧ (∀ c l, rest = c :: l → ¬ digit c)
  ∧ ∃ country o area c s1 three s2 four, w = country ++ o ++ area ++ c ++ s1 ++ three ++ s2 ++ four
  ∧ (country = [] ∨ ∃ plus code sep, country = plus ++ code ++ sep
       ∧ run (λ c, c ∈ chars "+") 0 1 plus ∧ run digit 1 3 code ∧ separated sep)
  ∧ run (λ c, c ∈ chars "(") 0 1 o ∧ run digit 3 3 area ∧ run (λ c, c ∈ chars ")") 0 1 c
  ∧ separated s1 ∧ run digit 3 3 three ∧ separated s2 ∧ run digit 4 4 four.
(** Six to eight digits, alone. *)
Definition employee_number : site := λ prev w rest,
  head_word prev = false ∧ head_word rest = false ∧ run digit 6 8 w.

(** What is taken out, in this order: an employee number is a run of digits, so it comes
    last. *)
Definition identifying : list (site * string) :=
  [(tail_number, "[REDACTED:TAIL_NUMBER]"); (flight_number, "[REDACTED:FLIGHT_NUMBER]");
   (email_address, "[REDACTED:EMAIL]"); (phone_number, "[REDACTED:PHONE]");
   (employee_number, "[REDACTED:EMPLOYEE_ID]")].

End Sites.
Import Sites.

Lemma hits_finditer p t : (λ m : list ascii * groups, of_chars m.1) <$> finditer p t = hits (pieces p t).
Proof.
  unfold finditer, hits. induction (pieces p t) as [|[c|w gs] l IH]; [done|exact IH|].
  simpl. f_equal. exact IH.
Qed.

Lemma foldl_pass ps t done_ :
  foldl pass (t, done_) ps
  = ((foldl pass (t, []) ps).1, done_ ++ (foldl pass (t, []) ps).2).
Proof.
  revert t done_. induction ps as [|p ps IH]; intros t done_; simpl; [by rewrite app_nil_r|].
  rewrite IH, (IH _ (_ <$> _)). simpl. by rewrite <- app_assoc.
Qed.

Lemma pass_scrubbed ps specs t :
  Forall2 (λ p q, p.2 = q.2 ∧ ∀ prev w rest, means p.1 prev w rest ↔ q.1 prev w rest)
    ps (specs : list (site * string)) →
  Forall (λ p, nonempty p.1) ps → scrubbed specs t (foldl pass (t, []) ps).1 (foldl pass (t, []) ps).2.
Proof.
  intros Hf. revert t. induction Hf as [|[p token] [P token'] ps specs [Et Hm] Hf IH];
    intros t Hne; simpl in *; [constructor|]. subst token'.
  apply Forall_cons in Hne as [Hp Hne]. rewrite foldl_pass, hits_finditer. simpl.
  destruct (pieces_spec p t) as [Ew Hok]. rewrite <- Ew at 1.
  constructor; [| |by apply IH].
  - intros l1 w gs l2 E. rewrite E in Hok. apply pieces_ok_app in Hok as (_ & H & _).
    rewrite app_nil_r in H. by apply Hm.
  - intros l1 c l2 w rest E Ec H%Hm. rewrite E in Hok.
    refine (plain_no_match _ _ _ _ _ _ _ Hp Hok Ec _). by rewrite app_nil_r.
Qed.

Lemma passes_nonempty : Forall (λ p, nonempty p.1) passes.
Proof. repeat constructor; by apply consumes_nonempty. Qed.

(** ** The patterns find these *)
Lemma Forall_run (P : ascii → Prop) p w :
  (∀ c, p c = true ↔ P c) → Forall (λ c, p c = true) w ↔ Forall P w.
Proof. intros H. split; (intros Hw; eapply Forall_impl; [exact Hw|]; intros c; apply H). Qed.

Lemma means_run P p lo hi prev w rest :
  (∀ c, p c = true ↔ P c) → means (Cls p lo (Some hi)) prev w rest ↔ run P lo hi w.
Proof.
  intros H. unfold run. rewrite <- (Forall_run P p) by done. simpl. split.
  - intros (Hw & Hlo & Hhi). specialize (Hhi hi eq_refl). done.
  - intros (Hw & Hlo & Hhi). split_and!; [done|done|]. by intros ? [= <-].
Qed.

Lemma means_from P p lo prev w rest :
  (∀ c, p c = true ↔ P c) → means (Cls p lo None) prev w rest ↔ (lo ≤ length w)%nat ∧ Forall P w.
Proof.
  intros H. rewrite <- (Forall_run P p) by done. simpl. split; [by intros (? & ? & _)|]. by intros [? ?].
Qed.

Lemma means_opt P p prev w rest :
  (∀ c, p c = true ↔ P c) → means (Opt (Cls p 1 (Some 1%nat))) prev w rest ↔ run P 0 1 w.
Proof.
  intros H. pose proof (means_run P p 1 1 prev w rest H) as Hr.
  change (means (Opt ?r) prev w rest) with (means r prev w rest ∨ w = []). rewrite Hr.
  unfold run. split.
  - intros [(? & ?)| ->]; [split; [done|lia]|]. split; [constructor|simpl; lia].
  - intros (? & Hl). destruct w; [by right|left]. simpl in *. split; [done|lia].
Qed.

Lemma one_of_chars cs c : one_of cs c = true ↔ c ∈ chars cs.
Proof.
  unfold one_of. rewrite existsb_exists. setoid_rewrite <- list_elem_of_In.
  split; [by intros (x & Hx & ->%Ascii.eqb_eq)|]. intros Hc. exists c. by rewrite Ascii.eqb_refl.
Qed.
Lemma alpha_letter c : is_alpha c = true ↔ letter c.
Proof. unfold is_alpha, letter. apply orb_true_iff. Qed.
Lemma mail_char cs c : is_alpha c || is_digit c || one_of cs c = true ↔ letter c ∨ digit c ∨ c ∈ chars cs.
Proof. rewrite !orb_true_iff, alpha_letter, one_of_chars. unfold digit. tauto. Qed.
Lemma sep_char c : one_of "-." c || is_space c = true ↔ c ∈ chars "-." ∨ is_space c = true.
Proof. rewrite orb_true_iff, one_of_chars. tauto. Qed.

(** The parts a sequence of patterns finds. *)
Fixpoint parts (rs : list re) (prev : list ascii) (ws : list (list ascii)) (rest : list ascii) : Prop :=
  match rs, ws with
  | [], [] => True
  | r :: rs, w :: ws => means r prev w (concat ws ++ rest) ∧ parts rs (rev w ++ prev) ws rest
  | _, _ => False
  end.

Lemma seq_parts r rs prev w rest :
  means (seq_re r rs) prev w rest ↔ ∃ ws, w = concat ws ∧ parts (r :: rs) prev ws rest.
Proof.
  revert r prev w. induction rs as [|r' rs IH]; intros r prev w; cbn [seq_re].
  - split; [intros H; exists [w]; simpl; by rewrite app_nil_r|].
    intros ([|u [|]] & -> & H); simpl in H; [done| |by destruct H]. simpl. rewrite app_nil_r. by destruct H.
  - split.
    + intros (u & v & -> & Hu & (ws & -> & Hws)%IH). by exists (u :: ws).
    + intros ([|u ws] & -> & H); [done|]. destruct H as [Hu H]. exists u, (concat ws).
      split; [done|]. split; [done|]. apply IH. by exists ws.
Qed.

Lemma means_chr s prev w rest : means (chr s) prev w rest ↔ run (λ c, c ∈ chars s) 1 1 w.
Proof. apply means_run, one_of_chars. Qed.
Lemma means_digits lo hi prev w rest : means (digits lo hi) prev w rest ↔ run digit lo hi w.
Proof. by apply means_run. Qed.
Lemma means_letters lo hi prev w rest : means (Cls is_alpha lo (Some hi)) prev w rest ↔ run letter lo hi w.
Proof. apply means_run, alpha_letter. Qed.
Lemma means_separator prev w rest : means separator prev w rest ↔ separated w.
Proof. apply means_opt, sep_char. Qed.
Lemma means_opt_chr s prev w rest : means (Opt (chr s)) prev w rest ↔ run (λ c, c ∈ chars s) 0 1 w.
Proof. apply means_opt, one_of_chars. Qed.

Lemma means_bound prev w rest : means Bound prev w rest ↔ w = [] ∧ at_bound prev rest = true.
Proof. done. Qed.
Lemma means_space prev w rest :
  means (Opt (Cls is_space 1 (Some 1%nat))) prev w rest ↔ run (λ c, is_space c = true) 0 1 w.
Proof. by apply means_opt. Qed.
Lemma means_mail cs prev w rest :
  means (Cls (λ c, is_alpha c || is_digit c || one_of cs c) 1 None) prev w rest
  ↔ (1 ≤ length w)%nat ∧ Forall (λ c, letter c ∨ digit c ∨ c ∈ chars cs) w.
Proof. apply means_from, mail_char. Qed.
Lemma means_top prev w rest :
  means (Cls is_alpha 2 None) prev w rest ↔ (2 ≤ length w)%nat ∧ Forall letter w.
Proof. apply means_from, alpha_letter. Qed.

Lemma run_chr s c w : chars s = [c] → run (λ c, c ∈ chars s) 1 1 w ↔ w = chars s.
Proof.
  unfold run. intros ->. split.
  - intros [Hw Hl]. destruct w as [|x [|]]; simpl in Hl; [lia| |lia].
    apply Forall_cons in Hw as [->%list_elem_of_singleton _]. done.
  - intros ->. split; [|simpl; lia]. constructor; [by left|constructor].
Qed.

(** The patterns in terms of the sites: every part means its description, and the
    boundaries stand at the ends. *)
Local Ltac meaning := cbn [parts]; rewrite ?means_bound, ?means_chr, ?means_digits, ?means_letters,
  ?means_separator, ?means_opt_chr, ?means_space, ?means_mail, ?means_top.
Local Ltac tidy := cbn [concat app] in *; rewrite ?rev_app_distr, ?app_nil_r, <- ?app_assoc in *.
Local Ltac no_parts := intros; exfalso; cbn [parts] in *; tauto.

Lemma tail_number_means prev w rest : means TAIL_NUMBER prev w rest ↔ tail_number prev w rest.
Proof.
  unfold TAIL_NUMBER, tail_number, bounded. rewrite seq_parts. split.
  - intros ([|b [|n [|ds [|ls [|e [|]]]]]] & -> & H); try (revert H; no_parts).
    revert H. meaning. intros ([-> Hb1] & Hn & Hd & Hl & [-> Hb2] & _). tidy. split; [by split|].
    by exists n, ds, ls.
  - intros ([Hb1 Hb2] & n & ds & ls & -> & Hn & Hd & Hl). exists [[]; n; ds; ls; []].
    meaning. tidy. by split_and!.
Qed.

Lemma flight_number_means prev w rest : means FLIGHT_NUMBER prev w rest ↔ flight_number prev w rest.
Proof.
  unfold FLIGHT_NUMBER, flight_number, bounded. rewrite seq_parts. split.
  - intros ([|b [|ls [|sp [|ds [|e [|]]]]]] & -> & H); try (revert H; no_parts).
    revert H. meaning. intros ([-> Hb1] & Hl & Hs & Hd & [-> Hb2] & _). tidy. split; [by split|].
    by exists ls, sp, ds.
  - intros ([Hb1 Hb2] & ls & sp & ds & -> & Hl & Hs & Hd). exists [[]; ls; sp; ds; []].
    meaning. tidy. by split_and!.
Qed.

Lemma email_means prev w rest : means EMAIL prev w rest ↔ email_address prev w rest.
Proof.
  unfold EMAIL, email_address, bounded. rewrite seq_parts. split.
  - intros ([|b [|u [|a [|h [|d [|t [|e [|]]]]]]]] & -> & H); try (revert H; no_parts).
    revert H. meaning. rewrite (run_chr "@" "@"%char), (run_chr "." "."%char) by done.
    intros ([-> Hb1] & [Hu1 Hu] & -> & [Hh1 Hh] & -> & [Ht1 Ht] & [-> Hb2] & _). tidy.
    split; [by split|]. by exists u, h, t.
  - intros ([Hb1 Hb2] & u & h & t & -> & Hu1 & Hu & Hh1 & Hh & Ht1 & Ht).
    exists [[]; u; chars "@"; h; chars "."; t; []].
    meaning. rewrite (run_chr "@" "@"%char), (run_chr "." "."%char) by done. tidy. by split_and!.
Qed.

Lemma country_means prev w rest :
  means (Opt (seq_re (Opt (chr "+")) [digits 1 3; separator])) prev w rest ↔
  w = [] ∨ ∃ plus code sep, w = plus ++ code ++ sep
    ∧ run (λ c, c ∈ chars "+") 0 1 plus ∧ run digit 1 3 code ∧ separated sep.
Proof.
  change (means (Opt ?r) prev w rest) with (means r prev w rest ∨ w = []). rewrite seq_parts. split.
  - intros [([|p [|d [|s [|]]]] & -> & H)| ->]; [try (revert H; no_parts)..|by left].
    revert H. meaning. intros (Hp & Hd & Hs & _). tidy. right. by exists p, d, s.
  - intros [->|(p & d & s & -> & Hp & Hd & Hs)]; [by right|left]. exists [p; d; s].
    meaning. tidy. by split_and!.
Qed.

Lemma not_behind_means prev w rest :
  means (NotBehind is_digit) prev w rest ↔ w = [] ∧ ∀ c l, prev = c :: l → ¬ digit c.
Proof.
  simpl. split; intros [-> H]; (split; [done|]); intros c l E; specialize (H c l E).
  - unfold digit. by rewrite H.
  - by apply not_true_iff_false.
Qed.

Lemma not_ahead_means prev w rest :
  means (NotAhead (digits 1 1)) prev w rest ↔ w = [] ∧ ∀ c l, rest = c :: l → ¬ digit c.
Proof.
  change (w = [] ∧ (¬ ∃ w' rest', rest = w' ++ rest' ∧ means (digits 1 1) prev w' rest')
    ↔ w = [] ∧ ∀ c l, rest = c :: l → ¬ digit c).
  setoid_rewrite means_digits. split; intros [-> H]; (split; [done|]).
  - intros c l -> Hc. apply H. exists [c], l. split; [done|]. split; [by constructor|simpl; lia].
  - intros (w' & rest' & -> & Hw & Hl). destruct w' as [|c [|]]; simpl in Hl; [lia| |lia].
    apply Forall_cons in Hw as [Hc _]. by apply (H c rest').
Qed.

Lemma phone_means prev w rest : means PHONE prev w rest ↔ phone_number prev w rest.
Proof.
  unfold PHONE, phone_number. rewrite seq_parts. split.
  - intros ([|b [|k [|o [|a [|c [|s1 [|t [|s2 [|f [|e [|]]]]]]]]]]] & -> & H); try (revert H; no_parts).
    revert H. meaning. rewrite not_behind_means, country_means, not_ahead_means.
    intros ([-> Hb] & Hk & Ho & Ha & Hc & Hs1 & Ht & Hs2 & Hf & [-> He] & _). tidy.
    split; [done|]. split; [done|]. by exists k, o, a, c, s1, t, s2, f.
  - intros (Hb & He & k & o & a & c & s1 & t & s2 & f & -> & Hk & Ho & Ha & Hc & Hs1 & Ht & Hs2 & Hf).
    exists [[]; k; o; a; c; s1; t; s2; f; []].
    meaning. rewrite not_behind_means, country_means, not_ahead_means. tidy. by split_and!.
Qed.

Lemma digit_word c : is_digit c = true → is_word c = true.
Proof. unfold is_word. by intros ->. Qed.

(** Digits in front are a word in front. *)
Lemma digits_word lo w r : (1 ≤ lo)%nat → (lo ≤ length w)%nat → Forall digit w →
  head_word (w ++ r) = true ∧ head_word (rev w ++ r) = true.
Proof.
  intros Hlo Hl Hw. assert (∀ v, (1 ≤ length v)%nat → Forall digit v → head_word (v ++ r) = true) as Hv.
  { intros [|c v] Hlv Hdv; [simpl in Hlv; lia|]. apply Forall_cons in Hdv as [Hc _]. by apply digit_word. }
  split; apply Hv; [lia|done|rewrite length_rev; lia|by apply Forall_rev].
Qed.

Lemma employee_means prev w rest : means EMPLOYEE_ID prev w rest ↔ employee_number prev w rest.
Proof.
  unfold EMPLOYEE_ID, employee_number. rewrite seq_parts.
  assert (run digit 6 8 w → (at_bound prev (w ++ rest) = true ↔ head_word prev = false)
    ∧ (at_bound (rev w ++ prev) rest = true ↔ head_word rest = false)) as Hb.
  { intros [Hd [Hl _]]. unfold at_bound.
    destruct (digits_word 6 w rest) as [-> _]; [lia|done|done|].
    destruct (digits_word 6 w prev) as [_ ->]; [lia|done|done|].
    by destruct (head_word prev), (head_word rest). }
  split.
  - intros ([|b [|ds [|e [|]]]] & -> & H); try (revert H; no_parts).
    revert H. meaning. intros ([-> Hb1] & Hd & [-> Hb2] & _). tidy. destruct (Hb Hd) as [Hx Hy].
    split_and!; [by apply Hx|by apply Hy|done].
  - intros (Hp & Hr & Hd). destruct (Hb Hd) as [H1 H2]. exists [[]; w; []].
    meaning. tidy. split; [done|]. split_and!; [done|by apply H1|done|done|by apply H2|done].
Qed.

Lemma passes_means :
  Forall2 (λ p q, p.2 = q.2 ∧ ∀ prev w rest, means p.1 prev w rest ↔ q.1 prev w rest)
    passes identifying.
Proof.
  pose proof tail_number_means. pose proof flight_number_means. pose proof email_means.
  pose proof phone_means. pose proof employee_means.
  repeat (apply Forall2_cons_2; [by split|]). apply Forall2_nil_2.
Qed.

Lemma filled_nil token l : token ≠ [] → filled token l = [] → l = [].
Proof. destruct l as [|[c|w gs] l]; simpl; [done|done|]. intros Ht [? _]%app_eq_nil. done. Qed.

Lemma filled_app token l1 l2 : filled token (l1 ++ l2) = filled token l1 ++ filled token l2.
Proof. apply flat_map_app. Qed.

(** Text without a character of the token comes from characters that stayed. *)
Lemma filled_split (P : ascii → Prop) token l a w b :
  token ≠ [] → Forall (λ c, ¬ P c) token → w ≠ [] → Forall P w →
  filled token l = a ++ w ++ b →
  ∃ l1 l2, l = l1 ++ map Plain w ++ l2 ∧ filled token l1 = a ∧ filled token l2 = b.
Proof.
  intros Ht Hn. revert a w. induction l as [|[c|h gs] l IH]; intros a w Hw HP E; simpl in E.
  - symmetry in E. apply app_eq_nil in E as [_ [? _]%app_eq_nil]. done.
  - destruct a as [|c' a]; simpl in E.
    + destruct w as [|c' w]; [done|]. injection E as -> E. apply Forall_cons in HP as [_ HP].
      destruct w as [|c2 w]; [by exists [], l|].
      destruct (IH [] (c2 :: w)) as (l1 & l2 & -> & H1 & H2); [done|done|done|].
      apply filled_nil in H1 as ->; [|done]. by exists [], l2.
    + injection E as -> E. destruct (IH a w Hw HP E) as (l1 & l2 & -> & <- & <-).
      by exists (Plain c' :: l1), l2.
  - apply app_eq_inv in E as [(k & -> & E)|(k & -> & E)].
    + destruct k as [|c k].
      * simpl in E. destruct (IH [] w Hw HP) as (l1 & l2 & -> & H1 & H2); [by rewrite <- E|].
        exists (Hit h gs :: l1), l2. simpl. by rewrite H1, H2, !app_nil_r.
      * destruct w as [|c' w]; [done|]. injection E as -> _. apply Forall_cons in HP as [HP _].
        apply Forall_app in Hn as [_ [Hn _]%Forall_cons]. done.
    + destruct (IH k w Hw HP E) as (l1 & l2 & -> & <- & <-). by exists (Hit h gs :: l1), l2.
Qed.

Section last_pass.
Context (token : list ascii) (Htoken : token ≠ []) (Hdigits : Forall (λ c, ¬ is_digit c = true) token).

Lemma employee_id_head w gs l : pieces_ok EMPLOYEE_ID [] l → ∀ l1 l2, l = l1 ++ Hit w gs :: l2 →
  head_word (rev (whole l1)) = false ∧ head_word (whole l2) = false ∧ w ≠ []
  ∧ Forall (λ c, is_digit c = true) w.
Proof.
  intros Hok l1 l2 ->. apply pieces_ok_app in Hok as (Hw & Hm & _). rewrite app_nil_r in Hm.
  by apply employee_means in Hm as (H1 & H2 & Hd & _).
Qed.

Lemma none_left l a w b :
  pieces_ok EMPLOYEE_ID [] l → filled token l = a ++ w ++ b → ¬ means EMPLOYEE_ID (rev a) w b.
Proof using Htoken Hdigits.
  intros Hok E (Ha & Hb & Hd & Hlen)%employee_means.
  destruct w as [|c w]; [simpl in Hlen; lia|]. pose proof Hd as [Hc _]%Forall_cons.
  destruct (filled_split (λ c, is_digit c = true) token l a (c :: w) b) as (l1 & l2 & -> & <- & <-);
    [done..|].
  assert (whole (map Plain (c :: w)) = c :: w) as Ew.
  { clear. induction (c :: w) as [|x l IH]; [done|]. simpl. by rewrite IH. }
  refine (plain_no_match EMPLOYEE_ID [] l1 c (map Plain w ++ l2) (c :: w) (whole l2) _ Hok _ _);
    [by apply consumes_nonempty|by rewrite whole_app; simpl in Ew; injection Ew as ->|].
  rewrite app_nil_r. apply employee_means. split; [|split; [|done]].
  - destruct l1 as [|x l1 _] using rev_ind; [done|]. rewrite whole_app, rev_app_distr.
    destruct x as [c'|h gs].
    + by rewrite filled_app, rev_app_distr in Ha.
    + exfalso. rewrite <- app_assoc in Hok.
      destruct (employee_id_head h gs _ Hok l1 _ eq_refl) as (_ & Hn & _). simpl in Hn.
      by rewrite (digit_word c Hc) in Hn.
  - destruct l2 as [|[c'|h gs] l2]; [done|exact Hb|]. exfalso.
    rewrite app_assoc in Hok.
    destruct (employee_id_head h gs _ Hok (l1 ++ map Plain (c :: w)) l2 eq_refl) as (Hn & _).
    rewrite whole_app, Ew, rev_app_distr in Hn. apply Forall_rev in Hd.
    destruct (rev (c :: w)) as [|x r] eqn:Er.
    + apply (f_equal length) in Er. rewrite length_rev in Er. done.
    + apply Forall_cons in Hd as [Hx _]. simpl in Hn. by rewrite (digit_word x Hx) in Hn.
Qed.
End last_pass.

