(* ===== verification/Tenancy.v ===== *)
(** Tenants: the repositories of the tenant-private tables
    (infrastructure/db/repositories/tenancy.py, metering.py), the metering service
    (application/services/metering.py) and the use cases of a tenant
    (application/use_cases/tenancy.py, tenant_ingestion.py, and the tenant's usage of
    metering.py).

    Tables are accessed through [TenantTable]: how to read and replace one of the
    tables, and which tenant a row belongs to.  The row-level security policies of the
    database are a second line of defence and are not modelled: what is proved holds of
    the WHERE clauses alone. *)
From Stdlib Require Import Ascii.
From S2P Require Import Prelude Text PyFloat PyVal PyDate Entities Store Json Publication PyRe.
From S2P Require Import Deidentification.
Open Scope string_scope.
Open Scope list_scope.
Open Scope Z_scope.

(** ** Tables *)
Record TenantTable (A : Type) := mkTable {
  tb_get : TenantTables → gmap UUID A;
  tb_upd : (gmap UUID A → gmap UUID A) → TenantTables → TenantTables;
  tb_id : A → UUID;
  tb_tenant : A → option UUID;
}.
Arguments mkTable {_} _ _ _ _.
Arguments tb_get {_} _ _.
Arguments tb_upd {_} _ _ _.
Arguments tb_id {_} _ _.
Arguments tb_tenant {_} _ _.

Module TenantDb.
Definition sources : TenantTable TenantSource :=
  mkTable tt_sources (λ f t, mkTenantTables (tt_tenants t) (f (tt_sources t)) (tt_runs t)
    (tt_claims t) (tt_overlays t) (tt_reports t) (tt_associations t) (tt_usage t) (tt_rollups t))
    ts_id (λ x, Some (ts_tenant_id x)).
Definition runs : TenantTable TenantIngestionRun :=
  mkTable tt_runs (λ f t, mkTenantTables (tt_tenants t) (tt_sources t) (f (tt_runs t))
    (tt_claims t) (tt_overlays t) (tt_reports t) (tt_associations t) (tt_usage t) (tt_rollups t))
    tr_id (λ x, Some (tr_tenant_id x)).
Definition claims : TenantTable TenantClaim :=
  mkTable tt_claims (λ f t, mkTenantTables (tt_tenants t) (tt_sources t) (tt_runs t)
    (f (tt_claims t)) (tt_overlays t) (tt_reports t) (tt_associations t) (tt_usage t) (tt_rollups t))
    tc_id (λ x, Some (tc_tenant_id x)).
Definition overlays : TenantTable TenantEventOverlay :=
  mkTable tt_overlays (λ f t, mkTenantTables (tt_tenants t) (tt_sources t) (tt_runs t)
    (tt_claims t) (f (tt_overlays t)) (tt_reports t) (tt_associations t) (tt_usage t) (tt_rollups t))
    ov_id (λ x, Some (ov_tenant_id x)).
Definition reports : TenantTable TenantSafetyReport :=
  mkTable tt_reports (λ f t, mkTenantTables (tt_tenants t) (tt_sources t) (tt_runs t)
    (tt_claims t) (tt_overlays t) (f (tt_reports t)) (tt_associations t) (tt_usage t) (tt_rollups t))
    sr_id (λ x, Some (sr_tenant_id x)).
Definition associations : TenantTable TenantEventAssociation :=
  mkTable tt_associations (λ f t, mkTenantTables (tt_tenants t) (tt_sources t) (tt_runs t)
    (tt_claims t) (tt_overlays t) (tt_reports t) (f (tt_associations t)) (tt_usage t) (tt_rollups t))
    as_id (λ x, Some (as_tenant_id x)).
Definition usage : TenantTable UsageEvent :=
  mkTable tt_usage (λ f t, mkTenantTables (tt_tenants t) (tt_sources t) (tt_runs t)
    (tt_claims t) (tt_overlays t) (tt_reports t) (tt_associations t) (f (tt_usage t)) (tt_rollups t))
    ue_id ue_tenant_id.
Definition rollups : TenantTable UsageDailyRollup :=
  mkTable tt_rollups (λ f t, mkTenantTables (tt_tenants t) (tt_sources t) (tt_runs t)
    (tt_claims t) (tt_overlays t) (tt_reports t) (tt_associations t) (tt_usage t) (f (tt_rollups t)))
    ur_id (λ x, Some (ur_tenant_id x)).

Section table.
Context {A : Type} (tb : TenantTable A).

Definition table (db : DB) : gmap UUID A := tb_get tb (db_tenancy db).
Definition upd_table (f : gmap UUID A → gmap UUID A) : DB → DB := upd_tenancy (tb_upd tb f).

(** SELECT ... WHERE: the rows of the selection, in its map order. *)
Definition select (P : A → bool) (db : DB) : list A :=
  rows (filter (λ kv, P kv.2 = true) (table db)).

(** INSERT: column widths, primary key, the tenant's foreign key. *)
Definition insert_row (name : string) (storable : bool) (x : A) (db : DB) : Res unit * DB :=
  if negb storable then (Raise (DataError name), db)
  else match table db !! tb_id tb x with
       | Some _ => (Raise (IntegrityError (name +:+ "_pkey")), db)
       | None =>
           match tb_tenant tb x with
           | Some t => match tt_tenants (db_tenancy db) !! t with
                       | Some _ => (Ok tt, upd_table <[tb_id tb x := x]> db)
                       | None => (Raise (IntegrityError (name +:+ "_tenant_id_fkey")), db)
                       end
           | None => (Ok tt, upd_table <[tb_id tb x := x]> db)
           end
       end.

(** One flush of several rows: all of them or none. *)
Fixpoint insert_all (name : string) (storable : A → bool) (l : list A) (db : DB) : Res unit * DB :=
  match l with
  | [] => (Ok tt, db)
  | x :: l' => match insert_row name (storable x) x db with
               | (Ok _, db') => insert_all name storable l' db'
               | (Raise e, _) => (Raise e, db)
               end
  end.
End table.
End TenantDb.
Import TenantDb.

(** The defensive check of every write: the row must carry the caller's tenant. *)
Definition require_tenant {A} (tenant_id row_tenant : UUID) (m : M A) : M A :=
  if (row_tenant =? tenant_id)%N then m else raise (ValueError "tenant_id mismatch").

(** ** Repositories *)
Module TenantSourceRepo.
Definition storable (s : TenantSource) : bool :=
  fits 300 (ts_name s) && fits 50 (ts_kind s) && int4 (ts_reliability_tier s).
Definition same_name (s s' : TenantSource) : bool :=
  (ts_tenant_id s' =? ts_tenant_id s)%N && String.eqb (ts_name s') (ts_name s).

Definition add (tenant_id : UUID) (source : TenantSource) : M unit :=
  require_tenant tenant_id (ts_tenant_id source)
    (stmt (λ db,
       match select sources (same_name source) db, storable source with
       | _ :: _, true => (Raise (TenantSourceAlreadyExistsError tenant_id (ts_name source)), db)
       | _, _ => insert_row sources "tenant_sources" (storable source) source db
       end)).

Definition get (tenant_id source_id : UUID) : M (option TenantSource) :=
  scalar_query (select sources (λ s, (ts_id s =? source_id)%N && (ts_tenant_id s =? tenant_id)%N)).

Definition by_name (x y : TenantSource) : bool := String.leb (ts_name x) (ts_name y).
Definition list_for_tenant (tenant_id : UUID) : M (list TenantSource) :=
  query (λ db, py_sorted by_name (select sources (λ s, (ts_tenant_id s =? tenant_id)%N) db)).
End TenantSourceRepo.

Module TenantClaimRepo.
(** CHECK (confidence BETWEEN 0 AND 1) holds of every entity that was built. *)
Definition storable (c : TenantClaim) : bool :=
  fits 200 (tc_field_name c) && json_ok (tc_field_value c).

Definition add_many (tenant_id : UUID) (l : list TenantClaim) : M unit :=
  if forallb (λ c, (tc_tenant_id c =? tenant_id)%N) l
  then stmt (insert_all claims "tenant_claims" storable l)
  else raise (ValueError "tenant_id mismatch in batch").

Definition by_creation (x y : TenantClaim) : bool := tc_created_at x <=? tc_created_at y.
Definition list_for_event (tenant_id event_id : UUID) : M (list TenantClaim) :=
  query (λ db, py_sorted by_creation
    (select claims (λ c, (tc_tenant_id c =? tenant_id)%N && (tc_event_id c =? event_id)%N) db)).
Definition list_for_event_by_kind (tenant_id event_id : UUID) (kind : TenantEvidenceKind)
    : M (list TenantClaim) :=
  query (λ db, py_sorted by_creation
    (select claims (λ c, (tc_tenant_id c =? tenant_id)%N && (tc_event_id c =? event_id)%N
                         && bool_decide (tc_claim_kind c = kind)) db)).
End TenantClaimRepo.

Module TenantRunRepo.
Definition add (tenant_id : UUID) (run : TenantIngestionRun) : M unit :=
  require_tenant tenant_id (tr_tenant_id run)
    (stmt (insert_row runs "tenant_ingestion_runs" true run)).

Definition get (tenant_id run_id : UUID) : M (option TenantIngestionRun) :=
  scalar_query (select runs (λ r, (tr_id r =? run_id)%N && (tr_tenant_id r =? tenant_id)%N)).

Definition with_status (status : TenantIngestionRunStatus) (finished_at : option datetime)
    (r : TenantIngestionRun) : TenantIngestionRun :=
  mkTenantRun (tr_id r) (tr_tenant_id r) (tr_tenant_source_id r) (run_status_value status)
    (tr_started_at r) finished_at.

(** UPDATE ... WHERE id = :run AND tenant_id = :tenant; no row is not an error. *)
Definition update_status (tenant_id run_id : UUID) (status : TenantIngestionRunStatus)
    (finished_at : option datetime) : M unit :=
  exec (upd_table runs (update_where
    (λ k r, (k =? run_id)%N && (tr_tenant_id r =? tenant_id)%N) (with_status status finished_at))).
End TenantRunRepo.

Module TenantOverlayRepo.
Definition is_for (tenant_id event_id : UUID) (o : TenantEventOverlay) : bool :=
  (ov_tenant_id o =? tenant_id)%N && (ov_event_id o =? event_id)%N.

Definition get (tenant_id event_id : UUID) : M (option TenantEventOverlay) :=
  scalar_query (select overlays (is_for tenant_id event_id)).

Definition replace_content (new old : TenantEventOverlay) : TenantEventOverlay :=
  mkOverlay (ov_id old) (ov_tenant_id old) (ov_event_id old) (ov_notes_markdown new)
    (ov_overlay_fields new) (ov_created_at old) (ov_updated_at new).

(** INSERT ... ON CONFLICT (tenant_id, event_id) DO UPDATE ... RETURNING; the row that
    is stored.  A clash on the primary key alone is an error. *)
Definition upsert (tenant_id : UUID) (overlay : TenantEventOverlay) : M TenantEventOverlay :=
  require_tenant tenant_id (ov_tenant_id overlay)
    (stmt (λ db,
       if negb (json_ok (PDict (ov_overlay_fields overlay)))
       then (Raise (DataError "tenant_event_overlays"), db)
       else match select overlays (is_for tenant_id (ov_event_id overlay)) db with
            | old :: _ =>
                (Ok (replace_content overlay old),
                 upd_table overlays (update_where (λ _, is_for tenant_id (ov_event_id overlay))
                   (replace_content overlay)) db)
            | [] =>
                match db_events db !! ov_event_id overlay with
                | None => (Raise (IntegrityError "tenant_event_overlays_event_id_fkey"), db)
                | Some _ =>
                    let '(r, db') := insert_row overlays "tenant_event_overlays" true
                                       overlay db in
                    (match r with Ok _ => Ok overlay | Raise e => Raise e end, db')
                end
            end)).

(** ORDER BY updated_at DESC, id DESC *)
Definition newest_first (x y : TenantEventOverlay) : bool :=
  (ov_updated_at y <? ov_updated_at x)
  || ((ov_updated_at y =? ov_updated_at x) && (ov_id y <=? ov_id x)%N).
Definition before (c : datetime * UUID) (o : TenantEventOverlay) : bool :=
  (ov_updated_at o <? c.1) || ((ov_updated_at o =? c.1) && (ov_id o <? c.2)%N).

(** The cursor is looked up by id; a row of another tenant counts as no cursor. *)
Definition list_for_tenant (tenant_id : UUID) (limit : nat) (after_id : option UUID)
    : M (list TenantEventOverlay * option UUID) :=
  cursor ← match after_id with
           | None => mret None
           | Some id => query (λ db, o ← table overlays db !! id;
                          if (ov_tenant_id o =? tenant_id)%N then Some (ov_updated_at o, id) else None)
           end;
  found ← query (λ db, take (S limit) (py_sorted newest_first
            (select overlays (λ o, (ov_tenant_id o =? tenant_id)%N
               && match cursor with None => true | Some c => before c o end) db)));
  mret (if bool_decide (limit < length found)%nat
        then let items := take limit found in (items, ov_id <$> last items)
        else (found, None)).
End TenantOverlayRepo.

Module TenantReportRepo.
Definition add (tenant_id : UUID) (report : TenantSafetyReport) : M unit :=
  require_tenant tenant_id (sr_tenant_id report)
    (stmt (insert_row reports "tenant_safety_reports"
       (fits_opt 200 (sr_external_report_ref report)) report)).
Definition get (tenant_id report_id : UUID) : M (option TenantSafetyReport) :=
  scalar_query (select reports (λ r, (sr_id r =? report_id)%N && (sr_tenant_id r =? tenant_id)%N)).
Definition newest_first (x y : TenantSafetyReport) : bool := sr_created_at y <=? sr_created_at x.
Definition list_for_tenant (tenant_id : UUID) (limit : nat) : M (list TenantSafetyReport) :=
  query (λ db, take limit (py_sorted newest_first
    (select reports (λ r, (sr_tenant_id r =? tenant_id)%N) db))).
End TenantReportRepo.

Module TenantAssociationRepo.
Definition add (tenant_id : UUID) (association : TenantEventAssociation) : M unit :=
  require_tenant tenant_id (as_tenant_id association)
    (stmt (λ db,
       match db_events db !! as_event_id association with
       | None => (Raise (IntegrityError "tenant_event_associations_event_id_fkey"), db)
       | Some _ => insert_row associations "tenant_event_associations" true
                     association db
       end)).
Definition by_creation (x y : TenantEventAssociation) : bool := as_created_at x <=? as_created_at y.
Definition list_for_event (tenant_id event_id : UUID) : M (list TenantEventAssociation) :=
  query (λ db, py_sorted by_creation
    (select associations (λ a, (as_tenant_id a =? tenant_id)%N && (as_event_id a =? event_id)%N) db)).
End TenantAssociationRepo.

Module UsageRepo.
Definition add_many (l : list UsageEvent) : M unit :=
  if bool_decide (l = []) then mret tt
  else stmt (insert_all usage "usage_events" (λ _, true) l).
End UsageRepo.

(** ** MeteringService *)
Module MeteringService.
Fixpoint make_events (n : nat) (metric : MetricKind) (tenant_id user_id resource_id : option UUID)
    : M (list UsageEvent) :=
  match n with
  | O => mret []
  | S n' =>
      id ← uuid4;
      recorded_at ← utc_now;
      rest ← make_events n' metric tenant_id user_id resource_id;
      mret (mkUsageEvent id metric tenant_id user_id resource_id recorded_at :: rest)
  end.

Definition record (metric : MetricKind) (tenant_id user_id resource_id : option UUID) (quantity : Z)
    : M unit :=
  let n := Z.max 0 quantity in
  if n =? 0 then mret tt
  else events ← make_events (Z.to_nat n) metric tenant_id user_id resource_id;
       UsageRepo.add_many events.
End MeteringService.

(** ** Guards shared by the use cases *)
Definition write_roles : list string := [tenant_role_value OWNER; tenant_role_value MEMBER].
Definition require_write_role (caller_tenant_role : string) : M unit :=
  if bool_decide (caller_tenant_role ∈ write_roles) then mret tt
  else raise (HTTPException 403 "INSUFFICIENT_TENANT_ROLE").
Definition require_same_tenant (caller_tenant_id tenant_id : UUID) : M unit :=
  if (caller_tenant_id =? tenant_id)%N then mret tt
  else raise (CrossTenantAccessError caller_tenant_id tenant_id).

(** ** tenancy.py *)
Module RegisterTenantSource.
Definition execute (tenant_id caller_tenant_id : UUID) (role name kind : string)
    (reliability_tier : Z) : M TenantSource :=
  require_same_tenant caller_tenant_id tenant_id;;
  require_write_role role;;
  id ← uuid4;
  created_at ← utc_now;
  if reliability_tier <? 1 then raise (ValueError "reliability_tier") else
  let source := mkTenantSource id tenant_id name kind reliability_tier created_at in
  TenantSourceRepo.add tenant_id source;;
  commit;;
  mret source.
End RegisterTenantSource.

Record TenantEventOverlayView := mkOverlayView {
  vw_event_id : UUID;
  vw_overlay : option TenantEventOverlay;
  vw_public_fields : list (string * pyval);
  vw_public_completeness_score : float;
  vw_public_projection_version : Z;
}.

Module GetTenantEventOverlay.
Definition execute (tenant_id caller_tenant_id event_id : UUID) : M TenantEventOverlayView :=
  require_same_tenant caller_tenant_id tenant_id;;
  projection ← ProjectionRepo.get event_id;
  match projection with
  | None => raise (TenantNotFoundError "No public projection exists")
  | Some p =>
      overlay ← TenantOverlayRepo.get tenant_id event_id;
      rollback;;
      mret (mkOverlayView event_id overlay (pj_fields p) (pj_completeness p) (pj_version p))
  end.
End GetTenantEventOverlay.

(** A preview: the text, and whether an ellipsis (U+2026) follows it. *)
Definition preview (text : string) (max_chars : nat) : string * bool :=
  let is_hash c := Ascii.eqb c (ascii_of_N 35) in
  let stripped := drop_while is_space (drop_while is_hash (drop_while is_space (chars text))) in
  let one_line := chars (join_space (str_split (of_chars stripped))) in
  if bool_decide (length one_line ≤ max_chars)%nat then (of_chars one_line, false)
  else (of_chars (take (max_chars - 1) one_line), true).

Record TenantEventListItem := mkTenantItem {
  ti_event_id : UUID;
  ti_has_overlay : bool;
  ti_overlay_updated_at : option datetime;
  ti_notes_preview : option (string * bool);
}.

Module ListTenantEvents.
Definition MAX_LIMIT : Z := 100.
Definition item_of (o : TenantEventOverlay) : TenantEventListItem :=
  mkTenantItem (ov_event_id o) true (Some (ov_updated_at o))
    (match ov_notes_markdown o with
     | Some s => if str_empty s then None else Some (preview s 160)
     | None => None
     end).
Definition execute (tenant_id caller_tenant_id : UUID) (limit : Z) (after_id : option UUID)
    : M (list TenantEventListItem * option UUID * Z) :=
  require_same_tenant caller_tenant_id tenant_id;;
  let bounded_limit := Z.max 1 (Z.min limit MAX_LIMIT) in
  '(items, next_cursor) ← TenantOverlayRepo.list_for_tenant tenant_id (Z.to_nat bounded_limit) after_id;
  rollback;;
  mret (item_of <$> items, next_cursor, bounded_limit).
End ListTenantEvents.

Module UpsertTenantEventOverlay.
Definition execute (tenant_id caller_tenant_id : UUID) (role : string) (event_id : UUID)
    (notes_markdown : option string) (overlay_fields : option (list (string * pyval)))
    : M TenantEventOverlay :=
  require_same_tenant caller_tenant_id tenant_id;;
  require_write_role role;;
  projection ← ProjectionRepo.get event_id;
  match projection with
  | None => raise (TenantNotFoundError "No public projection exists")
  | Some _ =>
      moment ← utc_now;
      existing ← TenantOverlayRepo.get tenant_id event_id;
      let fields := default [] overlay_fields in
      overlay ← match existing with
                | None => id ← uuid4;
                          mret (mkOverlay id tenant_id event_id notes_markdown fields moment moment)
                | Some o => mret (mkOverlay (ov_id o) (ov_tenant_id o) (ov_event_id o) notes_markdown
                                    fields (ov_created_at o) moment)
                end;
      result ← TenantOverlayRepo.upsert tenant_id overlay;
      commit;;
      mret result
  end.
End UpsertTenantEventOverlay.

(** ** tenant_ingestion.py *)
Module OpenTenantIngestionRun.
Definition execute (tenant_id caller_tenant_id : UUID) (role : string) (tenant_source_id : UUID)
    : M TenantIngestionRun :=
  require_same_tenant caller_tenant_id tenant_id;;
  require_write_role role;;
  source ← TenantSourceRepo.get tenant_id tenant_source_id;
  match source with
  | None => raise (TenantSourceNotFoundError tenant_source_id tenant_id)
  | Some _ =>
      id ← uuid4;
      started_at ← utc_now;
      let run := mkTenantRun id tenant_id tenant_source_id (run_status_value RUN_RUNNING) started_at None in
      TenantRunRepo.add tenant_id run;;
      commit;;
      mret run
  end.
End OpenTenantIngestionRun.

Record IncomingClaim := mkIncomingClaim {
  ic_event_id : UUID;
  ic_field_name : string;
  ic_field_value : pyval;
  ic_claim_kind : TenantEvidenceKind;
  ic_confidence : option float;
}.

(** EventRepo.find_existing_ids *)
Definition find_existing_ids (ids : list UUID) : M (list UUID) :=
  if bool_decide (ids = []) then mret []
  else query (λ db, filter (λ id, is_Some (db_events db !! id)) ids).

Module SubmitTenantClaimsBatch.
Definition MAX_CLAIMS_PER_BATCH : Z := 1000.

(** Field(ge=0.0, le=1.0) *)
Definition confidence_ok (c : option float) : bool :=
  match c with
  | None => true
  | Some f => f_leb f_zero f && f_leb f (f_of_int 1)
  end.

Definition to_claim (tenant_id : UUID) (run : TenantIngestionRun) (c : IncomingClaim) : M TenantClaim :=
  id ← uuid4;
  created_at ← utc_now;
  if confidence_ok (ic_confidence c)
  then mret (mkTenantClaim id tenant_id (ic_event_id c) (tr_tenant_source_id run) (Some (tr_id run))
               (ic_field_name c) (ic_field_value c) (ic_claim_kind c) (ic_confidence c) created_at)
  else raise (ValueError "confidence").

(** The number of claims inserted. *)
Definition execute (tenant_id caller_tenant_id : UUID) (role : string) (run_id : UUID)
    (incoming : list IncomingClaim) : M Z :=
  require_same_tenant caller_tenant_id tenant_id;;
  require_write_role role;;
  if MAX_CLAIMS_PER_BATCH <? Z.of_nat (length incoming)
  then raise (TenantClaimBatchTooLargeError (Z.of_nat (length incoming)))
  else if bool_decide (length incoming = 0%nat) then mret 0 else
  run ← TenantRunRepo.get tenant_id run_id;
  match run with
  | None => raise (TenantIngestionRunNotFoundError run_id tenant_id)
  | Some run =>
      if negb (String.eqb (tr_status run) (run_status_value RUN_RUNNING))
      then raise (TenantIngestionRunClosedError "cannot append claims to a closed run") else
      let unique_event_ids := dict_fromkeys (ic_event_id <$> incoming) in
      existing_ids ← find_existing_ids unique_event_ids;
      let unknown := filter (λ id, id ∉ existing_ids) unique_event_ids in
      if bool_decide (unknown ≠ []) then raise (TenantClaimUnknownEventError unknown) else
      persisted ← map_m (to_claim tenant_id run) incoming;
      TenantClaimRepo.add_many tenant_id persisted;;
      MeteringService.record TENANT_CLAIM_INGESTED (Some tenant_id) None (Some (tr_id run))
        (Z.of_nat (length persisted));;
      commit;;
      mret (Z.of_nat (length persisted))
  end.
End SubmitTenantClaimsBatch.

Module CompleteTenantIngestionRun.
Definition execute (tenant_id caller_tenant_id : UUID) (role : string) (run_id : UUID)
    (final_status : TenantIngestionRunStatus) : M TenantIngestionRun :=
  require_same_tenant caller_tenant_id tenant_id;;
  require_write_role role;;
  if bool_decide (final_status = RUN_RUNNING)
  then raise (TenantIngestionRunClosedError "Cannot complete a run into RUNNING") else
  run ← TenantRunRepo.get tenant_id run_id;
  match run with
  | None => raise (TenantIngestionRunNotFoundError run_id tenant_id)
  | Some run =>
      if negb (String.eqb (tr_status run) (run_status_value RUN_RUNNING))
      then raise (TenantIngestionRunClosedError "cannot re-finalise") else
      moment ← utc_now;
      TenantRunRepo.update_status tenant_id run_id final_status (Some moment);;
      MeteringService.record TENANT_INGESTION_RUN_COMPLETED (Some tenant_id) None (Some run_id) 1;;
      let updated := TenantRunRepo.with_status final_status (Some moment) run in
      commit;;
      mret updated
  end.
End CompleteTenantIngestionRun.

Record SafetyReportInput := mkReportInput {
  ri_submitter_user_id : UUID;
  ri_report_kind : TenantEvidenceKind;
  ri_narrative_markdown : string;
  ri_deidentified_attested : bool;
  ri_external_report_ref : option string;
  ri_associate_with_event_id : option UUID;
  ri_association_kind : TenantEventAssociationKind;
  ri_association_note : option string;
}.

Module SubmitTenantSafetyReport.
(** The event must be projected before anything is written. *)
Definition check_event (event_id : option UUID) : M unit :=
  match event_id with
  | None => mret tt
  | Some e => projection ← ProjectionRepo.get e;
              match projection with
              | None => raise (TenantNotFoundError "No public event to associate with")
              | Some _ => mret tt
              end
  end.

Definition associate (tenant_id : UUID) (input : SafetyReportInput) (report : TenantSafetyReport)
    : M (option TenantEventAssociation) :=
  match ri_associate_with_event_id input with
  | None => mret None
  | Some e =>
      id ← uuid4;
      created_at ← utc_now;
      let association := mkAssociation id tenant_id e None (Some (sr_id report))
        (ri_association_kind input) (ri_association_note input) (ri_submitter_user_id input)
        created_at in
      TenantAssociationRepo.add tenant_id association;;
      mret (Some association)
  end.

Definition execute (tenant_id caller_tenant_id : UUID) (role : string) (input : SafetyReportInput)
    : M (TenantSafetyReport * option TenantEventAssociation * list string) :=
  require_same_tenant caller_tenant_id tenant_id;;
  require_write_role role;;
  if negb (ri_deidentified_attested input)
  then raise (DeidentificationRequiredError "deidentified_attested=True required") else
  let scrubbed := run_deidentification (ri_narrative_markdown input) in
  cleaned_narrative ← lift_res (assert_acceptable_narrative (ri_narrative_markdown input));
  check_event (ri_associate_with_event_id input);;
  id ← uuid4;
  created_at ← utc_now;
  let report := mkSafetyReport id tenant_id (ri_report_kind input) cleaned_narrative true
    (ri_external_report_ref input) (ri_submitter_user_id input) created_at in
  TenantReportRepo.add tenant_id report;;
  association ← associate tenant_id input report;
  MeteringService.record TENANT_REPORT_FILED (Some tenant_id) (Some (ri_submitter_user_id input))
    (Some (sr_id report)) 1;;
  commit;;
  mret (report, association, replacements scrubbed).
End SubmitTenantSafetyReport.

Record TenantEvidenceView := mkEvidenceView {
  ev_foqa_claims : list TenantClaim;
  ev_asap_claims : list TenantClaim;
  ev_other_claims : list TenantClaim;
  ev_associated_reports : list TenantSafetyReport;
  ev_associations : list TenantEventAssociation;
}.

Module ListTenantEvidenceForEvent.
(** The reports are looked up in the order of a set of ids, which carries no meaning. *)
Fixpoint load_reports (tenant_id : UUID) (ids : list UUID) : M (list TenantSafetyReport) :=
  match ids with
  | [] => mret []
  | id :: ids' =>
      report ← TenantReportRepo.get tenant_id id;
      rest ← load_reports tenant_id ids';
      mret (match report with Some r => r :: rest | None => rest end)
  end.

Definition execute (tenant_id caller_tenant_id event_id : UUID) : M TenantEvidenceView :=
  require_same_tenant caller_tenant_id tenant_id;;
  foqa ← TenantClaimRepo.list_for_event_by_kind tenant_id event_id FOQA;
  asap ← TenantClaimRepo.list_for_event_by_kind tenant_id event_id ASAP;
  other ← TenantClaimRepo.list_for_event_by_kind tenant_id event_id OTHER;
  associations ← TenantAssociationRepo.list_for_event tenant_id event_id;
  associated_reports ← load_reports tenant_id (dict_fromkeys (omap as_safety_report_id associations));
  rollback;;
  mret (mkEvidenceView foqa asap other associated_reports associations).
End ListTenantEvidenceForEvent.

(** ** The usage a tenant reads (metering.py) *)
Module RollupRepo.
Definition by_day (x y : UsageDailyRollup) : bool :=
  (ur_day x <? ur_day y)
  || ((ur_day x =? ur_day y)
      && String.leb (metric_kind_value (ur_metric_kind x)) (metric_kind_value (ur_metric_kind y))).
Definition list_for_tenant (tenant_id : UUID) (day_from day_to : Z) : M (list UsageDailyRollup) :=
  query (λ db, py_sorted by_day (select rollups (λ r, (ur_tenant_id r =? tenant_id)%N
    && (day_from <=? ur_day r) && (ur_day r <=? day_to)) db)).
End RollupRepo.

Module GetTenantUsage.
Definition execute (tenant_id caller_tenant_id : UUID) (day_from day_to : Z)
    : M (list UsageDailyRollup) :=
  require_same_tenant caller_tenant_id tenant_id;;
  result ← RollupRepo.list_for_tenant tenant_id day_from day_to;
  rollback;;
  mret result.
End GetTenantUsage.

(** ** Everything a tenant can ask *)
Inductive TenantRequest :=
  | RegisterSource (role name kind : string) (reliability_tier : Z)
  | ReadOverlay (event_id : UUID)
  | ListEvents (limit : Z) (after_id : option UUID)
  | WriteOverlay (role : string) (event_id : UUID) (notes_markdown : option string)
      (overlay_fields : option (list (string * pyval)))
  | OpenRun (role : string) (tenant_source_id : UUID)
  | SubmitClaims (role : string) (run_id : UUID) (incoming : list IncomingClaim)
  | CompleteRun (role : string) (run_id : UUID) (final_status : TenantIngestionRunStatus)
  | SubmitReport (role : string) (input : SafetyReportInput)
  | ListEvidence (event_id : UUID)
  | ReadUsage (day_from day_to : Z).

Inductive TenantResponse :=
  | ASource (s : TenantSource)
  | AnOverlayView (v : TenantEventOverlayView)
  | Events (items : list TenantEventListItem) (next_cursor : option UUID) (limit : Z)
  | AnOverlay (o : TenantEventOverlay)
  | ARun (r : TenantIngestionRun)
  | Inserted (n : Z)
  | AReport (r : TenantSafetyReport) (a : option TenantEventAssociation) (scrubbed : list string)
  | Evidence (v : TenantEvidenceView)
  | Usage (l : list UsageDailyRollup).

(** [tenant_id] is the tenant of the path, [caller] the one the key is bound to. *)
Definition handle_tenant (caller tenant_id : UUID) (r : TenantRequest) : M TenantResponse :=
  match r with
  | RegisterSource role name kind tier =>
      answer ← RegisterTenantSource.execute tenant_id caller role name kind tier; mret (ASource answer)
  | ReadOverlay e => answer ← GetTenantEventOverlay.execute tenant_id caller e; mret (AnOverlayView answer)
  | ListEvents limit after_id =>
      '(items, cursor, bound) ← ListTenantEvents.execute tenant_id caller limit after_id;
      mret (Events items cursor bound)
  | WriteOverlay role e notes fields =>
      answer ← UpsertTenantEventOverlay.execute tenant_id caller role e notes fields; mret (AnOverlay answer)
  | OpenRun role source => answer ← OpenTenantIngestionRun.execute tenant_id caller role source; mret (ARun answer)
  | SubmitClaims role run incoming =>
      answer ← SubmitTenantClaimsBatch.execute tenant_id caller role run incoming; mret (Inserted answer)
  | CompleteRun role run status =>
      answer ← CompleteTenantIngestionRun.execute tenant_id caller role run status; mret (ARun answer)
  | SubmitReport role input =>
      '(report, association, scrubbed) ← SubmitTenantSafetyReport.execute tenant_id caller role input;
      mret (AReport report association scrubbed)
  | ListEvidence e => answer ← ListTenantEvidenceForEvent.execute tenant_id caller e; mret (Evidence answer)
  | ReadUsage day_from day_to => answer ← GetTenantUsage.execute tenant_id caller day_from day_to; mret (Usage answer)
  end.

(** Two tenants: the first has an open run, [rest] are rows of the second. *)
Definition sample_tenancy_db (rest : gmap UUID TenantIngestionRun) : DB :=
  upd_tenancy (λ _, mkTenantTables
      {[ 1%N := mkTenant 1 "alpha" "Alpha Air" true 0; 2%N := mkTenant 2 "beta" "Beta Air" true 0 ]}
      {[ 11%N := mkTenantSource 11 1 "FOQA feed" "FOQA" 1 0 ]}
      (<[12%N := mkTenantRun 12 1 11 (run_status_value RUN_RUNNING) 0 None]> rest) ∅ ∅ ∅ ∅ ∅ ∅)
    (upd_events (λ _, {[ 5%N := mkEvent 5 0 None ]}) empty_db).
Definition sample_foreign_run : TenantIngestionRun := mkTenantRun 22 2 21 (run_status_value RUN_RUNNING) 0 None.
Definition sample_batch : list IncomingClaim :=
  [mkIncomingClaim 5 "altitude" (PInt 3000) FOQA (Some (f_of_int 1));
   mkIncomingClaim 5 "flaps" (PStr "UP") FOQA None].

Example a_batch_is_stored :
  (handle_tenant 1 1 (SubmitClaims "MEMBER" 12 sample_batch) (world_of (sample_tenancy_db ∅))).1
  = Ok (Inserted 2).
Proof. vm_compute. reflexivity. Qed.
Example a_foreign_run_is_not_found :
  (handle_tenant 1 1 (SubmitClaims "MEMBER" 22 sample_batch)
     (world_of (sample_tenancy_db {[ 22%N := sample_foreign_run ]}))).1
  = Raise (TenantIngestionRunNotFoundError 22 1).
Proof. vm_compute. reflexivity. Qed.
