(* ===== verification/TenantIsolation.v ===== *)
(** Isolation of tenants: what a tenant is answered and what its request does depends
    only on the public tables and on its own rows, and changes only its own rows,
    whatever other transactions do meanwhile to the rows of others. *)
From S2P Require Import Prelude Text PyFloat PyVal PyDate Entities Store Json Logic Publication.
From S2P Require Import PyRe Deidentification Tenancy.
Import TenantDb.
Open Scope string_scope.
Open Scope list_scope.
Open Scope Z_scope.
#[local] Set Default Proof Using "Type*".

(** ** What a tenant can see *)
Definition own {A} (tb : TenantTable A) (t : UUID) (db : DB) : gmap UUID A :=
  filter (λ kv, tb_tenant tb kv.2 = Some t) (table tb db).

Definition all_tables (P : ∀ A, TenantTable A → Prop) : Prop :=
  P _ sources ∧ P _ runs ∧ P _ claims ∧ P _ overlays ∧ P _ reports ∧ P _ associations
  ∧ P _ usage ∧ P _ rollups.

(** The two tables agree on the rows of [t] and on the identifiers [ids], which are
    those of its rows and those its requests are still to draw. *)
Record same_rows (t : UUID) (ids : UUID → Prop) (db1 db2 : DB) {A} (tb : TenantTable A) : Prop := {
  sr_own : own tb t db1 = own tb t db2;
  sr_ids : ∀ k, ids k → table tb db1 !! k = table tb db2 !! k;
  sr_mine : ∀ k x, own tb t db1 !! k = Some x → ids (tb_id tb x);
}.

Record same_view (t : UUID) (ids : UUID → Prop) (db1 db2 : DB) : Prop := {
  sv_events : db_events db1 = db_events db2;
  sv_projections : db_projections db1 = db_projections db2;
  sv_tenant : tt_tenants (db_tenancy db1) !! t = tt_tenants (db_tenancy db2) !! t;
  sv_rows : all_tables (λ A tb, same_rows t ids db1 db2 tb);
}.

(** A table of the schema: replacing its rows by rows that agree keeps the views. *)
Class InSchema {A} (tb : TenantTable A) := {
  schema_get : ∀ f T, tb_get tb (tb_upd tb f T) = f (tb_get tb T);
  schema_rows : ∀ t ids db1 db2, same_view t ids db1 db2 → same_rows t ids db1 db2 tb;
  schema_upd : ∀ t ids f1 f2 db1 db2, same_view t ids db1 db2 →
    same_rows t ids (upd_table tb f1 db1) (upd_table tb f2 db2) tb →
    same_view t ids (upd_table tb f1 db1) (upd_table tb f2 db2);
}.

Ltac solve_schema :=
  constructor; [done|by intros t ids db1 db2 [_ _ _ (?&?&?&?&?&?&?&?)]
    |intros t ids f1 f2 db1 db2 [He Hp Ht (?&?&?&?&?&?&?&?)] Hr; constructor;
     [done|done|done|refine (conj _ (conj _ (conj _ (conj _ (conj _ (conj _ (conj _ _)))))));
       first [exact Hr|lazymatch goal with
              | H : same_rows _ _ _ _ ?tb |- same_rows _ _ _ _ ?tb =>
                  destruct H as [Ho Hi Hm]; constructor; [exact Ho|exact Hi|exact Hm]
              end]]].
#[export] Instance sources_in : InSchema sources. Proof. solve_schema. Qed.
#[export] Instance runs_in : InSchema runs. Proof. solve_schema. Qed.
#[export] Instance claims_in : InSchema claims. Proof. solve_schema. Qed.
#[export] Instance overlays_in : InSchema overlays. Proof. solve_schema. Qed.
#[export] Instance reports_in : InSchema reports. Proof. solve_schema. Qed.
#[export] Instance associations_in : InSchema associations. Proof. solve_schema. Qed.
#[export] Instance usage_in : InSchema usage. Proof. solve_schema. Qed.
#[export] Instance rollups_in : InSchema rollups. Proof. solve_schema. Qed.

Section rows.
Context {A : Type} (tb : TenantTable A) `{!InSchema tb} (t : UUID).

Lemma table_upd f db : table tb (upd_table tb f db) = f (table tb db).
Proof. unfold table, upd_table, upd_tenancy. simpl. apply schema_get. Qed.

(** A selection among the rows of the tenant. *)
Lemma select_own P db : (∀ x, P x = true → tb_tenant tb x = Some t) →
  select tb P db = rows (filter (λ kv, P kv.2 = true) (own tb t db)).
Proof.
  intros HP. unfold select, own. f_equal. apply map_eq. intros k. apply option_eq. intros x.
  rewrite !map_lookup_filter_Some. simpl. naive_solver.
Qed.

Lemma own_insert k x db : tb_tenant tb x = Some t → own tb t (upd_table tb <[k := x]> db) = <[k := x]> (own tb t db).
Proof.
  intros Hx. unfold own. rewrite table_upd. by rewrite map_filter_insert_True.
Qed.

Context (ids : UUID → Prop).

Lemma select_same P db1 db2 : (∀ x, P x = true → tb_tenant tb x = Some t) →
  same_view t ids db1 db2 → select tb P db1 = select tb P db2.
Proof.
  intros HP Hv. rewrite !select_own by done. by rewrite (sr_own _ _ _ _ _ (schema_rows t ids db1 db2 Hv)).
Qed.

Lemma lookup_same db1 db2 k : ids k → same_view t ids db1 db2 →
  table tb db1 !! k = table tb db2 !! k.
Proof. intros Hk Hv. by apply (sr_ids _ _ _ _ _ (schema_rows t ids db1 db2 Hv)). Qed.

Lemma insert_same x db1 db2 : same_view t ids db1 db2 → tb_tenant tb x = Some t →
  ids (tb_id tb x) →
  same_view t ids (upd_table tb <[tb_id tb x := x]> db1) (upd_table tb <[tb_id tb x := x]> db2).
Proof.
  intros Hv Hx Hid. apply schema_upd; [done|].
  destruct (schema_rows t ids db1 db2 Hv) as [Ho Hn Hm]. split.
  - by rewrite !own_insert, Ho.
  - intros k' Hk'. rewrite !table_upd. destruct (decide (k' = tb_id tb x)) as [->|].
    + by rewrite !lookup_insert_eq.
    + rewrite !lookup_insert_ne by done. auto.
  - intros k y. rewrite own_insert by done.
    intros [[<- <-]|[_ Hy]]%lookup_insert_Some; [done|by eapply Hm].
Qed.

(** An insert under an identifier the request drew itself. *)
Lemma insert_row_same name ok x db1 db2 :
  same_view t ids db1 db2 → tb_tenant tb x = Some t → ids (tb_id tb x) →
  (insert_row tb name ok x db1).1 = (insert_row tb name ok x db2).1
  ∧ same_view t ids (insert_row tb name ok x db1).2 (insert_row tb name ok x db2).2.
Proof.
  intros Hv Hx Hid. unfold insert_row. destruct (negb ok); [done|].
  rewrite <- (lookup_same db1 db2 _ Hid Hv). destruct (table tb db1 !! _) eqn:E1; [done|].
  rewrite Hx, <- (sv_tenant _ _ _ _ Hv). destruct (tt_tenants _ !! t); [|done].
  split; [done|]. by apply insert_same.
Qed.

Lemma insert_all_same name ok l db1 db2 :
  same_view t ids db1 db2 → Forall (λ x, tb_tenant tb x = Some t ∧ ids (tb_id tb x)) l →
  (insert_all tb name ok l db1).1 = (insert_all tb name ok l db2).1
  ∧ same_view t ids (insert_all tb name ok l db1).2 (insert_all tb name ok l db2).2.
Proof.
  revert db1 db2. induction l as [|x l IH]; intros db1 db2 Hv Hl; [done|]. simpl.
  apply Forall_cons in Hl as [[Hx Hk] Hl].
  destruct (insert_row_same name (ok x) x db1 db2 Hv Hx Hk) as [Er Hv'].
  destruct (insert_row tb name (ok x) x db1) as [r1 d1].
  destruct (insert_row tb name (ok x) x db2) as [r2 d2]. simpl in Er, Hv'. subst r2.
  destruct r1 as [[]|e]; [by apply IH|done].
Qed.
End rows.

(** ** Two runs side by side *)
Section side_by_side.
Context (t : UUID) (ids : UUID → Prop).

(** Two worlds the tenant cannot tell apart: the tables agree on what it sees, and
    so do any two changes that other transactions commit at the same moment. *)
Record low (w1 w2 : World) : Prop := {
  lo_db : same_view t ids (w_db w1) (w_db w2);
  lo_committed : same_view t ids (w_committed w1) (w_committed w2);
  lo_env : Forall2 (λ f1 f2, ∀ db1 db2, same_view t ids db1 db2 → same_view t ids (f1 db1) (f2 db2))
             (w_env w1) (w_env w2);
  lo_now : w_now w1 = w_now w2;
  lo_uuid : w_uuid w1 = w_uuid w2;
  lo_level : ∀ k, (w_uuid w1 ≤ k)%N → ids k;
}.

(** [m] answers the same in both worlds, with an answer that satisfies [Q], and the
    worlds stay alike. *)
Definition Secure {A} (Q : A → Prop) (m : M A) : Prop := ∀ w1 w2, low w1 w2 →
  (m w1).1 = (m w2).1 ∧ (∀ a, (m w1).1 = Ok a → Q a) ∧ low (m w1).2 (m w2).2.

Lemma Secure_ret {A} (Q : A → Prop) a : Q a → Secure Q (mret a).
Proof. intros HQ w1 w2 Hw. split_and!; [done|by intros ? [= <-]|done]. Qed.
Lemma Secure_raise {A} (Q : A → Prop) e : Secure Q (raise e).
Proof. by intros w1 w2 Hw. Qed.
Lemma Secure_lift {A} (Q : A → Prop) r : (∀ a, r = Ok a → Q a) → Secure Q (lift_res r).
Proof. intros HQ w1 w2 Hw. by split_and!. Qed.

Lemma Secure_bind {A B} (P : A → Prop) (Q : B → Prop) (m : M A) (f : A → M B) :
  Secure P m → (∀ a, P a → Secure Q (f a)) → Secure Q (x ← m; f x).
Proof.
  intros Hm Hf w1 w2 Hw. unfold mbind, M_bind. destruct (Hm w1 w2 Hw) as (E & HP & Hw').
  destruct (m w1) as [r1 v1], (m w2) as [r2 v2]. simpl in *. subst r2.
  destruct r1 as [a|e]; [|done]. by apply Hf; [apply HP|].
Qed.

Lemma Secure_weaken {A} (P Q : A → Prop) (m : M A) : Secure P m → (∀ a, P a → Q a) → Secure Q m.
Proof. intros Hm HPQ w1 w2 Hw. destruct (Hm w1 w2 Hw) as (E & HP & Hw'). eauto. Qed.

Lemma Secure_uuid4 : Secure ids uuid4.
Proof.
  intros w1 w2 [Hd Hc He Hn Hu Hl]. unfold uuid4. simpl. rewrite <- Hu. split; [done|].
  split; [intros ? [= <-]; by apply Hl|].
  constructor; simpl; [done|done|done|done|done|]. intros k Hk. apply Hl. lia.
Qed.

Lemma Secure_now : Secure (λ _, True) utc_now.
Proof.
  intros w1 w2 [Hd Hc He Hn Hu Hl]. unfold utc_now. simpl. rewrite <- Hn. split; [done|].
  split; [done|]. by constructor.
Qed.

Lemma Secure_commit : Secure (λ _, True) commit.
Proof. intros w1 w2 [Hd Hc He Hn Hu Hl]. split; [done|]. split; [done|]. by constructor. Qed.

Lemma low_rollback w1 w2 : low w1 w2 → low (rollback_world w1) (rollback_world w2).
Proof. intros [Hd Hc He Hn Hu Hl]. by constructor. Qed.

Lemma Secure_rollback : Secure (λ _, True) rollback.
Proof. intros w1 w2 Hw. split; [done|]. split; [done|]. by apply low_rollback. Qed.

Lemma low_env_step w1 w2 : low w1 w2 → low (env_step w1) (env_step w2).
Proof.
  intros [Hd Hc He Hn Hu Hl]. unfold env_step. inversion He as [|f1 f2 e1 e2 Hf He' E1 E2].
  - by constructor; rewrite <- ?E1, <- ?E2.
  - constructor; simpl; auto.
Qed.

(** A statement on what the tenant sees. *)
Lemma Secure_stmt {A} (Q : A → Prop) (f : DB → Res A * DB) :
  (∀ db1 db2, same_view t ids db1 db2 →
     (f db1).1 = (f db2).1 ∧ (∀ a, (f db1).1 = Ok a → Q a) ∧ same_view t ids (f db1).2 (f db2).2) →
  Secure Q (stmt f).
Proof.
  intros Hf w1 w2 Hw. apply low_env_step in Hw. unfold stmt.
  destruct (Hf _ _ (lo_db _ _ Hw)) as (E & HQ & Hv).
  destruct (f (w_db (env_step w1))) as [r1 d1], (f (w_db (env_step w2))) as [r2 d2].
  simpl in *. subst r2. destruct r1 as [a|e]; simpl; [|done]. split; [done|]. split; [done|].
  destruct Hw as [Hd Hc He Hn Hu Hl]. by constructor.
Qed.

Lemma Secure_query {A} (Q : A → Prop) (f : DB → A) :
  (∀ db1 db2, same_view t ids db1 db2 → f db1 = f db2 ∧ Q (f db1)) → Secure Q (query f).
Proof.
  intros Hf. apply Secure_stmt. intros db1 db2 Hv. destruct (Hf db1 db2 Hv) as [E HQ]. simpl.
  rewrite E in *. split; [done|]. split; [by intros ? [= <-]|done].
Qed.

Lemma Secure_exec f : (∀ db1 db2, same_view t ids db1 db2 → same_view t ids (f db1) (f db2)) →
  Secure (λ _, True) (exec f).
Proof. intros Hf. apply Secure_stmt. intros db1 db2 Hv. simpl. auto. Qed.

Lemma Secure_with_uow {A} (Q : A → Prop) (m : M A) : Secure Q m → Secure Q (with_uow m).
Proof.
  intros Hm w1 w2 Hw. unfold with_uow. destruct (Hm w1 w2 Hw) as (E & HQ & Hw').
  destruct (m w1), (m w2). simpl in *. split; [done|]. split; [done|]. by apply low_rollback.
Qed.

Lemma Secure_select {A} (tb : TenantTable A) `{!InSchema tb} P :
  (∀ x, P x = true → tb_tenant tb x = Some t) →
  Secure (λ o, ∀ x, o = Some x → ids (tb_id tb x)) (scalar_query (select tb P)).
Proof.
  intros HP. apply Secure_stmt. intros db1 db2 Hv. simpl.
  rewrite <- (select_same tb t ids P db1 db2 HP Hv). split; [done|]. split; [|done].
  intros a Ha x ->. unfold scalar_one_or_none in Ha.
  destruct (select tb P db1) as [|y [|]] eqn:E; try done. injection Ha as ->.
  assert (x ∈ select tb P db1) as Hx by (rewrite E; by left).
  rewrite (select_own tb t) in Hx by done. apply elem_of_rows in Hx as [k Hk].
  apply map_lookup_filter_Some in Hk as [Hk _]. by eapply sr_mine; [apply schema_rows|].
Qed.
End side_by_side.

Ltac secure_step :=
  lazymatch goal with
  | |- ∀ _, _ => intros ?
  | |- Secure _ _ _ (mret _) => apply Secure_ret
  | |- Secure _ _ _ (raise _) => apply Secure_raise
  | |- Secure _ _ _ (mbind _ uuid4) => eapply Secure_bind; [apply Secure_uuid4|]
  | |- Secure _ _ _ (mbind _ utc_now) => eapply Secure_bind; [apply Secure_now|]
  | |- Secure _ _ _ (mbind _ commit) => eapply Secure_bind; [apply Secure_commit|]
  | |- Secure _ _ _ (mbind _ rollback) => eapply Secure_bind; [apply Secure_rollback|]
  | |- Secure _ _ _ (match ?x with _ => _ end) => destruct x eqn:?
  end.

(** ** The repositories *)
Section repositories.
Context (t : UUID) (ids : UUID → Prop).
#[local] Abbreviation Sec := (Secure t ids).

Lemma update_same {A} (tb : TenantTable A) `{!InSchema tb} P f db1 db2 :
  same_view t ids db1 db2 →
  (∀ k x, P k x = true → tb_tenant tb x = Some t) →
  (∀ x, tb_tenant tb (f x) = tb_tenant tb x) → (∀ x, tb_id tb (f x) = tb_id tb x) →
  same_view t ids (upd_table tb (update_where P f) db1) (upd_table tb (update_where P f) db2).
Proof.
  intros Hv HP Hf Hi. apply schema_upd; [done|].
  destruct (schema_rows t ids db1 db2 Hv) as [Ho Hn Hm].
  assert (∀ db, own tb t (upd_table tb (update_where P f) db) = update_where P f (own tb t db)) as Hown.
  { intros db. unfold own. rewrite table_upd by done. apply map_eq. intros k.
    apply option_eq. intros y. rewrite lookup_update_where, map_lookup_filter_Some.
    rewrite lookup_update_where. simpl. destruct (table tb db !! k) as [x|] eqn:E; simpl.
    - destruct (decide (tb_tenant tb x = Some t)) as [Ht|Ht].
      + rewrite (map_lookup_filter_Some_2 _ _ _ x E Ht). simpl. split; [by intros [? _]|].
        intros [= <-]. split; [done|]. destruct (P k x); [by rewrite Hf|done].
      + rewrite (map_lookup_filter_None_2 _ _ k) by (right; intros y' Hy' Hc; simpl in Hc; congruence). simpl.
        split; [|done]. intros [[= <-] Hy]. destruct (P k x) eqn:Ep; [|done].
        by apply HP in Ep.
    - rewrite map_lookup_filter_None_2 by (by left). split; [by intros [? _]|done]. }
  split; [by rewrite !Hown, Ho| |].
  - intros k Hk. by rewrite !table_upd, !lookup_update_where, Hn.
  - intros k y. rewrite Hown, lookup_update_where. intros (x & Hx & ->)%fmap_Some.
    destruct (P k x); [rewrite Hi|]; by eapply Hm.
Qed.

Lemma Secure_rows {A B} (tb : TenantTable A) `{!InSchema tb} P (f : list A → B) :
  (∀ x, P x = true → tb_tenant tb x = Some t) →
  Sec (λ _, True) (query (λ db, f (select tb P db))).
Proof.
  intros HP. apply Secure_query. intros db1 db2 Hv. by rewrite (select_same tb t ids P db1 db2).
Qed.

Lemma Secure_insert {A} (tb : TenantTable A) `{!InSchema tb} name ok x :
  tb_tenant tb x = Some t → ids (tb_id tb x) → Sec (λ _, True) (stmt (insert_row tb name ok x)).
Proof.
  intros Hx Hid. apply Secure_stmt. intros db1 db2 Hv.
  by destruct (insert_row_same tb t ids name ok x db1 db2 Hv Hx Hid) as [-> ?].
Qed.

Lemma Secure_insert_all {A} (tb : TenantTable A) `{!InSchema tb} name ok l :
  Forall (λ x, tb_tenant tb x = Some t ∧ ids (tb_id tb x)) l →
  Sec (λ _, True) (stmt (insert_all tb name ok l)).
Proof.
  intros Hl. apply Secure_stmt. intros db1 db2 Hv.
  by destruct (insert_all_same tb t ids name ok l db1 db2 Hv Hl) as [-> ?].
Qed.

Lemma Secure_public {A} (f : DB → A) :
  (∀ db1 db2, same_view t ids db1 db2 → f db1 = f db2) → Sec (λ _, True) (query f).
Proof. intros Hf. apply Secure_query. auto. Qed.

Lemma Secure_projection e : Sec (λ _, True) (ProjectionRepo.get e).
Proof. apply Secure_public. intros db1 db2 [? Hp ? ?]. by rewrite Hp. Qed.

Lemma Secure_existing l : Sec (λ _, True) (find_existing_ids l).
Proof.
  unfold find_existing_ids. destruct (bool_decide _); [by apply Secure_ret|].
  apply Secure_public. intros db1 db2 [He ? ? ?]. by rewrite He.
Qed.

Lemma Secure_make_events k metric u r :
  Sec (Forall (λ x, ue_tenant_id x = Some t ∧ ids (ue_id x)))
    (MeteringService.make_events k metric (Some t) u r).
Proof.
  induction k as [|k IH]; [by apply Secure_ret|]. cbn [MeteringService.make_events].
  eapply Secure_bind; [apply Secure_uuid4|]. intros id Hid. cbn beta in Hid.
  eapply Secure_bind; [apply Secure_now|]. intros at_ _.
  eapply Secure_bind; [apply IH|]. intros rest Hrest. apply Secure_ret. by constructor.
Qed.

Lemma Secure_record metric u r q : Sec (λ _, True) (MeteringService.record metric (Some t) u r q).
Proof.
  unfold MeteringService.record. cbv zeta. destruct (_ =? 0); [by apply Secure_ret|].
  eapply Secure_bind; [apply Secure_make_events|]. intros l Hl. unfold UsageRepo.add_many.
  destruct (bool_decide _); [by apply Secure_ret|]. by apply Secure_insert_all; [apply _|].
Qed.
End repositories.

(** The lemma that secures the next call. *)
Create HintDb secure.
#[export] Hint Resolve Secure_uuid4 Secure_now Secure_commit Secure_rollback Secure_projection
  Secure_existing Secure_record Secure_select : secure.

Ltac secure_call :=
  eapply Secure_bind; [solve [eauto 2 with secure]|cbn beta; intros ? ?].
Ltac secure :=
  repeat lazymatch goal with
  | |- Secure _ _ _ (mret _) => apply Secure_ret; trivial
  | |- Secure _ _ _ (raise _) => apply Secure_raise
  | |- Secure _ _ _ (if _ then _ else _) => case_match
  | |- Secure _ _ _ (match _ with _ => _ end) => case_match
  | |- Secure _ _ _ (let _ := _ in _) => cbv zeta
  | |- Secure _ _ _ (mbind _ _) => secure_call
  end.

Section use_cases.
Context (t : UUID) (ids : UUID → Prop).
Abbreviation Sec := (Secure t ids (λ _, True)).

Lemma Secure_same_tenant tenant_id :
  Secure t ids (λ _, tenant_id = t) (require_same_tenant t tenant_id).
Proof.
  unfold require_same_tenant.
  destruct (N.eqb_spec t tenant_id); [by apply Secure_ret|apply Secure_raise].
Qed.
Lemma Secure_write_role role : Sec (require_write_role role).
Proof. unfold require_write_role. secure. Qed.

Lemma Secure_require {A} owner (m : M A) : (owner = t → Sec m) → Sec (require_tenant t owner m).
Proof.
  intros Hm. unfold require_tenant. destruct (N.eqb_spec owner t); [auto|apply Secure_raise].
Qed.

Lemma Secure_source_add s : ids (ts_id s) → Sec (TenantSourceRepo.add t s).
Proof.
  intros Hid. apply Secure_require. intros Ht. apply Secure_stmt. intros db1 db2 Hv.
  rewrite (select_same sources t ids (TenantSourceRepo.same_name s) db1 db2); [|..|done].
  - destruct (insert_row_same sources t ids "tenant_sources" (TenantSourceRepo.storable s) s
      db1 db2 Hv ltac:(by simpl; rewrite Ht) Hid) as [E ?].
    by destruct (select _ _ _), (TenantSourceRepo.storable s); simpl; rewrite ?E.
  - intros x. unfold TenantSourceRepo.same_name. simpl. rewrite Ht.
    by intros [->%N.eqb_eq _]%andb_true_iff.
Qed.

Lemma Secure_source_get id : Sec (TenantSourceRepo.get t id).
Proof.
  eapply Secure_weaken; [apply Secure_select; [apply _|]|done].
  intros x [_ E%N.eqb_eq]%andb_true_iff. simpl. by rewrite E.
Qed.

Lemma Secure_run_get id : Sec (TenantRunRepo.get t id).
Proof.
  eapply Secure_weaken; [apply Secure_select; [apply _|]|done].
  intros x [_ E%N.eqb_eq]%andb_true_iff. simpl. by rewrite E.
Qed.

Lemma Secure_report_get id : Sec (TenantReportRepo.get t id).
Proof.
  eapply Secure_weaken; [apply Secure_select; [apply _|]|done].
  intros x [_ E%N.eqb_eq]%andb_true_iff. simpl. by rewrite E.
Qed.

Lemma Secure_overlay_get e :
  Secure t ids (λ o, ∀ x, o = Some x → ids (ov_id x)) (TenantOverlayRepo.get t e).
Proof.
  apply (Secure_select t ids overlays). intros x [E%N.eqb_eq _]%andb_true_iff. simpl. by rewrite E.
Qed.

Lemma Secure_add_claims l :
  Forall (λ c, ids (tc_id c)) l → Sec (TenantClaimRepo.add_many t l).
Proof.
  intros Hl. unfold TenantClaimRepo.add_many. destruct (forallb _ l) eqn:E; [|apply Secure_raise].
  apply Secure_insert_all; [apply _|]. rewrite forallb_forall in E.
  apply Forall_forall. intros c Hc. split; [|by eapply Forall_forall in Hl].
  simpl. specialize (E c (proj1 (list_elem_of_In _ _) Hc)). apply N.eqb_eq in E. by rewrite E.
Qed.

Lemma Secure_claims_by_kind e kind : Sec (TenantClaimRepo.list_for_event_by_kind t e kind).
Proof.
  apply (Secure_rows t ids claims). intros x [[E%N.eqb_eq _]%andb_true_iff _]%andb_true_iff.
  simpl. by rewrite E.
Qed.

Lemma Secure_run_add r : ids (tr_id r) → Sec (TenantRunRepo.add t r).
Proof. intros Hid. apply Secure_require. intros Ht. apply Secure_insert; [apply _| |done].
  simpl. by rewrite Ht. Qed.

Lemma Secure_run_update id status at_ : Sec (TenantRunRepo.update_status t id status at_).
Proof.
  apply Secure_exec. intros db1 db2 Hv. apply update_same; [apply _|done| |done|done].
  intros k x [_ E%N.eqb_eq]%andb_true_iff. simpl. by rewrite E.
Qed.

Lemma Secure_upsert o : ids (ov_id o) → Sec (TenantOverlayRepo.upsert t o).
Proof.
  intros Hid. apply Secure_require. intros Ht. apply Secure_stmt. intros db1 db2 Hv.
  destruct (negb _); [done|].
  assert (∀ x, TenantOverlayRepo.is_for t (ov_event_id o) x = true →
    tb_tenant overlays x = Some t) as Hfor.
  { intros x [E%N.eqb_eq _]%andb_true_iff. simpl. by rewrite E. }
  rewrite (select_same overlays t ids _ db1 db2 Hfor Hv).
  destruct (select _ _ db2) as [|old ?].
  - rewrite (sv_events _ _ _ _ Hv). destruct (db_events db2 !! ov_event_id o); [|done].
    destruct (insert_row_same overlays t ids "tenant_event_overlays" true o db1 db2 Hv
      ltac:(by simpl; rewrite Ht) Hid) as [E Hv'].
    destruct (insert_row _ _ _ _ db1) as [r1 d1], (insert_row _ _ _ _ db2) as [r2 d2].
    simpl in *. by subst.
  - split; [done|]. split; [done|]. apply update_same; [apply _|done| |done|done]. intros k x. apply Hfor.
Qed.

Lemma Secure_overlay_list limit after_id : Sec (TenantOverlayRepo.list_for_tenant t limit after_id).
Proof.
  unfold TenantOverlayRepo.list_for_tenant. eapply (Secure_bind t ids (λ _, True)).
  - destruct after_id as [id|]; [|by apply Secure_ret]. apply Secure_query. intros db1 db2 Hv.
    split; [|done].
    assert (∀ db, (o ← table overlays db !! id;
      if (ov_tenant_id o =? t)%N then Some (ov_updated_at o, id) else None)
      = (λ o, (ov_updated_at o, id)) <$> own overlays t db !! id) as Hcur.
    { intros db. unfold own. destruct (table overlays db !! id) as [o|] eqn:E; simpl.
      - destruct (N.eqb_spec (ov_tenant_id o) t) as [Ho|Ho].
        + rewrite (map_lookup_filter_Some_2 _ _ _ o E); [done|simpl; by rewrite Ho].
        + rewrite map_lookup_filter_None_2; [done|]. right. intros y Hy Hc. simpl in Hc.
          unfold table in E. simpl in E. rewrite E in Hy. injection Hy as <-. by injection Hc.
      - by rewrite map_lookup_filter_None_2 by (by left). }
    rewrite !Hcur. by rewrite (sr_own _ _ _ _ _ (schema_rows t ids db1 db2 Hv)).
  - intros cursor _. eapply Secure_bind.
    + apply (Secure_rows t ids overlays _
        (λ l, take (S limit) (py_sorted TenantOverlayRepo.newest_first l))). intros x [E%N.eqb_eq _]%andb_true_iff. simpl. by rewrite E.
    + intros found _. by apply Secure_ret.
Qed.

Lemma Secure_report_add r : ids (sr_id r) → Sec (TenantReportRepo.add t r).
Proof. intros Hid. apply Secure_require. intros Ht. apply Secure_insert; [apply _| |done].
  simpl. by rewrite Ht. Qed.

Lemma Secure_association_add a : ids (as_id a) → Sec (TenantAssociationRepo.add t a).
Proof.
  intros Hid. apply Secure_require. intros Ht. apply Secure_stmt. intros db1 db2 Hv.
  rewrite (sv_events _ _ _ _ Hv). destruct (db_events db2 !! _); [|done].
  by destruct (insert_row_same associations t ids "tenant_event_associations" true a db1 db2
    Hv ltac:(by simpl; rewrite Ht) Hid) as [-> ?].
Qed.

Lemma Secure_associations e : Sec (TenantAssociationRepo.list_for_event t e).
Proof.
  apply (Secure_rows t ids associations). intros x [E%N.eqb_eq _]%andb_true_iff.
  simpl. by rewrite E.
Qed.

Lemma Secure_rollups from to : Sec (RollupRepo.list_for_tenant t from to).
Proof.
  apply (Secure_rows t ids rollups). intros x [[E%N.eqb_eq _]%andb_true_iff _]%andb_true_iff.
  simpl. by rewrite E.
Qed.
End use_cases.

#[export] Hint Resolve Secure_same_tenant Secure_write_role Secure_source_add Secure_source_get
  Secure_run_get Secure_report_get Secure_overlay_get Secure_add_claims Secure_claims_by_kind
  Secure_run_add Secure_run_update Secure_upsert Secure_overlay_list Secure_report_add
  Secure_association_add Secure_associations Secure_rollups : secure.

(** ** The use cases *)
Section requests.
Context (t : UUID) (ids : UUID → Prop).
Abbreviation Sec := (Secure t ids (λ _, True)).

Lemma Secure_register tenant_id role name kind tier :
  Sec (RegisterTenantSource.execute tenant_id t role name kind tier).
Proof. unfold RegisterTenantSource.execute. secure_call. subst. secure. Qed.

Lemma Secure_read_overlay tenant_id e : Sec (GetTenantEventOverlay.execute tenant_id t e).
Proof. unfold GetTenantEventOverlay.execute. secure_call. subst. secure. Qed.

Lemma Secure_list_events tenant_id limit after_id :
  Sec (ListTenantEvents.execute tenant_id t limit after_id).
Proof. unfold ListTenantEvents.execute. secure_call. subst. secure. Qed.

Lemma Secure_open_run tenant_id role source :
  Sec (OpenTenantIngestionRun.execute tenant_id t role source).
Proof. unfold OpenTenantIngestionRun.execute. secure_call. subst. secure. Qed.

Lemma Secure_complete_run tenant_id role run status :
  Sec (CompleteTenantIngestionRun.execute tenant_id t role run status).
Proof. unfold CompleteTenantIngestionRun.execute. secure_call. subst. secure. Qed.

Lemma Secure_usage tenant_id from to : Sec (GetTenantUsage.execute tenant_id t from to).
Proof. unfold GetTenantUsage.execute. secure_call. subst. secure. Qed.

Lemma Secure_upsert_overlay tenant_id role e notes fields :
  Sec (UpsertTenantEventOverlay.execute tenant_id t role e notes fields).
Proof.
  unfold UpsertTenantEventOverlay.execute. secure_call. subst. do 2 secure_call.
  case_match; [|secure]. secure_call.
  eapply Secure_bind; [apply Secure_overlay_get|]. cbn beta. intros existing Hex.
  eapply (Secure_bind t ids (λ o, ids (ov_id o))); [|intros o Ho; secure].
  destruct existing as [old|]; [|secure]. apply Secure_ret. simpl. by apply (Hex old).
Qed.

Lemma Secure_to_claims tenant_id run l :
  Secure t ids (Forall (λ c, ids (tc_id c)))
    (map_m (SubmitTenantClaimsBatch.to_claim tenant_id run) l).
Proof.
  induction l as [|c l IH]; [by apply Secure_ret|]. simpl.
  eapply (Secure_bind t ids (λ c, ids (tc_id c))).
  - unfold SubmitTenantClaimsBatch.to_claim. secure.
  - intros c' Hc. eapply Secure_bind; [apply IH|]. intros rest Hrest. apply Secure_ret. by constructor.
Qed.

Lemma Secure_submit_claims tenant_id role run l :
  Sec (SubmitTenantClaimsBatch.execute tenant_id t role run l).
Proof.
  unfold SubmitTenantClaimsBatch.execute. secure_call. subst. secure_call.
  case_match; [secure|]. case_match; [secure|]. secure_call. case_match; [|secure].
  case_match; [secure|]. cbv zeta. secure_call. case_match; [secure|].
  eapply Secure_bind; [apply Secure_to_claims|]. cbn beta. intros persisted Hp. secure.
Qed.

Lemma Secure_check_event e : Sec (SubmitTenantSafetyReport.check_event e).
Proof. unfold SubmitTenantSafetyReport.check_event. secure. Qed.

Lemma Secure_associate input report : Sec (SubmitTenantSafetyReport.associate t input report).
Proof. unfold SubmitTenantSafetyReport.associate. secure. Qed.

Lemma Secure_submit_report tenant_id role input :
  Sec (SubmitTenantSafetyReport.execute tenant_id t role input).
Proof.
  pose proof Secure_check_event. pose proof Secure_associate.
  unfold SubmitTenantSafetyReport.execute. secure_call. subst. secure_call.
  case_match; [secure|]. cbv zeta.
  eapply (Secure_bind t ids (λ _, True)); [by apply Secure_lift|]. intros cleaned _. secure.
Qed.

Lemma Secure_load_reports l : Sec (ListTenantEvidenceForEvent.load_reports t l).
Proof. induction l; simpl; secure. Qed.

Lemma Secure_list_evidence tenant_id e : Sec (ListTenantEvidenceForEvent.execute tenant_id t e).
Proof.
  pose proof Secure_load_reports.
  unfold ListTenantEvidenceForEvent.execute. secure_call. subst. secure.
Qed.

Lemma Secure_handle tenant_id r : Sec (handle_tenant t tenant_id r).
Proof.
  pose proof Secure_register. pose proof Secure_read_overlay. pose proof Secure_list_events.
  pose proof Secure_upsert_overlay. pose proof Secure_open_run. pose proof Secure_submit_claims.
  pose proof Secure_complete_run. pose proof Secure_submit_report. pose proof Secure_list_evidence.
  pose proof Secure_usage. destruct r; simpl; secure.
Qed.
End requests.

(** C24: a tenant's request is answered alike, and has the same effect on what the tenant
    can see, in any two worlds that agree on the public tables and on the tenant's own
    rows, whatever the rows of other tenants, and whatever other transactions commit
    between its statements, so long as these too look the same to the tenant. *)
Theorem tenant_noninterference (caller tenant_id : UUID) (ids : UUID → Prop) r w1 w2 :
  low caller ids w1 w2 →
  (handle_tenant caller tenant_id r w1).1 = (handle_tenant caller tenant_id r w2).1
  ∧ low caller ids (handle_tenant caller tenant_id r w1).2 (handle_tenant caller tenant_id r w2).2.
Proof.
  intros Hw. destruct (Secure_handle caller ids tenant_id r w1 w2 Hw) as (E & _ & Hw'). done.
Qed.

(** ** What a request leaves alone *)
Definition others {A} (tb : TenantTable A) (t : UUID) (db : DB) : gmap UUID A :=
  filter (λ kv, tb_tenant tb kv.2 ≠ Some t) (table tb db).
Definition same_others (t : UUID) (db db' : DB) {A} (tb : TenantTable A) : Prop :=
  others tb t db = others tb t db'.

(** The change touches rows of [t] only: no row of another tenant, and no public table. *)
Record own_change (t : UUID) (db db' : DB) : Prop := {
  oc_public : upd_tenancy (λ _, no_tenants) db = upd_tenancy (λ _, no_tenants) db';
  oc_tenants : tt_tenants (db_tenancy db) = tt_tenants (db_tenancy db');
  oc_others : all_tables (λ A tb, same_others t db db' tb);
}.

#[export] Instance own_change_preorder t : PreOrder (own_change t).
Proof.
  split.
  - intros db. constructor; [done|done|]. by repeat (apply conj; [done|]).
  - intros db1 db2 db3 [P1 T1 (?&?&?&?&?&?&?&?)] [P2 T2 (?&?&?&?&?&?&?&?)].
    constructor; [congruence|congruence|]. unfold all_tables, same_others in *.
    repeat (apply conj; [congruence|]). congruence.
Qed.

Class Framed {A} (tb : TenantTable A) := {
  framed_get : ∀ f T, tb_get tb (tb_upd tb f T) = f (tb_get tb T);
  framed_upd : ∀ t f db, same_others t db (upd_table tb f db) tb →
    own_change t db (upd_table tb f db);
}.
Ltac solve_framed :=
  constructor; [done|intros t f db Hs; constructor; [done|done|];
    refine (conj _ (conj _ (conj _ (conj _ (conj _ (conj _ (conj _ _)))))));
    first [exact Hs|reflexivity]].
#[export] Instance sources_framed : Framed sources. Proof. solve_framed. Qed.
#[export] Instance runs_framed : Framed runs. Proof. solve_framed. Qed.
#[export] Instance claims_framed : Framed claims. Proof. solve_framed. Qed.
#[export] Instance overlays_framed : Framed overlays. Proof. solve_framed. Qed.
#[export] Instance reports_framed : Framed reports. Proof. solve_framed. Qed.
#[export] Instance associations_framed : Framed associations. Proof. solve_framed. Qed.
#[export] Instance usage_framed : Framed usage. Proof. solve_framed. Qed.

Section frame.
Context {A : Type} (tb : TenantTable A) `{!Framed tb} (t : UUID).

Lemma frame_insert k x db : table tb db !! k = None → tb_tenant tb x = Some t →
  own_change t db (upd_table tb <[k := x]> db).
Proof.
  intros Hk Hx. apply framed_upd. unfold same_others, others, table, upd_table, upd_tenancy. simpl.
  rewrite framed_get, map_filter_insert_not'; [done| |].
  - simpl. intros Hc. by apply Hc.
  - unfold table in Hk. intros y Hy. congruence.
Qed.

Lemma frame_insert_row name ok x db r db' : tb_tenant tb x = Some t →
  insert_row tb name ok x db = (r, db') → own_change t db db'.
Proof.
  intros Hx. unfold insert_row. destruct (negb ok); [by intros [= _ <-]|].
  destruct (table tb db !! _) eqn:E; [by intros [= _ <-]|]. rewrite Hx.
  destruct (tt_tenants _ !! t); intros [= _ <-]; [by apply frame_insert|done].
Qed.

Lemma frame_insert_all name ok l db r db' : Forall (λ x, tb_tenant tb x = Some t) l →
  insert_all tb name ok l db = (r, db') → own_change t db db'.
Proof.
  revert db. induction l as [|x l IH]; intros db Hl; simpl; [by intros [= _ <-]|].
  apply Forall_cons in Hl as [Hx Hl].
  destruct (insert_row tb name (ok x) x db) as [[[]|e] d] eqn:E; [|by intros [= _ <-]].
  intros Hd. transitivity d; [by eapply frame_insert_row|by apply IH].
Qed.

Lemma frame_update P f db : (∀ k x, P k x = true → tb_tenant tb x = Some t) →
  (∀ x, tb_tenant tb (f x) = tb_tenant tb x) →
  own_change t db (upd_table tb (update_where P f) db).
Proof.
  intros HP Hf. apply framed_upd. unfold same_others, others, table, upd_table, upd_tenancy. simpl.
  rewrite framed_get. apply map_eq. intros k. apply option_eq. intros y.
  rewrite !map_lookup_filter_Some, lookup_update_where. simpl.
  destruct (tb_get tb (db_tenancy db) !! k) as [x|]; simpl; [|by split; intros [? _]].
  destruct (P k x) eqn:Ep; [|done]. apply HP in Ep.
  split; intros [[= <-] Hy]; exfalso; apply Hy; [done|by rewrite Hf].
Qed.
End frame.

(** A request keeps every statement that changes of its tenant's own rows keep. *)
Section requests_frame.
Context (t : UUID) (I : DB → Prop) (HI : ∀ db db', I db → own_change t db db' → I db').

Lemma Inv_insert {A} (tb : TenantTable A) `{!Framed tb} name ok x :
  tb_tenant tb x = Some t → Inv I (stmt (insert_row tb name ok x)).
Proof.
  intros Hx. apply Inv_stmt. intros db a db' Hdb E. eapply HI; [done|]. by eapply frame_insert_row.
Qed.

Lemma Inv_insert_all {A} (tb : TenantTable A) `{!Framed tb} name ok l :
  Forall (λ x, tb_tenant tb x = Some t) l → Inv I (stmt (insert_all tb name ok l)).
Proof.
  intros Hl. apply Inv_stmt. intros db a db' Hdb E. eapply HI; [done|]. by eapply frame_insert_all.
Qed.

Lemma Inv_require {A} owner (m : M A) : (owner = t → Inv I m) → Inv I (require_tenant t owner m).
Proof.
  intros Hm. unfold require_tenant. destruct (N.eqb_spec owner t); [auto|apply Inv_raise].
Qed.

Lemma Inv_record metric u r q : Inv I (MeteringService.record metric (Some t) u r q).
Proof.
  unfold MeteringService.record. cbv zeta. destruct (_ =? 0); [apply Inv_ret|].
  assert (∀ k w l w', MeteringService.make_events k metric (Some t) u r w = (Ok l, w') →
    Forall (λ x, ue_tenant_id x = Some t) l) as Hl.
  { induction k as [|k IH]; intros w l w'; simpl; [by intros [= <- _]|].
    unfold mbind, M_bind. simpl.
    destruct (MeteringService.make_events k _ _ _ _ _) as [[rest|e] w1] eqn:E; [|done].
    intros [= <- _]. constructor; [done|]. by eapply IH. }
  intros w Hw. unfold mbind, M_bind.
  assert (∀ k, Inv I (MeteringService.make_events k metric (Some t) u r)) as Hm.
  { induction k; simpl; repeat inv_step. done. }
  specialize (Hm (Z.to_nat (Z.max 0 q)) w Hw).
  destruct (MeteringService.make_events _ _ _ _ _ w) as [[l|e] w'] eqn:E; [|done].
  apply Hl in E. revert Hm. change (winv I w' → winv I (UsageRepo.add_many l w').2).
  intros Hw'. unfold UsageRepo.add_many. destruct (bool_decide _); [done|].
  by apply Inv_insert_all.
Qed.

Lemma Inv_source_add s : Inv I (TenantSourceRepo.add t s).
Proof.
  apply Inv_require. intros Ht. apply Inv_stmt. intros db a db' Hdb.
  destruct (select _ _ _); [|destruct (TenantSourceRepo.storable s); [done|]];
    intros E; (eapply HI; [done|]); eapply (frame_insert_row sources t); [|exact E| |exact E];
    simpl; by rewrite Ht.
Qed.

Lemma Inv_add_claims l : Inv I (TenantClaimRepo.add_many t l).
Proof.
  unfold TenantClaimRepo.add_many. destruct (forallb _ l) eqn:E; [|apply Inv_raise].
  apply Inv_insert_all; [apply _|]. rewrite forallb_forall in E. apply Forall_forall. intros c Hc.
  specialize (E c (proj1 (list_elem_of_In _ _) Hc)). apply N.eqb_eq in E. simpl. by rewrite E.
Qed.

Lemma Inv_run_add r : Inv I (TenantRunRepo.add t r).
Proof. apply Inv_require. intros Ht. apply Inv_insert; [apply _|]. simpl. by rewrite Ht. Qed.
Lemma Inv_report_add r : Inv I (TenantReportRepo.add t r).
Proof. apply Inv_require. intros Ht. apply Inv_insert; [apply _|]. simpl. by rewrite Ht. Qed.

Lemma Inv_association_add a : Inv I (TenantAssociationRepo.add t a).
Proof.
  apply Inv_require. intros Ht. apply Inv_stmt. intros db x db' Hdb.
  destruct (db_events db !! _); [|done]. intros E. eapply HI; [done|].
  eapply (frame_insert_row associations t); [|exact E]. simpl. by rewrite Ht.
Qed.

Lemma Inv_run_update id status at_ : Inv I (TenantRunRepo.update_status t id status at_).
Proof.
  apply Inv_exec. intros db Hdb. eapply HI; [done|]. apply frame_update; [apply _| |done].
  intros k x [_ E%N.eqb_eq]%andb_true_iff. simpl. by rewrite E.
Qed.

Lemma Inv_upsert o : Inv I (TenantOverlayRepo.upsert t o).
Proof.
  apply Inv_require. intros Ht. apply Inv_stmt. intros db x db' Hdb.
  destruct (negb _); [done|]. destruct (select _ _ db) as [|old rest].
  - destruct (db_events db !! _); [|done].
    destruct (insert_row _ _ _ _ db) as [r d] eqn:E. destruct r; [|done]. intros [= <- <-].
    eapply HI; [done|]. eapply (frame_insert_row overlays t); [|exact E]. simpl. by rewrite Ht.
  - intros [= <- <-]. eapply HI; [done|]. apply frame_update; [apply _| |done].
    intros k y [E%N.eqb_eq _]%andb_true_iff. simpl. by rewrite E.
Qed.

Lemma Inv_guarded {A} tenant_id (m : M A) : (tenant_id = t → Inv I m) →
  Inv I (require_same_tenant t tenant_id;; m).
Proof.
  intros Hm. unfold require_same_tenant. destruct (N.eqb_spec t tenant_id) as [<-|].
  - apply Inv_bind; [apply Inv_ret|auto].
  - by intros w Hw.
Qed.

#[local] Hint Resolve Inv_record Inv_source_add Inv_add_claims Inv_run_add Inv_report_add
  Inv_association_add Inv_run_update Inv_upsert : core.
Ltac frame :=
  repeat lazymatch goal with
  | |- Inv _ (mbind _ (require_same_tenant _ _)) => apply Inv_guarded; intros ->
  | |- Inv _ (let _ := _ in _) => cbv zeta
  | |- _ => first [solve [auto 1]|inv_step|apply Inv_scalar_query|apply Inv_query]
  end.

Lemma Inv_handle tenant_id r : Inv I (handle_tenant t tenant_id r).
Proof.
  assert (∀ l, Inv I (ListTenantEvidenceForEvent.load_reports t l)).
  { intros l; induction l; simpl; frame. }
  destruct r; simpl; (apply Inv_bind; [|frame]).
  - unfold RegisterTenantSource.execute, require_write_role. frame.
  - unfold GetTenantEventOverlay.execute. frame.
  - unfold ListTenantEvents.execute, TenantOverlayRepo.list_for_tenant. frame.
  - unfold UpsertTenantEventOverlay.execute, require_write_role. frame.
  - unfold OpenTenantIngestionRun.execute, require_write_role. frame.
  - unfold SubmitTenantClaimsBatch.execute, require_write_role, find_existing_ids. frame.
    unfold SubmitTenantClaimsBatch.to_claim. frame.
  - unfold CompleteTenantIngestionRun.execute, require_write_role. frame.
  - unfold SubmitTenantSafetyReport.execute, require_write_role, SubmitTenantSafetyReport.check_event,
      SubmitTenantSafetyReport.associate. frame.
  - unfold ListTenantEvidenceForEvent.execute. frame.
  - unfold GetTenantUsage.execute. frame.
Qed.
End requests_frame.

(** whatever a tenant asks, and whatever other transactions do meanwhile, a statement
    about the database that every change of the tenant's own rows keeps is kept: the
    request writes no public table and no row of another tenant. *)
Theorem tenant_frame (caller tenant_id : UUID) r (I : DB → Prop) w :
  (∀ db db', I db → own_change caller db db' → I db') → winv I w →
  winv I (handle_tenant caller tenant_id r w).2.
Proof. intros HI Hw. by apply (Inv_handle caller). Qed.

(** The first tenant's claims, with and without a run of the second one in the tables. *)
Definition sample_ids (k : UUID) : Prop := k ∈ [11; 12]%N ∨ (100 ≤ k)%N.
Definition sample_foreign : gmap UUID TenantIngestionRun := {[ 22%N := sample_foreign_run ]}.

Lemma own_single {A} (tb : TenantTable A) t db k x :
  own tb t db = {[ k := x ]} → sample_ids (tb_id tb x) →
  ∀ k' x', own tb t db !! k' = Some x' → sample_ids (tb_id tb x').
Proof. by intros -> Hx k' x' [_ <-]%lookup_singleton_Some. Qed.

Lemma sample_view : same_view 1 sample_ids (sample_tenancy_db sample_foreign) (sample_tenancy_db ∅).
Proof.
  constructor; [done|done|done|].
  refine (conj _ (conj _ (conj _ (conj _ (conj _ (conj _ (conj _ _)))))));
    (split; [vm_compute; reflexivity| |]); try done.
  - apply (own_single sources 1 (sample_tenancy_db sample_foreign) 11
      (mkTenantSource 11 1 "FOQA feed" "FOQA" 1 0)); [vm_compute; reflexivity|left; left].
  - intros k Hk. unfold table. simpl. destruct (decide (k = 12%N)) as [->|]; [done|].
    rewrite !lookup_insert_ne by done. destruct (decide (k = 22%N)) as [->|].
    2: { unfold sample_foreign. by rewrite lookup_singleton_ne, lookup_empty by done. }
    destruct Hk as [Hk|Hk]; [|lia]. exfalso. by apply (bool_decide_eq_false_1 (22%N ∈ [11; 12]%N)) in Hk.
  - apply (own_single runs 1 (sample_tenancy_db sample_foreign) 12
      (mkTenantRun 12 1 11 (run_status_value RUN_RUNNING) 0 None)); [vm_compute; reflexivity|].
    left. by right; left.
Qed.

Lemma tenant_noninterference_witness :
  low 1 sample_ids (world_of (sample_tenancy_db sample_foreign)) (world_of (sample_tenancy_db ∅))
  ∧ (handle_tenant 1 1 (SubmitClaims "MEMBER" 12 sample_batch) (world_of (sample_tenancy_db sample_foreign))).1
    = Ok (Inserted 2).
Proof.
  assert (low 1 sample_ids (world_of (sample_tenancy_db sample_foreign)) (world_of (sample_tenancy_db ∅)))
    as Hlow.
  { constructor; simpl; [apply sample_view|apply sample_view|constructor|done|done|].
    intros k Hk. right. lia. }
  split; [exact Hlow|].
  rewrite (proj1 (tenant_noninterference 1 1 sample_ids (SubmitClaims "MEMBER" 12 sample_batch) _ _ Hlow)).
  vm_compute. reflexivity.
Defined.

Lemma tenant_frame_witness :
  let w := world_of (sample_tenancy_db sample_foreign) in
  winv (λ db, own_change 1 (w_db w) db) (handle_tenant 1 1 (SubmitClaims "MEMBER" 12 sample_batch) w).2.
Proof.
  apply tenant_frame; [intros db db' H1 H2; by etransitivity|]. by repeat split.
Defined.
