(* ===== verification/Metering.v ===== *)
(** Metering: daily rollups of the usage events, and the usage summary of the operator
    (application/use_cases/metering.py, infrastructure/db/repositories/metering.py). *)
From S2P Require Import Prelude Text PyFloat PyVal PyDate Entities Store Json Logic Publication PyRe.
From S2P Require Import Deidentification Tenancy.
Import TenantDb.
Open Scope string_scope.
Open Scope list_scope.
Open Scope Z_scope.

(** ** Definitions *)
Definition NO_TENANT_SENTINEL : UUID := 0%N.
(** The days since 1970-01-01 of date.max, 9999-12-31. *)
Definition date_max : Z := 2932896.

Definition TENANT_SCOPED_METRICS : list MetricKind :=
  [TENANT_CLAIM_INGESTED; TENANT_REPORT_FILED; TENANT_INGESTION_RUN_COMPLETED].
Definition SYSTEM_METRICS : list MetricKind := [NL_QUERY_EXECUTED; HFACS_ATTRIBUTION_CREATED].

(** The generator steps past [day_to] only after its body ran, and [day_bounds] raises
    on date.max before the generator could. *)
Definition iter_days (day_from day_to : Z) : list Z :=
  (λ i, day_from + Z.of_nat i) <$> seq 0 (Z.to_nat (day_to - day_from + 1)).

Definition day_bounds (day : Z) : Res (datetime * datetime) :=
  if date_max <=? day then Raise (OverflowError "date value out of range")
  else Ok (day * day_us, (day + 1) * day_us).

(** The row (tenant, metric, day) of the rollup table. *)
Record Cell := mkCell {
  cl_tenant : UUID;
  cl_metric : MetricKind;
  cl_day : Z;
}.
#[export] Instance Cell_eq_dec : EqDecision Cell.
Proof. solve_decision. Defined.
Definition cell_of (r : UsageDailyRollup) : Cell :=
  mkCell (ur_tenant_id r) (ur_metric_kind r) (ur_day r).
Definition in_cell (c : Cell) (r : UsageDailyRollup) : bool := bool_decide (cell_of r = c).

Module UsageEventRepo.
Definition counted (tenant_id : option UUID) (metric : MetricKind) (start end_ : datetime)
    (e : UsageEvent) : bool :=
  bool_decide (ue_metric_kind e = metric) && (start <=? ue_recorded_at e)
  && (ue_recorded_at e <? end_) && bool_decide (ue_tenant_id e = tenant_id).
Definition count_in_range (tenant_id : option UUID) (metric : MetricKind) (start end_ : datetime)
    : M Z :=
  query (λ db, Z.of_nat (length (select usage (counted tenant_id metric start end_) db))).

(** SELECT DISTINCT: the order carries no meaning. *)
Definition in_range (start end_ : datetime) (e : UsageEvent) : bool :=
  (start <=? ue_recorded_at e) && (ue_recorded_at e <? end_).
Definition distinct_tenants (start end_ : datetime) (db : DB) : list UUID :=
  dict_fromkeys (omap ue_tenant_id (select usage (in_range start end_) db)).
Definition distinct_tenants_in_range (start end_ : datetime) : M (list UUID) :=
  query (distinct_tenants start end_).
End UsageEventRepo.

Module UsageDailyRollupRepo.
Definition recount (new old : UsageDailyRollup) : UsageDailyRollup :=
  mkRollup (ur_id old) (ur_tenant_id old) (ur_metric_kind old) (ur_day old) (ur_count new)
    (ur_computed_at new).

(** INSERT ... ON CONFLICT ON CONSTRAINT uq_usage_daily_rollups_natural DO UPDATE; the
    tenant column has no foreign key. *)
Definition upsert (r : UsageDailyRollup) : M unit :=
  stmt (λ db,
    match select rollups (in_cell (cell_of r)) db with
    | _ :: _ => (Ok tt, upd_table rollups (update_where (λ _, in_cell (cell_of r)) (recount r)) db)
    | [] => match table rollups db !! ur_id r with
            | Some _ => (Raise (IntegrityError "usage_daily_rollups_pkey"), db)
            | None => (Ok tt, upd_table rollups <[ur_id r := r]> db)
            end
    end).

Record UsageSummaryRow := mkSummaryRow {
  us_tenant_id : option UUID;
  us_tenant_slug : option string;
  us_metric_kind : MetricKind;
  us_total_count : Z;
}.

(** ORDER BY slug NULLS FIRST, metric_kind *)
Definition summary_leb (x y : UsageSummaryRow) : bool :=
  match us_tenant_slug x, us_tenant_slug y with
  | None, Some _ => true
  | Some _, None => false
  | None, None => String.leb (metric_kind_value (us_metric_kind x)) (metric_kind_value (us_metric_kind y))
  | Some a, Some b =>
      String.ltb a b
      || (String.eqb a b
          && String.leb (metric_kind_value (us_metric_kind x)) (metric_kind_value (us_metric_kind y)))
  end.

(** GROUP BY (tenant_id, slug, metric_kind) of the rollups of the range. *)
Definition group_key (r : UsageDailyRollup) : UUID * MetricKind := (ur_tenant_id r, ur_metric_kind r).
Definition sum_counts (l : list UsageDailyRollup) : Z := foldr (λ r s, ur_count r + s) 0 l.
Definition summarise (tenants : gmap UUID Tenant) (l : list UsageDailyRollup) (k : UUID * MetricKind)
    : UsageSummaryRow :=
  mkSummaryRow (if (k.1 =? NO_TENANT_SENTINEL)%N then None else Some k.1)
    (tn_slug <$> tenants !! k.1) k.2
    (sum_counts (filter (λ r, group_key r = k) l)).
Definition summary (day_from day_to : Z) (db : DB) : list UsageSummaryRow :=
  let l := select rollups (λ r, (day_from <=? ur_day r) && (ur_day r <=? day_to)) db in
  py_sorted summary_leb
    (summarise (tt_tenants (db_tenancy db)) l <$> dict_fromkeys (group_key <$> l)).
Definition summary_across_tenants (day_from day_to : Z) : M (list UsageSummaryRow) :=
  query (summary day_from day_to).
End UsageDailyRollupRepo.

(** A loop that adds up what its iterations return. *)
Fixpoint sum_each {A} (l : list A) (f : A → M Z) : M Z :=
  match l with
  | [] => mret 0
  | x :: l' => a ← f x; b ← sum_each l' f; mret (a + b)
  end.

Module ComputeDailyRollups.
(** The metrics of the system are stored under the sentinel. *)
Definition roll_up (moment start end_ : datetime) (counted : option UUID) (c : Cell) : M Z :=
  count ← UsageEventRepo.count_in_range counted (cl_metric c) start end_;
  id ← uuid4;
  UsageDailyRollupRepo.upsert (mkRollup id (cl_tenant c) (cl_metric c) (cl_day c) count moment);;
  mret 1.

Definition roll_up_day (moment : datetime) (tenant_ids : option (list UUID)) (day : Z) : M Z :=
  '(start, end_) ← lift_res (day_bounds day);
  day_tenant_ids ← match tenant_ids with
                   | Some l => mret l
                   | None => UsageEventRepo.distinct_tenants_in_range start end_
                   end;
  scoped ← sum_each day_tenant_ids (λ t,
    sum_each TENANT_SCOPED_METRICS (λ m, roll_up moment start end_ (Some t) (mkCell t m day)));
  system ← sum_each SYSTEM_METRICS (λ m,
    roll_up moment start end_ None (mkCell NO_TENANT_SENTINEL m day));
  mret (scoped + system).

(** rows_written *)
Definition execute (day_from day_to : Z) (tenant_ids : option (list UUID)) : M Z :=
  moment ← utc_now;
  rows_written ← sum_each (iter_days day_from day_to) (roll_up_day moment tenant_ids);
  commit;;
  mret rows_written.
End ComputeDailyRollups.

Module GetAdminUsageSummary.
Definition execute (day_from day_to : Z) : M (list UsageDailyRollupRepo.UsageSummaryRow) :=
  result ← UsageDailyRollupRepo.summary_across_tenants day_from day_to;
  rollback;;
  mret result.
End GetAdminUsageSummary.

(** ** What is stored *)
Definition rows_of (c : Cell) (db : DB) : list UsageDailyRollup := select rollups (in_cell c) db.

(** The events a cell counts: those of its tenant, or of no tenant for a metric of the system. *)
Definition counter (c : Cell) : option UUID :=
  if decide (cl_metric c ∈ SYSTEM_METRICS) then None else Some (cl_tenant c).
Definition belongs (c : Cell) (e : UsageEvent) : Prop :=
  ue_metric_kind e = cl_metric c ∧ ue_tenant_id e = counter c ∧ ue_recorded_at e / day_us = cl_day c.
#[export] Instance belongs_dec c e : Decision (belongs c e) := _.
Definition usage_count (c : Cell) (db : DB) : Z :=
  Z.of_nat (length (filter (belongs c) (rows (table usage db)))).

Lemma select_length {A} (tb : TenantTable A) (P : A → bool) (Q : A → Prop) `{∀ x, Decision (Q x)} db :
  (∀ x, P x = true ↔ Q x) → length (select tb P db) = length (filter Q (rows (table tb db))).
Proof.
  intros HPQ. unfold select, rows.
  assert (map_to_list (filter (λ kv, P kv.2 = true) (table tb db))
    ≡ₚ filter (λ kv, P kv.2 = true) (map_to_list (table tb db))) as ->.
  { rewrite map_filter_alt. apply map_to_list_to_map. apply NoDup_fmap_fst.
    - intros k x y [_ Hx%elem_of_map_to_list]%list_elem_of_filter
        [_ Hy%elem_of_map_to_list]%list_elem_of_filter. congruence.
    - apply NoDup_filter, NoDup_map_to_list. }
  induction (map_to_list (table tb db)) as [|kv l IH]; [done|].
  rewrite filter_cons, fmap_cons, filter_cons. pose proof (HPQ kv.2).
  destruct (decide (P kv.2 = true)), (decide (Q kv.2)); simpl; tauto || by f_equal.
Qed.

(** The days of UTC are the blocks of 86400 seconds since the epoch. *)
Lemma counted_usage c db :
  Z.of_nat (length (select usage (UsageEventRepo.counted (counter c) (cl_metric c)
    (cl_day c * day_us) ((cl_day c + 1) * day_us)) db)) = usage_count c db.
Proof.
  unfold usage_count. f_equal. apply select_length. intros e. unfold UsageEventRepo.counted, belongs.
  rewrite !andb_true_iff, !bool_decide_eq_true, Z.leb_le, Z.ltb_lt.
  assert (cl_day c * day_us ≤ ue_recorded_at e ∧ ue_recorded_at e < (cl_day c + 1) * day_us
    ↔ ue_recorded_at e / day_us = cl_day c); [|tauto].
  assert (0 < day_us) by done. generalize dependent day_us. intros d Hd. split.
  - intros [? ?]. symmetry. apply (Z.div_unique_pos _ _ _ (ue_recorded_at e - d * cl_day c)); lia.
  - intros <-. pose proof (Z.mul_div_le (ue_recorded_at e) d Hd).
    pose proof (Z.mul_succ_div_gt (ue_recorded_at e) d Hd). lia.
Qed.

Definition day_tenants (tenant_ids : option (list UUID)) (day : Z) (db : DB) : list UUID :=
  match tenant_ids with
  | Some l => l
  | None => UsageEventRepo.distinct_tenants (day * day_us) ((day + 1) * day_us) db
  end.
Definition day_cells (tenant_ids : option (list UUID)) (db : DB) (day : Z) : list Cell :=
  flat_map (λ t, (λ m, mkCell t m day) <$> TENANT_SCOPED_METRICS) (day_tenants tenant_ids day db)
  ++ ((λ m, mkCell NO_TENANT_SENTINEL m day) <$> SYSTEM_METRICS).
Definition grid (day_from day_to : Z) (tenant_ids : option (list UUID)) (db : DB) : list Cell :=
  flat_map (day_cells tenant_ids db) (iter_days day_from day_to).

(** The unique constraint of the table, and identifiers that are still free. *)
Definition one_per_cell (db : DB) : Prop := ∀ c, (length (rows_of c db) ≤ 1)%nat.
Definition fresh_rollups (w : World) : Prop :=
  ∀ k, (w_uuid w ≤ k)%N → table rollups (w_db w) !! k = None.
Definition but_rollups (db : DB) : DB := upd_table rollups (λ _, ∅) db.

(** ** The upsert *)
Lemma rows_empty {A} (m : gmap UUID A) : rows m = [] → m = ∅.
Proof. unfold rows. intros H. apply map_to_list_empty_iff. by destruct (map_to_list m). Qed.
Lemma rows_singleton {A} k (x : A) : rows ({[ k := x ]} : gmap UUID A) = [x].
Proof. unfold rows. by rewrite map_to_list_singleton. Qed.

Lemma rows_one {A} (m : gmap UUID A) x : rows m = [x] → ∃ k, m = {[ k := x ]}.
Proof.
  unfold rows. intros H. destruct (map_to_list m) as [|[k y] [|]] eqn:E; try done.
  injection H as ->. exists k. apply map_to_list_inj. by rewrite E, map_to_list_singleton.
Qed.

Lemma filter_update_where {A} (P Q : A → bool) f (m : gmap UUID A) :
  (∀ x, P (f x) = P x) → (∀ x, P x = true → Q x = true) →
  filter (λ kv, P kv.2 = true) (update_where (λ _, Q) f m)
  = f <$> filter (λ kv : UUID * A, P kv.2 = true) m.
Proof.
  intros Hf HQ. apply map_eq. intros k. apply option_eq. intros y.
  rewrite map_lookup_filter_Some, lookup_update_where, lookup_fmap, !fmap_Some. simpl. split.
  - intros [(x & Hx & ->) Hy].
    assert (P x = true) as HP by (destruct (Q x); [by rewrite Hf in Hy|done]).
    exists x. rewrite (HQ x HP). split; [by apply map_lookup_filter_Some|done].
  - intros (x & [Hx HP]%map_lookup_filter_Some & ->). simpl in HP. rewrite Hf. split; [|done].
    exists x. by rewrite (HQ x HP).
Qed.

Lemma filter_update_other {A} (P Q : A → bool) f (m : gmap UUID A) :
  (∀ x, P (f x) = P x) → (∀ x, P x = true → Q x = false) →
  filter (λ kv, P kv.2 = true) (update_where (λ _, Q) f m)
  = filter (λ kv : UUID * A, P kv.2 = true) m.
Proof.
  intros Hf HQ. apply map_eq. intros k. apply option_eq. intros y.
  rewrite !map_lookup_filter_Some, lookup_update_where. simpl.
  destruct (m !! k) as [x|]; simpl; [|naive_solver]. destruct (Q x) eqn:E; [|done].
  split; intros [[= <-] Hy]; [rewrite Hf in Hy|]; by rewrite (HQ x Hy) in E.
Qed.

Lemma in_cell_recount c r x : in_cell c (UsageDailyRollupRepo.recount r x) = in_cell c x.
Proof. done. Qed.

Lemma in_cell_ne c c' x : c ≠ c' → in_cell c x = true → in_cell c' x = false.
Proof.
  unfold in_cell. rewrite bool_decide_eq_true, bool_decide_eq_false. congruence.
Qed.

Lemma upsert_run r w : quiet w → one_per_cell (w_db w) → table rollups (w_db w) !! ur_id r = None →
  ∃ db', UsageDailyRollupRepo.upsert r w = (Ok tt, set_db db' w)
  ∧ ur_count <$> rows_of (cell_of r) db' = [ur_count r]
  ∧ (∀ c, c ≠ cell_of r → rows_of c db' = rows_of c (w_db w))
  ∧ but_rollups db' = but_rollups (w_db w)
  ∧ ∀ k, k ≠ ur_id r → table rollups (w_db w) !! k = None → table rollups db' !! k = None.
Proof.
  intros Hq H1 Hid. unfold UsageDailyRollupRepo.upsert. rewrite stmt_quiet by done.
  specialize (H1 (cell_of r)). change (select rollups (in_cell (cell_of r)) (w_db w))
    with (rows_of (cell_of r) (w_db w)).
  destruct (rows_of (cell_of r) (w_db w)) as [|old [|]] eqn:E; simpl in H1; [| |lia].
  - rewrite Hid. eexists. split; [done|]. unfold rows_of, select in *. apply rows_empty in E.
    assert (in_cell (cell_of r) r = true) as Hr by by apply bool_decide_eq_true.
    split_and!; [| |done|].
    + unfold table in *. simpl in *. rewrite map_filter_insert_True by done.
      rewrite E, insert_empty, rows_singleton. done.
    + intros c Hc. unfold table in *. simpl in *. rewrite map_filter_insert_not'; [done| |].
      * simpl. intros Hx. by rewrite (in_cell_ne c _ _ Hc Hx) in Hr.
      * intros y Hy. by rewrite Hid in Hy.
    + intros k Hk Hn. unfold table in *. simpl. by rewrite lookup_insert_ne.
  - eexists. split; [done|]. unfold rows_of, select in *. split_and!; [| |done|].
    + apply rows_one in E as [k E]. unfold table in *. simpl in *.
      rewrite filter_update_where, E, map_fmap_singleton, rows_singleton by done. done.
    + intros c Hc. unfold table. simpl. rewrite filter_update_other; [done|done|].
      intros x. by apply in_cell_ne.
    + intros k Hk Hn. unfold table in *. simpl in *. by rewrite lookup_update_where, Hn.
Qed.

(** ** The loops *)
Section rollups.
Context (db0 : DB) (moment : datetime).

(** The cells [done] are rolled up, the others are as they were. *)
Record Rolled (finished : list Cell) (w : World) : Prop := {
  ro_quiet : quiet w;
  ro_rest : but_rollups (w_db w) = but_rollups db0;
  ro_one : one_per_cell (w_db w);
  ro_fresh : fresh_rollups w;
  ro_done : ∀ c, c ∈ finished → ur_count <$> rows_of c (w_db w) = [usage_count c db0];
  ro_others : ∀ c, c ∉ finished → rows_of c (w_db w) = rows_of c db0;
}.

(** [m] rolls up [cells] and returns their number. *)
Definition Rolls (m : M Z) (cells : list Cell) : Prop := ∀ finished w, Rolled finished w →
  ∃ w', m w = (Ok (Z.of_nat (length cells)), w') ∧ Rolled (finished ++ cells) w'.

Lemma Rolls_sum_each {A} (l : list A) f (g : A → list Cell) :
  (∀ x, x ∈ l → Rolls (f x) (g x)) → Rolls (sum_each l f) (flat_map g l).
Proof.
  induction l as [|x l IH]; simpl; intros Hf finished w Hw.
  - exists w. by rewrite app_nil_r.
  - destruct (Hf x ltac:(by left) finished w Hw) as (w1 & E1 & H1).
    destruct (IH (λ y Hy, Hf y ltac:(by right)) _ w1 H1) as (w2 & E2 & H2).
    exists w2. unfold mbind, M_bind. rewrite E1, E2. unfold mret, M_ret.
    rewrite app_assoc. split; [|done]. do 2 f_equal. rewrite length_app. lia.
Qed.

Lemma usage_rest db db' : but_rollups db = but_rollups db' → table usage db = table usage db'.
Proof. intros H. exact (f_equal (table usage) H). Qed.

Lemma usage_count_rest c db db' : but_rollups db = but_rollups db' → usage_count c db = usage_count c db'.
Proof. intros H. unfold usage_count. by rewrite (usage_rest _ _ H). Qed.

Lemma Rolls_roll_up c :
  Rolls (ComputeDailyRollups.roll_up moment (cl_day c * day_us) ((cl_day c + 1) * day_us) (counter c) c)
    [c].
Proof.
  intros finished w [Hq Hrest H1 Hfr Hdone Hoth]. unfold ComputeDailyRollups.roll_up.
  unfold mbind at 1, M_bind at 1. unfold UsageEventRepo.count_in_range. rewrite query_quiet by done.
  rewrite counted_usage. rewrite (usage_count_rest _ _ _ Hrest).
  unfold mbind at 1, M_bind at 1, uuid4. cbn iota beta. 
  set (w1 := mkWorld _ _ _ _ _). set (r := mkRollup _ _ _ _ _ _).
  destruct (upsert_run r w1) as (db' & E & Hc & Ho & Hb & Hf); [done|done|by apply Hfr|].
  unfold mbind, M_bind. rewrite E. exists (set_db db' w1). split; [done|].
  assert (cell_of r = c) as Hcell by by destruct c. rewrite Hcell in *.
  constructor; simpl.
  - done.
  - by rewrite Hb.
  - intros c'. destruct (decide (c' = c)) as [->|Hne].
    + rewrite <- (length_fmap ur_count), Hc. simpl. lia.
    + rewrite Ho by done. apply H1.
  - intros k Hk. apply Hf; [simpl in *; lia|]. apply Hfr. simpl in *. lia.
  - intros c' Hin. destruct (decide (c' = c)) as [->|Hne]; [done|]. rewrite Ho by done.
    apply Hdone. set_solver.
  - intros c' Hin. rewrite Ho by set_solver. apply Hoth. set_solver.
Qed.

Lemma Rolls_day tenant_ids day : day < date_max →
  Rolls (ComputeDailyRollups.roll_up_day moment tenant_ids day) (day_cells tenant_ids db0 day).
Proof.
  intros Hd finished w Hw. unfold ComputeDailyRollups.roll_up_day, day_bounds.
  destruct (Z.leb_spec date_max day); [lia|].
  assert (Rolls (sum_each (day_tenants tenant_ids day db0) (λ t,
    sum_each TENANT_SCOPED_METRICS (λ m, ComputeDailyRollups.roll_up moment (day * day_us)
      ((day + 1) * day_us) (Some t) (mkCell t m day))))
    (flat_map (λ t, (λ m, mkCell t m day) <$> TENANT_SCOPED_METRICS) (day_tenants tenant_ids day db0)))
    as Hscoped.
  { apply Rolls_sum_each. intros t _.
    change ((λ m, mkCell t m day) <$> TENANT_SCOPED_METRICS)
      with (flat_map (λ m, [mkCell t m day]) TENANT_SCOPED_METRICS).
    apply Rolls_sum_each. intros m Hm.
    pose proof (Rolls_roll_up (mkCell t m day)) as Hr. unfold counter in Hr. simpl in Hr.
    destruct (decide (m ∈ SYSTEM_METRICS)) as [Hs|]; [|done]. exfalso.
    by destruct m; apply (bool_decide_pack _) in Hs, Hm. }
  assert (Rolls (sum_each SYSTEM_METRICS (λ m, ComputeDailyRollups.roll_up moment (day * day_us)
      ((day + 1) * day_us) None (mkCell NO_TENANT_SENTINEL m day)))
    ((λ m, mkCell NO_TENANT_SENTINEL m day) <$> SYSTEM_METRICS)) as Hsystem.
  { change ((λ m, mkCell NO_TENANT_SENTINEL m day) <$> SYSTEM_METRICS)
      with (flat_map (λ m, [mkCell NO_TENANT_SENTINEL m day]) SYSTEM_METRICS).
    apply Rolls_sum_each. intros m Hm.
    pose proof (Rolls_roll_up (mkCell NO_TENANT_SENTINEL m day)) as Hr. unfold counter in Hr.
    simpl in Hr. by rewrite decide_True in Hr. }
  destruct (Hscoped finished w Hw) as (w1 & E1 & Hw1). destruct (Hsystem _ w1 Hw1) as (w2 & E2 & Hw2).
  exists w2. unfold mbind, M_bind, lift_res.
  assert ((match tenant_ids with
           | Some l => mret l
           | None => UsageEventRepo.distinct_tenants_in_range (day * day_us) ((day + 1) * day_us)
           end) w = (Ok (day_tenants tenant_ids day db0), w)) as ->.
  { destruct tenant_ids; [done|]. unfold UsageEventRepo.distinct_tenants_in_range.
    rewrite query_quiet by apply Hw. unfold day_tenants, UsageEventRepo.distinct_tenants, select.
    by rewrite (usage_rest _ _ (ro_rest _ _ Hw)). }
  rewrite E1, E2. split; [|by rewrite <- app_assoc in Hw2].
  unfold day_cells, mret, M_ret. rewrite length_app. do 2 f_equal. lia.
Qed.
End rollups.

(** C26: for every day of the range and every tenant asked for (or that has usage on the
    day), [ComputeDailyRollups] leaves exactly one row per metric, whose count is the
    number of the usage events of that tenant, metric and UTC day; it leaves every other
    row and every other table as it was, and reports how many cells it wrote.  Running
    it twice therefore stores the same counts. *)
Theorem compute_daily_rollups_effect day_from day_to tenant_ids w :
  day_to < date_max → quiet w → one_per_cell (w_db w) → fresh_rollups w →
  ∃ w', ComputeDailyRollups.execute day_from day_to tenant_ids w
        = (Ok (Z.of_nat (length (grid day_from day_to tenant_ids (w_db w)))), w')
  ∧ (∀ c, c ∈ grid day_from day_to tenant_ids (w_db w) →
       ur_count <$> rows_of c (w_committed w') = [usage_count c (w_db w)])
  ∧ (∀ c, c ∉ grid day_from day_to tenant_ids (w_db w) →
       rows_of c (w_committed w') = rows_of c (w_db w))
  ∧ but_rollups (w_committed w') = but_rollups (w_db w)
  ∧ one_per_cell (w_committed w').
Proof.
  intros Hto Hq H1 Hf. unfold ComputeDailyRollups.execute, mbind, M_bind, utc_now. cbn iota beta.
  set (w0 := mkWorld _ _ _ _ _). set (cells := grid _ _ _ _).
  assert (Rolls (w_db w) (sum_each (iter_days day_from day_to)
    (ComputeDailyRollups.roll_up_day (w_now w) tenant_ids)) cells) as Hall.
  { apply Rolls_sum_each. intros day Hd. apply Rolls_day.
    unfold iter_days in Hd. apply list_elem_of_fmap in Hd as (i & -> & Hi%elem_of_seq). lia. }
  destruct (Hall [] w0) as (w1 & E & Hw1); [by constructor; try done; intros c ?%not_elem_of_nil|].
  rewrite E. eexists. split; [done|]. simpl in *. destruct Hw1. by split_and!.
Qed.

(** The sums of the groups add up to the sum of the rows. *)
Lemma sum_groups (ks : list (UUID * MetricKind)) l : NoDup ks →
  (∀ r, r ∈ l → UsageDailyRollupRepo.group_key r ∈ ks) →
  foldr (λ k s, UsageDailyRollupRepo.sum_counts
    (filter (λ r, UsageDailyRollupRepo.group_key r = k) l) + s) 0 ks
  = UsageDailyRollupRepo.sum_counts l.
Proof.
  intros Hnd. induction l as [|r l IH]; intros Hl.
  - clear Hl. induction ks as [|k ks IHk]; [done|]. cbn [foldr]. apply NoDup_cons in Hnd as [_ Hnd].
    by rewrite IHk.
  - simpl. rewrite <- IH by (intros x Hx; apply Hl; by right).
    specialize (Hl r ltac:(by left)). clear IH. revert Hl Hnd.
    set (S k := UsageDailyRollupRepo.sum_counts
      (filter (λ r, UsageDailyRollupRepo.group_key r = k) l)).
    assert (∀ k, UsageDailyRollupRepo.sum_counts
      (filter (λ r0, UsageDailyRollupRepo.group_key r0 = k) (r :: l))
      = (if decide (UsageDailyRollupRepo.group_key r = k) then ur_count r else 0) + S k) as HS.
    { intros k. rewrite filter_cons. by destruct (decide _). }
    assert (∀ ks, UsageDailyRollupRepo.group_key r ∉ ks →
      foldr (λ k s, UsageDailyRollupRepo.sum_counts
        (filter (λ r0, UsageDailyRollupRepo.group_key r0 = k) (r :: l)) + s) 0 ks
      = foldr (λ k s, S k + s) 0 ks) as Hout.
    { induction ks0 as [|k ks0 IHk]; [done|]. intros [Hk Hn]%not_elem_of_cons. cbn [foldr].
      rewrite HS, decide_False by done. rewrite IHk by done. lia. }
    intros Hin Hnd. induction ks as [|k ks IHk]; [by apply not_elem_of_nil in Hin|].
    apply NoDup_cons in Hnd as [Hk Hnd]. cbn [foldr]. rewrite HS.
    destruct (decide (UsageDailyRollupRepo.group_key r = k)) as [<-|Hne].
    + rewrite Hout by done. unfold S in *. lia.
    + rewrite IHk; [unfold S in *; lia| |done]. by apply elem_of_cons in Hin as [?|].
Qed.

Lemma sum_sorted l :
  foldr (λ x s, UsageDailyRollupRepo.us_total_count x + s) 0 (py_sorted UsageDailyRollupRepo.summary_leb l)
  = foldr (λ x s, UsageDailyRollupRepo.us_total_count x + s) 0 l.
Proof. apply foldr_permutation_proper; [apply _|apply _|intros ???; lia|apply py_sorted_perm]. Qed.

(** the operator's summary loses no usage: its totals add up to the counts of all
    rollups of the range, whether their tenant still exists, was deleted or is the
    sentinel; and it writes nothing. *)
Theorem summary_conserves day_from day_to w : quiet w →
  ∃ result w', GetAdminUsageSummary.execute day_from day_to w = (Ok result, w')
  ∧ foldr (λ x s, UsageDailyRollupRepo.us_total_count x + s) 0 result
    = UsageDailyRollupRepo.sum_counts
        (select rollups (λ r, (day_from <=? ur_day r) && (ur_day r <=? day_to)) (w_db w))
  ∧ w_committed w' = w_committed w.
Proof.
  intros Hq. eexists _, _. split; [|split].
  - unfold GetAdminUsageSummary.execute, UsageDailyRollupRepo.summary_across_tenants, mbind, M_bind.
    by rewrite query_quiet.
  - unfold UsageDailyRollupRepo.summary. rewrite sum_sorted.
    set (l := select rollups _ _). rewrite foldr_fmap. simpl. apply sum_groups.
    + apply NoDup_fromkeys.
    + intros r Hr. apply elem_of_fromkeys. by apply list_elem_of_fmap_2.
  - done.
Qed.

(** No cell is ever computed for a metric in neither list. *)
Lemma echo_runs_not_rolled_up day_from day_to tenant_ids db c :
  c ∈ grid day_from day_to tenant_ids db → cl_metric c ≠ ECHO_CROSSREF_RUN.
Proof.
  unfold grid, day_cells. rewrite list_elem_of_In, in_flat_map.
  intros (day & _ & Hc). rewrite <- list_elem_of_In, elem_of_app in Hc. destruct Hc as [Hc|Hc].
  - rewrite list_elem_of_In, in_flat_map in Hc. destruct Hc as (t & _ & Hc).
    rewrite <- list_elem_of_In in Hc. apply list_elem_of_fmap in Hc as (m & -> & Hm).
    intros Em. simpl in Em. subst m. by apply (bool_decide_eq_false_1 (ECHO_CROSSREF_RUN ∈ TENANT_SCOPED_METRICS)) in Hm.
  - apply list_elem_of_fmap in Hc as (m & -> & Hm). intros Em. simpl in Em. subst m.
    by apply (bool_decide_eq_false_1 (ECHO_CROSSREF_RUN ∈ SYSTEM_METRICS)) in Hm.
Qed.

(** The usage of two days: three claims of one tenant, a query of nobody. *)
Definition sample_use (id : UUID) (m : MetricKind) (t : option UUID) (at_ : datetime) : UsageEvent :=
  mkUsageEvent id m t None None at_.
Definition sample_usage_db : DB :=
  upd_table usage (λ _, list_to_map ((λ e, (ue_id e, e)) <$>
    [sample_use 31 TENANT_CLAIM_INGESTED (Some 1%N) (20 * day_us);
     sample_use 32 TENANT_CLAIM_INGESTED (Some 1%N) (21 * day_us - 1);
     sample_use 33 TENANT_CLAIM_INGESTED (Some 1%N) (21 * day_us);
     sample_use 34 NL_QUERY_EXECUTED None (20 * day_us + 5);
     sample_use 35 ECHO_CROSSREF_RUN (Some 1%N) (20 * day_us + 6)])) (sample_tenancy_db ∅).
Definition sample_rolled : World :=
  (ComputeDailyRollups.execute 20 21 None (world_of sample_usage_db)).2.

Example the_claims_of_a_day :
  ur_count <$> rows_of (mkCell 1 TENANT_CLAIM_INGESTED 20) (w_committed sample_rolled) = [2].
Proof. vm_compute. reflexivity. Qed.
Example midnight_belongs_to_the_day_it_starts :
  ur_count <$> rows_of (mkCell 1 TENANT_CLAIM_INGESTED 21) (w_committed sample_rolled) = [1].
Proof. vm_compute. reflexivity. Qed.
Example the_last_date_overflows :
  (ComputeDailyRollups.execute date_max date_max None (world_of sample_usage_db)).1
  = Raise (OverflowError "date value out of range").
Proof. vm_compute. reflexivity. Qed.

Lemma compute_daily_rollups_effect_witness :
  ∃ w', ComputeDailyRollups.execute 20 21 None (world_of sample_usage_db) = (Ok 10, w')
  ∧ ur_count <$> rows_of (mkCell NO_TENANT_SENTINEL NL_QUERY_EXECUTED 20) (w_committed w') = [1].
Proof.
  destruct (compute_daily_rollups_effect 20 21 None (world_of sample_usage_db)) as (w' & E & Hin & _).
  - done.
  - done.
  - intros c. vm_compute. lia.
  - intros k _. done.
  - exists w'. split; [rewrite E; vm_compute; reflexivity|]. rewrite Hin; [vm_compute; reflexivity|].
    apply (bool_decide_eq_true_1 (mkCell NO_TENANT_SENTINEL NL_QUERY_EXECUTED 20 ∈ grid 20 21 None (w_db (world_of sample_usage_db)))). vm_compute. reflexivity.
Defined.

Lemma summary_conserves_witness :
  ∃ result w', GetAdminUsageSummary.execute 20 21 sample_rolled = (Ok result, w')
  ∧ foldr (λ x s, UsageDailyRollupRepo.us_total_count x + s) 0 result = 4.
Proof.
  destruct (summary_conserves 20 21 sample_rolled) as (result & w' & E & Hs & _).
  - vm_compute. reflexivity.
  - exists result, w'. split; [exact E|]. rewrite Hs. vm_compute. reflexivity.
Defined.
