(* ===== verification/TenantBatch.v ===== *)
(** What a batch of a tenant's claims does, branch by branch, and what happens when the
    run is closed meanwhile. *)
From S2P Require Import Prelude Text PyFloat PyVal PyDate Entities Store Json Logic Publication PyRe.
From S2P Require Import Deidentification Tenancy.
Import TenantDb.
Open Scope string_scope.
Open Scope list_scope.
Open Scope Z_scope.
#[local] Set Default Proof Using "Type*".

(** ** Inserting rows under fresh identifiers *)
Definition add_rows {A} (tb : TenantTable A) (l : list A) (m : gmap UUID A) : gmap UUID A :=
  foldl (λ m x, <[tb_id tb x := x]> m) m l.

(** Reading and replacing a table are those of a record field. *)
Class Field {A} (tb : TenantTable A) := {
  field_get : ∀ f db, table tb (upd_table tb f db) = f (table tb db);
  field_upd : ∀ f g db, upd_table tb f (upd_table tb g db) = upd_table tb (λ m, f (g m)) db;
  field_id : ∀ db, upd_table tb (λ m, m) db = db;
  field_tenants : ∀ f db, tt_tenants (db_tenancy (upd_table tb f db)) = tt_tenants (db_tenancy db);
}.
Ltac solve_field := constructor; try done; by intros [? ? ? ? ? ? ? ? ? ? ? ? ? ? ? [] ? ? ? ?].
#[export] Instance claims_field : Field claims. Proof. solve_field. Qed.
#[export] Instance usage_field : Field usage. Proof. solve_field. Qed.

Section rows.
Context {A : Type} (tb : TenantTable A) `{!Field tb} (t : UUID).

Lemma insert_all_fresh name ok l db :
  is_Some (tt_tenants (db_tenancy db) !! t) →
  Forall (λ x, tb_tenant tb x = Some t ∧ table tb db !! tb_id tb x = None) l →
  NoDup (tb_id tb <$> l) →
  if forallb ok l then insert_all tb name ok l db = (Ok tt, upd_table tb (add_rows tb l) db)
  else (insert_all tb name ok l db).1 = Raise (DataError name).
Proof.
  revert db. induction l as [|x l IH]; intros db Ht Hl Hnd; simpl.
  { by rewrite field_id. }
  apply Forall_cons in Hl as [[Hx Hk] Hl]. apply NoDup_cons in Hnd as [Hnot Hnd].
  unfold insert_row. destruct (ok x); simpl; [|done].
  rewrite Hk, Hx. destruct Ht as [tenant Ht]. rewrite Ht.
  specialize (IH (upd_table tb <[tb_id tb x:=x]> db)).
  rewrite field_tenants, Ht in IH. specialize (IH ltac:(by eexists)).
  assert (Forall (λ y, tb_tenant tb y = Some t
    ∧ table tb (upd_table tb <[tb_id tb x:=x]> db) !! tb_id tb y = None) l) as Hl'.
  { apply Forall_forall. intros y Hy. rewrite field_get.
    destruct ((proj1 (Forall_forall _ _) Hl) y Hy) as [? ?]. split; [done|].
    rewrite lookup_insert_ne; [done|]. intros E. apply Hnot. rewrite E. by apply list_elem_of_fmap_2. }
  specialize (IH Hl' Hnd). destruct (forallb ok l); rewrite IH; [by rewrite field_upd|done].
Qed.
End rows.

(** A row is found by its primary key. *)
Lemma select_by_id {A} (tb : TenantTable A) Q id db :
  (∀ k x, table tb db !! k = Some x → tb_id tb x = k) →
  select tb (λ x, (tb_id tb x =? id)%N && Q x) db
  = match table tb db !! id with Some x => if Q x then [x] else [] | None => [] end.
Proof.
  intros Hk. unfold select. set (m := filter _ _).
  assert (∀ k x, m !! k = Some x ↔ table tb db !! k = Some x ∧ k = id ∧ Q x = true) as Hm.
  { intros k x. unfold m. rewrite map_lookup_filter_Some, andb_true_iff, N.eqb_eq. simpl.
    split; intros (Hx & Ei & ?); (split; [done|]); specialize (Hk _ _ Hx); split; congruence. }
  destruct (table tb db !! id) as [x|] eqn:E; [destruct (Q x) eqn:EQ|].
  - assert (m = {[ id := x ]}) as ->; [|unfold rows; by rewrite map_to_list_singleton].
    apply map_eq. intros k. apply option_eq. intros y. rewrite Hm, lookup_singleton_Some.
    split; [intros (Hy & -> & _); split; [done|congruence]|by intros [<- <-]].
  - assert (m = ∅) as ->; [|done]. apply map_eq. intros k. apply option_eq. intros y.
    rewrite Hm, lookup_empty. split; [|done]. intros (Hy & -> & ?). congruence.
  - assert (m = ∅) as ->; [|done]. apply map_eq. intros k. apply option_eq. intros y.
    rewrite Hm, lookup_empty. split; [|done]. intros (Hy & -> & ?). congruence.
Qed.

(** ** The rows of a batch *)
Fixpoint batch_claims (run : TenantIngestionRun) (id : UUID) (at_ : datetime) (l : list IncomingClaim)
    : list TenantClaim :=
  match l with
  | [] => []
  | c :: l' =>
      mkTenantClaim id (tr_tenant_id run) (ic_event_id c) (tr_tenant_source_id run) (Some (tr_id run))
        (ic_field_name c) (ic_field_value c) (ic_claim_kind c) (ic_confidence c) at_
      :: batch_claims run (id + 1)%N (at_ + 1) l'
  end.
Fixpoint batch_usage (run : TenantIngestionRun) (id : UUID) (at_ : datetime) (n : nat)
    : list UsageEvent :=
  match n with
  | O => []
  | S n' => mkUsageEvent id TENANT_CLAIM_INGESTED (Some (tr_tenant_id run)) None (Some (tr_id run)) at_
            :: batch_usage run (id + 1)%N (at_ + 1) n'
  end.

Definition later (n : nat) (w : World) : World :=
  mkWorld (w_db w) (w_committed w) (w_env w) (w_now w + Z.of_nat n) (w_uuid w + N.of_nat n)%N.

Lemma later_S n w : later n (mkWorld (w_db w) (w_committed w) (w_env w) (w_now w + 1) (w_uuid w + 1)%N)
  = later (S n) w.
Proof. unfold later. simpl. f_equal; lia. Qed.

Lemma to_claim_run run c w :
  SubmitTenantClaimsBatch.to_claim (tr_tenant_id run) run c w
  = (if SubmitTenantClaimsBatch.confidence_ok (ic_confidence c)
     then Ok (mkTenantClaim (w_uuid w) (tr_tenant_id run) (ic_event_id c) (tr_tenant_source_id run)
       (Some (tr_id run)) (ic_field_name c) (ic_field_value c) (ic_claim_kind c) (ic_confidence c)
       (w_now w))
     else Raise (ValueError "confidence"),
     mkWorld (w_db w) (w_committed w) (w_env w) (w_now w + 1) (w_uuid w + 1)%N).
Proof.
  unfold SubmitTenantClaimsBatch.to_claim, mbind, M_bind, uuid4, utc_now. simpl.
  by destruct (SubmitTenantClaimsBatch.confidence_ok _).
Qed.

Lemma to_claims_run run l w :
  if forallb (λ c, SubmitTenantClaimsBatch.confidence_ok (ic_confidence c)) l
  then map_m (SubmitTenantClaimsBatch.to_claim (tr_tenant_id run) run) l w
       = (Ok (batch_claims run (w_uuid w) (w_now w) l), later (length l) w)
  else ∃ w', map_m (SubmitTenantClaimsBatch.to_claim (tr_tenant_id run) run) l w
             = (Raise (ValueError "confidence"), w') ∧ w_committed w' = w_committed w.
Proof.
  revert w. induction l as [|c l IH]; intros w; cbn [forallb map_m].
  { unfold later. simpl. rewrite Z.add_0_r, N.add_0_r. by destruct w. }
  unfold mbind, M_bind. rewrite to_claim_run.
  destruct (SubmitTenantClaimsBatch.confidence_ok (ic_confidence c)); cbn [andb]; [|by eexists].
  set (w1 := mkWorld _ _ _ _ _). specialize (IH w1).
  destruct (forallb _ l).
  - rewrite IH. unfold mret, M_ret. cbn [length]. by rewrite <- later_S.
  - destruct IH as (w' & E & Hc). exists w'. unfold mret, M_ret. by rewrite E.
Qed.

Lemma make_events_run run n w :
  MeteringService.make_events n TENANT_CLAIM_INGESTED (Some (tr_tenant_id run)) None (Some (tr_id run)) w
  = (Ok (batch_usage run (w_uuid w) (w_now w) n), later n w).
Proof.
  revert w. induction n as [|n IH]; intros w; simpl.
  { unfold later. simpl. rewrite Z.add_0_r, N.add_0_r. by destruct w. }
  unfold mbind, M_bind, uuid4, utc_now. simpl. rewrite IH. unfold mret, M_ret.
  simpl. by rewrite <- later_S.
Qed.

Lemma batch_claims_ids run id at_ l :
  tb_id claims <$> batch_claims run id at_ l = (λ i, id + N.of_nat i)%N <$> seq 0 (length l).
Proof.
  revert id at_. induction l as [|c l IH]; intros id at_; [done|]. simpl. rewrite N.add_0_r.
  f_equal. rewrite IH, <- fmap_S_seq, <- list_fmap_compose. apply list_fmap_ext. intros i x _. simpl. lia.
Qed.
Lemma batch_usage_ids run id at_ n :
  tb_id usage <$> batch_usage run id at_ n = (λ i, id + N.of_nat i)%N <$> seq 0 n.
Proof.
  revert id at_. induction n as [|n IH]; intros id at_; [done|]. simpl. rewrite N.add_0_r.
  f_equal. rewrite IH, <- fmap_S_seq, <- list_fmap_compose. apply list_fmap_ext. intros i x _. simpl. lia.
Qed.
Lemma ids_NoDup id n : NoDup ((λ i, id + N.of_nat i)%N <$> seq 0 n).
Proof. apply NoDup_fmap_2; [intros i j; lia|apply NoDup_seq]. Qed.

Lemma batch_claims_tenant run id at_ l :
  Forall (λ c, tc_tenant_id c = tr_tenant_id run ∧ (id ≤ tc_id c)%N) (batch_claims run id at_ l).
Proof.
  revert id at_. induction l as [|c l IH]; intros id at_; constructor; [split; [done|simpl; lia]|].
  eapply Forall_impl; [apply IH|]. simpl. intros x [? ?]. split; [done|lia].
Qed.
Lemma batch_usage_tenant run id at_ n :
  Forall (λ e, ue_tenant_id e = Some (tr_tenant_id run) ∧ (id ≤ ue_id e)%N) (batch_usage run id at_ n).
Proof.
  revert id at_. induction n as [|n IH]; intros id at_; constructor; [split; [done|simpl; lia]|].
  eapply Forall_impl; [apply IH|]. simpl. intros x [? ?]. split; [done|lia].
Qed.

(** ** The batch, branch by branch *)
Section batch.
Context (tenant_id caller : UUID) (role : string) (run_id : UUID) (incoming : list IncomingClaim).

Definition find_run (db : DB) : option TenantIngestionRun :=
  r ← table runs db !! run_id; if (tr_tenant_id r =? tenant_id)%N then Some r else None.
Definition unknown_events (db : DB) : list UUID :=
  filter (λ id, db_events db !! id = None) (dict_fromkeys (ic_event_id <$> incoming)).
Definition fits_column (c : IncomingClaim) : bool :=
  fits 200 (ic_field_name c) && json_ok (ic_field_value c).

(** What the call answers. *)
Definition batch_verdict (db : DB) : Res Z :=
  let n := Z.of_nat (length incoming) in
  if negb (caller =? tenant_id)%N then Raise (CrossTenantAccessError caller tenant_id)
  else if negb (bool_decide (role ∈ write_roles)) then Raise (HTTPException 403 "INSUFFICIENT_TENANT_ROLE")
  else if SubmitTenantClaimsBatch.MAX_CLAIMS_PER_BATCH <? n then Raise (TenantClaimBatchTooLargeError n)
  else if bool_decide (length incoming = 0%nat) then Ok 0
  else match find_run db with
       | None => Raise (TenantIngestionRunNotFoundError run_id tenant_id)
       | Some run =>
           if negb (String.eqb (tr_status run) (run_status_value RUN_RUNNING))
           then Raise (TenantIngestionRunClosedError "cannot append claims to a closed run")
           else if bool_decide (unknown_events db ≠ [])
           then Raise (TenantClaimUnknownEventError (unknown_events db))
           else if negb (forallb (λ c, SubmitTenantClaimsBatch.confidence_ok (ic_confidence c)) incoming)
           then Raise (ValueError "confidence")
           else if negb (forallb fits_column incoming) then Raise (DataError "tenant_claims")
           else Ok n
       end.

(** What it leaves in the tables when it answers a number. *)
Definition batch_stored (w : World) : DB :=
  match find_run (w_db w) with
  | Some run =>
      let n := length incoming in
      upd_table usage (add_rows usage (batch_usage run (w_uuid w + N.of_nat n)%N (w_now w + Z.of_nat n) n))
        (upd_table claims (add_rows claims (batch_claims run (w_uuid w) (w_now w) incoming)) (w_db w))
  | None => w_db w
  end.

(** The keys of the schema, and identifiers that are still free. *)
Record BatchReady (w : World) : Prop := {
  br_quiet : quiet w;
  br_keyed : ∀ k r, table runs (w_db w) !! k = Some r → tr_id r = k;
  br_tenants : ∀ k r, table runs (w_db w) !! k = Some r →
    is_Some (tt_tenants (db_tenancy (w_db w)) !! tr_tenant_id r);
  br_fresh : ∀ k, (w_uuid w ≤ k)%N →
    table claims (w_db w) !! k = None ∧ table usage (w_db w) !! k = None;
}.

Lemma run_get_quiet w : BatchReady w →
  TenantRunRepo.get tenant_id run_id w = (Ok (find_run (w_db w)), w).
Proof.
  intros [Hq Hk _ _]. unfold TenantRunRepo.get, scalar_query. rewrite stmt_quiet by done.
  change (select runs _ (w_db w)) with
    (select runs (λ r, (tb_id runs r =? run_id)%N && (tr_tenant_id r =? tenant_id)%N) (w_db w)).
  rewrite select_by_id, set_db_same by done. unfold find_run. destruct (table runs (w_db w) !! run_id); simpl; [|done].
  by destruct (tr_tenant_id _ =? tenant_id)%N.
Qed.

Lemma existing_quiet ids w : quiet w →
  find_existing_ids ids w = (Ok (filter (λ id, is_Some (db_events (w_db w) !! id)) ids), w).
Proof.
  intros Hq. unfold find_existing_ids. destruct (decide (ids = [])) as [->|]; [done|].
  rewrite bool_decide_false by done. by rewrite query_quiet.
Qed.

Lemma unknown_filter db : let ids := dict_fromkeys (ic_event_id <$> incoming) in
  filter (λ id, id ∉ filter (λ id, is_Some (db_events db !! id)) ids) ids = unknown_events db.
Proof.
  cbv zeta. unfold unknown_events. generalize (dict_fromkeys (ic_event_id <$> incoming)). intros ids.
  assert (∀ l : list UUID, (∀ id, id ∈ l → id ∈ ids) →
    filter (λ id, id ∉ filter (λ id, is_Some (db_events db !! id)) ids) l
    = filter (λ id, db_events db !! id = None) l) as Hl; [|by apply Hl].
  induction l as [|id l IH]; intros Hl; [done|]. rewrite !filter_cons, IH by (intros; apply Hl; by right).
  specialize (Hl id ltac:(by left)). pose proof (list_elem_of_filter (λ id, is_Some (db_events db !! id)) ids id).
  pose proof (eq_None_not_Some (db_events db !! id)). repeat case_decide; tauto.
Qed.

Lemma find_run_tenant db run : find_run db = Some run → tr_tenant_id run = tenant_id.
Proof.
  unfold find_run. destruct (table runs db !! run_id) as [r|]; simpl; [|done].
  destruct (N.eqb_spec (tr_tenant_id r) tenant_id); congruence.
Qed.
Lemma find_run_ready w run : BatchReady w → find_run (w_db w) = Some run →
  is_Some (tt_tenants (db_tenancy (w_db w)) !! tenant_id).
Proof.
  intros Hw Hr. rewrite <- (find_run_tenant _ _ Hr). unfold find_run in Hr.
  destruct (table runs (w_db w) !! run_id) as [r|] eqn:E; simpl in Hr; [|done].
  destruct (_ =? _)%N; [|done]. injection Hr as <-. by eapply br_tenants.
Qed.

Lemma length_batch_claims run id at_ l : length (batch_claims run id at_ l) = length l.
Proof. revert id at_. induction l; intros; simpl; auto. Qed.
Lemma storable_batch run id at_ l :
  forallb TenantClaimRepo.storable (batch_claims run id at_ l) = forallb fits_column l.
Proof. revert id at_. induction l as [|c l IH]; intros; simpl; [done|]. by rewrite IH. Qed.

(** The claims of the batch. *)
Lemma add_claims_run run w w0 : BatchReady w → find_run (w_db w) = Some run →
  quiet w0 → w_db w0 = w_db w →
  TenantClaimRepo.add_many tenant_id (batch_claims run (w_uuid w) (w_now w) incoming) w0
  = if forallb fits_column incoming
    then (Ok tt, set_db (upd_table claims (add_rows claims
            (batch_claims run (w_uuid w) (w_now w) incoming)) (w_db w)) w0)
    else (Raise (DataError "tenant_claims"), w0).
Proof.
  intros Hw Hr Hq0 Hd0. pose proof (find_run_tenant _ _ Hr) as Ht.
  pose proof (batch_claims_tenant run (w_uuid w) (w_now w) incoming) as Hall. rewrite Ht in Hall.
  unfold TenantClaimRepo.add_many. rewrite (proj2 (forallb_forall _ _)).
  2: { intros c Hc%list_elem_of_In. apply N.eqb_eq. by eapply Forall_forall in Hall as [? _]. }
  rewrite stmt_quiet, Hd0 by done.
  pose proof (insert_all_fresh claims tenant_id "tenant_claims" TenantClaimRepo.storable
    (batch_claims run (w_uuid w) (w_now w) incoming) (w_db w) (find_run_ready _ _ Hw Hr)) as Hins.
  rewrite storable_batch in Hins. destruct (forallb fits_column incoming).
  - rewrite Hins; [done| |rewrite batch_claims_ids; apply ids_NoDup].
    eapply Forall_impl; [exact Hall|]. simpl. intros c [-> Hc]. split; [done|]. by apply Hw.
  - destruct (insert_all _ _ _ _ _) as [r d]. simpl in Hins. rewrite Hins; [done| |].
    + eapply Forall_impl; [exact Hall|]. simpl. intros c [-> Hc]. split; [done|]. by apply Hw.
    + rewrite batch_claims_ids. apply ids_NoDup.
Qed.

(** The usage it is metered for. *)
Lemma record_run run n w0 : tr_tenant_id run = tenant_id → n ≠ 0%nat → quiet w0 →
  is_Some (tt_tenants (db_tenancy (w_db w0)) !! tenant_id) →
  (∀ k, (w_uuid w0 ≤ k)%N → table usage (w_db w0) !! k = None) →
  MeteringService.record TENANT_CLAIM_INGESTED (Some tenant_id) None (Some (tr_id run)) (Z.of_nat n) w0
  = (Ok tt, set_db (upd_table usage (add_rows usage
       (batch_usage run (w_uuid w0) (w_now w0) n)) (w_db w0)) (later n w0)).
Proof.
  intros Ht Hn Hq Hten Hf. unfold MeteringService.record. cbv zeta.
  destruct (Z.eqb_spec (Z.max 0 (Z.of_nat n)) 0); [lia|].
  replace (Z.to_nat (Z.max 0 (Z.of_nat n))) with n by lia.
  pose proof (make_events_run run n w0) as Hm. rewrite Ht in Hm.
  unfold mbind, M_bind. rewrite Hm. unfold UsageRepo.add_many.
  rewrite bool_decide_false by (by destruct n). rewrite stmt_quiet by done.
  pose proof (insert_all_fresh usage tenant_id "usage_events" (λ _, true)
    (batch_usage run (w_uuid w0) (w_now w0) n) (w_db w0) Hten) as Hins.
  rewrite (proj2 (forallb_forall _ _)) in Hins by done. simpl (w_db (later n w0)).
  rewrite Hins; [done| |rewrite batch_usage_ids; apply ids_NoDup].
  pose proof (batch_usage_tenant run (w_uuid w0) (w_now w0) n) as Hall. rewrite Ht in Hall.
  eapply Forall_impl; [exact Hall|]. simpl. intros e [-> He]. split; [done|]. by apply Hf.
Qed.

End batch.

(** C25: a batch of claims is stored and metered together, or not at all: the answer is
    the first check that fails, or the number of claims; then the tables hold one new
    claim and one new usage event per item, under fresh identifiers, bound to the run's
    tenant and source, and everything else is as it was. *)
Theorem submit_claims_effect caller tenant_id role run_id incoming w :
  BatchReady w → w_committed w = w_db w →
  ∃ w', SubmitTenantClaimsBatch.execute tenant_id caller role run_id incoming w
        = (batch_verdict tenant_id caller role run_id incoming (w_db w), w')
  ∧ w_committed w'
    = match batch_verdict tenant_id caller role run_id incoming (w_db w) with
      | Ok n => if n =? 0 then w_db w else batch_stored tenant_id run_id incoming w
      | Raise _ => w_db w
      end.
Proof.
  intros Hw Hc. unfold SubmitTenantClaimsBatch.execute, batch_verdict, require_same_tenant, require_write_role.
  destruct (N.eqb_spec caller tenant_id) as [->|]; [|by eexists].
  destruct (bool_decide (role ∈ write_roles)); [|by eexists]. cbn [negb].
  unfold mbind at 1 2, M_bind at 1 2, mret at 1 2, M_ret at 1 2.
  destruct (_ <? _); [by eexists|].
  destruct (decide (length incoming = 0%nat)) as [H0|H0].
  { rewrite !bool_decide_true by done. by eexists. }
  rewrite !bool_decide_false by done.
  unfold mbind at 1, M_bind at 1. rewrite run_get_quiet by done.
  destruct (find_run tenant_id run_id (w_db w)) as [run|] eqn:Hr; [|by eexists].
  destruct (negb (String.eqb _ _)); [by eexists|]. cbv zeta.
  unfold mbind at 1, M_bind at 1. rewrite existing_quiet by apply Hw. rewrite unknown_filter.
  destruct (bool_decide (unknown_events _ _ ≠ [])); [by eexists|].
  pose proof (to_claims_run run incoming w) as Hto.
  pose proof (find_run_tenant _ _ _ _ Hr) as Ht. rewrite Ht in Hto.
  unfold mbind at 1, M_bind at 1.
  destruct (forallb (λ c, SubmitTenantClaimsBatch.confidence_ok _) incoming) eqn:Econf; cbn [negb].
  2: { destruct Hto as (w' & -> & Hc'). exists w'. by rewrite Hc'. }
  rewrite Hto. unfold mbind at 1, M_bind at 1.
  rewrite (add_claims_run tenant_id run_id incoming run w) by (done || apply Hw).
  destruct (forallb (fits_column) incoming); cbn [negb]; [|by eexists].
  unfold mbind at 1, M_bind at 1. rewrite length_batch_claims, (record_run tenant_id run); [|done|done| | |].
  - eexists. split; [reflexivity|]. simpl.
    destruct (Z.eqb_spec (Z.of_nat (length incoming)) 0); [lia|].
    unfold batch_stored. by rewrite Hr.
  - apply Hw.
  - simpl. by eapply find_run_ready.
  - simpl. intros k Hk. apply Hw. simpl in Hk. lia.
Qed.

Lemma sample_batch_ready : BatchReady (world_of (sample_tenancy_db ∅)).
Proof.
  assert (∀ k r, table runs (sample_tenancy_db ∅) !! k = Some r →
    k = 12%N ∧ tr_id r = 12%N ∧ tr_tenant_id r = 1%N) as Hruns.
  { intros k r. unfold table. simpl. by intros [[<- <-]|[_ ?]]%lookup_insert_Some. }
  constructor; [done| | |done].
  - intros k r Hr. by destruct (Hruns k r Hr) as (-> & ? & _).
  - intros k r Hr. destruct (Hruns k r Hr) as (_ & _ & ->). by eexists.
Qed.

Lemma submit_claims_effect_witness :
  ∃ w', SubmitTenantClaimsBatch.execute 1 1 "MEMBER" 12 sample_batch (world_of (sample_tenancy_db ∅))
        = (Ok 2, w')
  ∧ (tc_field_name <$> rows (table claims (w_committed w'))) = ["altitude"; "flaps"]
  ∧ length (rows (table usage (w_committed w'))) = 2%nat.
Proof.
  destruct (submit_claims_effect 1 1 "MEMBER" 12 sample_batch (world_of (sample_tenancy_db ∅)))
    as (w' & E & Hc).
  - apply sample_batch_ready.
  - reflexivity.
  - exists w'. split; [rewrite E; vm_compute; reflexivity|]. rewrite Hc.
    split; vm_compute; reflexivity.
Defined.

(** ** A run that is closed meanwhile

    Both calls check the status when they read the run, and neither statement that
    follows checks it again. *)
Definition sample_close (status : TenantIngestionRunStatus) (db : DB) : DB :=
  (CompleteTenantIngestionRun.execute 1 1 "OWNER" 12 status (mkWorld db db [] 2000000 2000)).2.(w_committed).
Definition sample_race (fs : list (DB → DB)) : World :=
  let db := sample_tenancy_db ∅ in mkWorld db db fs 1000000 1000.

(** A run another request closed as FAILED between the check and the update ends up
    SUCCEEDED, and its completion is metered twice. *)
Definition sample_completed : Res TenantIngestionRun * World :=
  CompleteTenantIngestionRun.execute 1 1 "MEMBER" 12 RUN_SUCCEEDED
    (sample_race [λ db, db; sample_close RUN_FAILED]).
Example a_closed_run_is_closed_again :
  (∃ r, sample_completed.1 = Ok r)
  ∧ tr_status <$> rows (table runs (w_committed sample_completed.2)) = [run_status_value RUN_SUCCEEDED]
  ∧ length (rows (table usage (w_committed sample_completed.2))) = 2%nat.
Proof. split; [eexists|]; vm_compute; done. Qed.

(** A batch is appended to a run that was closed after the check. *)
Definition sample_appended : Res Z * World :=
  SubmitTenantClaimsBatch.execute 1 1 "MEMBER" 12 sample_batch
    (sample_race [λ db, db; sample_close RUN_FAILED]).
Example a_closed_run_is_appended_to :
  sample_appended.1 = Ok 2
  ∧ tr_status <$> rows (table runs (w_committed sample_appended.2)) = [run_status_value RUN_FAILED]
  ∧ length (rows (table claims (w_committed sample_appended.2))) = 2%nat.
Proof. vm_compute. done. Qed.
