(* ===== verification/Paging.v ===== *)
(** Keyset pagination of any table: ORDER BY key DESC, id DESC, the rows after a cursor
    row, one row more than asked for to see whether there are more.  Used by the
    listings of the CMS and of Argus. *)
From S2P Require Import Prelude Text PyFloat PyVal PyDate Entities ContextEntities Store Publication.
From S2P Require Import Keyset.
Open Scope list_scope.
Open Scope Z_scope.

Section paging.
Context {A : Type} (id : A → UUID) (key : A → Z).

Definition newest_first (x y : A) : bool :=
  (key y <? key x) || ((key y =? key x) && (id y <=? id x)%N).
(** The row comparison [(key, id) < (cursor.key, cursor.id)] *)
Definition after (c : Z * UUID) (x : A) : bool :=
  (key x <? c.1) || ((key x =? c.1) && (id x <? c.2)%N).

(** The key of the cursor row; an unknown cursor counts as none. *)
Definition cursor_key (after_id : option UUID) (m : gmap UUID A) : option (Z * UUID) :=
  i ← after_id; x ← m !! i; Some (key x, i).
(** The query for the cursor row is made only when a cursor is given. *)
Definition read_cursor (after_id : option UUID) (table : DB → gmap UUID A) : M (option (Z * UUID)) :=
  match after_id with
  | None => mret None
  | Some _ => query (λ db, cursor_key after_id (table db))
  end.
Lemma read_cursor_quiet after_id table w : w_env w = [] →
  read_cursor after_id table w = (Ok (cursor_key after_id (table (w_db w))), w).
Proof.
  intros Hq. destruct after_id; [|done]. unfold read_cursor, query, stmt, env_step. rewrite Hq.
  by destruct w.
Qed.
Definition selected (P : A → bool) (c : option (Z * UUID)) (x : A) : bool :=
  P x && match c with None => true | Some c => after c x end.
Definition listing (P : A → bool) (m : gmap UUID A) : list A :=
  py_sorted newest_first (filter (λ x, P x = true) (rows m)).
Definition listing_after (P : A → bool) (c : option (Z * UUID)) (m : gmap UUID A) : list A :=
  listing (selected P c) m.

(** [limit + 1] rows: the page, and the cursor when there are more. *)
Definition trim_page (limit : nat) (l : list A) : list A * option UUID :=
  if bool_decide (limit < length l)%nat
  then let items := take limit l in (items, id <$> last items)
  else (l, None).
Definition keyset (P : A → bool) (limit : nat) (c : option (Z * UUID)) (m : gmap UUID A)
    : list A * option UUID :=
  trim_page limit (take (S limit) (listing_after P c m)).

(** The pages a client reads, one after the other. *)
Fixpoint walk (fuel : nat) (P : A → bool) (limit : nat) (after_id : option UUID) (m : gmap UUID A)
    : list A :=
  match fuel with
  | O => []
  | S fuel' =>
      let '(items, next) := keyset P limit (cursor_key after_id m) m in
      items ++ match next with None => [] | Some c => walk fuel' P limit (Some c) m end
  end.

Lemma newest_total x y : newest_first x y = true ∨ newest_first y x = true.
Proof. unfold newest_first. rewrite !orb_true_iff, !andb_true_iff, !Z.ltb_lt, !Z.eqb_eq, !N.leb_le. lia. Qed.
Lemma newest_trans x y z :
  newest_first x y = true → newest_first y z = true → newest_first x z = true.
Proof. unfold newest_first. rewrite !orb_true_iff, !andb_true_iff, !Z.ltb_lt, !Z.eqb_eq, !N.leb_le. lia. Qed.
Lemma newest_id x y : newest_first x y = true → newest_first y x = true → id x = id y.
Proof. unfold newest_first. rewrite !orb_true_iff, !andb_true_iff, !Z.ltb_lt, !Z.eqb_eq, !N.leb_le. lia. Qed.
Lemma after_spec x y : id y ≠ id x → after (key x, id x) y = true ↔ newest_first x y = true.
Proof.
  unfold after, newest_first. simpl.
  rewrite !orb_true_iff, !andb_true_iff, !Z.ltb_lt, !Z.eqb_eq, N.leb_le, N.ltb_lt. lia.
Qed.
Lemma after_self x : after (key x, id x) x = false.
Proof. unfold after. simpl. by rewrite Z.ltb_irrefl, N.ltb_irrefl, andb_false_r. Qed.

Context (m : gmap UUID A) (keyed : ∀ k x, m !! k = Some x → id x = k).

Lemma elem_of_table x : x ∈ rows m ↔ m !! id x = Some x.
Proof using keyed.
  rewrite elem_of_rows. split; [|by eauto]. intros [k Hk]. by rewrite (keyed k x Hk).
Qed.

Lemma NoDup_table : NoDup (rows m).
Proof using keyed.
  unfold rows. apply (NoDup_fmap_1 id). rewrite <- list_fmap_compose.
  assert ((id ∘ snd) <$> map_to_list m = fst <$> map_to_list m) as ->;
    [|apply NoDup_fst_map_to_list].
  apply list_fmap_ext. intros i [k x] H. simpl. apply (keyed k).
  apply elem_of_map_to_list. by eapply list_elem_of_lookup_2.
Qed.

Lemma elem_of_paged P x : x ∈ listing P m ↔ m !! id x = Some x ∧ P x = true.
Proof using keyed.
  unfold listing. rewrite elem_of_py_sorted, list_elem_of_filter, elem_of_table. naive_solver.
Qed.

Lemma NoDup_paged P : NoDup (listing P m).
Proof using keyed. unfold listing. rewrite py_sorted_perm. apply NoDup_filter, NoDup_table. Qed.

Lemma after_cut P pre x post : listing P m = pre ++ x :: post →
  listing_after P (Some (key x, id x)) m = post.
Proof using keyed.
  intros E.
  assert (x ∈ listing P m) as Hx by (rewrite E; set_solver).
  apply elem_of_paged in Hx as [Hx HPx].
  rewrite <- (sorted_after newest_first newest_total newest_trans (filter (λ y, P y = true) (rows m))
    pre x post (λ y, after (key x, id x) y = true)); [| | | |exact E].
  - unfold listing_after, listing. f_equal. rewrite list_filter_filter. apply list_filter_iff.
    intros y. unfold selected. rewrite andb_true_iff. tauto.
  - apply NoDup_filter, NoDup_table.
  - intros y z [_ Hy%elem_of_table]%list_elem_of_filter [_ Hz%elem_of_table]%list_elem_of_filter H1 H2.
    rewrite (newest_id y z H1 H2) in Hy. congruence.
  - intros y [_ Hy%elem_of_table]%list_elem_of_filter.
    destruct (decide (id y = id x)) as [Eid|Hne].
    + assert (y = x) as -> by congruence. rewrite after_self. split; [done|]. intros [_ Hc]. by destruct Hc.
    + rewrite after_spec by done. split; [|by intros []]. intros H. split; [done|congruence].
Qed.

(** Reading page after page gives the listing, every row once and in order. *)
Lemma walk_rest P limit pre post : (0 < limit)%nat → ∀ fuel, (length post < fuel)%nat →
  listing P m = pre ++ post →
  walk fuel P limit (id <$> last pre) m = post.
Proof using keyed.
  intros Hlim fuel. revert pre post. induction fuel as [|fuel IH]; intros pre post Hf E; [lia|].
  assert (listing_after P (cursor_key (id <$> last pre) m) m = post) as Hpost.
  { destruct (decide (pre = [])) as [->|Hne].
    - simpl in *. subst post. unfold listing_after, listing. f_equal. apply list_filter_iff.
      intros y. unfold selected. simpl. by rewrite andb_true_r.
    - destruct (exists_last Hne) as (pre' & x & ->). rewrite last_snoc.
      assert (x ∈ listing P m) as Hx by (rewrite E; set_solver).
      apply elem_of_paged in Hx as [Hx _]. unfold cursor_key. simpl. rewrite Hx. simpl.
      apply (after_cut P pre'). by rewrite E, <- app_assoc. }
  cbn [walk]. unfold keyset. rewrite Hpost. unfold trim_page. rewrite length_take.
  destruct (decide (limit < length post)%nat) as [Hl|Hl].
  - rewrite bool_decide_true by lia. rewrite take_take.
    replace (limit `min` S limit)%nat with limit by lia. cbv zeta.
    assert (take limit post ≠ []) as Hne by (destruct post, limit; simpl in *; try lia; done).
    destruct (exists_last Hne) as (l & x & El). rewrite El, last_snoc. simpl.
    transitivity (take limit post ++ drop limit post); [|apply take_drop]. rewrite El. f_equal.
    assert (Some (id x) = id <$> last (pre ++ take limit post)) as ->.
    { by rewrite El, app_assoc, last_snoc. }
    apply IH.
    + rewrite length_drop. lia.
    + by rewrite <- app_assoc, take_drop.
  - rewrite bool_decide_false by lia. rewrite take_ge by lia. apply app_nil_r.
Qed.

Lemma keyset_length P limit c : (length (keyset P limit c m).1 ≤ limit)%nat.
Proof using. unfold keyset, trim_page. case_bool_decide; simpl; rewrite length_take in *; lia. Qed.

Lemma walk_complete P limit fuel : (0 < limit)%nat → (length (listing P m) < fuel)%nat →
  walk fuel P limit None m = listing P m.
Proof using keyed. intros Hl Hf. by apply (walk_rest P limit [] (listing P m)). Qed.
End paging.
