(* ===== verification/Cms.v ===== *)
(** The CMS: glossary terms, methodology pages and changelog entries, three kinds of
    content under the workflow of the public event pages (application/use_cases/cms.py,
    infrastructure/db/repositories/cms.py).

    What the shared transition code needs of a kind of content is the record [Slot], after
    the [_CmsContentSlot] protocol; the repositories, which are three copies of one
    text, are defined once over it. *)
From S2P Require Import Prelude Text PyFloat PyVal PyDate Entities ContextEntities Store Json.
From S2P Require Import Logic Publication Keyset Paging.
Open Scope string_scope.
Open Scope list_scope.
Open Scope Z_scope.

(** ** A kind of content *)
Record Slot (E : Type) := mkSlot {
  sl_kind : string;                            (* kind_name *)
  sl_table : string;
  sl_index : string;                           (* the unique index on the key *)
  sl_rows : CmsTables → gmap UUID E;
  sl_set_rows : gmap UUID E → CmsTables → CmsTables;
  sl_revisions : CmsTables → list CmsRevision;
  sl_set_revisions : list CmsRevision → CmsTables → CmsTables;
  sl_id : E → UUID;
  sl_key : E → string;                         (* term or slug *)
  sl_workflow : E → WorkflowState;
  sl_with_workflow : WorkflowState → E → E;
  sl_columns : E → bool;                       (* the widths of the content columns *)
  sl_not_found : UUID → exn;
  sl_not_published : string → exn;
  sl_retracted : string → option string → exn;
}.
Arguments mkSlot {_}.
Arguments sl_kind {_}. Arguments sl_table {_}. Arguments sl_index {_}.
Arguments sl_rows {_}. Arguments sl_set_rows {_}.
Arguments sl_revisions {_}. Arguments sl_set_revisions {_}. Arguments sl_id {_}.
Arguments sl_key {_}. Arguments sl_workflow {_}. Arguments sl_with_workflow {_}.
Arguments sl_columns {_}. Arguments sl_not_found {_}. Arguments sl_not_published {_}.
Arguments sl_retracted {_}.

Definition glossary_slot : Slot GlossaryTerm :=
  mkSlot "glossary_term" "glossary_terms" "uq_glossary_terms_term"
    cms_glossary (λ m t, mkCmsTables m (cms_glossary_revisions t) (cms_methodology t)
      (cms_methodology_revisions t) (cms_changelog t) (cms_changelog_revisions t))
    cms_glossary_revisions (λ l t, mkCmsTables (cms_glossary t) l (cms_methodology t)
      (cms_methodology_revisions t) (cms_changelog t) (cms_changelog_revisions t))
    gt_id gt_term gt_workflow
    (λ wf e, mkGlossaryTerm (gt_id e) (gt_term e) (gt_display_term e) (gt_body_markdown e) wf)
    (λ e, fits 120 (gt_term e) && fits 200 (gt_display_term e))
    GlossaryTermNotFoundError GlossaryTermNotPublishedError GlossaryTermRetractedError.

Definition methodology_slot : Slot MethodologyPage :=
  mkSlot "methodology_page" "methodology_pages" "uq_methodology_pages_slug"
    cms_methodology (λ m t, mkCmsTables (cms_glossary t) (cms_glossary_revisions t) m
      (cms_methodology_revisions t) (cms_changelog t) (cms_changelog_revisions t))
    cms_methodology_revisions (λ l t, mkCmsTables (cms_glossary t) (cms_glossary_revisions t)
      (cms_methodology t) l (cms_changelog t) (cms_changelog_revisions t))
    mp_id mp_slug mp_workflow
    (λ wf e, mkMethodologyPage (mp_id e) (mp_slug e) (mp_title e) (mp_section e) (mp_section_order e)
      (mp_body_markdown e) wf)
    (λ e, fits 160 (mp_slug e) && fits 300 (mp_title e) && fits 100 (mp_section e)
          && int4 (mp_section_order e))
    MethodologyPageNotFoundError MethodologyPageNotPublishedError MethodologyPageRetractedError.

Definition changelog_slot : Slot ChangelogEntry :=
  mkSlot "changelog_entry" "changelog_entries" "uq_changelog_entries_slug"
    cms_changelog (λ m t, mkCmsTables (cms_glossary t) (cms_glossary_revisions t)
      (cms_methodology t) (cms_methodology_revisions t) m (cms_changelog_revisions t))
    cms_changelog_revisions (λ l t, mkCmsTables (cms_glossary t) (cms_glossary_revisions t)
      (cms_methodology t) (cms_methodology_revisions t) (cms_changelog t) l)
    ce_id ce_slug ce_workflow
    (λ wf e, mkChangelogEntry (ce_id e) (ce_slug e) (ce_title e) (ce_effective_date e)
      (ce_body_markdown e) wf)
    (λ e, fits 160 (ce_slug e) && fits 300 (ce_title e))
    ChangelogEntryNotFoundError ChangelogEntryNotPublishedError ChangelogEntryRetractedError.

(** ** The repositories *)
Section repository.
Context {E : Type} (sl : Slot E).

Definition content (db : DB) : gmap UUID E := sl_rows sl (db_cms db).
Definition revisions (db : DB) : list CmsRevision := sl_revisions sl (db_cms db).
Definition status (e : E) : PublicationStatus := wf_status (sl_workflow sl e).
Definition version (e : E) : Z := wf_version (sl_workflow sl e).
Definition storable (e : E) : bool := sl_columns sl e && int4 (version e).
Definition set_content (m : gmap UUID E) : DB → DB := upd_cms (sl_set_rows sl m).

Definition get (id : UUID) : M (option E) := query (λ db, content db !! id).
Definition get_by_key (key : string) : M (option E) :=
  scalar_query (λ db, filter (λ e, sl_key sl e = key) (rows (content db))).

(** The other rows that hold the key. *)
Definition key_taken (e : E) (db : DB) : bool :=
  bool_decide (filter (λ x, sl_key sl x = sl_key sl e ∧ sl_id sl x ≠ sl_id sl e) (rows (content db)) ≠ []).

Definition add (e : E) : M unit :=
  stmt (λ db,
    if negb (storable e) then (Raise (DataError (sl_table sl)), db)
    else match content db !! sl_id sl e with
         | Some _ => (Raise (IntegrityError (sl_table sl +:+ "_pkey")), db)
         | None => if key_taken e db then (Raise (IntegrityError (sl_index sl)), db)
                   else (Ok tt, set_content (<[sl_id sl e := e]> (content db)) db)
         end).

(** UPDATE ... WHERE id = :id AND version = :expected; whether a row was updated. *)
Definition update_row (e : E) (expected_version : Z) : M bool :=
  stmt (λ db,
    match content db !! sl_id sl e with
    | Some current =>
        if version current =? expected_version
        then if negb (storable e) then (Raise (DataError (sl_table sl)), db)
             else if key_taken e db then (Raise (IntegrityError (sl_index sl)), db)
             else (Ok true, set_content (<[sl_id sl e := e]> (content db)) db)
        else (Ok false, db)
    | None => (Ok false, db)
    end).
Definition update (e : E) (expected_version : Z) : M unit :=
  updated ← update_row e expected_version;
  if updated : bool then mret tt else
  current ← get (sl_id sl e);
  raise (CmsContentModifiedError (sl_kind sl) (sl_id sl e) expected_version
           (match current with Some c => version c | None => -1 end)).

(** The key of the row exists, the version fits its column, the identifier is new. *)
Definition add_revision (r : CmsRevision) : M unit :=
  stmt (λ db,
    if negb (int4 (cr_version_at_revision r)) then (Raise (DataError "version_at_revision"), db)
    else match content db !! cr_owner_id r with
         | None => (Raise (IntegrityError (sl_table sl +:+ "_revisions_fkey")), db)
         | Some _ =>
             if bool_decide (cr_id r ∈ cr_id <$> revisions db)
             then (Raise (IntegrityError (sl_table sl +:+ "_revisions_pkey")), db)
             else (Ok tt, upd_cms (sl_set_revisions sl (revisions db ++ [r])) db)
         end).
Definition by_creation (x y : CmsRevision) : bool := cr_created_at x <=? cr_created_at y.
Definition list_revisions (owner_id : UUID) : M (list CmsRevision) :=
  query (λ db, py_sorted by_creation (filter (λ r, cr_owner_id r = owner_id) (revisions db))).

Definition with_status_in (statuses : option (list PublicationStatus)) (e : E) : bool :=
  match statuses with
  | None | Some [] => true
  | Some l => bool_decide (status e ∈ l)
  end.
Definition updated_at (e : E) : Z := wf_updated_at (sl_workflow sl e).
Definition list_editorial (statuses : option (list PublicationStatus)) (limit : nat)
    (after_id : option UUID) : M (list E * option UUID) :=
  cursor ← read_cursor updated_at after_id content;
  query (λ db, keyset (sl_id sl) updated_at (with_status_in statuses) limit cursor (content db)).

(** ** The transitions *)
Inductive CmsAction := Submit | RequestChanges | Approve | Reject | Publish | Archive | Reopen | Retract.
Definition target_status (a : CmsAction) : PublicationStatus :=
  match a with
  | Submit => IN_REVIEW | Approve => APPROVED
  | RequestChanges | Reject | Reopen => DRAFT
  | Publish => PUBLISHED | Archive => ARCHIVED | Retract => RETRACTED
  end.

Record CmsTransitionInput := mkTransitionInput {
  tr_entity_id : UUID;
  tr_expected_version : Z;
  tr_editor_user_id : UUID;
  tr_transition_reason : option string;
  tr_retraction_note : option string;
}.

(** [_apply_status_mutation] and the overrides of [_PublishMixin] and [_RetractMixin] *)
Definition mutate_workflow (a : CmsAction) (now : datetime) (input : CmsTransitionInput)
    (wf : WorkflowState) : WorkflowState :=
  match a with
  | Publish =>
      mkWorkflow PUBLISHED (wf_version wf + 1) (coalesce (wf_first_published_at wf) (Some now))
        (Some now) (wf_retraction_note wf) (wf_created_at wf) now
  | Retract =>
      mkWorkflow RETRACTED (wf_version wf + 1) (wf_first_published_at wf) (wf_last_published_at wf)
        (tr_retraction_note input) (wf_created_at wf) now
  | _ =>
      mkWorkflow (target_status a) (wf_version wf + 1) (wf_first_published_at wf)
        (wf_last_published_at wf) (wf_retraction_note wf) (wf_created_at wf) now
  end.
Definition apply_status_mutation (a : CmsAction) (now : datetime) (input : CmsTransitionInput) (e : E) : E :=
  sl_with_workflow sl (mutate_workflow a now input (sl_workflow sl e)) e.

Definition transition (a : CmsAction) (input : CmsTransitionInput) : M E :=
  entity ← get (tr_entity_id input);
  match entity with
  | None => raise (sl_not_found sl (tr_entity_id input))
  | Some entity =>
      let from_status := status entity in
      lift_res (Workflow.validate_transition from_status (target_status a));;
      moment ← utc_now;
      let updated := apply_status_mutation a moment input entity in
      update updated (tr_expected_version input);;
      id ← uuid4;
      created_at ← utc_now;
      add_revision (mkCmsRevision id (sl_id sl updated) (Some from_status) (target_status a)
        (version updated) (tr_editor_user_id input) (tr_transition_reason input)
        (if bool_decide (target_status a = RETRACTED) then tr_retraction_note input else None)
        created_at);;
      commit;;
      mret updated
  end.

(** ** Creation and editing *)
Definition fresh_workflow (created_at updated_at : datetime) : WorkflowState :=
  mkWorkflow DRAFT 1 None None None created_at updated_at.

(** [add], the first revision, [commit]. *)
Definition create (editor_user_id : UUID) (e : E) : M E :=
  add e;;
  id ← uuid4;
  created_at ← utc_now;
  add_revision (mkCmsRevision id (sl_id sl e) None (status e) (version e) editor_user_id
    (Some "created") None created_at);;
  commit;;
  mret e.

Definition edited (now : datetime) (wf : WorkflowState) : WorkflowState :=
  mkWorkflow (wf_status wf) (wf_version wf + 1) (wf_first_published_at wf) (wf_last_published_at wf)
    (wf_retraction_note wf) (wf_created_at wf) now.
Definition edit (id : UUID) (expected_version : Z) (change : E → E) : M E :=
  existing ← get id;
  match existing with
  | None => raise (sl_not_found sl id)
  | Some existing =>
      moment ← utc_now;
      let updated := change (sl_with_workflow sl (edited moment (sl_workflow sl existing)) existing) in
      update updated expected_version;;
      commit;;
      mret updated
  end.

(** PUBLISHED is served, RETRACTED is gone, everything else does not exist. *)
Definition load_with_visibility (key : string) : M E :=
  found ← get_by_key key;
  match found with
  | None => raise (sl_not_published sl key)
  | Some e =>
      if bool_decide (status e = RETRACTED)
      then raise (sl_retracted sl key (wf_retraction_note (sl_workflow sl e)))
      else if bool_decide (status e ≠ PUBLISHED) then raise (sl_not_published sl key)
      else mret e
  end.
Definition get_public (key : string) : M E := e ← load_with_visibility key; rollback;; mret e.
End repository.

Module CreateGlossaryTerm.
Definition execute (term display_term body_markdown : string) (editor_user_id : UUID) : M GlossaryTerm :=
  id ← uuid4; created_at ← utc_now; updated_at ← utc_now;
  when_valid (text_between 1 120 term && text_between 1 200 display_term)
    (create glossary_slot editor_user_id
       (mkGlossaryTerm id term display_term body_markdown (fresh_workflow created_at updated_at))).
End CreateGlossaryTerm.
Module UpdateGlossaryTerm.
Definition execute (term_id : UUID) (expected_version : Z) (display_term body_markdown : string)
    : M GlossaryTerm :=
  edit glossary_slot term_id expected_version
    (λ e, mkGlossaryTerm (gt_id e) (gt_term e) display_term body_markdown (gt_workflow e)).
End UpdateGlossaryTerm.

Module CreateMethodologyPage.
Definition execute (slug title section : string) (section_order : Z) (body_markdown : string)
    (editor_user_id : UUID) : M MethodologyPage :=
  id ← uuid4; created_at ← utc_now; updated_at ← utc_now;
  when_valid (text_between 1 160 slug && text_between 1 300 title && text_between 1 100 section
              && (0 <=? section_order))
    (create methodology_slot editor_user_id
       (mkMethodologyPage id slug title section section_order body_markdown
          (fresh_workflow created_at updated_at))).
End CreateMethodologyPage.
Module UpdateMethodologyPage.
Definition execute (page_id : UUID) (expected_version : Z) (title section : string)
    (section_order : Z) (body_markdown : string) : M MethodologyPage :=
  edit methodology_slot page_id expected_version
    (λ e, mkMethodologyPage (mp_id e) (mp_slug e) title section section_order body_markdown
            (mp_workflow e)).
End UpdateMethodologyPage.

Module CreateChangelogEntry.
Definition execute (slug title : string) (effective_date : Z) (body_markdown : string)
    (editor_user_id : UUID) : M ChangelogEntry :=
  id ← uuid4; created_at ← utc_now; updated_at ← utc_now;
  when_valid (text_between 1 160 slug && text_between 1 300 title)
    (create changelog_slot editor_user_id
       (mkChangelogEntry id slug title effective_date body_markdown
          (fresh_workflow created_at updated_at))).
End CreateChangelogEntry.
Module UpdateChangelogEntry.
Definition execute (entry_id : UUID) (expected_version : Z) (title : string) (effective_date : Z)
    (body_markdown : string) : M ChangelogEntry :=
  edit changelog_slot entry_id expected_version
    (λ e, mkChangelogEntry (ce_id e) (ce_slug e) title effective_date body_markdown (ce_workflow e)).
End UpdateChangelogEntry.

(** ** Public listings *)
Definition published {E} (sl : Slot E) (e : E) : bool := bool_decide (status sl e = PUBLISHED).

Module ListPublicGlossary.
Definition by_term (x y : GlossaryTerm) : bool := String.leb (gt_term x) (gt_term y).
Definition execute : M (list GlossaryTerm) :=
  terms ← query (λ db, py_sorted by_term
            (filter (λ e, published glossary_slot e = true) (rows (content glossary_slot db))));
  rollback;;
  mret terms.
End ListPublicGlossary.

Module ListPublicMethodology.
(** ORDER BY section, section_order, title *)
Definition by_section (x y : MethodologyPage) : bool :=
  String.ltb (mp_section x) (mp_section y)
  || (String.eqb (mp_section x) (mp_section y)
      && ((mp_section_order x <? mp_section_order y)
          || ((mp_section_order x =? mp_section_order y) && String.leb (mp_title x) (mp_title y)))).

(** The loop: [current] is the open section with its pages so far. *)
Fixpoint group (out : list (string * list MethodologyPage)) (current : option (string * list MethodologyPage))
    (flat : list MethodologyPage) : list (string * list MethodologyPage) :=
  match flat with
  | [] => match current with Some c => out ++ [c] | None => out end
  | page :: flat' =>
      match current with
      | Some (section, pages) =>
          if String.eqb (mp_section page) section
          then group out (Some (section, pages ++ [page])) flat'
          else group (out ++ [(section, pages)]) (Some (mp_section page, [page])) flat'
      | None => group out (Some (mp_section page, [page])) flat'
      end
  end.
Definition execute : M (list (string * list MethodologyPage)) :=
  flat ← query (λ db, py_sorted by_section
           (filter (λ e, published methodology_slot e = true) (rows (content methodology_slot db))));
  rollback;;
  mret (group [] None flat).
End ListPublicMethodology.

Module ListPublicChangelog.
Definition MAX_LIMIT : Z := 100.
Definition list_published (limit : nat) (after_id : option UUID)
    : M (list ChangelogEntry * option UUID) :=
  cursor ← read_cursor ce_effective_date after_id (content changelog_slot);
  query (λ db, keyset ce_id ce_effective_date (published changelog_slot) limit cursor
                 (content changelog_slot db)).
Definition execute (limit : Z) (after_id : option UUID) : M (list ChangelogEntry * option UUID) :=
  let bounded_limit := Z.max 1 (Z.min limit MAX_LIMIT) in
  page ← list_published (Z.to_nat bounded_limit) after_id;
  rollback;;
  mret page.
End ListPublicChangelog.

(** ** Everything an editor can ask *)
Inductive CmsRequest :=
  | NewGlossaryTerm (term display_term body_markdown : string) (editor : UUID)
  | EditGlossaryTerm (id : UUID) (expected : Z) (display_term body_markdown : string)
  | MoveGlossaryTerm (a : CmsAction) (input : CmsTransitionInput)
  | NewMethodologyPage (slug title section : string) (order : Z) (body_markdown : string) (editor : UUID)
  | EditMethodologyPage (id : UUID) (expected : Z) (title section : string) (order : Z) (body_markdown : string)
  | MoveMethodologyPage (a : CmsAction) (input : CmsTransitionInput)
  | NewChangelogEntry (slug title : string) (effective_date : Z) (body_markdown : string) (editor : UUID)
  | EditChangelogEntry (id : UUID) (expected : Z) (title : string) (effective_date : Z) (body_markdown : string)
  | MoveChangelogEntry (a : CmsAction) (input : CmsTransitionInput).

Definition drop {A} (m : M A) : M unit := m;; mret tt.
Definition handle_cms (r : CmsRequest) : M unit :=
  match r with
  | NewGlossaryTerm term display body editor => drop (CreateGlossaryTerm.execute term display body editor)
  | EditGlossaryTerm id v display body => drop (UpdateGlossaryTerm.execute id v display body)
  | MoveGlossaryTerm a input => drop (transition glossary_slot a input)
  | NewMethodologyPage slug title section order body editor =>
      drop (CreateMethodologyPage.execute slug title section order body editor)
  | EditMethodologyPage id v title section order body =>
      drop (UpdateMethodologyPage.execute id v title section order body)
  | MoveMethodologyPage a input => drop (transition methodology_slot a input)
  | NewChangelogEntry slug title date body editor =>
      drop (CreateChangelogEntry.execute slug title date body editor)
  | EditChangelogEntry id v title date body => drop (UpdateChangelogEntry.execute id v title date body)
  | MoveChangelogEntry a input => drop (transition changelog_slot a input)
  end.
