(* ===== verification/CmsFacts.v ===== *)
(** What holds of the CMS: the complete effect of a transition for every kind of
    content, the audit trail that serially served requests leave, and the public
    listings of the changelog and of the methodology. *)
From S2P Require Import Prelude Text PyFloat PyVal PyDate Entities ContextEntities Store Json.
From S2P Require Import Logic Publication Keyset Paging Cms.
Open Scope string_scope.
Open Scope list_scope.
Open Scope Z_scope.

(** ** What the repositories rely on in a kind of content *)
Class SlotLaws {E} (sl : Slot E) := {
  rows_set_rows m t : sl_rows sl (sl_set_rows sl m t) = m;
  revisions_set_rows m t : sl_revisions sl (sl_set_rows sl m t) = sl_revisions sl t;
  rows_set_revisions l t : sl_rows sl (sl_set_revisions sl l t) = sl_rows sl t;
  revisions_set_revisions l t : sl_revisions sl (sl_set_revisions sl l t) = l;
  set_revisions_same t : sl_set_revisions sl (sl_revisions sl t) t = t;
  id_with_workflow wf e : sl_id sl (sl_with_workflow sl wf e) = sl_id sl e;
  key_with_workflow wf e : sl_key sl (sl_with_workflow sl wf e) = sl_key sl e;
  workflow_with_workflow wf e : sl_workflow sl (sl_with_workflow sl wf e) = wf;
  columns_with_workflow wf e : sl_columns sl (sl_with_workflow sl wf e) = sl_columns sl e;
}.
#[export] Instance glossary_laws : SlotLaws glossary_slot.
Proof. split; try done; by intros []. Qed.
#[export] Instance methodology_laws : SlotLaws methodology_slot.
Proof. split; try done; by intros []. Qed.
#[export] Instance changelog_laws : SlotLaws changelog_slot.
Proof. split; try done; by intros []. Qed.

(** ** The audit trail *)

(** A walk of the workflow: [Trail l s v] when the revisions [l] start with the creation
    of a DRAFT, each continues the status the one before reached by an allowed
    transition under a higher version, and they end in [s] at version [v]. *)
Inductive Trail : list CmsRevision → PublicationStatus → Z → Prop :=
  | trail_created r : cr_from_status r = None → cr_to_status r = DRAFT →
      cr_version_at_revision r = 1 → Trail [r] DRAFT 1
  | trail_moved l s v r : Trail l s v →
      cr_from_status r = Some s → Workflow.is_allowed s (cr_to_status r) = true →
      v < cr_version_at_revision r →
      Trail (l ++ [r]) (cr_to_status r) (cr_version_at_revision r).

Definition of_owner (k : UUID) : list CmsRevision → list CmsRevision := filter (λ r, cr_owner_id r = k).

Section tables.
Context {E : Type} (sl : Slot E).

Record content_ok (db : DB) : Prop := {
  ck_ids k e : content sl db !! k = Some e → sl_id sl e = k;
  ck_keys k k' e e' : content sl db !! k = Some e → content sl db !! k' = Some e' →
    sl_key sl e = sl_key sl e' → k = k';
  ck_columns k e : content sl db !! k = Some e → sl_columns sl e = true;
  ck_trails k e : content sl db !! k = Some e → ∃ v, v ≤ version sl e
    ∧ Trail (of_owner k (revisions sl db)) (status sl e) v;
  ck_owners r : r ∈ revisions sl db → is_Some (content sl db !! cr_owner_id r);
  ck_published k e : content sl db !! k = Some e →
    is_Some (wf_first_published_at (sl_workflow sl e))
      ↔ ∃ r, r ∈ of_owner k (revisions sl db) ∧ cr_to_status r = PUBLISHED;
}.

(** The rows of a kind after a request: one row written, perhaps one revision added. *)
Definition written (db : DB) (e : E) (l : list CmsRevision) : DB :=
  upd_cms (λ t, sl_set_revisions sl (revisions sl db ++ l) (sl_set_rows sl (<[sl_id sl e := e]> (content sl db)) t)) db.

Lemma key_taken_false db e : content_ok db → key_taken sl e db = false ↔
  ∀ k x, content sl db !! k = Some x → sl_key sl x = sl_key sl e → k = sl_id sl e.
Proof.
  intros Hok. unfold key_taken. rewrite bool_decide_eq_false. split.
  - intros Hn k x Hx Ek. destruct (decide (k = sl_id sl e)) as [|Hne]; [done|]. exfalso. apply Hn.
    intros Hnil. apply (not_elem_of_nil x). rewrite <- Hnil. apply list_elem_of_filter.
    rewrite (ck_ids _ Hok _ _ Hx). split; [done|]. apply elem_of_rows. by exists k.
  - intros H. intros Hne. apply Hne. apply list_filter_none, Forall_forall.
    intros x [k Hx]%elem_of_rows [Ek Hid].
    rewrite (ck_ids _ Hok _ _ Hx) in Hid. by apply Hid, (H k x).
Qed.

Context `{!SlotLaws sl}.

Lemma content_written db e l : content sl (written db e l) = <[sl_id sl e := e]> (content sl db).
Proof using Type*. unfold content, written. simpl. by rewrite rows_set_revisions, rows_set_rows. Qed.
Lemma revisions_written db e l : revisions sl (written db e l) = revisions sl db ++ l.
Proof using Type*. unfold revisions, written. simpl. by rewrite revisions_set_revisions. Qed.
Lemma set_content_written db e : set_content sl (<[sl_id sl e := e]> (content sl db)) db = written db e [].
Proof using Type*.
  unfold set_content, written, upd_cms. f_equal. rewrite app_nil_r. unfold revisions.
  rewrite <- (revisions_set_rows (<[sl_id sl e := e]> (content sl db)) (db_cms db)).
  by rewrite set_revisions_same.
Qed.

(** ** Rows written *)

(** UPDATE of a stored row under its own key. *)
Lemma update_run db com now uid e expected c : content_ok db →
  content sl db !! sl_id sl e = Some c → sl_key sl e = sl_key sl c →
  let w := mkWorld db com [] now uid in
  update sl e expected w =
    if version sl c =? expected then
      if storable sl e then (Ok tt, mkWorld (written db e []) com [] now uid)
      else (Raise (DataError (sl_table sl)), w)
    else (Raise (CmsContentModifiedError (sl_kind sl) (sl_id sl e) expected (version sl c)), w).
Proof using Type*.
  intros Hok Hc Ek w. unfold update, mbind, M_bind, update_row, get, query.
  rewrite stmt_quiet by done. cbn [w w_db]. rewrite Hc.
  destruct (version sl c =? expected) eqn:Ev.
  - destruct (storable sl e); [|done]. simpl.
    assert (key_taken sl e db = false) as ->; [|by rewrite set_content_written].
    apply key_taken_false; [done|]. intros k x Hx E'.
    apply (ck_keys _ Hok _ _ _ _ Hx Hc). congruence.
  - change (set_db db w) with w. rewrite stmt_quiet by done. cbn [w w_db]. by rewrite Hc.
Qed.

Lemma add_revision_run db com now uid e r : cr_owner_id r = sl_id sl e →
  let w := mkWorld (written db e []) com [] now uid in
  add_revision sl r w =
    if int4 (cr_version_at_revision r) then
      if bool_decide (cr_id r ∈ cr_id <$> revisions sl db)
      then (Raise (IntegrityError (sl_table sl +:+ "_revisions_pkey")), w)
      else (Ok tt, mkWorld (written db e [r]) com [] now uid)
    else (Raise (DataError "version_at_revision"), w).
Proof using Type*.
  intros Er w. unfold add_revision. rewrite stmt_quiet by done. cbn [w w_db].
  destruct (int4 _); [|done]. simpl. rewrite content_written, Er, lookup_insert_eq.
  rewrite revisions_written, app_nil_r. case_bool_decide; [done|].
  unfold set_db. simpl. do 2 f_equal. unfold written, upd_cms. f_equal. simpl.
  rewrite app_nil_r. unfold revisions.
  rewrite <- (revisions_set_rows (<[sl_id sl e := e]> (content sl db)) (db_cms db)) at 2.
  by rewrite set_revisions_same.
Qed.

Lemma fresh_rows_add db com now uid e :
  let w := mkWorld db com [] now uid in
  (∃ x, add sl e w = (Raise x, w)) ∨
  (add sl e w = (Ok tt, mkWorld (written db e []) com [] now uid)
   ∧ sl_columns sl e = true ∧ content sl db !! sl_id sl e = None ∧ key_taken sl e db = false).
Proof using Type*.
  intros w. unfold add. rewrite stmt_quiet by done. cbn [w w_db]. unfold storable.
  destruct (sl_columns sl e); [|simpl; eauto]. destruct (int4 (version sl e)); [|simpl; eauto]. simpl.
  destruct (content sl db !! sl_id sl e); [simpl; eauto|].
  destruct (key_taken sl e db); [simpl; eauto|]. right. by rewrite set_content_written.
Qed.

(** ** Requests as steps of the tables of one kind *)
Inductive content_step (db : DB) : DB → Prop :=
  | cs_created e r :
      content sl db !! sl_id sl e = None → key_taken sl e db = false → sl_columns sl e = true →
      status sl e = DRAFT → version sl e = 1 → wf_first_published_at (sl_workflow sl e) = None →
      cr_owner_id r = sl_id sl e → cr_from_status r = None → cr_to_status r = DRAFT →
      cr_version_at_revision r = 1 →
      content_step db (written db e [r])
  | cs_edited e e' :
      content sl db !! sl_id sl e = Some e → sl_id sl e' = sl_id sl e → sl_key sl e' = sl_key sl e →
      sl_columns sl e' = true → status sl e' = status sl e → version sl e' = version sl e + 1 →
      wf_first_published_at (sl_workflow sl e') = wf_first_published_at (sl_workflow sl e) →
      content_step db (written db e' [])
  | cs_moved e e' r :
      content sl db !! sl_id sl e = Some e → sl_id sl e' = sl_id sl e → sl_key sl e' = sl_key sl e →
      sl_columns sl e' = true → Workflow.is_allowed (status sl e) (status sl e') = true →
      version sl e' = version sl e + 1 →
      (is_Some (wf_first_published_at (sl_workflow sl e'))
         ↔ is_Some (wf_first_published_at (sl_workflow sl e)) ∨ status sl e' = PUBLISHED) →
      cr_owner_id r = sl_id sl e → cr_from_status r = Some (status sl e) →
      cr_to_status r = status sl e' → cr_version_at_revision r = version sl e' →
      content_step db (written db e' [r]).

Lemma of_owner_app k l l' : of_owner k (l ++ l') = of_owner k l ++ of_owner k l'.
Proof using. apply filter_app. Qed.

(** What a row and its revisions have to satisfy, and that writing them is enough. *)
Definition row_ok (e : E) (l : list CmsRevision) : Prop :=
  sl_columns sl e = true
  ∧ (∃ v, v ≤ version sl e ∧ Trail l (status sl e) v)
  ∧ (is_Some (wf_first_published_at (sl_workflow sl e)) ↔ ∃ r, r ∈ l ∧ cr_to_status r = PUBLISHED).

Lemma row_written_ok db e l : content_ok db →
  (∀ k x, content sl db !! k = Some x → sl_key sl x = sl_key sl e → k = sl_id sl e) →
  (∀ r, r ∈ l → cr_owner_id r = sl_id sl e) →
  row_ok e (of_owner (sl_id sl e) (revisions sl db) ++ l) →
  content_ok (written db e l).
Proof using Type*.
  intros Hok Hkey Hl (Hcol & Htr & Hpub).
  assert (∀ k, of_owner k l = if decide (sl_id sl e = k) then l else []) as Hof.
  { intros k. case_decide as Ek.
    - apply list_filter_all, Forall_forall. intros r Hr. rewrite (Hl r Hr). done.
    - apply list_filter_none, Forall_forall. intros r Hr. by rewrite (Hl r Hr). }
  split; rewrite ?content_written, ?revisions_written.
  - intros k x [[<- <-]|[? Hx]]%lookup_insert_Some; [done|by apply (ck_ids _ Hok)].
  - intros k k' x x' [[<- <-]|[? Hx]]%lookup_insert_Some [[<- <-]|[? Hx']]%lookup_insert_Some E'.
    + done.
    + symmetry. by apply (Hkey k' x').
    + by apply (Hkey k x).
    + by apply (ck_keys _ Hok k k' x x').
  - intros k x [[<- <-]|[? Hx]]%lookup_insert_Some; [done|by apply (ck_columns _ Hok k)].
  - intros k x [[<- <-]|[Hne Hx]]%lookup_insert_Some; rewrite of_owner_app, Hof.
    + by rewrite decide_True.
    + rewrite decide_False, app_nil_r by done. by apply (ck_trails _ Hok).
  - intros x [Hx|Hx]%elem_of_app; rewrite lookup_insert_is_Some.
    + apply (ck_owners _ Hok) in Hx. destruct (decide (sl_id sl e = cr_owner_id x)); tauto.
    + left. symmetry. by apply Hl.
  - intros k x [[<- <-]|[Hne Hx]]%lookup_insert_Some; rewrite of_owner_app, Hof.
    + by rewrite decide_True.
    + rewrite decide_False, app_nil_r by done. by apply (ck_published _ Hok).
Qed.

(** A row under the key of the row it replaces. *)
Lemma same_key db e e' k x : content_ok db → content sl db !! sl_id sl e = Some e →
  sl_id sl e' = sl_id sl e → sl_key sl e' = sl_key sl e →
  content sl db !! k = Some x → sl_key sl x = sl_key sl e' → k = sl_id sl e'.
Proof using. intros Hok He -> -> Hx Ek. by apply (ck_keys _ Hok k _ x e). Qed.

Lemma content_step_ok db db' : content_ok db → content_step db db' → content_ok db'.
Proof using Type*.
  intros Hok Hs. destruct Hs as [e r Hnone Hkey Hcol Hst Hv Hf Ho Hrf Hrt Hrv
    | e e' He Ei Ek Hcol Est Ev Ef | e e' r He Ei Ek Hcol Hal Ev Hf Ho Hrf Hrt Hrv].
  - apply row_written_ok; [done|by apply key_taken_false|by intros x ->%list_elem_of_singleton|].
    assert (of_owner (sl_id sl e) (revisions sl db) = []) as ->.
    { apply list_filter_none, Forall_forall. intros x Hx Hox.
      apply (ck_owners _ Hok) in Hx as [y Hy]. rewrite Hox in Hy. congruence. }
    split_and!; [done|exists 1; rewrite Hst; split; [lia|by apply trail_created]|].
    rewrite Hf. split; [by intros []|]. intros (y & ->%list_elem_of_singleton & Hy). congruence.
  - apply row_written_ok; [done|by eauto using same_key|by intros x ?%not_elem_of_nil|].
    rewrite app_nil_r, Ei. destruct (ck_trails _ Hok _ _ He) as (v & Hv & Ht).
    split_and!; [done|exists v; rewrite Est; split; [lia|done]|].
    rewrite Ef. by apply (ck_published _ Hok).
  - apply row_written_ok;
      [done|by eauto using same_key|intros x ->%list_elem_of_singleton; congruence|].
    rewrite Ei. destruct (ck_trails _ Hok _ _ He) as (v & Hv & Ht). split_and!; [done| |].
    + exists (version sl e'). split; [done|]. rewrite <- Hrt, <- Hrv.
      eapply trail_moved; [exact Ht|done|by rewrite Hrt|lia].
    + rewrite Hf, (ck_published _ Hok _ _ He), <- Hrt. split.
      * intros [(y & Hy & Ey)|Ey]; [exists y|exists r]; (split; [set_solver|done]).
      * intros (y & [Hy| ->%list_elem_of_singleton]%elem_of_app & Ey); [left; by exists y|by right].
Qed.

(** ** Transitions *)

(** The answer to a request for a transition, in the order the checks are made. *)
Definition verdict (a : CmsAction) (now : datetime) (uid : UUID) (input : CmsTransitionInput) (db : DB)
    : Res E :=
  match content sl db !! tr_entity_id input with
  | None => Raise (sl_not_found sl (tr_entity_id input))
  | Some e =>
      if negb (Workflow.is_allowed (status sl e) (target_status a))
      then Raise (InvalidPublicationTransitionError (status sl e) (target_status a))
      else if negb (version sl e =? tr_expected_version input)
      then Raise (CmsContentModifiedError (sl_kind sl) (tr_entity_id input) (tr_expected_version input)
                    (version sl e))
      else if negb (int4 (version sl e + 1)) then Raise (DataError (sl_table sl))
      else if bool_decide (uid ∈ cr_id <$> revisions sl db)
      then Raise (IntegrityError (sl_table sl +:+ "_revisions_pkey"))
      else Ok (apply_status_mutation sl a now input e)
  end.

(** The row of the audit trail: the two statuses, the new version, the editor and the
    reason, with the note only for a retraction. *)
Definition cms_revision_of (a : CmsAction) (now : datetime) (uid : UUID) (input : CmsTransitionInput) (e : E)
    : CmsRevision :=
  mkCmsRevision uid (tr_entity_id input) (Some (status sl e)) (target_status a) (version sl e + 1)
    (tr_editor_user_id input) (tr_transition_reason input)
    (match a with Retract => tr_retraction_note input | _ => None end) (now + 1).

Lemma mutated a now input e :
  let e' := apply_status_mutation sl a now input e in
  sl_id sl e' = sl_id sl e ∧ sl_key sl e' = sl_key sl e ∧ sl_columns sl e' = sl_columns sl e
  ∧ status sl e' = target_status a ∧ version sl e' = version sl e + 1
  ∧ (is_Some (wf_first_published_at (sl_workflow sl e'))
       ↔ is_Some (wf_first_published_at (sl_workflow sl e)) ∨ status sl e' = PUBLISHED).
Proof using Type*.
  unfold apply_status_mutation, status, version.
  rewrite id_with_workflow, key_with_workflow, columns_with_workflow, workflow_with_workflow.
  split_and!; try done; try (by destruct a). destruct a; simpl; try (split; [by left|by intros [|]]).
  split; [by right|]. destruct (wf_first_published_at _); simpl; eauto.
Qed.

Lemma transition_run db com now uid a input : content_ok db →
  ∃ w', transition sl a input (mkWorld db com [] now uid) = (verdict a now uid input db, w')
  ∧ w_committed w' = match verdict a now uid input db, content sl db !! tr_entity_id input with
                     | Ok e', Some e => written db e' [cms_revision_of a now uid input e]
                     | _, _ => com
                     end.
Proof using Type*.
  intros Hok. unfold transition, verdict, get. unfold mbind at 1, M_bind at 1.
  rewrite query_quiet by done. cbn [w_db].
  destruct (content sl db !! tr_entity_id input) as [e|] eqn:He; [|by eexists].
  destruct (mutated a now input e) as (Ei & Ek & Ec & Est & Ev & _).
  pose proof (ck_ids _ Hok _ _ He) as Eid.
  unfold Workflow.validate_transition. destruct (Workflow.is_allowed _ _); simpl; [|by eexists].
  unfold mbind, M_bind, lift_res, utc_now. cbn [w_now].
  set (w1 := mkWorld db com [] (now + 1) uid).
  set (e' := apply_status_mutation sl a now input e) in *.
  rewrite (update_run db com (now + 1) uid e' _ e); [|done|congruence|done].
  destruct (version sl e =? _) eqn:Ever; simpl; [|rewrite Ei, Eid; by eexists].
  unfold storable. rewrite Ec, (ck_columns _ Hok _ _ He), Ev. simpl. destruct (int4 (version sl e + 1)) eqn:Ei4; simpl; [|by eexists].
  unfold uuid4. cbn [w_uuid w_db w_committed w_env w_now].
  rewrite add_revision_run by done. cbn [cr_version_at_revision cr_id]. rewrite Ei4.
  case_bool_decide as Hin; simpl; [by eexists|]. eexists. split; [reflexivity|]. simpl.
  do 2 f_equal. unfold cms_revision_of. rewrite Ei, Eid. by destruct a.
Qed.

Lemma transition_step db com now uid a input e' w' : content_ok db →
  transition sl a input (mkWorld db com [] now uid) = (Ok e', w') → content_step db (w_committed w').
Proof using Type*.
  intros Hok E1. destruct (transition_run db com now uid a input Hok) as (w1 & E2 & Hc).
  rewrite E1 in E2. injection E2 as Ev <-. rewrite Hc, <- Ev. unfold verdict in Ev.
  destruct (content sl db !! tr_entity_id input) as [e|] eqn:He; [|done].
  destruct (Workflow.is_allowed _ _) eqn:Hal; [|done]. simpl in Ev.
  destruct (version sl e =? _); [|done]. destruct (int4 _); [|done]. simpl in Ev.
  case_bool_decide; [done|]. injection Ev as ->.
  pose proof (ck_ids _ Hok _ _ He) as Eid. rewrite <- Eid in He.
  destruct (mutated a now input e) as (Ei & Ek & Ecol & Est & Ever & Hp).
  apply (cs_moved db e); try done.
  - rewrite Ecol. by apply (ck_columns _ Hok _ _ He).
  - by rewrite Est.
Qed.

(** ** Creation and editing *)
Lemma create_step db com now uid editor e e' w' :
  status sl e = DRAFT → version sl e = 1 → wf_first_published_at (sl_workflow sl e) = None →
  create sl editor e (mkWorld db com [] now uid) = (Ok e', w') → content_step db (w_committed w').
Proof using Type*.
  intros Hst Hv Hf. unfold create. destruct (fresh_rows_add db com now uid e)
    as [[x Ex]|(Eadd & Hcol & Hnone & Hkey)]; unfold mbind at 1, M_bind at 1; [by rewrite Ex|].
  rewrite Eadd. unfold mbind, M_bind, uuid4, utc_now. cbn [w_uuid w_now w_db w_committed w_env].
  rewrite add_revision_run by done. destruct (int4 _); [|done]. case_bool_decide; [done|].
  intros [= _ <-]. simpl. by apply cs_created.
Qed.

Lemma edit_step db com now uid id expected change e' w' : content_ok db →
  (∀ e, sl_id sl (change e) = sl_id sl e ∧ sl_key sl (change e) = sl_key sl e
        ∧ sl_workflow sl (change e) = sl_workflow sl e) →
  edit sl id expected change (mkWorld db com [] now uid) = (Ok e', w') →
  content_step db (w_committed w').
Proof using Type*.
  intros Hok Hch. unfold edit, get. unfold mbind at 1, M_bind at 1. rewrite query_quiet by done. cbn [w_db].
  destruct (content sl db !! id) as [e|] eqn:He; [|done]. rewrite <- (ck_ids _ Hok _ _ He) in He.
  unfold mbind, M_bind, utc_now. cbn [w_now w_db w_committed w_env w_uuid].
  set (e2 := change _). destruct (Hch (sl_with_workflow sl (edited now (sl_workflow sl e)) e)) as (Ei & Ek & Ew).
  fold e2 in Ei, Ek, Ew. rewrite id_with_workflow in Ei. rewrite key_with_workflow in Ek.
  rewrite workflow_with_workflow in Ew.
  rewrite (update_run db com (now + 1) uid e2 expected e); [|done|congruence|done].
  destruct (version sl e =? expected); [|done]. destruct (storable sl e2) eqn:Hs; [|done].
  intros [= _ <-]. apply andb_true_iff in Hs as [Hcol _]. apply (cs_edited db e); try done;
    unfold status, version; by rewrite Ew.
Qed.

(** ** Only the last step publishes *)
Lemma edit_last id expected change : CommitLast (edit sl id expected change).
Proof using. unfold edit, update, update_row, get. repeat first [nocommit_step|progress cbv zeta]. Qed.
Lemma create_last editor e : CommitLast (create sl editor e).
Proof using. unfold create, add, add_revision. repeat first [nocommit_step|progress cbv zeta]. Qed.
Lemma cms_transition_last a input : CommitLast (transition sl a input).
Proof using.
  unfold transition, update, update_row, add_revision, get. repeat first [nocommit_step|progress cbv zeta].
Qed.

(** The laws speak of what is stored of this kind only. *)
Lemma content_ok_ext db db' :
  content sl db' = content sl db → revisions sl db' = revisions sl db → content_ok db → content_ok db'.
Proof using. intros Ec Er []. by split; rewrite ?Ec, ?Er. Qed.

Definition logged (db db' : DB) : Prop :=
  revisions sl db `prefix_of` revisions sl db' ∧ dom (content sl db) ⊆ dom (content sl db').
Lemma logged_ext db db' :
  content sl db' = content sl db → revisions sl db' = revisions sl db → logged db db'.
Proof using. intros Ec Er. split; by rewrite ?Ec, ?Er. Qed.
Lemma step_logged db db' : content_step db db' → logged db db'.
Proof using Type*.
  intros []; (split; [rewrite revisions_written; by apply prefix_app_r|]); rewrite content_written;
    set_solver.
Qed.
End tables.

(** ** Requests served one after the other *)
Definition cms_ok (db : DB) : Prop :=
  content_ok glossary_slot db ∧ content_ok methodology_slot db ∧ content_ok changelog_slot db.
Definition cms_logged (db db' : DB) : Prop :=
  logged glossary_slot db db' ∧ logged methodology_slot db db' ∧ logged changelog_slot db db'.
#[export] Instance cms_logged_preorder : PreOrder cms_logged.
Proof.
  split; [done|]. intros db1 db2 db3 ([] & [] & []) ([] & [] & []). split_and!; (split; [by etrans|set_solver]).
Qed.

(** A step of one kind leaves the tables of the others. *)
Ltac step_of_kind Hs db :=
  split; refine (conj _ (conj _ _));
  first [ by apply (content_step_ok _ db) | exact (step_logged _ db _ Hs)
        | by destruct Hs; apply (content_ok_ext _ db) | by destruct Hs; apply logged_ext ].
Lemma glossary_step_ok db db' : cms_ok db → content_step glossary_slot db db' →
  cms_ok db' ∧ cms_logged db db'.
Proof. intros (Hg & Hm & Hc) Hs. step_of_kind Hs db. Qed.
Lemma methodology_step_ok db db' : cms_ok db → content_step methodology_slot db db' →
  cms_ok db' ∧ cms_logged db db'.
Proof. intros (Hg & Hm & Hc) Hs. step_of_kind Hs db. Qed.
Lemma changelog_step_ok db db' : cms_ok db → content_step changelog_slot db db' →
  cms_ok db' ∧ cms_logged db db'.
Proof. intros (Hg & Hm & Hc) Hs. step_of_kind Hs db. Qed.

Lemma handle_cms_last r : CommitLast (handle_cms r).
Proof.
  assert (∀ A (m : M A), CommitLast m → CommitLast (drop m)) as Hdrop
    by (intros A m Hm; by apply CommitLast_map).
  destruct r; cbn [handle_cms]; apply Hdrop;
    unfold CreateGlossaryTerm.execute, UpdateGlossaryTerm.execute, CreateMethodologyPage.execute,
      UpdateMethodologyPage.execute, CreateChangelogEntry.execute, UpdateChangelogEntry.execute,
      when_valid;
    repeat first [apply cms_transition_last|apply create_last|apply edit_last|nocommit_step].
Qed.

Lemma drop_inv {A} (m : M A) w w' : drop m w = (Ok tt, w') → ∃ a, m w = (Ok a, w').
Proof. unfold drop. intros (a & w1 & E & [= <-])%bind_Ok_inv. eauto. Qed.

Lemma handle_cms_step r db com now uid w' : cms_ok db →
  handle_cms r (mkWorld db com [] now uid) = (Ok tt, w') →
  cms_ok (w_committed w') ∧ cms_logged db (w_committed w').
Proof.
  intros Hok E. pose proof Hok as (Hg & Hm & Hc). destruct r; cbn [handle_cms] in E; apply drop_inv in E as [x E].
  - apply glossary_step_ok; [done|]. revert E. unfold CreateGlossaryTerm.execute, when_valid.
    unfold mbind, M_bind, uuid4, utc_now. case_match; [|done]. intros E. refine (create_step _ _ _ _ _ _ _ _ _ _ _ _ E); done.
  - apply glossary_step_ok; [done|]. by refine (edit_step _ _ _ _ _ _ _ _ _ _ Hg _ E).
  - apply glossary_step_ok; [done|]. exact (transition_step _ _ _ _ _ _ _ _ _ Hg E).
  - apply methodology_step_ok; [done|]. revert E. unfold CreateMethodologyPage.execute, when_valid.
    unfold mbind, M_bind, uuid4, utc_now. case_match; [|done]. intros E. refine (create_step _ _ _ _ _ _ _ _ _ _ _ _ E); done.
  - apply methodology_step_ok; [done|]. by refine (edit_step _ _ _ _ _ _ _ _ _ _ Hm _ E).
  - apply methodology_step_ok; [done|]. exact (transition_step _ _ _ _ _ _ _ _ _ Hm E).
  - apply changelog_step_ok; [done|]. revert E. unfold CreateChangelogEntry.execute, when_valid.
    unfold mbind, M_bind, uuid4, utc_now. case_match; [|done]. intros E. refine (create_step _ _ _ _ _ _ _ _ _ _ _ _ E); done.
  - apply changelog_step_ok; [done|]. by refine (edit_step _ _ _ _ _ _ _ _ _ _ Hc _ E).
  - apply changelog_step_ok; [done|]. exact (transition_step _ _ _ _ _ _ _ _ _ Hc E).
Qed.

Definition serve_alone (w : World) (r : CmsRequest) : World := (with_uow (handle_cms r) (alone w)).2.
Definition serve : World → list CmsRequest → World := foldl serve_alone.

Lemma serve_alone_ok r w : cms_ok (w_committed w) →
  cms_ok (w_committed (serve_alone w r)) ∧ cms_logged (w_committed w) (w_committed (serve_alone w r)).
Proof.
  intros Hok. unfold serve_alone, with_uow.
  destruct (handle_cms r (alone w)) as [[[]|e] w1] eqn:E; simpl.
  - by apply handle_cms_step in E.
  - apply handle_cms_last in E. destruct E as ((fs & Ef & ->) & _). simpl in *.
    symmetry in Ef. by apply app_eq_nil in Ef as [-> _].
Qed.

Lemma serve_ok l w : cms_ok (w_committed w) →
  cms_ok (w_committed (serve w l)) ∧ cms_logged (w_committed w) (w_committed (serve w l)).
Proof.
  revert w. induction l as [|r l IH]; intros w Hok; [done|]. cbn [serve foldl].
  destruct (serve_alone_ok r w Hok) as [H1 H2]. destruct (IH _ H1) as [H3 H4].
  split; [done|by etrans].
Qed.

(** C28: whatever requests of editors are served one after the other, the content stays
    well formed and its history complete: keys are unique, the revisions of every row
    are a walk of the workflow from its creation as a DRAFT to the status it has now,
    under increasing versions, a row has a first publication date exactly when the walk
    passed PUBLISHED, and neither a revision nor a row is ever lost. *)
Theorem cms_audit_trail l w : cms_ok (w_committed w) →
  cms_ok (w_committed (serve w l)) ∧ cms_logged (w_committed w) (w_committed (serve w l)).
Proof. intros Hok. by apply serve_ok. Qed.

Lemma no_content_ok : cms_ok empty_db.
Proof.
  assert (∀ E (sl : Slot E), content sl empty_db = ∅ → revisions sl empty_db = [] → content_ok sl empty_db)
    as Hno by (intros E sl Ec Er; split; rewrite ?Ec, ?Er; set_solver).
  by refine (conj _ (conj _ _)); apply Hno.
Qed.

(** A glossary term written, reviewed, published and corrected. *)
Definition move (a : CmsAction) (id : UUID) (v : Z) : CmsRequest :=
  MoveGlossaryTerm a (mkTransitionInput id v 7 None None).
Definition sample_requests : list CmsRequest :=
  [NewGlossaryTerm "hull-loss" "Hull loss" "..." 7; move Submit 1000 1; move Approve 1000 2;
   move Approve 1000 3; move Publish 1000 3; EditGlossaryTerm 1000 4 "Hull loss" "Damage beyond repair.";
   NewGlossaryTerm "hull-loss" "again" "" 7].
Lemma cms_audit_trail_witness :
  let w := serve (world_of empty_db) sample_requests in
  (status glossary_slot <$> rows (content glossary_slot (w_committed w))) = [PUBLISHED]
  ∧ (cr_version_at_revision <$> revisions glossary_slot (w_committed w)) = [1; 2; 3; 4]
  ∧ cms_ok (w_committed w) ∧ cms_logged empty_db (w_committed w).
Proof.
  split; [by vm_compute|]. split; [by vm_compute|].
  apply (cms_audit_trail sample_requests (world_of empty_db)), no_content_ok.
Defined.

(** The version check compares the row with the version the client names, not with the
    row that was read: an editor who asks to approve version 3 of a term read at
    version 2 erases the text another editor stores as version 3 in between. *)
Definition submitted : World := serve (world_of empty_db) (take 2 sample_requests).
Definition other_editor : list (DB → DB) :=
  [λ db, db; λ db, (handle_cms (EditGlossaryTerm 1000 2 "Hull loss" "Corrected text.")
                     (mkWorld db db [] 2000000 5000)).2.(w_committed)].
Example approval_erases_a_correction :
  let w := mkWorld (w_committed submitted) (w_committed submitted) other_editor (w_now submitted)
             (w_uuid submitted) in
  let term w := (λ e, (gt_body_markdown e, status glossary_slot e, version glossary_slot e))
                  <$> content glossary_slot (w_committed w) !! 1000%N in
  term submitted = Some ("...", IN_REVIEW, 2)
  ∧ term (with_uow (transition glossary_slot Approve (mkTransitionInput 1000 3 7 None None)) w).2
    = Some ("...", APPROVED, 3).
Proof. vm_compute. split; reflexivity. Qed.

(** ** The public changelog, page by page *)
Import ListPublicChangelog.

(** A reader follows the cursors from the first page to the last. *)
Fixpoint read_changelog (fuel : nat) (limit : Z) (after_id : option UUID) : M (list ChangelogEntry) :=
  match fuel with
  | O => mret []
  | S fuel' =>
      page ← execute limit after_id;
      match page.2 with
      | None => mret page.1
      | Some next => rest ← read_changelog fuel' limit (Some next); mret (page.1 ++ rest)
      end
  end.

Lemma read_changelog_walk fuel limit after_id w : quiet w → w_db w = w_committed w →
  read_changelog fuel limit after_id w
  = (Ok (walk ce_id ce_effective_date fuel (published changelog_slot)
           (Z.to_nat (Z.max 1 (Z.min limit MAX_LIMIT))) after_id (content changelog_slot (w_db w))), w).
Proof.
  destruct w as [db com env now uid]. unfold quiet. simpl. intros -> <-.
  revert after_id. induction fuel as [|fuel IH]; intros after_id; [done|].
  cbn [read_changelog walk]. eapply runs_bind.
  { unfold execute. eapply runs_bind.
    - unfold list_published. eapply runs_bind; [by apply read_cursor_quiet|]. by apply query_quiet.
    - eapply runs_bind; [reflexivity|]. reflexivity. }
  cbn [w_db rollback_world w_committed w_env w_now w_uuid].
  destruct (keyset _ _ _ _ _ _) as [items [next|]]; simpl; [|by rewrite app_nil_r].
  eapply runs_bind; [apply IH|]. done.
Qed.

(** C29: a reader of the public changelog who follows the cursors gets every PUBLISHED
    entry exactly once and no other, the newest effective date first, whatever the
    page size asked for; a page holds at most a hundred entries. *)
Theorem changelog_pages_complete fuel limit w :
  content_ok changelog_slot (w_committed w) →
  (size (content changelog_slot (w_committed w)) < fuel)%nat →
  ∃ entries, read_changelog fuel limit None (alone w) = (Ok entries, alone w)
    ∧ NoDup entries
    ∧ (∀ e, e ∈ entries ↔ content changelog_slot (w_committed w) !! ce_id e = Some e
                          ∧ status changelog_slot e = PUBLISHED)
    ∧ StronglySorted (λ x y, newest_first ce_id ce_effective_date x y = true) entries
    ∧ (∀ after_id page w', execute limit after_id (alone w) = (Ok page, w') →
         (length page.1 ≤ 100)%nat).
Proof.
  intros Hok Hf. set (m := content changelog_slot (w_committed w)) in *.
  assert (∀ k x, m !! k = Some x → ce_id x = k) as Hkeys by apply (ck_ids _ _ Hok).
  exists (listing ce_id ce_effective_date (published changelog_slot) m). split_and!.
  - rewrite read_changelog_walk by done. do 2 f_equal. apply walk_complete; [done|lia|].
    eapply Nat.le_lt_trans; [|exact Hf]. unfold listing. rewrite length_py_sorted.
    etrans; [apply length_filter|]. unfold rows. by rewrite length_fmap, length_map_to_list.
  - by apply NoDup_paged.
  - intros e. rewrite elem_of_paged by done. unfold published. by rewrite bool_decide_eq_true.
  - apply py_sorted_sorted; [apply newest_total|apply newest_trans].
  - intros after_id page w' E. apply bind_Ok_inv in E as (p & w1 & E1 & [= <- <-]).
    apply bind_Ok_inv in E1 as (c & w2 & E1 & E2).
    rewrite read_cursor_quiet in E1 by done. injection E1 as _ <-. rewrite query_quiet in E2 by done.
    injection E2 as <- _. etrans; [apply keyset_length|]. unfold MAX_LIMIT. lia.
Qed.

Definition sample_changelog : World :=
  serve (world_of empty_db)
    ([NewChangelogEntry "new-sources" "New sources" 19000 "" 7;
      NewChangelogEntry "scoring" "Scoring" 19500 "" 7;
      NewChangelogEntry "first-release" "First release" 18000 "" 7;
      NewChangelogEntry "draft" "Draft" 20000 "" 7]
     ++ flat_map (λ id, (λ a, MoveChangelogEntry a.1 (mkTransitionInput id a.2 7 None None))
                   <$> [(Submit, 1); (Approve, 2); (Publish, 3)]) [1000%N; 1002%N; 1004%N]).
Lemma changelog_pages_complete_witness :
  ce_slug <$> default [] (match read_changelog 5 1 None (alone sample_changelog) with
                          | (Ok l, _) => Some l | _ => None end)
  = ["scoring"; "new-sources"; "first-release"]
  ∧ ∃ entries, read_changelog 5 1 None (alone sample_changelog) = (Ok entries, alone sample_changelog)
    ∧ NoDup entries.
Proof.
  split; [by vm_compute|].
  destruct (changelog_pages_complete 5 1 sample_changelog) as (entries & E & Hnd & _).
  - apply serve_ok, no_content_ok.
  - refine (proj1 (Nat.ltb_lt _ _) _). vm_compute. reflexivity.
  - exists entries. exact (conj E Hnd).
Defined.

(** ** The methodology, section by section *)
Import ListPublicMethodology.

Lemma by_section_spec x y : by_section x y = true ↔
  String.ltb (mp_section x) (mp_section y) = true
  ∨ mp_section x = mp_section y
    ∧ (mp_section_order x < mp_section_order y
       ∨ mp_section_order x = mp_section_order y ∧ String.leb (mp_title x) (mp_title y) = true).
Proof.
  unfold by_section. rewrite orb_true_iff, andb_true_iff, String.eqb_eq, orb_true_iff, andb_true_iff.
  by rewrite Z.ltb_lt, Z.eqb_eq.
Qed.
Lemma by_section_total x y : by_section x y = true ∨ by_section y x = true.
Proof.
  rewrite !by_section_spec, !string_ltb_spec.
  destruct (string_leb_total (mp_section x) (mp_section y)), (string_leb_total (mp_title x) (mp_title y)),
    (decide (mp_section x = mp_section y)),
    (Z.lt_trichotomy (mp_section_order x) (mp_section_order y)) as [|[|]]; naive_solver.
Qed.
Lemma by_section_trans x y z : by_section x y = true → by_section y z = true → by_section x z = true.
Proof.
  rewrite !by_section_spec. intros [H1|(E1 & H1)] [H2|(E2 & H2)].
  - left. apply (string_ltb_trans _ (mp_section y)); [done|]. by apply string_ltb_spec in H2 as [].
  - left. by rewrite <- E2.
  - left. by rewrite E1.
  - right. split; [congruence|]. destruct H1 as [H1|[H1 T1]], H2 as [H2|[H2 T2]]; try (left; lia).
    right. split; [lia|]. by eapply string_leb_trans.
Qed.

Abbreviation in_order := (StronglySorted (λ x y, by_section x y = true)).
Abbreviation sections_ascend := (StronglySorted (λ s t, String.ltb s t = true)).
Definition one_section (g : string * list MethodologyPage) : Prop :=
  g.2 ≠ [] ∧ Forall (λ p, mp_section p = g.1) g.2.

(** The loop from an open section on: the sections that follow ascend, and are the
    pages in their order. *)
Lemma group_open flat : ∀ out s ps, in_order flat →
  Forall (λ p, String.leb s (mp_section p) = true) flat → one_section (s, ps) →
  ∃ rest, group out (Some (s, ps)) flat = out ++ rest
    ∧ sections_ascend rest.*1 ∧ Forall (λ t, String.leb s t = true) rest.*1
    ∧ Forall one_section rest ∧ concat rest.*2 = ps ++ flat.
Proof.
  assert (∀ s, String.leb s s = true) as Hrefl by (intros s; by destruct (string_leb_total s s)).
  induction flat as [|p flat IH]; intros out s ps Hsort Hs Hps; cbn [group].
  - exists [(s, ps)]. simpl. rewrite app_nil_r. split_and!; try done; repeat constructor; apply Hrefl || apply Hps.
  - apply StronglySorted_inv in Hsort as [Hsort Hp]. apply Forall_cons in Hs as [Hsp Hs].
    destruct (String.eqb_spec (mp_section p) s) as [Es|Hne].
    + destruct (IH out s (ps ++ [p])) as (rest & E & H1 & H2 & H3 & H4); [done|done| |].
      { split; simpl; [by destruct ps|]. apply Forall_app. split; [apply Hps|by repeat constructor]. }
      exists rest. split_and!; try done. by rewrite H4, <- app_assoc.
    + assert (String.ltb s (mp_section p) = true) as Hlt by (apply string_ltb_spec; naive_solver).
      destruct (IH (out ++ [(s, ps)]) (mp_section p) [p]) as (rest & E & H1 & H2 & H3 & H4); [done| | |].
      { apply Forall_forall. intros q Hq. rewrite Forall_forall in Hp. specialize (Hp q Hq).
        apply by_section_spec in Hp as [Hl|[-> _]]; [by apply string_ltb_spec in Hl as []|apply Hrefl]. }
      { split; [done|by repeat constructor]. }
      rewrite Forall_forall in H2. exists ((s, ps) :: rest). split_and!.
      * by rewrite E, <- app_assoc.
      * constructor; [done|]. apply Forall_forall. intros t Ht. by eapply string_ltb_trans, H2.
      * constructor; [apply Hrefl|]. apply Forall_forall. intros t Ht.
        by eapply string_leb_trans, H2.
      * by constructor.
      * change (ps ++ concat rest.*2 = ps ++ p :: flat). by rewrite H4.
Qed.

Lemma group_sections flat : in_order flat →
  let gs := group [] None flat in
  sections_ascend gs.*1 ∧ Forall one_section gs ∧ concat gs.*2 = flat.
Proof.
  intros Hs. destruct flat as [|p flat]; [by repeat constructor|]. cbn [group].
  apply StronglySorted_inv in Hs as [Hs Hp].
  destruct (group_open flat [] (mp_section p) [p]) as (rest & E & H1 & _ & H3 & H4); [done| | |].
  - eapply Forall_impl; [exact Hp|]. intros q [Hl|[-> _]]%by_section_spec.
    + by apply string_ltb_spec in Hl as [].
    + by destruct (string_leb_total (mp_section q) (mp_section q)).
  - split; [done|by repeat constructor].
  - rewrite E. done.
Qed.

Lemma elem_of_concat {A} (x : A) (ls : list (list A)) : x ∈ concat ls ↔ ∃ l, x ∈ l ∧ l ∈ ls.
Proof.
  rewrite list_elem_of_In, in_concat. setoid_rewrite list_elem_of_In. naive_solver.
Qed.
Lemma NoDup_sort {A} (le : A → A → bool) l : NoDup l → NoDup (py_sorted le l).
Proof. by rewrite py_sorted_perm. Qed.
Lemma ascending_NoDup (l : list string) : sections_ascend l → NoDup l.
Proof.
  induction 1 as [|s l Hl IH Hs]; constructor; [|done]. intros Hin.
  rewrite Forall_forall in Hs. by apply Hs, string_ltb_spec in Hin as [].
Qed.

(** the public methodology is the PUBLISHED pages under their sections: every section
    with a published page appears once, in the order of the names, holds at least one
    page, and read through, the sections give every published page once in the order
    of section, position and title. *)
Theorem methodology_by_section w : content_ok methodology_slot (w_committed w) →
  ∃ sections, ListPublicMethodology.execute (alone w) = (Ok sections, alone w)
    ∧ sections_ascend sections.*1
    ∧ (∀ s ps, (s, ps) ∈ sections → ps ≠ [] ∧ ∀ p, p ∈ ps ↔
         content methodology_slot (w_committed w) !! mp_id p = Some p
         ∧ status methodology_slot p = PUBLISHED ∧ mp_section p = s)
    ∧ NoDup (concat sections.*2) ∧ in_order (concat sections.*2)
    ∧ (∀ p, p ∈ concat sections.*2 ↔ content methodology_slot (w_committed w) !! mp_id p = Some p
         ∧ status methodology_slot p = PUBLISHED).
Proof.
  intros Hok. set (m := content methodology_slot (w_committed w)).
  assert (∀ k x, m !! k = Some x → mp_id x = k) as Hkeys by apply (ck_ids _ _ Hok).
  set (flat := py_sorted by_section (filter (λ e, published methodology_slot e = true) (rows m))).
  assert (in_order flat) as Hs by (apply py_sorted_sorted; [apply by_section_total|apply by_section_trans]).
  destruct (group_sections flat Hs) as (H1 & H2 & H3).
  assert (∀ p, p ∈ flat ↔ m !! mp_id p = Some p ∧ status methodology_slot p = PUBLISHED) as Hflat.
  { intros p. unfold flat. rewrite elem_of_py_sorted, list_elem_of_filter, (elem_of_table mp_id) by done.
    unfold published. rewrite bool_decide_eq_true. tauto. }
  exists (group [] None flat). rewrite H3. split_and!; [|done| |..|done|done].
  - unfold execute. by eapply runs_bind; [apply query_quiet|].
  - intros s ps Hin. rewrite Forall_forall in H2. destruct (H2 _ Hin) as [Hne Hall]. split; [done|].
    intros p. rewrite Forall_forall in Hall. split.
    + intros Hp. apply and_assoc. split; [|by apply Hall]. apply Hflat. rewrite <- H3.
      apply elem_of_concat. exists ps. split; [done|]. apply list_elem_of_fmap. by exists (s, ps).
    + intros (Hp & Hpub & Es). assert (p ∈ concat (group [] None flat).*2) as Hc by (rewrite H3; by apply Hflat).
      apply elem_of_concat in Hc as (ps' & Hps' & Hin').
      apply list_elem_of_fmap in Hin' as ([s' ps''] & -> & Hin').
      destruct (H2 _ Hin') as [_ Hall']. rewrite Forall_forall in Hall'. specialize (Hall' p Hps').
      simpl in Hall', Hps'. assert ((s', ps'') = (s, ps)) as [= -> ->]; [|done].
      eapply (NoDup_fmap_inj_elem fst); [by apply ascending_NoDup|done|done|simpl; congruence].
  - apply NoDup_sort, NoDup_filter, (NoDup_table mp_id), Hkeys.
Qed.

Definition sample_methodology : World :=
  serve (world_of empty_db)
    ([NewMethodologyPage "claims" "Claims" "Data" 2 "" 7; NewMethodologyPage "sources" "Sources" "Data" 1 "" 7;
      NewMethodologyPage "curation" "Curation" "Curation" 1 "" 7; NewMethodologyPage "x" "X" "Data" 0 "" 7]
     ++ flat_map (λ id, map (λ a : CmsAction * Z, MoveMethodologyPage a.1 (mkTransitionInput id a.2 7 None None))
                   [(Submit, 1); (Approve, 2); (Publish, 3)]) [1000%N; 1002%N; 1004%N]).
Lemma methodology_by_section_witness :
  map (λ g : string * list MethodologyPage, (g.1, map mp_title g.2))
    (match ListPublicMethodology.execute (alone sample_methodology) with (Ok l, _) => l | _ => [] end)
  = [("Curation", ["Curation"]); ("Data", ["Sources"; "Claims"])]
  ∧ ∃ sections, ListPublicMethodology.execute (alone sample_methodology)
                = (Ok sections, alone sample_methodology)
    ∧ sections_ascend sections.*1.
Proof.
  split; [vm_compute; reflexivity|].
  destruct (methodology_by_section sample_methodology) as (sections & E & Hs & _).
  - apply serve_ok, no_content_ok.
  - exists sections. exact (conj E Hs).
Defined.
