(* ===== verification/Wp.v ===== *)
(** Weakest preconditions of a run alone: what a program leaves when it returns, read
    off its text one statement at a time.  The facts a program checked stay at hand for
    the statements that rely on them. *)
From S2P Require Import Prelude Text PyFloat PyVal Entities Store Logic.
Open Scope string_scope.
Open Scope list_scope.
Open Scope Z_scope.

(** A session nobody interferes with. *)
Definition session (db com : DB) (now : Z) (uid : N) : World := mkWorld db com [] now uid.
Arguments session : simpl never.

(** If [m] returns, it returns an [a] and leaves a session with [Q]; no other
    transaction appears. *)
Definition wp {A} (m : M A) (Q : A → DB → DB → Z → N → Prop) (db com : DB) (now : Z) (uid : N) : Prop :=
  ∀ a w', m (session db com now uid) = (Ok a, w') →
  ∃ db' com' now' uid', w' = session db' com' now' uid' ∧ Q a db' com' now' uid'.

Section wp.
Context (db com : DB) (now : Z) (uid : N).

Lemma wp_ret {A} (a : A) (Q : A → DB → DB → Z → N → Prop) : Q a db com now uid → wp (mret a) Q db com now uid.
Proof. intros H b w' [= <- <-]. eauto 10. Qed.
Lemma wp_raise {A} e (Q : A → DB → DB → Z → N → Prop) : wp (raise e) Q db com now uid.
Proof. by intros a w' [=]. Qed.
Lemma wp_lift {A} (r : Res A) Q :
  (∀ a, r = Ok a → Q a db com now uid) → wp (lift_res r) Q db com now uid.
Proof. intros H a w' [= -> <-]. eauto 10. Qed.
Lemma wp_bind {A B} (m : M A) (f : A → M B) Q :
  wp m (λ a, wp (f a) Q) db com now uid → wp (x ← m; f x) Q db com now uid.
Proof.
  intros H b w' (a & w1 & E1 & E2)%bind_Ok_inv.
  destruct (H a w1 E1) as (d & c & n & u & -> & Hf). by apply Hf.
Qed.
Lemma wp_stmt {A} (f : DB → Res A * DB) Q :
  (∀ a db', f db = (Ok a, db') → Q a db' com now uid) → wp (stmt f) Q db com now uid.
Proof.
  intros H a w'. rewrite stmt_quiet by done. change (w_db (session db com now uid)) with db.
  destruct (f db) as [[b|e] db'] eqn:E; [|done]. intros [= -> <-].
  exists db', com, now, uid. split; [reflexivity|by apply H].
Qed.
Lemma wp_query {A} (f : DB → A) Q : Q (f db) db com now uid → wp (query f) Q db com now uid.
Proof. intros H. apply wp_stmt. by intros a db' [= <- <-]. Qed.
Lemma wp_scalar {A} (f : DB → list A) Q :
  (∀ o, scalar_one_or_none (f db) = Ok o → Q o db com now uid) → wp (scalar_query f) Q db com now uid.
Proof. intros H. apply wp_stmt. intros a db' [= E <-]. by apply H. Qed.
Lemma wp_exec f Q : Q tt (f db) com now uid → wp (exec f) Q db com now uid.
Proof. intros H. apply wp_stmt. by intros a db' [= <- <-]. Qed.
Lemma wp_now Q : Q now db com (now + 1) uid → wp utc_now Q db com now uid.
Proof. intros H a w' [= <- <-]. by exists db, com, (now + 1), uid. Qed.
Lemma wp_uuid Q : Q uid db com now (uid + 1)%N → wp uuid4 Q db com now uid.
Proof. intros H a w' [= <- <-]. by exists db, com, now, (uid + 1)%N. Qed.
Lemma wp_commit Q : Q tt db db now uid → wp commit Q db com now uid.
Proof. intros H a w' [= <- <-]. by exists db, db, now, uid. Qed.
Lemma wp_rollback Q : Q tt com com now uid → wp rollback Q db com now uid.
Proof. intros H a w' [= <- <-]. by exists com, com, now, uid. Qed.
Lemma wp_mono {A} (m : M A) (Q Q' : A → DB → DB → Z → N → Prop) :
  (∀ a d c n u, Q a d c n u → Q' a d c n u) → wp m Q db com now uid → wp m Q' db com now uid.
Proof. intros HQ H a w' E. destruct (H a w' E) as (d & c & n & u & -> & Hq). eauto 10. Qed.
End wp.

(** One statement; decisions of the program become cases of the proof. *)
Ltac wp_step :=
  lazymatch goal with
  | |- wp (mret _) _ _ _ _ _ => apply wp_ret
  | |- wp (raise _) _ _ _ _ _ => apply wp_raise
  | |- wp (lift_res _) _ _ _ _ _ => apply wp_lift; intros ? ?
  | |- wp (mbind _ _) _ _ _ _ _ => apply wp_bind
  | |- wp utc_now _ _ _ _ _ => apply wp_now
  | |- wp uuid4 _ _ _ _ _ => apply wp_uuid
  | |- wp commit _ _ _ _ _ => apply wp_commit
  | |- wp rollback _ _ _ _ _ => apply wp_rollback
  | |- wp (query _) _ _ _ _ _ => apply wp_query
  | |- wp (scalar_query _) _ _ _ _ _ => apply wp_scalar; intros ? ?
  | |- wp (exec _) _ _ _ _ _ => apply wp_exec
  | |- wp (match ?x with _ => _ end) _ _ _ _ _ => destruct x eqn:?
  | |- wp (let _ := _ in _) _ _ _ _ _ => cbv zeta
  end.

(** ** The same for programs that are to return *)

(** [m] returns an [a] and leaves a session with [Q]. *)
Definition twp {A} (m : M A) (Q : A → DB → DB → Z → N → Prop) (db com : DB) (now : Z) (uid : N) : Prop :=
  ∃ a db' com' now' uid', m (session db com now uid) = (Ok a, session db' com' now' uid')
    ∧ Q a db' com' now' uid'.

Section twp.
Context (db com : DB) (now : Z) (uid : N).

Lemma twp_ret {A} (a : A) (Q : A → DB → DB → Z → N → Prop) : Q a db com now uid → twp (mret a) Q db com now uid.
Proof. intros H. by exists a, db, com, now, uid. Qed.
Lemma twp_bind {A B} (m : M A) (f : A → M B) Q :
  twp m (λ a, twp (f a) Q) db com now uid → twp (x ← m; f x) Q db com now uid.
Proof.
  intros (a & d & c & n & u & E & b & d' & c' & n' & u' & E' & H). exists b, d', c', n', u'.
  split; [|done]. by eapply runs_bind.
Qed.
Lemma twp_stmt {A} (f : DB → Res A * DB) a db' Q :
  f db = (Ok a, db') → Q a db' com now uid → twp (stmt f) Q db com now uid.
Proof.
  intros E H. exists a, db', com, now, uid. split; [|done]. rewrite stmt_quiet by done.
  change (w_db (session db com now uid)) with db. by rewrite E.
Qed.
Lemma twp_query {A} (f : DB → A) Q : Q (f db) db com now uid → twp (query f) Q db com now uid.
Proof. intros H. by eapply twp_stmt. Qed.
Lemma twp_scalar {A} (f : DB → list A) o Q :
  scalar_one_or_none (f db) = Ok o → Q o db com now uid → twp (scalar_query f) Q db com now uid.
Proof. intros E H. eapply twp_stmt; [|exact H]. by rewrite E. Qed.
Lemma twp_exec f Q : Q tt (f db) com now uid → twp (exec f) Q db com now uid.
Proof. intros H. by eapply twp_stmt. Qed.
Lemma twp_now Q : Q now db com (now + 1) uid → twp utc_now Q db com now uid.
Proof. intros H. by exists now, db, com, (now + 1), uid. Qed.
Lemma twp_uuid Q : Q uid db com now (uid + 1)%N → twp uuid4 Q db com now uid.
Proof. intros H. by exists uid, db, com, now, (uid + 1)%N. Qed.
Lemma twp_commit Q : Q tt db db now uid → twp commit Q db com now uid.
Proof. intros H. by exists tt, db, db, now, uid. Qed.
Lemma twp_rollback Q : Q tt com com now uid → twp rollback Q db com now uid.
Proof. intros H. by exists tt, com, com, now, uid. Qed.
Lemma twp_mono {A} (m : M A) (Q Q' : A → DB → DB → Z → N → Prop) :
  (∀ a d c n u, Q a d c n u → Q' a d c n u) → twp m Q db com now uid → twp m Q' db com now uid.
Proof. intros HQ (a & d & c & n & u & E & H). exists a, d, c, n, u. eauto. Qed.
Lemma twp_ext {A} (m m' : M A) Q :
  (∀ w, m w = m' w) → twp m' Q db com now uid → twp m Q db com now uid.
Proof. intros E (a & d & c & n & u & E' & H). exists a, d, c, n, u. by rewrite E. Qed.
Lemma twp_assoc {A B C} (m : M A) (f : A → M B) (g : B → M C) Q :
  twp (x ← (y ← m; f y); g x) Q db com now uid → twp (y ← m; x ← f y; g x) Q db com now uid.
Proof.
  intros (a & d & c & n & u & E & H). exists a, d, c, n, u. split; [|done]. rewrite <- E.
  unfold mbind, M_bind. by destruct (m (session db com now uid)) as [[y|e] w].
Qed.
Lemma twp_catch {A} (m : M A) h Q : twp m Q db com now uid → twp (catch m h) Q db com now uid.
Proof. intros (a & d & c & n & u & E & H). exists a, d, c, n, u. split; [|done]. unfold catch. by rewrite E. Qed.
End twp.

Ltac twp_step :=
  lazymatch goal with
  | |- twp (mret _) _ _ _ _ _ => apply twp_ret
  | |- twp (mbind _ _) _ _ _ _ _ => apply twp_bind
  | |- twp utc_now _ _ _ _ _ => apply twp_now
  | |- twp uuid4 _ _ _ _ _ => apply twp_uuid
  | |- twp commit _ _ _ _ _ => apply twp_commit
  | |- twp rollback _ _ _ _ _ => apply twp_rollback
  | |- twp (query _) _ _ _ _ _ => apply twp_query
  | |- twp (exec _) _ _ _ _ _ => apply twp_exec
  | |- twp (catch _ _) _ _ _ _ _ => apply twp_catch
  | |- twp (let _ := _ in _) _ _ _ _ _ => cbv zeta
  end.

Ltac twp_go := repeat first [twp_step | progress cbn beta iota].

(** A program that publishes only with its last statement, run in a session of its own
    and closed: what it commits satisfies [P], as before when it fails. *)
Lemma run_alone_keeps {A} (P : DB → Prop) (m : M A) w :
  CommitLast m → P (w_committed w) →
  wp m (λ _ _ com _ _, P com) (w_committed w) (w_committed w) (w_now w) (w_uuid w) →
  P (w_committed (with_uow m (alone w)).2).
Proof.
  intros Hl Hw Hwp. unfold with_uow. destruct (m (alone w)) as [[a|e] w1] eqn:E; simpl.
  - destruct (Hwp a w1 E) as (d & c & n & u & -> & H). exact H.
  - apply Hl in E. destruct E as ((fs & Ef & ->) & _). simpl in Ef. symmetry in Ef.
    by apply app_eq_nil in Ef as [-> _].
Qed.
