(* ===== verification/Causality.v ===== *)
(** Causality: HFACS attributions and the SHELO factor graph of an event
    (application/use_cases/causality.py, infrastructure/db/repositories/causality.py).

    The tables keep their foreign keys, checks and unique indexes; a use case that is
    served leaves them well formed, the two ends of every interaction included, whose
    event only the use case compares. *)
From S2P Require Import Prelude Text PyFloat PyVal PyDate Entities ContextEntities Store Json.
From S2P Require Import Logic Publication PyRe Deidentification Tenancy.
Open Scope string_scope.
Open Scope list_scope.
Open Scope Z_scope.

(** ** Tables *)
Definition categories (db : DB) := ca_categories (db_causality db).
Definition subcategories (db : DB) := ca_subcategories (db_causality db).
Definition attributions (db : DB) := ca_attributions (db_causality db).
Definition factors (db : DB) := ca_factors (db_causality db).
Definition interactions (db : DB) := ca_interactions (db_causality db).
Definition set_attributions (m : gmap UUID EventHfacsAttribution) : DB → DB := upd_causality (λ t,
  mkCausalityTables (ca_categories t) (ca_subcategories t) m (ca_factors t) (ca_interactions t)).
Definition set_factors (m : gmap UUID SheloFactor) : DB → DB := upd_causality (λ t,
  mkCausalityTables (ca_categories t) (ca_subcategories t) (ca_attributions t) m (ca_interactions t)).
Definition set_interactions (m : gmap UUID SheloFactorInteraction) : DB → DB := upd_causality (λ t,
  mkCausalityTables (ca_categories t) (ca_subcategories t) (ca_attributions t) (ca_factors t) m).

(** ** SqlHfacsCategoryRepository, SqlHfacsSubcategoryRepository *)
Module CategoryRepo.
(** ORDER BY tier_code, code *)
Definition by_tier (x y : HfacsCategory) : bool :=
  String.ltb (hc_tier_code x) (hc_tier_code y)
  || (String.eqb (hc_tier_code x) (hc_tier_code y) && String.leb (hc_code x) (hc_code y)).
Definition list_all : M (list HfacsCategory) := query (λ db, py_sorted by_tier (rows (categories db))).
Definition get (id : UUID) : M (option HfacsCategory) := query (λ db, categories db !! id).
Definition get_by_code (code : string) : M (option HfacsCategory) :=
  scalar_query (λ db, filter (λ c, hc_code c = code) (rows (categories db))).
End CategoryRepo.

Module SubcategoryRepo.
Definition by_code (x y : HfacsSubcategory) : bool := String.leb (hs_code x) (hs_code y).
Definition list_for_category (category_id : UUID) : M (list HfacsSubcategory) :=
  query (λ db, py_sorted by_code (filter (λ s, hs_category_id s = category_id) (rows (subcategories db)))).
Definition get (id : UUID) : M (option HfacsSubcategory) := query (λ db, subcategories db !! id).
End SubcategoryRepo.

(** ** SqlEventHfacsAttributionRepository *)
Module AttributionRepo.
(** The join with the category; ORDER BY tier_code, code *)
Definition by_category (x y : EventHfacsAttribution * HfacsCategory) : bool := CategoryRepo.by_tier x.2 y.2.
Definition joined (event_id : UUID) (db : DB) : list (EventHfacsAttribution * HfacsCategory) :=
  omap (λ a, c ← categories db !! ha_category_id a; Some (a, c))
    (filter (λ a, ha_event_id a = event_id) (rows (attributions db))).
Definition list_for_event (event_id : UUID) : M (list EventHfacsAttribution) :=
  query (λ db, fst <$> py_sorted by_category (joined event_id db)).
Definition get (id : UUID) : M (option EventHfacsAttribution) := query (λ db, attributions db !! id).

Definition is_natural (event_id category_id : UUID) (subcategory_id : option UUID)
    (a : EventHfacsAttribution) : Prop :=
  ha_event_id a = event_id ∧ ha_category_id a = category_id ∧ ha_subcategory_id a = subcategory_id.
#[export] Instance is_natural_dec e c s a : Decision (is_natural e c s a).
Proof. unfold is_natural. solve_decision. Defined.
Definition find_natural (event_id category_id : UUID) (subcategory_id : option UUID)
    : M (option EventHfacsAttribution) :=
  scalar_query (λ db, filter (is_natural event_id category_id subcategory_id) (rows (attributions db))).

(** uq_event_hfacs_attributions_natural: (event_id, category_id, COALESCE(subcategory_id, 0)) *)
Definition index_key (a : EventHfacsAttribution) : UUID * UUID * UUID :=
  (ha_event_id a, ha_category_id a, default 0%N (ha_subcategory_id a)).
Definition clash (a : EventHfacsAttribution) (db : DB) : bool :=
  bool_decide (filter (λ x, index_key x = index_key a ∧ ha_id x ≠ ha_id a) (rows (attributions db)) ≠ []).
(** The CHECK of the confidence and the width of the version. *)
Definition in_range (f : float) : bool := f_leb f_zero f && f_leb f (f_of_int 1).
Definition checks (a : EventHfacsAttribution) : option exn :=
  if negb (int4 (ha_version a)) then Some (DataError "event_hfacs_attributions")
  else if negb (in_range (ha_confidence a))
  then Some (IntegrityError "ck_event_hfacs_attributions_confidence_range")
  else None.
(** The unique index, then the foreign keys. *)
Definition keys (a : EventHfacsAttribution) (db : DB) : option exn :=
  if clash a db then Some (IntegrityError "uq_event_hfacs_attributions_natural")
  else match db_events db !! ha_event_id a, categories db !! ha_category_id a with
       | None, _ => Some (IntegrityError "event_hfacs_attributions_event_id_fkey")
       | _, None => Some (IntegrityError "event_hfacs_attributions_category_id_fkey")
       | Some _, Some _ =>
           if negb (from_option (λ s, bool_decide (is_Some (subcategories db !! s))) true (ha_subcategory_id a))
           then Some (IntegrityError "event_hfacs_attributions_subcategory_id_fkey")
           else None
       end.
Definition insert (a : EventHfacsAttribution) : M unit :=
  stmt (λ db,
    match checks a, attributions db !! ha_id a, keys a db with
    | Some e, _, _ => (Raise e, db)
    | _, Some _, _ => (Raise (IntegrityError "event_hfacs_attributions_pkey"), db)
    | _, _, Some e => (Raise e, db)
    | None, None, None => (Ok tt, set_attributions (<[ha_id a := a]> (attributions db)) db)
    end).
Definition add (a : EventHfacsAttribution) : M unit :=
  existing ← find_natural (ha_event_id a) (ha_category_id a) (ha_subcategory_id a);
  match existing with
  | Some _ => raise (HfacsAttributionConflictError "already exists")
  | None => insert a
  end.

(** UPDATE ... WHERE id = :id AND version = :expected *)
Definition update (a : EventHfacsAttribution) (expected_version : Z) : M unit :=
  updated ← stmt (λ db,
    match attributions db !! ha_id a with
    | Some current =>
        if ha_version current =? expected_version
        then match checks a, keys a db with
             | Some e, _ | None, Some e => (Raise e, db)
             | None, None => (Ok true, set_attributions (<[ha_id a := a]> (attributions db)) db)
             end
        else (Ok false, db)
    | None => (Ok false, db)
    end);
  if updated : bool then mret tt else raise (HfacsAttributionConflictError "vanished or moved").

Definition delete (id : UUID) : M unit :=
  obj ← get id;
  match obj with
  | None => mret tt
  | Some _ => exec (λ db, set_attributions (base.delete id (attributions db)) db)
  end.
End AttributionRepo.

(** ** SqlSheloFactorRepository *)
Module FactorRepo.
(** ORDER BY factor_class, created_at *)
Definition by_class (x y : SheloFactor) : bool :=
  let cx := shelo_class_value (sf_factor_class x) in
  let cy := shelo_class_value (sf_factor_class y) in
  String.ltb cx cy || (String.eqb cx cy && (sf_created_at x <=? sf_created_at y)).
Definition list_for_event (event_id : UUID) : M (list SheloFactor) :=
  query (λ db, py_sorted by_class (filter (λ f, sf_event_id f = event_id) (rows (factors db)))).
Definition get (id : UUID) : M (option SheloFactor) := query (λ db, factors db !! id).

Definition constraint (f : SheloFactor) (db : DB) : option exn :=
  if negb (fits 300 (sf_label f) && int4 (sf_version f)) then Some (DataError "shelo_factors")
  else match db_events db !! sf_event_id f with
       | None => Some (IntegrityError "shelo_factors_event_id_fkey")
       | Some _ => None
       end.
Definition add (f : SheloFactor) : M unit :=
  stmt (λ db,
    match factors db !! sf_id f, constraint f db with
    | Some _, _ => (Raise (IntegrityError "shelo_factors_pkey"), db)
    | _, Some e => (Raise e, db)
    | None, None => (Ok tt, set_factors (<[sf_id f := f]> (factors db)) db)
    end).
Definition update (f : SheloFactor) (expected_version : Z) : M unit :=
  updated ← stmt (λ db,
    match factors db !! sf_id f with
    | Some current =>
        if sf_version current =? expected_version
        then match constraint f db with
             | Some e => (Raise e, db)
             | None => (Ok true, set_factors (<[sf_id f := f]> (factors db)) db)
             end
        else (Ok false, db)
    | None => (Ok false, db)
    end);
  if updated : bool then mret tt else raise (SheloFactorConflictError (sf_id f) expected_version).

(** DELETE with ON DELETE CASCADE of the interactions at either end. *)
Definition touches (id : UUID) (i : SheloFactorInteraction) : Prop :=
  si_source_factor_id i = id ∨ si_target_factor_id i = id.
#[export] Instance touches_dec id i : Decision (touches id i).
Proof. unfold touches. solve_decision. Defined.
Definition delete_cascade (id : UUID) (db : DB) : DB :=
  set_interactions (filter (λ kv, ¬ touches id kv.2) (interactions db))
    (set_factors (base.delete id (factors db)) db).
Definition delete (id : UUID) : M unit :=
  obj ← get id;
  match obj with None => mret tt | Some _ => exec (delete_cascade id) end.
End FactorRepo.

(** ** SqlSheloFactorInteractionRepository *)
Module InteractionRepo.
Definition by_creation (x y : SheloFactorInteraction) : bool := si_created_at x <=? si_created_at y.
Definition list_for_event (event_id : UUID) : M (list SheloFactorInteraction) :=
  query (λ db, py_sorted by_creation (filter (λ i, si_event_id i = event_id) (rows (interactions db)))).

Definition natural_key (i : SheloFactorInteraction) : UUID * UUID * UUID * SheloInteractionKind :=
  (si_event_id i, si_source_factor_id i, si_target_factor_id i, si_interaction_kind i).
Definition find_natural (event_id source target : UUID) (kind : SheloInteractionKind)
    : M (option SheloFactorInteraction) :=
  scalar_query (λ db,
    filter (λ i, natural_key i = (event_id, source, target, kind)) (rows (interactions db))).

(** The unique index, then the foreign keys. *)
Definition keys (i : SheloFactorInteraction) (db : DB) : option exn :=
  if bool_decide (filter (λ x, natural_key x = natural_key i) (rows (interactions db)) ≠ [])
  then Some (IntegrityError "uq_shelo_factor_interactions_natural")
  else match db_events db !! si_event_id i, factors db !! si_source_factor_id i,
             factors db !! si_target_factor_id i with
       | None, _, _ => Some (IntegrityError "shelo_factor_interactions_event_id_fkey")
       | _, None, _ => Some (IntegrityError "shelo_factor_interactions_source_factor_id_fkey")
       | _, _, None => Some (IntegrityError "shelo_factor_interactions_target_factor_id_fkey")
       | Some _, Some _, Some _ => None
       end.
Definition insert (i : SheloFactorInteraction) : M unit :=
  stmt (λ db,
    if (si_source_factor_id i =? si_target_factor_id i)%N
    then (Raise (IntegrityError "ck_shelo_factor_interactions_no_self_loop"), db)
    else match interactions db !! si_id i, keys i db with
         | Some _, _ => (Raise (IntegrityError "shelo_factor_interactions_pkey"), db)
         | _, Some e => (Raise e, db)
         | None, None => (Ok tt, set_interactions (<[si_id i := i]> (interactions db)) db)
         end).
Definition add (i : SheloFactorInteraction) : M unit :=
  existing ← find_natural (si_event_id i) (si_source_factor_id i) (si_target_factor_id i)
               (si_interaction_kind i);
  match existing with
  | Some _ => raise (SheloFactorInteractionConflictError (si_source_factor_id i) (si_target_factor_id i))
  | None => insert i
  end.
Definition get (id : UUID) : M (option SheloFactorInteraction) := query (λ db, interactions db !! id).
Definition delete (id : UUID) : M unit :=
  obj ← get id;
  match obj with
  | None => mret tt
  | Some _ => exec (λ db, set_interactions (base.delete id (interactions db)) db)
  end.
End InteractionRepo.

(** ** Reads *)

(** Only a PUBLISHED page lets its event through. *)
Definition require_published_event_for_slug (slug : string) : M UUID :=
  page ← PageRepo.get_by_slug slug;
  match page with
  | None => raise (PublicEventPageNotPublishedError slug)
  | Some p =>
      if bool_decide (pg_status p = RETRACTED)
      then raise (PublicEventPageRetractedError slug (pg_retraction_note p))
      else if bool_decide (pg_status p ≠ PUBLISHED) then raise (PublicEventPageNotPublishedError slug)
      else mret (pg_event_id p)
  end.

Module ListHfacsTaxonomy.
Definition execute : M (list (HfacsCategory * list HfacsSubcategory)) :=
  categories ← CategoryRepo.list_all;
  grouped ← map_m (λ cat, subs ← SubcategoryRepo.list_for_category (hc_id cat); mret (cat, subs)) categories;
  rollback;;
  mret grouped.
End ListHfacsTaxonomy.

Module GetEventHfacs.
Abbreviation row := (EventHfacsAttribution * HfacsCategory * option HfacsSubcategory)%type.
(** [cache.get(id)], else the repository; what is found is remembered. *)
Definition cached {A} (fetch : UUID → M (option A)) (cache : gmap UUID A) (id : UUID)
    : M (option A * gmap UUID A) :=
  match cache !! id with
  | Some x => mret (Some x, cache)
  | None =>
      x ← fetch id;
      mret (x, match x with Some x => <[id := x]> cache | None => cache end)
  end.
Fixpoint hydrate (cat_cache : gmap UUID HfacsCategory) (sub_cache : gmap UUID HfacsSubcategory)
    (l : list EventHfacsAttribution) : M (list row) :=
  match l with
  | [] => mret []
  | a :: l' =>
      '(cat, cat_cache) ← cached CategoryRepo.get cat_cache (ha_category_id a);
      match cat with
      | None => hydrate cat_cache sub_cache l'
      | Some cat =>
          '(sub, sub_cache) ← (match ha_subcategory_id a with
                               | None => mret (None, sub_cache)
                               | Some s => cached SubcategoryRepo.get sub_cache s
                               end);
          rest ← hydrate cat_cache sub_cache l';
          mret ((a, cat, sub) :: rest)
      end
  end.
Definition execute (slug : string) : M (UUID * list row) :=
  event_id ← require_published_event_for_slug slug;
  attributions ← AttributionRepo.list_for_event event_id;
  hydrated ← hydrate ∅ ∅ attributions;
  rollback;;
  mret (event_id, hydrated).
End GetEventHfacs.

Module GetEventShelo.
Definition execute (slug : string) : M (UUID * list SheloFactor * list SheloFactorInteraction) :=
  event_id ← require_published_event_for_slug slug;
  factors ← FactorRepo.list_for_event event_id;
  interactions ← InteractionRepo.list_for_event event_id;
  rollback;;
  mret (event_id, factors, interactions).
End GetEventShelo.

(** ** Writes *)
Module AttachEventHfacsAttribution.
Definition check_subcategory (category_id : UUID) (subcategory_id : option UUID) : M unit :=
  match subcategory_id with
  | None => mret tt
  | Some s =>
      subcategory ← SubcategoryRepo.get s;
      match subcategory with
      | None => raise (HfacsSubcategoryNotFoundError s)
      | Some sub => if (hs_category_id sub =? category_id)%N then mret tt
                    else raise (HfacsSubcategoryNotFoundError s)
      end
  end.
Definition execute (event_id category_id : UUID) (subcategory_id : option UUID) (confidence : float)
    (note : option string) (editor_user_id : UUID) : M EventHfacsAttribution :=
  category ← CategoryRepo.get category_id;
  match category with
  | None => raise (HfacsCategoryNotFoundError category_id)
  | Some _ =>
      check_subcategory category_id subcategory_id;;
      id ← uuid4; created_at ← utc_now; updated_at ← utc_now;
      let attribution := mkAttribution id event_id category_id subcategory_id confidence note
                           editor_user_id 1 created_at updated_at in
      when_valid (AttributionRepo.in_range confidence)
        (AttributionRepo.add attribution;;
         MeteringService.record HFACS_ATTRIBUTION_CREATED None (Some editor_user_id) (Some id) 1;;
         commit;;
         mret attribution)
  end.
End AttachEventHfacsAttribution.

Module UpdateEventHfacsAttribution.
Definition model_copy (confidence : float) (note : option string) (editor_user_id : UUID)
    (now : datetime) (a : EventHfacsAttribution) : EventHfacsAttribution :=
  mkAttribution (ha_id a) (ha_event_id a) (ha_category_id a) (ha_subcategory_id a) confidence note
    editor_user_id (ha_version a + 1) (ha_created_at a) now.
Definition execute (attribution_id : UUID) (expected_version : Z) (confidence : float)
    (note : option string) (editor_user_id : UUID) : M EventHfacsAttribution :=
  existing ← AttributionRepo.get attribution_id;
  match existing with
  | None => raise (HfacsAttributionNotFoundError attribution_id)
  | Some existing =>
      now ← utc_now;
      let updated := model_copy confidence note editor_user_id now existing in
      AttributionRepo.update updated expected_version;;
      commit;;
      mret updated
  end.
End UpdateEventHfacsAttribution.

Module DeleteEventHfacsAttribution.
Definition execute (attribution_id : UUID) : M unit := AttributionRepo.delete attribution_id;; commit.
End DeleteEventHfacsAttribution.

Module AttachSheloFactor.
Definition execute (event_id : UUID) (factor_class : SheloClass) (label : string)
    (description : option string) (editor_user_id : UUID) : M SheloFactor :=
  id ← uuid4; created_at ← utc_now; updated_at ← utc_now;
  let factor := mkFactor id event_id factor_class label description editor_user_id 1 created_at updated_at in
  when_valid (text_between 1 300 label) (FactorRepo.add factor;; commit;; mret factor).
End AttachSheloFactor.

Module UpdateSheloFactor.
Definition model_copy (factor_class : SheloClass) (label : string) (description : option string)
    (editor_user_id : UUID) (now : datetime) (f : SheloFactor) : SheloFactor :=
  mkFactor (sf_id f) (sf_event_id f) factor_class label description editor_user_id (sf_version f + 1)
    (sf_created_at f) now.
Definition execute (factor_id : UUID) (expected_version : Z) (factor_class : SheloClass)
    (label : string) (description : option string) (editor_user_id : UUID) : M SheloFactor :=
  existing ← FactorRepo.get factor_id;
  match existing with
  | None => raise (SheloFactorNotFoundError factor_id)
  | Some existing =>
      now ← utc_now;
      let updated := model_copy factor_class label description editor_user_id now existing in
      FactorRepo.update updated expected_version;;
      commit;;
      mret updated
  end.
End UpdateSheloFactor.

Module DeleteSheloFactor.
Definition execute (factor_id : UUID) : M unit := FactorRepo.delete factor_id;; commit.
End DeleteSheloFactor.

Module AttachSheloInteraction.
(** The factor exists and is one of the event. *)
Definition require_factor (event_id factor_id : UUID) : M unit :=
  factor ← FactorRepo.get factor_id;
  match factor with
  | Some f => if (sf_event_id f =? event_id)%N then mret tt else raise (SheloFactorNotFoundError factor_id)
  | None => raise (SheloFactorNotFoundError factor_id)
  end.
Definition execute (event_id source target : UUID) (kind : SheloInteractionKind)
    (note : option string) (editor_user_id : UUID) : M SheloFactorInteraction :=
  if (source =? target)%N then raise SheloFactorInteractionSameNodeError
  else
    require_factor event_id source;;
    require_factor event_id target;;
    existing ← InteractionRepo.find_natural event_id source target kind;
    match existing with
    | Some _ => raise (SheloFactorInteractionConflictError source target)
    | None =>
        id ← uuid4; created_at ← utc_now;
        let interaction := mkInteraction id event_id source target kind note editor_user_id created_at in
        InteractionRepo.add interaction;;
        commit;;
        mret interaction
    end.
End AttachSheloInteraction.

Module DeleteSheloInteraction.
Definition execute (interaction_id : UUID) : M unit := InteractionRepo.delete interaction_id;; commit.
End DeleteSheloInteraction.

(** Everything an analyst can ask. *)
Inductive CausalityRequest :=
  | AttachAttribution (event category : UUID) (subcategory : option UUID) (confidence : float)
      (note : option string) (editor : UUID)
  | UpdateAttribution (id : UUID) (expected : Z) (confidence : float) (note : option string) (editor : UUID)
  | DeleteAttribution (id : UUID)
  | AttachFactor (event : UUID) (class : SheloClass) (label : string) (description : option string) (editor : UUID)
  | UpdateFactor (id : UUID) (expected : Z) (class : SheloClass) (label : string)
      (description : option string) (editor : UUID)
  | DeleteFactor (id : UUID)
  | AttachInteraction (event source target : UUID) (kind : SheloInteractionKind) (note : option string) (editor : UUID)
  | DeleteInteraction (id : UUID).
Definition handle_causality (r : CausalityRequest) : M unit :=
  match r with
  | AttachAttribution e c s f n u => AttachEventHfacsAttribution.execute e c s f n u;; mret tt
  | UpdateAttribution i v f n u => UpdateEventHfacsAttribution.execute i v f n u;; mret tt
  | DeleteAttribution i => DeleteEventHfacsAttribution.execute i
  | AttachFactor e c l d u => AttachSheloFactor.execute e c l d u;; mret tt
  | UpdateFactor i v c l d u => UpdateSheloFactor.execute i v c l d u;; mret tt
  | DeleteFactor i => DeleteSheloFactor.execute i
  | AttachInteraction e s t k n u => AttachSheloInteraction.execute e s t k n u;; mret tt
  | DeleteInteraction i => DeleteSheloInteraction.execute i
  end.
