(* ===== verification/CausalityFacts.v ===== *)
(** What holds of the causality tables: whatever analysts ask for, every attribution is
    one of a kind, within its range and under its category, and every SHELO graph is a
    graph on the factors of one event; the complete effect of removing a factor; what the
    public sees of an event. *)
From S2P Require Import Prelude Text PyFloat PyVal PyDate Entities ContextEntities Store Json.
From S2P Require Import Logic Publication Keyset PublicationSpec Editorial EditorialFacts PublicRead.
From S2P Require Import PyRe Deidentification.
From S2P Require Import Paging Tenancy Wp Causality.
Open Scope string_scope.
Open Scope list_scope.
Open Scope Z_scope.

(** ** Well-formed tables *)
Record causality_ok (db : DB) : Prop := {
  co_attribution k a : attributions db !! k = Some a →
    ha_id a = k ∧ AttributionRepo.in_range (ha_confidence a) = true
    ∧ is_Some (db_events db !! ha_event_id a) ∧ is_Some (categories db !! ha_category_id a)
    ∧ ∀ s, ha_subcategory_id a = Some s →
        ∃ sub, subcategories db !! s = Some sub ∧ hs_category_id sub = ha_category_id a;
  co_once k k' a a' : attributions db !! k = Some a → attributions db !! k' = Some a' →
    AttributionRepo.index_key a = AttributionRepo.index_key a' → k = k';
  co_factor k f : factors db !! k = Some f →
    sf_id f = k ∧ fits 300 (sf_label f) = true ∧ is_Some (db_events db !! sf_event_id f);
  co_edge k i : interactions db !! k = Some i →
    si_id i = k ∧ si_source_factor_id i ≠ si_target_factor_id i
    ∧ (∃ f, factors db !! si_source_factor_id i = Some f ∧ sf_event_id f = si_event_id i)
    ∧ (∃ f, factors db !! si_target_factor_id i = Some f ∧ sf_event_id f = si_event_id i);
  co_edge_once k k' i i' : interactions db !! k = Some i → interactions db !! k' = Some i' →
    InteractionRepo.natural_key i = InteractionRepo.natural_key i' → k = k';
}.

(** Only the causality tables and the events matter. *)
Lemma causality_ok_ext db db' :
  db_causality db' = db_causality db → db_events db' = db_events db → causality_ok db → causality_ok db'.
Proof.
  intros Ec Ee [H1 H2 H3 H4 H5].
  unfold attributions, categories, subcategories, factors, interactions in *.
  split; unfold attributions, categories, subcategories, factors, interactions in *; rewrite ?Ec, ?Ee; eauto.
Qed.

Lemma in_rows_other {A} (id : A → UUID) (m : gmap UUID A) (P : A → Prop) `{∀ x, Decision (P x)} :
  bool_decide (filter P (rows m) ≠ []) = false → ∀ k x, m !! k = Some x → ¬ P x.
Proof.
  rewrite bool_decide_eq_false. intros Hn k x Hx HP. apply Hn. intros Hnil.
  apply (not_elem_of_nil x). rewrite <- Hnil. apply list_elem_of_filter. split; [done|].
  apply elem_of_rows. by exists k.
Qed.

(** Reading a table that was just replaced. *)
Ltac read_written :=
  change (factors (set_interactions _ ?d)) with (factors d);
  change (attributions (set_attributions ?m _)) with m; change (factors (set_factors ?m _)) with m;
  change (interactions (set_interactions ?m _)) with m.

Section rows_written.
Context (db : DB) (Hok : causality_ok db).

Lemma attribution_written a :
  AttributionRepo.checks a = None → AttributionRepo.keys a db = None →
  (∀ s, ha_subcategory_id a = Some s →
     ∃ sub, subcategories db !! s = Some sub ∧ hs_category_id sub = ha_category_id a) →
  causality_ok (set_attributions (<[ha_id a := a]> (attributions db)) db).
Proof using Hok.
  intros Hc Hk Hs. unfold AttributionRepo.checks in Hc. destruct (int4 _); [|done]. simpl in Hc.
  destruct (AttributionRepo.in_range _) eqn:Hr; [|done].
  unfold AttributionRepo.keys in Hk. destruct (AttributionRepo.clash a db) eqn:Hclash; [done|].
  destruct (db_events db !! ha_event_id a) eqn:He; [|done].
  destruct (categories db !! ha_category_id a) eqn:Hcat; [|done]. clear Hc Hk.
  assert (∀ k x, attributions db !! k = Some x →
    AttributionRepo.index_key x = AttributionRepo.index_key a → k = ha_id a) as Honce.
  { intros k x Hx E. destruct (decide (k = ha_id a)) as [|Hne]; [done|]. exfalso.
    apply (in_rows_other ha_id _ _ Hclash k x Hx). destruct (co_attribution _ Hok _ _ Hx) as [<- _]. done. }
  destruct Hok as [H1 H2 H3 H4 H5]. split; try done; read_written.
  - intros k x [[<- <-]|[Hne Hx]]%lookup_insert_Some; [by eauto 10|by eapply H1].
  - intros k k' x x' [[<- <-]|[? Hx]]%lookup_insert_Some [[<- <-]|[? Hx']]%lookup_insert_Some E; try done.
    + symmetry. by eapply Honce.
    + by eapply Honce.
    + by eapply H2.
Qed.

Lemma attribution_deleted id : causality_ok (set_attributions (delete id (attributions db)) db).
Proof using Hok.
  destruct Hok as [H1 H2 H3 H4 H5]. split; try done; read_written.
  - intros k x [_ Hx]%lookup_delete_Some. by eapply H1.
  - intros k k' x x' [_ Hx]%lookup_delete_Some [_ Hx']%lookup_delete_Some. by eapply H2.
Qed.

(** A new factor, or one that stays on its event. *)
Lemma factor_written f : FactorRepo.constraint f db = None →
  (∀ f0, factors db !! sf_id f = Some f0 → sf_event_id f0 = sf_event_id f) →
  causality_ok (set_factors (<[sf_id f := f]> (factors db)) db).
Proof using Hok.
  intros Hc Hev. unfold FactorRepo.constraint in Hc. destruct (fits 300 _) eqn:Hf; [|done].
  destruct (int4 _); [|done]. simpl in Hc. destruct (db_events db !! _) eqn:He; [|done]. clear Hc.
  destruct Hok as [H1 H2 H3 H4 H5]. split; try done; read_written.
  - intros k x [[<- <-]|[Hne Hx]]%lookup_insert_Some; [by eauto|by eapply H3].
  - assert (∀ k e, (∃ g, factors db !! k = Some g ∧ sf_event_id g = e) →
      ∃ g, <[sf_id f := f]> (factors db) !! k = Some g ∧ sf_event_id g = e) as Hkeep.
    { intros k e (g & Hg & Eg). destruct (decide (sf_id f = k)) as [<-|Hne].
      - exists f. rewrite lookup_insert_eq. split; [done|]. by rewrite <- (Hev g).
      - exists g. by rewrite lookup_insert_ne. }
    intros k i Hi. destruct (H4 k i Hi) as (? & ? & Hs & Ht). split_and!; try done; by apply Hkeep.
Qed.

Lemma factor_deleted id : causality_ok (FactorRepo.delete_cascade id db).
Proof using Hok.
  unfold FactorRepo.delete_cascade.
  destruct Hok as [H1 H2 H3 H4 H5]. split; try done; read_written.
  - intros k f [_ Hf]%lookup_delete_Some. by eapply H3.
  - intros k i [Hi Hn]%map_lookup_filter_Some. unfold FactorRepo.touches in Hn. simpl in Hn.
    destruct (H4 k i Hi) as (? & ? & (f & Hf & ?) & (g & Hg & ?)). split_and!; try done.
    + exists f. split; [|done]. apply lookup_delete_Some. split; [intros ->; tauto|done].
    + exists g. split; [|done]. apply lookup_delete_Some. split; [intros ->; tauto|done].
  - intros k k' i i' [Hi _]%map_lookup_filter_Some [Hi' _]%map_lookup_filter_Some. by eapply H5.
Qed.

Lemma interaction_written i : InteractionRepo.keys i db = None →
  si_source_factor_id i ≠ si_target_factor_id i →
  (∀ f, factors db !! si_source_factor_id i = Some f → sf_event_id f = si_event_id i) →
  (∀ f, factors db !! si_target_factor_id i = Some f → sf_event_id f = si_event_id i) →
  causality_ok (set_interactions (<[si_id i := i]> (interactions db)) db).
Proof using Hok.
  intros Hk Hne Hs Ht. unfold InteractionRepo.keys in Hk.
  destruct (bool_decide _) eqn:Hclash; [done|].
  destruct (db_events db !! _) eqn:He; [|done].
  destruct (factors db !! si_source_factor_id i) as [f|] eqn:Ef; [|done].
  destruct (factors db !! si_target_factor_id i) as [g|] eqn:Eg; [|done]. clear Hk.
  pose proof (in_rows_other si_id _ _ Hclash) as Hno.
  destruct Hok as [H1 H2 H3 H4 H5]. split; try done; read_written.
  - intros k x [[<- <-]|[? Hx]]%lookup_insert_Some; [|by eapply H4]. split_and!; [done|done| |].
    + exists f. split; [done|by apply Hs].
    + exists g. split; [done|by apply Ht].
  - intros k k' x x' [[<- <-]|[? Hx]]%lookup_insert_Some [[<- <-]|[? Hx']]%lookup_insert_Some E; try done.
    + by destruct (Hno _ _ Hx').
    + by destruct (Hno _ _ Hx).
    + by eapply H5.
Qed.

Lemma interaction_deleted id : causality_ok (set_interactions (delete id (interactions db)) db).
Proof using Hok.
  destruct Hok as [H1 H2 H3 H4 H5]. split; try done; read_written.
  - intros k x [_ Hx]%lookup_delete_Some. by eapply H4.
  - intros k k' x x' [_ Hx]%lookup_delete_Some [_ Hx']%lookup_delete_Some. by eapply H5.
Qed.
End rows_written.

(** ** Requests *)
Lemma wp_metering m t us r n Q db com now uid :
  (∀ f now' uid', Q tt (upd_tenancy f db) com now' uid') →
  wp (MeteringService.record m t us r n) Q db com now uid.
Proof.
  intros HQ. unfold MeteringService.record. cbv zeta. destruct (_ =? 0).
  - apply wp_ret. assert (db = upd_tenancy (λ t, t) db) as -> by (by destruct db). apply HQ.
  - apply wp_bind. generalize (Z.to_nat (Z.max 0 n)). clear n. intros n.
    assert (∀ Q' now uid, (∀ l n' u', Q' l db com n' u') →
      wp (MeteringService.make_events n m t us r) Q' db com now uid) as Hmake.
    { induction n as [|n IH]; intros Q' now' uid' HQ'; simpl; [by apply wp_ret|].
      repeat wp_step. apply IH. intros. by apply wp_ret. }
    apply Hmake. intros l n' u'. unfold UsageRepo.add_many.
    destruct (bool_decide _).
    { apply wp_ret. assert (db = upd_tenancy (λ t, t) db) as -> by (by destruct db). apply HQ. }
    apply wp_stmt. intros [] db' E.
    assert (∃ f, db' = upd_tenancy f db) as [f ->]; [|by apply HQ].
    revert E. generalize db. clear HQ Hmake. induction l as [|x l IH]; intros d E.
    + injection E as <-. exists (λ t, t). by destruct d.
    + cbn [TenantDb.insert_all] in E. destruct (TenantDb.insert_row _ _ _ _ _) as [[[]|] d'] eqn:Ei; [|done].
      assert (∃ f, d' = upd_tenancy f d) as [f ->].
      { unfold TenantDb.insert_row in Ei. simpl in Ei.
        repeat case_match; try done; injection Ei as <-; by eexists. }
      apply IH in E as [g ->]. by exists (λ t, g (f t)).
Qed.

(** A request keeps the tables well formed, whatever it commits. *)
Abbreviation commits_ok m db com now uid :=
  (wp m (λ _ _ com' _ _, causality_ok com') db com now uid).

Lemma attach_attribution_ok e c s f n u db com now uid : causality_ok db →
  commits_ok (AttachEventHfacsAttribution.execute e c s f n u) db com now uid.
Proof.
  intros Hok. unfold AttachEventHfacsAttribution.execute, CategoryRepo.get. repeat wp_step.
  apply (wp_mono _ _ _ _ _ (λ _ d c' _ _, d = db ∧ ∀ s', s = Some s' →
    ∃ sub, subcategories db !! s' = Some sub ∧ hs_category_id sub = c)).
  - intros _ d c' n' u' [-> Hs]. unfold when_valid. repeat wp_step.
    unfold AttributionRepo.add, AttributionRepo.find_natural, AttributionRepo.insert. repeat wp_step.
    apply wp_stmt. intros [] db' E. cbn [ha_id] in E. destruct (AttributionRepo.checks _) eqn:Hc; [done|].
    destruct (attributions db !! _); [done|]. destruct (AttributionRepo.keys _ _) eqn:Hk; [done|].
    injection E as <-. repeat wp_step. apply wp_metering. intros g n2 u2. repeat wp_step.
    eapply causality_ok_ext; [..|by eapply attribution_written]; done.
  - unfold AttachEventHfacsAttribution.check_subcategory, SubcategoryRepo.get.
    repeat wp_step; split; try done.
    intros s' [= <-]. eexists. split; [done|]. by apply N.eqb_eq.
Qed.

(** An UPDATE that found its row wrote it. *)
Lemma wp_update_attribution a v Q db com now uid :
  (AttributionRepo.checks a = None → AttributionRepo.keys a db = None →
   Q tt (set_attributions (<[ha_id a := a]> (attributions db)) db) com now uid) →
  wp (AttributionRepo.update a v) Q db com now uid.
Proof.
  intros HQ. unfold AttributionRepo.update. apply wp_bind, wp_stmt. intros b db' E.
  destruct (attributions db !! ha_id a); [|by injection E as <- <-; apply wp_raise].
  destruct (_ =? v); [|by injection E as <- <-; apply wp_raise].
  destruct (AttributionRepo.checks a); [done|]. destruct (AttributionRepo.keys a db); [done|].
  injection E as <- <-. apply wp_ret. by apply HQ.
Qed.
Lemma wp_update_factor f v Q db com now uid :
  (FactorRepo.constraint f db = None →
   Q tt (set_factors (<[sf_id f := f]> (factors db)) db) com now uid) →
  wp (FactorRepo.update f v) Q db com now uid.
Proof.
  intros HQ. unfold FactorRepo.update. apply wp_bind, wp_stmt. intros b db' E.
  destruct (factors db !! sf_id f); [|by injection E as <- <-; apply wp_raise].
  destruct (_ =? v); [|by injection E as <- <-; apply wp_raise].
  destruct (FactorRepo.constraint f db); [done|].
  injection E as <- <-. apply wp_ret. by apply HQ.
Qed.

Lemma update_attribution_ok i v f n u db com now uid : causality_ok db →
  commits_ok (UpdateEventHfacsAttribution.execute i v f n u) db com now uid.
Proof.
  intros Hok. unfold UpdateEventHfacsAttribution.execute, AttributionRepo.get. repeat wp_step.
  apply wp_update_attribution. intros Hc Hk. repeat wp_step. apply attribution_written; try done.
  by destruct (co_attribution _ Hok _ _ Heqo) as (_ & _ & _ & _ & H).
Qed.

Lemma delete_attribution_ok i db com now uid : causality_ok db →
  commits_ok (DeleteEventHfacsAttribution.execute i) db com now uid.
Proof.
  intros Hok. unfold DeleteEventHfacsAttribution.execute, AttributionRepo.delete, AttributionRepo.get.
  repeat wp_step; [by apply attribution_deleted|done].
Qed.

Lemma attach_factor_ok e c l d u db com now uid : causality_ok db →
  commits_ok (AttachSheloFactor.execute e c l d u) db com now uid.
Proof.
  intros Hok. unfold AttachSheloFactor.execute, when_valid, FactorRepo.add. repeat wp_step.
  apply wp_stmt. intros [] db' E. cbn [sf_id] in E. destruct (factors db !! uid) eqn:Hf; [done|].
  destruct (FactorRepo.constraint _ _) eqn:Hc; [done|]. injection E as <-. repeat wp_step.
  apply (factor_written db Hok _ Hc). cbn [sf_id]. congruence.
Qed.

Lemma update_factor_ok i v c l d u db com now uid : causality_ok db →
  commits_ok (UpdateSheloFactor.execute i v c l d u) db com now uid.
Proof.
  intros Hok. unfold UpdateSheloFactor.execute, FactorRepo.get. repeat wp_step.
  apply wp_update_factor. intros Hc. repeat wp_step. apply factor_written; [done|done|].
  cbn [UpdateSheloFactor.model_copy sf_id sf_event_id]. intros f0 Hf0.
  destruct (co_factor _ Hok _ _ Heqo) as (Eid & _). congruence.
Qed.

Lemma delete_factor_ok i db com now uid : causality_ok db →
  commits_ok (DeleteSheloFactor.execute i) db com now uid.
Proof.
  intros Hok. unfold DeleteSheloFactor.execute, FactorRepo.delete, FactorRepo.get.
  repeat wp_step; [by apply factor_deleted|done].
Qed.

Lemma attach_interaction_ok e s t k n u db com now uid : causality_ok db →
  commits_ok (AttachSheloInteraction.execute e s t k n u) db com now uid.
Proof.
  intros Hok. unfold AttachSheloInteraction.execute. wp_step; [wp_step|]. wp_step.
  assert (∀ id (Q : () → DB → DB → Z → N → Prop),
    ((∀ f, factors db !! id = Some f → sf_event_id f = e) → Q tt db com now uid) →
    wp (AttachSheloInteraction.require_factor e id) Q db com now uid) as Hreq.
  { intros id Q HQ. unfold AttachSheloInteraction.require_factor, FactorRepo.get. repeat wp_step.
    apply HQ. intros f Hf. by apply N.eqb_eq; simplify_eq. }
  apply Hreq. intros Hs. wp_step. apply Hreq. intros Ht.
  unfold InteractionRepo.add, InteractionRepo.find_natural, InteractionRepo.insert. repeat wp_step.
  apply wp_stmt. intros [] db' E. cbn [si_source_factor_id si_target_factor_id si_id] in E.
  rewrite Heqb in E. destruct (interactions db !! uid); [done|].
  destruct (InteractionRepo.keys _ _) eqn:Hk; [done|]. injection E as <-. repeat wp_step.
  apply (interaction_written db Hok _ Hk); try done. by apply N.eqb_neq.
Qed.

Lemma delete_interaction_ok i db com now uid : causality_ok db →
  commits_ok (DeleteSheloInteraction.execute i) db com now uid.
Proof.
  intros Hok. unfold DeleteSheloInteraction.execute, InteractionRepo.delete, InteractionRepo.get.
  repeat wp_step; [by apply interaction_deleted|done].
Qed.

Lemma metering_nocommit m t us r n : NoCommit (MeteringService.record m t us r n).
Proof.
  unfold MeteringService.record, UsageRepo.add_many. cbv zeta. destruct (_ =? 0); [apply NoCommit_ret|].
  apply NoCommit_bind; [|intros; repeat nocommit_step]. generalize (Z.to_nat (Z.max 0 n)). clear n.
  intros n. induction n; simpl; repeat first [done|nocommit_step].
Qed.
Lemma handle_causality_last r : CommitLast (handle_causality r).
Proof.
  destruct r; cbn [handle_causality]; try apply CommitLast_map;
    unfold AttachEventHfacsAttribution.execute, UpdateEventHfacsAttribution.execute,
      DeleteEventHfacsAttribution.execute, AttachSheloFactor.execute, UpdateSheloFactor.execute,
      DeleteSheloFactor.execute, AttachSheloInteraction.execute, DeleteSheloInteraction.execute,
      AttachSheloInteraction.require_factor, AttachEventHfacsAttribution.check_subcategory, when_valid,
      AttributionRepo.add, AttributionRepo.update, AttributionRepo.delete, FactorRepo.add,
      FactorRepo.update, FactorRepo.delete, InteractionRepo.add, InteractionRepo.delete,
      AttributionRepo.find_natural, AttributionRepo.insert, InteractionRepo.find_natural,
      InteractionRepo.insert, AttributionRepo.get, FactorRepo.get, InteractionRepo.get,
      CategoryRepo.get, SubcategoryRepo.get;
    repeat first [apply metering_nocommit|nocommit_step|progress cbv zeta].
Qed.

Lemma commits_ok_drop {A} (m : M A) db com now uid :
  commits_ok m db com now uid → commits_ok (m;; mret tt) db com now uid.
Proof. intros H. apply wp_bind. eapply wp_mono; [|exact H]. intros. by apply wp_ret. Qed.

Lemma handle_causality_ok r db com now uid : causality_ok db →
  commits_ok (handle_causality r) db com now uid.
Proof.
  intros Hok. destruct r; cbn [handle_causality]; try apply commits_ok_drop;
    eauto using attach_attribution_ok, update_attribution_ok, delete_attribution_ok, attach_factor_ok,
      update_factor_ok, delete_factor_ok, attach_interaction_ok, delete_interaction_ok.
Qed.

Definition analyse : World → list CausalityRequest → World :=
  foldl (λ w r, (with_uow (handle_causality r) (alone w)).2).

Lemma analyse_ok l w : causality_ok (w_committed w) → causality_ok (w_committed (analyse w l)).
Proof.
  revert w. induction l as [|r l IH]; intros w Hok; [done|]. cbn [analyse foldl]. apply IH.
  apply (run_alone_keeps causality_ok); [apply handle_causality_last|done|].
  by apply handle_causality_ok.
Qed.

(** C30: whatever analysts ask for, one request after the other, the causality tables stay
    well formed: an attribution has its event and category, a subcategory of that
    category, a confidence between 0 and 1, and is the only one of its event, category and
    subcategory; a SHELO interaction joins two different factors, both of the event it
    is recorded for, and no interaction is recorded twice. *)
Theorem analysts_keep_causality l w :
  causality_ok (w_committed w) → causality_ok (w_committed (analyse w l)).
Proof. intros Hok. by apply analyse_ok. Qed.

(** ** What the public sees of the attributions of an event *)
Import GetEventHfacs.

Definition rows_of (db : DB) (l : list EventHfacsAttribution) : list row :=
  omap (λ a, c ← categories db !! ha_category_id a;
             Some (a, c, s ← ha_subcategory_id a; subcategories db !! s)) l.

Definition remembers {A} (cache table : gmap UUID A) : Prop := ∀ k x, cache !! k = Some x → table !! k = Some x.

Lemma cached_run {A} (fetch : UUID → M (option A)) (table : DB → gmap UUID A) cache id w :
  (∀ id, fetch id w = (Ok (table (w_db w) !! id), w)) → remembers cache (table (w_db w)) →
  ∃ cache', cached fetch cache id w = (Ok (table (w_db w) !! id, cache'), w)
    ∧ remembers cache' (table (w_db w)).
Proof.
  intros Hf Hc. unfold cached. destruct (cache !! id) as [x|] eqn:E.
  - exists cache. by rewrite (Hc _ _ E).
  - destruct (table (w_db w) !! id) as [x|] eqn:Et.
    + exists (<[id := x]> cache). split.
      * eapply runs_bind; [apply Hf|]. by rewrite Et.
      * intros k y [[<- <-]|[_ Hk]]%lookup_insert_Some; auto.
    + exists cache. split; [|done]. eapply runs_bind; [apply Hf|]. by rewrite Et.
Qed.

Lemma hydrate_run l : ∀ cats subs w, quiet w →
  remembers cats (categories (w_db w)) → remembers subs (subcategories (w_db w)) →
  hydrate cats subs l w = (Ok (rows_of (w_db w) l), w).
Proof.
  induction l as [|a l IH]; intros cats subs w Hq Hc Hs; [done|]. cbn [hydrate].
  destruct (cached_run CategoryRepo.get categories cats (ha_category_id a) w) as (cats' & E & Hc');
    [intros id; by apply query_quiet|done|].
  eapply runs_bind; [exact E|]. cbn. destruct (categories (w_db w) !! ha_category_id a) as [c|];
    cbn; [|by apply IH].
  destruct (ha_subcategory_id a) as [s|]; cbn.
  - destruct (cached_run SubcategoryRepo.get subcategories subs s w) as (subs' & E' & Hs');
      [intros id; by apply query_quiet|done|].
    eapply runs_bind; [exact E'|]. cbn. eapply runs_bind; [by apply IH|]. done.
  - eapply runs_bind; [done|]. cbn. eapply runs_bind; [by apply IH|]. done.
Qed.

Definition row_of (db : DB) (x : EventHfacsAttribution * HfacsCategory) : row :=
  (x.1, x.2, s ← ha_subcategory_id x.1; subcategories db !! s).

Lemma elem_of_hfacs_rows event db a c : causality_ok db →
  (a, c) ∈ AttributionRepo.joined event db
  ↔ attributions db !! ha_id a = Some a ∧ ha_event_id a = event ∧ categories db !! ha_category_id a = Some c.
Proof.
  intros Hok. unfold AttributionRepo.joined. rewrite list_elem_of_omap. split.
  - intros (x & [Hev [k Hx]%elem_of_rows]%list_elem_of_filter & E).
    destruct (categories db !! ha_category_id x) as [d|] eqn:Ec; [|done]. injection E as -> ->.
    destruct (co_attribution _ Hok _ _ Hx) as [-> _]. done.
  - intros (Ha & Hev & Hc). exists a. rewrite list_elem_of_filter, elem_of_rows, Hc. naive_solver.
Qed.

Lemma NoDup_joined event db : causality_ok db → NoDup (AttributionRepo.joined event db).
Proof.
  intros Hok. unfold AttributionRepo.joined. set (l := filter _ _).
  assert (NoDup l) as Hl.
  { apply NoDup_filter, (NoDup_table ha_id). intros k x Hx. by destruct (co_attribution _ Hok _ _ Hx). }
  clearbody l. induction Hl as [|a l Hn Hl IH]; [constructor|]. cbn.
  destruct (categories db !! ha_category_id a) as [c|]; cbn; [|done]. constructor; [|done].
  rewrite list_elem_of_omap. intros (x & Hx & E).
  destruct (categories db !! ha_category_id x); [|done]. by injection E as -> _.
Qed.

Lemma rows_of_joined event db : causality_ok db →
  rows_of db (fst <$> py_sorted AttributionRepo.by_category (AttributionRepo.joined event db))
  = row_of db <$> py_sorted AttributionRepo.by_category (AttributionRepo.joined event db).
Proof.
  intros Hok. set (l := py_sorted _ _).
  assert (∀ x, x ∈ l → categories db !! ha_category_id x.1 = Some x.2) as Hl.
  { intros [a c] H%elem_of_py_sorted. by apply elem_of_hfacs_rows in H as (_ & _ & H). }
  clearbody l. induction l as [|[a c] l IH]; [done|]. unfold rows_of in *. cbn.
  pose proof (Hl (a, c) ltac:(by left)) as E. cbn in E. rewrite E. cbn. f_equal. apply IH. intros x Hx. apply Hl. by right.
Qed.

Lemma by_tier_total x y : CategoryRepo.by_tier x y = true ∨ CategoryRepo.by_tier y x = true.
Proof.
  unfold CategoryRepo.by_tier. rewrite !orb_true_iff, !andb_true_iff, !String.eqb_eq, !string_ltb_spec.
  destruct (string_leb_total (hc_tier_code x) (hc_tier_code y)), (string_leb_total (hc_code x) (hc_code y)),
    (decide (hc_tier_code x = hc_tier_code y)); naive_solver.
Qed.
Lemma by_tier_trans x y z :
  CategoryRepo.by_tier x y = true → CategoryRepo.by_tier y z = true → CategoryRepo.by_tier x z = true.
Proof.
  unfold CategoryRepo.by_tier. rewrite !orb_true_iff, !andb_true_iff, !String.eqb_eq.
  intros [H1|[E1 H1]] [H2|[E2 H2]].
  - left. apply (string_ltb_trans _ (hc_tier_code y)); [done|]. by apply string_ltb_spec in H2 as [].
  - left. by rewrite <- E2.
  - left. by rewrite E1.
  - right. split; [congruence|]. by eapply string_leb_trans.
Qed.

(** What a slug shows of the attributions: nothing unless its page is PUBLISHED. *)
Definition hfacs_answer (db : DB) (slug : string) (page : option PublicEventPage)
    (answer : Res (UUID * list row)) : Prop :=
  match page with
  | None => answer = Raise (PublicEventPageNotPublishedError slug)
  | Some p =>
      match pg_status p with
      | RETRACTED => answer = Raise (PublicEventPageRetractedError slug (pg_retraction_note p))
      | PUBLISHED => ∃ rows, answer = Ok (pg_event_id p, rows) ∧ NoDup rows
          ∧ StronglySorted (λ x y, CategoryRepo.by_tier x.1.2 y.1.2 = true) rows
          ∧ ∀ a c s, (a, c, s) ∈ rows ↔
              attributions db !! ha_id a = Some a ∧ ha_event_id a = pg_event_id p
              ∧ categories db !! ha_category_id a = Some c
              ∧ match ha_subcategory_id a with
                | None => s = None
                | Some i => ∃ sub, s = Some sub ∧ subcategories db !! i = Some sub
                                   ∧ hs_category_id sub = ha_category_id a
                end
      | _ => answer = Raise (PublicEventPageNotPublishedError slug)
      end
  end.

(** what the public gets of the HFACS attributions of an event, by the page of the
    slug: a PUBLISHED page shows every attribution of its event once, each with its
    category and its subcategory, in the order of the taxonomy; a RETRACTED page is gone
    with its note; every other status, and an unknown slug, is not published. *)
Theorem event_hfacs_by_status slug w :
  publication_ok (db_publication (w_committed w)) → causality_ok (w_committed w) →
  ∃ page, match page with
          | Some p => PageRepo.pages (w_committed w) !! pg_id p = Some p ∧ pg_slug p = slug
          | None => ∀ k p, PageRepo.pages (w_committed w) !! k = Some p → pg_slug p ≠ slug
          end
    ∧ hfacs_answer (w_committed w) slug page (GetEventHfacs.execute slug (alone w)).1.
Proof.
  intros Hp Hok. destruct (page_by_slug (alone w) slug eq_refl Hp) as (o & E & Ho).
  exists o. split; [exact Ho|]. unfold GetEventHfacs.execute, require_published_event_for_slug.
  unfold mbind at 1, M_bind at 1. unfold mbind at 1, M_bind at 1. rewrite E.
  destruct o as [p|]; [|done]. unfold hfacs_answer.
  destruct (pg_status p) eqn:Es; try (rewrite ?bool_decide_false, ?bool_decide_true by done; done).
  simpl. set (db := w_committed w).
  set (l := py_sorted AttributionRepo.by_category (AttributionRepo.joined (pg_event_id p) db)).
  exists (row_of db <$> l). split_and!.
  - unfold mbind at 1, M_bind at 1, AttributionRepo.list_for_event. rewrite query_quiet by done.
    unfold mbind at 1, M_bind at 1.
    rewrite hydrate_run; [|done|intros k x []%lookup_empty_Some|intros k x []%lookup_empty_Some].
    change (w_db (alone w)) with db. by rewrite rows_of_joined.
  - apply (NoDup_fmap_2_strong (row_of db)).
    + by intros [a c] [a' c'] _ _ [= -> -> _].
    + unfold l. rewrite py_sorted_perm. by apply NoDup_joined.
  - assert (StronglySorted (λ x y, AttributionRepo.by_category x y = true) l) as Hl
      by (apply py_sorted_sorted; intros; [apply by_tier_total|by eapply by_tier_trans]).
    clearbody l. induction Hl as [|x l _ IH Hx]; [constructor|]. cbn. constructor; [done|].
    by apply Forall_fmap.
  - intros a c s. rewrite list_elem_of_fmap. split.
    + intros ([a' c'] & [= -> -> ->] & H%elem_of_py_sorted).
      apply elem_of_hfacs_rows in H as (Ha & Hev & Hc); [|done]. split_and!; try done.
      destruct (ha_subcategory_id a') as [i|] eqn:Ei; [|done].
      destruct (co_attribution _ Hok _ _ Ha) as (_ & _ & _ & _ & Hs).
      destruct (Hs i Ei) as (sub & Hsub & Hcat). exists sub. split_and!; try done.
    + intros (Ha & Hev & Hc & Hs). exists (a, c). split.
      * unfold row_of. simpl. destruct (ha_subcategory_id a) as [i|]; [|by rewrite Hs].
        destruct Hs as (sub & -> & Hsub & _). simpl. by rewrite Hsub.
      * apply elem_of_py_sorted. by apply elem_of_hfacs_rows.
Qed.

(** ** An analysed event: the published event 7 with two categories *)
Definition sample_category (id : UUID) (tier code : string) (t : HfacsTier) : HfacsCategory :=
  mkHfacsCategory id tier code t code "" false 0.
Definition sample_taxonomy : DB → DB := upd_causality (λ _, mkCausalityTables
  (<[20%N := sample_category 20 "PRE" "PRE-CRM" PRECONDITIONS]>
     (<[21%N := sample_category 21 "ACT" "ACT-SKILL" UNSAFE_ACTS]> ∅))
  {[ 30%N := mkHfacsSubcategory 30 20 "PRE-CRM-1" "Briefing" None false 0 ]} ∅ ∅ ∅).
Definition sample_analysis : World :=
  world_of (sample_taxonomy (w_committed sample_published)).
Definition half : float := f_of_decimal false 5 (-1).
Definition sample_requests : list CausalityRequest :=
  [AttachAttribution 7 20 (Some 30%N) half None 9;
   AttachAttribution 7 21 (Some 30%N) half None 9;         (* not a subcategory of 21 *)
   AttachAttribution 7 21 None half None 9;
   AttachAttribution 7 21 None half None 9;                (* already there *)
   AttachFactor 7 SC_SOFTWARE "FADEC fault" None 9;
   AttachFactor 7 SC_LIVEWARE "Late call-out" None 9;
   AttachInteraction 7 1005 1006 MASKED None 9;
   AttachInteraction 7 1005 1005 MASKED None 9].           (* a self loop *)

Lemma nothing_recorded_ok db :
  attributions db = ∅ → factors db = ∅ → interactions db = ∅ → causality_ok db.
Proof. intros Ha Hf Hi. split; rewrite ?Ha, ?Hf, ?Hi; set_solver. Qed.
Lemma sample_taxonomy_ok : causality_ok (w_committed sample_analysis).
Proof. exact (nothing_recorded_ok (sample_taxonomy (w_committed sample_published)) eq_refl eq_refl eq_refl). Qed.

Lemma analysts_keep_causality_witness :
  let w := analyse sample_analysis sample_requests in
  size (attributions (w_committed w)) = 2%nat ∧ size (factors (w_committed w)) = 2%nat
  ∧ size (interactions (w_committed w)) = 1%nat ∧ causality_ok (w_committed w)
  ∧ size (interactions (w_committed (analyse w [DeleteFactor 1006]))) = 0%nat.
Proof.
  split; [vm_compute; reflexivity|]. split; [vm_compute; reflexivity|].
  split; [vm_compute; reflexivity|]. split; [|vm_compute; reflexivity].
  apply analysts_keep_causality, sample_taxonomy_ok.
Defined.

Lemma event_hfacs_by_status_witness :
  let w := analyse sample_analysis sample_requests in
  map (λ x : row, (hc_code x.1.2, fmap hs_code x.2))
    (match (GetEventHfacs.execute "acme-737-oslo" (alone w)).1 with Ok (_, l) => l | _ => [] end)
  = [("ACT-SKILL", None); ("PRE-CRM", Some "PRE-CRM-1")]
  ∧ ∃ page, hfacs_answer (w_committed w) "acme-737-oslo" page
              (GetEventHfacs.execute "acme-737-oslo" (alone w)).1.
Proof.
  split; [vm_compute; reflexivity|].
  destruct (event_hfacs_by_status "acme-737-oslo" (analyse sample_analysis sample_requests))
    as (page & _ & H).
  - assert (db_publication (w_committed (analyse sample_analysis sample_requests))
            = db_publication (w_db sample_published)) as -> by (vm_compute; reflexivity).
    exact sample_published_ok.
  - apply analyse_ok, sample_taxonomy_ok.
  - exists page. exact H.
Defined.

(** An event can carry a category and a subcategory of it at once, against the account
    of the entity. *)
Example category_and_subcategory :
  map (λ a, (ha_category_id a, ha_subcategory_id a))
    (rows (attributions (w_committed (analyse sample_analysis
      [AttachAttribution 7 20 None half None 9; AttachAttribution 7 20 (Some 30%N) half None 9]))))
  = [(20%N, Some 30%N); (20%N, None)].
Proof. vm_compute. reflexivity. Qed.

(** Removing a factor removes the interactions at either end, and nothing else. *)
Lemma delete_factor_effect id w f : factors (w_committed w) !! id = Some f →
  ∃ w', DeleteSheloFactor.execute id (alone w) = (Ok tt, w')
    ∧ w_committed w' = FactorRepo.delete_cascade id (w_committed w)
    ∧ factors (w_committed w') = delete id (factors (w_committed w))
    ∧ ∀ k i, interactions (w_committed w') !! k = Some i
        ↔ interactions (w_committed w) !! k = Some i
          ∧ si_source_factor_id i ≠ id ∧ si_target_factor_id i ≠ id.
Proof.
  intros Hf. eexists. split.
  - unfold DeleteSheloFactor.execute, FactorRepo.delete, FactorRepo.get.
    eapply runs_bind; [|reflexivity]. eapply runs_bind; [by apply query_quiet|].
    change (w_db (alone w)) with (w_committed w). rewrite Hf. by apply exec_quiet.
  - split_and!; [done|done|]. intros k i.
    change (interactions _) with (filter (λ kv : UUID * SheloFactorInteraction, ¬ FactorRepo.touches id kv.2)
      (interactions (w_committed w))) at 1.
    rewrite map_lookup_filter_Some. unfold FactorRepo.touches. simpl. tauto.
Qed.
