(* ===== verification/Argus.v ===== *)
(** Argus: signals for the curators.  The severity bands and the dedupe key
    (domain/services/argus_severity.py, argus_dedupe.py), the repositories
    (infrastructure/db/repositories/argus.py and the queries of the other engines that
    detection reads), detection (application/use_cases/run_argus_signal_detection.py),
    review (review_argus_signal.py) and the listing (list_argus_signals.py). *)
From S2P Require Import Prelude Text PyFloat PyVal PyDate Entities ContextEntities Store Json.
From S2P Require Import Logic Publication Paging.
Open Scope string_scope.
Open Scope list_scope.
Open Scope Z_scope.

(** ** argus_severity.py *)
Definition severity_rank (s : ArgusSeverity) : Z :=
  match s with LOW => 0 | MEDIUM => 1 | HIGH => 2 | CRITICAL => 3 end.
(** A confidence written with two decimals. *)
Definition hundredths (n : N) : float := f_of_decimal false n (-2).
Definition severity_for_chronos_sequence_conflict : ArgusSeverity * float := (MEDIUM, hundredths 95).
Definition severity_for_hermes_source_change (c : HermesChangeType) : ArgusSeverity * float :=
  match c with
  | FIRST_SEEN => (LOW, hundredths 80)
  | CONTENT_CHANGED => (MEDIUM, hundredths 90)
  | CONTENT_UNCHANGED => (LOW, hundredths 60)
  | FETCH_FAILED => (LOW, hundredths 70)
  end.
Definition severity_for_hermes_fetch_failure_spike (count : Z) : ArgusSeverity * float :=
  if 10 <=? count then (HIGH, hundredths 90)
  else if 5 <=? count then (MEDIUM, hundredths 80)
  else (LOW, hundredths 60).
Definition severity_for_atlas_high_conflict (open_conflict_count : Z) : ArgusSeverity * float :=
  if 20 <=? open_conflict_count then (CRITICAL, hundredths 95)
  else if 10 <=? open_conflict_count then (HIGH, hundredths 90)
  else if 5 <=? open_conflict_count then (MEDIUM, hundredths 85)
  else (LOW, hundredths 75).

(** ** argus_dedupe.py *)
Definition str_join (sep : string) (l : list string) : string :=
  of_chars (join (chars sep) (map chars l)).
Definition make_argus_dedupe_key (t : ArgusSignalType) (source_engine : string) (parts : list string)
    : string :=
  str_join "::" ("ARGUS" :: signal_type_value t :: str_lower (str_strip source_engine)
                 :: map (λ p, str_lower (str_strip p)) parts).

(** ** Tables *)
Definition signals (db : DB) : gmap UUID ArgusSignal := ag_signals (db_argus db).
Definition evidence (db : DB) : gmap UUID ArgusSignalEvidence := ag_evidence (db_argus db).
Definition signal_reviews (db : DB) : list ArgusSignalReview := ag_reviews (db_argus db).
Definition set_signals (m : gmap UUID ArgusSignal) : DB → DB := upd_argus (λ t,
  mkArgusTables m (ag_evidence t) (ag_reviews t)).
Definition set_evidence (m : gmap UUID ArgusSignalEvidence) : DB → DB := upd_argus (λ t,
  mkArgusTables (ag_signals t) m (ag_reviews t)).
Definition set_reviews (l : list ArgusSignalReview) : DB → DB := upd_argus (λ t,
  mkArgusTables (ag_signals t) (ag_evidence t) l).

(** ** SqlArgusSignalRepository *)
Module SignalRepo.
Definition get (id : UUID) : M (option ArgusSignal) := query (λ db, signals db !! id).
Definition with_key (key : string) (db : DB) : list ArgusSignal :=
  filter (λ s, sg_dedupe_key s = key) (rows (signals db)).
Definition find_by_dedupe_key (key : string) : M (option ArgusSignal) := scalar_query (with_key key).

(** The row that INSERT stores. *)
Definition new_row (now : datetime) (s : ArgusSignal) : ArgusSignal :=
  mkSignal (sg_id s) (sg_signal_type s) SIGNAL_OPEN (sg_severity s) (sg_confidence s) (sg_title s)
    (sg_description s) (sg_accident_event_id s) (sg_source_engine s) (sg_dedupe_key s) 1
    (sg_first_detected_at s) (sg_last_detected_at s) now now.
(** DO UPDATE SET: severity and confidence only rise, AUTO_RESOLVED opens again. *)
Definition refreshed (now : datetime) (incoming stored : ArgusSignal) : ArgusSignal :=
  mkSignal (sg_id stored) (sg_signal_type stored)
    (if decide (sg_status stored = SIGNAL_AUTO_RESOLVED) then SIGNAL_OPEN else sg_status stored)
    (if severity_rank (sg_severity stored) <? severity_rank (sg_severity incoming)
     then sg_severity incoming else sg_severity stored)
    (if f_ltb (sg_confidence stored) (sg_confidence incoming)
     then sg_confidence incoming else sg_confidence stored)
    (sg_title stored) (sg_description stored) (sg_accident_event_id stored) (sg_source_engine stored)
    (sg_dedupe_key stored) (sg_version stored) (sg_first_detected_at stored) (sg_last_detected_at incoming)
    (sg_created_at stored) now.
Definition upsert_signal (s : ArgusSignal) : M (ArgusSignal * bool) :=
  now ← utc_now;
  stmt (λ db,
    match with_key (sg_dedupe_key s) db with
    | stored :: _ =>
        let row := refreshed now s stored in
        (Ok (row, false), set_signals (<[sg_id row := row]> (signals db)) db)
    | [] =>
        let row := new_row now s in
        match signals db !! sg_id s, from_option (λ e, bool_decide (is_Some (db_events db !! e))) true
                                       (sg_accident_event_id s) with
        | Some _, _ => (Raise (IntegrityError "argus_signals_pkey"), db)
        | None, false => (Raise (IntegrityError "argus_signals_accident_event_id_fkey"), db)
        | None, true => (Ok (row, true), set_signals (<[sg_id row := row]> (signals db)) db)
        end
    end).

Definition matches (status : option ArgusSignalStatus) (signal_type : option ArgusSignalType)
    (severity : option ArgusSeverity) (s : ArgusSignal) : bool :=
  from_option (λ x, bool_decide (sg_status s = x)) true status
  && from_option (λ x, bool_decide (sg_signal_type s = x)) true signal_type
  && from_option (λ x, bool_decide (sg_severity s = x)) true severity.
Definition list_page status signal_type severity (limit : nat) (after_id : option UUID)
    : M (list ArgusSignal) :=
  cursor ← read_cursor sg_last_detected_at after_id signals;
  query (λ db, take limit (listing_after sg_id sg_last_detected_at (matches status signal_type severity)
                             cursor (signals db))).

(** UPDATE ... WHERE id = :id AND version = :expected SET status, version = version + 1 *)
Definition decided (status : ArgusSignalStatus) (now : datetime) (s : ArgusSignal) : ArgusSignal :=
  mkSignal (sg_id s) (sg_signal_type s) status (sg_severity s) (sg_confidence s) (sg_title s)
    (sg_description s) (sg_accident_event_id s) (sg_source_engine s) (sg_dedupe_key s) (sg_version s + 1)
    (sg_first_detected_at s) (sg_last_detected_at s) (sg_created_at s) now.
Definition update_with_version_check (id : UUID) (expected_version : Z) (status : ArgusSignalStatus)
    : M (option ArgusSignal) :=
  now ← utc_now;
  stmt (λ db,
    match signals db !! id with
    | Some s =>
        if sg_version s =? expected_version
        then let s' := decided status now s in
             if int4 (sg_version s') then (Ok (Some s'), set_signals (<[id := s']> (signals db)) db)
             else (Raise (DataError "argus_signals"), db)
        else (Ok None, db)
    | None => (Ok None, db)
    end).
End SignalRepo.

(** ** SqlArgusSignalEvidenceRepository *)
Module EvidenceRepo.
(** uq_argus_signal_evidence_link *)
Definition link (e : ArgusSignalEvidence) : UUID * ArgusEvidenceType * UUID :=
  (se_signal_id e, se_evidence_type e, se_evidence_id e).
Definition linked (l : UUID * ArgusEvidenceType * UUID) (db : DB) : list ArgusSignalEvidence :=
  filter (λ e, link e = l) (rows (evidence db)).
Definition at_time (now : datetime) (e : ArgusSignalEvidence) : ArgusSignalEvidence :=
  mkEvidence (se_id e) (se_signal_id e) (se_evidence_type e) (se_evidence_id e) (se_engine e)
    (se_summary e) now.

(** INSERT ... ON CONFLICT DO NOTHING RETURNING; the row that was there otherwise. *)
Definition insert (e : ArgusSignalEvidence) : M (option ArgusSignalEvidence) :=
  now ← utc_now;
  stmt (λ db,
    match linked (link e) db, evidence db !! se_id e, signals db !! se_signal_id e with
    | _ :: _, _, _ => (Ok None, db)
    | [], Some _, _ => (Raise (IntegrityError "argus_signal_evidence_pkey"), db)
    | [], None, None => (Raise (IntegrityError "argus_signal_evidence_signal_id_fkey"), db)
    | [], None, Some _ =>
        let row := at_time now e in
        (Ok (Some row), set_evidence (<[se_id row := row]> (evidence db)) db)
    end).
Definition upsert_evidence (e : ArgusSignalEvidence) : M (ArgusSignalEvidence * bool) :=
  row ← insert e;
  match row with
  | Some row => mret (row, true)
  | None =>
      existing ← scalar_query (linked (link e));
      match existing with
      | Some row => mret (row, false)
      | None => raise NoResultFound
      end
  end.
Definition by_creation (x y : ArgusSignalEvidence) : bool := se_created_at x <=? se_created_at y.
Definition list_for_signal (signal_id : UUID) : M (list ArgusSignalEvidence) :=
  query (λ db, py_sorted by_creation (filter (λ e, se_signal_id e = signal_id) (rows (evidence db)))).
End EvidenceRepo.

(** ** SqlArgusSignalReviewRepository *)
Module SignalReviewRepo.
Definition add (r : ArgusSignalReview) : M unit :=
  stmt (λ db,
    match signals db !! sv_signal_id r with
    | None => (Raise (IntegrityError "argus_signal_reviews_signal_id_fkey"), db)
    | Some _ =>
        if bool_decide (sv_id r ∈ sv_id <$> signal_reviews db)
        then (Raise (IntegrityError "argus_signal_reviews_pkey"), db)
        else (Ok tt, set_reviews (signal_reviews db ++ [r]) db)
    end).
Definition by_creation (x y : ArgusSignalReview) : bool := sv_created_at x <=? sv_created_at y.
Definition list_for_signal (signal_id : UUID) : M (list ArgusSignalReview) :=
  query (λ db, py_sorted by_creation (filter (λ r, sv_signal_id r = signal_id) (signal_reviews db))).
End SignalReviewRepo.

(** ** What detection reads of the other engines *)
Module ReadRepo.
Definition oldest_review (x y : ChronosSequenceReview) : bool := cq_created_at x <=? cq_created_at y.
Definition pending (limit : nat) (db : DB) : list ChronosSequenceReview :=
  take limit (py_sorted oldest_review
    (filter (λ r, cq_status r = SEQ_PENDING) (rows (ch_reviews (db_chronos db))))).
Definition list_pending (limit : nat) : M (list ChronosSequenceReview) := query (pending limit).
Definition newest_change (x y : HermesSourceChange) : bool := hg_detected_at y <=? hg_detected_at x.
Definition recent (limit : nat) (db : DB) : list HermesSourceChange :=
  take limit (py_sorted newest_change (rows (hm_changes (db_hermes db)))).
Definition list_recent (limit : nat) : M (list HermesSourceChange) := query (recent limit).

(** GROUP BY event_id HAVING count >= min ORDER BY count DESC, event_id ASC LIMIT *)
Definition open_conflicts (db : DB) : list ClaimConflict :=
  filter (λ c, cf_status c = OPEN) (rows (db_conflicts db)).
Definition open_counts (db : DB) : list (UUID * Z) :=
  (λ g, (g.1, Z.of_nat (length g.2))) <$> group_by cf_event_id (open_conflicts db).
Definition most_first (x y : UUID * Z) : bool := (y.2 <? x.2) || ((y.2 =? x.2) && (x.1 <=? y.1)%N).
Definition high_conflict_events (min_count : Z) (limit : nat) (db : DB) : list (UUID * Z) :=
  take limit (py_sorted most_first (filter (λ g, min_count <= g.2) (open_counts db))).
Definition count_open_conflicts_per_event (min_count : Z) (limit : nat) : M (list (UUID * Z)) :=
  if min_count <? 2 then raise (ValueError "min_count") else query (high_conflict_events min_count limit).
End ReadRepo.

(** ** RunArgusSignalDetection *)
Record ArgusDetectionResult := mkDetection {
  signals_created_count : Z;
  signals_reused_count : Z;
  evidence_links_created_count : Z;
  signal_ids : list UUID;
  evidence_ids : list UUID;
  engines_errored : list string;
  engines_skipped : list string;
  signals_created_by_type : list (string * Z);
}.
Definition nothing_detected : ArgusDetectionResult := mkDetection 0 0 0 [] [] [] [] [].

Record DetectionInput := mkDetectionInput {
  di_include_chronos : bool;
  di_include_hermes : bool;
  di_include_atlas : bool;
  di_include_orion : bool;
  di_recent_limit : Z;
  di_high_conflict_threshold : Z;
}.

(** The fields of a signal that a detector fills in. *)
Record Candidate := mkCandidate {
  cd_signal_type : ArgusSignalType;
  cd_severity : ArgusSeverity;
  cd_confidence : float;
  cd_title : string;
  cd_description : string;
  cd_accident_event_id : option UUID;
  cd_source_engine : string;
  cd_dedupe_key : string;
}.

Module RunArgusSignalDetection.
Definition FETCH_FAILURE_SPIKE_THRESHOLD : Z := 5.

Fixpoint fold_m {R A} (f : R → A → M R) (acc : R) (l : list A) : M R :=
  match l with
  | [] => mret acc
  | x :: l' => acc' ← f acc x; fold_m f acc' l'
  end.

Definition new_signal (c : Candidate) (now : datetime) : M ArgusSignal :=
  id ← uuid4; created_at ← utc_now; updated_at ← utc_now;
  mret (mkSignal id (cd_signal_type c) SIGNAL_OPEN (cd_severity c) (cd_confidence c) (cd_title c)
    (Some (cd_description c)) (cd_accident_event_id c) (cd_source_engine c) (cd_dedupe_key c) 1 now now
    created_at updated_at).
(** [d[k] = d.get(k, 0) + 1] *)
Definition count_type (key : string) (d : list (string * Z)) : list (string * Z) :=
  dict_set key (default 0 (dict_get key d) + 1) d.
Definition upsert_signal (s : ArgusSignal) (r : ArgusDetectionResult)
    : M (ArgusSignal * ArgusDetectionResult) :=
  '(persisted, created) ← SignalRepo.upsert_signal s;
  let ids := if bool_decide (sg_id persisted ∈ signal_ids r) then signal_ids r
             else signal_ids r ++ [sg_id persisted] in
  mret (persisted,
    if created : bool then
      mkDetection (signals_created_count r + 1) (signals_reused_count r) (evidence_links_created_count r)
        ids (evidence_ids r) (engines_errored r) (engines_skipped r)
        (count_type (signal_type_value (sg_signal_type s)) (signals_created_by_type r))
    else
      mkDetection (signals_created_count r) (signals_reused_count r + 1) (evidence_links_created_count r)
        ids (evidence_ids r) (engines_errored r) (engines_skipped r) (signals_created_by_type r)).
Definition upsert_evidence (signal_id : UUID) (engine : string) (e : ArgusEvidenceType * UUID * string)
    (r : ArgusDetectionResult) : M ArgusDetectionResult :=
  id ← uuid4; created_at ← utc_now;
  '(persisted, created) ← EvidenceRepo.upsert_evidence
     (mkEvidence id signal_id e.1.1 e.1.2 engine (Some e.2) created_at);
  mret (if created : bool then
          mkDetection (signals_created_count r) (signals_reused_count r) (evidence_links_created_count r + 1)
            (signal_ids r) (evidence_ids r ++ [se_id persisted]) (engines_errored r) (engines_skipped r)
            (signals_created_by_type r)
        else r).
Definition errored (engine : string) (r : ArgusDetectionResult) : ArgusDetectionResult :=
  mkDetection (signals_created_count r) (signals_reused_count r) (evidence_links_created_count r)
    (signal_ids r) (evidence_ids r) (engines_errored r ++ [engine]) (engines_skipped r)
    (signals_created_by_type r).
Definition skipped (engine : string) (r : ArgusDetectionResult) : ArgusDetectionResult :=
  mkDetection (signals_created_count r) (signals_reused_count r) (evidence_links_created_count r)
    (signal_ids r) (evidence_ids r) (engines_errored r) (engines_skipped r ++ [engine])
    (signals_created_by_type r).
(** try: l = await query  except Exception: None *)
Definition try_read {A} (m : M A) : M (option A) := catch (l ← m; mret (Some l)) (λ _, mret None).

(** A signal and the evidence that is at hand. *)
Definition raise_signal (now : datetime) (r : ArgusDetectionResult)
    (a : Candidate * list (ArgusEvidenceType * UUID * string)) : M ArgusDetectionResult :=
  s ← new_signal a.1 now;
  '(s, r) ← upsert_signal s r;
  fold_m (λ r e, upsert_evidence (sg_id s) (cd_source_engine a.1) e r) r a.2.

(** Chronos *)
Definition sequence_alert (r : ChronosSequenceReview)
    : Candidate * list (ArgusEvidenceType * UUID * string) :=
  let '(severity, confidence) := severity_for_chronos_sequence_conflict in
  (mkCandidate TIMELINE_SEQUENCE_CONFLICT severity confidence "Timeline sequence conflict detected"
     (cq_reason r) (Some (cq_accident_event_id r)) "chronos"
     (make_argus_dedupe_key TIMELINE_SEQUENCE_CONFLICT "chronos" [uuid_str (cq_id r)]),
   [(CHRONOS_SEQUENCE_REVIEW, cq_id r, cq_reason r)]).
Definition detect_chronos (r : ArgusDetectionResult) (limit : nat) (now : datetime)
    : M ArgusDetectionResult :=
  pending ← try_read (ReadRepo.list_pending limit);
  match pending with
  | None => mret (errored "chronos" r)
  | Some pending => fold_m (λ r x, raise_signal now r (sequence_alert x)) r pending
  end.

(** Hermes *)
Definition change_summary (c : HermesSourceChange) : string :=
  "change_type=" +:+ change_type_value (hg_change_type c) +:+ " target_id=" +:+ uuid_str (hg_target_id c).
Definition change_alert (c : HermesSourceChange)
    : Candidate * list (ArgusEvidenceType * UUID * string) :=
  let '(severity, confidence) := severity_for_hermes_source_change (hg_change_type c) in
  (mkCandidate NEW_SOURCE_CHANGE severity confidence
     (if decide (hg_change_type c = FIRST_SEEN) then "New source first seen" else "Source content changed")
     (change_summary c) None "hermes"
     (make_argus_dedupe_key NEW_SOURCE_CHANGE "hermes"
        [uuid_str (hg_target_id c); change_type_value (hg_change_type c)]),
   [(HERMES_SOURCE_CHANGE, hg_id c, change_summary c)]).
Definition spike_alert (g : UUID * list HermesSourceChange)
    : Candidate * list (ArgusEvidenceType * UUID * string) :=
  let '(target_id, failures) := g in
  let count := Z.of_nat (length failures) in
  let '(severity, confidence) := severity_for_hermes_fetch_failure_spike count in
  (mkCandidate SOURCE_FETCH_FAILURE_SPIKE severity confidence
     ("Fetch failure spike: " +:+ int_str count +:+ " recent failures for target")
     ("Target " +:+ uuid_str target_id +:+ " has " +:+ int_str count +:+ " recent fetch failures.")
     None "hermes"
     (make_argus_dedupe_key SOURCE_FETCH_FAILURE_SPIKE "hermes" [uuid_str target_id]),
   (λ c, (HERMES_SOURCE_CHANGE, hg_id c, change_summary c)) <$> failures).
Definition is_failure (c : HermesSourceChange) : Prop := hg_change_type c = FETCH_FAILED.
Definition is_news (c : HermesSourceChange) : Prop :=
  hg_change_type c = FIRST_SEEN ∨ hg_change_type c = CONTENT_CHANGED.
#[export] Instance is_failure_dec c : Decision (is_failure c).
Proof. unfold is_failure. solve_decision. Defined.
#[export] Instance is_news_dec c : Decision (is_news c).
Proof. unfold is_news. solve_decision. Defined.
Definition failures_by_target (changes : list HermesSourceChange) : list (UUID * list HermesSourceChange) :=
  group_by hg_target_id (filter is_failure changes).
Definition is_spike (g : UUID * list HermesSourceChange) : Prop :=
  FETCH_FAILURE_SPIKE_THRESHOLD <= Z.of_nat (length g.2).
#[export] Instance is_spike_dec g : Decision (is_spike g).
Proof. unfold is_spike. solve_decision. Defined.
Definition detect_hermes (r : ArgusDetectionResult) (limit : nat) (now : datetime)
    : M ArgusDetectionResult :=
  changes ← try_read (ReadRepo.list_recent limit);
  match changes with
  | None => mret (errored "hermes" r)
  | Some changes =>
      r ← fold_m (λ r c, raise_signal now r (change_alert c)) r (filter is_news changes);
      fold_m (λ r g, if decide (is_spike g) then raise_signal now r (spike_alert g) else mret r) r
        (failures_by_target changes)
  end.

(** Atlas *)
Definition conflict_candidate (min_count : Z) (g : UUID * Z) : Candidate :=
  let '(event_id, open_count) := g in
  let '(severity, confidence) := severity_for_atlas_high_conflict open_count in
  mkCandidate HIGH_CONFLICT_ACCIDENT_RECORD severity confidence
    ("High-conflict accident record: " +:+ int_str open_count +:+ " open conflicts")
    ("Event " +:+ uuid_str event_id +:+ " has " +:+ int_str open_count
     +:+ " OPEN claim conflicts (threshold=" +:+ int_str min_count +:+ ").")
    (Some event_id) "atlas"
    (make_argus_dedupe_key HIGH_CONFLICT_ACCIDENT_RECORD "atlas" [uuid_str event_id]).
Definition conflict_evidence (c : ClaimConflict) : ArgusEvidenceType * UUID * string :=
  (ATLAS_CONFLICT, cf_id c, "OPEN conflict on field=" +:+ cf_field_name c).
Definition detect_event (min_count : Z) (now : datetime) (r : ArgusDetectionResult) (g : UUID * Z)
    : M ArgusDetectionResult :=
  s ← new_signal (conflict_candidate min_count g) now;
  '(s, r) ← upsert_signal s r;
  conflicts ← ConflictRepo.find_by_event g.1;
  fold_m (λ r c, if decide (cf_status c = OPEN) then upsert_evidence (sg_id s) "atlas" (conflict_evidence c) r
                 else mret r) r conflicts.
Definition detect_atlas (r : ArgusDetectionResult) (min_count : Z) (limit : nat) (now : datetime)
    : M ArgusDetectionResult :=
  if min_count <? 2 then mret r
  else
    high_events ← try_read (ReadRepo.count_open_conflicts_per_event min_count limit);
    match high_events with
    | None => mret (errored "atlas" r)
    | Some high_events => fold_m (detect_event min_count now) r high_events
    end.

Definition wrote_anything (r : ArgusDetectionResult) : bool :=
  0 <? signals_created_count r + signals_reused_count r + evidence_links_created_count r.
Definition run_if (b : bool) (m : ArgusDetectionResult → M ArgusDetectionResult)
    (r : ArgusDetectionResult) : M ArgusDetectionResult := if b then m r else mret r.
Definition execute (input : DetectionInput) : M ArgusDetectionResult :=
  let limit := Z.to_nat (di_recent_limit input) in
  if negb ((1 <=? di_recent_limit input) && (di_recent_limit input <=? 1000))
  then raise (ValueError "recent_limit")
  else
    now ← utc_now;
    r ← run_if (di_include_chronos input) (λ r, detect_chronos r limit now) nothing_detected;
    r ← run_if (di_include_hermes input) (λ r, detect_hermes r limit now) r;
    r ← run_if (di_include_atlas input)
          (λ r, detect_atlas r (di_high_conflict_threshold input) limit now) r;
    let r := if di_include_orion input then skipped "orion" r else r in
    (if wrote_anything r then commit else rollback);;
    mret r.
End RunArgusSignalDetection.

(** ** ReviewArgusSignal *)
Module ReviewArgusSignal.
Definition status_of (d : ArgusReviewDecision) : ArgusSignalStatus :=
  match d with
  | REVIEW_CONFIRMED => SIGNAL_CONFIRMED
  | REVIEW_DISMISSED => SIGNAL_DISMISSED
  | REVIEW_NEEDS_MORE => SIGNAL_NEEDS_MORE_REVIEW
  end.
Definition execute (signal_id : UUID) (decision : ArgusReviewDecision) (expected_version : Z)
    (reviewer_id : option UUID) (note : option string) : M ArgusSignal :=
  signal ← SignalRepo.get signal_id;
  match signal with
  | None => raise (ArgusSignalNotFoundError signal_id)
  | Some s =>
      if negb (sg_version s =? expected_version)
      then raise (ArgusSignalModifiedError signal_id (sg_version s))
      else
        id ← uuid4; created_at ← utc_now;
        SignalReviewRepo.add (mkSignalReview id signal_id decision reviewer_id note created_at);;
        updated ← SignalRepo.update_with_version_check signal_id expected_version (status_of decision);
        match updated with
        | Some updated => commit;; mret updated
        | None =>
            latest ← SignalRepo.get signal_id;
            rollback;;
            raise (ArgusSignalModifiedError signal_id
                     (match latest with Some l => sg_version l | None => sg_version s + 1 end))
        end
  end.
End ReviewArgusSignal.

(** ** ListArgusSignals *)
Module ListArgusSignals.
Definition MAX_ARGUS_SIGNALS_PAGE_SIZE : Z := 500.
Definition bounded_limit (limit : Z) : Z := Z.max 1 (Z.min limit MAX_ARGUS_SIGNALS_PAGE_SIZE).
Definition execute_page status signal_type severity (limit : Z) (cursor : option UUID)
    : M (list ArgusSignal * Z * option UUID) :=
  if limit <? 1 then raise (DomainValidationError "limit must be >= 1")
  else
    let page_limit := bounded_limit limit in
    let n := Z.to_nat page_limit in
    rows ← SignalRepo.list_page status signal_type severity (S n) cursor;
    let items := take n rows in
    mret (items, page_limit,
          if (n <? length rows)%nat then sg_id <$> last items else None).
End ListArgusSignals.
