(* ===== verification/ArgusFacts.v ===== *)
(** What holds of Argus: the complete effect of a detection run, and of a review. *)
From S2P Require Import Prelude Text PyFloat PyVal PyDate Entities ContextEntities Store Json.
From S2P Require Import Logic Publication Paging Wp Argus.
Import RunArgusSignalDetection.
Open Scope string_scope.
Open Scope list_scope.
Open Scope Z_scope.

(** ** Well-formed signals *)
Record argus_ok (db : DB) : Prop := {
  ao_signals k s : signals db !! k = Some s → sg_id s = k;
  ao_keys k k' s s' : signals db !! k = Some s → signals db !! k' = Some s' →
    sg_dedupe_key s = sg_dedupe_key s' → k = k';
  ao_evidence k e : evidence db !! k = Some e → se_id e = k ∧ is_Some (signals db !! se_signal_id e);
  ao_links k k' e e' : evidence db !! k = Some e → evidence db !! k' = Some e' →
    EvidenceRepo.link e = EvidenceRepo.link e' → k = k';
}.

(** The identifiers in use come from the supply. *)
Definition fresh_for (uid : N) (db : DB) : Prop :=
  (∀ k, is_Some (signals db !! k) → (k < uid)%N) ∧ (∀ k, is_Some (evidence db !! k) → (k < uid)%N).

(** The signal of a dedupe key, and whether a piece of evidence is linked. *)
Definition signal_of (key : string) (db : DB) : option ArgusSignal := head (SignalRepo.with_key key db).
Definition has_link (l : UUID * ArgusEvidenceType * UUID) (db : DB) : Prop :=
  ∃ k e, evidence db !! k = Some e ∧ EvidenceRepo.link e = l.

(** All that detection may change. *)
Definition same_but_signals (db db' : DB) : Prop :=
  ∃ m n, db' = set_evidence n (set_signals m db).

Lemma same_but_signals_refl db : same_but_signals db db.
Proof. exists (signals db), (evidence db). destruct db as [? ? ? ? ? ? ? ? ? ? ? ? ? ? ? ? ? ? [] ? ? ?]. done. Qed.
Lemma same_but_signals_trans db1 db2 db3 :
  same_but_signals db1 db2 → same_but_signals db2 db3 → same_but_signals db1 db3.
Proof. intros (m & n & ->) (m' & n' & ->). by exists m', n'. Qed.

Section signal_tables.
Context (db : DB) (Hok : argus_ok db).

Lemma signal_of_spec key s : signal_of key db = Some s ↔ signals db !! sg_id s = Some s ∧ sg_dedupe_key s = key.
Proof using Hok.
  unfold signal_of, SignalRepo.with_key.
  assert (∀ x, x ∈ filter (λ s, sg_dedupe_key s = key) (rows (signals db))
    ↔ signals db !! sg_id x = Some x ∧ sg_dedupe_key x = key) as Hin.
  { intros x. rewrite list_elem_of_filter, (elem_of_table sg_id) by apply (ao_signals _ Hok). tauto. }
  split.
  - intros [l E]%head_Some. apply Hin. rewrite E. by left.
  - intros [Hs Hk]. destruct (filter _ _) as [|x l] eqn:E.
    { assert (s ∈ []) as H by (by apply Hin). by apply elem_of_nil in H. }
    destruct (proj1 (Hin x)) as [Hx Ex]; [by left|]. simpl. f_equal.
    assert (sg_id x = sg_id s) as Eid by (eapply (ao_keys _ Hok); [done|done|congruence]).
    congruence.
Qed.

Lemma signal_of_None key : signal_of key db = None ↔ SignalRepo.with_key key db = [].
Proof using. unfold signal_of. by rewrite head_None. Qed.
End signal_tables.

(** ** One row written *)
Section row_written.
Context (db : DB) (Hok : argus_ok db).

(** A row that replaces the signal of its key, or is the first one of it. *)
Definition fits_in (row : ArgusSignal) : Prop :=
  match signal_of (sg_dedupe_key row) db with
  | Some old => sg_id row = sg_id old
  | None => signals db !! sg_id row = None
  end.

Lemma signal_written row : fits_in row →
  let db' := set_signals (<[sg_id row := row]> (signals db)) db in
  argus_ok db' ∧ signal_of (sg_dedupe_key row) db' = Some row
  ∧ ∀ key, key ≠ sg_dedupe_key row → signal_of key db' = signal_of key db.
Proof using Hok.
  intros Hfit db'.
  assert (∀ k x, signals db !! k = Some x → (sg_id row = k ↔ sg_dedupe_key x = sg_dedupe_key row)) as Hid.
  { intros k x Hx. pose proof (ao_signals _ Hok _ _ Hx) as Ek. unfold fits_in in Hfit.
    destruct (signal_of (sg_dedupe_key row) db) as [old|] eqn:Eo.
    - apply signal_of_spec in Eo as [Ho Eo]; [|done]. split.
      + intros E. rewrite E in Hfit. rewrite <- Hfit, Hx in Ho. by injection Ho as ->.
      + intros E. rewrite Hfit. apply (ao_keys _ Hok _ _ _ _ Ho Hx). congruence.
    - split; [intros <-; congruence|]. intros E. exfalso.
      assert (signal_of (sg_dedupe_key row) db = Some x) as Ex
        by (apply signal_of_spec; [done|rewrite Ek; done]). congruence. }
  assert (argus_ok db') as Hok'.
  { destruct Hok as [H1 H2 H3 H4]. split; change (signals db') with (<[sg_id row := row]> (signals db));
      change (evidence db') with (evidence db).
    - intros k x [[<- <-]|[_ Hx]]%lookup_insert_Some; [done|by apply H1].
    - intros k k' x x' [[<- <-]|[Hn Hx]]%lookup_insert_Some [[<- <-]|[Hn' Hx']]%lookup_insert_Some E;
        [done| | |by eapply H2].
      + by apply (Hid k' x').
      + symmetry. by apply (Hid k x).
    - intros k e He. destruct (H3 k e He) as [Ek Hs]. split; [done|].
      rewrite lookup_insert_is_Some. destruct (decide (sg_id row = se_signal_id e)); tauto.
    - done. }
  split_and!; [done| |].
  - apply signal_of_spec; [done|]. split; [|done]. apply lookup_insert_eq.
  - intros key Hne. apply option_eq. intros x. rewrite !signal_of_spec by done.
    change (signals db') with (<[sg_id row := row]> (signals db)). split.
    + intros [[[E <-]|[_ Hx]]%lookup_insert_Some Ek]; [congruence|done].
    + intros [Hx Ek]. split; [|done]. apply lookup_insert_Some. right. split; [|done].
      intros E. apply (Hid _ x) in E; congruence.
Qed.

Lemma evidence_written e : evidence db !! se_id e = None → EvidenceRepo.linked (EvidenceRepo.link e) db = [] →
  is_Some (signals db !! se_signal_id e) →
  let db' := set_evidence (<[se_id e := e]> (evidence db)) db in
  argus_ok db' ∧ ∀ l, has_link l db' ↔ has_link l db ∨ l = EvidenceRepo.link e.
Proof using Hok.
  intros Hn Hl Hs db'. assert (∀ k x, evidence db !! k = Some x → EvidenceRepo.link x ≠ EvidenceRepo.link e) as Hne.
  { intros k x Hx E. apply (not_elem_of_nil x). rewrite <- Hl. apply list_elem_of_filter.
    split; [done|]. apply elem_of_rows. by exists k. }
  split.
  - destruct Hok as [H1 H2 H3 H4]. split; change (signals db') with (signals db);
      change (evidence db') with (<[se_id e := e]> (evidence db)); [done|done| |].
    + intros k x [[<- <-]|[_ Hx]]%lookup_insert_Some; [done|by apply H3].
    + intros k k' x x' [[<- <-]|[_ Hx]]%lookup_insert_Some [[<- <-]|[_ Hx']]%lookup_insert_Some E;
        [done| | |by eapply H4].
      * by destruct (Hne _ _ Hx').
      * by destruct (Hne _ _ Hx).
  - intros l. unfold has_link. change (evidence db') with (<[se_id e := e]> (evidence db)). split.
    + intros (k & x & [[<- <-]|[_ Hx]]%lookup_insert_Some & <-); [by right|left; eauto].
    + intros [(k & x & Hx & <-)| ->].
      * exists k, x. rewrite lookup_insert_ne; [done|]. intros <-. congruence.
      * exists (se_id e), e. by rewrite lookup_insert_eq.
Qed.
End row_written.

(** ** What one alert does *)
Definition ready (db : DB) (uid : N) : Prop := argus_ok db ∧ fresh_for uid db.
Definition event_known (db : DB) (c : Candidate) : Prop :=
  from_option (λ e, is_Some (db_events db !! e)) True (cd_accident_event_id c).

(** The counters of the result count the rows that were added. *)
Definition counted (r : ArgusDetectionResult) (db : DB) (r' : ArgusDetectionResult) (db' : DB) : Prop :=
  signals_created_count r' - signals_created_count r = Z.of_nat (size (signals db')) - Z.of_nat (size (signals db))
  ∧ evidence_links_created_count r' - evidence_links_created_count r
    = Z.of_nat (size (evidence db')) - Z.of_nat (size (evidence db))
  ∧ (size (evidence db) ≤ size (evidence db'))%nat.
Definition raised (r : ArgusDetectionResult) : Z := signals_created_count r + signals_reused_count r.
Definition engines (r : ArgusDetectionResult) : list string * list string := (engines_errored r, engines_skipped r).

Lemma counted_refl r db : counted r db r db.
Proof. split_and!; lia. Qed.
Lemma counted_trans r1 db1 r2 db2 r3 db3 :
  counted r1 db1 r2 db2 → counted r2 db2 r3 db3 → counted r1 db1 r3 db3.
Proof. intros (? & ? & ?) (? & ? & ?). split_and!; lia. Qed.

Lemma fresh_mono uid uid' db : (uid ≤ uid')%N → fresh_for uid db → fresh_for uid' db.
Proof. intros Hle [H1 H2]. split; intros k Hk; [apply H1 in Hk|apply H2 in Hk]; lia. Qed.

Lemma linked_nil l db : EvidenceRepo.linked l db = [] ↔ ¬ has_link l db.
Proof.
  unfold EvidenceRepo.linked, has_link. split.
  - intros E (k & e & He & Hl). apply (not_elem_of_nil e). rewrite <- E.
    apply list_elem_of_filter. split; [done|]. apply elem_of_rows. by exists k.
  - intros Hn. apply list_filter_none, Forall_forall. intros e [k Hk]%elem_of_rows Hl. by apply Hn; exists k, e.
Qed.
Lemma NoDup_all_eq {A} (l : list A) x : NoDup l → x ∈ l → (∀ y, y ∈ l → y = x) → l = [x].
Proof.
  intros Hnd Hx Hall. destruct l as [|y [|z l]]; [by apply elem_of_nil in Hx| |].
  - by rewrite (Hall y) by (by left).
  - exfalso. rewrite (Hall y), (Hall z) in Hnd by set_solver. apply NoDup_cons in Hnd as [[] _]. by left.
Qed.
Lemma linked_one l db : argus_ok db → has_link l db → ∃ e, EvidenceRepo.linked l db = [e].
Proof.
  intros Hok (k & e & He & Hl). exists e. unfold EvidenceRepo.linked.
  pose proof (λ k e H, proj1 (ao_evidence _ Hok k e H)) as Hkeys.
  assert (∀ x, x ∈ filter (λ e, EvidenceRepo.link e = l) (rows (evidence db))
    ↔ evidence db !! se_id x = Some x ∧ EvidenceRepo.link x = l) as Hin.
  { intros x. rewrite list_elem_of_filter, (elem_of_table se_id) by done. tauto. }
  rewrite <- (Hkeys _ _ He) in He. apply NoDup_all_eq.
  - by apply NoDup_filter, (NoDup_table se_id).
  - by apply Hin.
  - intros x [Hx Hxl]%Hin.
    assert (se_id x = se_id e) as E by (eapply (ao_links _ Hok); [done|done|congruence]). congruence.
Qed.

Lemma twp_evidence sid engine e r Q db com now uid :
  ready db uid → is_Some (signals db !! sid) →
  (∀ r' db' now' uid', ready db' uid' → signals db' = signals db → same_but_signals db db' →
     (∀ l, has_link l db' ↔ has_link l db ∨ l = (sid, e.1.1, e.1.2)) →
     counted r db r' db' → raised r' = raised r → engines r' = engines r →
     Q r' db' com now' uid') →
  twp (upsert_evidence sid engine e r) Q db com now uid.
Proof.
  intros [Hok Hf] Hs HQ. unfold upsert_evidence, EvidenceRepo.upsert_evidence, EvidenceRepo.insert.
  repeat twp_step.
  set (ev := mkEvidence uid sid e.1.1 e.1.2 engine (Some e.2) now).
  set (lk := (sid, e.1.1, e.1.2)) in *.
  destruct (EvidenceRepo.linked (EvidenceRepo.link ev) db) as [|old others] eqn:El.
  - assert (evidence db !! uid = None) as Hn.
    { destruct (evidence db !! uid) eqn:E; [|done]. exfalso.
      assert (uid < uid)%N by (apply Hf; by rewrite E). lia. }
    set (row := EvidenceRepo.at_time (now + 1) ev).
    eapply twp_stmt.
    { rewrite El. change (se_id ev) with uid. change (se_signal_id ev) with sid. rewrite Hn.
      destruct Hs as [s ->]. reflexivity. }
    fold row. change (se_id row) with uid. twp_go.
    destruct (evidence_written db Hok row) as [Hok' Hlinks]; [done|exact El|exact Hs|].
    change (se_id row) with uid in Hok', Hlinks. apply HQ; try done.
    + split; [done|]. split; intros k; [|change (evidence (set_evidence ?m _)) with m].
      * intros Hk. apply Hf in Hk. lia.
      * rewrite lookup_insert_is_Some. intros [<-|[_ Hk]]; [lia|]. apply Hf in Hk. lia.
    + exists (signals db), (<[uid := row]> (evidence db)). by destruct db as [? ? ? ? ? ? ? ? ? ? ? ? ? ? ? ? ? ? [] ? ? ?].
    + unfold counted. cbn [signals_created_count evidence_links_created_count].
      change (evidence (set_evidence ?m _)) with m. change (signals (set_evidence _ ?d)) with (signals d).
      rewrite map_size_insert_None by done. lia.
  - assert (has_link lk db) as Hl.
    { assert (old ∈ EvidenceRepo.linked lk db) as Ho by (change lk with (EvidenceRepo.link ev); rewrite El; by left).
      apply list_elem_of_filter in Ho as [Ho [k Hk]%elem_of_rows]. by exists k, old. }
    destruct (linked_one lk db Hok Hl) as [x Ex].
    eapply twp_stmt; [by rewrite El|]. twp_go. eapply twp_scalar.
    { change (EvidenceRepo.link ev) with lk. rewrite Ex. reflexivity. }
    twp_go. apply HQ; try done.
    + split; [done|]. eapply fresh_mono; [|done]. lia.
    + apply same_but_signals_refl.
    + intros l. split; [by left|]. by intros [| ->].
    + apply counted_refl.
Qed.

Lemma twp_evidence_list sid engine l : ∀ r Q db com now uid,
  ready db uid → is_Some (signals db !! sid) →
  (∀ r' db' now' uid', ready db' uid' → signals db' = signals db → same_but_signals db db' →
     (∀ k, has_link k db' ↔ has_link k db ∨ ∃ e, e ∈ l ∧ k = (sid, e.1.1, e.1.2)) →
     counted r db r' db' → raised r' = raised r → engines r' = engines r → Q r' db' com now' uid') →
  twp (fold_m (λ r e, upsert_evidence sid engine e r) r l) Q db com now uid.
Proof.
  induction l as [|e l IH]; intros r Q db com now uid Hr Hs HQ; cbn [fold_m].
  - apply twp_ret, HQ; try done; [apply same_but_signals_refl| |apply counted_refl].
    intros k. split; [by left|]. intros [|(e & ?%elem_of_nil & _)]; done.
  - apply twp_bind, twp_evidence; [done|done|].
    intros r1 db1 n1 u1 Hr1 Es1 Hsame1 Hl1 Hc1 Hra1 He1. apply IH; [done|by rewrite Es1|].
    intros r2 db2 n2 u2 Hr2 Es2 Hsame2 Hl2 Hc2 Hra2 He2. apply HQ; try congruence; try done.
    + by eapply same_but_signals_trans.
    + intros k. rewrite Hl2, Hl1. split.
      * intros [[| ->]|(e' & He' & ->)]; [by left|right; exists e; split; [by left|done]|].
        right. exists e'. split; [by right|done].
      * intros [|(e' & [ ->|He']%elem_of_cons & ->)]; [by left; left|by left; right|right; by exists e'].
    + by eapply counted_trans.
Qed.

(** The stored signal of an incoming one. *)
Definition settled (now : datetime) (c : Candidate) (old : option ArgusSignal) (s : ArgusSignal) : Prop :=
  ∃ id t t1 t2, let incoming := mkSignal id (cd_signal_type c) SIGNAL_OPEN (cd_severity c) (cd_confidence c)
    (cd_title c) (Some (cd_description c)) (cd_accident_event_id c) (cd_source_engine c) (cd_dedupe_key c) 1
    now now t1 t2 in
  s = match old with
      | Some old => SignalRepo.refreshed t incoming old
      | None => SignalRepo.new_row t incoming
      end.

Lemma settled_key now c old s : settled now c old s →
  match old with Some o => sg_dedupe_key o = cd_dedupe_key c | None => True end →
  sg_dedupe_key s = cd_dedupe_key c.
Proof. intros (id & t & t1 & t2 & ->). by destruct old. Qed.

Lemma twp_signal c moment r Q db com now uid :
  ready db uid → event_known db c →
  (∀ s r' db' now' uid', ready db' uid' → same_but_signals db db' → evidence db' = evidence db →
     settled moment c (signal_of (cd_dedupe_key c) db) s → signal_of (cd_dedupe_key c) db' = Some s →
     signals db' !! sg_id s = Some s →
     (∀ key, key ≠ cd_dedupe_key c → signal_of key db' = signal_of key db) →
     counted r db r' db' → raised r' = raised r + 1 → engines r' = engines r →
     Q (s, r') db' com now' uid') →
  twp (s ← new_signal c moment; upsert_signal s r) Q db com now uid.
Proof.
  intros [Hok Hf] Hev HQ. unfold new_signal, upsert_signal, SignalRepo.upsert_signal. twp_go.
  set (inc := mkSignal uid _ _ _ _ _ _ _ _ _ _ _ _ _ _).
  change (sg_dedupe_key inc) with (cd_dedupe_key c) in *.
  destruct (SignalRepo.with_key (cd_dedupe_key c) db) as [|old others] eqn:El.
  - assert (signal_of (cd_dedupe_key c) db = None) as Hno by (by apply signal_of_None).
    assert (signals db !! uid = None) as Hn.
    { destruct (signals db !! uid) eqn:E; [|done]. exfalso.
      assert (uid < uid)%N by (apply (proj1 Hf); by rewrite E). lia. }
    set (row := SignalRepo.new_row (now + 1 + 1) inc).
    destruct (signal_written db Hok row) as (Hok' & Hs' & Hother).
    { unfold fits_in. change (sg_dedupe_key row) with (cd_dedupe_key c). by rewrite Hno. }
    eapply twp_stmt.
    { rewrite El. change (sg_id inc) with uid. rewrite Hn. change (sg_accident_event_id inc) with (cd_accident_event_id c).
      assert (from_option (λ e, bool_decide (is_Some (db_events db !! e))) true (cd_accident_event_id c) = true) as ->.
      { unfold event_known in Hev. destruct (cd_accident_event_id c); [|done]. by apply bool_decide_eq_true. }
      reflexivity. }
    fold row. change (sg_id row) with uid in *. twp_go. apply HQ; try done.
    + split; [done|]. split; intros k; [change (signals (set_signals ?m _)) with m|].
      * rewrite lookup_insert_is_Some. intros [<-|[_ Hk]]; [lia|]. apply (proj1 Hf) in Hk. lia.
      * intros Hk. apply (proj2 Hf) in Hk. lia.
    + exists (<[uid := row]> (signals db)), (evidence db).
      by destruct db as [? ? ? ? ? ? ? ? ? ? ? ? ? ? ? ? ? ? [] ? ? ?].
    + rewrite Hno. by exists uid, (now + 1 + 1), now, (now + 1).
    + apply lookup_insert_eq.
    + unfold counted. cbn [signals_created_count evidence_links_created_count].
      change (signals (set_signals ?m _)) with m. change (evidence (set_signals _ ?d)) with (evidence d).
      rewrite map_size_insert_None by done. lia.
    + unfold raised. simpl. lia.
  - assert (signal_of (cd_dedupe_key c) db = Some old) as Ho by (unfold signal_of; by rewrite El).
    apply signal_of_spec in Ho as [Hold Ekey]; [|done].
    assert (signal_of (cd_dedupe_key c) db = Some old) as Ho by (by apply signal_of_spec).
    set (row := SignalRepo.refreshed (now + 1 + 1) inc old).
    destruct (signal_written db Hok row) as (Hok' & Hs' & Hother).
    { unfold fits_in. change (sg_dedupe_key row) with (sg_dedupe_key old). by rewrite Ekey, Ho. }
    change (sg_dedupe_key row) with (sg_dedupe_key old) in Hs', Hother. rewrite Ekey in Hs', Hother.
    eapply twp_stmt; [by rewrite El|].
    fold row. change (sg_id row) with (sg_id old) in *. twp_go. apply HQ; try done.
    + split; [done|]. split; intros k; [change (signals (set_signals ?m _)) with m|].
      * rewrite lookup_insert_is_Some. intros [<-|[_ Hk]]; [|apply (proj1 Hf) in Hk; lia].
        assert (sg_id old < uid)%N by (apply (proj1 Hf); by rewrite Hold). lia.
      * intros Hk. apply (proj2 Hf) in Hk. lia.
    + exists (<[sg_id old := row]> (signals db)), (evidence db).
      by destruct db as [? ? ? ? ? ? ? ? ? ? ? ? ? ? ? ? ? ? [] ? ? ?].
    + rewrite Ho. by exists uid, (now + 1 + 1), now, (now + 1).
    + apply lookup_insert_eq.
    + unfold counted. cbn [signals_created_count evidence_links_created_count].
      change (signals (set_signals ?m _)) with m. change (evidence (set_signals _ ?d)) with (evidence d).
      rewrite map_size_insert_Some by done. lia.
    + unfold raised. simpl. lia.
Qed.

(** ** Alerts one after the other *)
Abbreviation alert := (Candidate * list (ArgusEvidenceType * UUID * string))%type.
Definition key_of (a : alert) : string := cd_dedupe_key a.1.
Definition candidates_for (key : string) (l : list alert) : list Candidate :=
  fst <$> filter (λ a, key_of a = key) l.

Inductive Settles (now : datetime) : list Candidate → option ArgusSignal → option ArgusSignal → Prop :=
  | settles_none o : Settles now [] o o
  | settles_next l o o' c s : Settles now l o o' → settled now c o' s → Settles now (l ++ [c]) o (Some s).

(** What the alerts [l] leave of the signals and their evidence. *)
Definition after (now : datetime) (l : list alert) (db db' : DB) : Prop :=
  (∀ key, Settles now (candidates_for key l) (signal_of key db) (signal_of key db'))
  ∧ ∀ k, has_link k db' ↔ has_link k db
      ∨ ∃ a e s, a ∈ l ∧ e ∈ a.2 ∧ signal_of (key_of a) db' = Some s ∧ k = (sg_id s, e.1.1, e.1.2).

Lemma after_none now db : after now [] db db.
Proof.
  split; [intros key; constructor|]. intros k. split; [by left|].
  intros [|(a & e & s & Ha & _)]; [done|]. by apply elem_of_nil in Ha.
Qed.

Lemma candidates_snoc key l a :
  candidates_for key (l ++ [a]) = candidates_for key l ++ (if decide (key_of a = key) then [a.1] else []).
Proof. unfold candidates_for. rewrite filter_app, fmap_app, filter_cons, filter_nil. by case_decide. Qed.

(** One more alert: its signal settled, its evidence linked. *)
Lemma after_snoc now l a db db1 db2 s :
  after now l db db1 →
  settled now a.1 (signal_of (key_of a) db1) s → signal_of (key_of a) db2 = Some s →
  (∀ key, key ≠ key_of a → signal_of key db2 = signal_of key db1) →
  (∀ k, has_link k db2 ↔ has_link k db1 ∨ ∃ e, e ∈ a.2 ∧ k = (sg_id s, e.1.1, e.1.2)) →
  after now (l ++ [a]) db db2.
Proof.
  intros [Hs Hl] Hset Hs2 Hother Hl2. split.
  - intros key. rewrite candidates_snoc. case_decide as Ek.
    + subst key. rewrite Hs2. by eapply settles_next.
    + rewrite app_nil_r, Hother by done. apply Hs.
  - assert (∀ b x, signal_of (key_of b) db1 = Some x →
      ∃ y, signal_of (key_of b) db2 = Some y ∧ sg_id y = sg_id x) as Hid.
    { intros b x Hx. destruct (decide (key_of b = key_of a)) as [Ek|Hne].
      - rewrite Ek in *. exists s. split; [done|]. rewrite Hx in Hset. by destruct Hset as (? & ? & ? & ? & ->).
      - exists x. by rewrite Hother. }
    intros k. rewrite Hl2, Hl. split.
    + intros [[|(b & e & x & Hb & He & Hx & ->)]|(e & He & ->)]; [by left| |]; right.
      * apply Hid in Hx as (y & Hy & Ey). exists b, e, y. rewrite Ey. split_and!; try done. set_solver.
      * exists a, e, s. split_and!; try done. set_solver.
    + intros [|(b & e & y & [Hb| ->%list_elem_of_singleton]%elem_of_app & He & Hy & ->)]; [by left; left| |].
      * left. right.
        assert (∃ x, signal_of (key_of b) db1 = Some x) as [x Hx].
        { specialize (Hs (key_of b)). inversion Hs as [o E|l' o o' c x _ _ E]; [|by eexists].
          exfalso. assert (b.1 ∈ candidates_for (key_of b) l) as Hin.
          { apply list_elem_of_fmap. exists b. split; [done|]. by apply list_elem_of_filter. }
          rewrite <- E in Hin. by apply elem_of_nil in Hin. }
        exists b, e, x. split_and!; try done. apply Hid in Hx as (y' & Hy' & Ey). congruence.
      * right. exists e. rewrite Hs2 in Hy. injection Hy as <-. done.
Qed.

Definition events_known (db : DB) (l : list alert) : Prop := Forall (λ a, event_known db a.1) l.
Lemma event_known_same db db' c : same_but_signals db db' → event_known db c → event_known db' c.
Proof. by intros (m & n & ->). Qed.

(** The state of a run that raised [l] since [db0] and is to raise more. *)
Record progress (t : datetime) (db0 : DB) (l : list alert) (r : ArgusDetectionResult)
    (db : DB) (uid : N) : Prop := {
  pr_ready : ready db uid;
  pr_same : same_but_signals db0 db;
  pr_after : after t l db0 db;
  pr_counted : counted nothing_detected db0 r db;
  pr_raised : raised r = Z.of_nat (length l);
  pr_none : l = [] → r = nothing_detected;
}.

(** The signal, and a program [k] that links the evidence of the alert. *)
Lemma raise_with t db0 l a (k : ArgusSignal → ArgusDetectionResult → M ArgusDetectionResult) r Q db com now uid :
  (∀ s r Q db com now uid, same_but_signals db0 db →
     twp (fold_m (λ r e, upsert_evidence (sg_id s) (cd_source_engine a.1) e r) r a.2) Q db com now uid →
     twp (k s r) Q db com now uid) →
  progress t db0 l r db uid → event_known db0 a.1 →
  (∀ r' db' now' uid', progress t db0 (l ++ [a]) r' db' uid' → engines r' = engines r → Q r' db' com now' uid') →
  twp (s ← new_signal a.1 t; '(s, r) ← upsert_signal s r; k s r) Q db com now uid.
Proof.
  intros Hk [Hr Hsame Hafter Hc Hra Hno] Hev HQ.
  apply twp_assoc, twp_bind, twp_signal; [done|by eapply event_known_same|].
  intros s r1 db1 n1 u1 Hr1 Hsame1 Eev1 Hset Hs1 Hst Hother Hc1 Hra1 He1.
  assert (same_but_signals db0 db1) as Hsame01 by by eapply same_but_signals_trans.
  apply Hk; [done|]. apply twp_evidence_list; [done|by eexists|].
  intros r2 db2 n2 u2 Hr2 Esig2 Hsame2 Hl2 Hc2 Hra2 He2. apply HQ; [split|congruence].
  - done.
  - by eapply same_but_signals_trans.
  - assert (∀ key, signal_of key db2 = signal_of key db1) as Esig
      by (intros key; unfold signal_of, SignalRepo.with_key; by rewrite Esig2).
    eapply (after_snoc _ _ _ _ db); [done|exact Hset|by rewrite Esig| |].
    + intros key Hne. rewrite Esig. by apply Hother.
    + intros lk. rewrite Hl2. unfold has_link at 1. by rewrite Eev1.
  - eapply counted_trans; [|exact Hc2]. by eapply counted_trans.
  - rewrite length_app. simpl. lia.
  - by destruct l.
Qed.

Lemma raise_progress t db0 l a r Q db com now uid :
  progress t db0 l r db uid → event_known db0 a.1 →
  (∀ r' db' now' uid', progress t db0 (l ++ [a]) r' db' uid' → engines r' = engines r → Q r' db' com now' uid') →
  twp (raise_signal t r a) Q db com now uid.
Proof. intros Hp Hev HQ. by eapply raise_with. Qed.

Lemma fold_progress {A} (f : ArgusDetectionResult → A → M ArgusDetectionResult) (g : A → list alert) t db0 xs :
  (∀ x l r Q db com now uid, x ∈ xs → progress t db0 l r db uid →
     (∀ r' db' now' uid', progress t db0 (l ++ g x) r' db' uid' → engines r' = engines r → Q r' db' com now' uid') →
     twp (f r x) Q db com now uid) →
  ∀ l r Q db com now uid, progress t db0 l r db uid →
  (∀ r' db' now' uid', progress t db0 (l ++ flat_map g xs) r' db' uid' → engines r' = engines r →
     Q r' db' com now' uid') →
  twp (fold_m f r xs) Q db com now uid.
Proof.
  intros Hf. induction xs as [|x xs IH]; intros l r Q db com now uid Hp HQ; cbn [fold_m flat_map].
  - apply twp_ret, HQ; [|done]. by rewrite app_nil_r.
  - apply twp_bind. eapply Hf; [by left|exact Hp|]. intros r1 db1 n1 u1 Hp1 He1.
    eapply IH; [|exact Hp1|].
    + intros y. intros. eapply Hf; [by right|done|done].
    + intros r2 db2 n2 u2 Hp2 He2. apply HQ; [|congruence]. by rewrite <- app_assoc in Hp2.
Qed.

Lemma fold_m_fmap {R A B} (f : R → B → M R) (g : A → B) r l w :
  fold_m (λ r x, f r (g x)) r l w = fold_m f r (g <$> l) w.
Proof.
  revert r w. induction l as [|x l IH]; intros r w; [done|]. cbn. unfold mbind, M_bind.
  destruct (f r (g x) w) as [[r'|e] w']; [apply IH|done].
Qed.
Lemma fold_m_filter {R A} (f : R → A → M R) (P : A → Prop) `{∀ x, Decision (P x)} r l w :
  fold_m (λ r x, if decide (P x) then f r x else mret r) r l w = fold_m f r (filter P l) w.
Proof.
  revert r w. induction l as [|x l IH]; intros r w; [done|]. rewrite filter_cons. cbn.
  unfold mbind, M_bind. case_decide; cbn; unfold mbind, M_bind; [|apply IH].
  destruct (f r x w) as [[r'|e] w']; [apply IH|done].
Qed.

(** ** The alerts of a run *)
Definition event_conflicts (event_id : UUID) (db : DB) : list ClaimConflict :=
  ConflictRepo.load db <$> py_sorted ConflictRepo.newest_first
    (filter (λ c, cf_event_id c = event_id) (rows (db_conflicts db))).
Definition conflict_alert (min_count : Z) (db : DB) (g : UUID * Z) : alert :=
  (conflict_candidate min_count g,
   conflict_evidence <$> filter (λ c, cf_status c = OPEN) (event_conflicts g.1 db)).

Definition chronos_alerts (limit : nat) (db : DB) : list alert :=
  sequence_alert <$> ReadRepo.pending limit db.
Definition hermes_alerts (limit : nat) (db : DB) : list alert :=
  let changes := ReadRepo.recent limit db in
  (change_alert <$> filter is_news changes)
  ++ (spike_alert <$> filter is_spike (failures_by_target changes)).
Definition atlas_alerts (min_count : Z) (limit : nat) (db : DB) : list alert :=
  if min_count <? 2 then []
  else conflict_alert min_count db <$> ReadRepo.high_conflict_events min_count limit db.
Definition alerts (input : DetectionInput) (db : DB) : list alert :=
  let limit := Z.to_nat (di_recent_limit input) in
  (if di_include_chronos input then chronos_alerts limit db else [])
  ++ (if di_include_hermes input then hermes_alerts limit db else [])
  ++ (if di_include_atlas input then atlas_alerts (di_high_conflict_threshold input) limit db else []).

Lemma flat_map_single {A B} (g : A → B) l : flat_map (λ x, [g x]) l = g <$> l.
Proof. induction l as [|x l IH]; [done|]. cbn. by rewrite IH. Qed.

(** Raising a list of alerts. *)
Lemma raise_all {A} (g : A → alert) t db0 xs l r Q db com now uid :
  progress t db0 l r db uid → events_known db0 (g <$> xs) →
  (∀ r' db' now' uid', progress t db0 (l ++ (g <$> xs)) r' db' uid' → engines r' = engines r →
     Q r' db' com now' uid') →
  twp (fold_m (λ r x, raise_signal t r (g x)) r xs) Q db com now uid.
Proof.
  intros Hp Hev HQ. eapply (fold_progress _ (λ x, [g x])); [|exact Hp|by rewrite flat_map_single].
  intros x l' r' Q' d c n u Hx Hp' HQ'. eapply raise_progress; [done| |done].
  unfold events_known in Hev. rewrite Forall_fmap, Forall_forall in Hev. by apply (Hev x).
Qed.

Section engines.
Context (t : datetime) (db0 : DB) (limit : nat).

Lemma chronos_progress l r Q db com now uid :
  progress t db0 l r db uid → events_known db0 (chronos_alerts limit db0) →
  (∀ r' db' now' uid', progress t db0 (l ++ chronos_alerts limit db0) r' db' uid' → engines r' = engines r →
     Q r' db' com now' uid') →
  twp (detect_chronos r limit t) Q db com now uid.
Proof.
  intros Hp Hev HQ. unfold detect_chronos, try_read, ReadRepo.list_pending. twp_go.
  assert (ReadRepo.pending limit db = ReadRepo.pending limit db0) as ->
    by (by destruct (pr_same _ _ _ _ _ _ Hp) as (m & n & ->)).
  by eapply raise_all.
Qed.

Lemma hermes_progress l r Q db com now uid :
  progress t db0 l r db uid → events_known db0 (hermes_alerts limit db0) →
  (∀ r' db' now' uid', progress t db0 (l ++ hermes_alerts limit db0) r' db' uid' → engines r' = engines r →
     Q r' db' com now' uid') →
  twp (detect_hermes r limit t) Q db com now uid.
Proof.
  intros Hp [Hev1 Hev2]%Forall_app HQ. unfold detect_hermes, try_read, ReadRepo.list_recent. twp_go.
  assert (ReadRepo.recent limit db = ReadRepo.recent limit db0) as ->
    by (by destruct (pr_same _ _ _ _ _ _ Hp) as (m & n & ->)).
  eapply raise_all; [done|done|]. intros r1 db1 n1 u1 Hp1 He1.
  eapply twp_ext; [intros w; apply fold_m_filter|].
  eapply raise_all; [done|done|]. intros r2 db2 n2 u2 Hp2 He2. apply HQ; [|congruence].
  unfold hermes_alerts. by rewrite app_assoc.
Qed.

Lemma atlas_progress min_count l r Q db com now uid :
  progress t db0 l r db uid → events_known db0 (atlas_alerts min_count limit db0) →
  (∀ r' db' now' uid', progress t db0 (l ++ atlas_alerts min_count limit db0) r' db' uid' →
     engines r' = engines r → Q r' db' com now' uid') →
  twp (detect_atlas r min_count limit t) Q db com now uid.
Proof.
  intros Hp Hev HQ. unfold detect_atlas, atlas_alerts in *. destruct (min_count <? 2) eqn:Em.
  { apply twp_ret, HQ; [by rewrite app_nil_r|done]. }
  unfold try_read, ReadRepo.count_open_conflicts_per_event. rewrite Em. twp_go.
  assert (ReadRepo.high_conflict_events min_count limit db = ReadRepo.high_conflict_events min_count limit db0) as ->
    by (by destruct (pr_same _ _ _ _ _ _ Hp) as (m & n & ->)).
  unfold events_known in Hev. rewrite Forall_fmap, Forall_forall in Hev.
  eapply (fold_progress _ (λ g, [conflict_alert min_count db0 g])); [|exact Hp|by rewrite flat_map_single].
  intros g l' r' Q' d c n u Hg Hp' HQ'. unfold detect_event.
  eapply (raise_with t db0 l' (conflict_alert min_count db0 g)
    (λ s r, conflicts ← ConflictRepo.find_by_event g.1;
            fold_m (λ r c, if decide (cf_status c = OPEN) then upsert_evidence (sg_id s) "atlas" (conflict_evidence c) r
                           else mret r) r conflicts)); [|exact Hp'|by apply (Hev g)|exact HQ'].
  intros s r1 Q1 d1 c1 n1 u1 Hsame Ht. unfold ConflictRepo.find_by_event. twp_go.
  change (twp (fold_m (λ r c, if decide (cf_status c = OPEN)
    then upsert_evidence (sg_id s) "atlas" (conflict_evidence c) r else mret r) r1 (event_conflicts g.1 d1)) Q1 d1 c1 n1 u1).
  assert (event_conflicts g.1 d1 = event_conflicts g.1 db0) as -> by (by destruct Hsame as (m & k & ->)).
  eapply twp_ext; [intros w; rewrite fold_m_filter; apply (fold_m_fmap (λ r e, upsert_evidence (sg_id s) "atlas" e r))|].
  revert Ht. by destruct g as [e k]; unfold conflict_alert, conflict_candidate; destruct (severity_for_atlas_high_conflict k).
Qed.
End engines.

(** ** The outcome *)
Definition worse (a b : ArgusSeverity) : ArgusSeverity := if severity_rank a <? severity_rank b then b else a.
Definition surer (a b : float) : float := if f_ltb a b then b else a.
(** A signal with the given state of review, and the candidates raised on top of it. *)
Definition with_candidates (now t : datetime) (status : ArgusSignalStatus) (cs : list Candidate)
    (s : ArgusSignal) : ArgusSignal :=
  mkSignal (sg_id s) (sg_signal_type s) status
    (fold_left worse (cd_severity <$> cs) (sg_severity s)) (fold_left surer (cd_confidence <$> cs) (sg_confidence s))
    (sg_title s) (sg_description s) (sg_accident_event_id s) (sg_source_engine s) (sg_dedupe_key s)
    (sg_version s) (sg_first_detected_at s) now (sg_created_at s) t.
Definition opened (id : UUID) (now t : datetime) (c : Candidate) : ArgusSignal :=
  mkSignal id (cd_signal_type c) SIGNAL_OPEN (cd_severity c) (cd_confidence c) (cd_title c)
    (Some (cd_description c)) (cd_accident_event_id c) (cd_source_engine c) (cd_dedupe_key c) 1 now now t t.
Definition reopened (s : ArgusSignalStatus) : ArgusSignalStatus :=
  if decide (s = SIGNAL_AUTO_RESOLVED) then SIGNAL_OPEN else s.

(** The signal of a key before and after its candidates. *)
Definition outcome (now : datetime) (cs : list Candidate) (old new : option ArgusSignal) : Prop :=
  match cs, old with
  | [], _ => new = old
  | _, Some s => ∃ t, new = Some (with_candidates now t (reopened (sg_status s)) cs s)
  | c :: cs, None => ∃ id t t', new = Some (with_candidates now t' SIGNAL_OPEN cs (opened id now t c))
  end.

Lemma reopened_twice s : reopened (reopened s) = reopened s.
Proof. by destruct s. Qed.

Lemma with_candidates_snoc now t u status cs c s id t1 t2 :
  SignalRepo.refreshed t (mkSignal id (cd_signal_type c) SIGNAL_OPEN (cd_severity c) (cd_confidence c)
    (cd_title c) (Some (cd_description c)) (cd_accident_event_id c) (cd_source_engine c) (cd_dedupe_key c) 1
    now now t1 t2) (with_candidates now u status cs s)
  = with_candidates now t (reopened status) (cs ++ [c]) s.
Proof. unfold with_candidates. by rewrite !fmap_app, !fold_left_app. Qed.

Lemma settles_outcome now cs old new : Settles now cs old new → outcome now cs old new.
Proof.
  induction 1 as [o|l o o' c s _ IH (id & t & t1 & t2 & ->)]; [by destruct o|].
  destruct l as [|c0 l]; simpl in IH.
  - subst o'. destruct o as [o|]; simpl; [by exists t|].
    by exists id, t, t.
  - destruct o as [o|]; simpl.
    + destruct IH as [u ->]. exists t. f_equal. rewrite with_candidates_snoc. by rewrite reopened_twice.
    + destruct IH as (i & u & u' & ->). exists i, u, t. f_equal. by rewrite with_candidates_snoc.
Qed.

(** ** Detection *)
Lemma same_but_signals_eq db db' : same_but_signals db db' → signals db' = signals db →
  evidence db' = evidence db → db' = db.
Proof.
  intros (m & n & ->). change (signals (set_evidence _ (set_signals ?m _))) with m.
  change (evidence (set_evidence ?n _)) with n. intros -> ->.
  by destruct db as [? ? ? ? ? ? ? ? ? ? ? ? ? ? ? ? ? ? [] ? ? ?].
Qed.

Section detection.
Context (input : DetectionInput) (db : DB).

Lemma if_progress (b : bool) t (m : ArgusDetectionResult → M ArgusDetectionResult) (l1 : list alert) l r Q d com now uid :
  progress t db l r d uid →
  (b = true → ∀ r Q d now uid, progress t db l r d uid →
     (∀ r' d' now' uid', progress t db (l ++ l1) r' d' uid' → engines r' = engines r → Q r' d' com now' uid') →
     twp (m r) Q d com now uid) →
  (∀ r' d' now' uid', progress t db (l ++ (if b then l1 else [])) r' d' uid' → engines r' = engines r →
     Q r' d' com now' uid') →
  twp (run_if b m r) Q d com now uid.
Proof.
  intros Hp Hm HQ. destruct b; [by apply Hm|]. apply twp_ret, HQ; [by rewrite app_nil_r|done].
Qed.

Lemma progress_skipped t l r d uid e : progress t db l r d uid →
  counted nothing_detected db (skipped e r) d ∧ raised (skipped e r) = Z.of_nat (length l).
Proof. by intros []. Qed.

Lemma progress_wrote t l r d uid : progress t db l r d uid → wrote_anything r = negb (bool_decide (l = [])).
Proof.
  intros [_ _ _ (_ & Hl & Hle) Hra Hno]. unfold wrote_anything. destruct l as [|a l]; [by rewrite Hno|].
  unfold raised in Hra. cbn in Hra, Hl. apply Z.ltb_lt. lia.
Qed.

(** C31: a detection run of Argus returns, and its complete effect is the one of the alerts
    that the engines' tables call for, in order: a dedupe key nobody raised keeps its signal;
    a signal of a raised key keeps its identity, text, version and review status -- only
    AUTO_RESOLVED opens again --, its severity and confidence become the highest seen and
    never fall; a key without a signal gets one OPEN signal of version 1; the evidence of
    every alert is linked to the signal of its key, once, and no other link appears; the
    counters count the rows added; all of it is committed, and nothing else changes. *)
Theorem detection_effect now uid :
  ready db uid → 1 <= di_recent_limit input <= 1000 → events_known db (alerts input db) →
  ∃ r db' now' uid', execute input (session db db now uid) = (Ok r, session db' db' now' uid')
    ∧ same_but_signals db db' ∧ argus_ok db'
    ∧ (∀ key, outcome now (candidates_for key (alerts input db)) (signal_of key db) (signal_of key db'))
    ∧ (∀ l, has_link l db' ↔ has_link l db ∨ ∃ a e s, a ∈ alerts input db ∧ e ∈ a.2
         ∧ signal_of (key_of a) db' = Some s ∧ l = (sg_id s, e.1.1, e.1.2))
    ∧ counted nothing_detected db r db' ∧ raised r = Z.of_nat (length (alerts input db))
    ∧ engines r = ([], if di_include_orion input then ["orion"] else []).
Proof.
  intros Hr Hlim Hev. unfold events_known in Hev. unfold execute.
  destruct (negb _) eqn:Eg; [rewrite negb_true_iff in Eg; lia|]. clear Eg.
  cut (twp (now ← utc_now;
    r ← run_if (di_include_chronos input) (λ r, detect_chronos r (Z.to_nat (di_recent_limit input)) now) nothing_detected;
    r ← run_if (di_include_hermes input) (λ r, detect_hermes r (Z.to_nat (di_recent_limit input)) now) r;
    r ← run_if (di_include_atlas input) (λ r, detect_atlas r (di_high_conflict_threshold input) (Z.to_nat (di_recent_limit input)) now) r;
    let r := if di_include_orion input then skipped "orion" r else r in
    (if wrote_anything r then commit else rollback);; mret r)
    (λ r db' com' _ _, com' = db' ∧ same_but_signals db db' ∧ argus_ok db' ∧ after now (alerts input db) db db'
       ∧ counted nothing_detected db r db' ∧ raised r = Z.of_nat (length (alerts input db))
       ∧ engines r = ([], if di_include_orion input then ["orion"] else [])) db db now uid).
  { intros (r & db' & com' & now' & uid' & E & -> & H1 & H2 & [H3 H4] & H5 & H6 & H7).
    exists r, db', now', uid'. split_and!; try done. intros key. by apply settles_outcome. }
  unfold alerts in *. apply Forall_app in Hev as [Hev1 Hev]. apply Forall_app in Hev as [Hev2 Hev3].
  twp_go. eapply (if_progress _ now _ (chronos_alerts _ db) []).
  { split; [destruct Hr as [Ho Hf]; split; [exact Ho|exact Hf]|apply same_but_signals_refl|apply after_none
      |apply counted_refl|done|done]. }
  { intros Hb. rewrite Hb in Hev1. intros. by eapply chronos_progress. }
  intros r1 d1 n1 u1 Hp1 He1. twp_go. eapply if_progress; [exact Hp1| |].
  { intros Hb. rewrite Hb in Hev2. intros. by eapply hermes_progress. }
  intros r2 d2 n2 u2 Hp2 He2. twp_go. eapply if_progress; [exact Hp2| |].
  { intros Hb. rewrite Hb in Hev3. intros. by eapply atlas_progress. }
  intros r3 d3 n3 u3 Hp3 He3. rewrite <- !app_assoc, app_nil_l in Hp3.
  match type of Hp3 with progress _ _ ?l _ _ _ => set (ls := l) in * end.
  set (r4 := if di_include_orion input then skipped "orion" r3 else r3).
  assert (counted nothing_detected db r4 d3 ∧ raised r4 = Z.of_nat (length ls)
    ∧ wrote_anything r4 = wrote_anything r3) as (Hc4 & Hra4 & Ew).
  { unfold r4. by destruct (di_include_orion input), Hp3. }
  assert (engines r4 = ([], if di_include_orion input then ["orion"] else [])) as He4.
  { assert (engines r3 = ([], [])) as E by by rewrite He3, He2, He1.
    unfold r4. unfold engines in *. injection E as E1 E2. destruct (di_include_orion input); simpl; by rewrite E1, E2. }
  rewrite Ew, (progress_wrote _ _ _ _ _ Hp3).
  destruct Hp3 as [[Hok _] Hsame Hafter _ _ Hno]. case_bool_decide as El; simpl; twp_go.
  - split_and!; try done; [apply same_but_signals_refl|apply Hr|rewrite El; apply after_none| ].
    unfold r4. rewrite Hno by done. destruct (di_include_orion input); split_and!; simpl; lia.
  - by split_and!.
Qed.
End detection.

(** A source that changed twice and was once seen first, a target whose change was
    resolved before, and an event with two open conflicts. *)
Definition sample_change (id target : UUID) (c : HermesChangeType) : HermesSourceChange :=
  mkChange id target None None None c None None (Z.of_N id) (Z.of_N id).
Definition sample_changes : gmap UUID HermesSourceChange :=
  list_to_map ((λ c, (hg_id c, c)) <$>
    [sample_change 1 7 FIRST_SEEN; sample_change 2 8 CONTENT_CHANGED; sample_change 3 7 CONTENT_CHANGED;
     sample_change 4 7 CONTENT_CHANGED; sample_change 5 9 CONTENT_UNCHANGED; sample_change 6 9 FETCH_FAILED]).
Definition sample_resolved : ArgusSignal :=
  mkSignal 10 NEW_SOURCE_CHANGE SIGNAL_AUTO_RESOLVED LOW (hundredths 95) "Source content changed" None None "hermes"
    (make_argus_dedupe_key NEW_SOURCE_CHANGE "hermes" [uuid_str 8; "CONTENT_CHANGED"]) 3 0 0 0 0.
Definition sample_watched : DB :=
  set_signals {[10%N := sample_resolved]}
    (upd_hermes (λ t, mkHermesTables (hm_sources t) (hm_targets t) (hm_jobs t) (hm_documents t) sample_changes) empty_db).
Definition sample_detection : DetectionInput := mkDetectionInput true true true true 50 3.

Lemma sample_ready : ready sample_watched 20.
Proof.
  assert (∀ k s, signals sample_watched !! k = Some s → k = 10%N ∧ s = sample_resolved) as Hs
    by (intros k s H; change (signals sample_watched) with ({[10%N := sample_resolved]} : gmap UUID ArgusSignal) in H;
        by apply lookup_singleton_Some in H as [<- <-]).
  assert (∀ k e, evidence sample_watched !! k ≠ Some e) as He by done.
  split; split.
  - by intros k s [-> ->]%Hs.
  - intros k k' s s' [-> _]%Hs [-> _]%Hs. done.
  - by intros k e ?%He.
  - by intros k k' e e' ?%He.
  - intros k [s [-> _]%Hs]. lia.
  - by intros k [e ?%He].
Qed.

Lemma detection_effect_witness : ∃ r db' now' uid',
  execute sample_detection (session sample_watched sample_watched 1000 20)
    = (Ok r, session db' db' now' uid')
  ∧ raised r = 4 ∧ outcome 1000 [ (change_alert (sample_change 2 8 CONTENT_CHANGED)).1 ]
      (Some sample_resolved) (signal_of (sg_dedupe_key sample_resolved) db').
Proof.
  destruct (detection_effect sample_detection sample_watched 1000 20) as (r & db' & n & u & E & _ & _ & Ho & _ & _ & Hra & _).
  - exact sample_ready.
  - simpl. lia.
  - vm_compute. repeat constructor.
  - exists r, db', n, u. refine (conj E (conj _ _)).
    + rewrite Hra. vm_compute. reflexivity.
    + pose proof (Ho (sg_dedupe_key sample_resolved)) as H.
      assert (candidates_for (sg_dedupe_key sample_resolved) (alerts sample_detection sample_watched)
        = [ (change_alert (sample_change 2 8 CONTENT_CHANGED)).1 ]) as Ec by (vm_compute; reflexivity).
      rewrite Ec in H. exact H.
Defined.

(** What the run leaves: the resolved signal is open again with the severity that rose and
    the confidence that did not fall; the two changes of target 7 share a signal. *)
Example sample_detected :
  (let '(r, w) := execute sample_detection (session sample_watched sample_watched 1000 20) in
   (match r with Ok r => (signals_created_count r, signals_reused_count r, evidence_links_created_count r) | _ => (0, 0, 0) end,
    (λ s, (sg_status s, sg_severity s, sg_version s, sg_last_detected_at s)) <$> rows (signals (w_committed w))))
  = ((2, 2, 4), [(SIGNAL_OPEN, LOW, 1, 1000); (SIGNAL_OPEN, MEDIUM, 3, 1000); (SIGNAL_OPEN, MEDIUM, 1, 1000)]).
Proof. vm_compute. reflexivity. Qed.

(** ** Review *)

Section review.
Context (signal_id : UUID) (decision : ArgusReviewDecision) (expected : Z) (reviewer_id : option UUID)
  (note : option string) (db : DB) (now : Z) (uid : N).
Abbreviation run := (ReviewArgusSignal.execute signal_id decision expected reviewer_id note (session db db now uid)).

Lemma review_unknown : signals db !! signal_id = None →
  run = (Raise (ArgusSignalNotFoundError signal_id), session db db now uid).
Proof.
  intros Es. unfold ReviewArgusSignal.execute, SignalRepo.get. eapply runs_bind; [by apply query_quiet|].
  change (w_db (session db db now uid)) with db. by rewrite Es.
Qed.
Lemma review_stale s : signals db !! signal_id = Some s → (sg_version s =? expected) = false →
  run = (Raise (ArgusSignalModifiedError signal_id (sg_version s)), session db db now uid).
Proof.
  intros Es Ev. unfold ReviewArgusSignal.execute, SignalRepo.get. eapply runs_bind; [by apply query_quiet|].
  change (w_db (session db db now uid)) with db. rewrite Es. by rewrite Ev.
Qed.
Lemma review_accepted s : signals db !! signal_id = Some s → (sg_version s =? expected) = true →
  int4 (expected + 1) = true → uid ∉ sv_id <$> signal_reviews db →
  let s' := SignalRepo.decided (ReviewArgusSignal.status_of decision) (now + 1) s in
  let db' := set_signals (<[signal_id := s']> (signals db))
    (set_reviews (signal_reviews db ++ [mkSignalReview uid signal_id decision reviewer_id note now]) db) in
  run = (Ok s', session db' db' (now + 2) (uid + 1)).
Proof.
  intros Es Ev H4 Hn s' db'. pose proof Ev as Ev'. apply Z.eqb_eq in Ev'.
  cut (twp (ReviewArgusSignal.execute signal_id decision expected reviewer_id note)
    (λ a d c n u, a = s' ∧ d = db' ∧ c = db' ∧ n = now + 2 ∧ u = (uid + 1)%N) db db now uid).
  { by intros (a & d & c & n & u & -> & -> & -> & -> & -> & ->). }
  unfold ReviewArgusSignal.execute, SignalRepo.get. twp_go. rewrite Es, Ev. cbn [negb]. twp_go.
  eapply twp_stmt.
  { cbn [sv_signal_id sv_id]. rewrite Es, (bool_decide_false (uid ∈ _)) by done. reflexivity. }
  unfold SignalRepo.update_with_version_check. twp_go. eapply twp_stmt.
  { change (signals (set_reviews ?l ?d)) with (signals d).
    rewrite Es, Ev. cbv zeta. change (sg_version (SignalRepo.decided _ _ s)) with (sg_version s + 1).
    rewrite Ev', H4. reflexivity. }
  twp_go. split_and!; try done. lia.
Qed.
End review.

(** C32: a review of a signal, run alone, does all or nothing: with the version the reviewer
    saw it commits the decided status, one more version and one review, and changes nothing
    else; an unknown signal, or a version that is not the stored one, is refused with the
    error that names it and nothing is written; so of two reviewers of one version the
    second is refused. *)
Theorem review_effect signal_id decision expected reviewer_id note db now uid :
  let run := ReviewArgusSignal.execute signal_id decision expected reviewer_id note (session db db now uid) in
  uid ∉ sv_id <$> signal_reviews db →
  match signals db !! signal_id with
  | None => run = (Raise (ArgusSignalNotFoundError signal_id), session db db now uid)
  | Some s =>
      if sg_version s =? expected then
        int4 (expected + 1) = true →
        let s' := SignalRepo.decided (ReviewArgusSignal.status_of decision) (now + 1) s in
        let db' := set_signals (<[signal_id := s']> (signals db))
          (set_reviews (signal_reviews db ++ [mkSignalReview uid signal_id decision reviewer_id note now]) db) in
        run = (Ok s', session db' db' (now + 2) (uid + 1))
        ∧ ∀ decision2 reviewer2 note2 now2 uid2,
            ReviewArgusSignal.execute signal_id decision2 expected reviewer2 note2 (session db' db' now2 uid2)
            = (Raise (ArgusSignalModifiedError signal_id (expected + 1)), session db' db' now2 uid2)
      else run = (Raise (ArgusSignalModifiedError signal_id (sg_version s)), session db db now uid)
  end.
Proof.
  intros run Hn. subst run. destruct (signals db !! signal_id) as [s|] eqn:Es.
  - destruct (sg_version s =? expected) eqn:Ev; [|by apply review_stale].
    intros H4. split; [by apply review_accepted|]. intros. apply Z.eqb_eq in Ev.
    erewrite (review_stale _ _ _ _ _ _ _ _ (SignalRepo.decided (ReviewArgusSignal.status_of decision) (now + 1) s)).
    + change (sg_version (SignalRepo.decided _ _ s)) with (sg_version s + 1). by rewrite Ev.
    + change (signals (set_signals ?m _)) with m. apply lookup_insert_eq.
    + change (sg_version (SignalRepo.decided _ _ s)) with (sg_version s + 1). lia.
  - by apply review_unknown.
Qed.
Lemma review_effect_witness :
  let s' := SignalRepo.decided SIGNAL_CONFIRMED 101 sample_resolved in
  let db' := set_signals (<[10%N := s']> (signals sample_watched))
    (set_reviews [mkSignalReview 30 10 REVIEW_CONFIRMED (Some 5%N) None 100] sample_watched) in
  ReviewArgusSignal.execute 10 REVIEW_CONFIRMED 3 (Some 5%N) None (session sample_watched sample_watched 100 30)
    = (Ok s', session db' db' 102 31)
  ∧ ∀ decision2 reviewer2 note2 now2 uid2,
      ReviewArgusSignal.execute 10 decision2 3 reviewer2 note2 (session db' db' now2 uid2)
      = (Raise (ArgusSignalModifiedError 10 4), session db' db' now2 uid2).
Proof. exact (review_effect 10 REVIEW_CONFIRMED 3 (Some 5%N) None sample_watched 100 30 (not_elem_of_nil _) eq_refl). Defined.
