(* ===== verification/HermesContent.v ===== *)
(** What Hermes makes of the bytes it fetched (domain/services/hermes_content.py): the
    content type, the hash, a text preview and the title of a page.

    A body is a [string] of bytes.  Decoded text is a list of code points, since a page
    may use any of Unicode; [decode] is Python's UTF-8 decoder, which replaces every
    ill-formed sequence by one U+FFFD. *)
From Stdlib Require Import Ascii.
From S2P Require Import Prelude Text PyFloat PyVal PyDate Entities ContextEntities Store Json.
From S2P Require Import Logic Conflicts Projection Reproject.
Open Scope string_scope.
Open Scope list_scope.

(** ** bytes.decode("utf-8") *)

(** The bytes that may continue a sequence, each a range, and the bits read so far. *)
Record pending := mkPending { pd_bits : N; pd_next : list (N * N) }.
Definition cont : N * N := (128, 191)%N.
Inductive lead := Single (cp : N) | Open (p : pending) | Invalid.
Definition classify (b : N) : lead :=
  if (b <? 128)%N then Single b
  else if (b <? 194)%N then Invalid
  else if (b <? 224)%N then Open (mkPending (b - 192) [cont])
  else if (b =? 224)%N then Open (mkPending 0 [(160, 191)%N; cont])
  else if (b =? 237)%N then Open (mkPending 13 [(128, 159)%N; cont])
  else if (b <? 240)%N then Open (mkPending (b - 224) [cont; cont])
  else if (b =? 240)%N then Open (mkPending 0 [(144, 191)%N; cont; cont])
  else if (b <? 244)%N then Open (mkPending (b - 240) [cont; cont; cont])
  else if (b =? 244)%N then Open (mkPending 4 [(128, 143)%N; cont; cont])
  else Invalid.

(** A code point, or an ill-formed sequence. *)
Definition unit_ : Type := option N.
Definition start (b : N) : list unit_ * option pending :=
  match classify b with
  | Single cp => ([Some cp], None)
  | Open p => ([], Some p)
  | Invalid => ([None], None)
  end.
Definition feed (st : option pending) (b : N) : list unit_ * option pending :=
  match st with
  | None => start b
  | Some (mkPending bits []) => start b
  | Some (mkPending bits ((lo, hi) :: next)) =>
      if ((lo <=? b) && (b <=? hi))%N then
        let bits' := (bits * 64 + (b - 128))%N in
        match next with [] => ([Some bits'], None) | _ => ([], Some (mkPending bits' next)) end
      else let '(out, st') := start b in (None :: out, st')
  end.
Fixpoint units (st : option pending) (l : list N) : list unit_ :=
  match l with
  | [] => match st with Some _ => [None] | None => [] end
  | b :: l' => let '(out, st') := feed st b in out ++ units st' l'
  end.

Definition bytes (s : string) : list N := code <$> chars s.
Definition REPLACEMENT : N := 65533.
(** errors="replace" *)
Definition decode_replace (body : list N) : list N := default REPLACEMENT <$> units None body.
(** errors="strict" does not raise *)
Definition decodes (body : list N) : bool := forallb (λ u, bool_decide (u ≠ None)) (units None body).

(** ** Text of code points *)
Definition is_space_cp (c : N) : bool :=
  ((9 <=? c) && (c <=? 13) || (28 <=? c) && (c <=? 32) || (c =? 133) || (c =? 160) || (c =? 5760)
   || (8192 <=? c) && (c <=? 8202) || (c =? 8232) || (c =? 8233) || (c =? 8239) || (c =? 8287)
   || (c =? 12288))%N.
Fixpoint drop_spaces (l : list N) : list N :=
  match l with
  | [] => []
  | c :: l' => if is_space_cp c then drop_spaces l' else l
  end.
Definition strip_cp (l : list N) : list N := rev (drop_spaces (rev (drop_spaces l))).
(** [re.sub(r"\s+", " ", text)] *)
Fixpoint collapse_spaces (in_run : bool) (l : list N) : list N :=
  match l with
  | [] => []
  | c :: l' =>
      if is_space_cp c then (if in_run then [] else [32%N]) ++ collapse_spaces true l'
      else c :: collapse_spaces false l'
  end.
Definition tidy (l : list N) : list N := strip_cp (collapse_spaces false l).

(** ** hermes_content.py *)
Definition sha256_bytes `{Hashlib} (content : string) : string := sha256_hexdigest content.

(** [sub in s] *)
Fixpoint contains_chars (sub s : list ascii) : bool :=
  bool_decide (take (length sub) s = sub)
  || match s with [] => false | _ :: s' => contains_chars sub s' end.
Definition str_contains (sub s : string) : bool := contains_chars (chars sub) (chars s).
Definition str_endswith (suffix s : string) : bool :=
  let n := length (chars s) in let k := length (chars suffix) in
  (k <=? n)%nat && bool_decide (drop (n - k) (chars s) = chars suffix).
(** [s.split("?")[0]] *)
Fixpoint before_char (c : ascii) (l : list ascii) : list ascii :=
  match l with
  | [] => []
  | x :: l' => if Ascii.eqb x c then [] else x :: before_char c l'
  end.

Definition detect_content_type (content_type_header : option string) (url : option string)
    : HermesDocumentContentType :=
  let ct := str_lower (default "" content_type_header) in
  let u := of_chars (before_char "?"%char (chars (str_lower (default "" url)))) in
  if str_contains "text/html" ct || str_endswith ".html" u || str_endswith ".htm" u then CT_HTML
  else if str_contains "application/pdf" ct || str_endswith ".pdf" u then CT_PDF
  else if str_startswith "text/plain" ct || str_endswith ".txt" u then CT_TEXT
  else if str_contains "application/json" ct || str_endswith ".json" u then CT_JSON
  else if str_contains "xml" ct || str_endswith ".xml" u then CT_XML
  else CT_UNKNOWN.

Definition SAMPLE : nat := 1024.
Definition is_control (b : N) : bool :=
  ((b <? 32) && negb (b =? 9) && negb (b =? 10) && negb (b =? 13))%N.
(** [control_count / max(len(sample), 1) > 0.30] *)
Definition looks_binary (content : list N) : bool :=
  match content with
  | [] => false
  | _ =>
      let sample := take SAMPLE content in
      if bool_decide (0%N ∈ sample) then true
      else f_gtb (f_div_int (Z.of_nat (length (filter (λ b, is_control b = true) sample)))
                    (Pos.of_nat (length sample)))
             (f_of_decimal false 30 (-2))
  end.
Definition detect_content_type_from_bytes (content : string) (content_type_header url : option string)
    : HermesDocumentContentType :=
  let result := detect_content_type content_type_header url in
  if negb (bool_decide (result = CT_UNKNOWN)) then result
  else if looks_binary (bytes content) then CT_BINARY
  else if negb (decodes (take SAMPLE (bytes content))) then CT_BINARY
  else CT_UNKNOWN.

Definition make_text_preview (content : string) (t : HermesDocumentContentType) (max_chars : nat)
    : option (list N) :=
  if bool_decide (t ∈ [CT_HTML; CT_TEXT; CT_JSON; CT_XML]) then
    match tidy (decode_replace (bytes content)) with
    | [] => None
    | text => Some (take max_chars text)
    end
  else None.

(** A literal letter under IGNORECASE, given in lower case; [i] also matches U+0130 and
    U+0131. *)
Definition same_letter (letter c : N) : bool :=
  ((c =? letter) || (97 <=? letter) && (letter <=? 122) && (c =? letter - 32)
   || (letter =? 105) && ((c =? 304) || (c =? 305)))%N.
(** What follows the literal, if the text starts with it. *)
Fixpoint after_literal (lit text : list N) : option (list N) :=
  match lit, text with
  | [], _ => Some text
  | x :: lit', c :: text' => if same_letter x c then after_literal lit' text' else None
  | _ :: _, [] => None
  end.
Fixpoint break_at (stop : N) (l : list N) : list N * list N :=
  match l with
  | [] => ([], [])
  | c :: l' => if (c =? stop)%N then ([], l) else let '(a, b) := break_at stop l' in (c :: a, b)
  end.
Definition LT : N := 60.
Definition GT : N := 62.
(** The group of [<title[^>]*>([^<]{1,512})</title>] at the head of the text.  Neither
    class contains the character that follows it in the pattern, so each quantifier takes
    the whole run up to that character or the match fails. *)
Definition title_at (text : list N) : option (list N) :=
  after_open ← after_literal (bytes "<title") text;
  match (break_at GT after_open).2 with
  | [] => None
  | _ :: inner =>
      let '(run, rest) := break_at LT inner in
      if ((1 <=? length run) && (length run <=? 512))%nat then
        _ ← after_literal (bytes "</title>") rest; Some run
      else None
  end.
(** [re.search]: the first position with a match. *)
Fixpoint title_search (text : list N) : option (list N) :=
  match title_at text with
  | Some run => Some run
  | None => match text with [] => None | _ :: text' => title_search text' end
  end.
Definition extract_html_title (content : string) : option (list N) :=
  run ← title_search (decode_replace (bytes content));
  match tidy run with [] => None | t => Some t end.
