(* ===== verification/HermesUrl.v ===== *)
(** URL normalisation for Hermes (domain/services/hermes_url_normalizer.py), on top of
    Python's [urllib.parse] (urlparse, the hostname and port of its result, urlunparse) as
    far as the normaliser uses them.

    Texts are Latin-1 (Text.v): no character of that range decomposes into one of the
    delimiters, so the NFKC check of a network location never refuses it. *)
From Stdlib Require Import Ascii.
From S2P Require Import Prelude Text PyFloat PyVal Entities.
Open Scope string_scope.
Open Scope list_scope.
Open Scope Z_scope.

(** ** Cutting text *)
Definition is_char (c x : ascii) : bool := Ascii.eqb x c.
Definition among (s : string) (c : ascii) : bool := bool_decide (c ∈ chars s).
Definition has (c : ascii) (l : list ascii) : bool := bool_decide (c ∈ l).
(** The text before the first character of a class, and the rest from it on. *)
Fixpoint until (stop : ascii → bool) (l : list ascii) : list ascii * list ascii :=
  match l with
  | [] => ([], [])
  | c :: l' => if stop c then ([], l) else let '(a, b) := until stop l' in (c :: a, b)
  end.
(** [s.partition(c)]: before, whether there is one, after. *)
Definition partition (c : ascii) (l : list ascii) : list ascii * bool * list ascii :=
  match until (is_char c) l with
  | (a, []) => (a, false, [])
  | (a, _ :: b) => (a, true, b)
  end.
(** [s.rpartition(c)[2]] *)
Definition after_last (c : ascii) (l : list ascii) : list ascii := rev (until (is_char c) (rev l)).1.

(** ** ipaddress.IPv6Address: whether a text is an address *)
Fixpoint split_on (c : ascii) (cur l : list ascii) : list (list ascii) :=
  match l with
  | [] => [cur]
  | x :: l' => if is_char c x then cur :: split_on c [] l' else split_on c (cur ++ [x]) l'
  end.
Definition is_hex (c : ascii) : bool := is_digit c || among "abcdefABCDEF" c.
Definition hextet (l : list ascii) : bool :=
  (1 <=? length l)%nat && (length l <=? 4)%nat && forallb is_hex l.
Definition digits_value (l : list ascii) : Z :=
  fold_left (λ n c, 10 * n + (Z.of_N (code c) - 48)) l 0.
Definition octet (l : list ascii) : bool :=
  (1 <=? length l)%nat && forallb is_digit l && (length l <=? 3)%nat
  && (bool_decide (l = ["0"%char]) || negb (bool_decide (head l = Some "0"%char)))
  && (digits_value l <=? 255).
Definition is_ipv4 (l : list ascii) : bool :=
  let parts := split_on "." [] l in (length parts =? 4)%nat && forallb octet parts.
(** The positions of the empty parts that stand for a run of zeros. *)
Definition inner_gaps (parts : list (list ascii)) : list nat :=
  filter (λ i, parts !! i = Some []) (seq 1 (length parts - 2)).
Definition hextets_ok (parts : list (list ascii)) : bool :=
  let n := length parts in
  match inner_gaps parts with
  | [] =>
      (n =? 8)%nat && forallb hextet parts
  | [i] =>
      let hi := if bool_decide (head parts = Some []) then (i - 1)%nat else i in
      let lo := if bool_decide (last parts = Some []) then (n - i - 2)%nat else (n - i - 1)%nat in
      (negb (bool_decide (head parts = Some [])) || (hi =? 0)%nat)
      && (negb (bool_decide (last parts = Some [])) || (lo =? 0)%nat)
      && (hi + lo <? 8)%nat
      && forallb hextet (take hi parts) && forallb hextet (drop (n - lo) parts)
  | _ => false
  end.
Definition is_ipv6 (l : list ascii) : bool :=
  let '(addr, scoped, scope) := partition "%" l in
  (negb scoped || (negb (bool_decide (scope = [])) && negb (has "%" scope)))
  && negb (has "/" l)
  && let parts := split_on ":" [] addr in
     (3 <=? length parts)%nat
     && match last parts with
        | Some p =>
            if has "." p then
              is_ipv4 p
              && (length parts <=? 8)%nat
              && hextets_ok (take (length parts - 1) parts ++ [["0"%char]; ["0"%char]])
            else (length parts <=? 9)%nat && hextets_ok parts
        | None => false
        end.

(** ** urllib.parse *)
Record ParseResult := mkParse {
  ur_scheme : list ascii;
  ur_netloc : list ascii;
  ur_path : list ascii;
  ur_params : list ascii;
  ur_query : list ascii;
  ur_fragment : list ascii;
}.

Definition c0_or_space (c : ascii) : bool := (code c <=? 32)%N.
Definition unsafe (c : ascii) : bool := (code c =? 9)%N || (code c =? 10)%N || (code c =? 13)%N.
Definition is_letter (c : ascii) : bool := is_ascii_upper c || is_ascii_lower c.
Definition scheme_char (c : ascii) : bool := is_letter c || is_digit c || among "+-." c.
Definition uses_params : list string :=
  [""; "ftp"; "hdl"; "prospero"; "http"; "https"; "shttp"; "rtsp"; "rtsps"; "sip"; "sips"; "mms";
   "sftp"; "tel"].

(** The scheme before the first colon, if what stands there is one. *)
Definition split_scheme (url : list ascii) : list ascii * list ascii :=
  match until (is_char ":") url with
  | (c :: s, _ :: rest) =>
      if is_letter c && forallb scheme_char (c :: s) then (map lower_char (c :: s), rest) else ([], url)
  | _ => ([], url)
  end.
(** _hostinfo *)
Definition hostinfo (netloc : list ascii) : list ascii * list ascii :=
  let info := after_last "@" netloc in
  let '(_, have_open, bracketed) := partition "[" info in
  if have_open : bool then
    let '(host, _, port) := partition "]" bracketed in
    let '(_, _, port) := partition ":" port in (host, port)
  else let '(host, _, port) := partition ":" info in (host, port).
(** _check_bracketed_netloc and _check_bracketed_host *)
Definition bracketed_host_ok (host : list ascii) : bool :=
  match host with
  | "v"%char :: rest =>
      let '(hex, b) := until (λ c, negb (is_hex c)) rest in
      negb (bool_decide (hex = [])) && match b with "."%char :: _ :: _ => true | _ => false end
  | _ => is_ipv6 host
  end.
Definition bracketed_netloc_ok (netloc : list ascii) : bool :=
  let info := after_last "@" netloc in
  let '(before, have_open, bracketed) := partition "[" info in
  if have_open : bool then
    let '(host, _, port) := partition "]" bracketed in
    bool_decide (before = [])
    && (bool_decide (port = []) || bool_decide (head port = Some ":"%char)) && bracketed_host_ok host
  else bracketed_host_ok (partition ":" info).1.1.

Definition split_netloc (url : list ascii) : Res (list ascii * list ascii) :=
  if bool_decide (take 2 url = chars "//") then
    let '(netloc, url) := until (among "/?#") (drop 2 url) in
    if xorb (has "[" netloc) (has "]" netloc) then Raise (ValueError "Invalid IPv6 URL")
    else if has "[" netloc && negb (bracketed_netloc_ok netloc) then Raise (ValueError "Invalid IPv6 URL")
    else Ok (netloc, url)
  else Ok ([], url).
Definition split_params (url : list ascii) : list ascii * list ascii :=
  let segment := after_last "/" url in
  let prefix := take (length url - length segment) url in
  let '(a, _, params) := partition ";" segment in (prefix ++ a, params).

Definition urlparse (url : list ascii) : Res ParseResult :=
  let url := List.filter (λ c, negb (unsafe c)) (drop_while c0_or_space url) in
  let '(scheme, url) := split_scheme url in
  '(netloc, url) ← split_netloc url;
  let '(url, _, fragment) := partition "#" url in
  let '(url, _, query) := partition "?" url in
  let '(path, params) :=
    if bool_decide (of_chars scheme ∈ uses_params) then split_params url else (url, []) in
  mret (mkParse scheme netloc path params query fragment).

(** Lower case, except for the zone of a scoped address. *)
Definition folded (host : list ascii) : list ascii :=
  let '(name, scoped, zone) := partition "%" host in
  map lower_char name ++ (if scoped : bool then "%"%char :: zone else []).
Definition hostname (p : ParseResult) : option (list ascii) :=
  match (hostinfo (ur_netloc p)).1 with [] => None | host => Some (folded host) end.
Definition port (p : ParseResult) : Res (option Z) :=
  match (hostinfo (ur_netloc p)).2 with
  | [] => Ok None
  | digits =>
      if forallb is_digit digits then
        let n := digits_value digits in
        if n <=? 65535 then Ok (Some n) else Raise (ValueError "Port out of range 0-65535")
      else Raise (ValueError "Port could not be cast to integer value")
  end.

(** For a network location that is not empty and no fragment. *)
Definition urlunparse (scheme netloc path params query : list ascii) : list ascii :=
  let url := path ++ match params with [] => [] | _ => ";"%char :: params end in
  let url := match url with [] => [] | c :: _ => if is_char "/" c then url else "/"%char :: url end in
  scheme ++ chars "://" ++ netloc ++ url ++ match query with [] => [] | _ => "?"%char :: query end.

(** ** hermes_url_normalizer.py *)
Definition default_port (scheme : list ascii) : Z := if bool_decide (of_chars scheme = "http") then 80 else 443.
Definition normalize_path (path : list ascii) : list ascii :=
  let path := if negb (bool_decide (path = chars "/")) && bool_decide (last path = Some "/"%char)
              then rdrop_while (is_char "/") path else path in
  match path with [] => chars "/" | _ => path end.
Definition netloc_of (scheme host : list ascii) (p : option Z) : list ascii :=
  match p with
  | None => host
  | Some n => if n =? default_port scheme then host else host ++ ":"%char :: chars (int_str n)
  end.
Definition normalize_url (url : string) : Res string :=
  parsed ← urlparse (chars (str_strip url));
  let scheme := map lower_char (ur_scheme parsed) in
  if negb (bool_decide (of_chars scheme ∈ ["http"; "https"])) then
    Raise (ValueError ("Only http/https URLs are allowed, got: '" +:+ of_chars scheme +:+ "'"))
  else
    match hostname parsed with
    | None => Raise (ValueError "URL must include a hostname")
    | Some host =>
        match port parsed with
        | Raise _ => Raise (ValueError "Invalid URL port")
        | Ok p =>
            Ok (of_chars (urlunparse scheme (netloc_of scheme host p) (normalize_path (ur_path parsed))
                            (ur_params parsed) (ur_query parsed)))
        end
    end.
Definition validate_url (url : string) : Res string :=
  if str_empty (str_strip url) then Raise (ValueError "URL must not be empty") else normalize_url url.

Example normalises :
  map normalize_url ["HTTP://Example.COM:80/a//?q=1#top"; " https://h:0443"; "http://u:p@[::1]:8080/x";
                     "http://h:99999/"; "ftp://h/"; "http:///x"; "http://[1.2.3.4]/"; "http://h/a/;p?"]
  = [Ok "http://example.com/a?q=1"; Ok "https://h/"; Ok "http://::1:8080/x"; Raise (ValueError "Invalid URL port");
     Raise (ValueError "Only http/https URLs are allowed, got: 'ftp'"); Raise (ValueError "URL must include a hostname");
     Raise (ValueError "Invalid IPv6 URL"); Ok "http://h/a;p"].
Proof. vm_compute. reflexivity. Qed.

(** ** Facts about cutting *)
Lemma until_spec stop l : let '(a, b) := until stop l in
  l = a ++ b ∧ Forall (λ c, stop c = false) a ∧ match b with [] => True | c :: _ => stop c = true end.
Proof.
  induction l as [|c l IH]; simpl; [done|]. destruct (stop c) eqn:E; [by split_and!|].
  destruct (until stop l) as [a b]. destruct IH as (-> & Ha & Hb). split_and!; [done|by constructor|done].
Qed.
Lemma until_app stop a b : Forall (λ c, stop c = false) a →
  match b with [] => True | c :: _ => stop c = true end → until stop (a ++ b) = (a, b).
Proof.
  intros Ha Hb. induction Ha as [|c a Hc _ IH]; simpl.
  - destruct b as [|c b]; simpl; [done|]. by rewrite Hb.
  - by rewrite Hc, IH.
Qed.

(** [avoids c l]: the character does not occur. *)
Definition avoids (c : ascii) (l : list ascii) : Prop := Forall (λ x, is_char c x = false) l.
Lemma avoids_not_in c l : avoids c l ↔ c ∉ l.
Proof.
  unfold avoids, is_char. rewrite Forall_forall. split.
  - intros H Hc. specialize (H c Hc). simpl in H. by rewrite Ascii.eqb_refl in H.
  - intros H x Hx. simpl. apply Ascii.eqb_neq. by intros ->.
Qed.
Lemma partition_none c l : avoids c l → partition c l = (l, false, []).
Proof. intros H. unfold partition. rewrite <- (app_nil_r l) at 1. by rewrite until_app. Qed.
Lemma partition_some c a b : avoids c a → partition c (a ++ c :: b) = (a, true, b).
Proof. intros H. unfold partition. rewrite until_app; [done|done|]. unfold is_char. apply Ascii.eqb_refl. Qed.
Lemma partition_spec c l : let '(a, found, b) := partition c l in
  avoids c a ∧ l = a ++ (if found : bool then c :: b else []) ∧ (found = false → b = []).
Proof.
  unfold partition. pose proof (until_spec (is_char c) l) as H.
  destruct (until (is_char c) l) as [a [|x b]]; destruct H as (-> & Ha & Hb); [done|].
  split_and!; [done| |done]. by apply Ascii.eqb_eq in Hb as ->.
Qed.
Lemma after_last_avoids c l : avoids c l → after_last c l = l.
Proof.
  intros H. unfold after_last. rewrite <- (app_nil_r (rev l)), until_app; [apply rev_involutive| |done].
  by apply Forall_rev.
Qed.
Lemma after_last_spec c l : avoids c (after_last c l) ∧ ∃ pre, l = pre ++ after_last c l.
Proof.
  unfold after_last. pose proof (until_spec (is_char c) (rev l)) as H.
  destruct (until (is_char c) (rev l)) as [a b]. destruct H as (E & Ha & _). simpl. split.
  - by apply Forall_rev.
  - exists (rev b). rewrite <- rev_app_distr, <- E. by rewrite rev_involutive.
Qed.

(** ** Ports *)
Lemma digit_char_facts d : 0 <= d < 10 → is_digit (digit_char d) = true ∧ Z.of_N (code (digit_char d)) - 48 = d.
Proof.
  intros Hd. assert (d ∈ seqZ 0 10) as H by (apply elem_of_seqZ; lia). vm_compute in H.
  repeat (apply elem_of_cons in H as [->|H]; [by split|]). by apply elem_of_nil in H.
Qed.
Lemma dec_digits_go_spec f : ∀ n acc, 0 <= n < 2 ^ Z.of_nat f →
  let l := dec_digits_go f n acc in
  fold_left (λ n c, 10 * n + (Z.of_N (code c) - 48)) l 0
    = fold_left (λ n c, 10 * n + (Z.of_N (code c) - 48)) acc n
  ∧ (forallb is_digit acc = true → forallb is_digit l = true) ∧ (n = 0 ∨ l ≠ []).
Proof.
  induction f as [|f IH]; intros n acc Hn; simpl.
  { split_and!; [|done|]; replace n with 0 by (simpl in Hn; lia); [done|by left]. }
  destruct (n <? 10) eqn:En.
  - destruct (digit_char_facts n) as [Hd Hv]; [lia|]. simpl. rewrite Hv, Hd. split_and!; [f_equal; lia|done|by right].
  - rewrite Nat2Z.inj_succ, Z.pow_succ_r in Hn by lia.
    destruct (digit_char_facts (n mod 10)) as [Hd Hv]; [apply Z.mod_pos_bound; lia|].
    destruct (IH (n / 10) (digit_char (n mod 10) :: acc)) as (H1 & H2 & H3).
    { split; [apply Z.div_pos; lia|]. apply Z.div_lt_upper_bound; lia. }
    split_and!.
    + rewrite H1. cbn [fold_left]. rewrite Hv. f_equal. pose proof (Z.div_mod n 10). lia.
    + intros Ha. apply H2. simpl. by rewrite Hd.
    + right. destruct H3 as [H0|H3]; [|done]. apply Z.div_small_iff in H0; lia.
Qed.
Lemma port_text n : 0 <= n →
  digits_value (chars (int_str n)) = n ∧ forallb is_digit (chars (int_str n)) = true ∧ chars (int_str n) ≠ [].
Proof.
  intros Hn. unfold int_str. rewrite chars_of_chars. destruct (n <? 0) eqn:E; [lia|]. unfold dec_digits, digits_value.
  destruct (decide (n = 0)) as [->|Hne]; [by split_and!|].
  destruct (dec_digits_go_spec (S (Z.to_nat (Z.log2 n))) n []) as (H1 & H2 & H3).
  { rewrite Nat2Z.inj_succ, Z2Nat.id by apply Z.log2_nonneg. pose proof (Z.log2_spec n). lia. }
  split_and!; [done|by apply H2|]. by destruct H3.
Qed.

Lemma digits_value_nonneg l : forallb is_digit l = true → 0 <= digits_value l.
Proof.
  unfold digits_value. assert (∀ a, 0 <= a → forallb is_digit l = true →
    0 <= fold_left (λ n c, 10 * n + (Z.of_N (code c) - 48)) l a) as H; [|by apply H].
  induction l as [|c l IH]; intros a Ha; simpl; [done|]. intros [Hc Hl]%andb_prop.
  apply IH; [|done]. unfold is_digit in Hc. rewrite andb_true_iff, !N.leb_le in Hc. lia.
Qed.

(** ** The normal form reads back as itself *)

(** No white space, brackets or semicolons. *)
Definition plain_char (c : ascii) : bool := negb (is_space c) && negb (among "[];" c).
Definition plain (l : list ascii) : Prop := Forall (λ c, plain_char c = true) l.
Definition host_char (c : ascii) : bool := plain_char c && negb (among "/?#@:" c).

Record normal (host : list ascii) (p : option Z) (path query : list ascii) : Prop := {
  no_host : host ≠ [] ∧ Forall (λ c, host_char c = true) host ∧ folded host = host;
  no_port : from_option (λ n, 0 <= n <= 65535) True p;
  no_path : plain path ∧ avoids "#" path ∧ avoids "?" path ∧ head path = Some "/"%char
            ∧ normalize_path path = path;
  no_query : plain query ∧ avoids "#" query;
}.

Lemma Forall_avoids c (P : ascii → bool) l : P c = false → Forall (λ x, P x = true) l → avoids c l.
Proof.
  intros Hc H. eapply Forall_impl; [exact H|]. intros x Hx. apply Ascii.eqb_neq. intros ->. congruence.
Qed.
Lemma Forall_stop (stop P : ascii → bool) l : (∀ c, P c = true → stop c = false) →
  Forall (λ x, P x = true) l → Forall (λ c, stop c = false) l.
Proof. intros H Hl. eapply Forall_impl; [exact Hl|exact H]. Qed.
Lemma plain_facts c : plain_char c = true → unsafe c = false ∧ is_space c = false.
Proof. by destruct c as [[] [] [] [] [] [] [] []]. Qed.
Lemma host_char_delimiter c : host_char c = true → among "/?#" c = false ∧ plain_char c = true.
Proof. destruct c as [[] [] [] [] [] [] [] []]; vm_compute; done. Qed.
Lemma digit_host c : is_digit c = true → plain_char c = true ∧ among "/?#@[]" c = false.
Proof. destruct c as [[] [] [] [] [] [] [] []]; vm_compute; done. Qed.

Lemma split_params_plain path : avoids ";" path → split_params path = (path, []).
Proof.
  intros H. unfold split_params. destruct (after_last_spec "/" path) as (_ & pre & E).
  set (seg := after_last "/" path) in *. rewrite partition_none.
  - f_equal. rewrite E at 1 2. rewrite length_app.
    replace (length pre + length seg - length seg)%nat with (length pre) by lia.
    rewrite take_app_length. by rewrite <- E.
  - unfold avoids in *. rewrite E in H. by apply Forall_app in H as [_ H].
Qed.

Section reparse.
Context (scheme host path query : list ascii) (p : option Z).
Hypothesis HS : scheme = chars "http" ∨ scheme = chars "https".
Hypothesis HN : normal host p path query.
Abbreviation netloc := (netloc_of scheme host p).
Abbreviation text := (urlunparse scheme netloc path [] query).

Lemma netloc_shape : netloc = host ∨ ∃ n, p = Some n ∧ n ≠ default_port scheme ∧ 0 <= n <= 65535
  ∧ netloc = host ++ ":"%char :: chars (int_str n).
Proof using HN.
  pose proof (no_port _ _ _ _ HN) as Hp. unfold netloc_of. destruct p as [n|]; [|by left].
  destruct (n =? default_port scheme) eqn:E; [by left|]. right. exists n. split_and!; try done; simpl in Hp; lia.
Qed.

Lemma netloc_chars : Forall (λ c, plain_char c = true ∧ among "/?#@[]" c = false) netloc.
Proof using HN.
  destruct (no_host _ _ _ _ HN) as (_ & Hh & _).
  assert (Forall (λ c, plain_char c = true ∧ among "/?#@[]" c = false) host) as Hhost.
  { eapply Forall_impl; [exact Hh|]. intros c. destruct c as [[] [] [] [] [] [] [] []]; vm_compute; done. }
  destruct netloc_shape as [->|(n & _ & _ & Hn & ->)]; [done|]. apply Forall_app. split; [done|].
  constructor; [done|]. destruct (port_text n) as (_ & Hd & _); [lia|].
  apply Forall_forall. intros c Hc. apply digit_host. rewrite forallb_forall in Hd.
  by apply Hd, list_elem_of_In.
Qed.

Lemma netloc_avoids c : plain_char c = false ∨ among "/?#@[]" c = true → avoids c netloc.
Proof using HN.
  intros Hc. eapply Forall_impl; [exact netloc_chars|]. intros x [H1 H2]. apply Ascii.eqb_neq. intros ->.
  destruct Hc; congruence.
Qed.

Lemma hostinfo_normal : hostinfo netloc = (host, match netloc with n => drop (1 + length host) n end).
Proof using HN.
  destruct (no_host _ _ _ _ HN) as (_ & Hh & _).
  assert (avoids ":" host) as Hc by by eapply (Forall_avoids _ host_char).
  unfold hostinfo. rewrite after_last_avoids by (apply netloc_avoids; by right).
  rewrite partition_none by (apply netloc_avoids; by right).
  destruct netloc_shape as [->|(n & _ & _ & _ & ->)].
  - rewrite partition_none by done. by rewrite drop_ge by lia.
  - rewrite partition_some by done. f_equal. replace (1 + length host)%nat with (length host + 1)%nat by lia.
    by rewrite <- drop_drop, drop_app_length.
Qed.

(** The text after the scheme and its colon. *)
Abbreviation tail_text := (path ++ match query with [] => [] | _ => "?"%char :: query end).

Lemma text_shape : text = scheme ++ ":"%char :: "/"%char :: "/"%char :: netloc ++ tail_text.
Proof using HN.
  destruct (no_path _ _ _ _ HN) as (_ & _ & _ & Hp & _). unfold urlunparse. rewrite app_nil_r.
  destruct path as [|c path']; [done|]. injection Hp as ->. done.
Qed.

Lemma text_plain : plain text.
Proof using HS HN.
  rewrite text_shape. unfold plain. apply Forall_app. split; [by destruct HS as [->| ->]; repeat constructor|].
  do 3 (constructor; [done|]). apply Forall_app. split; [by eapply Forall_impl; [exact netloc_chars|]; intros ? []|].
  apply Forall_app. split; [apply (no_path _ _ _ _ HN)|]. destruct (no_query _ _ _ _ HN) as [Hq _].
  destruct query; [done|]. by constructor.
Qed.

Lemma parse_normal : urlparse text = Ok (mkParse scheme netloc path [] query []).
Proof using HS HN.
  destruct (no_path _ _ _ _ HN) as (Pp & Ph & Pq & Phd & _). destruct (no_query _ _ _ _ HN) as (Qp & Qh).
  unfold urlparse.
  assert (drop_while c0_or_space text = text) as -> by (rewrite text_shape; by destruct HS as [->| ->]).
  assert (List.filter (λ c, negb (unsafe c)) text = text) as ->.
  { apply forallb_filter_id, forallb_forall. intros c Hc%list_elem_of_In.
    apply (proj1 (Forall_forall _ _) text_plain), plain_facts in Hc as [-> _]. done. }
  assert (split_scheme text = (scheme, "/"%char :: "/"%char :: netloc ++ tail_text)) as ->.
  { rewrite text_shape. by destruct HS as [->| ->]. }
  unfold split_netloc. rewrite (bool_decide_true (take 2 _ = chars "//")) by reflexivity. change (drop 2 _) with (netloc ++ tail_text). rewrite until_app.
  2: { eapply Forall_impl; [exact netloc_chars|]. intros c [_ Hc]. by destruct c as [[] [] [] [] [] [] [] []]. }
  2: { destruct path as [|c path']; [done|]. by injection Phd as ->. }
  assert (∀ c, among "/?#@[]" c = true → has c netloc = false) as Hhas.
  { intros c Hc. apply bool_decide_eq_false, avoids_not_in, netloc_avoids. by right. }
  rewrite !Hhas by done. cbn [xorb andb mbind Res_bind].
  assert (avoids "#" tail_text) as Ht.
  { apply Forall_app. split; [done|]. destruct query; [constructor|]. by constructor. }
  rewrite (partition_none "#") by done.
  assert (∃ b, partition "?" tail_text = (path, b, query)) as [b ->].
  { destruct query as [|c q]; [rewrite app_nil_r, partition_none by done|rewrite partition_some by done]; by eexists. }
  assert (bool_decide (of_chars scheme ∈ uses_params) = true) as -> by (by destruct HS as [->| ->]).
  rewrite split_params_plain by (eapply (Forall_avoids _ plain_char); [|exact Pp]; done).
  done.
Qed.

Lemma port_normal : ∃ q, port (mkParse scheme netloc path [] query []) = Ok q ∧ netloc_of scheme host q = netloc.
Proof using HN.
  unfold port. cbn [ur_netloc]. rewrite hostinfo_normal. cbn [snd].
  destruct netloc_shape as [E|(n & Ep & Hd & Hn & E)].
  - rewrite E, drop_ge by (simpl; lia). by exists None.
  - rewrite E. replace (1 + length host)%nat with (length host + 1)%nat by lia.
    rewrite <- drop_drop, drop_app_length. cbn [drop].
    destruct (port_text n) as (Hv & Hf & Hne); [lia|]. exists (Some n).
    destruct (chars (int_str n)) as [|c l] eqn:Ec; [done|]. rewrite drop_0, Hf, Hv.
    replace (n <=? 65535) with true by lia. split; [done|]. unfold netloc_of.
    replace (n =? default_port scheme) with false by lia. by rewrite Ec.
Qed.

Lemma normalize_normal : normalize_url (of_chars text) = Ok (of_chars text).
Proof using HS HN.
  destruct (no_path _ _ _ _ HN) as (_ & _ & _ & _ & Pn). destruct (no_host _ _ _ _ HN) as (Hne & Hh & Hf).
  unfold normalize_url, str_strip. rewrite !chars_of_chars. rewrite strip_while_none.
  2: { eapply Forall_impl; [exact text_plain|]. intros c Hc. by apply plain_facts. }
  rewrite parse_normal. cbn [mbind Res_bind ur_scheme ur_path ur_params ur_query].
  assert (map lower_char scheme = scheme) as -> by (by destruct HS as [->| ->]).
  assert (bool_decide (of_chars scheme ∈ ["http"; "https"]) = true) as -> by (by destruct HS as [->| ->]).
  cbn [negb].
  assert (hostname (mkParse scheme netloc path [] query []) = Some host) as ->.
  { unfold hostname. cbn [ur_netloc]. rewrite hostinfo_normal. cbn [fst].
    assert (Some (folded host) = Some host) as E by by rewrite Hf. by destruct host. }
  destruct port_normal as (q & -> & Eq). cbn [ur_path ur_params ur_query]. by rewrite Eq, Pn.
Qed.
End reparse.

(** ** What the normaliser returns is in normal form *)
Lemma plain_sub l1 l2 : plain (l1 ++ l2) → plain l1 ∧ plain l2.
Proof. apply Forall_app. Qed.

Lemma lower_delimiter c : host_char c = true → host_char (lower_char c) = true.
Proof. destruct c as [[] [] [] [] [] [] [] []]; vm_compute; done. Qed.
Lemma lower_percent c : is_char "%" c = false → is_char "%" (lower_char c) = false.
Proof. destruct c as [[] [] [] [] [] [] [] []]; vm_compute; done. Qed.

Lemma folded_facts host : host ≠ [] → Forall (λ c, host_char c = true) host →
  folded host ≠ [] ∧ Forall (λ c, host_char c = true) (folded host) ∧ folded (folded host) = folded host.
Proof.
  intros Hne Hh. unfold folded. pose proof (partition_spec "%" host) as H.
  destruct (partition "%" host) as [[a found] b]. destruct H as (Ha & E & Hb).
  assert (avoids "%" (map lower_char a)) as Hm.
  { apply Forall_map. eapply Forall_impl; [exact Ha|]. apply lower_percent. }
  assert (map lower_char (map lower_char a) = map lower_char a) as Em.
  { rewrite map_map. apply map_ext, lower_char_idem. }
  rewrite E in Hh, Hne. apply Forall_app in Hh as [H1 H2].
  assert (Forall (λ c, host_char c = true) (map lower_char a)) as H1'.
  { apply Forall_map. eapply Forall_impl; [exact H1|]. apply lower_delimiter. }
  destruct found.
  - rewrite partition_some by done. rewrite Em. split_and!; [by destruct (map lower_char a)| |done].
    by apply Forall_app.
  - rewrite app_nil_r in *. rewrite partition_none by done. rewrite Em, app_nil_r. by split_and!; [destruct a|..].
Qed.

Lemma normalize_path_facts path : plain path ∧ avoids "#" path ∧ avoids "?" path →
  match path with [] => True | c :: _ => c = "/"%char end →
  let r := normalize_path path in
  plain r ∧ avoids "#" r ∧ avoids "?" r ∧ head r = Some "/"%char ∧ normalize_path r = r.
Proof.
  intros (Hp & Hh & Hq) Hhd result.
  set (cut := negb (bool_decide (path = chars "/")) && bool_decide (last path = Some "/"%char)).
  set (r := if cut then rdrop_while (is_char "/") path else path).
  assert (result = match r with [] => chars "/" | _ => r end) as -> by reflexivity.
  assert (∃ post, path = r ++ post) as [post Epost].
  { subst r. destruct cut; [|exists []; by rewrite app_nil_r].
    destruct (rdrop_while_decompose (is_char "/") path) as (post & E & _). by exists post. }
  assert (plain r ∧ avoids "#" r ∧ avoids "?" r) as (Rp & Rh & Rq).
  { unfold avoids, plain in *. rewrite Epost in Hp, Hh, Hq.
    by apply Forall_app in Hp as [? _], Hh as [? _], Hq as [? _]. }
  destruct r as [|c r'] eqn:Er.
  { split_and!; vm_compute; repeat constructor. }
  split_and!; [done..| |].
  - rewrite Epost in Hhd. simpl in *. by rewrite Hhd.
  - unfold normalize_path. destruct (decide (c :: r' = chars "/")) as [->|Hn]; [done|].
    rewrite (bool_decide_false (c :: r' = chars "/")) by done. cbn [negb andb].
    rewrite bool_decide_false; [done|]. intros Hlast. subst r. destruct cut eqn:Ec.
    + rewrite <- Er in Hlast. unfold rdrop_while in Hlast.
      pose proof (drop_while_head (is_char "/") (rev path)) as Hd.
      destruct (drop_while (is_char "/") (rev path)); [done|]. simpl in Hlast. rewrite last_snoc in Hlast.
      by injection Hlast as ->.
    + subst cut. rewrite Er in Ec. rewrite Hlast in Ec. rewrite bool_decide_false in Ec by done.
      by rewrite bool_decide_true in Ec.
Qed.

(** The steps of the parser on plain text. *)
Lemma split_scheme_plain l : plain l → plain (split_scheme l).2.
Proof.
  intros H0. unfold split_scheme. pose proof (until_spec (is_char ":") l) as H.
  destruct (until _ l) as [[|c a] [|x b]]; try done. destruct H as (E & _ & _).
  destruct (_ && _); [|done]. rewrite E in H0. apply plain_sub in H0 as [_ H0]. by inversion H0.
Qed.

Lemma split_netloc_plain url nl rest : plain url → split_netloc url = Ok (nl, rest) →
  (nl = [] ∨ plain nl ∧ Forall (λ c, among "/?#" c = false) nl
             ∧ match rest with [] => True | c :: _ => among "/?#" c = true end) ∧ plain rest.
Proof.
  intros Hp. unfold split_netloc. case_bool_decide as E2; [|intros [= <- <-]; split; [by left|done]].
  assert (plain (drop 2 url)) as Hp' by by apply Forall_drop.
  pose proof (until_spec (among "/?#") (drop 2 url)) as H. destruct (until _ (drop 2 url)) as [a b].
  destruct H as (E & Ha & Hb). destruct (xorb _ _); [done|]. destruct (_ && _); [done|]. intros [= <- <-].
  rewrite E in Hp'. apply plain_sub in Hp' as [Hp1 Hp2]. split; [right; by split_and!|done].
Qed.

Lemma partition_plain c l : plain l → let '(a, _, b) := partition c l in plain a ∧ plain b ∧ avoids c a
  ∧ (head l = Some c → a = []) ∧ (head l ≠ Some c → head a = head l).
Proof.
  intros Hl. pose proof (partition_spec c l) as H. destruct (partition c l) as [[a found] b].
  destruct H as (Ha & E & Hb). rewrite E in Hl |- *. apply plain_sub in Hl as [Hp Hf]. split_and!; [done| |done| |].
  - destruct found; [by inversion Hf|rewrite Hb by done; constructor].
  - destruct a as [|x a]; [done|]. simpl. intros [= ->]. exfalso. inversion Ha as [|? ? Hx]. subst.
    unfold is_char in Hx. by rewrite Ascii.eqb_refl in Hx.
  - destruct a as [|x a]; [|done]. destruct found; [done|]. simpl. done.
Qed.

Lemma hostinfo_plain nl h pt : plain nl → Forall (λ c, among "/?#" c = false) nl → hostinfo nl = (h, pt) →
  Forall (λ c, host_char c = true) h.
Proof.
  intros Hp Hd. unfold hostinfo. destruct (after_last_spec "@" nl) as (Ha & pre & E).
  set (info := after_last "@" nl) in *. clearbody info.
  rewrite E in Hp, Hd. apply plain_sub in Hp as [_ Hp]. apply Forall_app in Hd as [_ Hd].
  rewrite (partition_none "[") by by apply (Forall_avoids _ plain_char).
  pose proof (partition_spec ":" info) as H. destruct (partition ":" info) as [[a found] b].
  destruct H as (Hc & Ei & _). intros [= <- <-]. rewrite Ei in Hp, Hd, Ha. apply plain_sub in Hp as [Hp _].
  apply Forall_app in Hd as [Hd _], Ha as [Ha _]. apply Forall_forall. intros c Hin.
  assert (∀ P : ascii → Prop, Forall P a → P c) as Hall by (intros P; rewrite Forall_forall; auto).
  pose proof (Hall _ Hp) as H1. pose proof (Hall _ Hd) as H2. pose proof (Hall _ Ha) as H3. pose proof (Hall _ Hc) as H4.
  simpl in H1, H2, H3, H4. clear - H1 H2 H3 H4. revert H1 H2 H3 H4.
  destruct c as [[] [] [] [] [] [] [] []]; vm_compute; done.
Qed.

(** The parts of an accepted URL without white space, brackets and semicolons. *)
Lemma normalize_url_parts u t : plain (chars (str_strip u)) → normalize_url u = Ok t →
  ∃ scheme host p path query, (scheme = chars "http" ∨ scheme = chars "https")
    ∧ normal host p path query ∧ t = of_chars (urlunparse scheme (netloc_of scheme host p) path [] query).
Proof.
  intros Hu. unfold normalize_url, urlparse. set (l := chars (str_strip u)) in *.
  set (l0 := List.filter _ (drop_while c0_or_space l)).
  assert (plain l0) as H0.
  { apply Forall_forall. intros c Hc. subst l0. apply list_elem_of_In, List.filter_In in Hc as [Hc _].
    destruct (drop_while_decompose c0_or_space l) as (pre & E & _).
    apply (proj1 (Forall_forall _ _) Hu). rewrite E. apply elem_of_app. right. by apply list_elem_of_In. }
  clearbody l0. clear l Hu. pose proof (split_scheme_plain l0 H0) as Hurl.
  destruct (split_scheme l0) as [scheme url]. simpl in Hurl. clear H0 l0.
  destruct (split_netloc url) as [[nl rest]|] eqn:En; [|done].
  destruct (split_netloc_plain _ _ _ Hurl En) as [Hnl Hrest]. cbn [mbind Res_bind].
  pose proof (partition_plain "#" rest Hrest) as H1. destruct (partition "#" rest) as [[r1 f1] fragment].
  destruct H1 as (R1 & _ & R1h & Hd1 & Hd1'). pose proof (partition_plain "?" r1 R1) as H2.
  pose proof (partition_spec "?" r1) as Hs2.
  destruct (partition "?" r1) as [[path f2] query]. destruct H2 as (Pp & Qp & Pq & Hd2 & Hd2').
  destruct Hs2 as (_ & E2 & Eq2).
  assert (avoids "#" path ∧ avoids "#" query) as [Ph Qh].
  { unfold avoids in R1h. rewrite E2 in R1h. apply Forall_app in R1h as [R1h R2h]. split; [done|].
    destruct f2; [by inversion R2h|]. by rewrite Eq2. }
  assert (split_params path = (path, [])) as Esp.
  { apply split_params_plain, (Forall_avoids _ plain_char); done. }
  destruct (if bool_decide (of_chars scheme ∈ uses_params) then split_params path else (path, []))
    as [path' params] eqn:Epp.
  assert (path' = path ∧ params = []) as [-> ->] by (rewrite Esp in Epp; by case_bool_decide; injection Epp as <- <-).
  clear Epp Esp. cbn [mret Res_ret mbind Res_bind ur_scheme ur_path ur_params ur_query].
  destruct (negb _) eqn:Esch; [done|]. apply negb_false_iff, bool_decide_eq_true in Esch.
  unfold hostname, port. cbn [ur_netloc].
  destruct (hostinfo nl) as [h pt] eqn:Eh. cbn [fst snd].
  destruct Hnl as [->|(Np & Nd & Nr)]; [by injection Eh as <- <-|].
  pose proof (hostinfo_plain _ _ _ Np Nd Eh) as Hh.
  destruct h as [|h0 h']; [done|]. set (host := h0 :: h') in *.
  destruct (folded_facts host) as (F1 & F2 & F3); [done|done|].
  match goal with |- match ?q with Ok _ => _ | Raise _ => _ end = _ → _ => destruct q as [p|] eqn:Eport; [|done] end.
  intros [= <-].
  exists (map lower_char scheme), (folded host), p, (normalize_path path), query.
  split_and!; [| |done].
  { apply elem_of_cons in Esch as [E|[E|[]%not_elem_of_nil]%elem_of_cons]; [left|right];
      rewrite <- (chars_of_chars (map lower_char scheme)), E; reflexivity. }
  destruct (normalize_path_facts path) as (G1 & G2 & G3 & G4 & G5); [done| |].
  { destruct path as [|c path]; [done|].
    assert (head r1 ≠ Some "?"%char) as N1 by (intros E; by specialize (Hd2 E)).
    specialize (Hd2' N1). rewrite <- Hd2' in N1.
    assert (head rest ≠ Some "#"%char) as N2 by (intros E; rewrite (Hd1 E) in Hd2'; done).
    specialize (Hd1' N2). rewrite <- Hd1', <- Hd2' in N2. rewrite <- Hd2' in Hd1'.
    destruct rest as [|x rest]; [done|]. injection Hd1' as <-. clear - Nr N1 N2. revert Nr N1 N2.
    destruct c as [[] [] [] [] [] [] [] []]; vm_compute; done. }
  split; try done. destruct pt as [|d pt]; [by injection Eport as <-|].
  destruct (forallb is_digit (d :: pt)) eqn:Ed; [|done]. destruct (_ <=? _) eqn:Ele; [|done].
  injection Eport as <-. simpl. pose proof (digits_value_nonneg _ Ed). lia.
Qed.


(** normalisation yields a normal form: for a URL without white space, brackets and
    semicolons, an accepted URL is returned as http:// or https:// with a lower-case
    host, no default port, no fragment and no trailing slash, and normalising that text
    again returns it unchanged; so two targets with one normalised URL are one target. *)
Theorem normalize_url_canonical u t :
  plain (chars (str_strip u)) → validate_url u = Ok t →
  validate_url t = Ok t
  ∧ ∃ scheme host p path query, (scheme = chars "http" ∨ scheme = chars "https")
    ∧ normal host p path query ∧ t = of_chars (urlunparse scheme (netloc_of scheme host p) path [] query).
Proof.
  intros Hu. unfold validate_url at 1. destruct (str_empty _); [done|]. intros E.
  destruct (normalize_url_parts u t Hu E) as (scheme & host & p & path & query & Hs & Hn & ->).
  split; [|by exists scheme, host, p, path, query].
  unfold validate_url. rewrite (normalize_normal scheme host path query p Hs Hn).
  pose proof (text_plain scheme host path query p Hs Hn) as Hp.
  unfold str_strip. rewrite chars_of_chars, strip_while_none.
  - rewrite (text_shape scheme host path query p Hn). by destruct Hs as [->| ->].
  - eapply Forall_impl; [exact Hp|]. intros c Hc. by apply plain_facts.
Qed.
Lemma plain_check l : forallb plain_char l = true → plain l.
Proof. intros H. rewrite forallb_forall in H. apply Forall_forall. intros c Hc. by apply H, list_elem_of_In. Qed.
Lemma normalize_url_canonical_witness :
  validate_url "http://asn.example/list?page=2" = Ok "http://asn.example/list?page=2".
Proof.
  refine (proj1 (normalize_url_canonical " HTTP://ASN.Example:80/list/?page=2#top " "http://asn.example/list?page=2"
    (plain_check (chars (str_strip " HTTP://ASN.Example:80/list/?page=2#top ")) eq_refl) eq_refl)).
Defined.

(** The host of an IPv6 address loses its brackets, and the result is refused; a path
    that ends in a semicolon and a slash changes again. *)
Example not_canonical :
  (validate_url "http://[2001:db8::1]/", validate_url "http://2001:db8::1/",
   validate_url "http://h/a;/", validate_url "http://h/a;")
  = (Ok "http://2001:db8::1/", Raise (ValueError "Invalid URL port"), Ok "http://h/a;", Ok "http://h/a").
Proof. vm_compute. reflexivity. Qed.
