(* ===== verification/Hermes.v ===== *)
(** Hermes: the registry of sources and targets and the fetch queue.  The repositories
    (infrastructure/db/repositories/hermes.py), the use cases
    (application/use_cases/run_hermes_fetch_job.py, enqueue_hermes_fetch_job.py,
    create_hermes_crawl_target.py, register_hermes_source.py) and the polling cycle of
    the worker (presentation/cli/commands.py).

    The exchange over the network is the argument [fetch]: what it yields at a time for a
    URL, and how long it takes.  Worker identifiers fit their column. *)
From Stdlib Require Import Ascii.
From S2P Require Import Prelude Text PyFloat PyVal PyDate Entities ContextEntities Store Json.
From S2P Require Import Logic Conflicts Projection Reproject Publication HermesContent HermesUrl.
Open Scope string_scope.
Open Scope list_scope.
Open Scope Z_scope.

(** ** Tables *)
Definition sources (db : DB) : gmap UUID HermesSource := hm_sources (db_hermes db).
Definition targets (db : DB) : gmap UUID HermesCrawlTarget := hm_targets (db_hermes db).
Definition jobs (db : DB) : gmap UUID HermesFetchJob := hm_jobs (db_hermes db).
Definition documents (db : DB) : gmap UUID HermesFetchedDocument := hm_documents (db_hermes db).
Definition changes (db : DB) : gmap UUID HermesSourceChange := hm_changes (db_hermes db).
Definition set_sources (m : gmap UUID HermesSource) : DB → DB := upd_hermes (λ t,
  mkHermesTables m (hm_targets t) (hm_jobs t) (hm_documents t) (hm_changes t)).
Definition set_targets (m : gmap UUID HermesCrawlTarget) : DB → DB := upd_hermes (λ t,
  mkHermesTables (hm_sources t) m (hm_jobs t) (hm_documents t) (hm_changes t)).
Definition set_jobs (m : gmap UUID HermesFetchJob) : DB → DB := upd_hermes (λ t,
  mkHermesTables (hm_sources t) (hm_targets t) m (hm_documents t) (hm_changes t)).
Definition set_documents (m : gmap UUID HermesFetchedDocument) : DB → DB := upd_hermes (λ t,
  mkHermesTables (hm_sources t) (hm_targets t) (hm_jobs t) m (hm_changes t)).
Definition set_changes (m : gmap UUID HermesSourceChange) : DB → DB := upd_hermes (λ t,
  mkHermesTables (hm_sources t) (hm_targets t) (hm_jobs t) (hm_documents t) m).

(** ** SqlHermesSourceRepository *)
Module HermesSourceRepo.
Definition get (id : UUID) : M (option HermesSource) := query (λ db, sources db !! id).
(** uq_hermes_sources_name_lower *)
Definition named (name : string) (db : DB) : list HermesSource :=
  filter (λ s, str_lower (hso_name s) = name) (rows (sources db)).
Definition find_by_name (name : string) : M (option HermesSource) :=
  scalar_query (named (str_strip (str_lower name))).
Definition storable (s : HermesSource) : bool := fits 255 (hso_name s) && fits_opt 50 (hso_reliability_tier s).
Definition insert (s : HermesSource) : M (option HermesSource) :=
  stmt (λ db,
    if negb (storable s) then (Raise (DataError "hermes_sources"), db)
    else match named (str_lower (hso_name s)) db, sources db !! hso_id s with
         | _ :: _, _ => (Ok None, db)
         | [], Some _ => (Raise (IntegrityError "hermes_sources_pkey"), db)
         | [], None => (Ok (Some s), set_sources (<[hso_id s := s]> (sources db)) db)
         end).
Definition add_or_get_by_name (s : HermesSource) : M (HermesSource * bool) :=
  row ← insert s;
  match row with
  | Some row => mret (row, true)
  | None =>
      existing ← find_by_name (hso_name s);
      match existing with
      | Some x => mret (x, false)
      | None => raise (ConcurrentUpsertError "HermesSource")
      end
  end.
Definition newest (x y : HermesSource) : bool := hso_created_at y <=? hso_created_at x.
Definition list_active (limit offset : nat) : M (list HermesSource) :=
  query (λ db, take limit (drop offset (py_sorted newest (filter (λ s, hso_is_active s = true) (rows (sources db)))))).
End HermesSourceRepo.

(** ** SqlHermesCrawlTargetRepository *)
Module TargetRepo.
Definition get (id : UUID) : M (option HermesCrawlTarget) := query (λ db, targets db !! id).
Definition with_url (url : string) (db : DB) : list HermesCrawlTarget :=
  filter (λ t, ht_normalized_url t = url) (rows (targets db)).
Definition find_by_normalized_url (url : string) : M (option HermesCrawlTarget) := scalar_query (with_url url).
Definition insert (t : HermesCrawlTarget) : M (option HermesCrawlTarget) :=
  stmt (λ db,
    match with_url (ht_normalized_url t) db, targets db !! ht_id t, sources db !! ht_source_id t with
    | _ :: _, _, _ => (Ok None, db)
    | [], Some _, _ => (Raise (IntegrityError "hermes_crawl_targets_pkey"), db)
    | [], None, None => (Raise (IntegrityError "hermes_crawl_targets_source_id_fkey"), db)
    | [], None, Some _ => (Ok (Some t), set_targets (<[ht_id t := t]> (targets db)) db)
    end).
Definition add_or_get_by_normalized_url (t : HermesCrawlTarget) : M (HermesCrawlTarget * bool) :=
  row ← insert t;
  match row with
  | Some row => mret (row, true)
  | None =>
      existing ← find_by_normalized_url (ht_normalized_url t);
      match existing with
      | Some x => mret (x, false)
      | None => raise (ConcurrentUpsertError "HermesCrawlTarget")
      end
  end.
(** The widths of the columns the fetch writes. *)
Definition storable (t : HermesCrawlTarget) : bool :=
  fits_opt 64 (ht_last_content_sha256 t) && int4_opt (ht_last_http_status t).
Definition touched (now : datetime) (t : HermesCrawlTarget) : HermesCrawlTarget :=
  mkTarget (ht_id t) (ht_source_id t) (ht_url t) (ht_normalized_url t) (ht_status t) (ht_label t)
    (ht_last_fetch_job_id t) (ht_last_fetched_document_id t) (ht_last_content_sha256 t)
    (ht_last_http_status t) (ht_last_fetched_at t) (ht_created_at t) now.
(** UPDATE of the row with the columns of [t]; the modification time is set by the ORM. *)
Definition save (t : HermesCrawlTarget) : M unit :=
  now ← utc_now;
  stmt (λ db,
    if storable t then (Ok tt, set_targets (<[ht_id t := touched now t]> (targets db)) db)
    else (Raise (DataError "hermes_crawl_targets"), db)).
Definition newest (x y : HermesCrawlTarget) : bool := ht_created_at y <=? ht_created_at x.
Definition list_targets (status : option HermesTargetStatus) (limit offset : nat) : M (list HermesCrawlTarget) :=
  query (λ db, take limit (drop offset (py_sorted newest
    (filter (λ t, from_option (λ s, bool_decide (ht_status t = s)) true status = true) (rows (targets db)))))).
End TargetRepo.

(** ** SqlHermesFetchJobRepository *)
Module JobRepo.
Definition get (id : UUID) : M (option HermesFetchJob) := query (λ db, jobs db !! id).
Definition active (j : HermesFetchJob) : Prop := hj_status j = JOB_QUEUED ∨ hj_status j = JOB_RUNNING.
#[export] Instance active_dec j : Decision (active j).
Proof. unfold active. apply _. Defined.
(** uq_hermes_fetch_jobs_one_active_per_target *)
Definition active_for (target_id : UUID) (db : DB) : list HermesFetchJob :=
  filter (λ j, hj_target_id j = target_id ∧ active j) (rows (jobs db)).
Definition oldest (x y : HermesFetchJob) : bool := hj_created_at x <=? hj_created_at y.
Definition find_active_for_target (target_id : UUID) : M (option HermesFetchJob) :=
  query (λ db, head (py_sorted oldest (active_for target_id db))).
Definition insert (j : HermesFetchJob) : M (option HermesFetchJob) :=
  stmt (λ db,
    if negb (int4 (hj_priority j)) then (Raise (DataError "hermes_fetch_jobs"), db)
    else match active_for (hj_target_id j) db, jobs db !! hj_id j, targets db !! hj_target_id j with
         | _ :: _, _, _ => (Ok None, db)
         | [], Some _, _ => (Raise (IntegrityError "hermes_fetch_jobs_pkey"), db)
         | [], None, None => (Raise (IntegrityError "hermes_fetch_jobs_target_id_fkey"), db)
         | [], None, Some _ => (Ok (Some j), set_jobs (<[hj_id j := j]> (jobs db)) db)
         end).
Definition add_or_get_active_for_target (j : HermesFetchJob) : M (HermesFetchJob * bool) :=
  row ← insert j;
  match row with
  | Some row => mret (row, true)
  | None =>
      existing ← find_active_for_target (hj_target_id j);
      match existing with
      | Some x => mret (x, false)
      | None => raise (ConcurrentUpsertError "HermesFetchJob")
      end
  end.

Definition due (now : datetime) (j : HermesFetchJob) : Prop :=
  hj_status j = JOB_QUEUED ∧ from_option (λ t, t <=? now) true (hj_scheduled_at j) = true.
#[export] Instance due_dec now j : Decision (due now j).
Proof. unfold due. apply _. Defined.
(** The columns of a claim. *)
Definition claimed (worker_id : string) (now lease_expires_at : datetime) (j : HermesFetchJob) : HermesFetchJob :=
  mkJob (hj_id j) (hj_target_id j) JOB_RUNNING (hj_priority j) (hj_attempt_count j + 1) (hj_max_attempts j)
    (hj_scheduled_at j) (Some now) None None (Some worker_id) (Some now) (Some lease_expires_at)
    (hj_created_at j) now.
Definition claim_running (job_id : UUID) (worker_id : string) (lease_expires_at : datetime)
    : M (option HermesFetchJob) :=
  now ← utc_now;
  stmt (λ db,
    match jobs db !! job_id with
    | Some j => if decide (due now j) then
                  let j' := claimed worker_id now lease_expires_at j in
                  (Ok (Some j'), set_jobs (<[job_id := j']> (jobs db)) db)
                else (Ok None, db)
    | None => (Ok None, db)
    end).

(** ORDER BY priority, created_at, id *)
Definition first_served (x y : HermesFetchJob) : bool :=
  (hj_priority x <? hj_priority y)
  || ((hj_priority x =? hj_priority y)
      && ((hj_created_at x <? hj_created_at y)
          || ((hj_created_at x =? hj_created_at y) && (hj_id x <=? hj_id y)%N))).
(** [skipped] are the rows other transactions hold locked (SKIP LOCKED). *)
Definition next_job (skipped : UUID → bool) (now : datetime) (db : DB) : option HermesFetchJob :=
  head (py_sorted first_served (filter (λ j, due now j ∧ skipped (hj_id j) = false) (rows (jobs db)))).
Definition claim_next_running (skipped : UUID → bool) (worker_id : string) (lease_expires_at : datetime)
    : M (option HermesFetchJob) :=
  now ← utc_now;
  stmt (λ db,
    match next_job skipped now db with
    | Some j => let j' := claimed worker_id now lease_expires_at j in
                (Ok (Some j'), set_jobs (<[hj_id j := j']> (jobs db)) db)
    | None => (Ok None, db)
    end).

(** The fence of a finalisation: the claim is still this worker's, and its lease runs. *)
Definition owned (worker_id : string) (attempt_count : Z) (now : datetime) (j : HermesFetchJob) : Prop :=
  hj_status j = JOB_RUNNING ∧ hj_locked_by j = Some worker_id ∧ hj_attempt_count j = attempt_count
  ∧ from_option (λ t, now <=? t) false (hj_lease_expires_at j) = true.
#[export] Instance owned_dec w n now j : Decision (owned w n now j).
Proof. unfold owned. apply _. Defined.
Definition lock_claim_for_finalization (job_id : UUID) (worker_id : string) (attempt_count : Z) (now : datetime)
    : M (option HermesFetchJob) :=
  query (λ db, j ← jobs db !! job_id; if decide (owned worker_id attempt_count now j) then Some j else None).

Definition touched (now : datetime) (j : HermesFetchJob) : HermesFetchJob :=
  mkJob (hj_id j) (hj_target_id j) (hj_status j) (hj_priority j) (hj_attempt_count j) (hj_max_attempts j)
    (hj_scheduled_at j) (hj_started_at j) (hj_finished_at j) (hj_error_message j) (hj_locked_by j)
    (hj_locked_at j) (hj_lease_expires_at j) (hj_created_at j) now.
Definition save (j : HermesFetchJob) : M unit :=
  now ← utc_now; exec (λ db, set_jobs (<[hj_id j := touched now j]> (jobs db)) db).

(** A job whose claim ended: the lock columns are cleared. *)
Definition released (status : HermesFetchJobStatus) (scheduled_at : option datetime) (finished_at : datetime)
    (error : option string) (j : HermesFetchJob) : HermesFetchJob :=
  mkJob (hj_id j) (hj_target_id j) status (hj_priority j) (hj_attempt_count j) (hj_max_attempts j)
    scheduled_at (hj_started_at j) (Some finished_at) error None None None (hj_created_at j) (hj_updated_at j).

Definition stale (now : datetime) (j : HermesFetchJob) : Prop :=
  hj_status j = JOB_RUNNING ∧ from_option (λ t, t <? now) false (hj_lease_expires_at j) = true.
#[export] Instance stale_dec now j : Decision (stale now j).
Proof. unfold stale. apply _. Defined.
Definition exhausted (j : HermesFetchJob) : bool := hj_max_attempts j <=? hj_attempt_count j.
(** ORDER BY lease_expires_at, id *)
Definition longest_expired (x y : HermesFetchJob) : bool :=
  let a := default 0 (hj_lease_expires_at x) in let b := default 0 (hj_lease_expires_at y) in
  (a <? b) || ((a =? b) && (hj_id x <=? hj_id y)%N).
Definition stale_ids (skipped : UUID → bool) (now : datetime) (limit : nat) (db : DB) : list UUID :=
  hj_id <$> take limit (py_sorted longest_expired
    (filter (λ j, stale now j ∧ skipped (hj_id j) = false) (rows (jobs db)))).
Definition recovered (now : datetime) (j : HermesFetchJob) : HermesFetchJob :=
  touched now (released (if exhausted j then JOB_FAILED else JOB_QUEUED) (if exhausted j then None else Some now) now
    (Some "Recovered stale RUNNING Hermes job after lease expiry") j).
(** HermesRecoveryOutcome, one per recovered job: here the row itself. *)
Definition recover_stale_running (skipped : UUID → bool) (now : datetime) (limit : nat) : M (list HermesFetchJob) :=
  ids ← query (stale_ids skipped now limit);
  match ids with
  | [] => mret []
  | _ => stmt (λ db,
           (Ok (omap (λ i, recovered now <$> jobs db !! i) ids),
            set_jobs (update_where (λ k _, bool_decide (k ∈ ids)) (recovered now) (jobs db)) db))
  end.
Definition newest (x y : HermesFetchJob) : bool := hj_created_at y <=? hj_created_at x.
Definition list_jobs (status : option HermesFetchJobStatus) (limit offset : nat) : M (list HermesFetchJob) :=
  query (λ db, take limit (drop offset (py_sorted newest
    (filter (λ j, from_option (λ s, bool_decide (hj_status j = s)) true status = true) (rows (jobs db)))))).
End JobRepo.

(** ** SqlHermesFetchedDocumentRepository, SqlHermesSourceChangeRepository *)
Module DocumentRepo.
Definition get (id : UUID) : M (option HermesFetchedDocument) := query (λ db, documents db !! id).
(** uq_hermes_fetched_documents_target_hash *)
Definition with_hash (target_id : UUID) (sha : string) (db : DB) : list HermesFetchedDocument :=
  filter (λ d, hd_target_id d = target_id ∧ hd_content_sha256 d = sha) (rows (documents db)).
Definition find_by_target_and_hash (target_id : UUID) (sha : string) : M (option HermesFetchedDocument) :=
  scalar_query (with_hash target_id sha).
Definition latest_first (x y : HermesFetchedDocument) : bool := hd_fetched_at y <=? hd_fetched_at x.
Definition for_target (target_id : UUID) (db : DB) : list HermesFetchedDocument :=
  py_sorted latest_first (filter (λ d, hd_target_id d = target_id) (rows (documents db))).
Definition get_latest_for_target (target_id : UUID) : M (option HermesFetchedDocument) :=
  query (λ db, head (for_target target_id db)).
Definition list_for_target (target_id : UUID) (limit offset : nat) : M (list HermesFetchedDocument) :=
  query (λ db, take limit (drop offset (for_target target_id db))).
(** PostgreSQL stores no NUL in a text. *)
Definition no_nul (t : option (list N)) : bool := from_option (λ t, bool_decide (0%N ∉ t)) true t.
Definition storable (d : HermesFetchedDocument) : bool :=
  int4_opt (hd_http_status d) && fits 64 (hd_content_sha256 d) && int4 (hd_content_length d)
  && no_nul (hd_title d) && no_nul (hd_raw_text_preview d).
Definition add (d : HermesFetchedDocument) : M unit :=
  stmt (λ db,
    if negb (storable d) then (Raise (DataError "hermes_fetched_documents"), db)
    else match documents db !! hd_id d, with_hash (hd_target_id d) (hd_content_sha256 d) db,
               targets db !! hd_target_id d, jobs db !! hd_fetch_job_id d with
         | Some _, _, _, _ => (Raise (IntegrityError "hermes_fetched_documents_pkey"), db)
         | None, _ :: _, _, _ => (Raise (IntegrityError "uq_hermes_fetched_documents_target_hash"), db)
         | None, [], Some _, Some _ => (Ok tt, set_documents (<[hd_id d := d]> (documents db)) db)
         | None, [], _, _ => (Raise (IntegrityError "hermes_fetched_documents_fkey"), db)
         end).
End DocumentRepo.

Module ChangeRepo.
Definition get (id : UUID) : M (option HermesSourceChange) := query (λ db, changes db !! id).
Definition add (c : HermesSourceChange) : M unit :=
  stmt (λ db,
    match changes db !! hg_id c, targets db !! hg_target_id c with
    | Some _, _ => (Raise (IntegrityError "hermes_source_changes_pkey"), db)
    | None, None => (Raise (IntegrityError "hermes_source_changes_target_id_fkey"), db)
    | None, Some _ =>
        if known (hg_fetch_job_id c) (jobs db) && known (hg_previous_document_id c) (documents db)
           && known (hg_new_document_id c) (documents db)
        then (Ok tt, set_changes (<[hg_id c := c]> (changes db)) db)
        else (Raise (IntegrityError "hermes_source_changes_fkey"), db)
    end).
Definition latest_first (x y : HermesSourceChange) : bool := hg_detected_at y <=? hg_detected_at x.
Definition list_for_target (target_id : UUID) (limit offset : nat) : M (list HermesSourceChange) :=
  query (λ db, take limit (drop offset (py_sorted latest_first
    (filter (λ c, hg_target_id c = target_id) (rows (changes db)))))).
End ChangeRepo.

(** ** run_hermes_fetch_job.py *)
Definition MAX_CONTENT_BYTES : Z := 10 * 1024 * 1024.
Definition MAX_RETRY_DELAY_SECONDS : Z := 60 * 60.
Definition retry_delay (attempt_count : Z) : Z :=
  let exponent := Z.max 0 (attempt_count - 1) in
  Z.min (60 * 2 ^ exponent) MAX_RETRY_DELAY_SECONDS * second_us.

(** What a fetch yields: the response, or the text of an exception.  A
    HermesPermanentFetchError is told from every other one. *)
Inductive FetchOutcome :=
  | Fetched (final_url : string) (http_status : Z) (content_type_header : option string) (body : string)
  | PermanentFailure (message : string)
  | TransientFailure (message : string).
Definition byte_length (body : string) : Z := Z.of_nat (length (chars body)).
Definition too_large : string :=
  "Hermes response exceeded " +:+ int_str MAX_CONTENT_BYTES +:+ " bytes and was not stored".
(** _fetch *)
Definition checked (o : FetchOutcome) : FetchOutcome :=
  match o with
  | Fetched _ _ _ body => if MAX_CONTENT_BYTES <? byte_length body then PermanentFailure too_large else o
  | _ => o
  end.

Record HermesFetchResult := mkFetchResult {
  fr_job_id : UUID;
  fr_target_id : UUID;
  fr_status : HermesFetchJobStatus;
  fr_document_id : option UUID;
  fr_change_id : option UUID;
  fr_change_type : option HermesChangeType;
  fr_content_sha256 : option string;
  fr_error_message : option string;
}.

(** Time passes. *)
Definition elapse (d : Z) : M unit := λ w,
  (Ok tt, mkWorld (w_db w) (w_committed w) (w_env w) (w_now w + Z.max 0 d) (w_uuid w)).

Module RunHermesFetchJob.
Section run.
Context `{Hashlib} (fetch : datetime → string → FetchOutcome * Z) (worker_id_prefix : string) (lease_seconds : Z).

Definition lease_expires_at : M datetime := now ← utc_now; mret (now + lease_seconds * second_us).
Definition inactive : string := "Target missing or not ACTIVE".

Definition lock_for_finalization (job : HermesFetchJob) : M (option HermesFetchJob) :=
  match hj_locked_by job with
  | None | Some EmptyString => mret None
  | Some worker_id =>
      now ← utc_now;
      JobRepo.lock_claim_for_finalization (hj_id job) worker_id (hj_attempt_count job) now
  end.
(** [message or default] *)
Definition or_default (message : option string) (d : string) : string :=
  match message with None | Some EmptyString => d | Some m => m end.
Definition lost_claim_result (job : HermesFetchJob) : M HermesFetchResult :=
  current ← JobRepo.get (hj_id job);
  mret match current with
       | None => mkFetchResult (hj_id job) (hj_target_id job) JOB_FAILED None None None None
                   (Some "Hermes job disappeared before finalization")
       | Some j => mkFetchResult (hj_id j) (hj_target_id j) (hj_status j) None None None None
                     (Some (or_default (hj_error_message j) "Hermes claim lease lost before finalization"))
       end.

(** The outcome of an attempt that failed: whether it is retried, and when. *)
Definition failed (permanent : bool) (now : datetime) (error : string) (j : HermesFetchJob) : HermesFetchJob :=
  if permanent || JobRepo.exhausted j then JobRepo.released JOB_FAILED None now (Some error) j
  else JobRepo.released JOB_QUEUED (Some (now + retry_delay (hj_attempt_count j))) now (Some error) j.
Definition finalize_failure (claimed_job : HermesFetchJob) (error : string) (permanent : bool)
    : M HermesFetchResult :=
  locked ← lock_for_finalization claimed_job;
  match locked with
  | None => lost_claim_result claimed_job
  | Some job =>
      target ← TargetRepo.get (hj_target_id job);
      now ← utc_now;
      let job := failed permanent now error job in
      JobRepo.save job;;
      change_id ← match target with
                  | None => mret None
                  | Some t =>
                      id ← uuid4; created_at ← utc_now;
                      ChangeRepo.add (mkChange id (ht_id t) (Some (hj_id job)) None None FETCH_FAILED None None
                                        now created_at);;
                      mret (Some id)
                  end;
      commit;;
      mret (mkFetchResult (hj_id job) (hj_target_id job) (hj_status job) None change_id (Some FETCH_FAILED) None
              (Some error))
  end.

(** The document and the change of a response: the stored document with the same hash,
    or a new one. *)
Definition record_content (job : HermesFetchJob) (target : HermesCrawlTarget) (final_url : string)
    (http_status : Z) (ct_header : option string) (body : string) : M (UUID * HermesSourceChange) :=
  let content_type := detect_content_type_from_bytes body ct_header (Some (ht_normalized_url target)) in
  let sha := sha256_bytes body in
  let preview := make_text_preview body content_type 2000 in
  let title := if bool_decide (content_type = CT_HTML) then extract_html_title body else None in
  previous_doc ← DocumentRepo.get_latest_for_target (ht_id target);
  existing_doc ← DocumentRepo.find_by_target_and_hash (ht_id target) sha;
  match existing_doc with
  | Some d =>
      detected_at ← utc_now; id ← uuid4; created_at ← utc_now;
      mret (hd_id d, mkChange id (ht_id target) (Some (hj_id job)) (Some (hd_id d)) (Some (hd_id d))
                       CONTENT_UNCHANGED (Some sha) (Some sha) detected_at created_at)
  | None =>
      fetched_at ← utc_now; doc_id ← uuid4; doc_created_at ← utc_now;
      DocumentRepo.add (mkDocument doc_id (ht_id target) (hj_id job) (ht_url target) (Some final_url)
        (Some http_status) content_type sha (byte_length body) title preview fetched_at doc_created_at);;
      let change_type := match previous_doc, ht_last_content_sha256 target with
                         | None, None => FIRST_SEEN
                         | _, _ => CONTENT_CHANGED
                         end in
      detected_at ← utc_now; id ← uuid4; created_at ← utc_now;
      mret (doc_id, mkChange id (ht_id target) (Some (hj_id job)) (hd_id <$> previous_doc) (Some doc_id)
                      change_type (ht_last_content_sha256 target) (Some sha) detected_at created_at)
  end.
Definition fetched (job_id document_id : UUID) (sha : string) (http_status : Z) (now : datetime)
    (t : HermesCrawlTarget) : HermesCrawlTarget :=
  mkTarget (ht_id t) (ht_source_id t) (ht_url t) (ht_normalized_url t) (ht_status t) (ht_label t)
    (Some job_id) (Some document_id) (Some sha) (Some http_status) (Some now) (ht_created_at t) (ht_updated_at t).
Definition finalize_success (claimed_job : HermesFetchJob) (final_url : string) (http_status : Z)
    (ct_header : option string) (body : string) : M HermesFetchResult :=
  locked ← lock_for_finalization claimed_job;
  match locked with
  | None => lost_claim_result claimed_job
  | Some job =>
      target ← TargetRepo.get (hj_target_id job);
      match target with
      | None => finalize_failure job inactive false
      | Some target =>
          if negb (bool_decide (ht_status target = TARGET_ACTIVE)) then finalize_failure job inactive false
          else
            '(document_id, change) ← record_content job target final_url http_status ct_header body;
            ChangeRepo.add change;;
            fetched_at ← utc_now;
            TargetRepo.save (fetched (hj_id job) document_id (sha256_bytes body) http_status fetched_at target);;
            finished_at ← utc_now;
            JobRepo.save (JobRepo.released JOB_SUCCEEDED None finished_at None job);;
            commit;;
            mret (mkFetchResult (hj_id job) (hj_target_id job) JOB_SUCCEEDED (Some document_id) (Some (hg_id change))
                    (Some (hg_change_type change)) (Some (sha256_bytes body)) None)
      end
  end.

(** The transaction that ends an attempt. *)
Definition finalize (job : HermesFetchJob) (o : FetchOutcome) : M HermesFetchResult :=
  match o with
  | Fetched final_url http_status ct_header body => finalize_success job final_url http_status ct_header body
  | PermanentFailure message => finalize_failure job (str_take 1000 message) true
  | TransientFailure message => finalize_failure job (str_take 1000 message) false
  end.

(** The part of [execute_claimed] in the transaction of the claim: the target to fetch,
    or the result when there is none. *)
Definition begin_claimed (job : HermesFetchJob) : M (HermesFetchResult + HermesCrawlTarget) :=
  if negb (bool_decide (hj_status job = JOB_RUNNING))
     || match hj_locked_by job with None | Some EmptyString => true | _ => false end
  then raise (ValueError "execute_claimed requires a RUNNING Hermes job with a live owner")
  else
    target ← TargetRepo.get (hj_target_id job);
    let missing :=
      now ← utc_now;
      JobRepo.save (JobRepo.released JOB_FAILED None now (Some inactive) job);;
      commit;;
      mret (inl (mkFetchResult (hj_id job) (hj_target_id job) JOB_FAILED None None None None (Some inactive))) in
    match target with
    | None => missing
    | Some t => if negb (bool_decide (ht_status t = TARGET_ACTIVE)) then missing else commit;; mret (inr t)
    end.
Definition execute_claimed (job : HermesFetchJob) : M HermesFetchResult :=
  begun ← begin_claimed job;
  match begun with
  | inl result => mret result
  | inr target =>
      now ← utc_now;
      let '(outcome, duration) := fetch now (ht_normalized_url target) in
      elapse duration;;
      finalize job (checked outcome)
  end.

Definition execute (job_id : UUID) : M HermesFetchResult :=
  id ← uuid4;
  let worker_id := worker_id_prefix +:+ ":" +:+ uuid_str id in
  lease ← lease_expires_at;
  job ← JobRepo.claim_running job_id worker_id lease;
  match job with
  | Some job => execute_claimed job
  | None =>
      current ← JobRepo.get job_id;
      match current with
      | None => raise (ValueError ("HermesFetchJob " +:+ uuid_str job_id +:+ " not found"))
      | Some j => mret (mkFetchResult (hj_id j) (hj_target_id j) (hj_status j) None None None None (hj_error_message j))
      end
  end.
End run.
End RunHermesFetchJob.

(** ** The other use cases *)
Definition target_status_value (s : HermesTargetStatus) : string :=
  match s with TARGET_ACTIVE => "ACTIVE" | TARGET_PAUSED => "PAUSED" | TARGET_DISABLED => "DISABLED" end.
Definition EnqueueHermesFetchJob (target_id : UUID) (priority : Z) (scheduled_at : option datetime)
    : M HermesFetchJob :=
  target ← TargetRepo.get target_id;
  match target with
  | None => raise (ValueError ("HermesCrawlTarget " +:+ uuid_str target_id +:+ " not found"))
  | Some t =>
      if negb (bool_decide (ht_status t = TARGET_ACTIVE))
      then raise (ValueError ("Target " +:+ uuid_str target_id +:+ " is not ACTIVE (status="
                             +:+ target_status_value (ht_status t) +:+ ")"))
      else
        id ← uuid4; created_at ← utc_now; updated_at ← utc_now;
        '(result, created) ← JobRepo.add_or_get_active_for_target
          (mkJob id target_id JOB_QUEUED priority 0 3 scheduled_at None None None None None None created_at updated_at);
        (if created : bool then commit else mret tt);;
        mret result
  end.

Definition CreateHermesCrawlTarget (source_id : UUID) (url : string) (label : option string)
    : M HermesCrawlTarget :=
  source ← HermesSourceRepo.get source_id;
  match source with
  | None => raise (ValueError ("HermesSource " +:+ uuid_str source_id +:+ " not found"))
  | Some _ =>
      normalized ← lift_res (validate_url url);
      id ← uuid4; created_at ← utc_now; updated_at ← utc_now;
      '(result, created) ← TargetRepo.add_or_get_by_normalized_url
        (mkTarget id source_id url normalized TARGET_ACTIVE label None None None None None created_at updated_at);
      (if created : bool then commit else mret tt);;
      mret result
  end.

Definition RegisterHermesSource (name : string) (source_type : HermesSourceType) (base_url reliability_tier : option string)
    : M HermesSource :=
  base_url ← match base_url with
             | None | Some EmptyString => mret None
             | Some u => n ← lift_res (validate_url u); mret (Some n)
             end;
  id ← uuid4; created_at ← utc_now; updated_at ← utc_now;
  '(result, created) ← HermesSourceRepo.add_or_get_by_name
    (mkHermesSource id (str_strip name) source_type base_url reliability_tier true created_at updated_at);
  (if created : bool then commit else mret tt);;
  mret result.

(** ** The polling cycle of the worker *)
Section worker.
Context `{Hashlib} (fetch : datetime → string → FetchOutcome * Z) (worker_prefix : string) (lease_seconds : Z)
  (skipped : UUID → bool).

(** Expired claims end; the jobs without attempts left leave a FETCH_FAILED change. *)
Definition recover (recover_limit : nat) : M (list HermesFetchJob) :=
  now ← utc_now;
  outcomes ← JobRepo.recover_stale_running skipped now recover_limit;
  match outcomes with
  | [] => mret []
  | _ =>
      now ← utc_now;
      for_each (filter (λ o, hj_status o = JOB_FAILED) outcomes) (λ o,
        id ← uuid4; created_at ← utc_now;
        ChangeRepo.add (mkChange id (hj_target_id o) (Some (hj_id o)) None None FETCH_FAILED None None now created_at));;
      commit;;
      mret outcomes
  end.

Definition claim_next : M (option HermesFetchJob) :=
  id ← uuid4;
  now ← utc_now;
  JobRepo.claim_next_running skipped (worker_prefix +:+ ":" +:+ uuid_str id) (now + lease_seconds * second_us).

(** [for _ in range(batch_limit)], until no job is due. *)
Fixpoint batch (n : nat) : M nat :=
  match n with
  | O => mret O
  | S n' =>
      result ← with_uow (
        job ← claim_next;
        match job with
        | None => mret None
        | Some job => r ← RunHermesFetchJob.execute_claimed fetch job; mret (Some r)
        end);
      match result with
      | None => mret O
      | Some _ => k ← batch n'; mret (S k)
      end
  end.
Definition cycle (recover_limit batch_limit : nat) : M nat :=
  _ ← with_uow (recover recover_limit); batch batch_limit.
End worker.
