(* ===== verification/HermesFacts.v ===== *)
(** What holds of Hermes: the invariant of the queue, the life of a job, and the fence that
    keeps a worker whose claim is over from writing. *)
From S2P Require Import Prelude Text PyFloat PyVal PyDate Entities ContextEntities Store Json.
From S2P Require Import Logic Conflicts Projection Reproject Publication HermesContent HermesUrl Wp Hermes.
Import RunHermesFetchJob.
Open Scope string_scope.
Open Scope list_scope.
Open Scope Z_scope.

(** ** The life of a job *)
Definition same_job (j j' : HermesFetchJob) : Prop :=
  hj_id j' = hj_id j ∧ hj_target_id j' = hj_target_id j ∧ hj_priority j' = hj_priority j
  ∧ hj_max_attempts j' = hj_max_attempts j ∧ hj_created_at j' = hj_created_at j.
Definition unlocked (j : HermesFetchJob) : Prop :=
  hj_locked_by j = None ∧ hj_locked_at j = None ∧ hj_lease_expires_at j = None.
Definition over (j : HermesFetchJob) : Prop := ¬ JobRepo.active j.

(** A claim takes one more attempt, and ends with success, failure or another wait. *)
Inductive job_move (j : HermesFetchJob) : HermesFetchJob → Prop :=
  | mv_claim worker now lease :
      hj_status j = JOB_QUEUED → job_move j (JobRepo.claimed worker now lease j)
  | mv_end j' :
      hj_status j = JOB_RUNNING → hj_status j' ≠ JOB_RUNNING → same_job j j' → unlocked j' →
      hj_attempt_count j' = hj_attempt_count j →
      (hj_status j' = JOB_QUEUED → hj_attempt_count j < hj_max_attempts j) → job_move j j'.

(** QUEUED jobs have an attempt left; exactly the RUNNING ones are locked. *)
Record job_ok (j : HermesFetchJob) : Prop := {
  jo_attempts : 0 <= hj_attempt_count j <= hj_max_attempts j;
  jo_queued : hj_status j = JOB_QUEUED → hj_attempt_count j < hj_max_attempts j;
  jo_running : hj_status j = JOB_RUNNING →
    is_Some (hj_locked_by j) ∧ is_Some (hj_lease_expires_at j) ∧ 1 <= hj_attempt_count j;
  jo_unlocked : hj_status j ≠ JOB_RUNNING → unlocked j;
}.

Lemma job_move_ok j j' : job_ok j → job_move j j' → job_ok j'.
Proof.
  intros [Ha Hq Hr Hu] [w t l Hs|j1 Hs Hn (Ei & Et & Ep & Em & Ec) Hul Ea Hb].
  - specialize (Hq Hs). split; simpl; [lia|done| |done].
    intros _. split_and!; [by eexists|by eexists|lia].
  - split; [lia| |done|done]. intros E. specialize (Hb E). lia.
Qed.
Lemma job_move_same j j' : job_move j j' → same_job j j'.
Proof. by intros [w t l Hs|j1]. Qed.
Lemma job_move_active j j' : job_move j j' → JobRepo.active j.
Proof. by intros [w t l Hs|j1 Hs]; [left|right]. Qed.

(** Every move advances the job: two steps to an attempt. *)
Definition running (j : HermesFetchJob) : bool := bool_decide (hj_status j = JOB_RUNNING).
Definition rank (j : HermesFetchJob) : Z := 2 * hj_attempt_count j - (if running j then 1 else 0).
Lemma job_move_rank j j' : job_move j j' → rank j < rank j'.
Proof.
  unfold rank, running. intros [w t l Hs|j1 Hs Hn _ _ Ea _].
  - rewrite Hs. simpl. lia.
  - rewrite (bool_decide_true (hj_status j = JOB_RUNNING)) by done.
    rewrite (bool_decide_false (hj_status j1 = JOB_RUNNING)) by done. lia.
Qed.

(** What any number of moves amounts to. *)
Record job_progress (j j' : HermesFetchJob) : Prop := {
  jp_same : same_job j j';
  jp_attempts : hj_attempt_count j <= hj_attempt_count j';
  jp_final : over j → j' = j;
  jp_rank : j' = j ∨ rank j < rank j';
}.
#[export] Instance job_progress_preorder : PreOrder job_progress.
Proof.
  split.
  - intros j. split; [by repeat split|lia|done|by left].
  - intros j1 j2 j3 [(? & ? & ? & ? & ?) A1 F1 R1] [(? & ? & ? & ? & ?) A2 F2 R2].
    split; [repeat split; congruence|lia| |].
    + intros Ho. pose proof (F1 Ho) as ->. by apply F2.
    + destruct R1 as [->|R1], R2 as [->|R2]; [by left|by right|by right|right; lia].
Qed.
Lemma job_move_progress j j' : job_move j j' → job_progress j j'.
Proof.
  intros Hm. split; [by apply job_move_same| |by intros []; eapply job_move_active|right; by apply job_move_rank].
  destruct Hm as [w t l Hs|j1]; simpl; lia.
Qed.

(** ** Well-formed tables *)
Definition keyed {A} (id : A → UUID) (m : gmap UUID A) : Prop := ∀ k x, m !! k = Some x → id x = k.
Definition distinct {A K} (key : A → K) (m : gmap UUID A) : Prop :=
  ∀ k k' x x', m !! k = Some x → m !! k' = Some x' → key x = key x' → k = k'.

Record hermes_ok (db : DB) : Prop := {
  ho_sources : keyed hso_id (sources db);
  ho_names : distinct (λ s, str_lower (hso_name s)) (sources db);
  ho_targets : keyed ht_id (targets db);
  ho_urls : distinct ht_normalized_url (targets db);
  ho_jobs : keyed hj_id (jobs db);
  ho_job : ∀ k j, jobs db !! k = Some j → job_ok j ∧ is_Some (targets db !! hj_target_id j);
  ho_active : ∀ k k' j j', jobs db !! k = Some j → jobs db !! k' = Some j' →
    JobRepo.active j → JobRepo.active j' → hj_target_id j = hj_target_id j' → k = k';
  ho_documents : keyed hd_id (documents db);
  ho_hashes : distinct (λ d, (hd_target_id d, hd_content_sha256 d)) (documents db);
  ho_document : ∀ k d, documents db !! k = Some d →
    is_Some (targets db !! hd_target_id d) ∧ is_Some (jobs db !! hd_fetch_job_id d);
  ho_changes : keyed hg_id (changes db);
  ho_change : ∀ k c, changes db !! k = Some c → is_Some (targets db !! hg_target_id c);
}.

(** What stays: rows are never removed, a target keeps its address, a job only moves on,
    documents and changes are written once. *)
Record hermes_grows (db db' : DB) : Prop := {
  hg_sources : sources db ⊆ sources db';
  hg_targets : ∀ k t, targets db !! k = Some t → ∃ t', targets db' !! k = Some t'
    ∧ ht_source_id t' = ht_source_id t ∧ ht_url t' = ht_url t ∧ ht_normalized_url t' = ht_normalized_url t;
  hg_jobs : ∀ k j, jobs db !! k = Some j → ∃ j', jobs db' !! k = Some j' ∧ job_progress j j';
  hg_documents : documents db ⊆ documents db';
  hg_changes : changes db ⊆ changes db';
}.
(** A table left as it was. *)
Ltac unchanged :=
  first [ done
        | intros ? x Hx; exists x; split; [exact Hx|reflexivity]
        | intros ? x Hx; exists x; split; [exact Hx|split; [reflexivity|split; reflexivity]] ].
(** A table that was just written. *)
Ltac tables :=
  repeat match goal with
    | |- context [sources (set_sources ?m ?d)] => change (sources (set_sources m d)) with m
    | |- context [targets (set_targets ?m ?d)] => change (targets (set_targets m d)) with m
    | |- context [jobs (set_jobs ?m ?d)] => change (jobs (set_jobs m d)) with m
    | |- context [documents (set_documents ?m ?d)] => change (documents (set_documents m d)) with m
    | |- context [changes (set_changes ?m ?d)] => change (changes (set_changes m d)) with m
    end.
#[export] Instance hermes_grows_preorder : PreOrder hermes_grows.
Proof.
  split.
  - intros db. split; unchanged.
  - intros d1 d2 d3 [S1 T1 J1 D1 C1] [S2 T2 J2 D2 C2]. split; [by etrans| | |by etrans|by etrans].
    + intros k t (t2 & Ht2 & E1 & E2 & E3)%T1. apply T2 in Ht2 as (t3 & Ht3 & F1 & F2 & F3).
      exists t3. split_and!; congruence.
    + intros k j (j2 & Hj2 & P1)%J1. apply J2 in Hj2 as (j3 & Hj3 & P2). exists j3. split; [done|by etrans].
Qed.

Lemma keyed_added {A} (id : A → UUID) m x : keyed id m → keyed id (<[id x := x]> m).
Proof. intros H k y [[<- <-]|[_ Hy]]%lookup_insert_Some; [done|by apply H]. Qed.
Lemma distinct_insert {A K} (key : A → K) (m : gmap UUID A) i x :
  distinct key m → (∀ k y, m !! k = Some y → key y = key x → k = i) → distinct key (<[i := x]> m).
Proof.
  intros H Hn k k' y y' [[<- <-]|[Hk Hy]]%lookup_insert_Some [[<- <-]|[Hk' Hy']]%lookup_insert_Some E;
    [done| | |by eapply H].
  - symmetry. by eapply Hn.
  - by eapply Hn.
Qed.

Section written.
#[local] Set Default Proof Using "Type*".
Context (db : DB) (Hok : hermes_ok db).
Abbreviation keeps db' := (hermes_ok db' ∧ hermes_grows db db').

Lemma source_added s : sources db !! hso_id s = None →
  HermesSourceRepo.named (str_lower (hso_name s)) db = [] → keeps (set_sources (<[hso_id s := s]> (sources db)) db).
Proof.
  intros Hn Hf. destruct Hok. split; [split; try done|split; try unchanged]; tables.
  - by apply keyed_added.
  - apply distinct_insert; [done|]. intros k y Hy E. exfalso.
    apply (not_elem_of_nil y). rewrite <- Hf. apply list_elem_of_filter. split; [done|]. apply elem_of_rows. by exists k.
  - by apply insert_subseteq.
Qed.

Lemma target_added t : targets db !! ht_id t = None → TargetRepo.with_url (ht_normalized_url t) db = [] →
  keeps (set_targets (<[ht_id t := t]> (targets db)) db).
Proof.
  intros Hn Hf. destruct Hok.
  assert (∀ k, is_Some (targets db !! k) → is_Some (<[ht_id t := t]> (targets db) !! k)) as Hmono.
  { intros k Hk. rewrite lookup_insert_is_Some. destruct (decide (ht_id t = k)); tauto. }
  split; [split; try done|split; try unchanged]; tables.
  - by apply keyed_added.
  - apply distinct_insert; [done|]. intros k y Hy E. exfalso.
    apply (not_elem_of_nil y). rewrite <- Hf. apply list_elem_of_filter. split; [done|]. apply elem_of_rows. by exists k.
  - intros k j Hj. destruct (ho_job0 k j Hj). by split; [|apply Hmono].
  - intros k d Hd. destruct (ho_document0 k d Hd). by split; [apply Hmono|].
  - intros k c Hc. by eapply Hmono, ho_change0.
  - intros k t' Ht. exists t'. split; [|done]. apply lookup_insert_Some. right. split; [congruence|done].
Qed.

(** A target with the address of the row it replaces. *)
Lemma target_saved t t0 : targets db !! ht_id t = Some t0 → ht_source_id t = ht_source_id t0 →
  ht_url t = ht_url t0 → ht_normalized_url t = ht_normalized_url t0 →
  keeps (set_targets (<[ht_id t := t]> (targets db)) db).
Proof.
  intros H0 E1 E2 E3. destruct Hok.
  assert (∀ k, is_Some (targets db !! k) → is_Some (<[ht_id t := t]> (targets db) !! k)) as Hmono.
  { intros k Hk. rewrite lookup_insert_is_Some. destruct (decide (ht_id t = k)); tauto. }
  split; [split; try done|split; try unchanged]; tables.
  - by apply keyed_added.
  - apply distinct_insert; [done|]. intros k y Hy E. eapply ho_urls0; [done|done|congruence].
  - intros k j Hj. destruct (ho_job0 k j Hj). by split; [|apply Hmono].
  - intros k d Hd. destruct (ho_document0 k d Hd). by split; [apply Hmono|].
  - intros k c Hc. by eapply Hmono, ho_change0.
  - intros k t' Ht. destruct (decide (ht_id t = k)) as [<-|Hne].
    + exists t. rewrite lookup_insert_eq. rewrite H0 in Ht. injection Ht as <-. by split_and!.
    + exists t'. by rewrite lookup_insert_ne.
Qed.

Lemma job_added j : jobs db !! hj_id j = None → job_ok j → is_Some (targets db !! hj_target_id j) →
  JobRepo.active_for (hj_target_id j) db = [] → keeps (set_jobs (<[hj_id j := j]> (jobs db)) db).
Proof.
  intros Hn Hj Ht Hf. destruct Hok.
  assert (∀ k y, jobs db !! k = Some y → hj_target_id y = hj_target_id j → JobRepo.active y → False) as Hno.
  { intros k y Hy Et Ha. apply (not_elem_of_nil y). rewrite <- Hf. apply list_elem_of_filter.
    split; [by split|]. apply elem_of_rows. by exists k. }
  split; [split; try done|split; try unchanged]; tables.
  - by apply keyed_added.
  - intros k y [[<- <-]|[_ Hy]]%lookup_insert_Some; [done|by apply (ho_job0 k)].
  - intros k k' y y' [[<- <-]|[Hk Hy]]%lookup_insert_Some [[<- <-]|[Hk' Hy']]%lookup_insert_Some A A' E;
      [done| | |by eapply ho_active0].
    + exfalso. by eapply Hno.
    + exfalso. by eapply Hno.
  - intros k d Hd. destruct (ho_document0 k d Hd). split; [done|]. rewrite lookup_insert_is_Some.
    destruct (decide (hj_id j = hd_fetch_job_id d)); tauto.
  - intros k y Hy. exists y. split; [|done]. apply lookup_insert_Some. right. split; [congruence|done].
Qed.

(** Each row stays or moves. *)
Definition jobs_moved (m m' : gmap UUID HermesFetchJob) : Prop :=
  ∀ k, match m !! k, m' !! k with
       | Some j, Some j' => j' = j ∨ job_move j j'
       | None, None => True
       | _, _ => False
       end.
Lemma jobs_moved_insert m k j j' : m !! k = Some j → job_move j j' → jobs_moved m (<[k := j']> m).
Proof.
  intros Hk Hm k'. destruct (decide (k = k')) as [<-|Hne].
  - rewrite Hk, lookup_insert_eq. by right.
  - rewrite lookup_insert_ne by done. destruct (m !! k'); [by left|done].
Qed.
Lemma jobs_moved_update p f m : (∀ k j, m !! k = Some j → p k j = true → job_move j (f j)) →
  jobs_moved m (update_where p f m).
Proof.
  intros Hf k. rewrite lookup_update_where. destruct (m !! k) as [j|] eqn:E; [|done]. simpl.
  destruct (p k j) eqn:Ep; [right; by apply (Hf k)|by left].
Qed.

Lemma jobs_moved_keeps m : jobs_moved (jobs db) m → keeps (set_jobs m db).
Proof.
  intros Hm. destruct Hok.
  assert (∀ k j', m !! k = Some j' → ∃ j, jobs db !! k = Some j ∧ (j' = j ∨ job_move j j')) as Hback.
  { intros k j' Hj'. specialize (Hm k). rewrite Hj' in Hm. destruct (jobs db !! k); [by eexists|done]. }
  assert (∀ k j, jobs db !! k = Some j → ∃ j', m !! k = Some j' ∧ (j' = j ∨ job_move j j')) as Hforth.
  { intros k j Hj. specialize (Hm k). rewrite Hj in Hm. destruct (m !! k); [by eexists|done]. }
  assert (∀ j j', j' = j ∨ job_move j j' → same_job j j') as Hsame.
  { intros j j' [->|H]; [by repeat split|by apply job_move_same]. }
  split; [split; try done|split; try unchanged]; tables.
  - intros k j' (j & Hj & H)%Hback. destruct (Hsame _ _ H) as [-> _]. by apply ho_jobs0.
  - intros k j' (j & Hj & H)%Hback. destruct (ho_job0 k j Hj) as [Ho Ht].
    destruct (Hsame _ _ H) as (_ & -> & _). split; [|done].
    destruct H as [->|H]; [done|by eapply job_move_ok].
  - intros k k' x x' (j & Hj & H)%Hback (j0 & Hj0 & H0)%Hback Ha Ha' E.
    destruct (Hsame _ _ H) as (_ & Et & _), (Hsame _ _ H0) as (_ & Et0 & _).
    eapply ho_active0; [exact Hj|exact Hj0| | |congruence].
    + destruct H as [->|H]; [done|by eapply job_move_active].
    + destruct H0 as [->|H0]; [done|by eapply job_move_active].
  - intros k d Hd. destruct (ho_document0 k d Hd) as [? [j Hj]]. split; [done|].
    apply Hforth in Hj as (j' & Hj' & _). by eexists.
  - intros k j (j' & Hj' & H)%Hforth. exists j'. split; [done|].
    destruct H as [->|H]; [done|by apply job_move_progress].
Qed.

Lemma document_added d : documents db !! hd_id d = None →
  DocumentRepo.with_hash (hd_target_id d) (hd_content_sha256 d) db = [] →
  is_Some (targets db !! hd_target_id d) → is_Some (jobs db !! hd_fetch_job_id d) →
  keeps (set_documents (<[hd_id d := d]> (documents db)) db).
Proof.
  intros Hn Hf Ht Hj. destruct Hok.
  split; [split; try done|split; try unchanged]; tables.
  - by apply keyed_added.
  - apply distinct_insert; [done|]. intros k y Hy [= E1 E2]. exfalso.
    apply (not_elem_of_nil y). rewrite <- Hf. apply list_elem_of_filter. split; [done|]. apply elem_of_rows. by exists k.
  - intros k y [[<- <-]|[_ Hy]]%lookup_insert_Some; [done|by apply (ho_document0 k)].
  - by apply insert_subseteq.
Qed.

Lemma change_added c : changes db !! hg_id c = None → is_Some (targets db !! hg_target_id c) →
  keeps (set_changes (<[hg_id c := c]> (changes db)) db).
Proof.
  intros Hn Ht. destruct Hok.
  split; [split; try done|split; try unchanged]; tables.
  - by apply keyed_added.
  - intros k y [[<- <-]|[_ Hy]]%lookup_insert_Some; [done|by apply (ho_change0 k)].
  - by apply insert_subseteq.
Qed.
End written.

(** ** Transactions that keep the tables well formed *)
Section transactions.
Context (db0 : DB).
Definition wellrun (db : DB) : Prop := hermes_ok db ∧ hermes_grows db0 db.
Lemma wellrun_step db db' : wellrun db → hermes_ok db' ∧ hermes_grows db db' → wellrun db'.
Proof. intros [_ Hg] [Hok Hg']. split; [done|by etrans]. Qed.

(** What a transaction leaves when it returns: everything it wrote is committed. *)
Definition commits_all {A} (_ : A) (db com : DB) (_ : Z) (_ : N) : Prop := db = com ∧ wellrun com.
Abbreviation tx m db com now uid := (wp m commits_all db com now uid).

Lemma released_move j st sch now fin err : hj_status j = JOB_RUNNING → st ≠ JOB_RUNNING →
  (st = JOB_QUEUED → hj_attempt_count j < hj_max_attempts j) →
  job_move j (JobRepo.touched now (JobRepo.released st sch fin err j)).
Proof. intros Hr Hst Ha. by apply mv_end. Qed.

Lemma wp_save j j' (Q : () → DB → DB → Z → N → Prop) db com now uid :
  wellrun db → jobs db !! hj_id j' = Some j →
  (∀ t, job_move j (JobRepo.touched t j')) →
  (∀ db' now', wellrun db' → targets db' = targets db → jobs db' = <[hj_id j' := JobRepo.touched now j']> (jobs db) →
     Q tt db' com now' uid) →
  wp (JobRepo.save j') Q db com now uid.
Proof.
  intros Hw Hj Hm HQ. unfold JobRepo.save. repeat wp_step. apply HQ; [|done|done].
  eapply wellrun_step; [done|]. apply jobs_moved_keeps; [apply Hw|]. eapply jobs_moved_insert; [done|apply Hm].
Qed.

Lemma wp_change_add c (Q : () → DB → DB → Z → N → Prop) db com now uid :
  wellrun db → (∀ db', wellrun db' → targets db' = targets db → jobs db' = jobs db → Q tt db' com now uid) →
  wp (ChangeRepo.add c) Q db com now uid.
Proof.
  intros Hw HQ. apply wp_stmt. intros [] db'. destruct (changes db !! hg_id c) eqn:Ec; [done|].
  destruct (targets db !! hg_target_id c) eqn:Et; [|done]. destruct (_ && _); [|done]. intros [= <-].
  apply HQ; [|done|done]. eapply wellrun_step; [done|]. apply change_added; [apply Hw|done|by rewrite Et].
Qed.

Lemma wp_lock job (Q : option HermesFetchJob → DB → DB → Z → N → Prop) db com now uid :
  hermes_ok db → (∀ now', Q None db com now' uid) →
  (∀ j now', jobs db !! hj_id j = Some j → hj_id j = hj_id job → hj_status j = JOB_RUNNING →
     Q (Some j) db com now' uid) →
  wp (lock_for_finalization job) Q db com now uid.
Proof.
  intros Hok Hnone Hsome. unfold lock_for_finalization.
  assert (∀ w, wp (now ← utc_now; JobRepo.lock_claim_for_finalization (hj_id job) w (hj_attempt_count job) now)
    Q db com now uid) as Hw.
  { intros w. unfold JobRepo.lock_claim_for_finalization. repeat wp_step.
    destruct (jobs db !! hj_id job) as [j|] eqn:Ej; simpl; [|apply Hnone].
    destruct (decide _) as [Ho|]; [|apply Hnone]. pose proof (ho_jobs _ Hok _ _ Ej) as Ei.
    apply Hsome; [by rewrite Ei|done|apply Ho]. }
  destruct (hj_locked_by job) as [[|c w]|]; [wp_step; apply Hnone|apply Hw|wp_step; apply Hnone].
Qed.

Lemma lost_claim_ok job db now uid : wellrun db → tx (lost_claim_result job) db db now uid.
Proof. intros Hw. unfold lost_claim_result, JobRepo.get. repeat wp_step; by split. Qed.

Lemma failed_move p j t now e : job_ok j → hj_status j = JOB_RUNNING →
  job_move j (JobRepo.touched t (failed p now e j)).
Proof.
  intros Hj Hr. unfold failed, JobRepo.exhausted. destruct (p || _) eqn:E; apply released_move; try done.
  intros _. apply orb_false_iff in E as [_ E]. lia.
Qed.
Lemma failed_id p now e j : hj_id (failed p now e j) = hj_id j.
Proof. unfold failed. by destruct (_ || _). Qed.

Lemma finalize_failure_ok job e p db now uid : wellrun db → tx (finalize_failure job e p) db db now uid.
Proof.
  intros Hw. unfold finalize_failure. wp_step. apply wp_lock; [apply Hw|intros; by apply lost_claim_ok|].
  intros j now' Hj Ei Hr. unfold TargetRepo.get. do 4 wp_step. cbv zeta. wp_step.
  apply (wp_save j); [done|by rewrite failed_id| |].
  { intros t. apply failed_move; [|done]. by apply (ho_job _ (proj1 Hw) _ _ Hj). }
  intros db1 n1 Hw1 _ _. wp_step. wp_step; [|(repeat wp_step; by split)].
  do 3 wp_step. wp_step. wp_step. apply wp_change_add; [done|]. intros db2 Hw2 _ _. (repeat wp_step; by split).
Qed.

Lemma record_content_ok `{Hashlib} job target url st ct body
    (Q : UUID * HermesSourceChange → DB → DB → Z → N → Prop) db com now uid :
  wellrun db →
  (∀ r db' now' uid', wellrun db' → targets db' = targets db → jobs db' = jobs db → Q r db' com now' uid') →
  wp (record_content job target url st ct body) Q db com now uid.
Proof.
  intros Hw HQ. unfold record_content, DocumentRepo.get_latest_for_target, DocumentRepo.find_by_target_and_hash.
  repeat wp_step; [by apply HQ|]. apply wp_stmt. intros [] db' E.
  match type of E with context [negb ?b] => destruct (negb b); [done|] end.
  match type of E with context [documents db !! ?k] => destruct (documents db !! k) eqn:Ed; [done|] end.
  match type of E with context [DocumentRepo.with_hash ?t ?s db] =>
    destruct (DocumentRepo.with_hash t s db) eqn:Eh; [|done] end.
  match type of E with context [targets db !! ?k] => destruct (targets db !! k) eqn:Et; [|done] end.
  match type of E with context [jobs db !! ?k] => destruct (jobs db !! k) eqn:Ej; [|done] end.
  injection E as <-. repeat wp_step. apply HQ; [|done|done]. eapply wellrun_step; [done|].
  apply document_added; [apply Hw|done|done|by rewrite Et|by rewrite Ej].
Qed.

Lemma finalize_success_ok `{Hashlib} job url st ct body db now uid : wellrun db →
  tx (finalize_success job url st ct body) db db now uid.
Proof.
  intros Hw. unfold finalize_success. wp_step. apply wp_lock; [apply Hw|intros; by apply lost_claim_ok|].
  intros j now' Hj Ei Hr. unfold TargetRepo.get. do 3 wp_step; [|by apply finalize_failure_ok].
  wp_step; [by apply finalize_failure_ok|]. wp_step. apply record_content_ok; [done|].
  intros [doc change] db1 n1 u1 Hw1 Et1 Ej1. wp_step. apply wp_change_add; [done|].
  intros db2 Hw2 Et2 Ej2. wp_step. wp_step. wp_step. unfold TargetRepo.save at 1. do 2 wp_step.
  apply wp_stmt. intros [] db3 E3. destruct (TargetRepo.storable _); [|done]. injection E3 as <-.
  assert (wellrun (set_targets (<[ht_id h := TargetRepo.touched (n1 + 1) (fetched (hj_id j) doc (sha256_bytes body) st n1 h)]>
    (targets db2)) db2)) as Hw3.
  { eapply wellrun_step; [exact Hw2|].
    assert (targets db2 !! ht_id h = Some h) as Hh.
    { rewrite Et2, Et1. rewrite (ho_targets _ (proj1 Hw) _ _ Heqo). exact Heqo. }
    by apply (target_saved _ (proj1 Hw2) (TargetRepo.touched (n1 + 1) (fetched (hj_id j) doc (sha256_bytes body) st n1 h)) h). }
  do 3 wp_step. apply (wp_save j); [exact Hw3| | |].
  - change (jobs db2 !! hj_id j = Some j). by rewrite Ej2, Ej1.
  - intros t. by apply released_move.
  - intros db4 n4 Hw4 _ _. (repeat wp_step; by split).
Qed.

Lemma finalize_ok `{Hashlib} job o db now uid : wellrun db → tx (finalize job o) db db now uid.
Proof. intros Hw. destruct o; simpl; auto using finalize_success_ok, finalize_failure_ok. Qed.

Lemma begin_ok job db com now uid : wellrun db → jobs db !! hj_id job = Some job → hj_status job = JOB_RUNNING →
  tx (begin_claimed job) db com now uid.
Proof.
  intros Hw Hj Hr. unfold begin_claimed, TargetRepo.get. wp_step; [wp_step|]. do 2 wp_step.
  assert (∀ now uid, tx (now ← utc_now;
    JobRepo.save (JobRepo.released JOB_FAILED None now (Some inactive) job);;
    commit;;
    mret (inl (mkFetchResult (hj_id job) (hj_target_id job) JOB_FAILED None None None None (Some inactive)) :
            HermesFetchResult + HermesCrawlTarget)) db com now uid) as Hmissing.
  { intros n u. do 3 wp_step. apply (wp_save job); [done|done| |].
    - intros t. by apply released_move.
    - intros db1 n1 Hw1 _ _. (repeat wp_step; by split). }
  cbv zeta. wp_step; [|apply Hmissing]. wp_step; [apply Hmissing|]. (repeat wp_step; by split).
Qed.

(** A claim, and the transaction it belongs to. *)
Definition claims (m : M (option HermesFetchJob)) : Prop := ∀ db now uid, hermes_ok db →
  wp m (λ o d c _ _, c = db ∧ match o with
    | None => d = db
    | Some j' => ∃ j w t l, jobs db !! hj_id j' = Some j ∧ hj_status j = JOB_QUEUED ∧ j' = JobRepo.claimed w t l j
                            ∧ d = set_jobs (<[hj_id j' := j']> (jobs db)) db
    end) db db now uid.

Lemma claim_running_claims id w l : claims (JobRepo.claim_running id w l).
Proof.
  intros db now uid Hok. unfold JobRepo.claim_running. repeat wp_step. apply wp_stmt. intros o db'.
  destruct (jobs db !! id) as [j|] eqn:Ej; [|by intros [= <- <-]].
  destruct (decide _) as [[Hs _]|]; [|by intros [= <- <-]]. intros [= <- <-]. split; [done|].
  pose proof (ho_jobs _ Hok _ _ Ej) as Ei. exists j, w, now, l. simpl. rewrite Ei. by split_and!.
Qed.
Lemma next_job_facts skipped now db j : hermes_ok db → JobRepo.next_job skipped now db = Some j →
  jobs db !! hj_id j = Some j ∧ JobRepo.due now j ∧ skipped (hj_id j) = false.
Proof.
  intros Hok [l E]%head_Some. assert (j ∈ j :: l) as H by (by left). rewrite <- E, elem_of_py_sorted in H.
  apply list_elem_of_filter in H as [[Hd Hs] [k Hk]%elem_of_rows]. rewrite (ho_jobs _ Hok _ _ Hk) in *. done.
Qed.
Lemma claim_next_claims skipped prefix lease : claims (claim_next prefix lease skipped).
Proof.
  intros db now uid Hok. unfold claim_next, JobRepo.claim_next_running. repeat wp_step. apply wp_stmt. intros o db'.
  destruct (JobRepo.next_job skipped _ db) as [j|] eqn:Ej; [|by intros [= <- <-]]. intros [= <- <-]. split; [done|].
  apply next_job_facts in Ej as (Hj & [Hs _] & _); [|done]. by eexists j, _, _, _.
Qed.

Definition claim_and_begin (m : M (option HermesFetchJob))
    : M (option (HermesFetchJob * (HermesFetchResult + HermesCrawlTarget))) :=
  job ← m;
  match job with None => mret None | Some job => b ← begin_claimed job; mret (Some (job, b)) end.
Lemma claim_and_begin_ok m db now uid : claims m → wellrun db → tx (claim_and_begin m) db db now uid.
Proof.
  intros Hm Hw. unfold claim_and_begin. wp_step. eapply wp_mono; [|by apply Hm, Hw].
  intros [j'|] d c n u [-> H]; [|wp_step; subst d; by split].
  destruct H as (j & w & t & l & Hj & Hs & -> & ->). wp_step.
  eapply wp_mono; [|apply begin_ok].
  - intros b d c n' u' [-> Hc]. wp_step. by split.
  - eapply wellrun_step; [done|]. apply jobs_moved_keeps; [apply Hw|]. eapply jobs_moved_insert; [exact Hj|by left].
  - apply lookup_insert_eq.
  - done.
Qed.

(** The rows of a recovery. *)
Lemma stale_ids_facts skipped now limit db i : hermes_ok db → i ∈ JobRepo.stale_ids skipped now limit db →
  ∃ j, jobs db !! i = Some j ∧ JobRepo.stale now j ∧ skipped i = false.
Proof.
  intros Hok (j & -> & Hj)%list_elem_of_fmap. exists j. apply elem_of_take in Hj as (k & Hj & _).
  apply list_elem_of_lookup_2 in Hj. rewrite elem_of_py_sorted, list_elem_of_filter, elem_of_rows in Hj.
  destruct Hj as [[Hs Hsk] [k' Hk]]. rewrite (ho_jobs _ Hok _ _ Hk) in *. done.
Qed.
Lemma recovered_move now j : JobRepo.stale now j → job_move j (JobRepo.recovered now j).
Proof.
  intros [Hs _]. unfold JobRepo.recovered, JobRepo.exhausted. apply released_move; [done|by destruct (_ <=? _)|].
  destruct (_ <=? _) eqn:E; [done|]. lia.
Qed.
Lemma recovered_rows db now (ids : list UUID) : hermes_ok db →
  (∀ i, i ∈ ids → ∃ j, jobs db !! i = Some j ∧ JobRepo.stale now j) →
  jobs_moved (jobs db) (update_where (λ k _, bool_decide (k ∈ ids)) (JobRepo.recovered now) (jobs db)).
Proof.
  intros Hok Hids. apply jobs_moved_update. intros k j Hj Hk%bool_decide_eq_true.
  destruct (Hids k Hk) as (j1 & Hj1 & Hs). rewrite Hj in Hj1. injection Hj1 as <-. by apply recovered_move.
Qed.

Lemma wp_for_each {A} (I : DB → Prop) (l : list A) (f : A → M unit) (Q : () → DB → DB → Z → N → Prop) db com now uid :
  I db → (∀ x db now uid (R : () → DB → DB → Z → N → Prop), I db →
    (∀ db' now' uid', I db' → R tt db' com now' uid') → wp (f x) R db com now uid) →
  (∀ db' now' uid', I db' → Q tt db' com now' uid') → wp (for_each l f) Q db com now uid.
Proof.
  intros HI Hf HQ. revert db now uid HI. induction l as [|x l IH]; intros db now uid HI; cbn [for_each].
  - apply wp_ret. by apply HQ.
  - wp_step. apply Hf; [done|]. intros db' n' u' HI'. by apply IH.
Qed.

Lemma recover_ok skipped limit db now uid : wellrun db → tx (recover skipped limit) db db now uid.
Proof.
  intros Hw. unfold recover, JobRepo.recover_stale_running. do 5 wp_step.
  set (ids := JobRepo.stale_ids skipped now limit db).
  assert (wp (match ids with
      | [] => mret []
      | _ => stmt (λ db, (Ok (omap (λ i, JobRepo.recovered now <$> jobs db !! i) ids),
                set_jobs (update_where (λ k _, bool_decide (k ∈ ids)) (JobRepo.recovered now) (jobs db)) db))
      end) (λ o d c _ _, c = db ∧ wellrun d ∧ (o = [] → d = db)) db db (now + 1) uid) as H.
  { destruct ids as [|i ids'] eqn:Ei; [by wp_step|]. rewrite <- Ei. apply wp_stmt. intros o db' [= <- <-].
    assert (∀ i, i ∈ ids → ∃ j, jobs db !! i = Some j ∧ JobRepo.stale now j) as Hids.
    { intros i' Hi'. apply stale_ids_facts in Hi' as (j & Hj & Hs & _); [by exists j|apply Hw]. }
    split; [done|]. split.
    - eapply wellrun_step; [done|]. apply jobs_moved_keeps; [apply Hw|]. by apply recovered_rows; [apply Hw|].
    - rewrite Ei. simpl. destruct (Hids i) as (j & -> & _); [rewrite Ei; by left|]. done. }
  eapply wp_mono; [|exact H]. intros o d c n u (-> & Hd & Ho).
  destruct o as [|x o]; [wp_step; rewrite Ho by done; by split|].
  do 3 wp_step. apply (wp_for_each wellrun); [done| |].
  - intros y db1 n1 u1 R Hw1 HR. do 4 wp_step. apply wp_change_add; [done|]. intros db2 Hw2 _ _. by apply HR.
  - intros db1 n1 u1 Hw1. repeat wp_step. by split.
Qed.

Lemma enqueue_ok t p s db now uid : wellrun db → tx (EnqueueHermesFetchJob t p s) db db now uid.
Proof.
  intros Hw. unfold EnqueueHermesFetchJob, TargetRepo.get, JobRepo.add_or_get_active_for_target, JobRepo.insert,
    JobRepo.find_active_for_target. do 3 wp_step; [|wp_step]. wp_step; [wp_step|]. do 8 wp_step. apply wp_stmt. intros o db'.
  cbn [hj_priority hj_target_id hj_id]. destruct (negb (int4 p)); [done|].
  destruct (JobRepo.active_for t db) eqn:Ea.
  - destruct (jobs db !! uid) eqn:Ej; [done|]. destruct (targets db !! t) eqn:Et; [|done].
    intros [= <- <-]. repeat wp_step. split; [done|]. eapply wellrun_step; [done|].
    apply (job_added db (proj1 Hw) (mkJob uid t JOB_QUEUED p 0 3 s None None None None None None now (now + 1)));
      [done| |simpl; by rewrite Et|done].
    split; simpl; [lia|lia|done|done].
  - intros [= <- <-]. repeat wp_step; by split.
Qed.

Lemma create_target_ok s u l db now uid : wellrun db → tx (CreateHermesCrawlTarget s u l) db db now uid.
Proof.
  intros Hw. unfold CreateHermesCrawlTarget, HermesSourceRepo.get, TargetRepo.add_or_get_by_normalized_url,
    TargetRepo.insert, TargetRepo.find_by_normalized_url. do 3 wp_step; [|wp_step]. do 10 wp_step. apply wp_stmt. intros o db'.
  cbn [ht_normalized_url ht_id ht_source_id].
  destruct (TargetRepo.with_url a db) eqn:Ea.
  - destruct (targets db !! uid) eqn:Et; [done|]. destruct (sources db !! s) eqn:Es; [|done].
    intros [= <- <-]. repeat wp_step. split; [done|]. eapply wellrun_step; [done|].
    by apply (target_added db (proj1 Hw) (mkTarget uid s u a TARGET_ACTIVE l None None None None None now (now + 1))).
  - intros [= <- <-]. repeat wp_step; by split.
Qed.

Lemma register_ok n t b r db now uid : wellrun db → tx (RegisterHermesSource n t b r) db db now uid.
Proof.
  intros Hw. unfold RegisterHermesSource.
  assert (∀ b' uid now, tx (id ← uuid4; created_at ← utc_now; updated_at ← utc_now;
    '(result, created) ← HermesSourceRepo.add_or_get_by_name
      (mkHermesSource id (str_strip n) t b' r true created_at updated_at);
    (if created : bool then commit else mret tt);; mret result) db db now uid) as Hrest.
  { intros b' uid' now'. unfold HermesSourceRepo.add_or_get_by_name, HermesSourceRepo.insert,
      HermesSourceRepo.find_by_name. do 8 wp_step. apply wp_stmt. intros o db'.
    destruct (negb _); [done|]. cbn [hso_name hso_id].
    destruct (HermesSourceRepo.named (str_lower (str_strip n)) db) eqn:Ea.
    - destruct (sources db !! uid') eqn:Es; [done|]. intros [= <- <-]. repeat wp_step. split; [done|].
      eapply wellrun_step; [done|].
      by apply (source_added db (proj1 Hw) (mkHermesSource uid' (str_strip n) t b' r true now' (now' + 1))).
    - intros [= <- <-]. repeat wp_step; by split. }
  wp_step. destruct b as [[|ch u]|]; [wp_step|do 3 wp_step|wp_step]; apply Hrest.
Qed.
End transactions.

(** ** Whole programs, several transactions long *)
Section programs.
Context (db0 : DB).
Abbreviation wellrun := (wellrun db0).

(** Nobody else writes, and nothing is uncommitted. *)
Definition settled (w : World) : Prop := quiet w ∧ w_db w = w_committed w.
Definition Keeps {A} (m : M A) : Prop := ∀ w, settled w → wellrun (w_committed w) →
  wellrun (w_committed (m w).2) ∧ ∀ a w', m w = (Ok a, w') → settled w'.

Lemma Keeps_tx {A} (m : M A) : CommitLast m →
  (∀ db now uid, wellrun db → wp m (commits_all db0) db db now uid) → Keeps m.
Proof.
  intros Hl Hm w [Hq Hd] Hw. destruct w as [db com env now uid]. simpl in *. unfold quiet in Hq. simpl in Hq. subst env db.
  specialize (Hm com now uid Hw). unfold wp in Hm. change (mkWorld com com [] now uid) with (session com com now uid) in *.
  destruct (m (session com com now uid)) as [[a|e] w'] eqn:E.
  - destruct (Hm a w' eq_refl) as (d & c & n & u & -> & -> & Hc). split; [done|]. by intros a' w'' [= _ <-].
  - split; [|done]. apply Hl in E. destruct E as ((fs & Ef & Ec) & _). simpl in Ef, Ec.
    symmetry in Ef. apply app_eq_nil in Ef as [-> _]. cbn [snd]; by rewrite Ec.
Qed.
Lemma Keeps_ret {A} (a : A) : Keeps (mret a).
Proof. intros w Hs Hw. split; [done|]. by intros a' w' [= _ <-]. Qed.
Lemma Keeps_raise {A} e : Keeps (raise (A := A) e).
Proof. intros w Hs Hw. by split. Qed.
Lemma Keeps_now : Keeps utc_now.
Proof. intros w Hs Hw. split; [done|]. by intros a' w' [= _ <-]. Qed.
Lemma Keeps_uuid : Keeps uuid4.
Proof. intros w Hs Hw. split; [done|]. by intros a' w' [= _ <-]. Qed.
Lemma Keeps_elapse d : Keeps (elapse d).
Proof. intros w Hs Hw. split; [done|]. by intros a' w' [= _ <-]. Qed.
Lemma Keeps_query {A} (f : DB → A) : Keeps (query f).
Proof. intros w Hs Hw. rewrite query_quiet by apply Hs. split; [done|]. by intros a' w' [= _ <-]. Qed.
Lemma Keeps_bind {A B} (m : M A) (f : A → M B) : Keeps m → (∀ a, Keeps (f a)) → Keeps (x ← m; f x).
Proof.
  intros Hm Hf w Hs Hw. unfold mbind, M_bind. destruct (Hm w Hs Hw) as [Hc Ho].
  destruct (m w) as [[a|e] w']; simpl in *; [|by split]. apply Hf; [by apply (Ho a)|done].
Qed.
Lemma Keeps_ext {A} (m m' : M A) : (∀ w, m w = m' w) → Keeps m' → Keeps m.
Proof. intros E H w. rewrite E. apply H. Qed.
Lemma Keeps_with_uow {A} (m : M A) : Keeps m → Keeps (with_uow m).
Proof.
  intros Hm w Hs Hw. unfold with_uow. destruct (Hm w Hs Hw) as [Hc Ho].
  destruct (m w) as [r w'] eqn:E; simpl in *. split; [done|]. intros a w'' [= -> <-].
  destruct (Ho a w' eq_refl) as [Hq _]. by split.
Qed.

Lemma lock_nocommit job : NoCommit (lock_for_finalization job).
Proof.
  unfold lock_for_finalization, JobRepo.lock_claim_for_finalization.
  destruct (hj_locked_by job) as [[]|]; repeat nocommit_step.
Qed.
Lemma finalize_failure_last job e p : CommitLast (finalize_failure job e p).
Proof.
  unfold finalize_failure. apply CommitLast_bind; [apply lock_nocommit|].
  unfold lost_claim_result, TargetRepo.get, JobRepo.get, JobRepo.save, ChangeRepo.add.
  repeat first [nocommit_step|progress cbv zeta].
Qed.
Lemma record_content_nocommit `{Hashlib} j t u s c b : NoCommit (record_content j t u s c b).
Proof.
  unfold record_content, DocumentRepo.get_latest_for_target, DocumentRepo.find_by_target_and_hash, DocumentRepo.add.
  repeat first [nocommit_step|progress cbv zeta].
Qed.
Lemma finalize_success_last `{Hashlib} j u s c b : CommitLast (finalize_success j u s c b).
Proof.
  unfold finalize_success. apply CommitLast_bind; [apply lock_nocommit|]. intros [job|].
  - apply CommitLast_bind; [apply NoCommit_stmt|]. intros [t|]; [|apply finalize_failure_last].
    destruct (negb _); [apply finalize_failure_last|]. apply CommitLast_bind; [apply record_content_nocommit|].
    intros [doc change]. unfold ChangeRepo.add, TargetRepo.save, JobRepo.save.
    repeat first [nocommit_step|progress cbv zeta].
  - apply NoCommit_last. unfold lost_claim_result, JobRepo.get. repeat nocommit_step.
Qed.
Lemma finalize_keeps `{Hashlib} job o : Keeps (finalize job o).
Proof.
  apply Keeps_tx; [|intros; by apply finalize_ok].
  destruct o; simpl; [apply finalize_success_last|apply finalize_failure_last..].
Qed.

(** After the claim: fetch, and finalize. *)
Definition continue `{Hashlib} fetch (job : HermesFetchJob) (b : HermesFetchResult + HermesCrawlTarget)
    : M HermesFetchResult :=
  match b with
  | inl result => mret result
  | inr target =>
      now ← utc_now;
      let '(outcome, duration) := fetch now (ht_normalized_url target) in
      elapse duration;; finalize job (checked outcome)
  end.
Lemma continue_keeps `{Hashlib} fetch job b : Keeps (continue fetch job b).
Proof.
  destruct b as [r|t]; [apply Keeps_ret|]. apply Keeps_bind; [apply Keeps_now|]. intros now.
  destruct (fetch _ _) as [o d]. apply Keeps_bind; [apply Keeps_elapse|]. intros _. apply finalize_keeps.
Qed.

Lemma claim_and_begin_keeps m : NoCommit m → claims m → Keeps (claim_and_begin m).
Proof.
  intros Hn Hm. apply Keeps_tx; [|intros; by apply claim_and_begin_ok].
  unfold claim_and_begin, begin_claimed, TargetRepo.get, JobRepo.save. apply CommitLast_bind; [done|]. intros [j|];
    [|apply NoCommit_last, NoCommit_ret]. apply (CommitLast_map _ (λ b, Some (j, b))).
  repeat first [nocommit_step|progress cbv zeta].
Qed.

(** A claim and what follows it, cut at the commit of the claim. *)
Lemma execute_cut `{Hashlib} {A} fetch m (k : HermesFetchResult → M A) (none : M A) w :
  (job ← m; match job with None => none | Some job => r ← execute_claimed fetch job; k r end) w
  = (x ← claim_and_begin m;
     match x with None => none | Some (job, b) => r ← continue fetch job b; k r end) w.
Proof.
  unfold claim_and_begin, execute_claimed, mbind, M_bind. destruct (m w) as [[[job|]|e] w1]; [|done|done].
  destruct (begin_claimed job w1) as [[b|e] w2]; [|done]. by destruct b.
Qed.

Lemma execute_keeps `{Hashlib} fetch prefix lease id : Keeps (execute fetch prefix lease id).
Proof.
  unfold execute, lease_expires_at. apply Keeps_bind; [apply Keeps_uuid|]. intros u. cbv zeta.
  apply Keeps_bind; [apply Keeps_bind; [apply Keeps_now|intros; apply Keeps_ret]|]. intros l.
  eapply Keeps_ext.
  { intros w. transitivity ((job ← JobRepo.claim_running id (prefix +:+ ":" +:+ uuid_str u) l;
      match job with
      | None => current ← JobRepo.get id;
          match current with
          | None => raise (ValueError ("HermesFetchJob " +:+ uuid_str id +:+ " not found"))
          | Some j => mret (mkFetchResult (hj_id j) (hj_target_id j) (hj_status j) None None None None (hj_error_message j))
          end
      | Some job => r ← execute_claimed fetch job; mret r end) w); [|apply execute_cut].
    unfold mbind, M_bind. destruct (JobRepo.claim_running _ _ _ w) as [[[job|]|e] w1]; [|done|done].
    by destruct (execute_claimed fetch job w1) as [[]]. }
  apply Keeps_bind.
  - apply claim_and_begin_keeps; [unfold JobRepo.claim_running; repeat nocommit_step|apply claim_running_claims].
  - intros [[job b]|].
    + apply Keeps_bind; [apply continue_keeps|intros; apply Keeps_ret].
    + apply Keeps_bind; [apply Keeps_query|]. intros [j|]; [apply Keeps_ret|apply Keeps_raise].
Qed.

Lemma claim_next_nocommit skipped prefix lease : NoCommit (claim_next prefix lease skipped).
Proof. unfold claim_next, JobRepo.claim_next_running. repeat first [nocommit_step|progress cbv zeta]. Qed.
Lemma batch_keeps `{Hashlib} fetch prefix lease skipped n : Keeps (batch fetch prefix lease skipped n).
Proof.
  induction n as [|n IH]; cbn [batch]; [apply Keeps_ret|]. apply Keeps_bind.
  - apply Keeps_with_uow. eapply Keeps_ext; [intros w; apply (execute_cut fetch _ (λ r, mret (Some r)))|].
    apply Keeps_bind; [apply claim_and_begin_keeps; [apply claim_next_nocommit|apply claim_next_claims]|].
    intros [[job b]|]; [|apply Keeps_ret]. apply Keeps_bind; [apply continue_keeps|intros; apply Keeps_ret].
  - intros [r|]; [|apply Keeps_ret]. apply Keeps_bind; [exact IH|intros; apply Keeps_ret].
Qed.
Lemma recover_keeps skipped limit : Keeps (recover skipped limit).
Proof.
  apply Keeps_tx; [|intros; by apply recover_ok].
  unfold recover, JobRepo.recover_stale_running, ChangeRepo.add. repeat first [nocommit_step|progress cbv zeta].
Qed.
Lemma cycle_keeps `{Hashlib} fetch prefix lease skipped r n : Keeps (cycle fetch prefix lease skipped r n).
Proof.
  apply Keeps_bind; [apply Keeps_with_uow, recover_keeps|]. intros _. apply batch_keeps.
Qed.
End programs.

(** ** Activities *)
Inductive HermesActivity :=
  | Register (name : string) (source_type : HermesSourceType) (base_url tier : option string)
  | CreateTarget (source_id : UUID) (url : string) (label : option string)
  | Enqueue (target_id : UUID) (priority : Z) (scheduled_at : option datetime)
  | RunJob (fetch : datetime → string → FetchOutcome * Z) (prefix : string) (lease_seconds : Z) (job_id : UUID)
  | WorkerCycle (fetch : datetime → string → FetchOutcome * Z) (prefix : string) (lease_seconds : Z)
      (skipped : UUID → bool) (recover_limit batch_limit : nat)
  | TakeJob (prefix : string) (lease_seconds : Z) (skipped : UUID → bool)   (* a worker whose fetch goes on *)
  | EndJob (job : HermesFetchJob) (outcome : FetchOutcome)   (* a worker with the claim it took, perhaps long ago *)
  | Wait (duration : Z).

Section activities.
Context `{Hashlib}.
Definition act (a : HermesActivity) : M unit :=
  match a with
  | Register n t b r => _ ← with_uow (RegisterHermesSource n t b r); mret tt
  | CreateTarget s u l => _ ← with_uow (CreateHermesCrawlTarget s u l); mret tt
  | Enqueue t p s => _ ← with_uow (EnqueueHermesFetchJob t p s); mret tt
  | RunJob fetch prefix lease id => _ ← with_uow (execute fetch prefix lease id); mret tt
  | WorkerCycle fetch prefix lease skipped r n => _ ← cycle fetch prefix lease skipped r n; mret tt
  | TakeJob prefix lease skipped => _ ← with_uow (claim_and_begin (claim_next prefix lease skipped)); mret tt
  | EndJob job o => _ ← with_uow (finalize job (checked o)); mret tt
  | Wait d => elapse d
  end.
Definition run_hermes : World → list HermesActivity → World := foldl (λ w a, (act a (alone w)).2).

Lemma commit_if_last {A} (b : bool) (a : A) : CommitLast ((if b then commit else mret tt);; mret a).
Proof.
  apply (CommitLast_map _ (λ _, a)). destruct b; [apply CommitLast_commit_only|apply NoCommit_last, NoCommit_ret].
Qed.

Lemma act_keeps db0 a : Keeps db0 (act a).
Proof.
  assert (∀ A (m : M A), Keeps db0 m → Keeps db0 (_ ← m; mret tt)) as Hdrop.
  { intros A m Hm. apply Keeps_bind; [done|]. intros _. apply Keeps_ret. }
  destruct a; cbn [act]; try (apply Hdrop; try apply Keeps_with_uow).
  - apply Keeps_tx; [|intros; by apply register_ok]. unfold RegisterHermesSource, HermesSourceRepo.add_or_get_by_name,
      HermesSourceRepo.insert, HermesSourceRepo.find_by_name.
    repeat first [apply commit_if_last|nocommit_step|progress cbv zeta].
  - apply Keeps_tx; [|intros; by apply create_target_ok].
    unfold CreateHermesCrawlTarget, HermesSourceRepo.get, TargetRepo.add_or_get_by_normalized_url, TargetRepo.insert,
      TargetRepo.find_by_normalized_url. repeat first [apply commit_if_last|nocommit_step|progress cbv zeta].
  - apply Keeps_tx; [|intros; by apply enqueue_ok].
    unfold EnqueueHermesFetchJob, TargetRepo.get, JobRepo.add_or_get_active_for_target, JobRepo.insert,
      JobRepo.find_active_for_target. repeat first [apply commit_if_last|nocommit_step|progress cbv zeta].
  - apply execute_keeps.
  - apply cycle_keeps.
  - apply claim_and_begin_keeps; [apply claim_next_nocommit|apply claim_next_claims].
  - apply finalize_keeps.
  - apply Keeps_elapse.
Qed.

Lemma run_hermes_ok db0 l w : wellrun db0 (w_committed w) → wellrun db0 (w_committed (run_hermes w l)).
Proof.
  revert w. induction l as [|a l IH]; intros w Hw; [done|]. cbn [run_hermes foldl]. apply IH.
  apply (act_keeps db0 a (alone w)); [by split|done].
Qed.

(** C33: whatever the activities of the registry, the queue and the workers, in any order --
    jobs run by id, polling cycles, workers that take a job and end it much later, expired
    leases recovered meanwhile -- and whatever each fetch yields, Hermes stays well formed:
    unique source names, target addresses and contents of a target, at most one active job
    per target, attempts within the budget, exactly the RUNNING jobs locked, references
    that lead somewhere; no row disappears, a job that is over is final, and documents and
    changes are written once. *)
Theorem workers_keep_hermes l w :
  hermes_ok (w_committed w) →
  hermes_ok (w_committed (run_hermes w l)) ∧ hermes_grows (w_committed w) (w_committed (run_hermes w l)).
Proof. intros Hok. by apply (run_hermes_ok (w_committed w)). Qed.
End activities.

(** A site whose page changes and then fails, watched by three polls and a worker that
    comes back after its lease. *)
#[local] Instance sample_hash : Hashlib := str_take 64.
Definition sample_fetch (now : datetime) (url : string) : FetchOutcome * Z :=
  (if now <? 100 then Fetched url 200 (Some "text/html") "<title>One</title>"
   else if now <? 1000 then Fetched url 200 (Some "text/html") "<title>Two</title>"
   else TransientFailure "timed out", 5).
Definition none_skipped (_ : UUID) : bool := false.
Definition sample_activities : list HermesActivity :=
  [ Register " Agency " OFFICIAL_AGENCY (Some "HTTPS://Example.org:443/") (Some "A");
    CreateTarget 1 "https://example.org/reports/#top" (Some "reports");
    Enqueue 2 100 None;
    WorkerCycle sample_fetch "w" 600 none_skipped 10 10;
    Wait 100; Enqueue 2 100 None;
    TakeJob "slow" 600 none_skipped;
    Wait (601 * second_us);
    WorkerCycle sample_fetch "w" 600 none_skipped 10 10 ].
Definition sample_start : World := mkWorld empty_db empty_db [] 0 1.

Lemma hermes_ok_empty : hermes_ok empty_db.
Proof. split; by intros ? *. Qed.

Lemma workers_keep_hermes_witness :
  let db := w_committed (run_hermes sample_start sample_activities) in
  hermes_ok db ∧ hermes_grows empty_db db
  ∧ ((λ j, (hj_status j, hj_attempt_count j)) <$> rows (jobs db)) = [(JOB_QUEUED, 2); (JOB_SUCCEEDED, 1)]
  ∧ (hg_change_type <$> rows (changes db)) = [FIRST_SEEN; FETCH_FAILED].
Proof.
  destruct (workers_keep_hermes sample_activities sample_start hermes_ok_empty) as [H1 H2].
  refine (conj H1 (conj H2 (conj _ _))); vm_compute; reflexivity.
Defined.
