(* ===== verification/HermesRuns.v ===== *)
(** The end of an attempt of Hermes: the fence that keeps a worker whose claim is over from
    writing, and the complete effect of an attempt whose claim still stands. *)
From Stdlib Require Import Ascii.
From S2P Require Import Prelude Text PyFloat PyVal PyDate Entities ContextEntities Store Json.
From S2P Require Import Logic Conflicts Projection Reproject Publication HermesContent HermesUrl Wp Hermes HermesFacts.
Import RunHermesFetchJob.
Open Scope string_scope.
Open Scope list_scope.
Open Scope Z_scope.

(** ** The fence *)

(** The row that stands for the claim of [job] at [now], if it still does. *)
Definition holder (job : HermesFetchJob) (now : datetime) (db : DB) : option HermesFetchJob :=
  match hj_locked_by job with
  | None | Some EmptyString => None
  | Some w => j ← jobs db !! hj_id job; if decide (JobRepo.owned w (hj_attempt_count job) now j) then Some j else None
  end.

Lemma lock_run job db com now uid : ∃ now', now <= now' <= now + 1 ∧
  lock_for_finalization job (session db com now uid) = (Ok (holder job now db), session db com now' uid).
Proof.
  unfold lock_for_finalization, holder. destruct (hj_locked_by job) as [[|c w]|]; [by exists now; split; [lia|]| |by exists now; split; [lia|]].
  exists (now + 1). split; [lia|]. unfold JobRepo.lock_claim_for_finalization, mbind at 1, M_bind.
  change (utc_now (session db com now uid)) with (Ok now, session db com (now + 1) uid). cbn beta iota.
  by rewrite query_quiet.
Qed.

(** A claim that no longer stands ends with nothing written. *)
Definition nothing_recorded (r : HermesFetchResult) : Prop :=
  fr_document_id r = None ∧ fr_change_id r = None ∧ fr_change_type r = None ∧ fr_content_sha256 r = None.

Lemma lost_run job db com now uid : ∃ r, nothing_recorded r
  ∧ lost_claim_result job (session db com now uid) = (Ok r, session db com now uid).
Proof.
  unfold lost_claim_result, JobRepo.get, mbind, M_bind. rewrite query_quiet by done.
  change (w_db (session db com now uid)) with db. destruct (jobs db !! hj_id job); (eexists; split; [|reflexivity]; done).
Qed.

Lemma fenced_run `{Hashlib} job o db com now uid : holder job now db = None →
  ∃ r now', nothing_recorded r ∧ finalize job o (session db com now uid) = (Ok r, session db com now' uid).
Proof.
  intros Hh. destruct (lock_run job db com now uid) as (n & _ & E). rewrite Hh in E.
  destruct (lost_run job db com n uid) as (r & Hr & E'). exists r, n. split; [done|].
  destruct o; cbn [finalize]; unfold finalize_success, finalize_failure, mbind, M_bind; by rewrite E.
Qed.

(** Since its claim a job never comes back to the same attempt: the row found by the fence
    is the row of the claim. *)
Lemma holder_claimed job now db db' j :
  jobs db !! hj_id job = Some job → hj_status job = JOB_RUNNING → hermes_grows db db' →
  holder job now db' = Some j → j = job ∧ jobs db' !! hj_id job = Some job
    ∧ from_option (λ t, now <=? t) false (hj_lease_expires_at job) = true.
Proof.
  intros Hj Hr Hg Hh. destruct (hg_jobs _ _ Hg _ _ Hj) as (j' & Hj' & Hp). unfold holder in Hh.
  destruct (hj_locked_by job) as [[|c w]|]; [done| |done]. rewrite Hj' in Hh. simpl in Hh.
  destruct (decide _) as [(Hs & _ & Ha & Hl)|]; [|done]. injection Hh as <-.
  destruct (jp_rank _ _ Hp) as [->|Hlt]; [done|]. exfalso. unfold rank, running in Hlt. rewrite Hs, Hr, Ha in Hlt. lia.
Qed.

(** C34: a claim is fenced.  A worker that took a job and finalises it at any later time,
    whatever other workers did to the queue meanwhile and whatever its fetch yielded, writes
    only if the row is still the one its own claim left -- nobody recovered, ended or claimed
    the job again -- and its lease has not run out; otherwise it returns, records no document
    and no change, and leaves the committed tables as they are. *)
Theorem only_standing_claims_write `{Hashlib} job w l o :
  hermes_ok (w_committed w) → jobs (w_committed w) !! hj_id job = Some job → hj_status job = JOB_RUNNING →
  let w' := run_hermes w l in
  (jobs (w_committed w') !! hj_id job = Some job
     ∧ from_option (λ t, w_now w' <=? t) false (hj_lease_expires_at job) = true)
  ∨ ∃ r, nothing_recorded r ∧ (finalize job o (alone w')).1 = Ok r
      ∧ w_committed (finalize job o (alone w')).2 = w_committed w'
      ∧ w_db (finalize job o (alone w')).2 = w_committed w'.
Proof.
  intros Hok Hj Hr w'.
  assert (hermes_grows (w_committed w) (w_committed w')) as Hg by (by apply (run_hermes_ok (w_committed w))).
  change (alone w') with (session (w_committed w') (w_committed w') (w_now w') (w_uuid w')).
  destruct (holder job (w_now w') (w_committed w')) as [j|] eqn:Eh.
  - left. by apply (holder_claimed _ _ _ _ _ Hj Hr Hg) in Eh as (-> & Hj' & Hl).
  - right. destruct (fenced_run job o _ (w_committed w') _ (w_uuid w') Eh) as (r & n & Hn & ->). by exists r.
Qed.

(** The slow worker of the sample: its lease ran out and the job was recovered and tried
    again before it comes back with the page. *)
#[local] Existing Instance sample_hash.
Definition slow_world : World := run_hermes sample_start (take 7 sample_activities).
Lemma slow_world_ok : hermes_ok (w_committed slow_world).
Proof.
  assert (wellrun empty_db (w_committed sample_start)) as H by exact (conj hermes_ok_empty (reflexivity empty_db)).
  exact (proj1 (run_hermes_ok empty_db (take 7 sample_activities) sample_start H)).
Qed.
Definition slow_job : HermesFetchJob :=
  mkJob 8 2 JOB_RUNNING 100 1 3 None (Some 129) None None (Some ("slow:" +:+ uuid_str 9)) (Some 129)
    (Some 600000128) 126 129.

Lemma only_standing_claims_write_witness :
  let w' := run_hermes slow_world (drop 7 sample_activities) in
  let o := Fetched "https://example.org/reports" 200 None "late" in
  ∃ r, nothing_recorded r ∧ (finalize slow_job o (alone w')).1 = Ok r
      ∧ w_committed (finalize slow_job o (alone w')).2 = w_committed w'.
Proof.
  destruct (only_standing_claims_write slow_job slow_world (drop 7 sample_activities)
    (Fetched "https://example.org/reports" 200 None "late")) as [[H _]|(r & Hr & E & Ec & _)].
  - exact slow_world_ok.
  - vm_compute. reflexivity.
  - reflexivity.
  - exfalso. vm_compute in H. discriminate H.
  - exists r. exact (conj Hr (conj E Ec)).
Defined.

(** ** The complete effect of an attempt *)

(** Whether an outcome fails the attempt, with what message, and for good. *)
Definition failure_of (t : HermesCrawlTarget) (o : FetchOutcome) : option (string * bool) :=
  match o with
  | Fetched _ _ _ _ => if bool_decide (ht_status t = TARGET_ACTIVE) then None else Some (inactive, false)
  | PermanentFailure m => Some (str_take 1000 m, true)
  | TransientFailure m => Some (str_take 1000 m, false)
  end.

(** The job of an attempt that failed [permanently] or not: given up, or tried again after
    a minute, two, four, ... at most an hour. *)
Record attempt_failed (permanent : bool) (message : string) (at_ : datetime) (j j' : HermesFetchJob) : Prop := {
  af_same : same_job j j';
  af_attempts : hj_attempt_count j' = hj_attempt_count j;
  af_unlocked : unlocked j';
  af_error : hj_error_message j' = Some message ∧ hj_finished_at j' = Some at_;
  af_over : permanent = true ∨ hj_attempt_count j = hj_max_attempts j →
    hj_status j' = JOB_FAILED ∧ hj_scheduled_at j' = None;
  af_again : permanent = false → hj_attempt_count j < hj_max_attempts j →
    hj_status j' = JOB_QUEUED ∧
    hj_scheduled_at j' = Some (at_ + Z.min (60 * 2 ^ (hj_attempt_count j - 1)) 3600 * second_us);
}.
Record attempt_succeeded (at_ : datetime) (j j' : HermesFetchJob) : Prop := {
  as_same : same_job j j';
  as_attempts : hj_attempt_count j' = hj_attempt_count j;
  as_unlocked : unlocked j';
  as_state : hj_status j' = JOB_SUCCEEDED ∧ hj_scheduled_at j' = None ∧ hj_error_message j' = None
             ∧ hj_finished_at j' = Some at_;
}.
Record target_fetched (job_id document_id : UUID) (sha : string) (http_status : Z) (at_ : datetime)
    (t t' : HermesCrawlTarget) : Prop := {
  tf_same : ht_id t' = ht_id t ∧ ht_source_id t' = ht_source_id t ∧ ht_url t' = ht_url t
    ∧ ht_normalized_url t' = ht_normalized_url t ∧ ht_status t' = ht_status t ∧ ht_label t' = ht_label t
    ∧ ht_created_at t' = ht_created_at t;
  tf_last : ht_last_fetch_job_id t' = Some job_id ∧ ht_last_fetched_document_id t' = Some document_id
    ∧ ht_last_content_sha256 t' = Some sha ∧ ht_last_http_status t' = Some http_status
    ∧ ht_last_fetched_at t' = Some at_;
}.

Section attempt.
#[local] Set Default Proof Using "Type*".
Context `{Hashlib} (db : DB) (job : HermesFetchJob) (t : HermesCrawlTarget) (now : datetime) (uid : UUID).

(** A claim that stands until the transaction is under way (its lease is checked up to
    twice), in well-formed tables, with its target at hand. *)
Record standing : Prop := {
  st_ok : hermes_ok db;
  st_holder : holder job (now + 1) db = Some job;
  st_target : targets db !! hj_target_id job = Some t;
  st_fresh : ∀ k, (uid <= k)%N → documents db !! k = None ∧ changes db !! k = None;
}.

(** The document a response is stored in: the one of the target with the same hash, or a
    new row. *)
Definition stored (sha : string) : option HermesFetchedDocument := head (DocumentRepo.with_hash (ht_id t) sha db).
Definition latest : option HermesFetchedDocument := head (DocumentRepo.for_target (ht_id t) db).
Definition new_document (final_url : string) (http_status : Z) (ct_header : option string) (body : string)
    (fetched_at created_at : datetime) : HermesFetchedDocument :=
  let content_type := detect_content_type_from_bytes body ct_header (Some (ht_normalized_url t)) in
  mkDocument uid (ht_id t) (hj_id job) (ht_url t) (Some final_url) (Some http_status) content_type
    (sha256_bytes body) (byte_length body)
    (if bool_decide (content_type = CT_HTML) then extract_html_title body else None)
    (make_text_preview body content_type 2000) fetched_at created_at.
(** What the columns can hold. *)
Definition storable (o : FetchOutcome) : Prop :=
  match o with
  | Fetched final_url http_status ct_header body =>
      int4 http_status = true ∧ fits 64 (sha256_bytes body) = true ∧ byte_length body <= MAX_CONTENT_BYTES
      ∧ let d := new_document final_url http_status ct_header body 0 0 in
        DocumentRepo.no_nul (hd_title d) = true ∧ DocumentRepo.no_nul (hd_raw_text_preview d) = true
  | _ => True
  end.

(** What an attempt leaves. *)
Inductive attempt_ends : FetchOutcome → DB → HermesFetchResult → Prop :=
  | ends_failed o message permanent at_ c_at j' :
      failure_of t o = Some (message, permanent) → now <= at_ → attempt_failed permanent message at_ job j' →
      attempt_ends o
        (set_changes (<[uid := mkChange uid (ht_id t) (Some (hj_id job)) None None FETCH_FAILED None None at_ c_at]> (changes db))
          (set_jobs (<[hj_id job := j']> (jobs db)) db))
        (mkFetchResult (hj_id job) (hj_target_id job) (hj_status j') None (Some uid) (Some FETCH_FAILED) None (Some message))
  | ends_unchanged url http_status ct body d d_at c_at at_ j_at t' j' :
      failure_of t (Fetched url http_status ct body) = None → stored (sha256_bytes body) = Some d →
      target_fetched (hj_id job) (hd_id d) (sha256_bytes body) http_status at_ t t' → attempt_succeeded j_at job j' →
      now <= at_ →
      attempt_ends (Fetched url http_status ct body)
        (set_jobs (<[hj_id job := j']> (jobs db)) (set_targets (<[ht_id t := t']> (targets db))
          (set_changes (<[uid := mkChange uid (ht_id t) (Some (hj_id job)) (Some (hd_id d)) (Some (hd_id d))
                                   CONTENT_UNCHANGED (Some (sha256_bytes body)) (Some (sha256_bytes body)) d_at c_at]>
                         (changes db)) db)))
        (mkFetchResult (hj_id job) (hj_target_id job) JOB_SUCCEEDED (Some (hd_id d)) (Some uid) (Some CONTENT_UNCHANGED)
           (Some (sha256_bytes body)) None)
  | ends_new url http_status ct body f_at fc_at change_type d_at c_at at_ j_at t' j' :
      failure_of t (Fetched url http_status ct body) = None → stored (sha256_bytes body) = None →
      change_type = (if bool_decide (latest = None ∧ ht_last_content_sha256 t = None) then FIRST_SEEN else CONTENT_CHANGED) →
      target_fetched (hj_id job) uid (sha256_bytes body) http_status at_ t t' → attempt_succeeded j_at job j' →
      now <= at_ →
      attempt_ends (Fetched url http_status ct body)
        (set_jobs (<[hj_id job := j']> (jobs db)) (set_targets (<[ht_id t := t']> (targets db))
          (set_changes (<[(uid + 1)%N := mkChange (uid + 1)%N (ht_id t) (Some (hj_id job)) (hd_id <$> latest) (Some uid)
                                   change_type (ht_last_content_sha256 t) (Some (sha256_bytes body)) d_at c_at]>
                         (changes db))
            (set_documents (<[uid := new_document url http_status ct body f_at fc_at]> (documents db)) db))))
        (mkFetchResult (hj_id job) (hj_target_id job) JOB_SUCCEEDED (Some uid) (Some (uid + 1)%N) (Some change_type)
           (Some (sha256_bytes body)) None).

Context (Hst : standing).

Lemma holder_mono n m j : n <= m → holder job m db = Some j → holder job n db = Some j.
Proof using.
  unfold holder. intros Hle. destruct (hj_locked_by job) as [[|c w]|]; [done| |done].
  destruct (jobs db !! hj_id job) as [j'|]; [|done]. simpl.
  destruct (decide (JobRepo.owned _ _ m j')) as [(Hs & Hl & Ha & He)|]; [|done]. intros [= ->].
  rewrite decide_True; [done|]. split_and!; [done..|]. destruct (hj_lease_expires_at j); [|done]. simpl in *. lia.
Qed.
Lemma holds n : n <= now + 1 → holder job n db = Some job.
Proof. intros Hn. eapply holder_mono; [exact Hn|apply Hst]. Qed.

Lemma claimed_row : jobs db !! hj_id job = Some job ∧ hj_status job = JOB_RUNNING.
Proof.
  pose proof (holds now ltac:(lia)) as Hh. unfold holder in Hh. destruct (hj_locked_by job) as [[|c w]|]; [done| |done].
  destruct (jobs db !! hj_id job) as [j'|]; [|done]. simpl in Hh.
  destruct (decide _) as [(Hs & _)|]; [|done]. injection Hh as ->. done.
Qed.

Lemma target_row : targets db !! ht_id t = Some t ∧ hj_target_id job = ht_id t.
Proof. pose proof (ho_targets _ (st_ok Hst) _ _ (st_target Hst)) as E. by rewrite E, (st_target Hst). Qed.

Lemma twp_lock com n u (Q : option HermesFetchJob → DB → DB → Z → N → Prop) :
  n <= now + 1 → (∀ n', n <= n' <= n + 1 → Q (Some job) db com n' u) → twp (lock_for_finalization job) Q db com n u.
Proof.
  intros Hn HQ. destruct (lock_run job db com n u) as (n' & Hn' & E). rewrite holds in E by done.
  exists (Some job), db, com, n', u. split; [done|by apply HQ].
Qed.

Lemma twp_change c d com n u (Q : () → DB → DB → Z → N → Prop) :
  changes d !! hg_id c = None → targets d !! hg_target_id c = Some t → hg_fetch_job_id c = Some (hj_id job) →
  is_Some (jobs d !! hj_id job) → known (hg_previous_document_id c) (documents d) = true →
  known (hg_new_document_id c) (documents d) = true →
  Q tt (set_changes (<[hg_id c := c]> (changes d)) d) com n u → twp (ChangeRepo.add c) Q d com n u.
Proof using.
  intros H1 H2 H3 H4 H5 H6 HQ. eapply twp_stmt; [|exact HQ]. rewrite H1, H2, H3, H5, H6. simpl.
  by rewrite bool_decide_true.
Qed.

Lemma failed_job permanent message at_ n :
  attempt_failed permanent message at_ job (JobRepo.touched n (failed permanent at_ message job)).
Proof.
  destruct claimed_row as [Hj Hr]. destruct (ho_job _ (st_ok Hst) _ _ Hj) as [Hjo _].
  destruct (jo_running _ Hjo Hr) as (_ & _ & H1). pose proof (jo_attempts _ Hjo) as H2.
  unfold failed, retry_delay, JobRepo.exhausted, MAX_RETRY_DELAY_SECONDS. rewrite Z.max_r by lia.
  destruct permanent; simpl; [by split|]. destruct (Z.leb_spec (hj_max_attempts job) (hj_attempt_count job)).
  - split; try done. intros _ Hlt. lia.
  - split; try done. intros [?|?]; [done|lia].
Qed.

Lemma failure_run message permanent n (o : FetchOutcome) :
  failure_of t o = Some (message, permanent) → now <= n <= now + 1 →
  twp (finalize_failure job message permanent)
    (λ r db' com' _ _, com' = db' ∧ attempt_ends o db' r) db db n uid.
Proof.
  intros Ho Hn. destruct claimed_row as [Hj Hr], target_row as [Ht Eq]. unfold finalize_failure. twp_step.
  apply twp_lock; [lia|]. intros n' Hn'. cbv beta iota. unfold TargetRepo.get. rewrite Eq.
  twp_go. rewrite Ht. unfold JobRepo.save. twp_go. eapply twp_change.
  - by apply (st_fresh Hst).
  - exact Ht.
  - cbn. f_equal. apply failed_id.
  - rewrite failed_id. change (is_Some (<[hj_id job := JobRepo.touched (n' + 1) (failed permanent n' message job)]> (jobs db) !! hj_id job)).
    by rewrite lookup_insert_eq.
  - done.
  - done.
  - twp_go. split; [done|]. rewrite failed_id. cbn [hg_id hj_status].
    assert (hj_target_id (failed permanent n' message job) = hj_target_id job) as -> by (unfold failed; by destruct (_ || _)).
    apply (ends_failed o message permanent n' (n' + 1 + 1)
      (JobRepo.touched (n' + 1) (failed permanent n' message job))); [done|lia|apply failed_job].
Qed.

Lemma stored_query sha : scalar_one_or_none (DocumentRepo.with_hash (ht_id t) sha db) = Ok (stored sha)
  ∧ (stored sha = None → DocumentRepo.with_hash (ht_id t) sha db = [])
  ∧ (∀ d, stored sha = Some d → documents db !! hd_id d = Some d).
Proof.
  unfold stored, DocumentRepo.with_hash.
  destruct (unique_row (λ d, hd_target_id d = ht_id t ∧ hd_content_sha256 d = sha) (documents db)) as [->|(k & d & -> & Hd & _)].
  - intros k k' d d' Hd Hd' [E1 E2] [E1' E2']. eapply (ho_hashes _ (st_ok Hst)); [done|done|congruence].
  - done.
  - split_and!; [done|done|]. intros d' [= <-]. by rewrite (ho_documents _ (st_ok Hst) _ _ Hd).
Qed.
Lemma latest_known x : known (hd_id <$> latest) (<[uid := x]> (documents db)) = true.
Proof.
  destruct latest as [d|] eqn:E; [|done]. unfold latest in E. apply head_Some in E as [l E].
  assert (d ∈ d :: l) as Hd by (by left). rewrite <- E in Hd. unfold DocumentRepo.for_target in Hd.
  rewrite elem_of_py_sorted, list_elem_of_filter, elem_of_rows in Hd. destruct Hd as [_ [k Hd]].
  simpl. apply bool_decide_true. rewrite (ho_documents _ (st_ok Hst) _ _ Hd), lookup_insert_is_Some.
  destruct (decide (uid = k)); [by left|right]. by rewrite Hd.
Qed.

(** The end of a successful attempt, once the content is recorded. *)
Definition ending (doc_id : UUID) (change : HermesSourceChange) (http_status : Z) (sha : string) : M HermesFetchResult :=
  ChangeRepo.add change;;
  fetched_at ← utc_now;
  TargetRepo.save (fetched (hj_id job) doc_id sha http_status fetched_at t);;
  finished_at ← utc_now;
  JobRepo.save (JobRepo.released JOB_SUCCEEDED None finished_at None job);;
  commit;;
  mret (mkFetchResult (hj_id job) (hj_target_id job) JOB_SUCCEEDED (Some doc_id) (Some (hg_id change))
          (Some (hg_change_type change)) (Some sha) None).
Lemma ending_run doc_id change http_status sha d n u (Q : HermesFetchResult → DB → DB → Z → N → Prop) :
  targets d = targets db → jobs d = jobs db → changes d = changes db → changes db !! hg_id change = None →
  hg_target_id change = ht_id t → hg_fetch_job_id change = Some (hj_id job) →
  known (hg_previous_document_id change) (documents d) = true →
  known (hg_new_document_id change) (documents d) = true →
  int4 http_status = true → fits 64 sha = true →
  (∀ n' j_at t' j', target_fetched (hj_id job) doc_id sha http_status n t t' → attempt_succeeded j_at job j' →
     let db' := set_jobs (<[hj_id job := j']> (jobs db)) (set_targets (<[ht_id t := t']> (targets db))
                  (set_changes (<[hg_id change := change]> (changes db)) d)) in
     Q (mkFetchResult (hj_id job) (hj_target_id job) JOB_SUCCEEDED (Some doc_id) (Some (hg_id change))
          (Some (hg_change_type change)) (Some sha) None) db' db' n' u) →
  twp (ending doc_id change http_status sha) Q d db n u.
Proof.
  intros Et Ej Ec Hc H1 H2 H3 H4 H5 H6 HQ. destruct claimed_row as [Hj Hr], target_row as [Ht _].
  unfold ending. twp_step. apply twp_change; try done; [by rewrite Ec|by rewrite H1, Et|by rewrite Ej, Hj|].
  unfold TargetRepo.save, JobRepo.save. twp_go. rewrite Ec. eapply twp_stmt.
  { unfold TargetRepo.storable. simpl. by rewrite H5, H6. }
  twp_go. unfold exec. rewrite <- Et, <- Ej in *.
  eapply HQ; split; try done; by split_and!.
Qed.

(** Up to the end of the attempt. *)
Ltac twp_record :=
  repeat lazymatch goal with
    | |- twp (mbind _ (ChangeRepo.add _)) _ _ _ _ _ => fail
    | |- _ => first [twp_step | progress cbn beta iota]
    end.

Lemma document_stored url http_status ct body f_at c_at com n u (Q : () → DB → DB → Z → N → Prop) :
  storable (Fetched url http_status ct body) → stored (sha256_bytes body) = None →
  let d := new_document url http_status ct body f_at c_at in
  Q tt (set_documents (<[uid := d]> (documents db)) db) com n u → twp (DocumentRepo.add d) Q db com n u.
Proof.
  intros (Hi & Hf & Hlen & Htitle & Hprev) Hno d HQ. destruct claimed_row as [Hj _], target_row as [Ht _].
  destruct (stored_query (sha256_bytes body)) as (_ & Hnone & _). eapply twp_stmt; [|exact HQ].
  assert (DocumentRepo.storable d = true) as Hs.
  { assert (int4 (byte_length body) = true) as Hl.
    { unfold int4, byte_length, MAX_CONTENT_BYTES in *. apply andb_true_intro. split; [apply Z.leb_le|apply Z.ltb_lt]; lia. }
    unfold DocumentRepo.storable, d. simpl in Htitle, Hprev |- *. by rewrite Hi, Hf, Hl, Htitle, Hprev. }
  rewrite Hs. subst d. cbn [new_document hd_id hd_target_id hd_content_sha256 hd_fetch_job_id negb].
  rewrite (proj1 (st_fresh Hst uid ltac:(lia))), Hnone, Ht, Hj by done. reflexivity.
Qed.

Lemma success_run url http_status ct body :
  failure_of t (Fetched url http_status ct body) = None → storable (Fetched url http_status ct body) →
  twp (finalize_success job url http_status ct body)
    (λ r db' com' _ _, com' = db' ∧ attempt_ends (Fetched url http_status ct body) db' r) db db now uid.
Proof.
  intros Ho Hs. pose proof Hs as (Hi & Hf & _). destruct target_row as [Ht _].
  destruct (stored_query (sha256_bytes body)) as (Es & _ & Hsome).
  unfold finalize_success. twp_step. apply twp_lock; [lia|]. intros n Hn. cbv beta iota. unfold TargetRepo.get.
  do 2 twp_step. rewrite (st_target Hst). pose proof Ho as Hact. cbn [failure_of] in Hact.
  destruct (bool_decide (ht_status t = TARGET_ACTIVE)); [|done]. cbn [negb].
  unfold record_content, DocumentRepo.get_latest_for_target, DocumentRepo.find_by_target_and_hash. cbv zeta.
  do 4 twp_step. eapply twp_scalar; [exact Es|]. destruct (stored (sha256_bytes body)) as [d|] eqn:Ed.
  - twp_record. match goal with |- twp (mbind _ (ChangeRepo.add ?c)) _ _ _ _ _ =>
      apply (ending_run (hd_id d) c http_status (sha256_bytes body)) end;
      [reflexivity..|by apply (st_fresh Hst)|reflexivity|reflexivity| | |exact Hi|exact Hf|].
    1, 2: apply bool_decide_true; by rewrite (Hsome d).
    intros n' j_at t' j' Ht' Hj'. split; [reflexivity|].
    eapply ends_unchanged; [exact Ho|exact Ed|exact Ht'|exact Hj'|lia].
  - do 7 twp_step. apply (document_stored url http_status ct body); [done|done|]. twp_record.
    match goal with |- twp (mbind _ (ChangeRepo.add ?c)) _ _ _ _ _ =>
      apply (ending_run uid c http_status (sha256_bytes body)) end;
      [reflexivity..|exact (proj2 (st_fresh Hst (uid + 1)%N ltac:(lia)))|reflexivity|reflexivity|apply latest_known| |exact Hi|exact Hf|].
    + apply bool_decide_true. apply lookup_insert_is_Some. by left.
    + intros n' j_at t' j' Ht' Hj'. split; [reflexivity|].
      eapply (ends_new url http_status ct body); [exact Ho|exact Ed| |exact Ht'|exact Hj'|lia].
      unfold latest. by destruct (head _), (ht_last_content_sha256 t).
Qed.

(** C35: the complete effect of an attempt whose claim stands.  Its finalisation returns and
    commits, and what it leaves is told by the outcome: content the target already has in a
    document, at any time of its history, is CONTENT_UNCHANGED and stores no document; new
    content is stored in a document of its own and reported FIRST_SEEN or CONTENT_CHANGED;
    either way the target points at the document and the job has SUCCEEDED, unlocked.  A
    failed fetch, or a target no longer active, leaves the target as it was and one
    FETCH_FAILED change, and the job FAILED when the failure is permanent or the attempts
    are used up, and otherwise QUEUED again after a delay that doubles from a minute to at
    most an hour.  Nothing else changes. *)
Theorem attempt_effect o : storable o →
  ∃ r db' now' uid', finalize job o (session db db now uid) = (Ok r, session db' db' now' uid')
    ∧ attempt_ends o db' r.
Proof.
  intros Ho. cut (twp (finalize job o) (λ r db' com' _ _, com' = db' ∧ attempt_ends o db' r) db db now uid).
  { intros (r & db' & com' & n & u & E & -> & He). by exists r, db', n, u. }
  destruct o as [url st ct body|m|m]; cbn [finalize].
  - destruct (failure_of t (Fetched url st ct body)) as [[m p]|] eqn:Ef; [|by apply success_run].
    pose proof Ef as Ef'. cbn [failure_of] in Ef'. unfold finalize_success. twp_step. apply twp_lock; [lia|].
    intros n Hn. cbv beta iota. unfold TargetRepo.get. do 2 twp_step. rewrite (st_target Hst).
    destruct (bool_decide (ht_status t = TARGET_ACTIVE)); [done|]. cbn [negb].
    injection Ef' as <- <-. apply (failure_run _ _ n (Fetched url st ct body)); [done|lia].
  - apply (failure_run _ _ now (PermanentFailure m)); [done|lia].
  - apply (failure_run _ _ now (TransientFailure m)); [done|lia].
Qed.
End attempt.

(** The worker that took the second job of the sample, had it been in time. *)
#[local] Existing Instance sample_hash.
Definition slow_target : HermesCrawlTarget :=
  mkTarget 2 1 "https://example.org/reports/#top" "https://example.org/reports" TARGET_ACTIVE (Some "reports")
    (Some 3%N) (Some 5%N) (Some "<title>One</title>") (Some 200) (Some 20) 2 21.
Definition slow_page : FetchOutcome := Fetched "https://example.org/reports" 200 (Some "text/html") "<title>Two</title>".

Lemma fresh_check {A} (m : gmap UUID A) (uid : N) :
  forallb (λ kv, (kv.1 <? uid)%N) (map_to_list m) = true → ∀ k, (uid <= k)%N → m !! k = None.
Proof.
  intros Hm k Hk. destruct (m !! k) as [x|] eqn:E; [|done]. apply elem_of_map_to_list in E.
  rewrite forallb_forall in Hm. specialize (Hm _ (proj1 (list_elem_of_In _ _) E)). apply N.ltb_lt in Hm. simpl in Hm. exfalso. lia.
Qed.

Lemma slow_standing : standing (w_committed slow_world) slow_job slow_target 1000 10.
Proof.
  split; [exact slow_world_ok|vm_compute; reflexivity|vm_compute; reflexivity|]. intros k Hk.
  split; (apply (fresh_check _ 10); [vm_compute; reflexivity|exact Hk]).
Qed.

Lemma attempt_effect_witness : ∃ r db' now' uid',
  finalize slow_job slow_page (session (w_committed slow_world) (w_committed slow_world) 1000 10)
    = (Ok r, session db' db' now' uid')
  ∧ attempt_ends (w_committed slow_world) slow_job slow_target 1000 10 slow_page db' r.
Proof.
  apply (attempt_effect _ _ _ _ _ slow_standing slow_page).
  split; [reflexivity|]. split; [vm_compute; reflexivity|]. split; [vm_compute; discriminate|].
  split; vm_compute; reflexivity.
Defined.

(** A page whose text has a NUL after the part that is searched for binary content: the
    preview cannot be stored, and the attempt ends with an error and nothing committed. *)
Definition nul_page : FetchOutcome :=
  Fetched "https://example.org/reports" 200 (Some "text/plain")
    (Nat.iter 1100 (String "a"%char) (String "000"%char EmptyString)).
Example nul_page_fails :
  let w := session (w_committed slow_world) (w_committed slow_world) 1000 10 in
  let '(r, w') := finalize slow_job nul_page w in
  r = Raise (DataError "hermes_fetched_documents")
  ∧ (hj_status <$> rows (jobs (w_committed w'))) = [JOB_RUNNING; JOB_SUCCEEDED]
  ∧ length (rows (documents (w_committed w'))) = 1%nat.
Proof. vm_compute. by split_and!. Qed.

(** A page that returns to an earlier version is reported unchanged. *)
Definition back_fetch (now : datetime) (url : string) : FetchOutcome * Z :=
  (Fetched url 200 (Some "text/plain") (if (100 <? now) && (now <? 200) then "two" else "one"), 0).
Example back_to_an_earlier_page :
  (hg_change_type <$> py_sorted (λ x y, hg_detected_at x <=? hg_detected_at y)
    (rows (changes (w_committed (run_hermes sample_start
      [ Register "Agency" OFFICIAL_AGENCY None None; CreateTarget 1 "https://example.org" None;
        Enqueue 2 100 None; WorkerCycle back_fetch "w" 600 none_skipped 10 10; Wait 100;
        Enqueue 2 100 None; WorkerCycle back_fetch "w" 600 none_skipped 10 10; Wait 150;
        Enqueue 2 100 None; WorkerCycle back_fetch "w" 600 none_skipped 10 10 ])))))
  = [FIRST_SEEN; CONTENT_CHANGED; CONTENT_UNCHANGED].
Proof. vm_compute. reflexivity. Qed.
