(* ===== verification/HermesFetch.v ===== *)
(** The fetch over the network of Hermes (application/use_cases/run_hermes_fetch_job.py):
    validation of a URL before every connection, the host allowlist, the pinned address,
    redirects, the size cap, and what a failure means for the job.

    Name resolution and the exchange with a server are arguments: what they answer may
    depend on everything that happened before, as it does when a name is rebound between
    two lookups.  [ipaddress] and [urljoin] are Python's; the registry of special addresses
    is the one of its documentation, by which an IPv4-mapped address is judged as the IPv4
    address it maps. *)
From Stdlib Require Import Ascii.
From S2P Require Import Prelude Text PyFloat PyVal PyDate Entities ContextEntities Store Json.
From S2P Require Import Logic Conflicts Projection Reproject Publication HermesContent HermesUrl Hermes.
Open Scope string_scope.
Open Scope list_scope.
Open Scope Z_scope.

(** ** ipaddress *)
Inductive Addr := V4 (n : Z) | V6 (n : Z).
#[export] Instance Addr_eq_dec : EqDecision Addr.
Proof. solve_decision. Defined.

Definition ipv4_value (l : list ascii) : Z := fold_left (λ n p, 256 * n + digits_value p) (split_on "." [] l) 0.
Definition hex_digit (c : ascii) : Z :=
  let n := Z.of_N (code c) in
  if is_digit c then n - 48 else if 97 <=? n then n - 87 else n - 55.
Definition hextet_value (l : list ascii) : Z := fold_left (λ n c, 16 * n + hex_digit c) l 0.
Definition nonempty (l : list ascii) : bool := negb (bool_decide (l = [])).
(** The eight groups of a text accepted by [is_ipv6]. *)
Definition ipv6_value (l : list ascii) : Z :=
  let parts := split_on ":" [] (partition "%" l).1.1 in
  let p := default [] (last parts) in
  let '(parts, tail) :=
    if has "." p then (take (length parts - 1) parts, [ipv4_value p / 65536; ipv4_value p mod 65536]) else (parts, []) in
  let values ps := hextet_value <$> filter (λ q, nonempty q = true) ps in
  let groups := match inner_gaps (parts ++ ((λ _, ["0"%char]) <$> tail)) with
                | i :: _ => let hi := values (take i parts) in let lo := values (drop (S i) parts) ++ tail in
                            hi ++ replicate (8 - length hi - length lo) 0 ++ lo
                | [] => values parts ++ tail
                end in
  fold_left (λ n g, 65536 * n + g) groups 0.
(** [None]: ValueError *)
Definition ip_address (host : string) : option Addr :=
  let l := chars host in
  if is_ipv4 l && negb (has "/" l) then Some (V4 (ipv4_value l))
  else if is_ipv6 l then Some (V6 (ipv6_value l)) else None.

(** A network: its first address and the length of its prefix. *)
Definition within (width : Z) (n : Z) (net : Z * Z) : bool :=
  Z.shiftr n (width - net.2) =? Z.shiftr net.1 (width - net.2).
Definition v4 (a b c d : Z) : Z := 256 * (256 * (256 * a + b) + c) + d.
Definition v4_private : list (Z * Z) :=
  [(v4 0 0 0 0, 8); (v4 10 0 0 0, 8); (v4 127 0 0 0, 8); (v4 169 254 0 0, 16); (v4 172 16 0 0, 12); (v4 192 0 0 0, 24);
   (v4 192 0 0 170, 31); (v4 192 0 2 0, 24); (v4 192 168 0 0, 16); (v4 198 18 0 0, 15); (v4 198 51 100 0, 24);
   (v4 203 0 113 0, 24); (v4 240 0 0 0, 4); (v4 255 255 255 255, 32)].
Definition v4_excepted : list (Z * Z) := [(v4 192 0 0 9, 32); (v4 192 0 0 10, 32)].
Definition v4_cgnat : Z * Z := (v4 100 64 0 0, 10).
Definition v4_multicast : Z * Z := (v4 224 0 0 0, 4).
Definition v6 (text : string) : Z := ipv6_value (chars text).
Definition v6_private : list (Z * Z) :=
  [(v6 "::1", 128); (v6 "::", 128); (v6 "::ffff:0:0", 96); (v6 "64:ff9b:1::", 48); (v6 "100::", 64); (v6 "2001::", 23);
   (v6 "2001:db8::", 32); (v6 "2002::", 16); (v6 "fc00::", 7); (v6 "fe80::", 10)].
Definition v6_excepted : list (Z * Z) :=
  [(v6 "2001:1::1", 128); (v6 "2001:1::2", 128); (v6 "2001:3::", 32); (v6 "2001:4:112::", 48); (v6 "2001:20::", 28);
   (v6 "2001:30::", 28)].
Definition v6_multicast : Z * Z := (v6 "ff00::", 8).

Definition private (width : Z) (nets excepted : list (Z * Z)) (n : Z) : bool :=
  existsb (within width n) nets && negb (existsb (within width n) excepted).
Definition v4_is_global (n : Z) : bool := negb (within 32 n v4_cgnat) && negb (private 32 v4_private v4_excepted n).
Definition mapped (n : Z) : option Z := if Z.shiftr n 32 =? 65535 then Some (Z.land n (2 ^ 32 - 1)) else None.
Definition is_global (a : Addr) : bool :=
  match a with
  | V4 n => v4_is_global n
  | V6 n => match mapped n with Some m => v4_is_global m | None => negb (private 128 v6_private v6_excepted n) end
  end.
Definition is_multicast (a : Addr) : bool :=
  match a with
  | V4 n => within 32 n v4_multicast
  | V6 n => match mapped n with Some m => within 32 m v4_multicast | None => within 128 n v6_multicast end
  end.

(** ** What may be fetched *)
Definition is_blocked_ip (a : Addr) : bool :=
  match a with V4 n => within 32 n v4_cgnat | V6 _ => false end || is_multicast a || negb (is_global a).

Definition normalize_host_pattern (pattern : string) : string :=
  of_chars (drop_while (is_char ".") (chars (str_lower (str_strip pattern)))).
Definition matches_entry (h entry : string) : bool :=
  negb (str_empty entry) && (bool_decide (h = entry) || str_endswith ("." +:+ entry) h).
Definition host_matches_allowlist (host : string) (allowlist : list string) : bool :=
  let h := of_chars (rdrop_while (is_char ".") (chars (str_lower (str_strip host)))) in
  existsb (λ raw, matches_entry h (normalize_host_pattern raw)) allowlist.

Example blocked :
  (λ t, option_map is_blocked_ip (ip_address t)) <$>
    ["127.0.0.1"; "10.1.2.3"; "169.254.169.254"; "100.64.0.1"; "::1"; "::ffff:10.0.0.1"; "::ffff:100.64.0.1"; "fe80::1%eth0";
     "8.8.8.8"; "2606:4700::1111"; "::ffff:8.8.8.8"; "0177.0.0.1"; "2130706433"; "192.0.0.9"]
  = [Some true; Some true; Some true; Some true; Some true; Some true; Some true; Some true;
     Some false; Some false; Some false; None; None; Some false].
Proof. vm_compute. reflexivity. Qed.
Example allowlisted :
  (λ h, host_matches_allowlist h [" .Example.com"; "."; "ntsb.gov"]) <$>
    ["example.com"; "News.EXAMPLE.com."; "evil-example.com"; "ntsb.gov.evil.org"; "data.ntsb.gov"; ""]
  = [true; true; false; false; true; false].
Proof. vm_compute. reflexivity. Qed.

(** ** The errors of a fetch *)
Inductive FetchError :=
  | UnsupportedScheme (scheme : string)
  | SecurityError (message : string)
  | TooLarge
  | OtherError (message : string).   (* any exception that is not a HermesPermanentFetchError *)
Definition quoted (s : string) : string := of_chars (str_repr s).
Definition error_message (e : FetchError) : string :=
  match e with
  | UnsupportedScheme scheme => "Hermes fetch only allows http/https URLs (got scheme=" +:+ quoted scheme +:+ ")"
  | SecurityError message | OtherError message => message
  | TooLarge => too_large
  end.
Definition permanent (e : FetchError) : bool := match e with OtherError _ => false | _ => true end.

(** ** The network *)
Inductive Resolution :=
  | Resolved (infos : list (option string))   (* the address of each entry, if it has one *)
  | ResolveOSError (message : string)
  | ResolveError (message : string).
Record Response := mkResponse {
  rp_status : Z;
  rp_reason : string;
  rp_content_type : option string;
  rp_location : option string;
  rp_content_location : option string;
  rp_body : string;
}.
Inductive Exchange := Answered (r : Response) | Broken (message : string).
(** The request, to a host by name at the address it is pinned to. *)
Record Request := mkRequest {
  rq_host : string;
  rq_address : Addr;
  rq_port : Z;
  rq_host_header : string;
  rq_target : string;
}.
Inductive Event := LookedUp (host : string) (port : Z) (answer : Resolution) | Sent (r : Request).
(** What the network answers, given what happened before. *)
Class Network := {
  getaddrinfo : list Event → string → Z → Resolution;
  exchange : list Event → Request → Exchange;
}.

(** The log of a fetch, and its errors. *)
Definition FetchM (A : Type) : Type := list Event → (A + FetchError) * list Event.
#[export] Instance FetchM_ret : MRet FetchM := λ A a log, (inl a, log).
#[export] Instance FetchM_bind : MBind FetchM := λ A B f m log,
  match m log with (inl a, log) => f a log | (inr e, log) => (inr e, log) end.
Definition fail {A} (e : FetchError) : FetchM A := λ log, (inr e, log).
(** [ValueError]s of urllib.parse are no permanent errors. *)
Definition lift {A} (r : Res A) : FetchM A := λ log,
  match r with
  | Ok a => (inl a, log)
  | Raise (ValueError m) => (inr (OtherError m), log)
  | Raise _ => (inr (OtherError ""), log)
  end.

Section fetch.
Context `{Network}.

Definition lookup_host (host : string) (port : Z) : FetchM Resolution := λ log,
  let answer := getaddrinfo log host port in (inl answer, log ++ [LookedUp host port answer]).
Definition send (r : Request) : FetchM Exchange := λ log, (inl (exchange log r), log ++ [Sent r]).

Definition is_https (p : ParseResult) : bool := bool_decide (of_chars (map lower_char (ur_scheme p)) = "https").
Definition scheme_port (p : ParseResult) : Z := if is_https p then 443 else 80.
(** [parsed.port or default] *)
Definition effective_port (p : ParseResult) : Res Z :=
  n ← port p; mret (match n with None => scheme_port p | Some n => if n =? 0 then scheme_port p else n end).
Definition blocked_error : FetchError := SecurityError "Hermes fetch target resolves to a blocked network".

(** The last of the resolved addresses, all of them public. *)
Fixpoint choose_ip (infos : list (option string)) (chosen : option Addr) : FetchM (option Addr) :=
  match infos with
  | [] => mret chosen
  | None :: rest => choose_ip rest chosen
  | Some text :: rest =>
      match ip_address text with
      | None => fail (OtherError (quoted text +:+ " does not appear to be an IPv4 or IPv6 address"))
      | Some ip => if is_blocked_ip ip then fail blocked_error else choose_ip rest (Some ip)
      end
  end.

Definition parse_and_validate_fetch_url (url : string) (allowed_hosts : list string) : FetchM (ParseResult * Addr) :=
  parsed ← lift (urlparse (chars url));
  if negb (bool_decide (of_chars (map lower_char (ur_scheme parsed)) ∈ ["http"; "https"])) then
    fail (UnsupportedScheme (of_chars (ur_scheme parsed)))
  else
    match hostname parsed with
    | None => fail (SecurityError "Hermes fetch URL must include a hostname")
    | Some host =>
        let host := of_chars host in
        if negb (bool_decide (allowed_hosts = [])) && negb (host_matches_allowlist host allowed_hosts) then
          fail (SecurityError ("Hermes fetch target " +:+ quoted host +:+ " is not on HERMES_ALLOWED_HOSTS allowlist"))
        else
          port ← lift (effective_port parsed);
          match ip_address host with
          | Some ip => if is_blocked_ip ip then fail blocked_error else mret (parsed, ip)
          | None =>
              answer ← lookup_host host port;
              match answer with
              | ResolveOSError m => fail (SecurityError ("Hermes fetch target could not be resolved: " +:+ m))
              | ResolveError m => fail (OtherError m)
              | Resolved [] => fail (SecurityError "Hermes fetch target did not resolve")
              | Resolved infos =>
                  chosen ← choose_ip infos None;
                  match chosen with
                  | None => fail (SecurityError "Hermes fetch target did not resolve to a usable address")
                  | Some ip => mret (parsed, ip)
                  end
              end
          end
    end.
Definition assert_public_fetch_url (url : string) (allowed_hosts : list string) : FetchM unit :=
  _ ← parse_and_validate_fetch_url url allowed_hosts; mret tt.

Definition host_header (p : ParseResult) : Res string :=
  let host := default "" (of_chars <$> hostname p) in
  let host := if has ":" (chars host) && negb (str_startswith "[" host) then "[" +:+ host +:+ "]" else host in
  n ← port p;
  mret match n with
       | Some n => if negb (n =? 0) && negb (n =? scheme_port p) then host +:+ ":" +:+ int_str n else host
       | None => host
       end.
Definition request_target (p : ParseResult) : string :=
  let path := match ur_path p with [] => "/" | path => of_chars path end in
  path +:+ (match ur_params p with [] => "" | params => ";" +:+ of_chars params end)
       +:+ (match ur_query p with [] => "" | query => "?" +:+ of_chars query end).
Definition read_limited (body : string) : FetchM string :=
  if MAX_CONTENT_BYTES <? byte_length body then fail TooLarge else mret body.

(** ** urllib.parse.urljoin, for a base with the scheme http or https and a host *)
Definition unparse (scheme netloc path params query fragment : list ascii) : string :=
  of_chars (urlunparse scheme netloc path params query ++ match fragment with [] => [] | _ => "#"%char :: fragment end).
Definition squeeze (segments : list (list ascii)) : list (list ascii) :=
  match segments with
  | first :: (_ :: _) as rest =>
      first :: filter (λ s, nonempty s = true) (removelast rest) ++ [default [] (last rest)]
  | _ => segments
  end.
Definition dots (s : list ascii) : bool := bool_decide (s = ["."%char]) || bool_decide (s = ["."; "."]%char).
Definition resolve (segments : list (list ascii)) : list (list ascii) :=
  let resolved := fold_left (λ acc s,
    if bool_decide (s = ["."; "."]%char) then removelast acc
    else if bool_decide (s = ["."%char]) then acc else acc ++ [s]) segments [] in
  if dots (default [] (last segments)) then resolved ++ [[]] else resolved.
Definition urljoin (base url : string) : Res string :=
  if str_empty url then Ok base
  else
    b ← urlparse (chars base);
    u ← urlparse (chars url);
    let scheme := match ur_scheme u with [] => ur_scheme b | scheme => scheme end in
    if negb (bool_decide (scheme = ur_scheme b)) then Ok url
    else match ur_netloc u with
         | _ :: _ => Ok (unparse scheme (ur_netloc u) (ur_path u) (ur_params u) (ur_query u) (ur_fragment u))
         | [] =>
             match ur_path u, ur_params u with
             | [], [] =>
                 let query := match ur_query u with [] => ur_query b | query => query end in
                 Ok (unparse scheme (ur_netloc b) (ur_path b) (ur_params b) query (ur_fragment u))
             | _, _ =>
                 let base_parts := split_on "/" [] (ur_path b) in
                 let base_parts := match last base_parts with
                                   | Some (_ :: _) => removelast base_parts
                                   | _ => base_parts
                                   end in
                 let segments := if bool_decide (head (ur_path u) = Some "/"%char) then split_on "/" [] (ur_path u)
                                 else squeeze (base_parts ++ split_on "/" [] (ur_path u)) in
                 let path := match join ["/"%char] (resolve segments) with [] => ["/"%char] | path => path end in
                 Ok (unparse scheme (ur_netloc b) path (ur_params u) (ur_query u) (ur_fragment u))
             end
         end.
Example joins :
  map (urljoin "http://a/b/c/d;p?q")
    ["g"; "./g"; "g/"; "/g"; "//g"; "?y"; "g?y"; "#s"; ";x"; ""; "."; ".."; "../g"; "../../../g"; "g/./h"; "g;x=1/../y";
     "https://h/x"; "ftp://h"]
  = map Ok ["http://a/b/c/g"; "http://a/b/c/g"; "http://a/b/c/g/"; "http://a/g"; "http://g"; "http://a/b/c/d;p?y";
     "http://a/b/c/g?y"; "http://a/b/c/d;p?q#s"; "http://a/b/c/;x"; "http://a/b/c/d;p?q"; "http://a/b/c/"; "http://a/b/";
     "http://a/b/g"; "http://a/g"; "http://a/b/c/g/h"; "http://a/b/c/y"; "https://h/x"; "ftp://h"].
Proof. vm_compute. reflexivity. Qed.

(** ** The fetch *)
Definition is_redirect (status : Z) : bool := bool_decide (status ∈ [301; 302; 303; 307; 308]).
Definition some_text (o : option string) : option string := match o with Some EmptyString => None | _ => o end.

Record Fetch := mkFetch {
  ft_final_url : string;
  ft_http_status : Z;
  ft_content_type : option string;
  ft_body : string;
}.

(** The response, or the URL of a redirect. *)
Definition fetch_once_pinned (url : string) (allowed_hosts : list string) : FetchM (Fetch + string) :=
  '(parsed, connect_ip) ← parse_and_validate_fetch_url url allowed_hosts;
  port ← lift (effective_port parsed);
  header ← lift (host_header parsed);
  exchanged ← send (mkRequest (default "" (of_chars <$> hostname parsed)) connect_ip port header (request_target parsed));
  match exchanged with
  | Broken m => fail (OtherError m)
  | Answered r =>
      if is_redirect (rp_status r) then
        match some_text (rp_location r) with
        | None => fail (SecurityError "Hermes redirect response was missing Location")
        | Some location => next ← lift (urljoin url location); mret (inr next)
        end
      else if 400 <=? rp_status r then
        fail (OtherError ("HTTP Error " +:+ int_str (rp_status r) +:+ ": " +:+ rp_reason r))
      else
        body ← read_limited (rp_body r);
        final_url ← match some_text (rp_content_location r) with
                    | None => mret url
                    | Some location => lift (urljoin url location)
                    end;
        assert_public_fetch_url final_url allowed_hosts;;
        mret (inl (mkFetch final_url (rp_status r) (rp_content_type r) body))
  end.

Definition MAX_REDIRECTS : nat := 5.
Definition too_many_redirects : FetchError :=
  SecurityError ("Hermes fetch exceeded " +:+ int_str (Z.of_nat MAX_REDIRECTS) +:+ " redirects").
(** [for _ in range(n)] *)
Fixpoint follow_redirects (n : nat) (url : string) (allowed_hosts : list string) : FetchM Fetch :=
  match n with
  | O => fail too_many_redirects
  | S n' =>
      result ← fetch_once_pinned url allowed_hosts;
      match result with
      | inl response => mret response
      | inr next => follow_redirects n' next allowed_hosts
      end
  end.
Definition fetch_url_with_allowlist (url : string) (allowed_hosts : list string) : FetchM Fetch :=
  follow_redirects (S MAX_REDIRECTS) url allowed_hosts.

(** What the fetch means for the job. *)
Definition fetch_outcome (allowed_hosts : list string) (url : string) : FetchOutcome :=
  match (fetch_url_with_allowlist url allowed_hosts []).1 with
  | inl r => Fetched (ft_final_url r) (ft_http_status r) (ft_content_type r) (ft_body r)
  | inr e => if permanent e then PermanentFailure (error_message e) else TransientFailure (error_message e)
  end.
End fetch.

(** ** What a fetch reaches *)
Definition addresses (answer : Resolution) : list Addr :=
  match answer with Resolved infos => omap (λ o, t ← o; ip_address t) infos | _ => [] end.
Definition is_sent (e : Event) : bool := match e with Sent _ => true | _ => false end.

(** The address of a request is the one its host is, or one that the host was looked up to
    right before it, all of the answer being public. *)
Definition pinned (before : list Event) (host : string) (port : Z) (a : Addr) : Prop :=
  ip_address host = Some a
  ∨ ∃ earlier answer, before = earlier ++ [LookedUp host port answer] ∧ a ∈ addresses answer
      ∧ ∀ b, b ∈ addresses answer → is_blocked_ip b = false.
Record admissible (allowed : list string) (before : list Event) (r : Request) : Prop := {
  ad_public : is_blocked_ip (rq_address r) = false;
  ad_allowed : allowed = [] ∨ host_matches_allowlist (rq_host r) allowed = true;
  ad_pinned : pinned before (rq_host r) (rq_port r) (rq_address r);
}.

(** A log all of whose requests are admissible. *)
Inductive safe (allowed : list string) : list Event → Prop :=
  | safe_nil : safe allowed []
  | safe_lookup log host port answer : safe allowed log → safe allowed (log ++ [LookedUp host port answer])
  | safe_sent log r : safe allowed log → admissible allowed log r → safe allowed (log ++ [Sent r]).

Lemma safe_spec allowed log : safe allowed log →
  ∀ before r after, log = before ++ Sent r :: after → admissible allowed before r.
Proof.
  induction 1 as [|log host port answer _ IH|log r _ IH Ha]; intros before r' after E.
  - by destruct before.
  - destruct after as [|x after _] using rev_ind; [by apply app_inj_tail in E as [_ [=]]|].
    rewrite app_comm_cons, app_assoc in E. apply app_inj_tail in E as [-> _]. by eapply IH.
  - destruct after as [|x after _] using rev_ind; [by apply app_inj_tail in E as [-> [= ->]]|].
    rewrite app_comm_cons, app_assoc in E. apply app_inj_tail in E as [-> _]. by eapply IH.
Qed.

Section reach.
Context `{Network} (allowed : list string).

Lemma choose_ip_spec infos chosen log r log' : choose_ip infos chosen log = (r, log') →
  log' = log ∧ ∀ a, r = inl (Some a) →
    (chosen = Some a ∨ a ∈ addresses (Resolved infos))
    ∧ ∀ b, b ∈ addresses (Resolved infos) → is_blocked_ip b = false.
Proof.
  revert chosen. induction infos as [|[text|] infos IH]; intros chosen; simpl.
  - intros [= <- <-]. split; [done|]. intros a [= ->]. split; [by left|]. by intros b ?%elem_of_nil.
  - destruct (ip_address text) as [ip|] eqn:Ei; [|by intros [= <- <-]].
    destruct (is_blocked_ip ip) eqn:Eb; [by intros [= <- <-]|]. intros (-> & Hr)%IH. split; [done|].
    intros a (Ha & Hall)%Hr. simpl in *. split.
    + right. destruct Ha as [[= ->]|Ha]; [by left|by right].
    + intros b [->|Hb]%elem_of_cons; [done|by apply Hall].
  - intros E%IH. exact E.
Qed.

(** What validation adds to the log, and what it promises of the pinned address. *)
Lemma validate_spec url log r log' :
  parse_and_validate_fetch_url url allowed log = (r, log') →
  (log' = log ∨ ∃ host port answer, log' = log ++ [LookedUp host port answer])
  ∧ ∀ p a, r = inl (p, a) → is_blocked_ip a = false ∧ ∃ host port, hostname p = Some host ∧ effective_port p = Ok port
      ∧ (allowed = [] ∨ host_matches_allowlist (of_chars host) allowed = true) ∧ pinned log' (of_chars host) port a.
Proof.
  unfold parse_and_validate_fetch_url, mbind, FetchM_bind, lift, fail, mret, FetchM_ret.
  destruct (urlparse (chars url)) as [parsed|[]]; try (by intros [= <- <-]; split; [left|]).
  destruct (negb _); [by intros [= <- <-]; split; [left|]|].
  destruct (hostname parsed) as [host|] eqn:Eh; [|by intros [= <- <-]; split; [left|]].
  destruct (negb _ && negb _) eqn:Ea; [by intros [= <- <-]; split; [left|]|].
  assert (allowed = [] ∨ host_matches_allowlist (of_chars host) allowed = true) as Hall.
  { apply andb_false_iff in Ea as [Ea|Ea]; apply negb_false_iff in Ea; [left; by apply bool_decide_eq_true in Ea|by right]. }
  destruct (effective_port parsed) as [port|[]] eqn:Ep; try (by intros [= <- <-]; split; [left|]).
  destruct (ip_address (of_chars host)) as [ip|] eqn:Ei.
  - destruct (is_blocked_ip ip) eqn:Eb; intros [= <- <-]; (split; [by left|]); [done|].
    intros p a [= <- <-]. split; [done|]. exists host, port. split_and!; try done. by left.
  - unfold lookup_host. set (answer := getaddrinfo log (of_chars host) port).
    assert (∀ x : (ParseResult * Addr + FetchError), (x, log ++ [LookedUp (of_chars host) port answer]) = (r, log') →
      log' = log ∨ (∃ host port answer, log' = log ++ [LookedUp host port answer])) as Hlog.
    { intros x [= _ <-]. right. eauto. }
    destruct answer as [infos|m|m] eqn:Eans; try (by intros E; split; [by eapply Hlog|injection E as <- <-]).
    destruct infos as [|i infos']; [by intros E; split; [by eapply Hlog|injection E as <- <-]|].
    set (infos := i :: infos') in *. clearbody infos.
    destruct (choose_ip infos None _) as [c log1] eqn:Ec.
    pose proof (choose_ip_spec _ _ _ _ _ Ec) as [-> Hc].
    destruct c as [[ip|]|e]; try (by intros E; split; [by eapply Hlog|injection E as <- <-]).
    intros E. split; [by eapply Hlog|]. injection E as <- <-. intros p a [= <- <-].
    destruct (Hc ip eq_refl) as [[[=]|Hin] Hpub]. split; [by apply Hpub|].
    exists host, port. split_and!; try done. right. exists log, (Resolved infos). done.
Qed.

Definition requests (log : list Event) : nat := length (List.filter is_sent log).
Lemma requests_app l1 l2 : requests (l1 ++ l2) = (requests l1 + requests l2)%nat.
Proof. unfold requests. by rewrite List.filter_app, length_app. Qed.

Lemma validate_safe url log r log' : safe allowed log →
  parse_and_validate_fetch_url url allowed log = (r, log') → safe allowed log' ∧ requests log' = requests log.
Proof.
  intros Hs E. apply validate_spec in E as [[->|(host & port & answer & ->)] _]; [done|].
  split; [by apply safe_lookup|]. rewrite requests_app. apply Nat.add_0_r.
Qed.

(** A response that is handed on: small, successful, and from a URL that may be fetched. *)
Definition acceptable (f : Fetch) : Prop :=
  is_redirect (ft_http_status f) = false ∧ ft_http_status f < 400 ∧ byte_length (ft_body f) <= MAX_CONTENT_BYTES
  ∧ ∃ p host, urlparse (chars (ft_final_url f)) = Ok p ∧ hostname p = Some host
      ∧ (allowed = [] ∨ host_matches_allowlist (of_chars host) allowed = true)
      ∧ ∀ a, ip_address (of_chars host) = Some a → is_blocked_ip a = false.
Lemma validate_host url log p a log' : parse_and_validate_fetch_url url allowed log = (inl (p, a), log') →
  urlparse (chars url) = Ok p ∧ ∃ host, hostname p = Some host
    ∧ (allowed = [] ∨ host_matches_allowlist (of_chars host) allowed = true)
    ∧ ∀ b, ip_address (of_chars host) = Some b → is_blocked_ip b = false.
Proof.
  intros E. pose proof (validate_spec _ _ _ _ E) as [_ H1]. destruct (H1 p a eq_refl) as (_ & host & _ & Hh & _ & Ha & _).
  revert E. unfold parse_and_validate_fetch_url, mbind, FetchM_bind, lift, fail, mret, FetchM_ret.
  destruct (urlparse (chars url)) as [parsed|[]] eqn:Eu; try done. destruct (negb _); [done|].
  destruct (hostname parsed) as [h|] eqn:Eh; [|done]. destruct (negb _ && negb _); [done|].
  destruct (effective_port parsed) as [port|[]]; try done.
  assert (∀ q, p = q → q = parsed → Ok parsed = Ok p ∧ ∃ host, hostname p = Some host
    ∧ (allowed = [] ∨ host_matches_allowlist (of_chars host) allowed = true)
    ∧ (ip_address (of_chars host) = ip_address (of_chars h))) as Hend.
  { intros q -> ->. split; [done|]. rewrite Eh in Hh. injection Hh as <-. by exists h. }
  destruct (ip_address (of_chars h)) as [ip|] eqn:Ei.
  - destruct (is_blocked_ip ip) eqn:Eb; [done|]. intros [= Ep _ _].
    destruct (Hend parsed) as (Eo & host' & ? & ? & E'); [done|done|]. split; [done|]. exists host'. split_and!; try done.
    intros b Hb. rewrite E' in Hb. by injection Hb as <-.
  - intros E. assert (p = parsed) as Ep.
    { revert E. unfold lookup_host. destruct (getaddrinfo _ _ _) as [[|i infos]|m|m]; try done.
      destruct (choose_ip _ _ _) as [[[ip|]|e] log1]; try done. by intros [= ]. }
    destruct (Hend parsed) as (Eo & host' & ? & ? & E'); [done|done|]. split; [done|]. exists host'. split_and!; try done.
    intros b Hb. by rewrite E' in Hb.
Qed.

Lemma fetch_once_spec url log r log' : safe allowed log → fetch_once_pinned url allowed log = (r, log') →
  safe allowed log' ∧ (requests log' <= requests log + 1)%nat ∧ ∀ f, r = inl (inl f) → acceptable f.
Proof.
  intros Hs. unfold fetch_once_pinned, mbind, FetchM_bind. destruct (parse_and_validate_fetch_url _ _ _) as [v log1] eqn:E1.
  pose proof (validate_safe _ _ _ _ Hs E1) as [Hs1 Hn1]. pose proof (validate_spec _ _ _ _ E1) as [_ Hv].
  destruct v as [[p a]|e]; [|intros [= <- <-]; split_and!; [done|lia|done]].
  destruct (Hv p a eq_refl) as (Hb & host & port & Hh & Hp & Ha & Hpin). unfold lift at 1. rewrite Hp.
  unfold lift at 1. destruct (host_header p) as [header|[]]; try (intros [= <- <-]; split_and!; [done|lia|done]).
  unfold send. rewrite Hh. set (rq := mkRequest _ a port header _). set (log2 := log1 ++ [Sent rq]).
  assert (safe allowed log2) as Hs2 by (by apply safe_sent).
  assert (requests log2 = requests log + 1)%nat as Hn2 by (unfold log2; rewrite requests_app, Hn1; done).
  assert (∀ x : Fetch + string + FetchError, (∀ f, x ≠ inl (inl f)) → (x, log2) = (r, log') →
    safe allowed log' ∧ (requests log' <= requests log + 1)%nat ∧ ∀ f, r = inl (inl f) → acceptable f) as Hend.
  { intros x Hx E. injection E as <- <-. split; [exact Hs2|]. split; [by rewrite Hn2|]. intros f ->. by destruct (Hx f). }
  destruct (exchange log1 rq) as [rp|m]; [|by apply Hend].
  destruct (is_redirect (rp_status rp)) eqn:Er.
  { destruct (some_text _); [|by apply Hend]. unfold lift. destruct (urljoin _ _) as [next|[]]; by apply Hend. }
  destruct (Z.leb_spec 400 (rp_status rp)) as [|Hst]; [by apply Hend|].
  unfold read_limited. destruct (Z.ltb_spec MAX_CONTENT_BYTES (byte_length (rp_body rp))) as [|Hlen]; [by apply Hend|].
  unfold mret, FetchM_ret. 
  assert (∀ final log3, (assert_public_fetch_url final allowed;;
      mret (inl (mkFetch final (rp_status rp) (rp_content_type rp) (rp_body rp)) : Fetch + string)) log2 = (r, log3) →
    safe allowed log3 ∧ (requests log3 <= requests log + 1)%nat ∧ ∀ f, r = inl (inl f) → acceptable f) as Hfinal.
  { intros final log3. unfold assert_public_fetch_url, mbind, FetchM_bind.
    destruct (parse_and_validate_fetch_url final allowed log2) as [v log4] eqn:E2.
    pose proof (validate_safe _ _ _ _ Hs2 E2) as [Hs4 Hn4].
    destruct v as [[p' a']|e]; intros [= <- <-]; (split_and!; [done|lia|]); [|done].
    intros f [= <-]. apply validate_host in E2 as (Eu & host' & Hh' & Ha' & Hip). split_and!; [done|done|done|]. by exists p', host'. }
  destruct (some_text (rp_content_location rp)) as [l|]; [|by apply Hfinal].
  unfold lift. destruct (urljoin _ _) as [next|[]]; [by apply Hfinal|by apply Hend..].
Qed.

Lemma follow_redirects_spec n url log r log' : safe allowed log → follow_redirects n url allowed log = (r, log') →
  safe allowed log' ∧ (requests log' <= requests log + n)%nat ∧ ∀ f, r = inl f → acceptable f.
Proof.
  revert url log. induction n as [|n IH]; intros url log Hs.
  - intros [= <- <-]. split_and!; [done|lia|done].
  - cbn [follow_redirects]. unfold mbind, FetchM_bind. destruct (fetch_once_pinned _ _ _) as [x log1] eqn:E1.
    apply fetch_once_spec in E1 as (Hs1 & Hn1 & Hf); [|done].
    destruct x as [[f|next]|e].
    + intros [= <- <-]. split_and!; [done|lia|]. intros f' [= <-]. by apply Hf.
    + intros E. apply IH in E as (H1 & H2 & H3); [|done]. split_and!; [done|lia|done].
    + intros [= <- <-]. split_and!; [done|lia|done].
Qed.

(** C36: whatever the resolver and the servers answer, and however an answer changes between
    two lookups, a fetch sends at most six requests, each of them to an address that is
    globally reachable and no multicast address, for a host of the allowlist (when there is
    one), and that address is the host itself or one of the addresses it was looked up to
    immediately before the request, all of which were public: no redirect and no rebound
    name leads anywhere else.  A response that is handed on is no redirect and no error, is
    within the size cap, and names a URL that passed the same validation. *)
Theorem fetch_reaches_only_public_hosts url r log :
  fetch_url_with_allowlist url allowed [] = (r, log) →
  (∀ before rq after, log = before ++ Sent rq :: after → admissible allowed before rq)
  ∧ (requests log <= 6)%nat
  ∧ (∀ f, r = inl f → acceptable f).
Proof.
  intros E. apply follow_redirects_spec in E as (Hs & Hn & Hf); [|constructor].
  split_and!; [by apply safe_spec|exact Hn|exact Hf].
Qed.
End reach.

(** A server that redirects, and a name that is bound to the loopback address meanwhile. *)
Definition rebinding : Network := {|
  getaddrinfo log host port :=
    Resolved (if existsb is_sent log then [Some "93.184.216.34"; Some "127.0.0.1"] else [None; Some "93.184.216.34"]);
  exchange log r :=
    Answered (if bool_decide (rq_target r = "/a") then mkResponse 302 "Found" None (Some "./b?c#d") None ""
              else mkResponse 200 "OK" (Some "text/plain") None None "secret");
|}.
#[local] Existing Instance rebinding.
Definition public_address : Addr := V4 (v4 93 184 216 34).
Example rebound :
  fetch_url_with_allowlist "https://www.example.org/a" ["example.org"] []
  = (inr blocked_error,
     [LookedUp "www.example.org" 443 (Resolved [None; Some "93.184.216.34"]);
      Sent (mkRequest "www.example.org" public_address 443 "www.example.org" "/a");
      LookedUp "www.example.org" 443 (Resolved [Some "93.184.216.34"; Some "127.0.0.1"])]).
Proof. vm_compute. reflexivity. Qed.

Lemma fetch_reaches_only_public_hosts_witness :
  let log := (fetch_url_with_allowlist "https://www.example.org/a" ["example.org"] []).2 in
  requests log = 1%nat ∧ admissible ["example.org"] (take 1 log)
    (mkRequest "www.example.org" public_address 443 "www.example.org" "/a").
Proof.
  destruct (fetch_reaches_only_public_hosts ["example.org"] "https://www.example.org/a" _ _ rebound) as (Hs & _ & _).
  split; [vm_compute; reflexivity|].
  apply (Hs (take 1 (fetch_url_with_allowlist "https://www.example.org/a" ["example.org"] []).2) _
            (drop 2 (fetch_url_with_allowlist "https://www.example.org/a" ["example.org"] []).2)).
  vm_compute. reflexivity.
Defined.

(** A name server that cannot be reached fails the job for good; a redirect to a port out of
    range does not. *)
Definition flaky : Network := {|
  getaddrinfo log host port := ResolveOSError "[Errno -3] Temporary failure in name resolution";
  exchange log r := Answered (mkResponse 301 "Moved" None (Some "http://example.org:99999/") None "");
|}.
Example dns_failure_is_permanent :
  (fetch_outcome (H := flaky) [] "https://example.org/", fetch_outcome (H := flaky) [] "http://8.8.8.8/")
  = (PermanentFailure "Hermes fetch target could not be resolved: [Errno -3] Temporary failure in name resolution",
     TransientFailure "Port out of range 0-65535").
Proof. vm_compute. reflexivity. Qed.
