(* ===== verification/Provenance.v ===== *)
(** Field-level provenance (application/use_cases/_provenance.py): the claim that supports
    each value of a projection, which Chronos and Orion attach to what they extract; and
    that it is the claim the projection builder took the value from. *)
From Stdlib Require Import Ascii.
From S2P Require Import Prelude Text PyFloat PyVal Entities Store Conflicts Projection Reproject.
Open Scope string_scope.
Open Scope list_scope.
Open Scope Z_scope.

(** chronos_normalizers.safe_str *)
Definition marked (s : string) : bool := bool_decide (s = DISPUTED_MARKER) || str_startswith DISPUTED_MARKER s.
Definition clean (s : string) : option string :=
  let stripped := str_strip s in
  if str_empty stripped then None else if marked stripped then None else Some stripped.
Definition safe_str (value : pyval) : option string :=
  match value with
  | PNone => None
  | PList _ | PDict _ => None
  | PStr s => clean s
  | PInt _ | PFloat _ | PBool _ => Some (py_str value)
  | _ => None
  end.

(** [s.casefold()]: of the characters of the model only the sharp s folds to something else
    than its lower case (the micro sign folds to a letter outside of it, alone). *)
Definition casefold (s : string) : list ascii :=
  flat_map (λ c, if (code c =? 223)%N then ["s"; "s"]%char else [lower_char c]) (chars s).
Definition same_projected_value (value projected : pyval) : bool :=
  match safe_str value, safe_str projected with
  | Some a, Some b => bool_decide (casefold a = casefold b)
  | _, _ => false
  end.

(** The claim for one field. *)
Definition select_claim (claims : list Claim) (resolved : option ClaimConflict) (field_claims : list Claim)
    (sources_by_id : gmap UUID Source) (projected_value : pyval) : option Claim :=
  match safe_str projected_value with
  | None => None
  | Some _ =>
      let policy := WinnerPolicy.choose_winner
        (filter (λ c, same_projected_value (c_field_value c) projected_value = true) field_claims) sources_by_id in
      match resolved ≫= cf_winning_claim_id with
      | None => policy
      | Some w =>
          match List.find (λ c, (c_id c =? w)%N) claims with
          | Some winner => if same_projected_value (c_field_value winner) projected_value then Some winner else policy
          | None => policy
          end
      end
  end.
Definition select_claims (event_id : UUID) (raw_claims : list Claim) (conflicts : list ClaimConflict)
    (sources_by_id : gmap UUID Source) (fields : list (string * pyval)) : list (string * Claim) :=
  let claims := filter (λ c, c_event_id c = event_id ∧ is_active c = true) raw_claims in
  let resolved_by_field := latest_resolved_conflicts_by_field conflicts in
  omap (λ g, pair g.1 <$> select_claim claims (dict_get g.1 resolved_by_field) g.2 sources_by_id
                            (default PNone (dict_get g.1 fields)))
    (group_by c_field_name claims).

Definition select_projected_claims_by_field (event_id : UUID) (fields : list (string * pyval))
    : M (list (string * Claim)) :=
  raw_claims ← ClaimRepo.find_active_by_event event_id;
  sources ← SourceRepo.get_by_ids (dict_fromkeys (c_source_id <$> raw_claims));
  conflicts ← ConflictRepo.find_by_event event_id;
  mret (select_claims event_id raw_claims conflicts (ReProjectEvent.sources_by_id sources) fields).

(** ** Facts *)
Lemma safe_str_marker v : safe_str (replace_disputed v) = safe_str v.
Proof. destruct v; reflexivity. Qed.
Lemma same_value_refl v : safe_str v ≠ None → same_projected_value v v = true.
Proof. unfold same_projected_value. destruct (safe_str v); [|done]. intros _. by apply bool_decide_true. Qed.

Lemma dict_get_omap {A B} (sel : string → A → option B) (d : list (string * A)) f : NoDup d.*1 →
  dict_get f (omap (λ g, pair g.1 <$> sel g.1 g.2) d) = dict_get f d ≫= sel f.
Proof.
  set (F := λ g : string * A, pair g.1 <$> sel g.1 g.2).
  induction d as [|[k x] d IH]; [done|]. cbn [fmap list_fmap fst]. intros [Hk Hd]%NoDup_cons.
  change (omap F ((k, x) :: d)) with (match F (k, x) with Some y => y :: omap F d | None => omap F d end).
  change (F (k, x)) with (pair k <$> sel k x). cbn [dict_get]. destruct (decide (f = k)) as [->|Hne].
  - destruct (sel k x) as [y|] eqn:E; cbn [fmap option_fmap option_map dict_get]; [by rewrite decide_True|].
    rewrite IH by done. destruct (dict_get k d) as [z|] eqn:Ed; simpl; [|by rewrite E].
    exfalso. apply Hk, list_elem_of_fmap. apply dict_get_elem in Ed. by exists (k, z).
  - destruct (sel k x); cbn [fmap option_fmap option_map dict_get]; rewrite ?decide_False by done; by apply IH.
Qed.

Section provenance.
#[local] Set Default Proof Using "Type*".
Context (event_id : UUID) (claims : list Claim) (conflicts : list ClaimConflict) (s : gmap UUID Source).
Abbreviation alive := (filter (λ c, c_event_id c = event_id ∧ is_active c = true) claims).
Abbreviation resolved f := (dict_get f (latest_resolved_conflicts_by_field conflicts)).

Lemma select_claims_get fields f : live event_id claims f ≠ [] →
  dict_get f (select_claims event_id claims conflicts s fields)
  = select_claim alive (resolved f) (live event_id claims f) s (default PNone (dict_get f fields)).
Proof using.
  intros Hne. unfold select_claims.
  rewrite (dict_get_omap (λ f cs, select_claim alive (resolved f) cs s (default PNone (dict_get f fields))))
    by apply group_by_NoDup.
  rewrite <- (claims_by_field_get event_id claims f) in Hne |- *. unfold ProjectionBuilder.claims_by_field in *.
  by destruct (dict_get f (group_by c_field_name alive)).
Qed.

Lemma select_claims_live fields f c :
  dict_get f (select_claims event_id claims conflicts s fields) = Some c →
  live event_id claims f ≠ [] ∧ c ∈ claims ∧ c_event_id c = event_id ∧ is_active c = true
  ∧ same_projected_value (c_field_value c) (default PNone (dict_get f fields)) = true.
Proof using.
  unfold select_claims.
  rewrite (dict_get_omap (λ f cs, select_claim alive (resolved f) cs s (default PNone (dict_get f fields))))
    by apply group_by_NoDup.
  destruct (dict_get f (group_by c_field_name alive)) as [cs|] eqn:Eg; [|done]. simpl.
  assert (live event_id claims f = cs) as El.
  { rewrite <- claims_by_field_get. unfold ProjectionBuilder.claims_by_field. by rewrite Eg. }
  rewrite El. assert (cs ≠ []) as Hne by (intros ->; by apply group_by_get_nonempty in Eg).
  intros E. split; [done|]. set (v := default PNone (dict_get f fields)) in *. unfold select_claim in E.
  destruct (safe_str v); [|done].
  assert (∀ c, WinnerPolicy.choose_winner (filter (λ c, same_projected_value (c_field_value c) v = true) cs) s = Some c →
    c ∈ claims ∧ c_event_id c = event_id ∧ is_active c = true ∧ same_projected_value (c_field_value c) v = true) as Hpol.
  { intros x (Hx & _ & _)%WinnerPolicy.choose_winner_Some. apply list_elem_of_filter in Hx as [Hv Hx].
    rewrite <- El in Hx. apply live_active in Hx as (? & ? & ? & _). done. }
  destruct (resolved f ≫= cf_winning_claim_id) as [w|]; [|by apply Hpol].
  destruct (List.find _ alive) as [win|] eqn:Ef; [|by apply Hpol].
  destruct (same_projected_value (c_field_value win) v) eqn:Ev; [|by apply Hpol]. injection E as <-.
  apply find_some in Ef as [Hin _]. apply list_elem_of_In, list_elem_of_filter in Hin as [[? ?] ?]. done.
Qed.

(** What a projection that is up to date says about a field, as it is stored. *)
Lemma stored_field version now f :
  dict_get f (pj_fields (ProjectionRepo.to_row (ProjectionBuilder.build event_id claims conflicts s version now)))
  = replace_disputed <$> match ProjectionBuilder.result_for event_id claims conflicts s f with
                         | ProjectionBuilder.Disputed => Some PDisputed
                         | ProjectionBuilder.Value v => Some v
                         | ProjectionBuilder.Absent => None
                         end.
Proof using.
  cbn [ProjectionRepo.to_row pj_fields ProjectionBuilder.build].
  assert (∀ d : list (string * pyval), dict_get f (map (λ kv, (kv.1, replace_disputed kv.2)) d) = replace_disputed <$> dict_get f d) as Hmap.
  { induction d as [|[k v] d IH]; simpl; [done|]. by case_decide. }
  rewrite Hmap, dict_get_entries.
  destruct (decide (f ∈ ProjectionBuilder.all_fields event_id claims conflicts)) as [Hin|Hn].
  - rewrite bool_decide_true by done. by destruct (ProjectionBuilder.result_for event_id claims conflicts s f).
  - rewrite bool_decide_false by done. by rewrite result_for_absent.
Qed.

(** The claim a value was taken from: the winner of the latest resolution while it is
    active, else the best claim alive under the winner policy. *)
Definition decisive (f : string) (c : Claim) : Prop :=
  resolved_winner event_id claims conflicts f c
  ∨ (∀ c', ¬ resolved_winner event_id claims conflicts f c')
    ∧ c ∈ live event_id claims f ∧ ∀ c', c' ∈ live event_id claims f → WinnerPolicy.not_below s c c' = true.

Hypothesis Hids : NoDup (c_id <$> claims).
Hypothesis Hconflicts : Forall (λ c, cf_event_id c = event_id) conflicts.
(** The winner of a conflict is a claim of its field. *)
Hypothesis Hwinners : ∀ r c, r ∈ conflicts → cf_winning_claim_id r = Some (c_id c) → c ∈ claims →
  c_field_name c = cf_field_name r.

Lemma filter_own : filter (λ c, cf_event_id c = event_id) conflicts = conflicts.
Proof using Hconflicts. clear Hids Hwinners. induction Hconflicts as [|c l Hc Hl IH]; [done|]. rewrite filter_cons, decide_True by done. by rewrite IH. Qed.

Lemma find_alive w c : c ∈ claims → c_event_id c = event_id → is_active c = true → c_id c = w →
  List.find (λ c, (c_id c =? w)%N) alive = Some c.
Proof using Hids.
  intros Hc He Ha <-. destruct (List.find _ alive) as [x|] eqn:Ef.
  - apply find_some in Ef as [Hx Eid%N.eqb_eq]. apply list_elem_of_In, list_elem_of_filter in Hx as [_ Hx].
    f_equal. by apply (NoDup_fmap_inj_elem c_id claims).
  - exfalso. assert (In c alive) as Hin by (by apply list_elem_of_In, list_elem_of_filter).
    apply (find_none _ _ Ef) in Hin. simpl in Hin. by rewrite N.eqb_refl in Hin.
Qed.

(** The best claim of the top tier is the best of all: the type ranks first. *)
Lemma best_overall f c : c ∈ top_tier (live event_id claims f) →
  (∀ c', c' ∈ top_tier (live event_id claims f) → WinnerPolicy.not_below s c c' = true) →
  ∀ c', c' ∈ live event_id claims f → WinnerPolicy.not_below s c c' = true.
Proof using.
  intros Hc Hmax c' Hc'. apply list_elem_of_filter in Hc as [Htop Hc]. rewrite Forall_forall in Htop.
  destruct (decide (rank c' = rank c)) as [E|Hne].
  - apply Hmax, list_elem_of_filter. split; [|done]. apply Forall_forall. intros x Hx. rewrite E. by apply Htop.
  - specialize (Htop c' Hc'). unfold rank in *. unfold WinnerPolicy.not_below, WinnerPolicy.key_leb, WinnerPolicy.sort_key.
    apply orb_true_iff. left. lia.
Qed.

Lemma no_winner_elsewhere f r w c : resolved f = Some r → cf_winning_claim_id r = Some w →
  (∀ c', ¬ resolved_winner event_id claims conflicts f c') →
  List.find (λ c, (c_id c =? w)%N) alive = Some c → False.
Proof using Hconflicts Hwinners.
  clear Hids. intros Er Ew Hno Ef. pose proof (latest_resolved_spec conflicts f) as Hl. rewrite Er in Hl. destruct Hl as (Hr & Hf & _).
  apply find_some in Ef as [Hin Eid%N.eqb_eq]. apply list_elem_of_In, list_elem_of_filter in Hin as [[He Ha] Hin].
  apply (Hno c). exists r. rewrite filter_own. split_and!; [done|congruence|].
  unfold live. rewrite !list_elem_of_filter. split_and!; try done. rewrite <- Hf. apply Hwinners; [done|congruence|done].
Qed.

(** C37: provenance names the claim a projection took its value from.  When the stored
    projection is up to date, the claim selected for a field is an active claim of the
    event whose value is the projected one, and it is the decisive one: the winner of the
    latest resolution while that claim is active, else the best claim alive under the
    winner policy.  A field without a selected claim is disputed, absent, or has a value
    that is no text. *)
Theorem provenance_names_the_winner version now f :
  let p := ProjectionBuilder.build event_id claims conflicts s version now in
  match dict_get f (select_claims event_id claims conflicts s (pj_fields (ProjectionRepo.to_row p))) with
  | Some c => c ∈ live event_id claims f ∧ outcome p f = ProjectionBuilder.Value (c_field_value c) ∧ decisive f c
  | None => ∀ v, outcome p f = ProjectionBuilder.Value v → safe_str v = None
  end.
Proof.
  cbv zeta. rewrite build_outcome. set (fields := pj_fields _). pose proof (stored_field version now f) as Ef. fold fields in Ef.
  pose proof (result_for_projects event_id claims conflicts s f) as Hp.
  pose proof (select_claims_live fields f) as Hlive.
  set (sel := dict_get f (select_claims _ _ _ _ fields)) in *.
  assert (safe_str (default PNone (dict_get f fields)) = None → sel = None) as Hblank.
  { intros Hs. destruct sel as [c|]; [|done]. destruct (Hlive c eq_refl) as (_ & _ & _ & _ & E).
    unfold same_projected_value in E. rewrite Hs in E. by destruct (safe_str (c_field_value c)). }
  destruct (ProjectionBuilder.result_for _ _ _ _ f) as [|v|] eqn:Er.
  - rewrite Hblank; [done|]. by rewrite Ef.
  - change (dict_get f fields = Some (replace_disputed v)) in Ef. rewrite Ef in Hblank.
    change (safe_str (replace_disputed v) = None → sel = None) in Hblank. rewrite safe_str_marker in Hblank.
    destruct (safe_str v) as [t|] eqn:Et; [|rewrite Hblank by done; by intros ? [= <-]].
    assert (same_projected_value v (replace_disputed v) = true) as Hsame.
    { unfold same_projected_value. rewrite safe_str_marker, Et. by apply bool_decide_true. }
    assert (∃ c, c ∈ live event_id claims f ∧ v = c_field_value c ∧ decisive f c ∧ sel = Some c) as (c & Hc & -> & Hd & ->); [|done].
    inversion Hp as [|c Hno Hw Ev| |c Hno Hnw _ Hc Hmax Ev|]; subst v.
    + exists c. assert (c ∈ live event_id claims f) as Hc by (by destruct Hw as (r & _ & _ & Hc)).
      split_and!; [done|done|by left|]. unfold sel. rewrite select_claims_get by (intros E; rewrite E in Hc; by apply elem_of_nil in Hc).
      rewrite Ef. unfold select_claim. cbn [from_option id]. rewrite safe_str_marker, Et.
      destruct Hw as (r & Hr & Hwin & _). rewrite filter_own in Hr. rewrite Hr. cbn [mbind option_bind]. rewrite Hwin.
      apply live_active in Hc as (Hin & He & Ha & _). by rewrite (find_alive (c_id c) c), Hsame.
    + exists c. pose proof Hc as Hc'. apply list_elem_of_filter in Hc' as [_ Hc'].
      pose proof (best_overall f c Hc Hmax) as Hbest. split_and!; [done|done|right; by split_and!|].
      unfold sel. rewrite select_claims_get by (intros E; rewrite E in Hc'; by apply elem_of_nil in Hc').
      rewrite Ef. unfold select_claim. cbn [from_option id]. rewrite safe_str_marker, Et.
      set (matching := filter _ (live event_id claims f)).
      assert (WinnerPolicy.choose_winner matching s = Some c) as Hpol.
      { destruct (WinnerPolicy.choose_winner matching s) as [w|] eqn:Ew.
        - apply WinnerPolicy.choose_winner_Some in Ew as (Hw & _ & Hwmax). f_equal.
          apply list_elem_of_filter in Hw as [_ Hw].
          apply (NoDup_fmap_inj_elem c_id claims); [done|by apply live_active in Hw as [? _]|by apply live_active in Hc' as [? _]|].
          apply (WinnerPolicy.not_below_same_id s); [|by apply Hbest]. apply Hwmax.
          + by apply list_elem_of_filter.
          + rewrite can_win_active. by apply live_active in Hc' as (_ & _ & ? & _).
        - exfalso. rewrite WinnerPolicy.choose_winner_None in Ew. assert (c ∈ matching) as Hm by (by apply list_elem_of_filter).
          specialize (Ew c Hm). rewrite can_win_active in Ew. apply live_active in Hc' as (_ & _ & Ha & _). congruence. }
      destruct (resolved f) as [r|] eqn:Er'; [|done]. cbn [mbind option_bind].
      destruct (cf_winning_claim_id r) as [w|] eqn:Ewin; [|done].
      destruct (List.find _ alive) as [x|] eqn:Efind; [|done]. exfalso. by eapply no_winner_elsewhere.
  - rewrite Hblank; [done|]. by rewrite Ef.
Qed.
End provenance.

(** Two spellings of an operator, the better source in the second place. *)
Definition sample_sources : gmap UUID Source :=
  list_to_map [(10, mkSource 10 "NTSB" EXTERNAL 1 []); (11, mkSource 11 "Press" EXTERNAL 5 [])]%N.
Definition sample_claim (id source : UUID) (field : string) (v : pyval) (t : ClaimType) : Claim :=
  mkClaim id 1 source None field v t (Z.of_N id) None None.
Definition sample_claims : list Claim :=
  [sample_claim 21 11 "operator" (PStr "ACME Air") RAW; sample_claim 22 10 "operator" (PStr " Acme  Air") RAW;
   sample_claim 23 10 "operator" (PStr "Acme Air") SUPERSEDED; sample_claim 24 11 "fatalities" (PInt 3) CONFIRMED].

Lemma provenance_names_the_winner_witness :
  let fields := pj_fields (ProjectionRepo.to_row (ProjectionBuilder.build 1 sample_claims [] sample_sources 1 0)) in
  let selected := select_claims 1 sample_claims [] sample_sources fields in
  dict_get "operator" selected = Some (sample_claim 22 10 "operator" (PStr " Acme  Air") RAW)
  ∧ decisive 1 sample_claims [] sample_sources "operator" (sample_claim 22 10 "operator" (PStr " Acme  Air") RAW).
Proof.
  assert (dict_get "operator" (select_claims 1 sample_claims [] sample_sources
    (pj_fields (ProjectionRepo.to_row (ProjectionBuilder.build 1 sample_claims [] sample_sources 1 0))))
    = Some (sample_claim 22 10 "operator" (PStr " Acme  Air") RAW)) as E by (vm_compute; reflexivity).
  assert (NoDup (c_id <$> sample_claims)) as Hids by (apply (bool_decide_unpack _); vm_compute; exact I).
  assert (∀ r c, r ∈ @nil ClaimConflict → cf_winning_claim_id r = Some (c_id c) → c ∈ sample_claims →
    c_field_name c = cf_field_name r) as Hw by (intros r c []%elem_of_nil).
  pose proof (provenance_names_the_winner 1 sample_claims [] sample_sources Hids (Forall_nil_2 _) Hw 1 0 "operator") as H.
  cbv zeta in H. rewrite E in H. exact (conj E (proj2 (proj2 H))).
Defined.
