(* ===== verification/Extraction.v ===== *)
(** What the extractions of Chronos and Orion share: tables with a unique key that only
    grow, and the claims that support a projection. *)
From S2P Require Import Prelude Text PyFloat PyVal Entities Store.
From S2P Require Import Logic Conflicts Projection Reproject Wp Provenance.
Open Scope string_scope.
Open Scope list_scope.
Open Scope Z_scope.

(** ** Tables with a unique key, which a partial index leaves undefined on some rows *)
Section keyed.
#[local] Set Default Proof Using "Type*".
Context {A K : Type} (id : A → UUID) (key : A → option K).

Record table_ok (m : gmap UUID A) : Prop := {
  tk_id k x : m !! k = Some x → id x = k;
  tk_unique k k' x x' c : m !! k = Some x → m !! k' = Some x' → key x = Some c → key x' = Some c → k = k';
}.
Definition has_key (c : K) (m : gmap UUID A) : Prop := ∃ k x, m !! k = Some x ∧ key x = Some c.

(** [m'] has every row of [m], and rows of [new] under keys [m] did not have. *)
Definition added (new : A → Prop) (m m' : gmap UUID A) : Prop :=
  m ⊆ m' ∧ ∀ k x, m' !! k = Some x → m !! k = Some x ∨ new x ∧ ∀ c, key x = Some c → ¬ has_key c m.

Lemma has_key_mono c m m' : m ⊆ m' → has_key c m → has_key c m'.
Proof using. intros Hm (k & x & Hx & Hc). exists k, x. split; [|done]. by eapply lookup_weaken. Qed.
Lemma added_refl new m : added new m m.
Proof using. split; [done|]. by left. Qed.
Lemma added_trans new m1 m2 m3 : added new m1 m2 → added new m2 m3 → added new m1 m3.
Proof using.
  intros [H1 N1] [H2 N2]. split; [by etrans|]. intros k x Hx. destruct (N2 k x Hx) as [Hx2|[Hn Hc]]; [by apply N1|].
  right. split; [done|]. intros c Ec Hk. apply (Hc c Ec). by eapply has_key_mono.
Qed.
Lemma added_mono (new new' : A → Prop) m m' : (∀ x, new x → new' x) → added new m m' → added new' m m'.
Proof using.
  intros Hn [H1 H2]. split; [done|]. intros k x Hx. destruct (H2 k x Hx) as [?|[? ?]]; [by left|right]. split; [by apply Hn|done].
Qed.
Lemma added_has new m m' c : added new m m' → has_key c m' →
  has_key c m ∨ ∃ x, new x ∧ key x = Some c.
Proof using. intros [_ H] (k & x & Hx & Hc). destruct (H k x Hx) as [?|[? _]]; [left; by exists k, x|right; by exists x]. Qed.
(** Nothing new: every key a new row would have is there. *)
Lemma added_nothing new m m' : (∀ x, new x → ∃ c, key x = Some c ∧ has_key c m) → added new m m' → m' = m.
Proof using.
  intros Hnew [H1 H2]. apply (anti_symm (⊆)); [|done]. apply map_subseteq_spec. intros k x Hx.
  destruct (H2 k x Hx) as [?|[Hn Hno]]; [done|]. destruct (Hnew x Hn) as (c & Ec & Hc). by destruct (Hno c Ec).
Qed.

Lemma row_added new m x : table_ok m → m !! id x = None → (∀ c, key x = Some c → ¬ has_key c m) → new x →
  table_ok (<[id x := x]> m) ∧ added new m (<[id x := x]> m) ∧ size (<[id x := x]> m) = S (size m).
Proof using.
  intros [Hid Hu] Hn Hc Hnew. split_and!; [split|split|by apply map_size_insert_None].
  - intros k y [[<- <-]|[_ Hy]]%lookup_insert_Some; [done|by apply Hid].
  - intros k k' y y' c [[<- <-]|[_ Hy]]%lookup_insert_Some [[<- <-]|[_ Hy']]%lookup_insert_Some Ec Ec'; [done| | |by eapply Hu].
    + destruct (Hc c Ec). by exists k', y'.
    + destruct (Hc c Ec'). by exists k, y.
  - by apply insert_subseteq.
  - intros k y [[<- <-]|[_ Hy]]%lookup_insert_Some; [by right|by left].
Qed.

Lemma rows_of_key (P : A → Prop) `{∀ x, Decision (P x)} c m : table_ok m → (∀ x, P x ↔ key x = Some c) →
  filter P (rows m) = [] ∧ ¬ has_key c m
  ∨ ∃ x, filter P (rows m) = [x] ∧ m !! id x = Some x ∧ key x = Some c.
Proof using.
  intros [Hid Hu] HP. destruct (unique_row P m) as [E|(k & x & E & Hx & Hk)].
  - intros k k' x x' Hx Hx' Hc%HP Hc'%HP. by eapply Hu.
  - left. split; [done|]. intros (k & x & Hx & Hc). apply (not_elem_of_nil x). rewrite <- E.
    apply list_elem_of_filter. split; [by apply HP|]. apply elem_of_rows. by exists k.
  - right. exists x. rewrite (Hid k x Hx). split_and!; [done|done|by apply HP].
Qed.

Definition below (uid : N) (m : gmap UUID A) : Prop := ∀ k, is_Some (m !! k) → (k < uid)%N.
Lemma below_mono uid uid' m : (uid ≤ uid')%N → below uid m → below uid' m.
Proof using. intros Hle H k Hk. specialize (H k Hk). lia. Qed.
Lemma below_insert uid m x : below uid m → below (uid + 1) (<[uid := x]> m).
Proof using. intros H k. rewrite lookup_insert_is_Some. intros [<-|[_ Hk]]; [lia|]. specialize (H k Hk). lia. Qed.
Lemma below_None uid m : below uid m → m !! uid = None.
Proof using. intros H. destruct (m !! uid) eqn:E; [|done]. assert (uid < uid)%N by (apply H; by rewrite E). lia. Qed.
End keyed.

(** ** Support *)

(** The claims that support the fields of the projection. *)
Definition supports (event_id : UUID) (fields : list (string * pyval)) (db : DB) : list (string * Claim) :=
  let claims := ClaimRepo.active_by_event event_id db in
  select_claims event_id claims
    (ConflictRepo.load db <$> py_sorted ConflictRepo.newest_first (filter (λ c, cf_event_id c = event_id) (rows (db_conflicts db))))
    (ReProjectEvent.sources_by_id (omap (λ id, db_sources db !! id) (dict_fromkeys (dict_fromkeys (c_source_id <$> claims))))) fields.

(** Claims are keyed by their id and name a source and a snapshot that are stored. *)
Definition claims_referenced (db : DB) : Prop :=
  ∀ k c, db_claims db !! k = Some c → c_id c = k ∧ known (c_raw_snapshot_id c) (db_snapshots db) = true
    ∧ is_Some (db_sources db !! c_source_id c).
Lemma known_claim {A} (f : Claim → option UUID) (o : option Claim) (m : gmap UUID A) :
  (∀ c, o = Some c → known (f c) m = true) → known (o ≫= f) m = true.
Proof. destruct o; [|done]. intros H. by apply H. Qed.

Lemma supports_known event_id fields db f c : claims_referenced db → dict_get f (supports event_id fields db) = Some c →
  is_Some (db_claims db !! c_id c) ∧ known (c_raw_snapshot_id c) (db_snapshots db) = true ∧ is_Some (db_sources db !! c_source_id c).
Proof.
  intros Hc Ec. apply select_claims_live in Ec as (_ & Hin & _). apply list_elem_of_filter in Hin as [_ [k Hk]%elem_of_rows].
  destruct (Hc _ _ Hk) as (E & Hsnap & Hsrc). split_and!; [|done|done]. rewrite E. by eexists.
Qed.

Lemma twp_supports event_id fields Q db com now uid : Q (supports event_id fields db) db com now uid →
  twp (select_projected_claims_by_field event_id fields) Q db com now uid.
Proof.
  intros HQ. unfold select_projected_claims_by_field, ClaimRepo.find_active_by_event, SourceRepo.get_by_ids, ConflictRepo.find_by_event.
  do 7 twp_step. exact HQ.
Qed.
