(* ===== verification/Chronos.v ===== *)
(** Chronos: timelines extracted from projections.  The timestamp parser and the field
    normalisers (domain/services/chronos_time_parser.py, chronos_normalizers.py), the
    repositories (infrastructure/db/repositories/chronos.py) and the extraction
    (application/use_cases/extract_chronos_timeline_from_event.py). *)
From Stdlib Require Import Ascii.
From S2P Require Import Prelude Text PyFloat PyVal PyDate Entities ContextEntities Store Json.
From S2P Require Import Logic Conflicts Projection Reproject Provenance HermesContent.
Open Scope string_scope.
Open Scope list_scope.
Open Scope Z_scope.

(** ** chronos_time_parser.py *)

(** The regular expressions: digits and fixed characters. *)
Inductive pat := Digit | Lit (c : ascii) | Sep.   (* Sep: [T or space] *)
Definition accepts (p : pat) (c : ascii) : bool :=
  match p with
  | Digit => is_digit c
  | Lit x => Ascii.eqb c x
  | Sep => Ascii.eqb c "T" || Ascii.eqb c " "
  end.
(** The text after a match at its start. *)
Fixpoint match_prefix (ps : list pat) (l : list ascii) : option (list ascii) :=
  match ps, l with
  | [], _ => Some l
  | p :: ps', c :: l' => if accepts p c then match_prefix ps' l' else None
  | _ :: _, [] => None
  end.
(** A match of the whole text: a stripped text has no line feed before its end. *)
Definition matches (ps : list pat) (l : list ascii) : bool := bool_decide (match_prefix ps l = Some []).
Definition date_pat : list pat := [Digit; Digit; Digit; Digit; Lit "-"; Digit; Digit; Lit "-"; Digit; Digit].
Definition time_pat : list pat := [Digit; Digit; Lit ":"; Digit; Digit].
Definition ISO_DATETIME : list pat := date_pat ++ [Sep] ++ time_pat ++ [Lit ":"; Digit; Digit].
Definition DATETIME_MINUTE : list pat := date_pat ++ [Sep] ++ time_pat.
Definition DATE_HOUR : list pat := date_pat ++ [Sep; Digit; Digit].
(** [int] of the digits from [i], [n] of them. *)
Definition number_at (i n : nat) (l : list ascii) : Z :=
  fold_left (λ v c, 10 * v + (Z.of_N (code c) - 48)) (take n (drop i l)) 0.

Definition APPROXIMATE_PHRASES : list string :=
  ["approximately"; "about"; "around"; "circa"; "shortly after"; "shortly before"; "just after"; "just before";
   "during approach"; "during climb"; "during descent"; "during cruise"; "during takeoff"; "after takeoff";
   "before landing"; "on approach"].
Definition UNKNOWN_PHRASES : list string := ["unknown"; "n/a"; "not known"; "not available"; "unavailable"; "tbd"; ""].

(** An instant in UTC; a clock without a zone is taken as UTC. *)
Definition instant (x : date) (t : clock) : datetime :=
  days_of_date x * day_us + ((ck_hour t * 60 + ck_minute t) * 60 + ck_second t) * second_us + ck_us t
  - default 0 (ck_offset t).
(** [datetime(y, m, d, h, mi, tzinfo=UTC)]: [None] is its ValueError. *)
Definition make_datetime (y m d h mi : Z) : option datetime :=
  x ← make_date y m d;
  if (h <? 24) && (mi <? 60) then Some (instant x (mkClock h mi 0 0 None)) else None.

Definition iso_attempt (stripped : string) : option (datetime * ChronosTimestampPrecision) :=
  let normalised := str_replace " " "T" stripped in
  let normalised := if str_endswith "Z" normalised
                    then str_take (length (chars normalised) - 1) normalised +:+ "+00:00" else normalised in
  '(x, t) ← datetime_fromisoformat normalised;
  Some (instant x t, if negb (ck_second t =? 0) || negb (ck_us t =? 0) then EXACT else MINUTE).
Definition fields_attempt (stripped : string) (with_hour with_minute : bool) : option datetime :=
  let l := chars stripped in
  make_datetime (number_at 0 4 l) (number_at 5 2 l) (number_at 8 2 l)
    (if with_hour then number_at 11 2 l else 0) (if with_minute then number_at 14 2 l else 0).

Definition parse_chronos_timestamp (value : string) : option datetime * ChronosTimestampPrecision :=
  let stripped := str_strip value in
  let lower := str_lower stripped in
  let l := chars stripped in
  if str_empty stripped then (None, PRECISION_UNKNOWN)
  else if bool_decide (lower ∈ UNKNOWN_PHRASES) then (None, PRECISION_UNKNOWN)
  else if existsb (λ phrase, str_contains phrase lower) APPROXIMATE_PHRASES then (None, APPROXIMATE)
  else if matches time_pat l then (None, RELATIVE)
  else
    let attempt (b : bool) (o : option (datetime * ChronosTimestampPrecision)) := if b then o else None in
    match attempt (bool_decide (match_prefix ISO_DATETIME l ≠ None)) (iso_attempt stripped) with
    | Some (t, p) => (Some t, p)
    | None =>
        match attempt (matches DATETIME_MINUTE l) ((λ t, (t, MINUTE)) <$> fields_attempt stripped true true) with
        | Some (t, p) => (Some t, p)
        | None =>
            match attempt (matches DATE_HOUR l) ((λ t, (t, HOUR)) <$> fields_attempt stripped true false) with
            | Some (t, p) => (Some t, p)
            | None =>
                match attempt (matches date_pat l) ((λ t, (t, DAY)) <$> fields_attempt stripped false false) with
                | Some (t, p) => (Some t, p)
                | None => (None, PRECISION_UNKNOWN)
                end
            end
        end
    end.

Example parses :
  parse_chronos_timestamp <$>
    ["1970-01-02"; " 1970-01-01 01 "; "1970-01-01T00:01"; "1970-01-01 00:00:01Z"; "1970-01-01T02:00:00+02:00"; "12:30";
     "About noon"; "N/A"; "1970-02-30"; "1970-01-01 00:00:00 UTC"; ""]
  = [(Some day_us, DAY); (Some (3600 * second_us), HOUR); (Some (60 * second_us), MINUTE); (Some second_us, EXACT);
     (Some 0, MINUTE); (None, RELATIVE); (None, APPROXIMATE); (None, PRECISION_UNKNOWN); (None, PRECISION_UNKNOWN);
     (None, PRECISION_UNKNOWN); (None, PRECISION_UNKNOWN)].
Proof. vm_compute. reflexivity. Qed.

(** ** chronos_normalizers.py: what a timeline needs of a field is [Provenance.safe_str] *)
Definition is_blank (value : pyval) : bool :=
  match value with PNone => true | PStr s => str_empty (str_strip s) | _ => false end.

(** ** Tables *)
Definition timeline (db : DB) : gmap UUID ChronosTimelineEvent := ch_events (db_chronos db).
Definition links (db : DB) : gmap UUID ChronosEventLink := ch_links (db_chronos db).
Definition reviews (db : DB) : gmap UUID ChronosSequenceReview := ch_reviews (db_chronos db).
Definition set_timeline (m : gmap UUID ChronosTimelineEvent) : DB → DB := upd_chronos (λ t,
  mkChronosTables m (ch_links t) (ch_reviews t)).
Definition set_links (m : gmap UUID ChronosEventLink) : DB → DB := upd_chronos (λ t,
  mkChronosTables (ch_events t) m (ch_reviews t)).
Definition set_reviews (m : gmap UUID ChronosSequenceReview) : DB → DB := upd_chronos (λ t,
  mkChronosTables (ch_events t) (ch_links t) m).


(** ** SqlChronosTimelineEventRepository *)
Module TimelineRepo.
Definition get (id : UUID) : M (option ChronosTimelineEvent) := query (λ db, timeline db !! id).
(** uq_chronos_timeline_events_idempotent *)
Definition key (e : ChronosTimelineEvent) : UUID * ChronosTimelineEventType * option string :=
  (ct_accident_event_id e, ct_event_type e, ct_raw_value e).
Definition with_key (k : UUID * ChronosTimelineEventType * option string) (db : DB) : list ChronosTimelineEvent :=
  filter (λ e, key e = k) (rows (timeline db)).
Definition find_existing (accident_event_id : UUID) (event_type : ChronosTimelineEventType) (raw_value : option string)
    : M (option ChronosTimelineEvent) := scalar_query (with_key (accident_event_id, event_type, raw_value)).
(** The years 1 to 9999 of an instant in UTC. *)
Definition storable (e : ChronosTimelineEvent) : bool :=
  from_option (λ t, (days_of_date (mkDate 1 1 1) * day_us <=? t) && (t <? (days_of_date (mkDate 9999 12 31) + 1) * day_us))
    true (ct_occurred_at e).
Definition insert (e : ChronosTimelineEvent) : M (option ChronosTimelineEvent) :=
  stmt (λ db,
    if negb (storable e) then (Raise (DataError "chronos_timeline_events"), db)
    else match with_key (key e) db with
         | _ :: _ => (Ok None, db)
         | [] =>
             match timeline db !! ct_id e, db_events db !! ct_accident_event_id e with
             | Some _, _ => (Raise (IntegrityError "chronos_timeline_events_pkey"), db)
             | None, None => (Raise (IntegrityError "chronos_timeline_events_accident_event_id_fkey"), db)
             | None, Some _ =>
                 if known (ct_source_claim_id e) (db_claims db) && known (ct_raw_snapshot_id e) (db_snapshots db)
                 then (Ok (Some e), set_timeline (<[ct_id e := e]> (timeline db)) db)
                 else (Raise (IntegrityError "chronos_timeline_events_fkey"), db)
             end
         end).
Definition upsert_event (e : ChronosTimelineEvent) : M (ChronosTimelineEvent * bool) :=
  match ct_raw_value e with
  | None => raise (ValueError "ChronosTimelineEvent.raw_value must not be None")
  | Some _ =>
      row ← insert e;
      match row with
      | Some row => mret (row, true)
      | None =>
          existing ← find_existing (ct_accident_event_id e) (ct_event_type e) (ct_raw_value e);
          match existing with
          | Some x => mret (x, false)
          | None => raise (ConcurrentUpsertError "ChronosTimelineEvent upsert")
          end
      end
  end.
Definition list_for_accident_event (accident_event_id : UUID) : M (list ChronosTimelineEvent) :=
  query (λ db, filter (λ e, ct_accident_event_id e = accident_event_id) (rows (timeline db))).
End TimelineRepo.

(** ** SqlChronosEventLinkRepository *)
Module LinkRepo.
(** uq_chronos_event_links_pair *)
Definition key (l : ChronosEventLink) : UUID * UUID * UUID * string :=
  (cl_accident_event_id l, cl_predecessor_event_id l, cl_successor_event_id l, cl_relationship_type l).
Definition with_key (k : UUID * UUID * UUID * string) (db : DB) : list ChronosEventLink :=
  filter (λ l, key l = k) (rows (links db)).
Definition insert (l : ChronosEventLink) : M (option ChronosEventLink) :=
  stmt (λ db,
    if bool_decide (cl_predecessor_event_id l = cl_successor_event_id l)
    then (Raise (IntegrityError "ck_chronos_event_links_no_self_link"), db)
    else match with_key (key l) db with
         | _ :: _ => (Ok None, db)
         | [] =>
             match links db !! cl_id l with
             | Some _ => (Raise (IntegrityError "chronos_event_links_pkey"), db)
             | None =>
                 if known (Some (cl_accident_event_id l)) (db_events db)
                    && known (Some (cl_predecessor_event_id l)) (timeline db)
                    && known (Some (cl_successor_event_id l)) (timeline db)
                 then (Ok (Some l), set_links (<[cl_id l := l]> (links db)) db)
                 else (Raise (IntegrityError "chronos_event_links_fkey"), db)
             end
         end).
Definition upsert_link (l : ChronosEventLink) : M (ChronosEventLink * bool) :=
  row ← insert l;
  match row with
  | Some row => mret (row, true)
  | None =>
      existing ← scalar_query (with_key (key l));
      match existing with
      | Some x => mret (x, false)
      | None => raise (ConcurrentUpsertError "ChronosEventLink upsert")
      end
  end.
Definition list_for_accident_event (accident_event_id : UUID) : M (list ChronosEventLink) :=
  query (λ db, filter (λ l, cl_accident_event_id l = accident_event_id) (rows (links db))).
End LinkRepo.

(** ** SqlChronosSequenceReviewRepository *)
Module SequenceReviewRepo.
(** uq_chronos_sequence_reviews_pending_pair: the two ids in either order *)
Definition pair (r : ChronosSequenceReview) : UUID * UUID :=
  (N.min (cq_timeline_event_id_a r) (cq_timeline_event_id_b r), N.max (cq_timeline_event_id_a r) (cq_timeline_event_id_b r)).
Definition pending_pair (p : UUID * UUID) (db : DB) : list ChronosSequenceReview :=
  filter (λ r, cq_status r = SEQ_PENDING ∧ pair r = p) (rows (reviews db)).
Definition add (r : ChronosSequenceReview) : M unit :=
  stmt (λ db,
    if bool_decide (cq_timeline_event_id_a r = cq_timeline_event_id_b r)
    then (Raise (IntegrityError "ck_chronos_sequence_reviews_no_self_pair"), db)
    else if bool_decide (cq_status r = SEQ_PENDING) && negb (bool_decide (pending_pair (pair r) db = []))
    then (Ok tt, db)
    else match reviews db !! cq_id r with
         | Some _ => (Raise (IntegrityError "chronos_sequence_reviews_pkey"), db)
         | None =>
             if known (Some (cq_accident_event_id r)) (db_events db)
                && known (Some (cq_timeline_event_id_a r)) (timeline db)
                && known (Some (cq_timeline_event_id_b r)) (timeline db)
             then (Ok tt, set_reviews (<[cq_id r := r]> (reviews db)) db)
             else (Raise (IntegrityError "chronos_sequence_reviews_fkey"), db)
         end).
Definition resolved (status : ChronosSequenceReviewStatus) (now : datetime) (by_ : UUID) (note : option string)
    (r : ChronosSequenceReview) : ChronosSequenceReview :=
  mkSequenceReview (cq_id r) (cq_accident_event_id r) (cq_timeline_event_id_a r) (cq_timeline_event_id_b r)
    (cq_reason r) status (cq_created_at r) (Some now) (Some by_) note.
Definition mark (status : ChronosSequenceReviewStatus) (review_id resolved_by : UUID) (note : option string) : M unit :=
  row ← query (λ db, reviews db !! review_id);
  match row with
  | None => mret tt
  | Some r => now ← utc_now; exec (λ db, set_reviews (<[review_id := resolved status now resolved_by note r]> (reviews db)) db)
  end.
Definition mark_confirmed := mark SEQ_CONFIRMED.
Definition mark_rejected := mark SEQ_REJECTED.
End SequenceReviewRepo.

(** ** ExtractChronosTimelineFromEvent *)
Module ExtractChronosTimeline.
Definition FIELD_MAPPINGS (t : ChronosTimelineEventType) : list string :=
  match t with
  | SCHEDULED_DEPARTURE => ["scheduled_departure"; "scheduled_departure_time"]
  | ACTUAL_DEPARTURE => ["actual_departure"; "departure_time"]
  | TAKEOFF => ["takeoff"; "takeoff_time"]
  | LAST_CONTACT => ["last_contact"; "last_contact_time"]
  | EMERGENCY_DECLARED => ["emergency_declared"; "emergency_time"; "mayday_time"]
  | IMPACT => ["impact"; "impact_time"; "accident_time"; "crash_time"]
  | LANDING_EVENT => ["landing"; "landing_time"]
  | RESCUE_STARTED => ["rescue_started"; "rescue_time"]
  | INVESTIGATION_OPENED => ["investigation_opened"; "investigation_start_date"]
  | REPORT_PUBLISHED => ["report_published"; "final_report_date"; "report_date"]
  end.
Definition SEQUENCE_ORDER : list ChronosTimelineEventType :=
  [SCHEDULED_DEPARTURE; ACTUAL_DEPARTURE; TAKEOFF; LAST_CONTACT; EMERGENCY_DECLARED; IMPACT; LANDING_EVENT;
   RESCUE_STARTED; INVESTIGATION_OPENED; REPORT_PUBLISHED].
Definition sequence_index (t : ChronosTimelineEventType) : Z :=
  match t with
  | SCHEDULED_DEPARTURE => 0 | ACTUAL_DEPARTURE => 1 | TAKEOFF => 2 | LAST_CONTACT => 3 | EMERGENCY_DECLARED => 4
  | IMPACT => 5 | LANDING_EVENT => 6 | RESCUE_STARTED => 7 | INVESTIGATION_OPENED => 8 | REPORT_PUBLISHED => 9
  end.

(** The first field of a type with a usable value. *)
Definition first_usable (fields : list (string * pyval)) (names : list string) : option (string * string) :=
  head (omap (λ n, Datatypes.pair n <$> safe_str (default PNone (dict_get n fields))) names).

Record ChronosExtractionResult := mkExtraction {
  cx_event_id : UUID;
  cx_timeline_events_created_count : Z;
  cx_timeline_events_reused_count : Z;
  cx_event_links_created_count : Z;
  cx_timeline_event_ids : list UUID;
  cx_event_link_ids : list UUID;
}.
Definition add_id (id : UUID) (ids : list UUID) : list UUID := if bool_decide (id ∈ ids) then ids else ids ++ [id].
Definition count_event (created : bool) (id : UUID) (r : ChronosExtractionResult) : ChronosExtractionResult :=
  mkExtraction (cx_event_id r) (cx_timeline_events_created_count r + if created then 1 else 0)
    (cx_timeline_events_reused_count r + if created then 0 else 1) (cx_event_links_created_count r)
    (add_id id (cx_timeline_event_ids r)) (cx_event_link_ids r).
Definition count_link (created : bool) (id : UUID) (r : ChronosExtractionResult) : ChronosExtractionResult :=
  mkExtraction (cx_event_id r) (cx_timeline_events_created_count r) (cx_timeline_events_reused_count r)
    (cx_event_links_created_count r + if created then 1 else 0) (cx_timeline_event_ids r) (add_id id (cx_event_link_ids r)).

Section extraction.
Context (event_id : UUID) (fields : list (string * pyval)) (claims_by_field : list (string * Claim)).

Definition extract_event (t : ChronosTimelineEventType)
    (st : ChronosExtractionResult * list ChronosTimelineEvent) : M (ChronosExtractionResult * list ChronosTimelineEvent) :=
  match first_usable fields (FIELD_MAPPINGS t) with
  | None => mret st
  | Some (matched_field, raw_val) =>
      let '(occurred_at, precision) := parse_chronos_timestamp raw_val in
      let best_claim := dict_get matched_field claims_by_field in
      id ← uuid4; created_at ← utc_now; updated_at ← utc_now;
      '(event, created) ← TimelineRepo.upsert_event
        (mkTimelineEvent id event_id t occurred_at precision (Some (sequence_index t)) (Some raw_val) (f_of_int 1)
           (c_id <$> best_claim) (best_claim ≫= c_raw_snapshot_id) created_at updated_at);
      mret (count_event created (ct_id event) st.1, st.2 ++ [event])
  end.
Fixpoint extract_events (ts : list ChronosTimelineEventType)
    (st : ChronosExtractionResult * list ChronosTimelineEvent) : M (ChronosExtractionResult * list ChronosTimelineEvent) :=
  match ts with
  | [] => mret st
  | t :: ts' => st ← extract_event t st; extract_events ts' st
  end.

Definition by_index (x y : ChronosTimelineEvent) : bool :=
  default 999 (ct_sequence_index x) <=? default 999 (ct_sequence_index y).
(** itertools.pairwise *)
Definition pairwise {A} (l : list A) : list (A * A) := zip l (tail l).

Fixpoint link_events (ps : list (ChronosTimelineEvent * ChronosTimelineEvent)) (r : ChronosExtractionResult)
    : M ChronosExtractionResult :=
  match ps with
  | [] => mret r
  | (pred, succ) :: ps' =>
      id ← uuid4; created_at ← utc_now;
      '(persisted, created) ← LinkRepo.upsert_link
        (mkEventLink id event_id (ct_id pred) (ct_id succ) "ORDERED_BEFORE" (f_of_int 1) None None created_at);
      link_events ps' (count_link created (cl_id persisted) r)
  end.

Definition out_of_order (p : ChronosTimelineEvent * ChronosTimelineEvent) : bool :=
  match ct_occurred_at p.1, ct_occurred_at p.2 with Some a, Some b => b <? a | _, _ => false end.
Definition review_events (ps : list (ChronosTimelineEvent * ChronosTimelineEvent)) : M unit :=
  for_each ps (λ p,
    if out_of_order p then
      id ← uuid4; created_at ← utc_now;
      SequenceReviewRepo.add (mkSequenceReview id event_id (ct_id p.1) (ct_id p.2)
        "Timestamp order conflicts with default event sequence." SEQ_PENDING created_at None None None)
    else mret tt).
End extraction.

Definition execute (event_id : UUID) : M ChronosExtractionResult :=
  let result := mkExtraction event_id 0 0 0 [] [] in
  projection ← ProjectionRepo.get event_id;
  match projection with
  | None => mret result
  | Some p =>
      let fields := pj_fields p in
      claims_by_field ← select_projected_claims_by_field event_id fields;
      '(result, timeline_events) ← extract_events event_id fields claims_by_field SEQUENCE_ORDER (result, []);
      let ordered := py_sorted by_index timeline_events in
      result ← link_events event_id (pairwise ordered) result;
      review_events event_id (pairwise ordered);;
      commit;;
      mret result
  end.
End ExtractChronosTimeline.
