(* ===== verification/ChronosFacts.v ===== *)
(** What holds of Chronos: the complete effect of a timeline extraction. *)
From Stdlib Require Import Ascii.
From S2P Require Import Prelude Text PyFloat PyVal PyDate Entities ContextEntities Store Json.
From S2P Require Import Logic Keyset Conflicts Projection Reproject Wp Provenance Extraction HermesContent Chronos.
Import ExtractChronosTimeline.
Open Scope string_scope.
Open Scope list_scope.
Open Scope Z_scope.

(** ** Well-formed timelines *)
Definition event_key (e : ChronosTimelineEvent) : option (UUID * ChronosTimelineEventType * option string) := Some (TimelineRepo.key e).
Definition link_key (l : ChronosEventLink) : option (UUID * UUID * UUID * string) := Some (LinkRepo.key l).
(** uq_chronos_sequence_reviews_pending_pair *)
Definition review_key (r : ChronosSequenceReview) : option (UUID * UUID) :=
  if decide (cq_status r = SEQ_PENDING) then Some (SequenceReviewRepo.pair r) else None.

Record chronos_ok (db : DB) (uid : N) : Prop := {
  co_events : table_ok ct_id event_key (timeline db);
  co_links : table_ok cl_id link_key (links db);
  co_reviews : table_ok cq_id review_key (reviews db);
  (** Only the extraction writes timeline events. *)
  co_index k e : timeline db !! k = Some e → ct_sequence_index e = Some (sequence_index (ct_event_type e));
  co_fresh_events : below uid (timeline db);
  co_fresh_links : below uid (links db);
  co_fresh_reviews : below uid (reviews db);
}.
Definition same_but_chronos (db db' : DB) : Prop := ∃ t, db' = upd_chronos (λ _, t) db.
Lemma same_but_chronos_refl db : same_but_chronos db db.
Proof. exists (db_chronos db). by destruct db. Qed.
Lemma same_but_chronos_trans db1 db2 db3 : same_but_chronos db1 db2 → same_but_chronos db2 db3 → same_but_chronos db1 db3.
Proof. intros [t ->] [t' ->]. by exists t'. Qed.

Lemma chronos_ok_mono db uid uid' : (uid ≤ uid')%N → chronos_ok db uid → chronos_ok db uid'.
Proof. intros Hle []. split; try done; by eapply below_mono. Qed.

Ltac tables := change (timeline (set_timeline ?m _)) with m; change (links (set_links ?m _)) with m;
  change (reviews (set_reviews ?m _)) with m; change (timeline (set_links _ ?d)) with (timeline d);
  change (timeline (set_reviews _ ?d)) with (timeline d); change (links (set_reviews _ ?d)) with (links d);
  change (links (set_timeline _ ?d)) with (links d); change (reviews (set_timeline _ ?d)) with (reviews d);
  change (reviews (set_links _ ?d)) with (reviews d).

(** ** What an extraction plans: one event per type with a usable field *)
Definition plan_of (fields : list (string * pyval)) (t : ChronosTimelineEventType)
    : option (ChronosTimelineEventType * string * string) :=
  (λ fr, (t, fr.1, fr.2)) <$> first_usable fields (FIELD_MAPPINGS t).
Definition plan (fields : list (string * pyval)) : list (ChronosTimelineEventType * string * string) :=
  omap (plan_of fields) SEQUENCE_ORDER.

Section extraction.
#[local] Set Default Proof Using "Type*".
Context (event_id : UUID) (fields : list (string * pyval)) (claims_by_field : list (string * Claim)).

Definition plan_key (x : ChronosTimelineEventType * string * string) : UUID * ChronosTimelineEventType * option string :=
  (event_id, x.1.1, Some x.2).
(** The row of a planned event: the parsed text, and the claim that supports the field. *)
Definition event_row (x : ChronosTimelineEventType * string * string) (e : ChronosTimelineEvent) : Prop :=
  ∃ id now, let claim := dict_get x.1.2 claims_by_field in
  e = mkTimelineEvent id event_id x.1.1 (parse_chronos_timestamp x.2).1 (parse_chronos_timestamp x.2).2
        (Some (sequence_index x.1.1)) (Some x.2) (f_of_int 1) (c_id <$> claim) (claim ≫= c_raw_snapshot_id) now (now + 1).
Definition stored (db : DB) (x : ChronosTimelineEventType * string * string) (e : ChronosTimelineEvent) : Prop :=
  timeline db !! ct_id e = Some e ∧ TimelineRepo.key e = plan_key x.

(** What the database must accept: instants of the years 1 to 9999, and references that exist. *)
Definition acceptable (db : DB) (x : ChronosTimelineEventType * string * string) : Prop :=
  (∀ e, event_row x e → TimelineRepo.storable e = true)
  ∧ ∀ c, dict_get x.1.2 claims_by_field = Some c →
      is_Some (db_claims db !! c_id c) ∧ known (c_raw_snapshot_id c) (db_snapshots db) = true.

Definition counted (r : ChronosExtractionResult) (created : Z) (reused : Z) (r' : ChronosExtractionResult) : Prop :=
  cx_timeline_events_created_count r' = cx_timeline_events_created_count r + created
  ∧ cx_timeline_events_reused_count r' = cx_timeline_events_reused_count r + reused.

Lemma twp_upsert_event x e (Q : ChronosTimelineEvent * bool → DB → DB → Z → N → Prop) db com now uid :
  chronos_ok db uid → is_Some (db_events db !! event_id) → acceptable db x → event_row x e → ct_id e = uid →
  (∀ e' created db', chronos_ok db' (uid + 1) → same_but_chronos db db' → links db' = links db → reviews db' = reviews db →
     added event_key (event_row x) (timeline db) (timeline db') → stored db' x e' →
     Z.of_nat (size (timeline db')) = Z.of_nat (size (timeline db)) + (if created : bool then 1 else 0) →
     Q (e', created) db' com now (uid + 1)%N) →
  twp (TimelineRepo.upsert_event e) Q db com now (uid + 1)%N.
Proof using.
  intros Hok Hev [Hstore Hclaim] Hrow Hid HQ. pose proof (Hstore _ Hrow) as Hst.
  assert (ct_raw_value e = Some x.2 ∧ TimelineRepo.key e = plan_key x) as [Eraw Ekey] by (by destruct Hrow as (? & ? & ->)).
  unfold TimelineRepo.upsert_event. rewrite Eraw. unfold TimelineRepo.insert, TimelineRepo.with_key. rewrite Ekey.
  destruct (rows_of_key ct_id event_key (λ e, TimelineRepo.key e = plan_key x) (plan_key x) (timeline db))
    as [[E Hno]|(old & E & Hold & Hk)]; [apply Hok|intros y; unfold event_key; split; congruence| |]; apply twp_bind.
  - pose proof (below_None _ _ (co_fresh_events _ _ Hok)) as Hn. rewrite <- Hid in Hn.
    eapply twp_stmt.
    { rewrite Hst, E, Hn. cbn [negb].
      assert (ct_accident_event_id e = event_id) as -> by (by destruct Hrow as (? & ? & ->)). destruct Hev as [ev ->].
      assert (known (ct_source_claim_id e) (db_claims db) = true) as ->.
      { destruct Hrow as (? & ? & ->). cbn [ct_source_claim_id]. destruct (dict_get x.1.2 claims_by_field) as [c|] eqn:Ec; [|done].
        by apply bool_decide_true, Hclaim. }
      assert (known (ct_raw_snapshot_id e) (db_snapshots db) = true) as ->.
      { destruct Hrow as (? & ? & ->). cbn [ct_raw_snapshot_id]. apply known_claim. intros c Ec. by apply Hclaim. }
      cbn [andb]. reflexivity. }
    destruct (row_added ct_id event_key (event_row x) (timeline db) e) as (Htab & Hadd & Hsize);
      [apply Hok|done|intros c; unfold event_key; rewrite Ekey; by intros [= <-]|done|].
    twp_go. apply HQ; tables; try done.
    + destruct Hok as [H1 H2 H3 H4 H5 H6 H7]. split; tables; try done; try (eapply below_mono; [|done]; lia).
      * intros k y [[<- <-]|[_ Hy]]%lookup_insert_Some; [by destruct Hrow as (? & ? & ->)|by eapply H4].
      * rewrite Hid. by apply below_insert.
    + by eexists.
    + split; [|done]. tables. apply lookup_insert_eq.
    + rewrite Hsize. lia.
  - unfold event_key in Hk. apply (inj Some) in Hk. eapply twp_stmt; [rewrite Hst, E; reflexivity|]. twp_go. unfold TimelineRepo.find_existing.
    eapply twp_scalar.
    { assert ((ct_accident_event_id e, ct_event_type e, Some x.2) = plan_key x) as -> by (by rewrite <- Eraw).
      unfold TimelineRepo.with_key. rewrite E. reflexivity. }
    twp_go. apply HQ; try done.
    + eapply chronos_ok_mono; [|done]. lia.
    + apply same_but_chronos_refl.
    + apply added_refl.
    + lia.
Qed.

Lemma acceptable_same db db' x : same_but_chronos db db' → acceptable db x → acceptable db' x.
Proof using. by intros [t ->]. Qed.

Lemma twp_extract_event t r acc (Q : ChronosExtractionResult * list ChronosTimelineEvent → DB → DB → Z → N → Prop) db com now uid :
  chronos_ok db uid → is_Some (db_events db !! event_id) →
  match plan_of fields t with
  | None => Q (r, acc) db com now uid
  | Some x => acceptable db x ∧ ∀ e created db' now', chronos_ok db' (uid + 1) → same_but_chronos db db' →
      links db' = links db → reviews db' = reviews db → added event_key (event_row x) (timeline db) (timeline db') →
      stored db' x e → Z.of_nat (size (timeline db')) = Z.of_nat (size (timeline db)) + (if created : bool then 1 else 0) →
      Q (count_event created (ct_id e) r, acc ++ [e]) db' com now' (uid + 1)%N
  end →
  twp (extract_event event_id fields claims_by_field t (r, acc)) Q db com now uid.
Proof using.
  intros Hok Hev HQ. unfold extract_event. unfold plan_of in HQ.
  destruct (first_usable fields (FIELD_MAPPINGS t)) as [[f raw]|]; [|by apply twp_ret].
  cbn [fmap option_fmap option_map fst snd] in HQ. destruct HQ as [Hacc HQ].
  destruct (parse_chronos_timestamp raw) as [occurred_at precision] eqn:Ep.
  do 7 twp_step. eapply (twp_upsert_event (t, f, raw)); [done|done|done| |reflexivity|].
  - exists uid, now. cbn [fst snd]. by rewrite Ep.
  - intros e' created db' Hok' Hsame Hl Hr Hadd Hst Hsize. twp_go. by apply HQ.
Qed.

(** What the extraction of the planned events [xs] leaves, and the events [es] of them. *)
Record extracted (xs : list (ChronosTimelineEventType * string * string)) (r : ChronosExtractionResult) (db : DB)
    (r' : ChronosExtractionResult) (es : list ChronosTimelineEvent) (db' : DB) : Prop := {
  ex_same : same_but_chronos db db';
  ex_links : links db' = links db;
  ex_reviews : reviews db' = reviews db;
  ex_added : added event_key (λ e, ∃ x, x ∈ xs ∧ event_row x e) (timeline db) (timeline db');
  ex_stored : Forall2 (stored db') xs es;
  ex_created : cx_timeline_events_created_count r' - cx_timeline_events_created_count r
    = Z.of_nat (size (timeline db')) - Z.of_nat (size (timeline db));
  ex_all : cx_timeline_events_created_count r' + cx_timeline_events_reused_count r'
    = cx_timeline_events_created_count r + cx_timeline_events_reused_count r + Z.of_nat (length xs);
  ex_links_count : cx_event_links_created_count r' = cx_event_links_created_count r;
}.

Lemma stored_later db db' x e new : added event_key new (timeline db) (timeline db') → stored db x e → stored db' x e.
Proof using. intros [Hm _] [He Hk]. split; [by eapply lookup_weaken|done]. Qed.

Lemma twp_extract_events ts : ∀ r acc (Q : ChronosExtractionResult * list ChronosTimelineEvent → DB → DB → Z → N → Prop) db com now uid,
  chronos_ok db uid → is_Some (db_events db !! event_id) → Forall (acceptable db) (omap (plan_of fields) ts) →
  (∀ r' es db' now' uid', chronos_ok db' uid' → extracted (omap (plan_of fields) ts) r db r' es db' →
     Q (r', acc ++ es) db' com now' uid') →
  twp (extract_events event_id fields claims_by_field ts (r, acc)) Q db com now uid.
Proof using.
  induction ts as [|t ts IH]; intros r acc Q db com now uid Hok Hev Hacc HQ.
  - cbn [extract_events]. apply twp_ret. rewrite <- (app_nil_r acc). eapply HQ; [done|].
    split; try done; [apply same_but_chronos_refl|apply added_refl| |]; cbn [omap list_omap length]; lia.
  - cbn [extract_events]. apply twp_bind, twp_extract_event; [done|done|].
    change (omap (plan_of fields) (t :: ts)) with
      (match plan_of fields t with Some y => y :: omap (plan_of fields) ts | None => omap (plan_of fields) ts end) in *.
    destruct (plan_of fields t) as [x|]; [|by apply IH].
    apply Forall_cons in Hacc as [Hx Hacc]. split; [done|].
    intros e created db1 now1 Hok1 Hsame1 El1 Er1 Hadd1 Hst1 Hsize1.
    apply IH; [done|by destruct Hsame1 as [? ->]|by eapply Forall_impl; [|intros; eapply acceptable_same]|].
    intros r2 es db2 now2 uid2 Hok2 [Hs2 Hl2 Hr2 Ha2 Hst2 Hc2 Hall2 Hlc2].
    rewrite <- app_assoc. apply HQ; [done|].
    cbn [count_event cx_timeline_events_created_count cx_timeline_events_reused_count cx_event_links_created_count] in *.
    split; try congruence.
    + by eapply same_but_chronos_trans.
    + eapply added_trans; eapply added_mono; [|exact Hadd1| |exact Ha2].
      * intros y Hy. exists x. split; [by left|done].
      * intros y (z & Hz & Hy). exists z. split; [by right|done].
    + constructor; [by eapply stored_later|done].
    + destruct created; lia.
    + cbn [length]. destruct created; lia.
Qed.

(** *** Links *)
Abbreviation pair_of_events := (ChronosTimelineEvent * ChronosTimelineEvent)%type.
Definition link_row (p : pair_of_events) (l : ChronosEventLink) : Prop :=
  ∃ id now, l = mkEventLink id event_id (ct_id p.1) (ct_id p.2) "ORDERED_BEFORE" (f_of_int 1) None None now.
Definition pair_key (p : pair_of_events) : UUID * UUID * UUID * string :=
  (event_id, ct_id p.1, ct_id p.2, "ORDERED_BEFORE").
(** Two different stored events. *)
Definition linkable (db : DB) (p : pair_of_events) : Prop :=
  is_Some (timeline db !! ct_id p.1) ∧ is_Some (timeline db !! ct_id p.2) ∧ ct_id p.1 ≠ ct_id p.2.

Lemma twp_upsert_link p l (Q : ChronosEventLink * bool → DB → DB → Z → N → Prop) db com now uid :
  chronos_ok db uid → is_Some (db_events db !! event_id) → linkable db p → link_row p l → cl_id l = uid →
  (∀ l' created db', chronos_ok db' (uid + 1) → same_but_chronos db db' → timeline db' = timeline db → reviews db' = reviews db →
     added link_key (link_row p) (links db) (links db') → has_key link_key (pair_key p) (links db') →
     Z.of_nat (size (links db')) = Z.of_nat (size (links db)) + (if created : bool then 1 else 0) →
     Q (l', created) db' com now (uid + 1)%N) →
  twp (LinkRepo.upsert_link l) Q db com now (uid + 1)%N.
Proof using.
  intros Hok Hev (Hp1 & Hp2 & Hne) Hrow Hid HQ.
  assert (LinkRepo.key l = pair_key p ∧ cl_predecessor_event_id l = ct_id p.1 ∧ cl_successor_event_id l = ct_id p.2
    ∧ cl_accident_event_id l = event_id) as (Ekey & E1 & E2 & E3) by (by destruct Hrow as (? & ? & ->)).
  unfold LinkRepo.upsert_link, LinkRepo.insert, LinkRepo.with_key. rewrite Ekey, E1, E2, E3.
  destruct (rows_of_key cl_id link_key (λ l, LinkRepo.key l = pair_key p) (pair_key p) (links db))
    as [[E Hno]|(old & E & Hold & Hk)]; [apply Hok|intros y; unfold link_key; split; congruence| |]; apply twp_bind.
  - pose proof (below_None _ _ (co_fresh_links _ _ Hok)) as Hn. rewrite <- Hid in Hn.
    eapply twp_stmt.
    { rewrite (bool_decide_false (ct_id p.1 = ct_id p.2)) by done. rewrite E, Hn. unfold known. cbn [from_option].
      rewrite !bool_decide_true by done. cbn [andb]. reflexivity. }
    destruct (row_added cl_id link_key (link_row p) (links db) l) as (Htab & Hadd & Hsize);
      [apply Hok|done|intros c; unfold link_key; rewrite Ekey; by intros [= <-]|done|].
    twp_go. apply HQ; tables; try done.
    + destruct Hok as [H1 H2 H3 H4 H5 H6 H7]. split; tables; try done; try (eapply below_mono; [|done]; lia).
      rewrite Hid. by apply below_insert.
    + by eexists.
    + exists (cl_id l), l. rewrite lookup_insert_eq. unfold link_key. by rewrite Ekey.
    + rewrite Hsize. lia.
  - eapply twp_stmt.
    { rewrite (bool_decide_false (ct_id p.1 = ct_id p.2)) by done. rewrite E. reflexivity. }
    twp_go. eapply twp_scalar; [by rewrite E|].
    twp_go. apply HQ; try done.
    + eapply chronos_ok_mono; [|done]. lia.
    + apply same_but_chronos_refl.
    + apply added_refl.
    + by exists (cl_id old), old.
    + lia.
Qed.

Lemma linkable_same db db' p : timeline db' = timeline db → linkable db p → linkable db' p.
Proof using. unfold linkable. by intros ->. Qed.

(** What the links of [ps] leave. *)
Record linked (ps : list pair_of_events) (r : ChronosExtractionResult) (db : DB) (r' : ChronosExtractionResult) (db' : DB) : Prop := {
  lk_same : same_but_chronos db db';
  lk_events : timeline db' = timeline db;
  lk_reviews : reviews db' = reviews db;
  lk_added : added link_key (λ l, ∃ p, p ∈ ps ∧ link_row p l) (links db) (links db');
  lk_present p : p ∈ ps → has_key link_key (pair_key p) (links db');
  lk_count : cx_event_links_created_count r' - cx_event_links_created_count r
    = Z.of_nat (size (links db')) - Z.of_nat (size (links db));
  lk_created : cx_timeline_events_created_count r' = cx_timeline_events_created_count r;
  lk_reused : cx_timeline_events_reused_count r' = cx_timeline_events_reused_count r;
}.

Lemma twp_link_events ps : ∀ r (Q : ChronosExtractionResult → DB → DB → Z → N → Prop) db com now uid,
  chronos_ok db uid → is_Some (db_events db !! event_id) → Forall (linkable db) ps →
  (∀ r' db' now' uid', chronos_ok db' uid' → linked ps r db r' db' → Q r' db' com now' uid') →
  twp (link_events event_id ps r) Q db com now uid.
Proof using.
  induction ps as [|[a b] ps IH]; intros r Q db com now uid Hok Hev Hps HQ; cbn [link_events].
  - apply twp_ret. eapply HQ; [done|].
    split; try done; [apply same_but_chronos_refl|apply added_refl|by intros p ?%elem_of_nil|lia].
  - apply Forall_cons in Hps as [Hp Hps]. do 5 twp_step.
    eapply (twp_upsert_link (a, b)); [done|done|done|by exists uid, now|reflexivity|].
    intros l created db1 Hok1 Hs1 Et1 Er1 Ha1 Hk1 Hsize1. cbn beta iota.
    apply IH; [done|by destruct Hs1 as [? ->]|by eapply Forall_impl; [|intros; eapply linkable_same]|].
    intros r2 db2 now2 uid2 Hok2 [Hs2 Et2 Er2 Ha2 Hk2 Hc2 Hcc2 Hcr2]. apply HQ; [done|].
    cbn [count_link cx_timeline_events_created_count cx_timeline_events_reused_count cx_event_links_created_count] in *.
    split; try congruence.
    + by eapply same_but_chronos_trans.
    + eapply added_trans; eapply added_mono; [|exact Ha1| |exact Ha2].
      * intros y Hy. exists (a, b). split; [by left|done].
      * intros y (z & Hz & Hy). exists z. split; [by right|done].
    + intros p [ ->|Hin]%elem_of_cons; [|by apply Hk2]. destruct Ha2 as [Hm _]. by eapply has_key_mono.
    + destruct created; lia.
Qed.

(** *** Reviews of the order *)
Definition review_row (p : pair_of_events) (r : ChronosSequenceReview) : Prop :=
  ∃ id now, r = mkSequenceReview id event_id (ct_id p.1) (ct_id p.2)
    "Timestamp order conflicts with default event sequence." SEQ_PENDING now None None None.
Definition ids_of (p : pair_of_events) : UUID * UUID := (N.min (ct_id p.1) (ct_id p.2), N.max (ct_id p.1) (ct_id p.2)).

Lemma twp_add_review p r (Q : unit → DB → DB → Z → N → Prop) db com now uid :
  chronos_ok db uid → is_Some (db_events db !! event_id) → linkable db p → review_row p r → cq_id r = uid →
  (∀ db', chronos_ok db' (uid + 1) → same_but_chronos db db' → timeline db' = timeline db → links db' = links db →
     added review_key (review_row p) (reviews db) (reviews db') → has_key review_key (ids_of p) (reviews db') →
     Q tt db' com now (uid + 1)%N) →
  twp (SequenceReviewRepo.add r) Q db com now (uid + 1)%N.
Proof using.
  intros Hok Hev (Hp1 & Hp2 & Hne) Hrow Hid HQ.
  assert (SequenceReviewRepo.pair r = ids_of p ∧ cq_timeline_event_id_a r = ct_id p.1 ∧ cq_timeline_event_id_b r = ct_id p.2
    ∧ cq_accident_event_id r = event_id ∧ cq_status r = SEQ_PENDING) as (Ekey & E1 & E2 & E3 & E4) by (by destruct Hrow as (? & ? & ->)).
  assert (review_key r = Some (ids_of p)) as Erk by (unfold review_key; by rewrite E4, Ekey).
  unfold SequenceReviewRepo.add, SequenceReviewRepo.pending_pair. rewrite Ekey, E1, E2, E3, E4.
  rewrite (bool_decide_false (ct_id p.1 = ct_id p.2)) by done. rewrite (bool_decide_true (SEQ_PENDING = SEQ_PENDING)) by done.
  destruct (rows_of_key cq_id review_key (λ r, cq_status r = SEQ_PENDING ∧ SequenceReviewRepo.pair r = ids_of p) (ids_of p) (reviews db))
    as [[E Hno]|(old & E & Hold & Hk)].
  - apply Hok.
  - intros y. unfold review_key. case_decide; split; [by intros [_ ->]|by intros Hp%(inj Some)|by intros [? _]|done].
  - pose proof (below_None _ _ (co_fresh_reviews _ _ Hok)) as Hn. rewrite <- Hid in Hn.
    eapply twp_stmt.
    { rewrite E, (bool_decide_true ([] = [])), Hn by done. unfold known. cbn [from_option].
      rewrite !bool_decide_true by done. cbn [andb negb]. reflexivity. }
    destruct (row_added cq_id review_key (review_row p) (reviews db) r) as (Htab & Hadd & Hsize);
      [apply Hok|done|intros c; rewrite Erk; by intros [= <-]|done|].
    apply HQ; tables; try done.
    + destruct Hok as [H1 H2 H3 H4 H5 H6 H7]. split; tables; try done; try (eapply below_mono; [|done]; lia).
      rewrite Hid. by apply below_insert.
    + by eexists.
    + exists (cq_id r), r. by rewrite lookup_insert_eq.
  - eapply twp_stmt; [by rewrite E, (bool_decide_false ([old] = []))|].
    apply HQ; try done.
    + eapply chronos_ok_mono; [|done]. lia.
    + apply same_but_chronos_refl.
    + apply added_refl.
    + by exists (cq_id old), old.
Qed.

Record reviewed (ps : list pair_of_events) (db db' : DB) : Prop := {
  rv_same : same_but_chronos db db';
  rv_events : timeline db' = timeline db;
  rv_links : links db' = links db;
  rv_added : added review_key (λ r, ∃ p, p ∈ ps ∧ out_of_order p = true ∧ review_row p r) (reviews db) (reviews db');
  rv_present p : p ∈ ps → out_of_order p = true → has_key review_key (ids_of p) (reviews db');
}.

Lemma twp_review_events ps : ∀ (Q : unit → DB → DB → Z → N → Prop) db com now uid,
  chronos_ok db uid → is_Some (db_events db !! event_id) → Forall (linkable db) ps →
  (∀ db' now' uid', chronos_ok db' uid' → reviewed ps db db' → Q tt db' com now' uid') →
  twp (review_events event_id ps) Q db com now uid.
Proof using.
  unfold review_events. induction ps as [|p ps IH]; intros Q db com now uid Hok Hev Hps HQ; cbn [for_each].
  - apply twp_ret. eapply HQ; [done|].
    split; try done; [apply same_but_chronos_refl|apply added_refl|by intros p ?%elem_of_nil].
  - apply Forall_cons in Hps as [Hp Hps]. apply twp_bind. destruct (out_of_order p) eqn:Eo.
    + do 4 twp_step. eapply (twp_add_review p); [done|done|done|by exists uid, now|reflexivity|].
      intros db1 Hok1 Hs1 Et1 El1 Ha1 Hk1.
      apply IH; [done|by destruct Hs1 as [? ->]|by eapply Forall_impl; [|intros; eapply linkable_same]|].
      intros db2 now2 uid2 Hok2 [Hs2 Et2 El2 Ha2 Hk2]. apply HQ; [done|]. split; try congruence.
      * by eapply same_but_chronos_trans.
      * eapply added_trans; eapply added_mono; [|exact Ha1| |exact Ha2].
        -- intros y Hy. exists p. split_and!; [by left|done|done].
        -- intros y (z & Hz & Hy). exists z. split; [by right|done].
      * intros q [ ->|Hin]%elem_of_cons Hq; [|by apply Hk2]. destruct Ha2 as [Hm _]. by eapply has_key_mono.
    + apply twp_ret. apply IH; [done|done|done|]. intros db2 now2 uid2 Hok2 [Hs2 Et2 El2 Ha2 Hk2].
      apply HQ; [done|]. split; try done.
      * eapply added_mono; [|exact Ha2]. intros y (z & Hz & Hy). exists z. split; [by right|done].
      * intros q [ ->|Hin]%elem_of_cons Hq; [congruence|by apply Hk2].
Qed.
End extraction.

(** ** The order of the planned events *)
Lemma by_index_total x y : by_index x y = true ∨ by_index y x = true.
Proof. unfold by_index. lia. Qed.
Lemma by_index_trans x y z : by_index x y = true → by_index y z = true → by_index x z = true.
Proof. unfold by_index. lia. Qed.

(** The types of a plan are in sequence, and none comes twice. *)
Lemma plan_in_sequence fields ts :
  StronglySorted (λ s t, (sequence_index s <? sequence_index t) = true) ts →
  StronglySorted (λ x y, (sequence_index x.1.1 <? sequence_index y.1.1) = true) (omap (plan_of fields) ts).
Proof.
  assert (∀ t x, plan_of fields t = Some x → x.1.1 = t) as Ht.
  { intros t x. unfold plan_of. destruct (first_usable _ _) as [[f raw]|]; [|done]. by intros [= <-]. }
  induction 1 as [|t ts Hs IH Hall]; [constructor|].
  change (omap (plan_of fields) (t :: ts)) with
    (match plan_of fields t with Some y => y :: omap (plan_of fields) ts | None => omap (plan_of fields) ts end).
  destruct (plan_of fields t) as [x|] eqn:Ex; [|done]. constructor; [done|].
  apply Forall_forall. intros y (u & Hu & Ey)%list_elem_of_omap.
  rewrite (Ht _ _ Ex), (Ht _ _ Ey). by apply (proj1 (Forall_forall _ _) Hall).
Qed.
Lemma plan_sorted fields : StronglySorted (λ x y, (sequence_index x.1.1 <? sequence_index y.1.1) = true) (plan fields).
Proof. apply plan_in_sequence. repeat constructor. Qed.

Lemma stored_events_sorted event_id db uid xs es : chronos_ok db uid → Forall2 (stored event_id db) xs es →
  StronglySorted (λ x y, (sequence_index x.1.1 <? sequence_index y.1.1) = true) xs →
  StronglySorted (λ d e, by_index d e = true ∧ ct_id d ≠ ct_id e) es.
Proof.
  intros Hok. induction 1 as [|x e xs es [He Ek] Hst IH]; intros Hs; [constructor|].
  apply StronglySorted_inv in Hs as [Hs Hall]. constructor; [by apply IH|].
  apply Forall_forall. intros d Hd. apply list_elem_of_lookup in Hd as [i Hd].
  destruct (Forall2_lookup_r _ _ _ _ _ Hst Hd) as (y & Hy & Hed & Ekd).
  assert ((sequence_index x.1.1 <? sequence_index y.1.1) = true) as Hlt.
  { eapply (proj1 (Forall_forall _ _)) in Hall; [exact Hall|]. by eapply list_elem_of_lookup_2. }
  injection Ek as _ Et _. injection Ekd as _ Etd _.
  pose proof (co_index _ _ Hok _ _ He) as Ei. pose proof (co_index _ _ Hok _ _ Hed) as Eid. split.
  - unfold by_index. rewrite Ei, Eid, Et, Etd. cbn [default from_option id]. lia.
  - intros E. rewrite E, Hed in He. injection He as ->. rewrite Et in Etd. rewrite Etd in Hlt. lia.
Qed.

Lemma pairwise_linkable event_id db xs es : Forall2 (stored event_id db) xs es →
  StronglySorted (λ d e, by_index d e = true ∧ ct_id d ≠ ct_id e) es → Forall (linkable db) (pairwise es).
Proof.
  intros Hst Hs. assert (Forall (λ e, timeline db !! ct_id e = Some e) es) as Hin.
  { clear Hs. induction Hst as [|x e xs es [He _] _ IH]; constructor; done. }
  clear Hst. unfold pairwise. induction es as [|e es IH]; [constructor|]. apply StronglySorted_inv in Hs as [Hs Hall].
  apply Forall_cons in Hin as [He Hin]. destruct es as [|d es]; [constructor|].
  apply Forall_cons in Hall as [[_ Hne] _]. pose proof Hin as Hin'. apply Forall_cons in Hin' as [Hd _].
  constructor; [|by apply IH]. split_and!; [by eexists|by eexists|done].
Qed.

Lemma sorted_mono {A} (R S : A → A → Prop) l : (∀ x y, R x y → S x y) → StronglySorted R l → StronglySorted S l.
Proof. intros HRS. induction 1 as [|x l _ IH Hall]; constructor; [done|]. eapply Forall_impl; [exact Hall|]. apply HRS. Qed.

(** ** The whole extraction *)

(** The instants the plan gives are of the years 1 to 9999. *)
Definition plan_storable (event_id : UUID) (fields : list (string * pyval)) (db : DB) : Prop :=
  ∀ x e, x ∈ plan fields → event_row event_id (supports event_id fields db) x e → TimelineRepo.storable e = true.

Lemma plan_acceptable event_id fields db : claims_referenced db → plan_storable event_id fields db →
  Forall (acceptable event_id (supports event_id fields db) db) (plan fields).
Proof.
  intros Hc Hs. apply Forall_forall. intros x Hx. split; [intros e; by apply Hs|]. intros c Ec.
  by apply (supports_known event_id fields) in Ec as (? & ? & _).
Qed.

(** The instants of two events contradict their order. *)
Definition contradicts (p : ChronosTimelineEvent * ChronosTimelineEvent) : Prop :=
  ∃ a b, ct_occurred_at p.1 = Some a ∧ ct_occurred_at p.2 = Some b ∧ b < a.
Lemma out_of_order_spec p : out_of_order p = true ↔ contradicts p.
Proof.
  unfold out_of_order, contradicts. destruct (ct_occurred_at p.1) as [a|], (ct_occurred_at p.2) as [b|];
    split; try done; try (intros (? & ? & ? & ? & ?); done).
  - intros H%Z.ltb_lt. by exists a, b.
  - intros (? & ? & [= <-] & [= <-] & H). by apply Z.ltb_lt.
Qed.

(** The effect of one extraction: [es] are the events of the plan as they are stored. *)
Record timeline_extracted (event_id : UUID) (fields : list (string * pyval)) (db : DB)
    (r : ChronosExtractionResult) (es : list ChronosTimelineEvent) (db' : DB) : Prop := {
  te_same : same_but_chronos db db';
  te_events : Forall2 (stored event_id db') (plan fields) es;
  te_events_added : added event_key (λ e, ∃ x, x ∈ plan fields ∧ event_row event_id (supports event_id fields db) x e)
    (timeline db) (timeline db');
  te_links p : p ∈ pairwise es → has_key link_key (pair_key event_id p) (links db');
  te_links_added : added link_key (λ l, ∃ p, p ∈ pairwise es ∧ link_row event_id p l) (links db) (links db');
  te_reviews p : p ∈ pairwise es → contradicts p → has_key review_key (ids_of p) (reviews db');
  te_reviews_added : added review_key (λ r, ∃ p, p ∈ pairwise es ∧ contradicts p ∧ review_row event_id p r)
    (reviews db) (reviews db');
  te_created : cx_timeline_events_created_count r = Z.of_nat (size (timeline db')) - Z.of_nat (size (timeline db));
  te_reused : cx_timeline_events_created_count r + cx_timeline_events_reused_count r = Z.of_nat (length (plan fields));
  te_linked : cx_event_links_created_count r = Z.of_nat (size (links db')) - Z.of_nat (size (links db));
}.

Lemma twp_timeline_execute event_id p db now uid :
  db_projections db !! event_id = Some p → is_Some (db_events db !! event_id) →
  chronos_ok db uid → claims_referenced db → plan_storable event_id (pj_fields p) db →
  twp (execute event_id) (λ r db' com' _ uid', com' = db' ∧ chronos_ok db' uid' ∧
    ∃ es, timeline_extracted event_id (pj_fields p) db r es db') db db now uid.
Proof.
  intros Hp Hev Hok Hc Hs. unfold execute, ProjectionRepo.get. cbv zeta. do 2 twp_step. rewrite Hp.
  set (r0 := mkExtraction event_id 0 0 0 [] []).
  apply twp_bind, twp_supports.
  apply twp_bind, twp_extract_events; [done|done|by apply plan_acceptable|]. fold (plan (pj_fields p)).
  intros r1 es db1 now1 uid1 Hok1 [Hs1 El1 Er1 Ha1 Hst1 Hc1 Hall1 Hlc1]. cbn [app].
  pose proof (stored_events_sorted _ _ _ _ _ Hok1 Hst1 (plan_sorted _)) as Hsorted.
  pose proof (pairwise_linkable _ _ _ _ Hst1 Hsorted) as Hpairs.
  cbv zeta. rewrite (filter_sorted by_index) by
    (first [exact by_index_total|exact by_index_trans|eapply sorted_mono; [|exact Hsorted]; by intros ? ? [? _]]).
  apply twp_bind, twp_link_events; [done|by destruct Hs1 as [? ->]|done|].
  intros r2 db2 now2 uid2 Hok2 [Hs2 Et2 Er2 Ha2 Hk2 Hc2 Hcc2 Hcr2].
  apply twp_bind, twp_review_events; [done|by destruct Hs1 as [? ->], Hs2 as [? ->]|
    by eapply Forall_impl; [|intros; eapply linkable_same]|].
  intros db3 now3 uid3 Hok3 [Hs3 Et3 El3 Ha3 Hk3]. twp_go. split; [done|]. split; [done|]. exists es.
  change (cx_timeline_events_created_count r0) with 0 in *. change (cx_timeline_events_reused_count r0) with 0 in *.
  change (cx_event_links_created_count r0) with 0 in *.
  rewrite Er1 in Er2. rewrite Er2 in Ha3. rewrite El1 in Ha2, Hc2. rewrite <- El3 in Ha2, Hk2, Hc2.
  assert (timeline db3 = timeline db1) as Et by congruence. split; try done; rewrite ?Et; try done; try lia.
  - by eapply same_but_chronos_trans; [eapply same_but_chronos_trans|].
  - eapply Forall2_impl; [exact Hst1|]. unfold stored. by rewrite Et.
  - intros q Hq Hcon%out_of_order_spec. by apply Hk3.
  - eapply added_mono; [|exact Ha3]. intros y (q & Hq & Hcon%out_of_order_spec & Hy). by exists q.
Qed.

(** C38: an extraction, run alone over well-formed tables, returns and commits; it changes
    the timeline tables alone.  Of every type with a usable field the event stored for its
    text is the one that was there, unchanged, or one new row with the parsed instant and
    precision, the position of its type and the claim that supports the field; consecutive
    events are linked in the order of their types, a link that was there staying as it is;
    every consecutive pair whose instants contradict that order has a pending review, and a
    new review is raised only where none was pending.  No other row is added and none is
    removed, and the counters count the rows. *)
Theorem timeline_extraction_effect event_id p db now uid :
  db_projections db !! event_id = Some p → is_Some (db_events db !! event_id) →
  chronos_ok db uid → claims_referenced db → plan_storable event_id (pj_fields p) db →
  ∃ r es db' now' uid', execute event_id (session db db now uid) = (Ok r, session db' db' now' uid')
    ∧ chronos_ok db' uid' ∧ timeline_extracted event_id (pj_fields p) db r es db'.
Proof.
  intros Hp Hev Hok Hc Hs. destruct (twp_timeline_execute event_id p db now uid Hp Hev Hok Hc Hs)
    as (r & db' & com' & now' & uid' & E & -> & Hok' & es & H). by exists r, es, db', now', uid'.
Qed.

Lemma chronos_tables_eq db db' : same_but_chronos db db' → timeline db' = timeline db → links db' = links db →
  reviews db' = reviews db → db' = db.
Proof.
  intros [t ->]. unfold timeline, links, reviews. change (db_chronos (upd_chronos (λ _, t) db)) with t.
  intros Et El Er. destruct t as [t1 t2 t3], db as [? ? ? ? ? ? ? ? ? ? ? ? ? ? ? ? ? ? ? ? [] ?]. simpl in *. by subst.
Qed.

Section again.
Context (event_id : UUID) (fields : list (string * pyval)).

Lemma stored_unique db uid xs es es' : chronos_ok db uid →
  Forall2 (stored event_id db) xs es → Forall2 (stored event_id db) xs es' → es = es'.
Proof.
  intros Hok H. revert es'. induction H as [|x e xs es [He Ek] _ IH]; intros es' H'.
  - by apply Forall2_nil_inv_l in H'.
  - apply Forall2_cons_inv_l in H' as (e' & es2 & [He' Ek'] & H' & ->). f_equal; [|by apply IH].
    assert (ct_id e = ct_id e') as E.
    { apply (tk_unique _ _ _ (co_events _ _ Hok) _ _ e e' (plan_key event_id x)); [exact He|exact He'| |]; unfold event_key; by f_equal. }
    rewrite E, He' in He. by injection He.
Qed.

(** A second extraction from what the first one left adds nothing. *)
Lemma extracted_again db r es db1 uid1 r2 es2 db2 uid2 : chronos_ok db1 uid1 → chronos_ok db2 uid2 →
  timeline_extracted event_id fields db r es db1 → timeline_extracted event_id fields db1 r2 es2 db2 → db2 = db1.
Proof.
  intros Hok1 Hok2 H1 H2. assert (timeline db2 = timeline db1) as Et.
  { eapply added_nothing; [|exact (te_events_added _ _ _ _ _ _ H2)]. intros e (x & Hx & id & now & ->).
    exists (plan_key event_id x). split; [done|].
    apply list_elem_of_lookup in Hx as [i Hx].
    destruct (Forall2_lookup_l _ _ _ _ _ (te_events _ _ _ _ _ _ H1) Hx) as (d & _ & Hd & Ed).
    exists (ct_id d), d. split; [done|]. unfold event_key. by rewrite Ed. }
  assert (es2 = es) as ->.
  { eapply (stored_unique db1); [exact Hok1| |exact (te_events _ _ _ _ _ _ H1)].
    eapply Forall2_impl; [exact (te_events _ _ _ _ _ _ H2)|]. unfold stored. by rewrite Et. }
  apply chronos_tables_eq; [apply H2|done| |].
  - eapply added_nothing; [|exact (te_links_added _ _ _ _ _ _ H2)]. intros l (p & Hp & id & now & ->).
    exists (pair_key event_id p). split; [done|]. by apply H1.
  - eapply added_nothing; [|exact (te_reviews_added _ _ _ _ _ _ H2)]. intros l (p & Hp & Ho & id & now & ->).
    exists (ids_of p). split; [done|]. by apply H1.
Qed.
End again.

(** extraction is idempotent: run again after a first one, alone and with nothing
    changed in between, it returns, commits the very tables it found, and reports no event
    and no link as new. *)
Theorem timeline_extraction_idempotent event_id p db now uid r db1 now1 uid1 :
  db_projections db !! event_id = Some p → is_Some (db_events db !! event_id) →
  chronos_ok db uid → claims_referenced db → plan_storable event_id (pj_fields p) db →
  execute event_id (session db db now uid) = (Ok r, session db1 db1 now1 uid1) →
  ∃ r2 now2 uid2, execute event_id (session db1 db1 now1 uid1) = (Ok r2, session db1 db1 now2 uid2)
    ∧ cx_timeline_events_created_count r2 = 0 ∧ cx_event_links_created_count r2 = 0
    ∧ cx_timeline_events_reused_count r2 = Z.of_nat (length (plan (pj_fields p))).
Proof.
  intros Hp Hev Hok Hc Hs E1.
  destruct (twp_timeline_execute event_id p db now uid Hp Hev Hok Hc Hs) as (r' & d & c & n & u & E & -> & Hok1 & es & H1).
  pose proof (eq_trans (eq_sym E1) E) as E0. unfold session in E0. injection E0 as <- <- _ <- <-. clear E1 E.
  destruct (te_same _ _ _ _ _ _ H1) as [t Et].
  destruct (twp_timeline_execute event_id p db1 now1 uid1) as (r2 & db2 & c2 & n2 & u2 & E & -> & Hok2 & es2 & H2);
    [by rewrite Et|by rewrite Et|done|by rewrite Et|by rewrite Et|].
  pose proof (extracted_again _ _ _ _ _ _ _ _ _ _ _ Hok1 Hok2 H1 H2) as ->.
  exists r2, n2, u2. pose proof (te_created _ _ _ _ _ _ H2). pose proof (te_reused _ _ _ _ _ _ H2).
  pose proof (te_linked _ _ _ _ _ _ H2). split; [exact E|lia].
Qed.

(** ** An accident reported before its take-off *)
Lemma chronos_ok_empty db uid : db_chronos db = no_timelines → chronos_ok db uid.
Proof.
  intros E. split; try split; unfold timeline, links, reviews; rewrite E; try done; intros k [x Hx]; done.
Qed.
Definition sample_projected : ProjectedAccidentRecord :=
  mkProjection 1 3
    [("takeoff_time", PStr "1970-01-01T10:00"); ("crash_time", PStr " 1970-01-01 09:00:30Z "); ("impact", PStr "   ");
     ("final_report_date", PStr "about 1971"); ("operator", PStr "ACME")] f_zero [] 0.
Definition sample_supporting : Claim :=
  mkClaim 21 1 11 (Some 31%N) "crash_time" (PStr "1970-01-01 09:00:30Z") RAW 0 None None.
Definition sample_reported : DB :=
  upd_projections <[1%N := sample_projected]> (upd_events <[1%N := mkEvent 1 0 None]>
    (upd_sources <[11%N := mkSource 11 "Press" EXTERNAL 5 []]> (upd_claims <[21%N := sample_supporting]> (upd_snapshots <[31%N := mkSnapshot 31 11 41 "" [] 0 0 None None None None None]>
      empty_db)))).

Lemma sample_referenced : claims_referenced sample_reported.
Proof.
  intros k c H. change (db_claims sample_reported) with (<[21%N := sample_supporting]> (∅ : gmap UUID Claim)) in H.
  apply lookup_insert_Some in H as [[<- <-]|[_ H]]; [|done]. split_and!; [reflexivity|reflexivity|by eexists].
Qed.
Lemma sample_storable : plan_storable 1 (pj_fields sample_projected) sample_reported.
Proof.
  assert (plan (pj_fields sample_projected) = [(TAKEOFF, "takeoff_time", "1970-01-01T10:00");
    (IMPACT, "crash_time", "1970-01-01 09:00:30Z"); (REPORT_PUBLISHED, "final_report_date", "about 1971")]) as Ep
    by (vm_compute; reflexivity).
  intros x e Hx (id & now & ->). rewrite Ep in Hx. unfold TimelineRepo.storable. cbn [ct_occurred_at].
  repeat (apply elem_of_cons in Hx as [ ->|Hx]; [vm_compute; reflexivity|]). by apply elem_of_nil in Hx.
Qed.

Lemma timeline_extraction_effect_witness : ∃ r es db' now' uid',
  execute 1 (session sample_reported sample_reported 100 50) = (Ok r, session db' db' now' uid')
  ∧ timeline_extracted 1 (pj_fields sample_projected) sample_reported r es db'.
Proof.
  destruct (timeline_extraction_effect 1 sample_projected sample_reported 100 50 eq_refl (ex_intro _ _ eq_refl)
    (chronos_ok_empty sample_reported 50 eq_refl) sample_referenced sample_storable) as (r & es & db' & n & u & E & _ & H).
  exists r, es, db', n, u. exact (conj E H).
Defined.

(** The three events, two links and the review of the impact before the take-off. *)
Definition sample_extraction : Res ChronosExtractionResult * World := execute 1 (session sample_reported sample_reported 100 50).
Example sample_timeline :
  let db := w_committed sample_extraction.2 in
  ((λ e, (ct_event_type e, ct_occurred_at e, ct_timestamp_precision e, ct_source_claim_id e, ct_raw_snapshot_id e)) <$> rows (timeline db),
   (λ l, (cl_predecessor_event_id l, cl_successor_event_id l)) <$> rows (links db),
   (λ r, (cq_timeline_event_id_a r, cq_timeline_event_id_b r, cq_status r)) <$> rows (reviews db))
  = ([(TAKEOFF, Some (36000 * second_us), MINUTE, None, None); (REPORT_PUBLISHED, None, APPROXIMATE, None, None);
      (IMPACT, Some (32430 * second_us), EXACT, Some 21%N, Some 31%N)],
     [(51, 52); (50, 51)]%N, [(50, 51, SEQ_PENDING)%N]).
Proof. vm_compute. reflexivity. Qed.

Lemma timeline_extraction_idempotent_witness : ∃ r db1 now1 uid1 r2 now2 uid2,
  execute 1 (session sample_reported sample_reported 100 50) = (Ok r, session db1 db1 now1 uid1)
  ∧ execute 1 (session db1 db1 now1 uid1) = (Ok r2, session db1 db1 now2 uid2)
  ∧ cx_timeline_events_created_count r2 = 0 ∧ cx_timeline_events_reused_count r2 = 3.
Proof.
  destruct (twp_timeline_execute 1 sample_projected sample_reported 100 50 eq_refl (ex_intro _ _ eq_refl)
    (chronos_ok_empty sample_reported 50 eq_refl) sample_referenced sample_storable) as (r & db1 & c & n & u & E & -> & _).
  destruct (timeline_extraction_idempotent 1 sample_projected sample_reported 100 50 r db1 n u eq_refl (ex_intro _ _ eq_refl)
    (chronos_ok_empty sample_reported 50 eq_refl) sample_referenced sample_storable E) as (r2 & n2 & u2 & E2 & Hc & _ & Hr).
  exists r, db1, n, u, r2, n2, u2. refine (conj E (conj E2 (conj Hc _))). rewrite Hr. vm_compute. reflexivity.
Defined.

(** ** What stays behind *)

(** A contradiction a reviewer has confirmed is raised again by the next extraction: only
    pending reviews are looked at. *)
Example confirmed_review_is_raised_again :
  let '(_, w) := sample_extraction in
  let '(_, w) := (SequenceReviewRepo.mark_confirmed 55 7 None;; commit) w in
  let '(_, w) := execute 1 w in
  (λ r, (cq_id r, cq_status r)) <$> rows (reviews (w_committed w)) = [(61, SEQ_PENDING); (55, SEQ_CONFIRMED)]%N.
Proof. vm_compute. reflexivity. Qed.

(** When the time of the accident is corrected, the event and the links of the old text stay. *)
Definition corrected : ProjectedAccidentRecord :=
  mkProjection 1 4 [("takeoff_time", PStr "1970-01-01T10:00"); ("crash_time", PStr "1970-01-01 11:00")] f_zero [] 0.
Example outdated_events_stay :
  let '(_, w) := sample_extraction in
  let '(_, w) := (ProjectionRepo.upsert corrected;; commit) w in
  let '(_, w) := execute 1 w in
  ((λ e, (ct_id e, ct_raw_value e)) <$> filter (λ e, ct_event_type e = IMPACT) (rows (timeline (w_committed w))),
   (λ l, (cl_predecessor_event_id l, cl_successor_event_id l)) <$> rows (links (w_committed w)))
  = ([(57%N, Some "1970-01-01 11:00"); (51%N, Some "1970-01-01 09:00:30Z")], [(51, 52); (50, 57); (50, 51)]%N).
Proof. vm_compute. reflexivity. Qed.
