(* ===== verification/Orion.v ===== *)
(** Orion: the entities behind the accidents.  The normalisers and resolvers
    (domain/services/orion_normalizers.py, orion_resolution.py), the repositories
    (infrastructure/db/repositories/orion.py) and the extraction of the entities of a
    projection (application/use_cases/extract_orion_entities_from_event.py). *)
From Stdlib Require Import Ascii.
From S2P Require Import Prelude Text PyFloat PyVal Entities ContextEntities Store Json.
From S2P Require Import Logic Publication Conflicts Projection Reproject Provenance.
Open Scope string_scope.
Open Scope list_scope.
Open Scope Z_scope.

(** ** orion_normalizers.py *)
Definition normalize_registration (value : string) : string :=
  re_remove (λ c, Ascii.eqb c "-" || Ascii.eqb c "/" || is_space c) (str_lower (str_strip value)).
Definition normalize_name (value : string) : string := re_sub_spaces " " (str_lower (str_strip value)).
Definition normalize_airport_code (value : string) : string := str_upper (str_strip value).
Definition normalize_country (value : string) : string := str_lower (str_strip value).
(** [is_blank] of an optional text *)
Definition blank (value : option string) : bool :=
  match value with None => true | Some s => str_empty (str_strip s) end.

(** [str.title]: a letter after a letter is put in lower case, another one in title case. *)
Definition is_cased (c : ascii) : bool :=
  let n := code c in
  is_ascii_upper c || is_ascii_lower c || (n =? 170)%N || (n =? 181)%N || (n =? 186)%N
  || ((192 <=? n) && negb (n =? 215) && negb (n =? 247))%N.
Definition title_char (c : ascii) : list ascii := if (code c =? 223)%N then ["S"; "s"]%char else upper_char c.
Fixpoint title_from (after_cased : bool) (l : list ascii) : list ascii :=
  match l with
  | [] => []
  | c :: l' => (if after_cased then [lower_char c] else title_char c) ++ title_from (is_cased c) l'
  end.
Definition str_title (s : string) : string := of_chars (title_from false (chars s)).

(** ** orion_resolution.py *)
Definition hundredth (n : N) : float := f_of_decimal false n (-2).
Record IdentifierSpec := mkIdent {
  is_type : string;
  is_value : string;
  is_norm : string;
  is_confidence : float;
}.
Record ResolutionCandidate := mkCandidate {
  rc_entity_type : OrionEntityType;
  rc_canonical_name : string;
  rc_primary : option IdentifierSpec;
  rc_extras : list IdentifierSpec;
  rc_new_confidence : float;
}.

Definition resolve_aircraft (registration : string) : option ResolutionCandidate :=
  if blank (Some registration) then None
  else let norm := normalize_registration registration in
       if str_empty norm then None
       else Some (mkCandidate ORION_AIRCRAFT (str_upper (str_strip registration))
                    (Some (mkIdent "registration" registration norm (hundredth 98))) [] (hundredth 85)).

Definition name_candidate (entity_type : OrionEntityType) (name identifier_type : string) (new_confidence : float)
    (canonical_name : option string) : option ResolutionCandidate :=
  if blank (Some name) then None
  else let norm := normalize_name name in
       if str_empty norm then None
       else Some (mkCandidate entity_type
                    (match canonical_name with Some c => if str_empty c then str_strip name else c | None => str_strip name end)
                    (Some (mkIdent identifier_type name norm (hundredth 90))) [] new_confidence).
Definition resolve_operator (name : string) := name_candidate ORION_OPERATOR name "name" (hundredth 80) None.
Definition resolve_aircraft_type (model : string) := name_candidate ORION_AIRCRAFT_TYPE model "model" (hundredth 82) None.
Definition resolve_manufacturer (name : string) := name_candidate ORION_MANUFACTURER name "name" (hundredth 80) None.
Definition resolve_investigation_agency (name : string) :=
  name_candidate ORION_INVESTIGATION_AGENCY name "name" (hundredth 80) None.

(** Three or four ASCII letters: an IATA or an ICAO code. *)
Definition code_is_strong (airport_code : string) : bool :=
  let l := chars (str_strip airport_code) in
  forallb (λ c, is_ascii_upper c || is_ascii_lower c) l && (bool_decide (length l = 3%nat) || bool_decide (length l = 4%nat)).
Definition resolve_airport (airport_code name : option string) : option ResolutionCandidate :=
  let named (s : string) (confidence : float) := mkIdent "name" s (normalize_name s) confidence in
  let candidate canonical primary extras := Some (mkCandidate ORION_AIRPORT canonical (Some primary) extras (hundredth 82)) in
  match (if blank airport_code then None else airport_code), (if blank name then None else name) with
  | Some c, n =>
      if code_is_strong c then
        let norm_code := normalize_airport_code c in
        candidate norm_code
          (mkIdent (if bool_decide (length (chars norm_code) = 4%nat) then "icao" else "iata") c norm_code (hundredth 98))
          (match n with Some n => [named n (hundredth 90)] | None => [] end)
      else
        match n with
        | Some n => candidate (str_strip n) (named n (hundredth 90))
                      (if bool_decide (str_strip c = str_strip n) then [] else [named c (hundredth 80)])
        | None => candidate (str_strip c) (named c (hundredth 80)) []
        end
  | None, Some n => candidate (str_strip n) (named n (hundredth 90)) []
  | None, None => None
  end.

Definition resolve_country (name : string) : option ResolutionCandidate :=
  (λ c, mkCandidate (rc_entity_type c) (rc_canonical_name c)
          ((λ i, mkIdent (is_type i) (is_value i) (normalize_country (is_value i)) (is_confidence i)) <$> rc_primary c)
          (rc_extras c) (rc_new_confidence c))
  <$> name_candidate ORION_COUNTRY name "name" (hundredth 80)
        (if blank (Some name) then None else Some (str_title (str_strip name))).

Example resolved :
  (λ c, (rc_canonical_name c, (λ i, (is_type i, is_norm i)) <$> rc_primary c, is_norm <$> rc_extras c)) <$>
    omap id [resolve_aircraft "n-123 ab"; resolve_aircraft " -/ "; resolve_operator "ACME   Air"; resolve_airport (Some "egll") (Some "London");
             resolve_airport (Some "EGLL1") (Some "London"); resolve_airport None None; resolve_country "united  KINGDOM"]
  = [("N-123 AB", Some ("registration", "n123ab"), []); ("ACME   Air", Some ("name", "acme air"), []);
     ("EGLL", Some ("icao", "EGLL"), ["london"]); ("London", Some ("name", "london"), ["egll1"]);
     ("United  Kingdom", Some ("name", "united  kingdom"), [])].
Proof. vm_compute. reflexivity. Qed.

(** ** Tables *)
Definition entities (db : DB) : gmap UUID OrionEntity := on_entities (db_orion db).
Definition identifiers (db : DB) : gmap UUID OrionEntityIdentifier := on_identifiers (db_orion db).
Definition relationships (db : DB) : gmap UUID OrionRelationship := on_relationships (db_orion db).
Definition claim_links (db : DB) : gmap UUID OrionEntityClaimLink := on_claim_links (db_orion db).
Definition set_entities (m : gmap UUID OrionEntity) : DB → DB := upd_orion (λ t,
  mkOrionTables m (on_identifiers t) (on_relationships t) (on_claim_links t)).
Definition set_identifiers (m : gmap UUID OrionEntityIdentifier) : DB → DB := upd_orion (λ t,
  mkOrionTables (on_entities t) m (on_relationships t) (on_claim_links t)).
Definition set_relationships (m : gmap UUID OrionRelationship) : DB → DB := upd_orion (λ t,
  mkOrionTables (on_entities t) (on_identifiers t) m (on_claim_links t)).
Definition set_claim_links (m : gmap UUID OrionEntityClaimLink) : DB → DB := upd_orion (λ t,
  mkOrionTables (on_entities t) (on_identifiers t) (on_relationships t) m).

(** LIMIT 1 without ORDER BY: some row of the answer, the server says which. *)
Class LimitOne := {
  limit_one : list OrionEntity → option OrionEntity;
  limit_one_elem l x : limit_one l = Some x → x ∈ l;
  limit_one_nil l : limit_one l = None → l = [];
}.

Section repositories.
Context `{LimitOne}.

Definition is_current (t : OrionEntityType) (e : OrionEntity) : bool :=
  bool_decide (oe_entity_type e = t) && bool_decide (oe_status e = ENTITY_ACTIVE).
(** The active entities that currently own an identifier. *)
Definition owners (t : OrionEntityType) (identifier_type normalized_value : string) (db : DB) : list OrionEntity :=
  omap (λ i, e ← entities db !! oi_entity_id i; if is_current t e then Some e else None)
    (filter (λ i, oi_identifier_type i = identifier_type ∧ oi_normalized_value i = normalized_value ∧ oi_valid_to i = None)
       (rows (identifiers db))).
Definition entities_named (t : OrionEntityType) (normalized_name : string) (db : DB) : list OrionEntity :=
  filter (λ e, is_current t e = true ∧ str_lower (oe_canonical_name e) = normalized_name) (rows (entities db)).

(** *** SqlOrionEntityRepository *)
Definition get_entity (id : UUID) : M (option OrionEntity) := query (λ db, entities db !! id).
Definition lock_for_identifier_identity (t : OrionEntityType) (identifier_type normalized_value : string) : M unit :=
  exec (λ db, db).
Definition find_by_identifier (t : OrionEntityType) (identifier_type normalized_value : string) : M (option OrionEntity) :=
  query (λ db, limit_one (owners t identifier_type normalized_value db)).
Definition find_by_canonical_name (t : OrionEntityType) (normalized_name : string) : M (option OrionEntity) :=
  query (λ db, limit_one (entities_named t normalized_name db)).
Definition add_entity (e : OrionEntity) : M unit :=
  stmt (λ db,
    if negb (fits 500 (oe_canonical_name e)) then (Raise (DataError "orion_entities"), db)
    else match entities db !! oe_id e with
         | Some _ => (Raise (IntegrityError "orion_entities_pkey"), db)
         | None => if known (oe_merged_into_entity_id e) (entities db)
                   then (Ok tt, set_entities (<[oe_id e := e]> (entities db)) db)
                   else (Raise (IntegrityError "orion_entities_merged_into_entity_id_fkey"), db)
         end).
Definition saved (now : datetime) (row e : OrionEntity) : OrionEntity :=
  mkOrionEntity (oe_id row) (oe_entity_type row) (oe_canonical_name e) (oe_status e) (oe_confidence e)
    (oe_merged_into_entity_id e) (oe_created_at row) now.
Definition save_entity (e : OrionEntity) : M unit :=
  row ← get_entity (oe_id e);
  match row with
  | None => add_entity e
  | Some row =>
      now ← utc_now;
      stmt (λ db,
        if negb (fits 500 (oe_canonical_name e)) then (Raise (DataError "orion_entities"), db)
        else if known (oe_merged_into_entity_id e) (entities db)
        then (Ok tt, set_entities (<[oe_id e := saved now row e]> (entities db)) db)
        else (Raise (IntegrityError "orion_entities_merged_into_entity_id_fkey"), db))
  end.
(** The entities of the relationships of an event. *)
Definition list_for_event (event_id : UUID) : M (list OrionEntity) :=
  query (λ db, filter (λ e, Exists (λ r, or_accident_event_id r = event_id
                              ∧ (or_subject_entity_id r = Some (oe_id e) ∨ or_object_entity_id r = oe_id e)) (rows (relationships db)))
                     (rows (entities db))).

(** *** SqlOrionIdentifierRepository *)
(** uq_orion_entity_identifiers_active_strong_identity *)
Definition active_identity (i : OrionEntityIdentifier) : OrionEntityType * string * string :=
  (oi_entity_type i, oi_identifier_type i, oi_normalized_value i).
Definition active_with (k : OrionEntityType * string * string) (db : DB) : list OrionEntityIdentifier :=
  filter (λ i, oi_valid_to i = None ∧ active_identity i = k) (rows (identifiers db)).
(** uq_orion_entity_identifiers_entity_type_norm *)
Definition entity_norm (i : OrionEntityIdentifier) : UUID * string * string :=
  (oi_entity_id i, oi_identifier_type i, oi_normalized_value i).
Definition with_norm (k : UUID * string * string) (db : DB) : list OrionEntityIdentifier :=
  filter (λ i, entity_norm i = k) (rows (identifiers db)).
Definition identifier_fits (i : OrionEntityIdentifier) : bool :=
  fits 100 (oi_identifier_type i) && fits 500 (oi_identifier_value i) && fits 500 (oi_normalized_value i).
Definition try_add (i : OrionEntityIdentifier) : M bool :=
  stmt (λ db,
    if negb (identifier_fits i) then (Raise (DataError "orion_entity_identifiers"), db)
    else if bool_decide (oi_valid_to i = None) && negb (bool_decide (active_with (active_identity i) db = [])) then (Ok false, db)
    else if negb (bool_decide (with_norm (entity_norm i) db = []))
    then (Raise (IntegrityError "uq_orion_entity_identifiers_entity_type_norm"), db)
    else match identifiers db !! oi_id i with
         | Some _ => (Raise (IntegrityError "orion_entity_identifiers_pkey"), db)
         | None =>
             if known (Some (oi_entity_id i)) (entities db) && known (oi_source_claim_id i) (db_claims db)
                && known (oi_raw_snapshot_id i) (db_snapshots db)
             then (Ok true, set_identifiers (<[oi_id i := i]> (identifiers db)) db)
             else (Raise (IntegrityError "orion_entity_identifiers_fkey"), db)
         end).
Definition list_identifiers (entity_id : UUID) : M (list OrionEntityIdentifier) :=
  query (λ db, filter (λ i, oi_entity_id i = entity_id) (rows (identifiers db))).

(** *** SqlOrionRelationshipRepository *)
(** uq_orion_relationships_event_level and uq_orion_relationships_entity_level *)
Definition rel_key (r : OrionRelationship) : option UUID * OrionRelationshipType * UUID * UUID :=
  (or_subject_entity_id r, or_relationship_type r, or_object_entity_id r, or_accident_event_id r).
Definition rel_with (k : option UUID * OrionRelationshipType * UUID * UUID) (db : DB) : list OrionRelationship :=
  filter (λ r, rel_key r = k) (rows (relationships db)).
Definition insert_relationship (r : OrionRelationship) : M (option OrionRelationship) :=
  stmt (λ db,
    match rel_with (rel_key r) db with
    | _ :: _ => (Ok None, db)
    | [] =>
        match relationships db !! or_id r with
        | Some _ => (Raise (IntegrityError "orion_relationships_pkey"), db)
        | None =>
            if known (or_subject_entity_id r) (entities db) && known (Some (or_object_entity_id r)) (entities db)
               && known (Some (or_accident_event_id r)) (db_events db) && known (or_source_claim_id r) (db_claims db)
               && known (or_raw_snapshot_id r) (db_snapshots db)
            then (Ok (Some r), set_relationships (<[or_id r := r]> (relationships db)) db)
            else (Raise (IntegrityError "orion_relationships_fkey"), db)
        end
    end).
Definition upsert_relationship (r : OrionRelationship) : M (OrionRelationship * bool) :=
  row ← insert_relationship r;
  match row with
  | Some row => mret (row, true)
  | None =>
      existing ← scalar_query (rel_with (rel_key r));
      match existing with
      | Some x => mret (x, false)
      | None => raise (ConcurrentUpsertError "OrionRelationship upsert")
      end
  end.
Definition list_relationships_for_entity (entity_id : UUID) : M (list OrionRelationship) :=
  query (λ db, filter (λ r, or_subject_entity_id r = Some entity_id ∨ or_object_entity_id r = entity_id) (rows (relationships db))).
Definition list_relationships_for_event (event_id : UUID) : M (list OrionRelationship) :=
  query (λ db, filter (λ r, or_accident_event_id r = event_id) (rows (relationships db))).

(** *** SqlOrionEntityClaimLinkRepository *)
(** uq_orion_entity_claim_links_entity_claim_event *)
Definition link_triple (l : OrionEntityClaimLink) : UUID * UUID * UUID := (ol_entity_id l, ol_claim_id l, ol_accident_event_id l).
Definition link_with (k : UUID * UUID * UUID) (db : DB) : list OrionEntityClaimLink :=
  filter (λ l, link_triple l = k) (rows (claim_links db)).
Definition add_claim_link (l : OrionEntityClaimLink) : M unit :=
  stmt (λ db,
    match link_with (link_triple l) db with
    | _ :: _ => (Ok tt, db)
    | [] =>
        match claim_links db !! ol_id l with
        | Some _ => (Raise (IntegrityError "orion_entity_claim_links_pkey"), db)
        | None =>
            if known (Some (ol_entity_id l)) (entities db) && known (Some (ol_claim_id l)) (db_claims db)
               && known (ol_raw_snapshot_id l) (db_snapshots db) && known (Some (ol_source_id l)) (db_sources db)
               && known (Some (ol_accident_event_id l)) (db_events db)
            then (Ok tt, set_claim_links (<[ol_id l := l]> (claim_links db)) db)
            else (Raise (IntegrityError "orion_entity_claim_links_fkey"), db)
        end
    end).
Definition list_claim_links (entity_id : UUID) : M (list OrionEntityClaimLink) :=
  query (λ db, filter (λ l, ol_entity_id l = entity_id) (rows (claim_links db))).
End repositories.

(** ** ExtractOrionEntitiesFromEvent *)
Module ExtractOrionEntities.
Definition REGISTRATION_FIELDS : list string := ["registration"; "aircraft_registration"].
Definition OPERATOR_FIELDS : list string := ["operator"; "airline"].
Definition AIRCRAFT_TYPE_FIELDS : list string := ["aircraft_type"].
Definition MANUFACTURER_FIELDS : list string := ["manufacturer"].
Definition COUNTRY_FIELDS : list string := ["country"].
Definition AGENCY_FIELDS : list string := ["investigation_agency"; "agency"].

(** The first field with a usable value, and what its resolver makes of it. *)
Definition first_field (fields : list (string * pyval)) (names : list string) : option (string * string) :=
  head (omap (λ n, Datatypes.pair n <$> safe_str (default PNone (dict_get n fields))) names).
Definition resolve_with (resolve : string → option ResolutionCandidate) (names : list string) (fields : list (string * pyval))
    : option (ResolutionCandidate * string) :=
  '(field, value) ← first_field fields names;
  (λ c, (c, field)) <$> resolve value.
Definition airport_of (fields : list (string * pyval)) : option (ResolutionCandidate * string) :=
  let airport_raw := safe_str (default PNone (dict_get "airport" fields)) in
  let location_raw := safe_str (default PNone (dict_get "location" fields)) in
  (λ c, (c, match airport_raw with Some _ => "airport" | None => "location" end)) <$> resolve_airport airport_raw location_raw.

Record OrionExtractionResult := mkOrionExtraction {
  ox_event_id : UUID;
  ox_entities_created_count : Z;
  ox_entities_reused_count : Z;
  ox_relationships_created_count : Z;
  ox_entity_ids : list UUID;
  ox_relationship_ids : list UUID;
}.
Definition add_id (id : UUID) (ids : list UUID) : list UUID := if bool_decide (id ∈ ids) then ids else ids ++ [id].
Definition count_entity (e : OrionEntity) (created : bool) (r : OrionExtractionResult) : OrionExtractionResult :=
  mkOrionExtraction (ox_event_id r) (ox_entities_created_count r + if created then 1 else 0)
    (ox_entities_reused_count r + if created then 0 else 1) (ox_relationships_created_count r)
    (add_id (oe_id e) (ox_entity_ids r)) (ox_relationship_ids r).
Definition count_rel (rel : OrionRelationship) (created : bool) (r : OrionExtractionResult) : OrionExtractionResult :=
  mkOrionExtraction (ox_event_id r) (ox_entities_created_count r) (ox_entities_reused_count r)
    (ox_relationships_created_count r + if created then 1 else 0) (ox_entity_ids r) (add_id (or_id rel) (ox_relationship_ids r)).

Section extraction.
Context `{LimitOne} (event_id : UUID) (claims_by_field : list (string * Claim)).

Definition resolve_or_create (c : ResolutionCandidate) : M (OrionEntity * bool) :=
  entity ← match rc_primary c with
           | Some p =>
               lock_for_identifier_identity (rc_entity_type c) (is_type p) (is_norm p);;
               find_by_identifier (rc_entity_type c) (is_type p) (is_norm p)
           | None => mret None
           end;
  entity ← match entity with
           | Some e => mret (Some e)
           | None => find_by_canonical_name (rc_entity_type c) (normalize_name (rc_canonical_name c))
           end;
  match entity with
  | Some e => mret (e, false)
  | None =>
      id ← uuid4; created_at ← utc_now; updated_at ← utc_now;
      let e := mkOrionEntity id (rc_entity_type c) (rc_canonical_name c) ENTITY_ACTIVE (rc_new_confidence c) None
                 created_at updated_at in
      add_entity e;;
      mret (e, true)
  end.

Definition attach_identifier (e : OrionEntity) (i : IdentifierSpec) (claim_field : option string) : M unit :=
  let claim := claim_field ≫= λ f, dict_get f claims_by_field in
  id ← uuid4; created_at ← utc_now;
  try_add (mkOrionIdentifier id (oe_id e) (oe_entity_type e) (is_type i) (is_value i) (is_norm i) (c_id <$> claim)
             (claim ≫= c_raw_snapshot_id) (is_confidence i) None None created_at);;
  mret tt.

Definition maybe_claim_link (e : OrionEntity) (field_name : string) : M unit :=
  match dict_get field_name claims_by_field with
  | None => mret tt
  | Some claim =>
      id ← uuid4; created_at ← utc_now;
      add_claim_link (mkOrionClaimLink id (oe_id e) (c_id claim) (c_raw_snapshot_id claim) (c_source_id claim) event_id
                        (hundredth 95) created_at)
  end.

Definition upsert_rel (rel_type : OrionRelationshipType) (object_entity_id : UUID) (subject_entity_id : option UUID)
    (claim_field : string) : M (OrionRelationship * bool) :=
  let claim := dict_get claim_field claims_by_field in
  id ← uuid4; created_at ← utc_now;
  upsert_relationship (mkOrionRelationship id subject_entity_id rel_type object_entity_id event_id (c_id <$> claim)
                         (claim ≫= c_raw_snapshot_id) (hundredth 95) None None created_at).

(** What the body does for each kind of entity: resolve, count, attach the identifiers,
    link the claim, and record the relationship unless its subject is missing ([None]). *)
Definition extract_entity (candidate : option (ResolutionCandidate * string))
    (rel : option (OrionRelationshipType * option UUID)) (result : OrionExtractionResult)
    : M (option OrionEntity * OrionExtractionResult) :=
  match candidate with
  | None => mret (None, result)
  | Some (c, field) =>
      '(e, created) ← resolve_or_create c;
      let result := count_entity e created result in
      match rc_primary c with Some p => attach_identifier e p (Some field) | None => mret tt end;;
      for_each (rc_extras c) (λ i, attach_identifier e i None);;
      maybe_claim_link e field;;
      match rel with
      | None => mret (Some e, result)
      | Some (rel_type, subject) =>
          '(r, created_rel) ← upsert_rel rel_type (oe_id e) subject field;
          mret (Some e, count_rel r created_rel result)
      end
  end.
End extraction.

(** A relationship whose subject is an entity found before. *)
Definition from (subject : option OrionEntity) (rel_type : OrionRelationshipType)
    : option (OrionRelationshipType * option UUID) := (λ s, (rel_type, Some (oe_id s))) <$> subject.

Definition execute `{LimitOne} (event_id : UUID) : M OrionExtractionResult :=
  let result := mkOrionExtraction event_id 0 0 0 [] [] in
  projection ← ProjectionRepo.get event_id;
  match projection with
  | None => mret result
  | Some p =>
      let fields := pj_fields p in
      claims_by_field ← select_projected_claims_by_field event_id fields;
      let extract := extract_entity event_id claims_by_field in
      '(aircraft, result) ← extract (resolve_with resolve_aircraft REGISTRATION_FIELDS fields)
                              (Some (INVOLVED_AIRCRAFT, None)) result;
      '(_, result) ← extract (resolve_with resolve_operator OPERATOR_FIELDS fields) (from aircraft OPERATED_BY) result;
      '(aircraft_type, result) ← extract (resolve_with resolve_aircraft_type AIRCRAFT_TYPE_FIELDS fields)
                                   (from aircraft OF_AIRCRAFT_TYPE) result;
      '(_, result) ← extract (resolve_with resolve_manufacturer MANUFACTURER_FIELDS fields)
                       (from aircraft_type MANUFACTURED_BY) result;
      '(airport, result) ← extract (airport_of fields) (Some (OCCURRED_AT, None)) result;
      '(_, result) ← extract (resolve_with resolve_country COUNTRY_FIELDS fields) (from airport LOCATED_IN) result;
      '(_, result) ← extract (resolve_with resolve_investigation_agency AGENCY_FIELDS fields)
                       (Some (INVESTIGATED_BY, None)) result;
      commit;;
      mret result
  end.
End ExtractOrionEntities.
