(* ===== verification/OrionFacts.v ===== *)
(** What holds of Orion: the complete effect of an extraction of entities. *)
From S2P Require Import Prelude Text PyFloat PyVal Entities ContextEntities Store Json.
From S2P Require Import Logic Publication Conflicts Projection Reproject Wp Provenance Extraction Orion.
Import ExtractOrionEntities.
Open Scope string_scope.
Open Scope list_scope.
Open Scope Z_scope.

(** ** Well-formed entities *)
Definition no_key (e : OrionEntity) : option unit := None.
Definition ident_key (i : OrionEntityIdentifier) : option (OrionEntityType * string * string) :=
  if decide (oi_valid_to i = None) then Some (active_identity i) else None.
Definition relationship_key (r : OrionRelationship) : option (option UUID * OrionRelationshipType * UUID * UUID) := Some (rel_key r).
Definition claim_link_key (l : OrionEntityClaimLink) : option (UUID * UUID * UUID) := Some (link_triple l).

Record orion_ok (db : DB) (uid : N) : Prop := {
  oo_entities : table_ok oe_id no_key (entities db);
  oo_identifiers : table_ok oi_id ident_key (identifiers db);
  oo_relationships : table_ok or_id relationship_key (relationships db);
  oo_links : table_ok ol_id claim_link_key (claim_links db);
  (** Nothing in the program merges an entity or ends an identifier. *)
  oo_active k e : entities db !! k = Some e → oe_status e = ENTITY_ACTIVE;
  oo_owner k i : identifiers db !! k = Some i → oi_valid_to i = None
    ∧ ∃ e, entities db !! oi_entity_id i = Some e ∧ oe_entity_type e = oi_entity_type i;
  oo_fresh_entities : below uid (entities db);
  oo_fresh_identifiers : below uid (identifiers db);
  oo_fresh_relationships : below uid (relationships db);
  oo_fresh_links : below uid (claim_links db);
}.
Definition same_but_orion (db db' : DB) : Prop := ∃ t, db' = upd_orion (λ _, t) db.
Lemma same_but_orion_refl db : same_but_orion db db.
Proof. exists (db_orion db). by destruct db. Qed.
Lemma same_but_orion_trans db1 db2 db3 : same_but_orion db1 db2 → same_but_orion db2 db3 → same_but_orion db1 db3.
Proof. intros [t ->] [t' ->]. by exists t'. Qed.
Lemma orion_ok_mono db uid uid' : (uid ≤ uid')%N → orion_ok db uid → orion_ok db uid'.
Proof. intros Hle []. split; try done; by eapply below_mono. Qed.

Ltac tables :=
  change (entities (set_entities ?m _)) with m; change (identifiers (set_identifiers ?m _)) with m;
  change (relationships (set_relationships ?m _)) with m; change (claim_links (set_claim_links ?m _)) with m;
  change (entities (set_identifiers _ ?d)) with (entities d); change (entities (set_relationships _ ?d)) with (entities d);
  change (entities (set_claim_links _ ?d)) with (entities d); change (identifiers (set_entities _ ?d)) with (identifiers d);
  change (identifiers (set_relationships _ ?d)) with (identifiers d); change (identifiers (set_claim_links _ ?d)) with (identifiers d);
  change (relationships (set_entities _ ?d)) with (relationships d); change (relationships (set_identifiers _ ?d)) with (relationships d);
  change (relationships (set_claim_links _ ?d)) with (relationships d); change (claim_links (set_entities _ ?d)) with (claim_links d);
  change (claim_links (set_identifiers _ ?d)) with (claim_links d); change (claim_links (set_relationships _ ?d)) with (claim_links d).

(** *** The owner of an identifier *)
Abbreviation identity := (OrionEntityType * string * string)%type.
Definition owned (db : DB) (k : identity) (e : OrionEntity) : Prop :=
  entities db !! oe_id e = Some e ∧ ∃ j i, identifiers db !! j = Some i ∧ active_identity i = k ∧ oi_entity_id i = oe_id e.
Definition named (db : DB) (t : OrionEntityType) (n : string) (e : OrionEntity) : Prop :=
  entities db !! oe_id e = Some e ∧ oe_entity_type e = t ∧ str_lower (oe_canonical_name e) = n.

Section owners.
Context (db : DB) (uid : N) (Hok : orion_ok db uid).

Lemma ident_key_spec j i : identifiers db !! j = Some i → ident_key i = Some (active_identity i).
Proof using Hok. intros Hi. apply (oo_owner _ _ Hok) in Hi as [Hv _]. unfold ident_key. by rewrite decide_True. Qed.
Lemma is_current_spec k e t : entities db !! k = Some e → is_current t e = true ↔ oe_entity_type e = t.
Proof using Hok.
  intros He. unfold is_current. rewrite (bool_decide_true (oe_status e = _)) by (by apply (oo_active _ _ Hok k)).
  by rewrite andb_true_r, bool_decide_eq_true.
Qed.

Lemma owners_spec t ty n e : e ∈ owners t ty n db ↔ owned db (t, ty, n) e.
Proof using Hok.
  unfold owners. rewrite list_elem_of_omap. split.
  - intros (i & [(Ety & En & Ev) [j Hj]%elem_of_rows]%list_elem_of_filter & Ei).
    destruct (oo_owner _ _ Hok j i Hj) as (_ & x & Hx & Et). rewrite Hx in Ei. cbn [mbind option_bind] in Ei.
    destruct (is_current t x) eqn:Ec; [|done]. injection Ei as <-. apply (is_current_spec _ _ _ Hx) in Ec.
    pose proof (tk_id _ _ _ (oo_entities _ _ Hok) _ _ Hx) as Eid. split; [by rewrite Eid|].
    exists j, i. split_and!; [done| |done]. unfold active_identity. congruence.
  - intros (He & j & i & Hj & [= Et Ety En] & Eid). destruct (oo_owner _ _ Hok j i Hj) as (Ev & x & Hx & Etx).
    exists i. split; [apply list_elem_of_filter; split_and!; try done; apply elem_of_rows; by exists j|].
    rewrite Eid, He in Hx. injection Hx as <-. rewrite Eid, He. cbn [mbind option_bind].
    rewrite (proj2 (is_current_spec _ _ t He)); [done|congruence].
Qed.
Lemma entities_named_spec t n e : e ∈ entities_named t n db ↔ named db t n e.
Proof using Hok.
  unfold entities_named. rewrite list_elem_of_filter, elem_of_rows. split.
  - intros ([Hc Hn] & k & Hk). pose proof (tk_id _ _ _ (oo_entities _ _ Hok) _ _ Hk) as Eid.
    apply (is_current_spec _ _ _ Hk) in Hc. split; [by rewrite Eid|done].
  - intros (He & Et & Hn). split; [|by exists (oe_id e)]. split; [|done]. by apply (is_current_spec _ _ _ He).
Qed.

Lemma owned_unique k e e' : owned db k e → owned db k e' → e = e'.
Proof using Hok.
  intros (He & j & i & Hj & Ek & Eid) (He' & j' & i' & Hj' & Ek' & Eid').
  assert (j = j') as <-.
  { eapply (tk_unique _ _ _ (oo_identifiers _ _ Hok)); [exact Hj|exact Hj'|by eapply ident_key_spec|].
    rewrite (ident_key_spec _ _ Hj'). congruence. }
  congruence.
Qed.
Lemma owned_key k : has_key ident_key k (identifiers db) ↔ ∃ e, owned db k e.
Proof using Hok.
  split.
  - intros (j & i & Hj & Ek). rewrite (ident_key_spec _ _ Hj) in Ek. injection Ek as Ek.
    destruct (oo_owner _ _ Hok j i Hj) as (_ & e & He & _).
    pose proof (tk_id _ _ _ (oo_entities _ _ Hok) _ _ He) as Eid. exists e. split; [by rewrite Eid|]. by exists j, i.
  - intros (e & _ & j & i & Hj & Ek & _). exists j, i. split; [done|]. rewrite (ident_key_spec _ _ Hj). by f_equal.
Qed.
Lemma owned_type t ty n e : owned db (t, ty, n) e → oe_entity_type e = t.
Proof using Hok.
  intros (He & j & i & Hj & [= Et _ _] & Eid). destruct (oo_owner _ _ Hok j i Hj) as (_ & x & Hx & Etx).
  rewrite Eid, He in Hx. injection Hx as <-. congruence.
Qed.
End owners.

(** Rows are only added: an owner stays the owner. *)
Lemma owned_mono db db' k e : entities db ⊆ entities db' → identifiers db ⊆ identifiers db' → owned db k e → owned db' k e.
Proof.
  intros He Hi (H1 & j & i & H2 & H3). split; [by eapply lookup_weaken|]. exists j, i. split; [by eapply lookup_weaken|done].
Qed.

(** ** Finding or creating an entity *)
Definition identity_of (c : ResolutionCandidate) (i : IdentifierSpec) : identity := (rc_entity_type c, is_type i, is_norm i).
Definition name_of (c : ResolutionCandidate) : string := normalize_name (rc_canonical_name c).
Definition new_entity (c : ResolutionCandidate) (e : OrionEntity) : Prop :=
  ∃ id now, e = mkOrionEntity id (rc_entity_type c) (rc_canonical_name c) ENTITY_ACTIVE (rc_new_confidence c) None now (now + 1).

(** The owner of the identifier, else an entity of the name, else a new one. *)
Inductive Resolves (db : DB) (c : ResolutionCandidate) (p : IdentifierSpec) : OrionEntity → bool → Prop :=
  | resolves_owner e : owned db (identity_of c p) e → Resolves db c p e false
  | resolves_name e : (∀ x, ¬ owned db (identity_of c p) x) → named db (rc_entity_type c) (name_of c) e → Resolves db c p e false
  | resolves_new e : (∀ x, ¬ owned db (identity_of c p) x) → (∀ x, ¬ named db (rc_entity_type c) (name_of c) x) →
      new_entity c e → Resolves db c p e true.

Section steps.
#[local] Set Default Proof Using "Type*".
Context `{LimitOne}.

Lemma limit_one_spec l (P : OrionEntity → Prop) : (∀ x, x ∈ l ↔ P x) →
  match limit_one l with Some x => P x | None => ∀ x, ¬ P x end.
Proof.
  intros HP. destruct (limit_one l) as [x|] eqn:E; [by apply HP, limit_one_elem|].
  apply limit_one_nil in E as ->. intros x Hx%HP. by apply elem_of_nil in Hx.
Qed.

Lemma twp_resolve_or_create c p (Q : OrionEntity * bool → DB → DB → Z → N → Prop) db com now uid :
  orion_ok db uid → rc_primary c = Some p → fits 500 (rc_canonical_name c) = true →
  (∀ e created db' now' uid', orion_ok db' uid' → same_but_orion db db' → identifiers db' = identifiers db →
     relationships db' = relationships db → claim_links db' = claim_links db → Resolves db c p e created →
     added no_key (λ x, x = e ∧ created = true) (entities db) (entities db') →
     entities db' !! oe_id e = Some e → oe_entity_type e = rc_entity_type c →
     Z.of_nat (size (entities db')) = Z.of_nat (size (entities db)) + (if created then 1 else 0) →
     Q (e, created) db' com now' uid') →
  twp (resolve_or_create c) Q db com now uid.
Proof.
  intros Hok Hp Hfit HQ. unfold resolve_or_create. rewrite Hp.
  unfold lock_for_identifier_identity, find_by_identifier, find_by_canonical_name. twp_go.
  pose proof (limit_one_spec _ _ (owners_spec db uid Hok (rc_entity_type c) (is_type p) (is_norm p))) as Ho.
  destruct (limit_one (owners _ _ _ _)) as [e|].
  { twp_go. apply HQ; try done.
    - apply same_but_orion_refl.
    - by constructor.
    - apply added_refl.
    - by destruct Ho.
    - by eapply owned_type.
    - lia. }
  twp_go. pose proof (limit_one_spec _ _ (entities_named_spec db uid Hok (rc_entity_type c) (name_of c))) as Hn.
  unfold name_of in Hn. destruct (limit_one (entities_named _ _ _)) as [e|].
  { twp_go. apply HQ; try done.
    - apply same_but_orion_refl.
    - by constructor 2.
    - apply added_refl.
    - by destruct Hn.
    - by destruct Hn as (_ & ? & _).
    - lia. }
  do 7 twp_step. unfold add_entity. set (e := mkOrionEntity uid _ _ _ _ _ _ _).
  pose proof (below_None _ _ (oo_fresh_entities _ _ Hok)) as Hnone.
  destruct (row_added oe_id no_key (new_entity c) (entities db) e) as (Htab & Hadd & Hsize);
    [apply Hok|done|done|by exists uid, now|].
  eapply twp_stmt.
  { change (oe_canonical_name e) with (rc_canonical_name c). change (oe_id e) with uid. by rewrite Hfit, Hnone. }
  twp_go. apply HQ; tables; try done.
  - destruct Hok as [H1 H2 H3 H4 H5 H6 H7 H8 H9 H10]. split; tables; try done; try (eapply below_mono; [|done]; lia).
    + intros k x [[<- <-]|[_ Hx]]%lookup_insert_Some; [done|by eapply H5].
    + intros k i Hi. destruct (H6 k i Hi) as (Hv & x & Hx & Ex). split; [done|]. exists x. split; [|done].
      apply lookup_insert_Some. right. split; [|done]. intros E. cbn [e oe_id] in E. rewrite <- E, Hnone in Hx. done.
    + by apply below_insert.
  - by eexists.
  - constructor 3; [done|done|by exists uid, now].
  - destruct Hadd as [Hsub _]. split; [done|]. intros k x [[<- <-]|[_ Hx]]%lookup_insert_Some; [by right|by left].
  - apply lookup_insert_eq.
  - change (oe_id e) with uid in Hsize. rewrite Hsize. lia.
Qed.

(** ** What is attached to it *)
Context (event_id : UUID) (claims : list (string * Claim)).
Definition claims_stored (db : DB) : Prop := ∀ f c, dict_get f claims = Some c →
  is_Some (db_claims db !! c_id c) ∧ known (c_raw_snapshot_id c) (db_snapshots db) = true ∧ is_Some (db_sources db !! c_source_id c).
Lemma claims_stored_same db db' : same_but_orion db db' → claims_stored db → claims_stored db'.
Proof using. by intros [t ->]. Qed.
Lemma claim_known db o : claims_stored db → known (c_id <$> (o ≫= λ f, dict_get f claims)) (db_claims db) = true.
Proof using.
  intros Hc. destruct o as [f|]; [|done]. cbn [mbind option_bind]. destruct (dict_get f claims) as [c|] eqn:E; [|done].
  by apply bool_decide_true, (Hc f).
Qed.
Lemma snapshot_known db o : claims_stored db → known ((o ≫= λ f, dict_get f claims) ≫= c_raw_snapshot_id) (db_snapshots db) = true.
Proof using.
  intros Hc. apply known_claim. intros c E. destruct o as [f|]; [|done]. by apply (Hc f).
Qed.

(** Everything but the identifiers. *)
Definition same_but_identifiers (db db' : DB) : Prop :=
  same_but_orion db db' ∧ entities db' = entities db ∧ relationships db' = relationships db ∧ claim_links db' = claim_links db.
Lemma same_but_identifiers_refl db : same_but_identifiers db db.
Proof using. split; [apply same_but_orion_refl|done]. Qed.
Lemma same_but_identifiers_trans db1 db2 db3 :
  same_but_identifiers db1 db2 → same_but_identifiers db2 db3 → same_but_identifiers db1 db3.
Proof using.
  intros (H1 & E1 & E2 & E3) (H2 & F1 & F2 & F3). split; [by eapply same_but_orion_trans|]. split_and!; congruence.
Qed.

Definition ident_row (e : OrionEntity) (i : IdentifierSpec) (field : option string) (x : OrionEntityIdentifier) : Prop :=
  ∃ id now, let claim := field ≫= λ f, dict_get f claims in
  x = mkOrionIdentifier id (oe_id e) (oe_entity_type e) (is_type i) (is_value i) (is_norm i) (c_id <$> claim)
        (claim ≫= c_raw_snapshot_id) (is_confidence i) None None now.
Definition spec_fits (i : IdentifierSpec) : bool :=
  fits 100 (is_type i) && fits 500 (is_value i) && fits 500 (is_norm i).
Definition identity_for (e : OrionEntity) (i : IdentifierSpec) : identity := (oe_entity_type e, is_type i, is_norm i).

Lemma twp_attach e i field (Q : unit → DB → DB → Z → N → Prop) db com now uid :
  orion_ok db uid → claims_stored db → entities db !! oe_id e = Some e → spec_fits i = true →
  (∀ db' now' uid', orion_ok db' uid' → same_but_identifiers db db' →
     added ident_key (ident_row e i field) (identifiers db) (identifiers db') →
     has_key ident_key (identity_for e i) (identifiers db') →
     ((∀ x, ¬ owned db (identity_for e i) x) → owned db' (identity_for e i) e) →
     Q tt db' com now' uid') →
  twp (attach_identifier claims e i field) Q db com now uid.
Proof using.
  intros Hok Hc He Hfit HQ. unfold attach_identifier, try_add. do 5 twp_step.
  set (x := mkOrionIdentifier uid _ _ _ _ _ _ _ _ _ _ _).
  assert (ident_row e i field x) as Hrow by (by exists uid, now).
  change (identifier_fits x) with (spec_fits i). rewrite Hfit.
  assert (ident_key x = Some (identity_for e i)) as Ekey by done.
  destruct (rows_of_key oi_id ident_key (λ j, oi_valid_to j = None ∧ active_identity j = identity_for e i) (identity_for e i) (identifiers db))
    as [[E Hno]|(old & E & Hold & Hk)].
  - apply Hok.
  - intros y. unfold ident_key. case_decide; split; [by intros [_ ->]|by intros Hk%(inj Some)|by intros [? _]|done].
  - assert (with_norm (entity_norm x) db = []) as En.
    { apply list_filter_none, Forall_forall. intros y [j Hy]%elem_of_rows [= Eid Ety En].
      apply Hno. exists j, y. split; [done|]. rewrite (ident_key_spec _ _ Hok _ _ Hy). f_equal.
      destruct (oo_owner _ _ Hok _ _ Hy) as (_ & d & Hd & Ed). rewrite Eid, He in Hd. injection Hd as <-.
      unfold active_identity, identity_for. congruence. }
    pose proof (below_None _ _ (oo_fresh_identifiers _ _ Hok)) as Hnone.
    destruct (row_added oi_id ident_key (ident_row e i field) (identifiers db) x) as (Htab & Hadd & _);
      [apply Hok|done|intros k; rewrite Ekey; by intros [= <-]|done|].
    eapply twp_stmt.
    { unfold active_with. change (active_identity x) with (identity_for e i).
      rewrite E, En, (bool_decide_true ([] = [])) by done.
      change (oi_id x) with uid. rewrite Hnone. cbn [negb andb].
      rewrite andb_false_r. change (oi_entity_id x) with (oe_id e).
      assert (known (Some (oe_id e)) (entities db) = true) as -> by (apply bool_decide_true; by eexists).
      change (oi_source_claim_id x) with (c_id <$> (field ≫= λ f, dict_get f claims)). rewrite claim_known by done.
      change (oi_raw_snapshot_id x) with ((field ≫= λ f, dict_get f claims) ≫= c_raw_snapshot_id).
      rewrite snapshot_known by done. reflexivity. }
    twp_go. change (oi_id x) with uid in Htab, Hadd. apply HQ.
    + destruct Hok as [H1 H2 H3 H4 H5 H6 H7 H8 H9 H10]. split; tables; try done; try (eapply below_mono; [|done]; lia).
      * intros k y [[<- <-]|[_ Hy]]%lookup_insert_Some; [split; [done|by exists e]|by eapply H6].
      * by apply below_insert.
    + split; [by eexists|done].
    + done.
    + exists uid, x. tables. by rewrite lookup_insert_eq.
    + intros _. split; [done|]. exists uid, x. tables. by rewrite lookup_insert_eq.
  - eapply twp_stmt.
    { unfold active_with. change (active_identity x) with (identity_for e i).
      rewrite E, (bool_decide_false ([old] = [])), (bool_decide_true (oi_valid_to x = None)) by done. reflexivity. }
    twp_go. apply HQ.
    + eapply orion_ok_mono; [|done]. lia.
    + apply same_but_identifiers_refl.
    + apply added_refl.
    + by exists (oi_id old), old.
    + intros Hn. exfalso. destruct (proj1 (owned_key db uid Hok (identity_for e i))) as [d Hd]; [by exists (oi_id old), old|].
      by destruct (Hn d).
Qed.

Lemma twp_attach_all e l : ∀ (Q : unit → DB → DB → Z → N → Prop) db com now uid,
  orion_ok db uid → claims_stored db → entities db !! oe_id e = Some e → Forall (λ i, spec_fits i = true) l →
  (∀ db' now' uid', orion_ok db' uid' → same_but_identifiers db db' →
     added ident_key (λ x, ∃ i, i ∈ l ∧ ident_row e i None x) (identifiers db) (identifiers db') →
     (∀ i, i ∈ l → has_key ident_key (identity_for e i) (identifiers db')) → Q tt db' com now' uid') →
  twp (for_each l (λ i, attach_identifier claims e i None)) Q db com now uid.
Proof using.
  induction l as [|i l IH]; intros Q db com now uid Hok Hc He Hfit HQ; cbn [for_each].
  - apply twp_ret, HQ; [done|apply same_but_identifiers_refl|apply added_refl|by intros i ?%elem_of_nil].
  - apply Forall_cons in Hfit as [Hi Hl]. apply twp_bind, twp_attach; [done|done|done|done|].
    intros db1 n1 u1 Hok1 Hs1 Ha1 Hk1 _. pose proof Hs1 as (Hsame1 & Ee1 & _).
    apply IH; [done|by eapply claims_stored_same|by rewrite Ee1|done|].
    intros db2 n2 u2 Hok2 Hs2 Ha2 Hk2. apply HQ; [done|by eapply same_but_identifiers_trans| |].
    + eapply added_trans; eapply added_mono; [|exact Ha1| |exact Ha2].
      * intros y Hy. exists i. split; [by left|done].
      * intros y (j & Hj & Hy). exists j. split; [by right|done].
    + intros j [ ->|Hj]%elem_of_cons; [|by apply Hk2]. destruct Ha2 as [Hm _]. by eapply has_key_mono.
Qed.

Definition claim_link_row (e : OrionEntity) (field : string) (l : OrionEntityClaimLink) : Prop :=
  ∃ id now claim, dict_get field claims = Some claim
    ∧ l = mkOrionClaimLink id (oe_id e) (c_id claim) (c_raw_snapshot_id claim) (c_source_id claim) event_id (hundredth 95) now.
Definition same_but_links (db db' : DB) : Prop :=
  same_but_orion db db' ∧ entities db' = entities db ∧ relationships db' = relationships db ∧ identifiers db' = identifiers db.

Lemma twp_claim_link e field (Q : unit → DB → DB → Z → N → Prop) db com now uid :
  orion_ok db uid → claims_stored db → entities db !! oe_id e = Some e → is_Some (db_events db !! event_id) →
  (∀ db' now' uid', orion_ok db' uid' → same_but_links db db' →
     added claim_link_key (claim_link_row e field) (claim_links db) (claim_links db') →
     (∀ c, dict_get field claims = Some c → has_key claim_link_key (oe_id e, c_id c, event_id) (claim_links db')) →
     Q tt db' com now' uid') →
  twp (maybe_claim_link event_id claims e field) Q db com now uid.
Proof using.
  intros Hok Hc He Hev HQ. unfold maybe_claim_link, add_claim_link. destruct (dict_get field claims) as [c|] eqn:Ec.
  2:{ apply twp_ret, HQ; [done|split; [apply same_but_orion_refl|done]|apply added_refl|done]. }
  do 4 twp_step. destruct (Hc _ _ Ec) as (Hcl & Hsn & Hso).
  set (x := mkOrionClaimLink uid _ _ _ _ _ _ _). set (k := (oe_id e, c_id c, event_id)).
  assert (claim_link_row e field x) as Hrow by (by exists uid, now, c).
  destruct (rows_of_key ol_id claim_link_key (λ l, link_triple l = k) k (claim_links db)) as [[E Hno]|(old & E & Hold & Hk)].
  - apply Hok.
  - intros y. unfold claim_link_key. split; [by intros ->|by intros Hk%(inj Some)].
  - pose proof (below_None _ _ (oo_fresh_links _ _ Hok)) as Hnone.
    destruct (row_added ol_id claim_link_key (claim_link_row e field) (claim_links db) x) as (Htab & Hadd & _);
      [apply Hok|done|intros j Hj%(inj Some); change (link_triple x) with k in Hj; by rewrite <- Hj|done|].
    change (ol_id x) with uid in Htab, Hadd.
    eapply twp_stmt.
    { unfold link_with. change (link_triple x) with k. rewrite E. change (ol_id x) with uid. rewrite Hnone.
      change (ol_raw_snapshot_id x) with (c_raw_snapshot_id c). rewrite Hsn. unfold known. cbn [from_option].
      rewrite (bool_decide_true (is_Some (entities db !! ol_entity_id x))) by (by eexists).
      rewrite !bool_decide_true by done. cbn [andb]. reflexivity. }
    apply HQ.
    + destruct Hok as [H1 H2 H3 H4 H5 H6 H7 H8 H9 H10]. split; tables; try done; try (eapply below_mono; [|done]; lia).
      by apply below_insert.
    + split; [by eexists|done].
    + done.
    + intros c' [= <-]. exists uid, x. tables. by rewrite lookup_insert_eq.
  - eapply twp_stmt; [unfold link_with; change (link_triple x) with k; by rewrite E|].
    apply HQ.
    + eapply orion_ok_mono; [|done]. lia.
    + split; [apply same_but_orion_refl|done].
    + apply added_refl.
    + intros c' [= <-]. by exists (ol_id old), old.
Qed.

Definition rel_row (rt : OrionRelationshipType) (o : UUID) (s : option UUID) (field : string) (r : OrionRelationship) : Prop :=
  ∃ id now, let claim := dict_get field claims in
  r = mkOrionRelationship id s rt o event_id (c_id <$> claim) (claim ≫= c_raw_snapshot_id) (hundredth 95) None None now.
Definition same_but_relationships (db db' : DB) : Prop :=
  same_but_orion db db' ∧ entities db' = entities db ∧ claim_links db' = claim_links db ∧ identifiers db' = identifiers db.

Lemma twp_upsert_rel rt o s field (Q : OrionRelationship * bool → DB → DB → Z → N → Prop) db com now uid :
  orion_ok db uid → claims_stored db → is_Some (entities db !! o) → known s (entities db) = true →
  is_Some (db_events db !! event_id) →
  (∀ r created db' now' uid', orion_ok db' uid' → same_but_relationships db db' →
     added relationship_key (rel_row rt o s field) (relationships db) (relationships db') →
     has_key relationship_key (s, rt, o, event_id) (relationships db') →
     Z.of_nat (size (relationships db')) = Z.of_nat (size (relationships db)) + (if created : bool then 1 else 0) →
     Q (r, created) db' com now' uid') →
  twp (upsert_rel event_id claims rt o s field) Q db com now uid.
Proof using.
  intros Hok Hc Ho Hs Hev HQ. unfold upsert_rel, upsert_relationship, insert_relationship. do 5 twp_step.
  set (x := mkOrionRelationship uid _ _ _ _ _ _ _ _ _ _). set (k := (s, rt, o, event_id)).
  assert (rel_row rt o s field x) as Hrow by (by exists uid, now).
  destruct (rows_of_key or_id relationship_key (λ r, rel_key r = k) k (relationships db)) as [[E Hno]|(old & E & Hold & Hk)].
  - apply Hok.
  - intros y. unfold relationship_key. split; [by intros ->|by intros Hk%(inj Some)].
  - pose proof (below_None _ _ (oo_fresh_relationships _ _ Hok)) as Hnone.
    destruct (row_added or_id relationship_key (rel_row rt o s field) (relationships db) x) as (Htab & Hadd & Hsize);
      [apply Hok|done|intros j Hj%(inj Some); change (rel_key x) with k in Hj; by rewrite <- Hj|done|].
    change (or_id x) with uid in Htab, Hadd, Hsize.
    eapply twp_stmt.
    { unfold rel_with. change (rel_key x) with k. rewrite E. change (or_id x) with uid. rewrite Hnone.
      change (or_subject_entity_id x) with s. rewrite Hs.
      change (or_source_claim_id x) with (c_id <$> (Some field ≫= λ f, dict_get f claims)). rewrite claim_known by done.
      change (or_raw_snapshot_id x) with ((Some field ≫= λ f, dict_get f claims) ≫= c_raw_snapshot_id). rewrite snapshot_known by done.
      unfold known. cbn [from_option]. rewrite !bool_decide_true by done. cbn [andb]. reflexivity. }
    twp_go. apply HQ.
    + destruct Hok as [H1 H2 H3 H4 H5 H6 H7 H8 H9 H10]. split; tables; try done; try (eapply below_mono; [|done]; lia).
      by apply below_insert.
    + split; [by eexists|done].
    + done.
    + exists uid, x. tables. by rewrite lookup_insert_eq.
    + tables. rewrite Hsize. lia.
  - eapply twp_stmt; [unfold rel_with; change (rel_key x) with k; by rewrite E|].
    twp_go. eapply twp_scalar; [unfold rel_with; change (rel_key x) with k; by rewrite E|].
    twp_go. apply HQ.
    + eapply orion_ok_mono; [|done]. lia.
    + split; [apply same_but_orion_refl|done].
    + apply added_refl.
    + by exists (or_id old), old.
    + lia.
Qed.

(** ** One entity with all that is attached to it *)
Record extracted (c : ResolutionCandidate) (p : IdentifierSpec) (field : string) (rel : option (OrionRelationshipType * option UUID))
    (db : DB) (r : OrionExtractionResult) (e : OrionEntity) (created : bool) (r' : OrionExtractionResult) (db' : DB) : Prop := {
  ex_same : same_but_orion db db';
  ex_resolves : Resolves db c p e created;
  ex_type : oe_entity_type e = rc_entity_type c;
  ex_entities : added no_key (λ x, x = e ∧ created = true) (entities db) (entities db');
  ex_owned : owned db' (identity_of c p) e;
  ex_identifiers : added ident_key (λ x, ident_row e p (Some field) x ∨ ∃ i, i ∈ rc_extras c ∧ ident_row e i None x)
    (identifiers db) (identifiers db');
  ex_extras i : i ∈ rc_extras c → has_key ident_key (identity_of c i) (identifiers db');
  ex_links : added claim_link_key (claim_link_row e field) (claim_links db) (claim_links db');
  ex_linked x : dict_get field claims = Some x → has_key claim_link_key (oe_id e, c_id x, event_id) (claim_links db');
  ex_rels : added relationship_key (λ x, ∃ rt s, rel = Some (rt, s) ∧ rel_row rt (oe_id e) s field x)
    (relationships db) (relationships db');
  ex_related rt s : rel = Some (rt, s) → has_key relationship_key (s, rt, oe_id e, event_id) (relationships db');
  ex_created : ox_entities_created_count r' = ox_entities_created_count r + (if created then 1 else 0);
  ex_reused : ox_entities_reused_count r' = ox_entities_reused_count r + (if created then 0 else 1);
  ex_size : Z.of_nat (size (entities db')) = Z.of_nat (size (entities db)) + (if created then 1 else 0);
  ex_count : ox_relationships_created_count r' - ox_relationships_created_count r
    = Z.of_nat (size (relationships db')) - Z.of_nat (size (relationships db));
}.
Definition candidate_fits (c : ResolutionCandidate) (p : IdentifierSpec) : Prop :=
  fits 500 (rc_canonical_name c) = true ∧ spec_fits p = true ∧ Forall (λ i, spec_fits i = true) (rc_extras c).

Lemma resolves_primary db c p e created db1 : Resolves db c p e created → identifiers db1 = identifiers db →
  entities db ⊆ entities db1 → entities db1 !! oe_id e = Some e →
  owned db1 (identity_of c p) e ∨ ∀ x, ¬ owned db (identity_of c p) x.
Proof using.
  intros Hr Hi Hsub He. inversion Hr; subst; [left|by right|by right].
  apply (owned_mono db); [exact Hsub|by rewrite Hi|done].
Qed.

Lemma twp_extract_entity c p field rel r (Q : option OrionEntity * OrionExtractionResult → DB → DB → Z → N → Prop) db com now uid :
  orion_ok db uid → claims_stored db → is_Some (db_events db !! event_id) → rc_primary c = Some p → candidate_fits c p →
  (∀ rt s, rel = Some (rt, s) → known s (entities db) = true) →
  (∀ e created r' db' now' uid', orion_ok db' uid' → extracted c p field rel db r e created r' db' →
     Q (Some e, r') db' com now' uid') →
  twp (extract_entity event_id claims (Some (c, field)) rel r) Q db com now uid.
Proof using.
  intros Hok Hc Hev Hp (Hfit & Hpfit & Hxfit) Hrel HQ. cbn [extract_entity]. rewrite Hp.
  apply twp_bind, (twp_resolve_or_create c p); [done|done|done|].
  intros e created db1 n1 u1 Hok1 Hs1 Ei1 Er1 El1 Hres Ha1 He1 Et1 Hsize1. cbn beta iota zeta.
  assert (identity_for e p = identity_of c p) as Eid by (unfold identity_for, identity_of; congruence).
  apply twp_bind, twp_attach; [done|by eapply claims_stored_same|done|done|].
  intros db2 n2 u2 Hok2 (Hs2 & Ee2 & Er2 & El2) Ha2 Hk2 Hown2. rewrite Eid in Hown2, Hk2.
  assert (claims_stored db2) as Hc2 by exact (claims_stored_same _ _ Hs2 (claims_stored_same _ _ Hs1 Hc)).
  apply twp_bind, twp_attach_all; [done|done|by rewrite Ee2|done|].
  intros db3 n3 u3 Hok3 (Hs3 & Ee3 & Er3 & El3) Ha3 Hk3.
  assert (claims_stored db3) as Hc3 by (by eapply claims_stored_same).
  assert (is_Some (db_events db3 !! event_id)) as Hev3 by (by destruct Hs1 as [? ->], Hs2 as [? ->], Hs3 as [? ->]).
  apply twp_bind, twp_claim_link; [done|done|by rewrite Ee3, Ee2|done|].
  intros db4 n4 u4 Hok4 (Hs4 & Ee4 & Er4 & Ei4) Ha4 Hk4.
  assert (same_but_orion db db4) as Hsame by (repeat (eapply same_but_orion_trans; [eassumption|]); apply same_but_orion_refl).
  assert (owned db2 (identity_of c p) e) as Ho2.
  { destruct (resolves_primary db c p e created db1 Hres Ei1) as [Ho|Hno]; [by destruct Ha1|done| |].
    - apply (owned_mono db1); [by rewrite Ee2|by destruct Ha2|done].
    - apply Hown2. intros x (_ & j & i & Hj & Ek & _).
      rewrite Ei1 in Hj. destruct (proj1 (owned_key db uid Hok (identity_of c p))) as [d Hd]; [|by destruct (Hno d)].
      exists j, i. split; [done|]. rewrite (ident_key_spec _ _ Hok _ _ Hj). by f_equal. }
  assert (∀ rel' r' db5, same_but_orion db4 db5 → entities db5 = entities db4 → claim_links db5 = claim_links db4 →
    identifiers db5 = identifiers db4 →
    added relationship_key (λ x, ∃ rt s, rel' = Some (rt, s) ∧ rel_row rt (oe_id e) s field x) (relationships db4) (relationships db5) →
    (∀ rt s, rel' = Some (rt, s) → has_key relationship_key (s, rt, oe_id e, event_id) (relationships db5)) →
    ox_entities_created_count r' = ox_entities_created_count r + (if created then 1 else 0) →
    ox_entities_reused_count r' = ox_entities_reused_count r + (if created then 0 else 1) →
    ox_relationships_created_count r' - ox_relationships_created_count r
      = Z.of_nat (size (relationships db5)) - Z.of_nat (size (relationships db4)) →
    extracted c p field rel' db r e created r' db5) as Hfinal.
  { intros rel' r' db5 Hs5 Ee5 El5 Ei5 Ha5 Hk5 Hc5 Hu5 Hr5. split; try done.
    - by eapply same_but_orion_trans.
    - by rewrite Ee5, Ee4, Ee3, Ee2.
    - apply (owned_mono db2); [by rewrite Ee5, Ee4, Ee3|rewrite Ei5, Ei4; by destruct Ha3|done].
    - rewrite Ei5, Ei4, <- Ei1. eapply added_trans; eapply added_mono; [|exact Ha2| |exact Ha3]; [by left|by right].
    - intros i Hi. rewrite Ei5, Ei4. unfold identity_of. rewrite <- Et1. by apply Hk3.
    - by rewrite El5, <- El1, <- El2, <- El3.
    - intros x Hx. rewrite El5. by apply Hk4.
    - by rewrite <- Er1, <- Er2, <- Er3, <- Er4.
    - by rewrite Ee5, Ee4, Ee3, Ee2.
    - rewrite Er4, Er3, Er2, Er1 in Hr5. done. }
  destruct rel as [[rt s]|].
  - apply twp_bind, twp_upsert_rel.
    + done.
    + by eapply claims_stored_same.
    + rewrite Ee4, Ee3, Ee2. by exists e.
    + specialize (Hrel rt s eq_refl). destruct s as [s|]; [|done]. apply bool_decide_eq_true in Hrel as [d Hd].
      apply bool_decide_true. exists d. rewrite Ee4, Ee3, Ee2. destruct Ha1 as [Hm _]. by eapply lookup_weaken.
    + by destruct Hs4 as [? ->].
    + intros x cr db5 n5 u5 Hok5 (Hs5 & Ee5 & El5 & Ei5) Ha5 Hk5 Hsize5. twp_go. apply (HQ e created); [done|].
      apply Hfinal; try done.
      * eapply added_mono; [|exact Ha5]. intros y Hy. by exists rt, s.
      * by intros ? ? [= <- <-].
      * cbn [count_rel count_entity ox_relationships_created_count]. lia.
  - apply twp_ret. apply (HQ e created); [done|]. apply Hfinal; try done.
    + apply same_but_orion_refl.
    + apply added_refl.
    + cbn [count_entity ox_relationships_created_count]. lia.
Qed.
End steps.

(** ** The seven kinds of entity *)
Definition candidate_for (fields : list (string * pyval)) (t : OrionEntityType) : option (ResolutionCandidate * string) :=
  match t with
  | ORION_AIRCRAFT => resolve_with resolve_aircraft REGISTRATION_FIELDS fields
  | ORION_OPERATOR => resolve_with resolve_operator OPERATOR_FIELDS fields
  | ORION_AIRCRAFT_TYPE => resolve_with resolve_aircraft_type AIRCRAFT_TYPE_FIELDS fields
  | ORION_MANUFACTURER => resolve_with resolve_manufacturer MANUFACTURER_FIELDS fields
  | ORION_AIRPORT => airport_of fields
  | ORION_COUNTRY => resolve_with resolve_country COUNTRY_FIELDS fields
  | ORION_INVESTIGATION_AGENCY => resolve_with resolve_investigation_agency AGENCY_FIELDS fields
  end.
(** The relationship an entity enters, and the kind of its subject; without one it is the event's own. *)
Definition relation_of (t : OrionEntityType) : OrionRelationshipType :=
  match t with
  | ORION_AIRCRAFT => INVOLVED_AIRCRAFT | ORION_OPERATOR => OPERATED_BY | ORION_AIRCRAFT_TYPE => OF_AIRCRAFT_TYPE
  | ORION_MANUFACTURER => MANUFACTURED_BY | ORION_AIRPORT => OCCURRED_AT | ORION_COUNTRY => LOCATED_IN
  | ORION_INVESTIGATION_AGENCY => INVESTIGATED_BY
  end.
Definition subject_of (t : OrionEntityType) : option OrionEntityType :=
  match t with
  | ORION_OPERATOR | ORION_AIRCRAFT_TYPE => Some ORION_AIRCRAFT
  | ORION_MANUFACTURER => Some ORION_AIRCRAFT_TYPE
  | ORION_COUNTRY => Some ORION_AIRPORT
  | _ => None
  end.
Definition kinds : list OrionEntityType :=
  [ORION_INVESTIGATION_AGENCY; ORION_COUNTRY; ORION_AIRPORT; ORION_MANUFACTURER; ORION_AIRCRAFT_TYPE; ORION_OPERATOR; ORION_AIRCRAFT].

Lemma name_candidate_spec t name ty conf canonical c : name_candidate t name ty conf canonical = Some c →
  rc_entity_type c = t ∧ is_Some (rc_primary c).
Proof.
  unfold name_candidate. destruct (blank (Some name)); [done|]. cbv zeta. destruct (str_empty (normalize_name name)); [done|].
  intros [= <-]. split; [done|by eexists].
Qed.
Lemma resolve_with_Some resolve names fields c f : resolve_with resolve names fields = Some (c, f) → ∃ v, resolve v = Some c.
Proof.
  unfold resolve_with. destruct (first_field fields names) as [[g v]|]; [|done]. cbn [mbind option_bind].
  destruct (resolve v) as [d|] eqn:E; [|done]. intros [= <- _]. by exists v.
Qed.
Lemma resolve_airport_spec airport_code name c : resolve_airport airport_code name = Some c →
  rc_entity_type c = ORION_AIRPORT ∧ is_Some (rc_primary c).
Proof.
  unfold resolve_airport. cbv zeta.
  destruct (if blank airport_code then None else airport_code) as [ac|], (if blank name then None else name) as [n|];
    try destruct (code_is_strong ac); intros [= <-]; (split; [done|by eexists]).
Qed.
Lemma candidate_for_spec fields t c f : candidate_for fields t = Some (c, f) → rc_entity_type c = t ∧ is_Some (rc_primary c).
Proof.
  destruct t; cbn [candidate_for].
  - intros (v & E)%resolve_with_Some. unfold resolve_aircraft in E. destruct (blank (Some v)); [done|]. cbv zeta in E.
    destruct (str_empty (normalize_registration v)); [done|]. injection E as <-. split; [done|by eexists].
  - intros (v & E)%resolve_with_Some. by eapply name_candidate_spec.
  - unfold airport_of. cbv zeta. destruct (resolve_airport _ _) as [d|] eqn:E; [|done]. intros [= <- _]. by eapply resolve_airport_spec.
  - intros (v & E)%resolve_with_Some. by eapply name_candidate_spec.
  - intros (v & E)%resolve_with_Some. by eapply name_candidate_spec.
  - intros (v & E)%resolve_with_Some. by eapply name_candidate_spec.
  - intros (v & E)%resolve_with_Some. unfold resolve_country in E.
    destruct (name_candidate _ _ _ _ _) as [d|] eqn:Ed; [|done]. injection E as <-.
    apply name_candidate_spec in Ed as [Et [p Ep]]. cbn [rc_entity_type rc_primary]. rewrite Ep. split; [done|by eexists].
Qed.

(** The entity found for each kind. *)
Abbreviation assignment := (OrionEntityType → option OrionEntity).
Definition nobody : assignment := λ _, None.
Definition assign (entity : assignment) (t : OrionEntityType) (o : option OrionEntity) : assignment :=
  λ u, if decide (u = t) then o else entity u.
Definition rel_for (entity : assignment) (t : OrionEntityType) : option (OrionRelationshipType * option UUID) :=
  match subject_of t with None => Some (relation_of t, None) | Some s => from (entity s) (relation_of t) end.

Lemma assign_eq entity t o : assign entity t o t = o.
Proof. unfold assign. by rewrite decide_True. Qed.
Lemma assign_ne entity t o u : u ≠ t → assign entity t o u = entity u.
Proof. intros H. unfold assign. by rewrite decide_False. Qed.
Lemma rel_for_assign entity t o u : subject_of u ≠ Some t → rel_for (assign entity t o) u = rel_for entity u.
Proof. intros H. unfold rel_for. destruct (subject_of u) as [s|]; [|done]. rewrite assign_ne; [done|congruence]. Qed.

Lemma filter_same {A} (P Q : A → Prop) `{∀ x, Decision (P x), ∀ x, Decision (Q x)} (l : list A) :
  (∀ x, x ∈ l → P x ↔ Q x) → filter P l = filter Q l.
Proof.
  intros HPQ. induction l as [|x l IH]; [done|]. rewrite !filter_cons, IH by (intros; apply HPQ; by right).
  destruct (decide (P x)) as [Hp|Hp], (decide (Q x)) as [Hq|Hq]; try done; exfalso; [apply Hq|apply Hp]; apply HPQ; try done; by left.
Qed.

Section run.
#[local] Set Default Proof Using "Type*".
Context `{LimitOne} (event_id : UUID) (fields : list (string * pyval)) (claims : list (string * Claim)).

(** What is stored for the kind [t], whose entity is [entity t]. *)
Definition settled (db0 db : DB) (entity : assignment) (t : OrionEntityType) : Prop :=
  match candidate_for fields t with
  | None => entity t = None
  | Some (c, f) => ∃ e p created, entity t = Some e ∧ rc_primary c = Some p ∧ Resolves db0 c p e created
      ∧ owned db (identity_of c p) e
      ∧ (∀ i, i ∈ rc_extras c → has_key ident_key (identity_of c i) (identifiers db))
      ∧ (∀ x, dict_get f claims = Some x → has_key claim_link_key (oe_id e, c_id x, event_id) (claim_links db))
      ∧ ∀ rt s, rel_for entity t = Some (rt, s) → has_key relationship_key (s, rt, oe_id e, event_id) (relationships db)
  end.
(** The rows a kind may add. *)
Definition created_for (db0 : DB) (entity : assignment) (t : OrionEntityType) (x : OrionEntity) : Prop :=
  ∃ c f p, candidate_for fields t = Some (c, f) ∧ rc_primary c = Some p ∧ entity t = Some x ∧ Resolves db0 c p x true.
Definition identifier_for (entity : assignment) (t : OrionEntityType) (x : OrionEntityIdentifier) : Prop :=
  ∃ c f p e, candidate_for fields t = Some (c, f) ∧ rc_primary c = Some p ∧ entity t = Some e
    ∧ (ident_row claims e p (Some f) x ∨ ∃ i, i ∈ rc_extras c ∧ ident_row claims e i None x).
Definition claim_link_for (entity : assignment) (t : OrionEntityType) (x : OrionEntityClaimLink) : Prop :=
  ∃ c f e, candidate_for fields t = Some (c, f) ∧ entity t = Some e ∧ claim_link_row event_id claims e f x.
Definition relationship_for (entity : assignment) (t : OrionEntityType) (x : OrionRelationship) : Prop :=
  ∃ c f e rt s, candidate_for fields t = Some (c, f) ∧ entity t = Some e ∧ rel_for entity t = Some (rt, s)
    ∧ rel_row event_id claims rt (oe_id e) s f x.

(** The state after the kinds of [ts]. *)
Record orion_extracted (ts : list OrionEntityType) (entity : assignment) (db0 : DB) (r : OrionExtractionResult) (db : DB) : Prop := {
  xt_same : same_but_orion db0 db;
  xt_settled t : t ∈ ts → settled db0 db entity t;
  xt_entities : added no_key (λ x, ∃ t, t ∈ ts ∧ created_for db0 entity t x) (entities db0) (entities db);
  xt_identifiers : added ident_key (λ x, ∃ t, t ∈ ts ∧ identifier_for entity t x) (identifiers db0) (identifiers db);
  xt_links : added claim_link_key (λ x, ∃ t, t ∈ ts ∧ claim_link_for entity t x) (claim_links db0) (claim_links db);
  xt_rels : added relationship_key (λ x, ∃ t, t ∈ ts ∧ relationship_for entity t x) (relationships db0) (relationships db);
  xt_created : ox_entities_created_count r = Z.of_nat (size (entities db)) - Z.of_nat (size (entities db0));
  xt_counted : ox_entities_created_count r + ox_entities_reused_count r
    = Z.of_nat (length (filter (λ t, is_Some (entity t)) ts));
  xt_related : ox_relationships_created_count r = Z.of_nat (size (relationships db)) - Z.of_nat (size (relationships db0));
}.

(** Kinds that were not looked at are as they were. *)
Lemma untouched ts entity db0 uid0 r db uid t : orion_ok db0 uid0 → orion_ok db uid → orion_extracted ts entity db0 r db → t ∉ ts →
  (∀ ty n x, owned db (t, ty, n) x ↔ owned db0 (t, ty, n) x) ∧ (∀ n x, named db t n x ↔ named db0 t n x).
Proof using.
  intros Hok0 Hok [_ Hset He Hi _ _ _ _ _] Ht.
  assert (∀ u e, u ∈ ts → entity u = Some e → is_Some (candidate_for fields u) → oe_entity_type e = u) as Htype.
  { intros u e Hu Ee [[c f] Ec]. pose proof (Hset u Hu) as Hs. unfold settled in Hs. rewrite Ec in Hs.
    destruct Hs as (e' & p & cr & Ee' & _ & _ & Ho & _). rewrite Ee in Ee'. injection Ee' as <-.
    rewrite (owned_type db uid Hok _ _ _ _ Ho). by apply candidate_for_spec in Ec as [-> _]. }
  pose proof He as [Hesub Henew]. pose proof Hi as [Hisub Hinew]. split.
  - intros ty n x. split; [|by apply owned_mono]. intros (Hx & j & i & Hj & Ek & Eo).
    destruct (Hinew j i Hj) as [Hj0|[(u & Hu & c & f & p & e & Ec & _ & Ee & Hrow) _]].
    + destruct (oo_owner _ _ Hok0 j i Hj0) as (_ & y & Hy & _). pose proof (lookup_weaken _ _ _ _ Hy Hesub) as Hy'.
      rewrite Eo, Hx in Hy'. injection Hy' as <-. rewrite Eo in Hy. split; [done|]. by exists j, i.
    + exfalso. apply Ht. assert (oi_entity_type i = oe_entity_type e) as Et
        by (destruct Hrow as [(? & ? & ->)|(? & _ & ? & ? & ->)]; done).
      injection Ek as Ek _ _. rewrite (Htype u e) in Et; [|done|done|by eexists]. congruence.
  - intros n x. split.
    + intros (Hx & Et & En). split; [|done]. destruct (Henew _ _ Hx) as [?|[(u & Hu & c & f & p & Ec & _ & Ee & _) _]]; [done|].
      exfalso. apply Ht. rewrite (Htype u x) in Et; [congruence|done|done|by eexists].
    + intros (Hx & ?). split; [by eapply lookup_weaken|done].
Qed.

Lemma resolves_earlier ts entity db0 uid0 r db uid c p e created : orion_ok db0 uid0 → orion_ok db uid →
  orion_extracted ts entity db0 r db → rc_entity_type c ∉ ts → Resolves db c p e created → Resolves db0 c p e created.
Proof using.
  intros Hok0 Hok He Ht Hr. destruct (untouched _ _ _ _ _ _ _ _ Hok0 Hok He Ht) as [Ho Hn].
  assert (∀ x, owned db (identity_of c p) x ↔ owned db0 (identity_of c p) x) as Ho' by (intros x; apply Ho).
  inversion Hr as [? H1|? H1 H2|? H1 H2 H3]; subst.
  - constructor. by apply Ho'.
  - constructor 2; [intros x; rewrite <- Ho'; apply H1|by apply Hn].
  - constructor 3; [intros x; rewrite <- Ho'; apply H1|intros x; rewrite <- Hn; apply H2|done].
Qed.

Lemma settled_later db0 db db' entity entity' t : entities db ⊆ entities db' → identifiers db ⊆ identifiers db' →
  claim_links db ⊆ claim_links db' → relationships db ⊆ relationships db' → entity' t = entity t → rel_for entity' t = rel_for entity t →
  settled db0 db entity t → settled db0 db' entity' t.
Proof using.
  intros He Hi Hl Hr E Er. unfold settled. rewrite E, Er. destruct (candidate_for fields t) as [[c f]|]; [|done].
  intros (e & p & cr & H1 & H2 & H3 & H4 & H5 & H6 & H7). exists e, p, cr. split_and!; try done.
  - by eapply owned_mono.
  - intros i Hx%H5. by eapply has_key_mono.
  - intros x Hx%H6. by eapply has_key_mono.
  - intros rt s Hx%H7. by eapply has_key_mono.
Qed.

(** What the database must accept of a kind. *)
Definition acceptable (t : OrionEntityType) : Prop :=
  ∀ c f p, candidate_for fields t = Some (c, f) → rc_primary c = Some p → candidate_fits c p.

Lemma added_weaken {A K} (key : A → option K) (new : OrionEntityType → A → Prop) (new' : OrionEntityType → A → Prop) t ts m m' m'' :
  (∀ u x, u ∈ ts → new u x → new' u x) →
  added key (λ x, ∃ u, u ∈ ts ∧ new u x) m m' → added key (new' t) m' m'' →
  added key (λ x, ∃ u, u ∈ t :: ts ∧ new' u x) m m''.
Proof using.
  intros Hn H1 H2. eapply added_trans; eapply added_mono; [|exact H1| |exact H2].
  - intros x (u & Hu & Hx). exists u. split; [by right|by apply Hn].
  - intros x Hx. exists t. split; [by left|done].
Qed.

(** The kinds before [t] keep what was found for them. *)
Lemma kept_by_assign (ts : list OrionEntityType) entity t o u : t ∉ ts → (∀ s, subject_of u = Some s → s ∈ ts) → u ∈ ts →
  assign entity t o u = entity u ∧ rel_for (assign entity t o) u = rel_for entity u.
Proof using.
  intros Ht Hs Hu. split; [apply assign_ne; intros ->; done|]. apply rel_for_assign. intros E. by apply Ht, Hs.
Qed.

(** One more kind. *)
Lemma extracted_next ts entity db0 uid0 r db uid t c p f e created r' db' :
  orion_ok db0 uid0 → orion_ok db uid → orion_extracted ts entity db0 r db → t ∉ ts →
  (∀ u s, u ∈ t :: ts → subject_of u = Some s → s ∈ ts) →
  candidate_for fields t = Some (c, f) → rc_primary c = Some p →
  extracted event_id claims c p f (rel_for entity t) db r e created r' db' →
  orion_extracted (t :: ts) (assign entity t (Some e)) db0 r' db'.
Proof using.
  intros Hok0 Hok Hx Ht Hsub Ec Ep Hs.
  assert (∀ u, u ∈ ts → assign entity t (Some e) u = entity u ∧ rel_for (assign entity t (Some e)) u = rel_for entity u) as Hkeep.
  { intros u Hu. apply (kept_by_assign ts); [done|intros s; apply Hsub; by right|done]. }
  assert (rel_for (assign entity t (Some e)) t = rel_for entity t) as Hrel.
  { apply rel_for_assign. intros E. apply Ht, (Hsub t); [by left|done]. }
  destruct (candidate_for_spec _ _ _ _ Ec) as [Ety _].
  assert (Resolves db0 c p e created) as Hres.
  { eapply resolves_earlier; [exact Hok0|exact Hok|exact Hx|by rewrite Ety|]. apply Hs. }
  destruct Hx as [X1 X2 X3 X4 X5 X6 X7 X8 X9], Hs as [S1 _ S3 S4 S5 S6 S7 S8 S9 S10 S11 S12 S13 S14 S15]. split.
  - by eapply same_but_orion_trans.
  - intros u [ ->|Hu]%elem_of_cons.
    + unfold settled. rewrite Ec, assign_eq, Hrel. by exists e, p, created.
    + destruct (Hkeep u Hu) as [E1 E2].
      eapply settled_later; [apply S4|apply S6|apply S8|apply S10|exact E1|exact E2|by apply X2].
  - eapply (added_weaken _ (created_for db0 entity)); [|exact X3|].
    + intros u x Hu (c' & f' & p' & ?). exists c', f', p'. by rewrite (proj1 (Hkeep u Hu)).
    + eapply added_mono; [|exact S4]. intros x [-> ->]. exists c, f, p. by rewrite assign_eq.
  - eapply (added_weaken _ (identifier_for entity)); [|exact X4|].
    + intros u x Hu (c' & f' & p' & e' & ?). exists c', f', p', e'. by rewrite (proj1 (Hkeep u Hu)).
    + eapply added_mono; [|exact S6]. intros x Hrow. exists c, f, p, e. by rewrite assign_eq.
  - eapply (added_weaken _ (claim_link_for entity)); [|exact X5|].
    + intros u x Hu (c' & f' & e' & ?). exists c', f', e'. by rewrite (proj1 (Hkeep u Hu)).
    + eapply added_mono; [|exact S8]. intros x Hrow. exists c, f, e. by rewrite assign_eq.
  - eapply (added_weaken _ (relationship_for entity)); [|exact X6|].
    + intros u x Hu (c' & f' & e' & rt & s & ?). exists c', f', e', rt, s. by rewrite (proj1 (Hkeep u Hu)), (proj2 (Hkeep u Hu)).
    + eapply added_mono; [|exact S10]. intros x (rt & s & ? & ?). exists c, f, e, rt, s. by rewrite assign_eq, Hrel.
  - rewrite S12, S14, X7. lia.
  - rewrite filter_cons, decide_True by (rewrite assign_eq; by eexists). cbn [length].
    rewrite (filter_same _ (λ u, is_Some (entity u)) ts); [|intros u Hu; by rewrite (proj1 (Hkeep u Hu))].
    rewrite S12, S13. destruct created; lia.
  - lia.
Qed.
Lemma extracted_none ts entity db0 r db t : orion_extracted ts entity db0 r db → t ∉ ts →
  (∀ u s, u ∈ t :: ts → subject_of u = Some s → s ∈ ts) → candidate_for fields t = None →
  orion_extracted (t :: ts) (assign entity t None) db0 r db.
Proof using.
  intros Hx Ht Hsub Ec.
  assert (∀ u, u ∈ ts → assign entity t None u = entity u ∧ rel_for (assign entity t None) u = rel_for entity u) as Hkeep.
  { intros u Hu. apply (kept_by_assign ts); [done|intros s; apply Hsub; by right|done]. }
  destruct Hx as [X1 X2 X3 X4 X5 X6 X7 X8 X9]. split; try done.
  - intros u [ ->|Hu]%elem_of_cons; [unfold settled; by rewrite Ec, assign_eq|].
    destruct (Hkeep u Hu) as [E1 E2]. eapply settled_later; [done|done|done|done|exact E1|exact E2|by apply X2].
  - eapply (added_weaken _ (created_for db0 entity)); [|exact X3|apply added_refl].
    intros u x Hu (c' & f' & p' & ?). exists c', f', p'. by rewrite (proj1 (Hkeep u Hu)).
  - eapply (added_weaken _ (identifier_for entity)); [|exact X4|apply added_refl].
    intros u x Hu (c' & f' & p' & e' & ?). exists c', f', p', e'. by rewrite (proj1 (Hkeep u Hu)).
  - eapply (added_weaken _ (claim_link_for entity)); [|exact X5|apply added_refl].
    intros u x Hu (c' & f' & e' & ?). exists c', f', e'. by rewrite (proj1 (Hkeep u Hu)).
  - eapply (added_weaken _ (relationship_for entity)); [|exact X6|apply added_refl].
    intros u x Hu (c' & f' & e' & rt & s & ?). exists c', f', e', rt, s. by rewrite (proj1 (Hkeep u Hu)), (proj2 (Hkeep u Hu)).
  - rewrite filter_cons, decide_False by (rewrite assign_eq; by intros [? ?]).
    by rewrite (filter_same _ (λ u, is_Some (entity u)) ts) by (intros u Hu; by rewrite (proj1 (Hkeep u Hu))).
Qed.
End run.

Section whole_run.
#[local] Set Default Proof Using "Type*".
Context `{LimitOne} (event_id : UUID) (fields : list (string * pyval)) (claims : list (string * Claim)).
Context (db0 : DB) (uid0 : N) (Hok0 : orion_ok db0 uid0) (Hclaims : claims_stored claims db0)
  (Hevent : is_Some (db_events db0 !! event_id)) (Hfits : ∀ t, acceptable fields t).
Abbreviation done_with := (orion_extracted event_id fields claims).

Lemma subject_stored ts entity r db t rt s : done_with ts entity db0 r db →
  (∀ s, subject_of t = Some s → s ∈ ts) → rel_for entity t = Some (rt, s) → known s (entities db) = true.
Proof using.
  intros Hx Hsub. unfold rel_for. destruct (subject_of t) as [u|] eqn:Eu; [|by intros [= <- <-]].
  unfold from. destruct (entity u) as [e|] eqn:Ee; [|done]. intros [= <- <-].
  pose proof (xt_settled _ _ _ _ _ _ _ _ Hx u (Hsub u eq_refl)) as Hs. unfold settled in Hs.
  destruct (candidate_for fields u) as [[c f]|]; [|congruence]. destruct Hs as (e' & p & cr & Ee' & _ & _ & [He _] & _).
  rewrite Ee in Ee'. injection Ee' as <-. apply bool_decide_true. by eexists.
Qed.

Lemma twp_kind t ts entity r (Q : option OrionEntity * OrionExtractionResult → DB → DB → Z → N → Prop) db com now uid :
  orion_ok db uid → done_with ts entity db0 r db → t ∉ ts → (∀ u s, u ∈ t :: ts → subject_of u = Some s → s ∈ ts) →
  (∀ o r' db' now' uid', orion_ok db' uid' → done_with (t :: ts) (assign entity t o) db0 r' db' → Q (o, r') db' com now' uid') →
  twp (extract_entity event_id claims (candidate_for fields t) (rel_for entity t) r) Q db com now uid.
Proof.
  intros Hok Hx Ht Hsub HQ. destruct (candidate_for fields t) as [[c f]|] eqn:Ec.
  - pose proof (candidate_for_spec _ _ _ _ Ec) as [_ [p Ep]]. pose proof (xt_same _ _ _ _ _ _ _ _ Hx) as Hsame.
    apply (twp_extract_entity event_id claims c p).
    + done.
    + by eapply claims_stored_same.
    + by destruct Hsame as [? ->].
    + done.
    + by eapply (Hfits t).
    + intros rt s. apply (subject_stored ts entity r); [done|]. intros u. apply Hsub. by left.
    + intros e created r' db' now' uid' Hok' Hs. apply HQ; [done|].
      exact (extracted_next event_id fields claims _ _ _ _ _ _ _ _ _ _ _ _ _ _ _ Hok0 Hok Hx Ht Hsub Ec Ep Hs).
  - apply twp_ret, HQ; [done|]. by apply extracted_none.
Qed.

Lemma nothing_extracted : done_with [] nobody db0 (mkOrionExtraction event_id 0 0 0 [] []) db0.
Proof using.
  split; try apply added_refl; try (cbn; lia); [apply same_but_orion_refl|by intros t ?%elem_of_nil].
Qed.
End whole_run.

(** The subjects come before. *)
Definition subject_in (ts : list OrionEntityType) (u : OrionEntityType) : bool :=
  match subject_of u with Some s => bool_decide (s ∈ ts) | None => true end.
Lemma subjects_first t ts : forallb (subject_in ts) (t :: ts) = true → ∀ u s, u ∈ t :: ts → subject_of u = Some s → s ∈ ts.
Proof.
  intros Hall u s Hu Es. rewrite forallb_forall in Hall. apply list_elem_of_In, Hall in Hu. unfold subject_in in Hu.
  rewrite Es in Hu. by apply bool_decide_eq_true in Hu.
Qed.

Section execution.
#[local] Set Default Proof Using "Type*".
Context `{LimitOne}.

(** Every planned entity fits its columns. *)
Definition plan_fits (fields : list (string * pyval)) : Prop := ∀ t, acceptable fields t.

Lemma twp_orion_execute event_id p db now uid :
  db_projections db !! event_id = Some p → is_Some (db_events db !! event_id) →
  orion_ok db uid → claims_referenced db → plan_fits (pj_fields p) →
  twp (execute event_id) (λ r db' com' _ uid', com' = db' ∧ orion_ok db' uid' ∧
    ∃ entity, orion_extracted event_id (pj_fields p) (supports event_id (pj_fields p) db) kinds entity db r db') db db now uid.
Proof.
  intros Hp Hev Hok Hc Hfit. unfold execute, ProjectionRepo.get. cbv zeta. do 2 twp_step. rewrite Hp.
  apply twp_bind, twp_supports. set (fields := pj_fields p). set (claims := supports event_id fields db).
  assert (claims_stored claims db) as Hcl by (intros f c; by apply supports_known).
  assert (∀ t ts entity r (Q : option OrionEntity * OrionExtractionResult → DB → DB → Z → N → Prop) d n u,
    orion_ok d u → orion_extracted event_id fields claims ts entity db r d →
    bool_decide (t ∉ ts) = true → forallb (subject_in ts) (t :: ts) = true →
    (∀ o r' db' now' uid', orion_ok db' uid' → orion_extracted event_id fields claims (t :: ts) (assign entity t o) db r' db' →
       Q (o, r') db' db now' uid') →
    twp (extract_entity event_id claims (candidate_for fields t) (rel_for entity t) r) Q d db n u) as Hstep.
  { intros t ts entity r Q d n u Hd Hx Ht%bool_decide_eq_true Hs HQ.
    apply (twp_kind event_id fields claims db uid Hok Hcl Hev Hfit t ts);
      [exact Hd|exact Hx|exact Ht|by apply subjects_first|exact HQ]. }
  pose proof (nothing_extracted event_id fields claims db) as Hx0.
  apply twp_bind, (Hstep ORION_AIRCRAFT _ _ _ _ _ _ _ Hok Hx0 eq_refl eq_refl). intros o1 r1 d1 n1 u1 Hk1 Hx1. cbn beta iota.
  apply twp_bind, (Hstep ORION_OPERATOR _ _ _ _ _ _ _ Hk1 Hx1 eq_refl eq_refl). intros o2 r2 d2 n2 u2 Hk2 Hx2. cbn beta iota.
  apply twp_bind, (Hstep ORION_AIRCRAFT_TYPE _ _ _ _ _ _ _ Hk2 Hx2 eq_refl eq_refl). intros o3 r3 d3 n3 u3 Hk3 Hx3. cbn beta iota.
  apply twp_bind, (Hstep ORION_MANUFACTURER _ _ _ _ _ _ _ Hk3 Hx3 eq_refl eq_refl). intros o4 r4 d4 n4 u4 Hk4 Hx4. cbn beta iota.
  apply twp_bind, (Hstep ORION_AIRPORT _ _ _ _ _ _ _ Hk4 Hx4 eq_refl eq_refl). intros o5 r5 d5 n5 u5 Hk5 Hx5. cbn beta iota.
  apply twp_bind, (Hstep ORION_COUNTRY _ _ _ _ _ _ _ Hk5 Hx5 eq_refl eq_refl). intros o6 r6 d6 n6 u6 Hk6 Hx6. cbn beta iota.
  apply twp_bind, (Hstep ORION_INVESTIGATION_AGENCY _ _ _ _ _ _ _ Hk6 Hx6 eq_refl eq_refl). intros o7 r7 d7 n7 u7 Hk7 Hx7. cbn beta iota.
  twp_go. split; [done|]. split; [done|]. by eexists.
Qed.
End execution.

Lemma orion_tables_eq db db' : same_but_orion db db' → entities db' = entities db → identifiers db' = identifiers db →
  relationships db' = relationships db → claim_links db' = claim_links db → db' = db.
Proof.
  intros [t ->]. unfold entities, identifiers, relationships, claim_links. change (db_orion (upd_orion (λ _, t) db)) with t.
  intros E1 E2 E3 E4. destruct t, db as [? ? ? ? ? ? ? ? ? ? ? ? ? ? ? ? ? ? ? ? ? []]. simpl in *. by subst.
Qed.
Lemma kinds_all t : t ∈ kinds.
Proof. unfold kinds. destruct t; set_solver. Qed.

Section again.
#[local] Set Default Proof Using "Type*".
Context (event_id : UUID) (fields : list (string * pyval)) (claims : list (string * Claim)).
Context (db db1 db2 : DB) (uid1 uid2 : N) (entity1 entity2 : assignment) (r1 r2 : OrionExtractionResult).
Context (Hok1 : orion_ok db1 uid1) (Hok2 : orion_ok db2 uid2)
  (H1 : orion_extracted event_id fields claims kinds entity1 db r1 db1)
  (H2 : orion_extracted event_id fields claims kinds entity2 db1 r2 db2).

Lemma settled_first t c f : candidate_for fields t = Some (c, f) → settled event_id fields claims db db1 entity1 t.
Proof using H1. intros _. apply H1, kinds_all. Qed.
Lemma found_type t c f e : candidate_for fields t = Some (c, f) → entity2 t = Some e → oe_entity_type e = rc_entity_type c.
Proof using H2 Hok2.
  intros Ec Ee. pose proof (xt_settled _ _ _ _ _ _ _ _ H2 t (kinds_all t)) as Hs. unfold settled in Hs. rewrite Ec in Hs.
  destruct Hs as (e' & p & cr & Ee' & _ & _ & Ho & _). rewrite Ee in Ee'. injection Ee' as <-. by eapply owned_type.
Qed.

Lemma entities_again : entities db2 = entities db1.
Proof using H1 H2.
  apply (anti_symm (⊆)); [|apply H2]. apply map_subseteq_spec. intros k x Hx.
  destruct (xt_entities _ _ _ _ _ _ _ _ H2) as [_ Hn]. destruct (Hn k x Hx) as [?|[(t & _ & c & f & p & Ec & Ep & _ & Hr) _]]; [done|].
  exfalso. pose proof (settled_first t c f Ec) as Hs. unfold settled in Hs. rewrite Ec in Hs.
  destruct Hs as (e & p' & cr & _ & Ep' & _ & Ho & _). rewrite Ep in Ep'. injection Ep' as <-.
  inversion Hr as [| |? Hno _ _]; subst. by apply (Hno e).
Qed.
Lemma identifiers_again : identifiers db2 = identifiers db1.
Proof using H1 H2 Hok1 Hok2.
  eapply added_nothing; [|apply H2]. intros x (t & _ & c & f & p & e & Ec & Ep & Ee & Hrow).
  pose proof (found_type t c f e Ec Ee) as Et. pose proof (settled_first t c f Ec) as Hs. unfold settled in Hs. rewrite Ec in Hs.
  destruct Hs as (e1 & p' & cr & _ & Ep' & _ & Ho & Hx & _). rewrite Ep in Ep'. injection Ep' as <-.
  destruct Hrow as [(id & now & ->)|(i & Hi & id & now & ->)].
  - exists (identity_of c p). split; [unfold identity_of; by rewrite <- Et|]. apply (owned_key db1 uid1 Hok1). by eexists.
  - exists (identity_of c i). split; [unfold identity_of; by rewrite <- Et|]. by apply Hx.
Qed.
Lemma entity_again t : entity2 t = entity1 t.
Proof using H1 H2 Hok1 Hok2.
  pose proof (xt_settled _ _ _ _ _ _ _ _ H1 t (kinds_all t)) as Hs1. pose proof (xt_settled _ _ _ _ _ _ _ _ H2 t (kinds_all t)) as Hs2.
  unfold settled in *. destruct (candidate_for fields t) as [[c f]|]; [|congruence].
  destruct Hs1 as (e & p & cr & -> & Ep & _ & Ho & _), Hs2 as (e' & p' & cr' & -> & Ep' & _ & Ho' & _). rewrite Ep in Ep'. injection Ep' as <-.
  f_equal. unfold owned in Ho'. rewrite entities_again, identifiers_again in Ho'. by eapply (owned_unique db1).
Qed.
Lemma rel_for_again t : rel_for entity2 t = rel_for entity1 t.
Proof using H1 H2 Hok1 Hok2. unfold rel_for. destruct (subject_of t); [by rewrite entity_again|done]. Qed.

(** A second extraction from what the first one left adds nothing. *)
Lemma extracted_twice : db2 = db1.
Proof using H1 H2 Hok1 Hok2.
  apply orion_tables_eq; [apply H2|apply entities_again|apply identifiers_again| |].
  - eapply added_nothing; [|apply H2]. intros x (t & _ & c & f & e & rt & s & Ec & Ee & Er & id & now & ->).
    rewrite entity_again in Ee. rewrite rel_for_again in Er.
    pose proof (settled_first t c f Ec) as Hs. unfold settled in Hs. rewrite Ec in Hs.
    destruct Hs as (e1 & p' & cr & Ee1 & _ & _ & _ & _ & _ & Hr). rewrite Ee in Ee1. injection Ee1 as <-.
    exists (s, rt, oe_id e, event_id). split; [done|]. by apply Hr.
  - eapply added_nothing; [|apply H2]. intros x (t & _ & c & f & e & Ec & Ee & id & now & claim & Ecl & ->).
    rewrite entity_again in Ee. pose proof (settled_first t c f Ec) as Hs. unfold settled in Hs. rewrite Ec in Hs.
    destruct Hs as (e1 & p' & cr & Ee1 & _ & _ & _ & _ & Hl & _). rewrite Ee in Ee1. injection Ee1 as <-.
    exists (oe_id e, c_id claim, event_id). split; [done|]. by apply Hl.
Qed.
End again.

(** C40: an extraction of entities, run alone over well-formed tables, returns and commits,
    and changes the tables of Orion alone.  For each kind of entity the projection names,
    the entity found is the one that owns the identifier, else one of that name, else a new
    one, and from then on it owns the identifier; every further identifier has an owner;
    the claim that supports the field is linked to it; and it stands in its relationship to
    the event, or to the entity before it.  No other row is added and none is changed, and
    the counters count the rows. *)
Theorem orion_extraction_effect `{LimitOne} event_id p db now uid :
  db_projections db !! event_id = Some p → is_Some (db_events db !! event_id) →
  orion_ok db uid → claims_referenced db → plan_fits (pj_fields p) →
  ∃ r entity db' now' uid', execute event_id (session db db now uid) = (Ok r, session db' db' now' uid')
    ∧ orion_ok db' uid'
    ∧ orion_extracted event_id (pj_fields p) (supports event_id (pj_fields p) db) kinds entity db r db'.
Proof.
  intros Hp Hev Hok Hc Hs. destruct (twp_orion_execute event_id p db now uid Hp Hev Hok Hc Hs)
    as (r & db' & com' & now' & uid' & E & -> & Hok' & entity & Hx). by exists r, entity, db', now', uid'.
Qed.

(** How an accident is related to an entity of kind [t] it names: directly, or through the
    entity of the subject kind -- the aircraft of an operator or a type, the type of a
    manufacturer, the airport of a country -- when it names that one too.  An accident that
    does not name the subject is not related to the entity at all. *)
Definition stands_related (event_id : UUID) (fields : list (string * pyval)) (db : DB) (t : OrionEntityType)
    (e : OrionEntity) : Prop :=
  match subject_of t with
  | None => has_key relationship_key (None, relation_of t, oe_id e, event_id) (relationships db)
  | Some s => ∀ c f q, candidate_for fields s = Some (c, f) → rc_primary c = Some q →
      ∃ x, owned db (s, is_type q, is_norm q) x
        ∧ has_key relationship_key (Some (oe_id x), relation_of t, oe_id e, event_id) (relationships db)
  end.

Lemma settled_related event_id fields claims db0 db entity t c f e :
  (∀ u, settled event_id fields claims db0 db entity u) → candidate_for fields t = Some (c, f) → entity t = Some e →
  stands_related event_id fields db t e.
Proof.
  intros Hs Ec Ee. pose proof (Hs t) as Ht. unfold settled in Ht. rewrite Ec in Ht.
  destruct Ht as (e' & p & cr & Ee' & _ & _ & _ & _ & _ & Hr). rewrite Ee in Ee'. injection Ee' as <-.
  unfold stands_related, rel_for in *. destruct (subject_of t) as [s|]; [|by apply Hr].
  intros c' f' q Ec' Eq. pose proof (Hs s) as Hsub. unfold settled in Hsub. rewrite Ec' in Hsub.
  destruct Hsub as (x & q' & cr' & Ex & Eq' & _ & Ho & _). rewrite Eq in Eq'. injection Eq' as <-.
  exists x. destruct (candidate_for_spec _ _ _ _ Ec') as [Et _]. unfold identity_of in Ho. rewrite Et in Ho.
  split; [done|]. apply Hr. by rewrite Ex.
Qed.
Lemma related_mono event_id fields db db' t e :
  entities db ⊆ entities db' → identifiers db ⊆ identifiers db' → relationships db ⊆ relationships db' →
  stands_related event_id fields db t e → stands_related event_id fields db' t e.
Proof.
  intros He Hi Hr. unfold stands_related. destruct (subject_of t) as [s|].
  - intros H c f q Ec Eq. destruct (H c f q Ec Eq) as (x & Ho & Hk). exists x.
    split; [by eapply owned_mono|by eapply has_key_mono].
  - by apply has_key_mono.
Qed.

(** C39: an identifier names one entity: when two accidents, extracted at any two times with
    rows only added in between, name entities of one kind -- any of the seven -- by texts
    with one normal form, both mean the same entity, the one that owns the identifier.  Each
    accident is related to it: an aircraft, an airport or an agency directly, an operator, a
    type, a manufacturer or a country through its subject, when the accident names the
    subject; nothing is said of the relationships of one whose subject is not named.  And
    extracting an accident again, with
    nothing changed in between, changes nothing. *)
Theorem identifiers_identify `{LimitOne} event_id1 p1 db1 now1 uid1 r1 db1' now1' uid1' event_id2 p2 db2 now2 uid2 :
  db_projections db1 !! event_id1 = Some p1 → is_Some (db_events db1 !! event_id1) →
  orion_ok db1 uid1 → claims_referenced db1 → plan_fits (pj_fields p1) →
  execute event_id1 (session db1 db1 now1 uid1) = (Ok r1, session db1' db1' now1' uid1') →
  (∃ r now uid, execute event_id1 (session db1' db1' now1' uid1') = (Ok r, session db1' db1' now uid))
  ∧ (db_projections db2 !! event_id2 = Some p2 → is_Some (db_events db2 !! event_id2) →
     orion_ok db2 uid2 → claims_referenced db2 → plan_fits (pj_fields p2) →
     entities db1' ⊆ entities db2 → identifiers db1' ⊆ identifiers db2 → relationships db1' ⊆ relationships db2 →
     ∀ r2 db2' now2' uid2', execute event_id2 (session db2 db2 now2 uid2) = (Ok r2, session db2' db2' now2' uid2') →
     ∀ t c1 f1 c2 f2 q1 q2, candidate_for (pj_fields p1) t = Some (c1, f1) → candidate_for (pj_fields p2) t = Some (c2, f2) →
       rc_primary c1 = Some q1 → rc_primary c2 = Some q2 → is_type q1 = is_type q2 → is_norm q1 = is_norm q2 →
       ∃ e, owned db2' (t, is_type q1, is_norm q1) e
         ∧ (∀ e', owned db2' (t, is_type q1, is_norm q1) e' → e' = e)
         ∧ stands_related event_id1 (pj_fields p1) db2' t e
         ∧ stands_related event_id2 (pj_fields p2) db2' t e).
Proof.
  intros Hp Hev Hok Hc Hs E1.
  destruct (twp_orion_execute event_id1 p1 db1 now1 uid1 Hp Hev Hok Hc Hs) as (r & d & c & n & u & E & -> & Hok1 & entity1 & H1).
  pose proof (eq_trans (eq_sym E1) E) as E0. unfold session in E0. injection E0 as <- <- _ <- <-. clear E1 E.
  split.
  - destruct (xt_same _ _ _ _ _ _ _ _ H1) as [t Et].
    destruct (twp_orion_execute event_id1 p1 db1' now1' uid1') as (r2 & d & c & n & u & E & -> & Hok2 & entity2 & H2);
      [by rewrite Et|by rewrite Et|done|by rewrite Et|done|].
    assert (supports event_id1 (pj_fields p1) db1' = supports event_id1 (pj_fields p1) db1) as Esup by (by rewrite Et).
    rewrite Esup in H2. rewrite (extracted_twice _ _ _ _ _ _ _ _ _ _ _ _ Hok1 Hok2 H1 H2) in E. by exists r2, n, u.
  - intros Hp2 Hev2 Hokb Hc2 Hs2 He Hi Hr r2 db2' now2' uid2' E2 t c1 f1 c2 f2 q1 q2 Ec1 Ec2 Eq1 Eq2 Ety En.
    destruct (twp_orion_execute event_id2 p2 db2 now2 uid2 Hp2 Hev2 Hokb Hc2 Hs2) as (r' & d & c & n & u & E & -> & Hok2 & entity2 & H2).
    pose proof (eq_trans (eq_sym E2) E) as E0. unfold session in E0. injection E0 as <- <- _ <- <-. clear E2 E.
    pose proof (λ u, xt_settled _ _ _ _ _ _ _ _ H1 u (kinds_all u)) as S1.
    pose proof (λ u, xt_settled _ _ _ _ _ _ _ _ H2 u (kinds_all u)) as S2.
    pose proof (S1 t) as T1. pose proof (S2 t) as T2.
    unfold settled in T1, T2. rewrite Ec1 in T1. rewrite Ec2 in T2.
    destruct T1 as (e & q & cr & Ee1 & Eq & _ & Ho1 & _), T2 as (e' & q' & cr' & Ee2 & Eq' & _ & Ho2 & _).
    rewrite Eq1 in Eq. injection Eq as <-. rewrite Eq2 in Eq'. injection Eq' as <-.
    destruct (candidate_for_spec _ _ _ _ Ec1) as [Et1 _], (candidate_for_spec _ _ _ _ Ec2) as [Et2 _].
    unfold identity_of in Ho1, Ho2. rewrite Et1 in Ho1. rewrite Et2, <- Ety, <- En in Ho2.
    destruct (xt_entities _ _ _ _ _ _ _ _ H2) as [He2 _], (xt_identifiers _ _ _ _ _ _ _ _ H2) as [Hi2 _], (xt_rels _ _ _ _ _ _ _ _ H2) as [Hr2 _].
    apply (owned_mono _ db2') in Ho1; [|by etrans|by etrans].
    pose proof (owned_unique db2' _ Hok2 _ _ _ Ho1 Ho2) as <-. exists e. split_and!; [done| | |].
    + intros e' He'. by apply (owned_unique db2' _ Hok2 _ _ _ He' Ho1).
    + eapply related_mono; [| | |by eapply settled_related]; by etrans.
    + by eapply settled_related.
Qed.

(** ** Two accidents of one aircraft *)
Definition plan_fits_check (fields : list (string * pyval)) : bool :=
  forallb (λ t, match candidate_for fields t with
                | Some (c, _) => fits 500 (rc_canonical_name c) && from_option spec_fits true (rc_primary c) && forallb spec_fits (rc_extras c)
                | None => true
                end) kinds.
Lemma plan_fits_of fields : plan_fits_check fields = true → plan_fits fields.
Proof.
  intros Hall t c f p Ec Ep. unfold plan_fits_check in Hall. rewrite forallb_forall in Hall.
  specialize (Hall t (proj1 (list_elem_of_In _ _) (kinds_all t))). rewrite Ec, Ep in Hall. cbn [from_option] in Hall.
  apply andb_true_iff in Hall as [[H1 H2]%andb_true_iff H3]. split_and!; [done|done|].
  apply Forall_forall. intros i Hi. rewrite forallb_forall in H3. by apply H3, list_elem_of_In.
Qed.
Lemma orion_ok_empty db uid : db_orion db = no_entities → orion_ok db uid.
Proof.
  intros E. assert (entities db = ∅ ∧ identifiers db = ∅ ∧ relationships db = ∅ ∧ claim_links db = ∅) as (E1 & E2 & E3 & E4)
    by (unfold entities, identifiers, relationships, claim_links; by rewrite E).
  split; rewrite ?E1, ?E2, ?E3, ?E4; try (split; done); try done; intros k [x Hx]; done.
Qed.

#[local] Instance first_row : LimitOne.
Proof.
  refine {| limit_one := head |}.
  - intros [|x l] y; [done|]. intros [= ->]. by left.
  - by intros [|x l].
Defined.
Definition sample_fields (registration : string) : list (string * pyval) :=
  [("registration", PStr registration); ("operator", PStr "ACME  Air"); ("aircraft_type", PStr "B738"); ("manufacturer", PStr "Boeing");
   ("airport", PStr "egll"); ("location", PStr "London"); ("country", PStr "united kingdom"); ("agency", PStr "__DISPUTED__")].
Definition sample_accident (id : UUID) (registration : string) : ProjectedAccidentRecord :=
  mkProjection id 1 (sample_fields registration) f_zero [] 0.
Definition sample_two : DB :=
  upd_projections <[1%N := sample_accident 1 "N-123AB"]> (upd_projections <[2%N := sample_accident 2 " n 123 ab"]>
    (upd_events <[1%N := mkEvent 1 0 None]> (upd_events <[2%N := mkEvent 2 0 None]>
    (upd_sources <[11%N := mkSource 11 "Press" EXTERNAL 5 []]>
    (upd_claims <[21%N := mkClaim 21 1 11 None "operator" (PStr "ACME  Air") RAW 0 None None]> empty_db))))).
Lemma sample_two_referenced : claims_referenced sample_two.
Proof.
  intros k c H. change (db_claims sample_two) with (<[21%N := mkClaim 21 1 11 None "operator" (PStr "ACME  Air") RAW 0 None None]> (∅ : gmap UUID Claim)) in H.
  apply lookup_insert_Some in H as [[<- <-]|[_ H]]; [|done]. split_and!; [reflexivity|reflexivity|by eexists].
Qed.
Lemma sample_fits1 : plan_fits (pj_fields (sample_accident 1 "N-123AB")).
Proof. apply plan_fits_of. vm_compute. reflexivity. Qed.
Lemma sample_fits2 : plan_fits (pj_fields (sample_accident 2 " n 123 ab")).
Proof. apply plan_fits_of. vm_compute. reflexivity. Qed.

Lemma orion_extraction_effect_witness : ∃ r entity db' now' uid',
  execute 1 (session sample_two sample_two 100 50) = (Ok r, session db' db' now' uid')
  ∧ orion_extracted 1 (sample_fields "N-123AB") (supports 1 (sample_fields "N-123AB") sample_two) kinds entity sample_two r db'.
Proof.
  destruct (orion_extraction_effect 1 (sample_accident 1 "N-123AB") sample_two 100 50 eq_refl (ex_intro _ _ eq_refl)
    (orion_ok_empty sample_two 50 eq_refl) sample_two_referenced sample_fits1) as (r & entity & db' & n & u & E & _ & H).
  exists r, entity, db', n, u. exact (conj E H).
Defined.

Lemma identifiers_identify_witness : ∃ r1 db1 n1 u1 r2 db2 n2 u2 e,
  execute 1 (session sample_two sample_two 100 50) = (Ok r1, session db1 db1 n1 u1)
  ∧ execute 2 (session db1 db1 n1 u1) = (Ok r2, session db2 db2 n2 u2)
  ∧ owned db2 (ORION_AIRCRAFT, "registration", "n123ab") e
  ∧ has_key relationship_key (None, INVOLVED_AIRCRAFT, oe_id e, 1%N) (relationships db2)
  ∧ has_key relationship_key (None, INVOLVED_AIRCRAFT, oe_id e, 2%N) (relationships db2).
Proof.
  destruct (twp_orion_execute 1 (sample_accident 1 "N-123AB") sample_two 100 50 eq_refl (ex_intro _ _ eq_refl)
    (orion_ok_empty sample_two 50 eq_refl) sample_two_referenced sample_fits1) as (r1 & db1 & c & n1 & u1 & E1 & -> & Hok1 & entity1 & H1).
  pose proof (xt_same _ _ _ _ _ _ _ _ H1) as [t Et].
  assert (db_projections db1 !! 2%N = Some (sample_accident 2 " n 123 ab")) as Hp2 by (rewrite Et; reflexivity).
  assert (is_Some (db_events db1 !! 2%N)) as Hev2 by (rewrite Et; by eexists).
  assert (claims_referenced db1) as Hc2 by (rewrite Et; exact sample_two_referenced).
  destruct (twp_orion_execute 2 (sample_accident 2 " n 123 ab") db1 n1 u1 Hp2 Hev2 Hok1 Hc2 sample_fits2)
    as (r2 & db2 & c & n2 & u2 & E2 & -> & _).
  destruct (identifiers_identify 1 (sample_accident 1 "N-123AB") sample_two 100 50 r1 db1 n1 u1
    2 (sample_accident 2 " n 123 ab") db1 n1 u1 eq_refl (ex_intro _ _ eq_refl)
    (orion_ok_empty sample_two 50 eq_refl) sample_two_referenced sample_fits1 E1) as [_ Hsame].
  destruct (Hsame Hp2 Hev2 Hok1 Hc2 sample_fits2 (reflexivity _) (reflexivity _) (reflexivity _) r2 db2 n2 u2 E2 ORION_AIRCRAFT
    (mkCandidate ORION_AIRCRAFT "N-123AB" (Some (mkIdent "registration" "N-123AB" "n123ab" (hundredth 98))) [] (hundredth 85)) "registration"
    (mkCandidate ORION_AIRCRAFT "N 123 AB" (Some (mkIdent "registration" "n 123 ab" "n123ab" (hundredth 98))) [] (hundredth 85)) "registration"
    _ _ ltac:(vm_compute; reflexivity) ltac:(vm_compute; reflexivity) eq_refl eq_refl eq_refl eq_refl) as (e & Ho & _ & R1 & R2).
  exists r1, db1, n1, u1, r2, db2, n2, u2, e. exact (conj E1 (conj E2 (conj Ho (conj R1 R2)))).
Defined.

(** Six entities, seven identifiers (the airport has two), six relationships and one claim
    link of the first accident; the second one adds its six relationships to the same entities. *)
Example sample_registry :
  let '(_, w) := execute 1 (session sample_two sample_two 100 50) in
  let '(_, w') := execute 2 w in
  let count w := (size (entities (w_committed w)), size (identifiers (w_committed w)), size (relationships (w_committed w)),
                  size (claim_links (w_committed w))) in
  (count w, count w') = ((6, 7, 6, 1), (6, 7, 12, 1))%nat.
Proof. vm_compute. reflexivity. Qed.

(** ** Oddities *)

(** An airport named by the location carries the claim of the airport field. *)
Definition airport_claim : Claim := mkClaim 31 1 11 None "airport" (PStr "Heathrow Airport") RAW 0 None None.
Definition location_claim : Claim := mkClaim 32 1 11 None "location" (PStr "London") RAW 0 None None.
Definition sample_airport : DB :=
  upd_projections <[1%N := mkProjection 1 1 [("airport", PStr "Heathrow Airport"); ("location", PStr "London")] f_zero [] 0]>
    (upd_events <[1%N := mkEvent 1 0 None]> (upd_sources <[11%N := mkSource 11 "Press" EXTERNAL 5 []]>
      (upd_claims <[31%N := airport_claim]> (upd_claims <[32%N := location_claim]> empty_db)))).
Example location_with_the_claim_of_the_airport :
  (let '(_, w) := execute 1 (session sample_airport sample_airport 100 50) in
   (λ i, (oi_identifier_value i, oi_source_claim_id i)) <$> rows (identifiers (w_committed w)))
  = [("Heathrow Airport", None); ("London", Some 31%N)].
Proof. vm_compute. reflexivity. Qed.

(** A name with two spaces in a row is not found by its name: it is compared with the name
    in which they are collapsed. *)
Example spaced_name_is_not_found :
  let e := mkOrionEntity 40 ORION_OPERATOR "ACME  Air" ENTITY_ACTIVE f_zero None 0 0 in
  let db := set_entities {[40%N := e]} empty_db in
  entities_named ORION_OPERATOR (normalize_name "ACME  Air") db = [].
Proof. vm_compute. reflexivity. Qed.

(** An entity found by its name whose identifier was ended cannot have it again: the insert
    gives way to active identifiers only, and the extraction is lost. *)
Definition ended : DB :=
  set_identifiers {[41%N := mkOrionIdentifier 41 40 ORION_OPERATOR "name" "ACME" "acme" None None f_zero None (Some 5) 0]}
    (set_entities {[40%N := mkOrionEntity 40 ORION_OPERATOR "ACME" ENTITY_ACTIVE f_zero None 0 0]}
      (upd_projections <[1%N := mkProjection 1 1 [("operator", PStr "ACME")] f_zero [] 0]>
        (upd_events <[1%N := mkEvent 1 0 None]> empty_db))).
Example ended_identifier_blocks :
  (execute 1 (session ended ended 100 50)).1 = Raise (IntegrityError "uq_orion_entity_identifiers_entity_type_norm").
Proof. vm_compute. reflexivity. Qed.
