(* ===== verification/Echo.v ===== *)
(** Echo: the public precedents of a private hazard report.  The profile of a hazard
    (domain/crossref/entities.py, profile.py), the records of the public corpus
    (application/crossref/__init__.py), the matcher (domain/services/echo_matcher.py) and
    the stored form of a match (application/use_cases/echo_crossref.py). *)
From Stdlib Require Import Ascii.
From S2P Require Import Prelude Text PyFloat PyVal Entities ContextEntities Store HermesContent.
From stdpp Require Import gmap sets strings.
From stdpp Require Import list.
Open Scope string_scope.
Open Scope list_scope.
Open Scope Z_scope.

(** ** domain/crossref/entities.py *)
Inductive EvidenceSupport := STRONG | MODERATE | WEAK | NO_SUPPORT.
#[export] Instance EvidenceSupport_eq_dec : EqDecision EvidenceSupport.
Proof. solve_decision. Defined.
Definition support_value (s : EvidenceSupport) : string :=
  match s with STRONG => "STRONG" | MODERATE => "MODERATE" | WEAK => "WEAK" | NO_SUPPORT => "NONE" end.

Record HazardProfile := mkProfile {
  hp_finding_categories : gset string;
  hp_far_part : option string;
  hp_aircraft_category : option string;
  hp_severity : option string;
  hp_terms : gset string;
}.
Definition text_truthy (o : option string) : bool := from_option (λ s, negb (str_empty s)) false o.
Definition is_empty (p : HazardProfile) : bool :=
  negb (negb (bool_decide (hp_finding_categories p = ∅)) || negb (bool_decide (hp_terms p = ∅))
        || text_truthy (hp_far_part p) || text_truthy (hp_aircraft_category p) || text_truthy (hp_severity p)).

(** The attributes and display values of a record are what the claims hold. *)
Record PrecedentRecord := mkPrecedent {
  pr_event_id : string;
  pr_finding_categories : gset string;
  pr_far_part : option pyval;
  pr_aircraft_category : option pyval;
  pr_severity : option string;
  pr_terms : gset string;
  pr_occurred_on : option pyval;
  pr_location : option string;
  pr_aircraft : option string;
  pr_probable_cause : option string;
}.
Record MatchComponent := mkComponent {
  mc_name : string;
  mc_weight : float;
  mc_score : float;
  mc_detail : string;
}.
Record PrecedentMatch := mkMatch {
  pm_event_id : string;
  pm_score : float;
  pm_support : EvidenceSupport;
  pm_components : list MatchComponent;
  pm_shared_finding_categories : gset string;
  pm_shared_terms : gset string;
  pm_occurred_on : option pyval;
  pm_location : option string;
  pm_aircraft : option string;
  pm_probable_cause : option string;
}.

(** ** domain/crossref/profile.py *)
Definition STOPWORDS : gset string := list_to_set (str_split
  "a an the and or but if then else of to in on at by for with without from into over under again further once is are was were be been being have has had do does did this that these those it its as not no nor so than too very can will just during about above below up down out off who whom which what when where why how pilot aircraft airplane flight flew flying plane reported report during near").

(** [_TOKEN_RE.findall]: a letter, then at least two of letters, digits and hyphens, as many
    as there are.  [acc] is the token being read; a run that starts with a letter and is too
    short holds no token. *)
Definition token_char (c : ascii) : bool := is_ascii_lower c || is_digit c || Ascii.eqb c "-".
Definition emit (acc : list ascii) : list string := if (3 <=? length acc)%nat then [of_chars acc] else [].
Fixpoint find_tokens (acc : list ascii) (l : list ascii) : list string :=
  match l with
  | [] => emit acc
  | c :: l' =>
      match acc with
      | [] => if is_ascii_lower c then find_tokens [c] l' else find_tokens [] l'
      | _ :: _ => if token_char c then find_tokens (acc ++ [c]) l' else emit acc ++ find_tokens [] l'
      end
  end.
Definition normalize_terms (text : option string) : gset string :=
  match text with
  | None => ∅
  | Some t => filter (λ w, w ∉ STOPWORDS) (list_to_set (find_tokens [] (chars (str_lower t))))
  end.

Definition category_key (category_no subcategory_no : option string) : option string :=
  let cat := str_strip (default "" category_no) in
  if str_empty cat then None
  else let sub := str_strip (default "" subcategory_no) in
       Some (if str_empty sub then cat else cat +:+ "." +:+ sub).
(** [str(it.get(key) or "") or None] *)
Definition item_text (key : string) (it : list (string * pyval)) : option string :=
  let v := default PNone (dict_get key it) in
  let s := if py_truthy v then py_str v else "" in
  if str_empty s then None else Some s.
Fixpoint categories_from_finding_items (items : list pyval) : Res (gset string) :=
  match items with
  | [] => Ok ∅
  | PDict it :: items' =>
      keys ← categories_from_finding_items items';
      Ok (match category_key (item_text "category_no" it) (item_text "subcategory_no" it) with
          | Some key => {[key]} ∪ keys
          | None => keys
          end)
  | _ :: _ => Raise (AttributeError "get")
  end.

Definition severity_bands : list string := ["fatal"; "serious"; "minor"; "none"].
Definition normalize_severity_text (value : string) : option string :=
  let v := str_lower (str_strip value) in
  List.find (λ band, str_contains band v) severity_bands.
Definition normalize_severity (value : pyval) : Res (option string) :=
  if py_truthy value then
    match value with
    | PStr s => Ok (normalize_severity_text s)
    | _ => Raise (AttributeError "strip")
    end
  else Ok None.

Definition non_empty (o : option string) : option string := if text_truthy o then o else None.
Definition build_hazard_profile (finding_categories : list (option string)) (far_part aircraft_category severity : option string)
    (scrubbed_narrative : option string) (extra_terms : list string) : HazardProfile :=
  let terms := normalize_terms scrubbed_narrative
               ∪ list_to_set (List.filter (λ t, negb (str_empty t)) (map (λ s, str_lower (str_strip s)) extra_terms)) in
  mkProfile
    (list_to_set (omap (λ c, c ← non_empty c; let s := str_strip c in if str_empty s then None else Some s) finding_categories))
    (non_empty far_part) (non_empty aircraft_category) (non_empty severity ≫= normalize_severity_text) terms.

(** ** echo_matcher.py *)
Definition jaccard (a b : gset string) : float :=
  if bool_decide (a = ∅) || bool_decide (b = ∅) then f_zero
  else f_div_int (Z.of_nat (size (a ∩ b))) (Pos.of_nat (size (a ∪ b))).
Definition overlap_coefficient (a b : gset string) : float :=
  if bool_decide (a = ∅) || bool_decide (b = ∅) then f_zero
  else f_div_int (Z.of_nat (size (a ∩ b))) (Pos.of_nat (Nat.min (size a) (size b))).

Record MatcherWeights := mkWeights { mw_finding_categories : float; mw_attributes : float; mw_lexical : float }.
Definition default_weights : MatcherWeights :=
  mkWeights (f_of_decimal false 5 (-1)) (f_of_decimal false 2 (-1)) (f_of_decimal false 3 (-1)).
Record SupportThresholds := mkThresholds { th_strong : float; th_moderate : float; th_weak : float }.
Definition default_thresholds : SupportThresholds :=
  mkThresholds (f_of_decimal false 60 (-2)) (f_of_decimal false 35 (-2)) (f_of_decimal false 15 (-2)).
Definition band (t : SupportThresholds) (score : float) : EvidenceSupport :=
  if f_geb score (th_strong t) then STRONG
  else if f_geb score (th_moderate t) then MODERATE
  else if f_geb score (th_weak t) then WEAK
  else NO_SUPPORT.
Definition support_rank (s : EvidenceSupport) : nat :=
  match s with NO_SUPPORT => 0 | WEAK => 1 | MODERATE => 2 | STRONG => 3 end%nat.

Definition comma_join (l : list string) : string := of_chars (Text.join (chars ", ") (map chars l)).
Definition count_of {A} `{Size A} (s : A) : string := int_str (Z.of_nat (size s)).

Section matcher.
Context (w : MatcherWeights) (t : SupportThresholds).

Definition categories_component (profile : HazardProfile) (record : PrecedentRecord) : option MatchComponent :=
  if bool_decide (hp_finding_categories profile = ∅) then None
  else
    let shared := hp_finding_categories profile ∩ pr_finding_categories record in
    Some (mkComponent "finding_categories" (mw_finding_categories w)
            (jaccard (hp_finding_categories profile) (pr_finding_categories record))
            (if bool_decide (shared = ∅) then "no shared cause categories" else count_of shared +:+ " shared cause categories")).
Definition agrees (r : option pyval) (p : string) : bool :=
  match r with Some (PStr s) => String.eqb s p | _ => false end.
(** The attributes the profile asserts, and whether the record agrees. *)
Definition asserted (profile : HazardProfile) (record : PrecedentRecord) : list (string * bool) :=
  omap (λ a : string * option string * option pyval, (λ p, (a.1.1, agrees a.2 p)) <$> a.1.2)
    [("far_part", hp_far_part profile, pr_far_part record);
     ("aircraft_category", hp_aircraft_category profile, pr_aircraft_category record);
     ("severity", hp_severity profile, PStr <$> pr_severity record)].
Definition attributes_component (profile : HazardProfile) (record : PrecedentRecord) : option MatchComponent :=
  match asserted profile record with
  | [] => None
  | pairs =>
      let matches := (List.filter snd pairs).*1 in
      Some (mkComponent "attributes" (mw_attributes w)
              (f_div_int (Z.of_nat (length matches)) (Pos.of_nat (length pairs)))
              (match matches with [] => "no attribute matches" | _ => "matched: " +:+ comma_join matches end))
  end.
Definition lexical_component (profile : HazardProfile) (record : PrecedentRecord) : option MatchComponent :=
  if bool_decide (hp_terms profile = ∅) then None
  else Some (mkComponent "lexical" (mw_lexical w) (overlap_coefficient (hp_terms profile) (pr_terms record))
               (count_of (hp_terms profile ∩ pr_terms record) +:+ " shared terms")).
Definition blend (components : list MatchComponent) : float :=
  let applicable := f_sum (map mc_weight components) in
  if f_gtb applicable f_zero
  then f_div (f_sum (map (λ c, f_mul (mc_weight c) (mc_score c)) components)) applicable
  else f_zero.

Definition score_one (profile : HazardProfile) (record : PrecedentRecord) : PrecedentMatch :=
  let components := omap id [categories_component profile record; attributes_component profile record;
                             lexical_component profile record] in
  let score := blend components in
  mkMatch (pr_event_id record) (f_round score 4) (band t score) components
    (hp_finding_categories profile ∩ pr_finding_categories record) (hp_terms profile ∩ pr_terms record)
    (pr_occurred_on record) (pr_location record) (pr_aircraft record) (pr_probable_cause record).

(** [(-score, event_id)] *)
Definition by_score (x y : PrecedentMatch) : bool :=
  f_gtb (pm_score x) (pm_score y) || (f_eqb (pm_score x) (pm_score y) && String.leb (pm_event_id x) (pm_event_id y)).
Definition keeps (min_support : EvidenceSupport) (m : PrecedentMatch) : bool :=
  (support_rank min_support <=? support_rank (pm_support m))%nat && f_gtb (pm_score m) f_zero.
(** [l[:n]] *)
Definition slice_to {A} (n : Z) (l : list A) : list A :=
  take (Z.to_nat (if 0 <=? n then n else Z.of_nat (length l) + n)) l.
Definition rank (profile : HazardProfile) (records : list PrecedentRecord) (limit : Z) (min_support : EvidenceSupport)
    : list PrecedentMatch :=
  if is_empty profile then []
  else slice_to limit (py_sorted by_score (List.filter (keeps min_support) (map (score_one profile) records))).
End matcher.

(** ** application/crossref/__init__.py *)
Definition claim_value (claims : list (string * pyval)) (field : string) : pyval := default PNone (dict_get field claims).
(** [claims.get(field) or None] *)
Definition value_or_none (claims : list (string * pyval)) (field : string) : option pyval :=
  let v := claim_value claims field in if py_truthy v then Some v else None.
(** [str(claims.get(field) or "")] *)
Definition text_or_empty (claims : list (string * pyval)) (field : string) : string :=
  from_option py_str "" (value_or_none claims field).
(** The parts that are not empty, joined; [None] when there is none. *)
Definition join_parts (sep : string) (parts : list string) : option string :=
  match List.filter (λ p, negb (str_empty p)) parts with
  | [] => None
  | ps => Some (of_chars (Text.join (chars sep) (map chars ps)))
  end.

Definition precedent_record_from_ntsb_claims (event_id : string) (claims : list (string * pyval)) : Res PrecedentRecord :=
  finding_cats ← match value_or_none claims "causal_findings" with
                 | Some (PList items) => categories_from_finding_items items
                 | _ => Ok ∅
                 end;
  severity ← normalize_severity (claim_value claims "highest_injury_level");
  Ok (mkPrecedent event_id finding_cats (value_or_none claims "far_part") (value_or_none claims "aircraft_category") severity
        (normalize_terms (Some (default ""
           (join_parts " " [text_or_empty claims "probable_cause_narrative"; text_or_empty claims "factual_narrative"]))))
        (value_or_none claims "occurred_on")
        (join_parts ", " [text_or_empty claims "location_city"; text_or_empty claims "location_state"])
        (join_parts " " [text_or_empty claims "aircraft_make"; text_or_empty claims "aircraft_model"])
        ((λ pc, str_take 300 (py_str pc)) <$> value_or_none claims "probable_cause_narrative")).

Definition cross_reference (profile : HazardProfile) (precedent_corpus : list PrecedentRecord) (limit : Z) : list PrecedentMatch :=
  rank default_weights default_thresholds profile precedent_corpus limit WEAK.

(** InMemoryCorpusLoader: a record that cannot be built is skipped. *)
Definition corpus_of (rows : list (string * list (string * pyval))) : list PrecedentRecord :=
  omap (λ row, match precedent_record_from_ntsb_claims row.1 row.2 with Ok r => Some r | Raise _ => None end) rows.

(** ** echo_crossref._serialise_match *)
Definition or_null (o : option string) : pyval := from_option PStr PNone o.
Definition strings_json (s : gset string) : pyval := PList (map PStr (sort_strings (elements s))).
Definition serialise_match (m : PrecedentMatch) : pyval :=
  PDict [("event_id", PStr (pm_event_id m)); ("score", PFloat (pm_score m)); ("support", PStr (support_value (pm_support m)));
         ("components", PList (map (λ c, PDict [("name", PStr (mc_name c)); ("weight", PFloat (mc_weight c));
                                                ("score", PFloat (mc_score c)); ("detail", PStr (mc_detail c))]) (pm_components m)));
         ("shared_finding_categories", strings_json (pm_shared_finding_categories m));
         ("shared_terms", strings_json (pm_shared_terms m));
         ("display_occurred_on", default PNone (pm_occurred_on m)); ("display_location", or_null (pm_location m));
         ("display_aircraft", or_null (pm_aircraft m)); ("display_probable_cause", or_null (pm_probable_cause m))].

(** ** Examples *)
Example terms_of_a_report :
  elements (normalize_terms (Some "The pilot heard a Rod-knock; ENGINE x2 failed in IFR, rod-knock 3rd"))
    ≡ₚ ["rod-knock"; "engine"; "failed"; "ifr"; "heard"].
Proof. apply (bool_decide_unpack _). vm_compute. exact I. Qed.
(** "Non-fatal" is read as fatal. *)
Example non_fatal_is_fatal : normalize_severity (PStr "Non-Fatal") = Ok (Some "fatal").
Proof. vm_compute. reflexivity. Qed.

Definition words (n : nat) : gset string := list_to_set (map (λ k, "w" +:+ int_str (Z.of_nat k)) (seq 0 n)).
(** Fourteen of fifteen terms and no shared category: the similarity is 0.35 and reported as
    0.35, the threshold of a moderate match, but the sum falls just below it and the band
    is taken before rounding. *)
Example band_below_the_reported_score :
  let m := score_one default_weights default_thresholds
             (mkProfile {["01.02"]} None None None (words 15))
             (mkPrecedent "e" ∅ None None None (words 14 ∪ {["x"; "y"]}) None None None None) in
  (f_eqb (pm_score m) (th_moderate default_thresholds), pm_support m) = (true, WEAK).
Proof. vm_compute. reflexivity. Qed.
