(* ===== verification/EchoFacts.v ===== *)
(** What holds of Echo: the ranking returns the best precedents of the corpus, whatever its
    order, and every one of them has something in common with the hazard. *)
From Stdlib Require Import Ascii.
From S2P Require Import Prelude Text PyFloat PyVal Entities Store Echo.
From stdpp Require Import gmap sets strings.
From stdpp Require Import list.
Open Scope string_scope.
Open Scope list_scope.
Open Scope Z_scope.

(** ** Sorting the scores that are numbers *)
Lemma py_sorted_ext {A} (le1 le2 : A → A → bool) (l : list A) :
  (∀ x y, x ∈ l → y ∈ l → le1 x y = le2 x y) → py_sorted le1 l = py_sorted le2 l.
Proof.
  induction l as [|x l IH]; intros H; [done|]. simpl. rewrite IH by (intros; apply H; by right).
  assert (∀ y, y ∈ py_sorted le2 l → le1 x y = le2 x y) as Hx.
  { intros y Hy%elem_of_py_sorted. apply H; [by left|by right]. }
  revert Hx. generalize (py_sorted le2 l). intros l'. induction l' as [|y l' IHl]; intros Hx; [done|].
  simpl. rewrite Hx by (by left).
  case_match; [done|]. f_equal. apply IHl. intros z Hz. apply Hx. by right.
Qed.

(** Scores that are no numbers last: an order of all matches. *)
Definition ordered (x y : PrecedentMatch) : bool :=
  is_nan (pm_score y) || negb (is_nan (pm_score x)) && by_score x y.
Lemma by_score_spec x y : by_score x y = true ↔
  f_ltb (pm_score y) (pm_score x) = true
  ∨ f_eqb (pm_score x) (pm_score y) = true ∧ String.leb (pm_event_id x) (pm_event_id y) = true.
Proof. unfold by_score, f_gtb. rewrite orb_true_iff, andb_true_iff. done. Qed.
Lemma ordered_total x y : ordered x y = true ∨ ordered y x = true.
Proof.
  unfold ordered. destruct (is_nan (pm_score x)) eqn:Hx, (is_nan (pm_score y)) eqn:Hy; auto. simpl.
  rewrite !by_score_spec. destruct (f_trichotomy _ _ Hx Hy) as [H|[H|H]]; [by right; left| |by left; left].
  rewrite (f_eqb_sym (pm_score y)). destruct (string_leb_total (pm_event_id x) (pm_event_id y)); [left|right]; by right.
Qed.
Lemma ordered_trans x y z : ordered x y = true → ordered y z = true → ordered x z = true.
Proof.
  unfold ordered. destruct (is_nan (pm_score z)) eqn:Hz; [done|]. simpl.
  destruct (is_nan (pm_score y)) eqn:Hy; [done|]. simpl. destruct (is_nan (pm_score x)); [done|]. simpl.
  rewrite !by_score_spec. intros [H1|[E1 L1]] [H2|[E2 L2]].
  - left. by eapply f_ltb_trans.
  - left. rewrite f_ltb_rank in H1 |- *. rewrite f_eqb_rank in E2. destruct H1 as (? & ? & H1), E2 as (_ & ? & E2). by rewrite <- E2.
  - left. rewrite f_ltb_rank in H2 |- *. rewrite f_eqb_rank in E1. destruct H2 as (? & ? & H2), E1 as (? & _ & E1). by rewrite E1.
  - right. split; [by eapply f_eqb_trans|by eapply string_leb_trans].
Qed.

Section ranking.
#[local] Set Default Proof Using "Type*".
Context (w : MatcherWeights) (t : SupportThresholds) (profile : HazardProfile) (min_support : EvidenceSupport).

(** The matches that qualify. *)
Definition qualifying (records : list PrecedentRecord) : list PrecedentMatch :=
  List.filter (keeps min_support) (map (score_one w t profile) records).
Lemma qualifying_spec records m : m ∈ qualifying records ↔
  keeps min_support m = true ∧ ∃ r, r ∈ records ∧ m = score_one w t profile r.
Proof using.
  unfold qualifying. rewrite list_elem_of_In, filter_In, in_map_iff. split.
  - intros [(r & <- & Hr) Hk]. split; [done|]. exists r. by rewrite list_elem_of_In.
  - intros [Hk (r & Hr & ->)]. split; [|done]. exists r. by rewrite <- list_elem_of_In.
Qed.
Lemma qualifying_number records m : m ∈ qualifying records → is_nan (pm_score m) = false.
Proof using.
  intros [Hk _]%qualifying_spec. apply andb_true_iff in Hk as [_ Hk]. unfold f_gtb in Hk.
  apply f_ltb_rank in Hk as (_ & ? & _). done.
Qed.
Lemma qualifying_perm records records' : records ≡ₚ records' → qualifying records ≡ₚ qualifying records'.
Proof using.
  unfold qualifying. induction 1 as [|x l l' _ IH|x y l|l1 l2 l3 _ IH1 _ IH2]; simpl; [done| | |by etrans].
  - case_match; [by constructor|done].
  - repeat case_match; try done. constructor.
Qed.

Lemma sorted_qualifying records : py_sorted by_score (qualifying records) = py_sorted ordered (qualifying records).
Proof using.
  apply py_sorted_ext. intros x y Hx%qualifying_number Hy%qualifying_number. unfold ordered. by rewrite Hx, Hy.
Qed.

Lemma same_match records x y : NoDup (pr_event_id <$> records) → x ∈ qualifying records → y ∈ qualifying records →
  pm_event_id x = pm_event_id y → x = y.
Proof using.
  intros Hnd (_ & r & Hr & ->)%qualifying_spec (_ & r' & Hr' & ->)%qualifying_spec E. f_equal.
  by apply (NoDup_fmap_inj_elem pr_event_id records).
Qed.
Lemma ordered_antisym records x y : NoDup (pr_event_id <$> records) → x ∈ qualifying records → y ∈ qualifying records →
  ordered x y = true → ordered y x = true → x = y.
Proof using.
  intros Hnd Hx Hy. pose proof (qualifying_number _ _ Hx) as Nx. pose proof (qualifying_number _ _ Hy) as Ny.
  unfold ordered. rewrite Nx, Ny. simpl. rewrite !by_score_spec. intros [H1|[E1 L1]] [H2|[E2 L2]].
  - rewrite (f_ltb_asym _ _ H1) in H2. done.
  - rewrite f_ltb_rank in H1. rewrite f_eqb_rank in E2. destruct H1 as (_ & _ & H1), E2 as (_ & _ & E2). rewrite E2 in H1. unfold PyFloat.rank_lt in H1. lia.
  - rewrite f_ltb_rank in H2. rewrite f_eqb_rank in E1. destruct H2 as (_ & _ & H2), E1 as (_ & _ & E1). rewrite E1 in H2. unfold PyFloat.rank_lt in H2. lia.
  - eapply same_match; [done|done|done|]. by apply string_leb_antisym.
Qed.
End ranking.

Lemma slice_to_nonneg {A} n (l : list A) : 0 ≤ n → slice_to n l = take (Z.to_nat n) l.
Proof. intros H. unfold slice_to. destruct (0 <=? n) eqn:E; [done|lia]. Qed.
Lemma sorted_before {A} (R : A → A → Prop) (l : list A) n x y : StronglySorted R l → x ∈ take n l → y ∈ drop n l → R x y.
Proof.
  intros Hs. revert n. induction Hs as [|z l _ IH Hz]; intros n Hx Hy; [by rewrite take_nil in Hx; apply elem_of_nil in Hx|].
  destruct n as [|n]; [by apply elem_of_nil in Hx|]. simpl in *. apply elem_of_cons in Hx as [ ->|Hx]; [|by eapply IH].
  apply (proj1 (Forall_forall _ _) Hz). rewrite <- (take_drop n l). apply elem_of_app. by right.
Qed.
Lemma sorted_take {A} (R : A → A → Prop) (l : list A) n : StronglySorted R l → StronglySorted R (take n l).
Proof.
  intros Hs. revert n. induction Hs as [|z l _ IH Hz]; intros [|n]; simpl; try constructor; [apply IH|].
  rewrite <- (take_drop n l) in Hz. by apply Forall_app in Hz as [? _].
Qed.

(** ** A reason for every match *)
Definition agreeing (profile : HazardProfile) (record : PrecedentRecord) : list string := (List.filter snd (asserted profile record)).*1.

Lemma blend_of_nothing (cats : option string) (attrs : option string) (lex : option string) :
  let part name weight := fmap (mkComponent name weight f_zero) in
  blend (omap id [part "finding_categories" (mw_finding_categories default_weights) cats;
                  part "attributes" (mw_attributes default_weights) attrs;
                  part "lexical" (mw_lexical default_weights) lex]) = f_zero.
Proof. destruct cats, attrs, lex; vm_compute; reflexivity. Qed.

Lemma nothing_shared t profile record :
  hp_finding_categories profile ∩ pr_finding_categories record = ∅ → agreeing profile record = [] →
  hp_terms profile ∩ pr_terms record = ∅ → pm_score (score_one default_weights t profile record) = f_zero.
Proof.
  intros Hc Ha Ht.
  assert (∃ d, categories_component default_weights profile record
    = mkComponent "finding_categories" (mw_finding_categories default_weights) f_zero <$> d) as [dc Ec].
  { unfold categories_component. case_bool_decide; [by exists None|]. rewrite Hc. eexists (Some _). cbn. f_equal. f_equal.
    unfold jaccard. rewrite Hc, size_empty. by case_match. }
  assert (∃ d, attributes_component default_weights profile record
    = mkComponent "attributes" (mw_attributes default_weights) f_zero <$> d) as [da Ea].
  { unfold attributes_component. unfold agreeing in Ha. destruct (asserted profile record) as [|a l]; [by exists None|].
    rewrite Ha. by eexists (Some _). }
  assert (∃ d, lexical_component default_weights profile record
    = mkComponent "lexical" (mw_lexical default_weights) f_zero <$> d) as [dl El].
  { unfold lexical_component. case_bool_decide; [by exists None|]. rewrite Ht. eexists (Some _). cbn. f_equal. f_equal.
    unfold overlap_coefficient. rewrite Ht, size_empty. by case_match. }
  unfold score_one. cbv zeta. cbn [pm_score]. rewrite Ec, Ea, El, blend_of_nothing. reflexivity.
Qed.

(** a cross-reference returns the best precedents of the corpus, each for a reason.  The
    matches come in the order of their scores, ties by the event; there are as many as the
    limit allows of those that qualify; no match that was left out ranks before one that
    was returned; every match is the score of a record of the corpus, is supported, and
    shares a cause category, an asserted attribute or a term with the hazard; and the
    answer does not depend on the order of the corpus. *)
Theorem cross_reference_returns_the_best profile corpus limit :
  0 ≤ limit → NoDup (pr_event_id <$> corpus) → is_empty profile = false →
  let answer := cross_reference profile corpus limit in
  let all := qualifying default_weights default_thresholds profile WEAK corpus in
  StronglySorted (λ x y, by_score x y = true) answer
  ∧ length answer = Nat.min (Z.to_nat limit) (length all)
  ∧ (∀ m, m ∈ answer → m ∈ all ∧ pm_support m ≠ NO_SUPPORT
       ∧ ∃ r, r ∈ corpus ∧ m = score_one default_weights default_thresholds profile r
         ∧ (pm_shared_finding_categories m ≠ ∅ ∨ agreeing profile r ≠ [] ∨ pm_shared_terms m ≠ ∅))
  ∧ (∀ m, m ∈ all → m ∉ answer → ∀ x, x ∈ answer → by_score x m = true)
  ∧ ∀ corpus', corpus' ≡ₚ corpus → cross_reference profile corpus' limit = answer.
Proof.
  intros Hlim Hnd Hne answer all.
  assert (∀ c, cross_reference profile c limit
    = take (Z.to_nat limit) (py_sorted ordered (qualifying default_weights default_thresholds profile WEAK c))) as Heq.
  { intros c. unfold cross_reference, rank. rewrite Hne, slice_to_nonneg by done. f_equal. apply sorted_qualifying. }
  subst answer. rewrite Heq. fold all. set (sorted := py_sorted ordered all).
  assert (StronglySorted (λ x y, ordered x y = true) sorted) as Hs by (apply py_sorted_sorted; [apply ordered_total|apply ordered_trans]).
  assert (∀ m, m ∈ sorted ↔ m ∈ all) as Hin by (intros m; apply elem_of_py_sorted).
  assert (∀ m, m ∈ take (Z.to_nat limit) sorted → m ∈ all) as Htake.
  { intros m Hm. apply Hin. rewrite <- (take_drop (Z.to_nat limit) sorted). apply elem_of_app. by left. }
  assert (∀ x y, x ∈ all → y ∈ all → ordered x y = true → by_score x y = true) as Hord.
  { intros x y Hx%qualifying_number Hy%qualifying_number. unfold ordered. by rewrite Hx, Hy. }
  split_and!.
  - apply (sorted_take _ _ (Z.to_nat limit)) in Hs. revert Hs Htake. generalize (take (Z.to_nat limit) sorted). intros l Hs Hl.
    induction Hs as [|x l Hs IH Hx]; constructor; [apply IH; intros m Hm; apply Hl; by right|].
    apply Forall_forall. intros y Hy. apply Hord; [apply Hl; by left|apply Hl; by right|].
    by apply (proj1 (Forall_forall _ _) Hx).
  - rewrite length_take. unfold sorted. by rewrite length_py_sorted.
  - intros m Hm%Htake. split; [done|]. apply qualifying_spec in Hm as [Hk (r & Hr & ->)].
    apply andb_true_iff in Hk as [Hk1 Hk2]. split.
    { intros E. rewrite E in Hk1. done. }
    exists r. split_and!; [done|done|]. cbn [score_one pm_shared_finding_categories pm_shared_terms].
    destruct (decide (hp_finding_categories profile ∩ pr_finding_categories r = ∅)) as [Hc|]; [|by left].
    destruct (decide (agreeing profile r = [])) as [Ha|]; [|by right; left].
    destruct (decide (hp_terms profile ∩ pr_terms r = ∅)) as [Ht|]; [|by right; right].
    exfalso. rewrite nothing_shared in Hk2 by done. done.
  - intros m Hm Hn x Hx. apply Hord; [by apply Htake|done|].
    apply (sorted_before (λ x y, ordered x y = true) sorted (Z.to_nat limit)); [done|done|]. apply Hin in Hm.
    rewrite <- (take_drop (Z.to_nat limit) sorted) in Hm. by apply elem_of_app in Hm as [?|?].
  - intros corpus' Hp. rewrite Heq. f_equal. apply py_sorted_perm_eq; [apply ordered_total|apply ordered_trans| |by apply qualifying_perm].
    intros x y Hx Hy. apply (ordered_antisym default_weights default_thresholds profile WEAK corpus'); [by rewrite Hp|done|done].
Qed.

(** Three records; one shares nothing. *)
Definition sample_hazard : HazardProfile :=
  build_hazard_profile [Some " 01.02 "] (Some "121") None (Some "Fatal injuries") (Some "Engine fire after takeoff") [].
Definition sample_corpus : list PrecedentRecord :=
  omap (λ r, match r with Ok x => Some x | Raise _ => None end)
    [precedent_record_from_ntsb_claims "b" [("far_part", PStr "121"); ("probable_cause_narrative", PStr "An engine fire.")];
     precedent_record_from_ntsb_claims "c" [("far_part", PStr "91"); ("factual_narrative", PStr "Bird strike on landing")];
     precedent_record_from_ntsb_claims "a"
       [("causal_findings", PList [PDict [("category_no", PStr "01"); ("subcategory_no", PStr "02")]]); ("far_part", PStr "121");
        ("highest_injury_level", PStr "FATAL"); ("factual_narrative", PStr "Fire in the engine after takeoff")]].
Lemma cross_reference_returns_the_best_witness :
  let answer := cross_reference sample_hazard sample_corpus 20 in
  pm_event_id <$> answer = ["a"; "b"] ∧ pm_support <$> answer = [STRONG; MODERATE]
  ∧ cross_reference sample_hazard (rev sample_corpus) 20 = answer.
Proof.
  assert (NoDup (pr_event_id <$> sample_corpus)) as Hnd by (apply (bool_decide_unpack _); vm_compute; exact I).
  destruct (cross_reference_returns_the_best sample_hazard sample_corpus 20 ltac:(lia) Hnd eq_refl) as (_ & _ & _ & _ & Hp).
  refine (conj _ (conj _ (Hp _ _))); [vm_compute; reflexivity|vm_compute; reflexivity|].
  symmetry. apply Permutation_rev.
Defined.
